(* ===== verification/_CoqProject ===== *)
-Q . S2P
Prelude.v
RustStr.v
Find.v
Base64.v
AppxTail.v
AppxZip.v
DerWire.v
PeDigest.v
Xml.v
AppxParts.v
AppxTypes.v
AppxDigest.v
AppxVerify.v
AppxWritten.v
AppxLayout.v
MsixStage.v
MsixBlockMap.v
MsixSign.v
AppxBinds.v
PeEmbed.v
PeSign.v
PeFile.v
VerifyPe.v
PageHashes.v
CabDigest.v
ZipAuth.v
EsdDigest.v
Msi.v
PsScript.v
WshScript.v
Rdp.v
Tlv.v
Online.v
CertChain.v
NativeArgv.v
ResponseArgv.v
ZipWrite.v
ZipStored.v
NuGet.v
NuGetSign.v
CodePattern.v
CodeBraces.v
CodeSelect.v
CodeRules.v
CodePlan.v
CodeXml.v
ClickOnce.v
BTree.v
C14n.v
C14nRead.v
Vsix.v
VsixTotal.v
VsixEmbed.v
VsixVerify.v
VsixSign.v
VsixBinds.v
