(* ===== verification/Prelude.v ===== *)
(** * psign: portable Authenticode tooling, a verification library

    psign signs, verifies and strips Authenticode signatures of PE images,
    cabinets, ZIP archives, APPX and MSIX packages, NuGet and VSIX packages,
    Windows Installer databases, WIM images, scripts and Remote Desktop files, without the Windows APIs, and offers the command line of Windows
    [signtool].  This library is a shallow embedding of its format code: every
    operation is a function over byte lists and machine integers, translated
    from the Rust source, and the theorems are about those functions.

    ** The program and the files that model it

    A signature is made in three steps and checked by repeating them.  A
    container module computes the Authenticode digest of a file with the
    signature's place left out; the PKCS#7 over that digest is built by
    third-party crates; the container module writes it into the file.  To
    verify, the PKCS#7 is read back, normalised and parsed, the digest is
    computed again and compared with the one inside, and the signer's chain is
    led to an anchor.

    - [Prelude]: results ([outcome]: [Ok], [Err] with the message, [Panic]),
      bytes, machine integers, slices with the panics of Rust's indexing,
      loops over explicit state, the automation.
    - [RustStr], [Find]: what is used of Rust's strings: UTF-8 and UTF-16
      codecs, trimming, splitting, searching, case.  [Base64] is the interface
      of the [base64] engine with an implementation.
    - [DerWire] ([psign-sip-digest/src/pkcs7_wire.rs]): the TLV reader and
      writer on byte ranges and the normalisation every PKCS#7 goes through.
    - [PeDigest], [PeFile] ([pe_digest.rs]): hash kinds, hasher, digest
      ranges; parsing and digest of a PE file.  [PeEmbed] ([pe_embed.rs]): the
      certificate table.  [PeSign] relates the two.  [VerifyPe]
      ([verify_pe.rs]) is the digest check of all embedded signatures, and
      [PageHashes] ([page_hashes.rs]) the page-hash attribute.
    - [CabDigest] ([cab_digest.rs]), [ZipAuth] ([zip_authenticode.rs]),
      [EsdDigest] ([esd_digest.rs]), [Msi] ([msi_digest.rs]), [Rdp]
      ([rdp.rs]): the other containers.
    - [PsScript] ([ps_script.rs], the script half of [psign-portable-core] and
      [src/portable_remove.rs]) and [WshScript] ([wsh_script.rs], dispatch of
      [lib.rs]): scripts whose signature is a block of comment lines.
    - APPX and MSIX packages ([msix_digest.rs], [psign-portable-core/src/
      appx_zip.rs]): [AppxTail] (end records, directory check, normalisation),
      [AppxZip] (the package writer), [Xml] (events and attributes),
      [AppxParts] (part names, block map, inventory), [AppxTypes] (content
      types, read and generated), [AppxDigest] (layout check, the five digest
      pieces, verification and signing digest), and what is proved of them:
      [AppxVerify], [AppxLayout], [AppxBinds], and [AppxWritten], which says
      what the reader finds in a written package.  [MsixStage]
      ([psign-portable-core/src/lib.rs]) stages packages and bundles and signs
      them ([sign_msix]), [MsixBlockMap] is about the block maps it writes and
      [MsixSign] about the signed packages.
    - OPC packages: [ZipWrite] is the interface of the ZIP writer with its laws
      and [ZipStored] an implementation that stores every entry.  [NuGet]
      ([psign-opc-sign/src/nuget.rs], [opc.rs], [trust_verify_nuget.rs] and
      [sign_nuget]): the exact bytes a NuGet signature covers, its content,
      embedding and extracting it; [NuGetSign] is about signed packages.
      [BTree]: maps in the order of their keys.  [Vsix] ([vsix.rs], [opc.rs],
      [sign_vsix]): content types, relationships, the prepared package and the
      signature template, embedding and reference checks; [VsixTotal] shows
      that its loops end and [VsixEmbed] that what is embedded is extracted.
      [C14n] ([psign-authenticode-trust/src/xml_c14n.rs]): documents and their
      canonical form, [C14nRead] reads documents back.  [VsixVerify]
      ([trust_verify_vsix.rs]) is the verification of VSIX signatures,
      [VsixSign] shows that it accepts what [Vsix] signs and [VsixBinds] what
      an accepted signature says of the package.
    - [Tlv], [Online], [CertChain] ([psign-authenticode-trust/src/online.rs],
      [policy.rs], [anchor.rs], [chain.rs]): the DER reader of the online
      checks, issuer retrieval, OCSP and CRL checks, anchors and the walk
      from a leaf to a root.
    - [NativeArgv] ([src/native_argv.rs]) and [ResponseArgv]
      ([src/response_argv.rs]): the command line before clap sees it: Windows
      switches and response files.
    - The code command ([src/code.rs]), which signs the files of a directory
      tree: [CodePattern] (braces and globs), [CodeSelect] (the rules of the
      command line and the files they select), [CodePlan] (formats, the plan
      with the entries of packages, its run in order or in batches), [CodeXml]
      (XML edited as text, App Installer descriptors, ClickOnce manifests), and
      what is proved of them: [CodeBraces], [CodeRules], [ClickOnce].

    ** State and control

    A Rust function returning [Result] is a function into [outcome]; an
    out-of-range index or an [unwrap] of nothing is [Panic], never a default.
    A buffer the code mutates is threaded as a value.  [usize] and the other
    widths are [Z] with their tests and wrap-around written out ([checked_add],
    truncating casts, [mod 2^32]).  Errors carry the literal text of the
    message or of the outermost [context]; text interpolated into a message is
    left as its placeholder, except where the program searches the message
    ([Online.check_one_cert_crl]).

    A [for] or [while] loop is a structural recursion over the list it walks,
    or [loop step fuel] with the loop's variables as a record.  Fuel is a bound
    the loop cannot exceed, proved in each file by [loop_total] with a measure:
    the length of the input plus one where every round consumes input (DER
    children, TLV lists, cabinet strings, page-hash rows, ZIP comments, command
    lines, end records and directories of packages, the tags of content types
    and references), the length plus two for the 64 KiB chunks of a WIM image, four for
    the carry folding of the PE checksum, 34 for an issuer walk of at most 32
    steps.  A bundle's packages are verified by recursion on a depth: [None] is
    a nesting deeper than the depth given.  Deflating takes a fuel for the
    calls of [flate2], which this code does not bound.  Matching a glob takes
    the two lengths plus one, expanding braces their number plus one, walking a
    tree its directories plus one, looking for a tag the text plus one, looking
    for an identifier the text does not use its length plus one
    ([VsixTotal.unique_relationship_id_fresh]), visiting the storages of an
    installer database the depth the crate reports plus one; the
    nesting of packages in a plan is an argument, because it may have no end:
    planning ends when the archives reached nest to a finite depth
    ([CodePlan.planning_ends]), and an archive that holds itself does not
    ([CodePlan.self_holding_archive_never_planned]).  The walk with online retrieval takes its fuel as an argument,
    because it need not end: [CertChain.online_walk_terminates] gives the
    condition under which 66 rounds do, and
    [CertChain.unhelpful_server_never_ends] the case that runs for ever.

    ** Interfaces

    Code of third-party crates enters through type classes and arguments:
    [PeDigest.DigestOracle] (the hash functions; law: the output size),
    [Base64.Base64] (laws: decoding inverts encoding, the alphabet; discharged
    by an implementation), [PeFile.PeCrates] (object and authenticode: header
    offsets, section ranges, certificate rows, the digest inside a PKCS#7),
    [PageHashes.CmsCrates] (der and cms), [Online.X509Crates] (x509-cert,
    picky, rsa, time), [AppxDigest.ZipCrate] (zip), [Xml.XmlReader]
    (quick-xml, for packages), [C14n.QuickXml] with [C14nRead.QuickXmlLaws]
    (quick-xml, for documents; laws: expanding the entities of an escaped
    attribute gives it back, and the events of a document written out are those
    of its elements, discharged for [SimpleXml]), [AppxZip.Flate]
    (flate2), [ZipWrite.ZipWriterCrate] with [ZipWrite.ZipLaws] (zip, writing;
    laws: where entries are laid out, and that they are read back, discharged
    for [ZipStored]), [Msi.CfbCrate] with [Msi.CfbLaws] (cfb; laws: what
    reading a stream gives after a write, discharged for a toy).  What a theorem needs of them beyond the laws is a named
    hypothesis, such as [VerifyPe.reads_signed_files]; every such theorem is
    run in its witness on a concrete instance ([ToyDigest], [ToyPe], [ToyX509],
    [ToyXml]).
    The file system is a function from paths to contents, a finite map or, for
    the code command, a tree of directories, files and links with the paths of
    Unix.  The network is a function from host, port and request to the reads
    the socket gives, and the clock a date.  The functions are the same for every call, so a
    server that changes its answers within one run is not covered.

    ** What the theorems show

    - Sign, then verify, for every container: [VerifyPe.pe_sign_then_verify],
      [CabDigest.cab_sign_then_verify], [ZipAuth.zip_sign_then_verify],
      [PsScript.script_sign_then_verify], [Rdp.rdp_sign_then_verify],
      [MsixSign.msix_sign_then_verify] (for a [ZipCrate] that reads back what
      [write_appx_zip] writes, [reads_written]), [Msi.msi_sign_then_verify],
      [NuGetSign.nuget_sign_then_verify], [VsixSign.vsix_signature_verifies]
      (the document is the written form of its elements, and the octets signed
      are their canonical form); with
      [PeSign.signing_preserves_digest], and [PeEmbed.certificate_ops_refine],
      which refines append, replace and remove to a list of certificates.
    - Removing gives back what was signed: [PeEmbed.sign_strip_roundtrip],
      [PsScript.script_sign_then_remove].  Extracting gives back what was
      embedded: [VsixEmbed.vsix_embed_extract].
    - A signature binds the content, up to a collision of the bytes hashed:
      [PageHashes.page_hashes_bind_image], [EsdDigest.esd_signature_binds],
      [WshScript.wsh_signature_binds], [Rdp.rdp_blob_binds],
      [AppxBinds.package_digest_binds_contents], [Msi.msi_digest_binds_streams],
      [VsixBinds.vsix_signature_covers_package],
      [VsixBinds.vsix_signature_binds_parts].
    - What is accepted is described exactly: [VerifyPe.pe_consistency_spec],
      [PageHashes.flat_table_grammar], [PageHashes.embedded_page_hashes_spec],
      [NativeArgv.normalize_is_translation], [AppxParts.part_inventory_spec],
      [AppxVerify.verification_is_digest], [NuGetSign.signature_cut_out].
    - Packages: [AppxLayout.layout_tiles], [AppxParts.block_map_well_formed],
      [AppxTypes.generated_types_accepted], [AppxTail.appx_normal_form],
      [MsixBlockMap.flat_block_map_describes],
      [AppxZip.written_package_reads_back].
    - The code command: [CodePattern.glob_match_decides] (the matcher against
      the language of a pattern), [CodeBraces.expand_braces_denotes],
      [CodeSelect.select_inputs_spec], [CodePlan.plan_is_ordered],
      [CodePlan.batches_run_as_in_order] (workers that finish in any order; the
      handles of a batch are joined before its results are reported),
      [CodeRules.patterns_without_braces_stay_below],
      [ClickOnce.clickonce_resign].
    - XML: [C14n.canonicalize_attr_order], [C14nRead.parse_read],
      [C14nRead.parse_document_text] (documents written out are read back).
    - Trust: [CertChain.chain_to_anchor_sound],
      [Online.revocation_required_sound], [CertChain.online_offline_agree].
    - Codecs and layouts: [DerWire.normalize_spec],
      [CabDigest.cab_prepare_layout], [ZipAuth.zip_comment_roundtrip],
      [Online.ocsp_request_roundtrip], [ResponseArgv.response_file_roundtrip].
    - No input panics or hangs: [PeEmbed.pe_operations_never_panic],
      [Online.trust_parsers_never_panic],
      [ResponseArgv.response_expansion_terminates],
      [CodePattern.expand_braces_total].
    - Behaviour the code does not intend is stated too:
      [PsScript.utf16le_signature_refused], [PsScript.block_lines_not_covered],
      [CabDigest.cab_digest_panics_exactly], [NuGetSign.signature_cut_out],
      [CertChain.self_issued_leaf_unverified],
      [PeEmbed.odd_offset_checksum_unstable],
      [CertChain.unhelpful_server_never_ends],
      [AppxTypes.declared_manifest_type_lost],
      [MsixBlockMap.bundle_block_map_reads], [Online.best_effort_reads_the_url],
      [CodeRules.braces_leave_the_base], [CodeRules.escaped_braces_expand],
      [CodeRules.absolute_pattern_is_relative],
      [CodePattern.globstar_is_not_anchored],
      [CodePlan.self_holding_archive_never_planned].

    ** Not modelled

    Building and cryptographically verifying CMS messages, keys and X.509
    parsing are third-party crates; the CMS and RFC 3161 code of the program
    ([pkcs7.rs], [rfc3161_extract.rs], [trust_pkcs7.rs], [catalog_digest.rs],
    the AuthRoot list) rearranges their structures and is left with them.
    Command-line declarations, the REST clients, the signing server, the
    foreign-function interface and the Windows backends are calls of libraries
    and operating system.  What the code command does to the entries of a
    package, the trust decision after the signature of a VSIX or NuGet package
    was verified, and the wrappers that open and create files are left out. *)

From Stdlib Require Export ZArith Lia List String.
From stdpp Require Export base list strings.
From coqutil Require Import Byte.
From coqutil Require LittleEndianList.
Import LittleEndianList.

#[export] Set Default Goal Selector "!".

(** [lia] sees through [/] and [mod] by constants. *)
#[global] Ltac Zify.zify_post_hook ::= Z.to_euclidean_division_equations.

Declare Scope psign_scope.
Delimit Scope psign_scope with psign.
#[global] Open Scope Z_scope.

(** ** Results

    [outcome A] is what a Rust function returning [anyhow::Result<A>] does:
    it returns [Ok], it returns [Err] (the message is the literal text of the
    [anyhow!] format string, or of the outermost [context]), or it panics
    (an out-of-range index or slice, an [unwrap] of [None]). *)
Inductive outcome (A : Type) : Type :=
  | Ok (a : A)
  | Err (msg : string)
  | Panic.
Arguments Ok {A} a.
Arguments Err {A} msg%_string.
Arguments Panic {A}.

#[export] Instance outcome_ret : MRet outcome := @Ok.
#[export] Instance outcome_bind : MBind outcome := λ A B f m,
  match m with Ok a => f a | Err e => Err e | Panic => Panic end.
#[export] Instance outcome_fmap : FMap outcome := λ A B f m,
  match m with Ok a => Ok (f a) | Err e => Err e | Panic => Panic end.
#[export] Instance outcome_eq_dec {A} `{EqDecision A} : EqDecision (outcome A).
Proof. solve_decision. Defined.

(** [if c { return Err(anyhow!(msg)) }] *)
Definition bail_if (c : bool) (msg : string) : outcome unit :=
  if c then Err msg else Ok tt.
(** [opt.ok_or_else(|| anyhow!(msg))] *)
Definition ok_or {A} (o : option A) (msg : string) : outcome A :=
  match o with Some a => Ok a | None => Err msg end.
(** [opt.unwrap()] and the implicit unwrap of an index expression *)
Definition unwrap {A} (o : option A) : outcome A :=
  match o with Some a => Ok a | None => Panic end.
(** [res.context(msg)] *)
Definition with_context {A} (m : outcome A) (msg : string) : outcome A :=
  match m with Err _ => Err msg | _ => m end.
(** [res.ok()] *)
Definition ok_opt {A} (m : outcome A) : option A :=
  match m with Ok a => Some a | _ => None end.
Definition is_ok {A} (m : outcome A) : bool :=
  match m with Ok _ => true | _ => false end.
Definition is_err {A} (m : outcome A) : bool :=
  match m with Err _ => true | _ => false end.

#[export] Instance Ok_inj {A} : Inj (=) (=) (@Ok A).
Proof. by intros x y [= ->]. Qed.

Section OutcomeLemmas.
Context {A B : Type}.
Implicit Types (m : outcome A) (f : A → outcome B).

Lemma bind_Ok m f b : m ≫= f = Ok b ↔ ∃ a, m = Ok a ∧ f a = Ok b.
Proof. destruct m; cbn; (split; [by eauto|by intros (? & [=] & ?); subst]). Qed.

Lemma bind_Ok_l (a : A) f : Ok a ≫= f = f a.
Proof. done. Qed.

Lemma bind_not_panic m f :
  m ≠ Panic → (∀ a, m = Ok a → f a ≠ Panic) → m ≫= f ≠ Panic.
Proof. destruct m; cbn; naive_solver. Qed.
End OutcomeLemmas.

Lemma bail_if_Ok c msg u : bail_if c msg = Ok u ↔ c = false.
Proof. destruct u, c; cbn; naive_solver. Qed.
Lemma bail_bind_Ok {B} c msg (f : unit → outcome B) b :
  bail_if c msg ≫= f = Ok b ↔ c = false ∧ f tt = Ok b.
Proof.
  rewrite bind_Ok. split; [by intros ([] & ->%bail_if_Ok & ?)|].
  intros [-> ?]. by exists tt.
Qed.
Lemma bail_if_not_panic c msg : bail_if c msg ≠ Panic.
Proof. by destruct c. Qed.
Lemma ok_or_Ok {A} (o : option A) msg a : ok_or o msg = Ok a ↔ o = Some a.
Proof. destruct o; cbn; naive_solver. Qed.
Lemma ok_or_not_panic {A} (o : option A) msg : ok_or o msg ≠ Panic.
Proof. by destruct o. Qed.
Lemma unwrap_Ok {A} (o : option A) a : unwrap o = Ok a ↔ o = Some a.
Proof. destruct o; cbn; naive_solver. Qed.

(** ** Bytes and machine integers

    [usize] is 64 bits wide; [len] is the length of a buffer as a [Z]. *)
Abbreviation byte := Init.Byte.byte.
Abbreviation bytes := (list Init.Byte.byte).

#[export] Instance byte_eq_dec : EqDecision byte := Byte.byte_eq_dec.

Definition u8 (b : byte) : Z := byte.unsigned b.
Definition byte_of (z : Z) : byte := byte.of_Z z.
Abbreviation U16 := (2 ^ 16) (only parsing).
Abbreviation U32 := (2 ^ 32) (only parsing).
Abbreviation U64 := (2 ^ 64) (only parsing).

Definition len {A} (l : list A) : Z := Z.of_nat (length l).

(** [u32::try_from(n)] for [n] a [usize] *)
Definition try_u32 (n : Z) : option Z := if n <? U32 then Some n else None.
Definition try_u16 (n : Z) : option Z := if n <? U16 then Some n else None.
(** [a.checked_add(b)] at each width *)
Definition checked_add32 (a b : Z) : option Z := try_u32 (a + b).
Definition checked_add64 (a b : Z) : option Z :=
  if a + b <? U64 then Some (a + b) else None.
Definition saturating_add32 (a b : Z) : Z := Z.min (a + b) (U32 - 1).
Definition saturating_sub (a b : Z) : Z := Z.max 0 (a - b).
Definition wrapping_add32 (a b : Z) : Z := (a + b) mod U32.

(** [to_le_bytes] at [n] bytes, and [from_le_bytes] *)
Definition to_le (n : nat) (z : Z) : bytes := le_split n z.
Definition from_le (bs : bytes) : Z := le_combine bs.
Definition from_be (bs : bytes) : Z := le_combine (rev bs).
Definition lit (s : string) : bytes := String.list_byte_of_string s.

Lemma u8_range b : 0 <= u8 b < 256.
Proof. apply byte.unsigned_range. Qed.
Lemma u8_of z : u8 (byte_of z) = z mod 256.
Proof. apply byte.unsigned_of_Z. Qed.
Lemma byte_of_u8 b : byte_of (u8 b) = b.
Proof. apply byte.of_Z_unsigned. Qed.
Lemma u8_inj b1 b2 : u8 b1 = u8 b2 → b1 = b2.
Proof. apply byte.unsigned_inj. Qed.

Lemma length_to_le n z : length (to_le n z) = n.
Proof. apply length_le_split. Qed.
Lemma len_to_le n z : len (to_le n z) = Z.of_nat n.
Proof. unfold len. by rewrite length_to_le. Qed.
(** The bytes of [to_le] one by one *)
Fixpoint digits (n : nat) (z : Z) : list Z :=
  match n with
  | O => []
  | S n' => z mod 256 :: digits n' (z / 256)
  end.
Lemma u8_to_le n z : u8 <$> to_le n z = digits n z.
Proof.
  unfold to_le. revert z. induction n as [|n IH]; intros z; [done|].
  cbn [digits]. rewrite <-(IH (z `div` 256)). change (le_split (S n) z) with (byte.of_Z z :: le_split n (Z.shiftr z 8)).
  rewrite Z.shiftr_div_pow2 by lia. cbn [fmap list_fmap]. f_equal. apply byte.unsigned_of_Z.
Qed.
Lemma from_to_le n z : from_le (to_le n z) = z mod 2 ^ (Z.of_nat n * 8).
Proof. apply le_combine_split. Qed.
Lemma from_to_le_small n z :
  0 <= z < 2 ^ (Z.of_nat n * 8) → from_le (to_le n z) = z.
Proof. intros. rewrite from_to_le. by apply Z.mod_small. Qed.
Lemma to_from_le n bs : length bs = n → to_le n (from_le bs) = bs.
Proof. intros <-. apply split_le_combine. Qed.
Lemma from_le_range bs : 0 <= from_le bs < 2 ^ (8 * len bs).
Proof. apply le_combine_bound. Qed.

(** ** Slices

    [sub l s e] is the range [s..e] of a buffer, [patch l o src] the buffer
    after [l[o..o+src.len()].copy_from_slice(src)].  [get_range] is the checked
    [slice.get(s..e)], [index_range] and [write_at] the indexing forms, which
    panic when the range is out of bounds. *)
Section Slices.
Context {A : Type}.
Implicit Types l a b src : list A.

Definition sub l (s e : Z) : list A := take (Z.to_nat (e - s)) (drop (Z.to_nat s) l).
Definition patch l (o : Z) src : list A := sub l 0 o ++ src ++ sub l (o + len src) (len l).

Definition in_range l (s e : Z) : bool := (0 <=? s) && (s <=? e) && (e <=? len l).
Definition get_range l (s e : Z) : option (list A) :=
  if in_range l s e then Some (sub l s e) else None.
Definition index_range l (s e : Z) : outcome (list A) := unwrap (get_range l s e).
Definition get_at l (i : Z) : option A :=
  if (0 <=? i) && (i <? len l) then l !! Z.to_nat i else None.
Definition index_at l (i : Z) : outcome A := unwrap (get_at l i).
Definition write_at l (o : Z) src : outcome (list A) :=
  if in_range l o (o + len src) then Ok (patch l o src) else Panic.

Lemma len_nonneg l : 0 <= len l.
Proof. unfold len. lia. Qed.
Lemma len_nil : len (@nil A) = 0.
Proof. done. Qed.
Lemma len_cons (x : A) l : len (x :: l) = 1 + len l.
Proof. unfold len. cbn [length]. lia. Qed.
Lemma len_app a b : len (a ++ b) = len a + len b.
Proof. unfold len. rewrite length_app. lia. Qed.
Lemma len_replicate n (x : A) : len (replicate n x) = Z.of_nat n.
Proof. unfold len. by rewrite length_replicate. Qed.
Lemma len_0_nil l : len l = 0 → l = [].
Proof. unfold len. destruct l; cbn; [done|lia]. Qed.

Lemma len_sub l s e : 0 <= s → s <= e → e <= len l → len (sub l s e) = e - s.
Proof. unfold len, sub. rewrite length_take, length_drop. lia. Qed.
Lemma sub_nil_range l s e : e <= s → sub l s e = [].
Proof. intros. unfold sub. by replace (Z.to_nat (e - s)) with 0%nat by lia. Qed.
Lemma sub_full l : sub l 0 (len l) = l.
Proof. unfold sub, len. rewrite drop_0. apply take_ge. lia. Qed.
Lemma sub_full_ge l e : len l <= e → sub l 0 e = l.
Proof. unfold sub, len. rewrite drop_0. intros. apply take_ge. lia. Qed.
Lemma sub_app_l a b s e : 0 <= s → e <= len a → sub (a ++ b) s e = sub a s e.
Proof.
  unfold sub, len. intros. destruct (decide (s <= e)).
  - rewrite drop_app_le by lia. apply take_app_le. rewrite length_drop. lia.
  - by replace (Z.to_nat (e - s)) with 0%nat by lia.
Qed.
Lemma sub_app_r a b s e :
  len a <= s → sub (a ++ b) s e = sub b (s - len a) (e - len a).
Proof.
  unfold sub, len. intros. rewrite drop_app_ge by lia.
  f_equal; [lia|]. f_equal. lia.
Qed.
Lemma sub_middle (a b c : list A) s e : s = len a → e = len a + len b → sub (a ++ b ++ c) s e = b.
Proof.
  intros -> ->. pose proof (len_nonneg a). pose proof (len_nonneg b). rewrite sub_app_r, sub_app_l, Z.sub_diag by lia.
  replace (len a + len b - len a) with (len b) by lia. apply sub_full.
Qed.
Lemma sub_split l s m e :
  0 <= s → s <= m → m <= e → sub l s e = sub l s m ++ sub l m e.
Proof.
  intros. unfold sub.
  replace (Z.to_nat (e - s)) with (Z.to_nat (m - s) + Z.to_nat (e - m))%nat by lia.
  rewrite <-take_take_drop. f_equal. rewrite drop_drop. do 2 f_equal. lia.
Qed.
Lemma sub_sub l s e s' e' :
  0 <= s → 0 <= s' → e' <= e - s → sub (sub l s e) s' e' = sub l (s + s') (s + e').
Proof.
  intros. unfold sub. rewrite skipn_firstn_comm, take_take, drop_drop.
  f_equal; [lia|]. f_equal. lia.
Qed.
Lemma sub_head_tail l m : 0 <= m → m <= len l → l = sub l 0 m ++ sub l m (len l).
Proof. intros. rewrite <-sub_split by lia. by rewrite sub_full. Qed.

Lemma len_patch l o src : 0 <= o → o + len src <= len l → len (patch l o src) = len l.
Proof.
  intros. pose proof (len_nonneg src). unfold patch.
  rewrite !len_app, !len_sub by lia. lia.
Qed.
Lemma sub_patch_same l o src :
  0 <= o → o + len src <= len l → sub (patch l o src) o (o + len src) = src.
Proof.
  intros. pose proof (len_nonneg src). unfold patch.
  rewrite sub_app_r by (rewrite len_sub by lia; lia).
  rewrite len_sub, sub_app_l by lia.
  trans (sub src 0 (len src)); [f_equal; lia|apply sub_full].
Qed.
Lemma sub_patch_before l o src s e :
  0 <= s → e <= o → o + len src <= len l → sub (patch l o src) s e = sub l s e.
Proof.
  intros. pose proof (len_nonneg src).
  destruct (decide (e <= s)); [by rewrite !sub_nil_range|].
  unfold patch. rewrite sub_app_l by (rewrite ?len_sub; lia).
  rewrite sub_sub by lia. f_equal.
Qed.
Lemma sub_patch_after l o src s e :
  0 <= o → o + len src <= s → e <= len l → o + len src <= len l →
  sub (patch l o src) s e = sub l s e.
Proof.
  intros. pose proof (len_nonneg src). unfold patch.
  rewrite sub_app_r by (rewrite len_sub; lia).
  rewrite sub_app_r by (rewrite len_sub; lia).
  rewrite !len_sub, sub_sub by lia. f_equal; lia.
Qed.
Lemma patch_app_l a b o src :
  0 <= o → o + len src <= len a → patch (a ++ b) o src = patch a o src ++ b.
Proof.
  intros. pose proof (len_nonneg src). pose proof (len_nonneg b). unfold patch.
  rewrite sub_app_l, <-!app_assoc by lia. do 2 f_equal.
  rewrite len_app, (sub_split _ _ (len a)) by lia.
  rewrite sub_app_l, sub_app_r by lia. f_equal.
  trans (sub b 0 (len b)); [f_equal; lia|apply sub_full].
Qed.

Lemma patch_app_r a b o src :
  len a <= o → o + len src <= len a + len b →
  patch (a ++ b) o src = a ++ patch b (o - len a) src.
Proof.
  intros. pose proof (len_nonneg src). pose proof (len_nonneg b). pose proof (len_nonneg a).
  unfold patch. rewrite (sub_split (a ++ b) 0 (len a) o) by lia.
  rewrite sub_app_l, sub_full, !sub_app_r, len_app, <-app_assoc by lia.
  do 2 f_equal; [f_equal; lia|]. do 2 f_equal; lia.
Qed.
Lemma lookup_patch l o src (i : nat) :
  0 <= o → o + len src <= len l →
  patch l o src !! i =
    if (o <=? Z.of_nat i) && (Z.of_nat i <? o + len src)
    then src !! (i - Z.to_nat o)%nat else l !! i.
Proof.
  intros Ho Hl. pose proof (len_nonneg src). unfold patch.
  assert (length (sub l 0 o) = Z.to_nat o) as Hlen.
  { pose proof (len_sub l 0 o). unfold len in *. lia. }
  destruct (o <=? Z.of_nat i) eqn:E1, (Z.of_nat i <? o + len src) eqn:E2; cbn [andb];
    rewrite ?Z.leb_le, ?Z.leb_gt, ?Z.ltb_lt, ?Z.ltb_ge in *; unfold len in *.
  - rewrite lookup_app_r, lookup_app_l by lia. f_equal. lia.
  - rewrite !lookup_app_r, Hlen by lia. unfold sub.
    rewrite take_ge, lookup_drop by (rewrite length_drop; lia). f_equal. lia.
  - rewrite lookup_app_l by lia. unfold sub. by rewrite lookup_take_lt, lookup_drop by lia.
  - lia.
Qed.
Lemma patch_patch l o src src' :
  0 <= o → o + len src <= len l → len src = len src' →
  patch (patch l o src) o src' = patch l o src'.
Proof.
  intros. apply list_eq. intros i.
  rewrite !lookup_patch by (rewrite ?len_patch by lia; lia).
  replace (len src') with (len src) by done. by destruct (_ && _).
Qed.
Lemma patch_comm l o src o' src' :
  0 <= o → o + len src <= o' → o' + len src' <= len l →
  patch (patch l o src) o' src' = patch (patch l o' src') o src.
Proof.
  intros. pose proof (len_nonneg src). pose proof (len_nonneg src').
  apply list_eq. intros i. rewrite !lookup_patch by (rewrite ?len_patch by lia; lia).
  destruct (o' <=? Z.of_nat i) eqn:E1, (Z.of_nat i <? o' + len src') eqn:E2,
    (o <=? Z.of_nat i) eqn:E3, (Z.of_nat i <? o + len src) eqn:E4; try done;
    rewrite ?Z.leb_le, ?Z.leb_gt, ?Z.ltb_lt, ?Z.ltb_ge in *; lia.
Qed.
Lemma patch_id l o src : 0 <= o → o + len src <= len l →
  sub l o (o + len src) = src → patch l o src = l.
Proof.
  intros ? ? Heq. pose proof (len_nonneg src). unfold patch. rewrite <-Heq at 1.
  rewrite <-sub_split, <-sub_split by lia. apply sub_full.
Qed.
Lemma sub_prefix_eq l l' n s e :
  0 <= s → e <= n → sub l' 0 n = sub l 0 n → sub l' s e = sub l s e.
Proof.
  intros. trans (sub (sub l' 0 n) s e); [by rewrite sub_sub by lia|].
  replace (sub l' 0 n) with (sub l 0 n) by done. by rewrite sub_sub by lia.
Qed.

Lemma in_range_spec l s e : in_range l s e = true ↔ 0 <= s ∧ s <= e ∧ e <= len l.
Proof. unfold in_range. rewrite !andb_true_iff, !Z.leb_le. tauto. Qed.
Lemma in_range_false l s e : in_range l s e = false ↔ ¬ (0 <= s ∧ s <= e ∧ e <= len l).
Proof. rewrite <-in_range_spec. by destruct (in_range l s e). Qed.
Lemma get_range_Some l s e x :
  get_range l s e = Some x ↔ 0 <= s ∧ s <= e ∧ e <= len l ∧ x = sub l s e.
Proof.
  unfold get_range. destruct (in_range l s e) eqn:E.
  - apply in_range_spec in E as (? & ? & ?). split; [by intros [= <-]|by intros (_&_&_& ->)].
  - apply in_range_false in E. split; [done|]. by intros (?&?&?&_); destruct E.
Qed.
Lemma get_range_None l s e :
  get_range l s e = None ↔ ¬ (0 <= s ∧ s <= e ∧ e <= len l).
Proof. rewrite <-in_range_false. unfold get_range. by destruct (in_range l s e). Qed.
Lemma get_range_in l s e :
  0 <= s → s <= e → e <= len l → get_range l s e = Some (sub l s e).
Proof. intros. by apply get_range_Some. Qed.
Lemma index_range_Ok l s e x :
  index_range l s e = Ok x ↔ 0 <= s ∧ s <= e ∧ e <= len l ∧ x = sub l s e.
Proof. unfold index_range. by rewrite unwrap_Ok, get_range_Some. Qed.
Lemma index_range_in l s e :
  0 <= s → s <= e → e <= len l → index_range l s e = Ok (sub l s e).
Proof. intros. by apply index_range_Ok. Qed.
Lemma write_at_Ok l o src l' :
  write_at l o src = Ok l' ↔ 0 <= o ∧ o + len src <= len l ∧ l' = patch l o src.
Proof.
  unfold write_at. pose proof (len_nonneg src).
  destruct (in_range l o (o + len src)) eqn:E.
  - apply in_range_spec in E as (? & ? & ?). split; [by intros [= <-]|by intros (_&_& ->)].
  - apply in_range_false in E. split; [done|]. intros (?&?&_). destruct E. lia.
Qed.
Lemma write_at_in l o src :
  0 <= o → o + len src <= len l → write_at l o src = Ok (patch l o src).
Proof. intros. by apply write_at_Ok. Qed.
Lemma get_at_lookup l i : 0 <= i → get_at l i = l !! Z.to_nat i.
Proof.
  intros. unfold get_at. destruct (decide (i < len l)).
  - rewrite (proj2 (Z.leb_le 0 i)), (proj2 (Z.ltb_lt _ _)) by lia. done.
  - rewrite (proj2 (Z.ltb_ge i _)), andb_false_r by lia.
    symmetry. apply lookup_ge_None. unfold len in *. lia.
Qed.
End Slices.

#[global] Arguments len : simpl never.
#[global] Arguments sub : simpl never.
#[global] Arguments patch : simpl never.
#[global] Arguments to_le : simpl never.
#[global] Arguments from_le : simpl never.
#[global] Arguments u8 : simpl never.
#[global] Arguments byte_of : simpl never.

(** ** Automation *)
Create HintDb psign.
Create Rewrite HintDb psign.
#[export] Hint Rewrite @len_app @len_cons @len_nil len_to_le @len_replicate : psign.
#[export] Hint Resolve len_nonneg u8_range from_le_range bail_if_not_panic
  ok_or_not_panic : psign.

(** Turn boolean tests in the context and the goal into arithmetic. *)
Ltac zbool :=
  repeat match goal with
  | H : _ && _ = true |- _ => apply andb_true_iff in H as [? ?]
  | H : _ || _ = false |- _ => apply orb_false_iff in H as [? ?]
  | H : negb _ = true |- _ => apply negb_true_iff in H
  | H : negb _ = false |- _ => apply negb_false_iff in H
  | H : (_ <? _) = true |- _ => apply Z.ltb_lt in H
  | H : (_ <? _) = false |- _ => apply Z.ltb_ge in H
  | H : (_ <=? _) = true |- _ => apply Z.leb_le in H
  | H : (_ <=? _) = false |- _ => apply Z.leb_gt in H
  | H : (_ =? _) = true |- _ => apply Z.eqb_eq in H
  | H : (_ =? _) = false |- _ => apply Z.eqb_neq in H
  | H : bool_decide _ = true |- _ => apply bool_decide_eq_true in H
  | H : bool_decide _ = false |- _ => apply bool_decide_eq_false in H
  end.

(** Side conditions on the lengths of patched buffers. *)
Ltac len_side :=
  lazymatch goal with
  | |- context [len (patch ?l ?o ?s)] => rewrite (len_patch l o s); [len_side|len_side|len_side]
  | _ => rewrite ?len_to_le, ?len_app; lia
  end.
(** Two patched buffers are equal: compare them index by index. *)
Ltac patch_ext :=
  apply list_eq; intros ?i; rewrite !lookup_patch by len_side; rewrite ?len_to_le;
  repeat match goal with
  | |- context [(?a <=? Z.of_nat ?i)] => destruct (Z.leb_spec a (Z.of_nat i))
  | |- context [(Z.of_nat ?i <? ?b)] => destruct (Z.ltb_spec (Z.of_nat i) b)
  end; cbn [andb]; first [done|exfalso; lia].

(** Decompose a hypothesis [m ≫= f = Ok b] down to its successful steps. *)
Ltac inv_ok H :=
  lazymatch type of H with
  | mbind _ (bail_if _ _) = Ok _ => let E := fresh "E" in
      apply bail_bind_Ok in H as [E H]; inv_ok H
  | mbind _ _ = Ok _ => let a := fresh "r" in let E := fresh "E" in
      apply bind_Ok in H as (a & E & H); inv_ok E; inv_ok H
  | bail_if _ _ = Ok _ => apply bail_if_Ok in H
  | ok_or _ _ = Ok _ => apply ok_or_Ok in H
  | unwrap _ = Ok _ => apply unwrap_Ok in H
  | Ok _ = Ok _ => injection H as H; try subst
  | _ => idtac
  end.
Ltac slen := autorewrite with psign in *.

(** Decide by [lia] the integer tests of the goal, then run the monad. *)
Ltac ztest :=
  match goal with
  | |- context [?a <? ?b] =>
      first [rewrite (proj2 (Z.ltb_lt a b)) by lia | rewrite (proj2 (Z.ltb_ge a b)) by lia]
  | |- context [?a <=? ?b] =>
      first [rewrite (proj2 (Z.leb_le a b)) by lia | rewrite (proj2 (Z.leb_gt a b)) by lia]
  | |- context [?a =? ?b] =>
      first [rewrite (proj2 (Z.eqb_eq a b)) by lia | rewrite (proj2 (Z.eqb_neq a b)) by lia]
  end.
Ltac run :=
  cbn [negb andb orb bail_if ok_or unwrap with_context mbind outcome_bind fmap outcome_fmap];
  repeat (ztest;
    cbn [negb andb orb bail_if ok_or unwrap with_context mbind outcome_bind fmap outcome_fmap]).

(** Panic freedom: step through the binds, keeping what each success says. *)
Lemma index_range_not_panic {A} (l : list A) s e :
  0 <= s → s <= e → e <= len l → index_range l s e ≠ Panic.
Proof. intros. by rewrite index_range_in. Qed.
Lemma write_at_not_panic {A} (l : list A) o src :
  0 <= o → o + len src <= len l → write_at l o src ≠ Panic.
Proof. intros. by rewrite write_at_in. Qed.
(** Running a step of a function with fuel: [None] is out of fuel. *)
Definition then_ {A B} (r : option (outcome A)) (f : A → option (outcome B)) : option (outcome B) :=
  match r with
  | Some (Ok a) => f a
  | Some (Err e) => Some (Err e)
  | Some Panic => Some Panic
  | None => None
  end.
Lemma then_Ok {A B} (r : option (outcome A)) (f : A → option (outcome B)) y :
  then_ r f = Some (Ok y) ↔ ∃ x, r = Some (Ok x) ∧ f x = Some (Ok y).
Proof. destruct r as [[x| |]|]; cbn; split; (by intros (? & [= ->] & ?)) || (by intros [=]) || (intros ?; by eexists). Qed.
Lemma with_context_Ok {A} (m : outcome A) msg a : with_context m msg = Ok a ↔ m = Ok a.
Proof. by destruct m. Qed.
Lemma with_context_not_panic {A} (m : outcome A) msg : m ≠ Panic → with_context m msg ≠ Panic.
Proof. by destruct m. Qed.
#[export] Hint Resolve with_context_not_panic : psign.
Ltac nopanic :=
  repeat first
    [ progress cbn [fst snd]
    | match goal with |- mbind _ _ ≠ Panic => apply bind_not_panic end;
        [| let E := fresh "E" in intros ? E;
           lazymatch type of E with
           | bail_if _ _ = _ => apply bail_if_Ok in E
           | ok_or _ _ = _ => apply ok_or_Ok in E
           | _ => idtac
           end]
    | match goal with |- (if ?c then _ else _) ≠ Panic => destruct c eqn:? end
    | match goal with |- (match ?p with (_, _) => _ end) ≠ Panic => destruct p end
    | discriminate | solve [auto with psign] ].

(** ** Loops

    A [while] loop is a step function on the loop's variables: [inl] goes
    round again, [inr] leaves the loop.  [loop] runs it with fuel; each use
    proves with [loop_total] that its fuel never runs out. *)
Section Loops.
Context {S R : Type} (step : S → S + R).

Fixpoint loop (fuel : nat) (s : S) : option R :=
  match fuel with
  | O => None
  | Datatypes.S fuel' =>
      match step s with inl s' => loop fuel' s' | inr r => Some r end
  end.

Lemma loop_total (I : S → Prop) (μ : S → Z) :
  (∀ s s', I s → step s = inl s' → I s' ∧ 0 <= μ s' < μ s) →
  ∀ fuel s, I s → μ s < Z.of_nat fuel → 0 <= μ s → is_Some (loop fuel s).
Proof.
  intros Hstep fuel. induction fuel as [|fuel IH]; intros s HI Hμ H0; [lia|].
  cbn. destruct (step s) as [s'|r] eqn:E; [|by eauto].
  destruct (Hstep _ _ HI E). apply IH; [done|lia|lia].
Qed.

Lemma loop_inv (I : S → Prop) (Q : R → Prop) :
  (∀ s s', I s → step s = inl s' → I s') →
  (∀ s r, I s → step s = inr r → Q r) →
  ∀ fuel s r, I s → loop fuel s = Some r → Q r.
Proof.
  intros Hl Hr fuel. induction fuel as [|fuel IH]; intros s r HI; cbn; [done|].
  destruct (step s) eqn:E; [by eauto|]. intros [= <-]. eauto.
Qed.

Lemma loop_more fuel fuel' s r :
  loop fuel s = Some r → (fuel <= fuel')%nat → loop fuel' s = Some r.
Proof.
  revert fuel' s. induction fuel as [|fuel IH]; intros [|fuel'] s; cbn; try done; [lia|].
  destruct (step s); [|done]. intros. apply IH; [done|lia].
Qed.
End Loops.

(** Two loops that take the same steps wherever an invariant holds. *)
Lemma loop_ext {S R} (step step' : S → S + R) (I : S → Prop) :
  (∀ s, I s → step s = step' s) →
  (∀ s s', I s → step s = inl s' → I s') →
  ∀ fuel s, I s → loop step fuel s = loop step' fuel s.
Proof.
  intros He Hi fuel. induction fuel as [|fuel IH]; intros s Hs; [done|]. cbn.
  rewrite <-He by done. destruct (step s) eqn:E; [|done]. apply IH. eauto.
Qed.

(** ** Bit arithmetic shared by the parsers *)

(** A decidable fact about a small range of integers, by computation. *)
Lemma forall_range (P : Z → bool) m n :
  forallb P (seqZ m n) = true → ∀ k, m <= k < m + n → P k = true.
Proof.
  intros H k Hk. rewrite forallb_forall in H. apply H.
  apply list_elem_of_In, elem_of_seqZ. lia.
Qed.
(** A decidable property of every element, by computation. *)
Lemma forallb_Forall {A} (f : A → bool) l : forallb f l = true → Forall (λ x, f x = true) l.
Proof.
  rewrite forallb_forall, Forall_forall. intros H x Hx. apply H. by apply list_elem_of_In.
Qed.
Lemma Forall_forallb {A} (f : A → bool) l : Forall (λ x, f x = true) l → forallb f l = true.
Proof.
  rewrite forallb_forall, Forall_forall. intros H x Hx. apply H. by apply list_elem_of_In.
Qed.
Lemma lor_shiftl_8 a b : 0 <= b < 256 → Z.lor (Z.shiftl a 8) b = a * 256 + b.
Proof.
  intros. pose proof (Z.add_lor_land (Z.shiftl a 8) b) as Hsum.
  enough (Z.land (Z.shiftl a 8) b = 0) as Hland.
  - rewrite Hland, (Z.shiftl_mul_pow2 a) in Hsum by lia. rewrite Z.shiftl_mul_pow2; lia.
  - apply Z.bits_inj_0. intros n. rewrite Z.land_spec.
    destruct (decide (n < 8)).
    + destruct (decide (0 <= n)); [by rewrite Z.shiftl_spec_low|].
      by rewrite Z.testbit_neg_r by lia.
    + rewrite <-(Z.mod_small b (2 ^ 8)), Z.mod_pow2_bits_high by lia.
      apply andb_false_r.
Qed.
Lemma land_255 a : Z.land a 255 = a mod 256.
Proof. change 255 with (Z.ones 8). by rewrite Z.land_ones. Qed.
Lemma shiftr_8 a : Z.shiftr a 8 = a / 256.
Proof. by rewrite Z.shiftr_div_pow2. Qed.
