(* ===== verification/RustStr.v ===== *)
(** Rust strings: [str] as the list of its Unicode scalar values, and the
    standard-library functions the components call on text.

    UTF-8 and UTF-16 decoding (strict and lossy), trimming, splitting into
    lines, prefixes, ASCII case, and the round trips between them. *)

From S2P Require Import Prelude.

Abbreviation char := Z (only parsing).
Abbreviation str := (list Z).

(** An ASCII literal. *)
Definition chars (s : string) : str := u8 <$> lit s.

Definition is_scalar (c : char) : bool :=
  ((0 <=? c) && (c <? 0xD800)) || ((0xE000 <=? c) && (c <? 0x110000)).
Definition REPLACEMENT : char := 0xFFFD.

(** ** UTF-8 *)

Definition encode_utf8_char (c : char) : bytes :=
  byte_of <$>
    (if c <? 0x80 then [c]
     else if c <? 0x800 then [0xC0 + c / 64; 0x80 + c mod 64]
     else if c <? 0x10000 then [0xE0 + c / 4096; 0x80 + c / 64 mod 64; 0x80 + c mod 64]
     else [0xF0 + c / 262144; 0x80 + c / 4096 mod 64; 0x80 + c / 64 mod 64; 0x80 + c mod 64]).
(** [s.as_bytes()] *)
Definition encode_utf8 (s : str) : bytes := s ≫= encode_utf8_char.
(** [s.len()] *)
Definition byte_len (s : str) : Z := len (encode_utf8 s).

Definition between (a x b : Z) : bool := (a <=? x) && (x <=? b).
Definition cont (b : byte) : bool := between 0x80 (u8 b) 0xBF.
(** The second byte a lead byte admits. *)
Definition second_ok (lead : Z) (b : byte) : bool :=
  if lead =? 0xE0 then between 0xA0 (u8 b) 0xBF
  else if lead =? 0xED then between 0x80 (u8 b) 0x9F
  else if lead =? 0xF0 then between 0x90 (u8 b) 0xBF
  else if lead =? 0xF4 then between 0x80 (u8 b) 0x8F
  else cont b.
Definition low6 (b : byte) : Z := u8 b mod 64.

(** One step of [Utf8Chunks]: a scalar value, or [None] for an invalid chunk
    (the lead byte and the continuation bytes it could take). *)
Definition utf8_step (lead : byte) (r : bytes) : option char * bytes :=
  let a := u8 lead in
  if a <? 0x80 then (Some a, r)
  else if between 0xC2 a 0xDF then
    match r with
    | b1 :: r1 => if cont b1 then (Some ((a - 0xC0) * 64 + low6 b1), r1) else (None, r)
    | [] => (None, r)
    end
  else if between 0xE0 a 0xEF then
    match r with
    | b1 :: r1 =>
        if second_ok a b1 then
          match r1 with
          | b2 :: r2 =>
              if cont b2 then (Some ((a - 0xE0) * 4096 + low6 b1 * 64 + low6 b2), r2)
              else (None, r1)
          | [] => (None, r1)
          end
        else (None, r)
    | [] => (None, r)
    end
  else if between 0xF0 a 0xF4 then
    match r with
    | b1 :: r1 =>
        if second_ok a b1 then
          match r1 with
          | b2 :: r2 =>
              if cont b2 then
                match r2 with
                | b3 :: r3 =>
                    if cont b3 then
                      (Some ((a - 0xF0) * 262144 + low6 b1 * 4096 + low6 b2 * 64 + low6 b3), r3)
                    else (None, r2)
                | [] => (None, r2)
                end
              else (None, r1)
          | [] => (None, r1)
          end
        else (None, r)
    | [] => (None, r)
    end
  else (None, r).
Fixpoint utf8_chunks (fuel : nat) (bs : bytes) : list (option char) :=
  match fuel, bs with
  | S fuel', b :: r => let '(c, rest) := utf8_step b r in c :: utf8_chunks fuel' rest
  | _, _ => []
  end.
(** Each step eats a byte: the length is enough fuel. *)
Definition from_utf8 (bs : bytes) : option str := mapM id (utf8_chunks (length bs) bs).
Definition from_utf8_lossy (bs : bytes) : str :=
  default REPLACEMENT <$> utf8_chunks (length bs) bs.

(** ** UTF-16 *)

Definition encode_utf16_char (c : char) : list Z :=
  if c <? 0x10000 then [c]
  else [0xD800 + (c - 0x10000) / 1024; 0xDC00 + (c - 0x10000) mod 1024].
Definition encode_utf16 (s : str) : list Z := s ≫= encode_utf16_char.
Definition is_high (u : Z) : bool := between 0xD800 u 0xDBFF.
Definition is_low (u : Z) : bool := between 0xDC00 u 0xDFFF.
(** [char::decode_utf16]: [None] for an unpaired surrogate. *)
Fixpoint decode_utf16 (us : list Z) : list (option char) :=
  match us with
  | [] => []
  | u :: rest =>
      if is_high u then
        match rest with
        | l :: rest' =>
            if is_low l then Some (0x10000 + (u - 0xD800) * 1024 + (l - 0xDC00)) :: decode_utf16 rest'
            else None :: decode_utf16 rest
        | [] => [None]
        end
      else if is_low u then None :: decode_utf16 rest
      else Some u :: decode_utf16 rest
  end.
Definition from_utf16 (us : list Z) : option str := mapM id (decode_utf16 us).
Definition from_utf16_lossy (us : list Z) : str := default REPLACEMENT <$> decode_utf16 us.

(** [bytes.as_chunks::<2>().0.iter().map(u16::from_le_bytes)]: an odd last byte
    is left out. *)
Fixpoint le_u16s (bs : bytes) : list Z :=
  match bs with
  | a :: b :: r => from_le [a; b] :: le_u16s r
  | _ => []
  end.
Fixpoint be_u16s (bs : bytes) : list Z :=
  match bs with
  | a :: b :: r => from_be [a; b] :: be_u16s r
  | _ => []
  end.
Definition u16_le_bytes (us : list Z) : bytes := us ≫= to_le 2.

(** ** Text functions *)

Definition is_whitespace (c : char) : bool :=
  between 9 c 13 || (c =? 0x20) || (c =? 0x85) || (c =? 0xA0) || (c =? 0x1680)
  || between 0x2000 c 0x200A || (c =? 0x2028) || (c =? 0x2029) || (c =? 0x202F)
  || (c =? 0x205F) || (c =? 0x3000).
Definition is_ascii_upper (c : char) : bool := between 65 c 90.
Definition is_ascii_lower (c : char) : bool := between 97 c 122.
Definition is_ascii_digit (c : char) : bool := between 48 c 57.
Definition is_ascii_hexdigit (c : char) : bool :=
  is_ascii_digit c || between 65 c 70 || between 97 c 102.
Definition is_ascii_alphanumeric (c : char) : bool :=
  is_ascii_upper c || is_ascii_lower c || is_ascii_digit c.
Definition lower (c : char) : char := if is_ascii_upper c then c + 32 else c.
Definition to_ascii_lowercase (s : str) : str := lower <$> s.
Definition eq_ignore_ascii_case (a b : str) : bool :=
  bool_decide (to_ascii_lowercase a = to_ascii_lowercase b).

Fixpoint trim_start_matches (f : char → bool) (s : str) : str :=
  match s with
  | c :: s' => if f c then trim_start_matches f s' else s
  | [] => []
  end.
Definition trim_end_matches (f : char → bool) (s : str) : str :=
  rev (trim_start_matches f (rev s)).
Definition trim (s : str) : str := trim_end_matches is_whitespace (trim_start_matches is_whitespace s).

(** [s.strip_prefix(p)]; [s.starts_with(p)] *)
Fixpoint strip_prefix (p s : str) : option str :=
  match p, s with
  | [], _ => Some s
  | c :: p', d :: s' => if c =? d then strip_prefix p' s' else None
  | _, [] => None
  end.
Definition starts_with (s p : str) : bool := bool_decide (is_Some (strip_prefix p s)).
Definition strip_suffix (p s : str) : option str :=
  (λ r : str, rev r) <$> strip_prefix (rev p) (rev s).
Definition ends_with (s p : str) : bool := bool_decide (is_Some (strip_suffix p s)).

(** [s.split_once(c)] *)
Fixpoint split_once (c : char) (s : str) : option (str * str) :=
  match s with
  | [] => None
  | d :: s' => if d =? c then Some ([], s') else '(a, b) ← split_once c s'; Some (d :: a, b)
  end.
(** [s.split(c)] *)
Fixpoint split (c : char) (s : str) : list str :=
  match s with
  | [] => [[]]
  | d :: s' =>
      if d =? c then [] :: split c s'
      else match split c s' with p :: ps => (d :: p) :: ps | [] => [[d]] end
  end.
(** [parts.join(sep)] *)
Fixpoint join (sep : str) (parts : list str) : str :=
  match parts with
  | [] => []
  | [p] => p
  | p :: ps => p ++ sep ++ join sep ps
  end.

(** [s.lines()] *)
Definition strip_cr (l : str) : str := default l (strip_suffix [13] l).
Fixpoint lines_from (cur s : str) : list str :=
  match s with
  | [] => match cur with [] => [] | _ => [cur] end
  | c :: s' => if c =? 10 then strip_cr cur :: lines_from [] s' else lines_from (cur ++ [c]) s'
  end.
Definition lines (s : str) : list str := lines_from [] s.

#[global] Arguments chars : simpl never.
#[global] Arguments byte_len : simpl never.
#[global] Arguments encode_utf8 : simpl never.
#[global] Arguments from_utf8 : simpl never.
#[global] Arguments trim : simpl never.
#[global] Arguments strip_cr : simpl never.
#[global] Arguments strip_suffix : simpl never.
#[global] Arguments lines : simpl never.

(** ** UTF-8 round trip *)

Ltac ztests := repeat match goal with
  | |- context [(?a <? ?b)] => destruct (Z.ltb_spec a b); try lia
  | |- context [(?a <=? ?b)] => destruct (Z.leb_spec a b); try lia
  | |- context [(?a =? ?b)] => destruct (Z.eqb_spec a b); try lia
  end.

Lemma is_scalar_spec c : is_scalar c = true ↔ 0 <= c < 0xD800 ∨ 0xE000 <= c < 0x110000.
Proof.
  unfold is_scalar. rewrite orb_true_iff, !andb_true_iff, !Z.leb_le, !Z.ltb_lt. lia.
Qed.
Lemma encode_utf8_nil c : encode_utf8_char c ≠ [].
Proof. unfold encode_utf8_char. by repeat case_match. Qed.

Lemma utf8_step_encode c rest :
  is_scalar c = true →
  ∃ b r, encode_utf8_char c ++ rest = b :: r ∧ utf8_step b r = (Some c, rest).
Proof.
  intros Hc%is_scalar_spec. unfold encode_utf8_char.
  destruct (Z.ltb_spec c 0x80); [|destruct (Z.ltb_spec c 0x800); [|destruct (Z.ltb_spec c 0x10000)]];
    cbn [fmap list_fmap app]; eexists _, _; (split; [reflexivity|]);
    unfold utf8_step, second_ok, cont, low6, between; rewrite !u8_of.
  - rewrite Z.mod_small by lia. by run.
  - rewrite !(Z.mod_small (_ + _) 256) by lia. run. do 2 f_equal. lia.
  - rewrite !(Z.mod_small (_ + _) 256) by lia. run.
    ztests; cbn [andb]; do 2 f_equal; lia.
  - rewrite !(Z.mod_small (_ + _) 256) by lia. run. ztests; cbn [andb]; do 2 f_equal; lia.
Qed.

Abbreviation scalars s := (Forall (λ c, is_scalar c = true) s) (only parsing).

Lemma utf8_chunks_encode s fuel :
  scalars s → (length s <= fuel)%nat → utf8_chunks fuel (encode_utf8 s) = Some <$> s.
Proof.
  intros Hs. revert fuel. induction Hs as [|c s Hc Hs IH]; intros [|fuel] Hf; cbn [length] in Hf;
    try done; [lia|].
  change (encode_utf8 (c :: s)) with (encode_utf8_char c ++ encode_utf8 s).
  destruct (utf8_step_encode c (encode_utf8 s) Hc) as (b & r & -> & Hst).
  cbn [utf8_chunks]. rewrite Hst. cbn. f_equal. apply IH. lia.
Qed.
Lemma length_encode_utf8 s : (length s <= length (encode_utf8 s))%nat.
Proof.
  induction s as [|c s IH]; [done|].
  change (encode_utf8 (c :: s)) with (encode_utf8_char c ++ encode_utf8 s). rewrite length_app.
  cbn [length]. pose proof (encode_utf8_nil c). destruct (encode_utf8_char c); [done|]. cbn. lia.
Qed.
Lemma mapM_Some (s : str) : mapM id (Some <$> s) = Some s.
Proof. induction s as [|c s IH]; [done|]. cbn. by rewrite IH. Qed.
Lemma default_Some (s : str) : default REPLACEMENT <$> (Some <$> s) = s.
Proof. induction s as [|c s IH]; [done|]. cbn. by f_equal. Qed.

Lemma from_utf8_encode s : scalars s → from_utf8 (encode_utf8 s) = Some s.
Proof.
  intros Hs. unfold from_utf8. rewrite utf8_chunks_encode; [|done|apply length_encode_utf8].
  apply mapM_Some.
Qed.
Lemma from_utf8_lossy_encode s : scalars s → from_utf8_lossy (encode_utf8 s) = s.
Proof.
  intros Hs. unfold from_utf8_lossy. rewrite utf8_chunks_encode; [|done|apply length_encode_utf8].
  apply default_Some.
Qed.
(** Whatever the bytes, decoding gives scalar values. *)
Lemma utf8_step_scalar b r c rest : utf8_step b r = (Some c, rest) → is_scalar c = true.
Proof.
  pose proof (u8_range b). unfold utf8_step, second_ok, cont, low6, between. intros Hs.
  apply is_scalar_spec. revert Hs.
  repeat (case_match; try done); intros [= <- _]; zbool;
    repeat match goal with b : byte |- _ => pose proof (u8_range b); revert b end; intros; lia.
Qed.
Lemma from_utf8_lossy_scalars bs : scalars (from_utf8_lossy bs).
Proof.
  unfold from_utf8_lossy. generalize (length bs). intros fuel. revert bs.
  induction fuel as [|fuel IH]; intros [|b r]; try constructor.
  cbn [utf8_chunks]. destruct (utf8_step b r) as [[c|] rest] eqn:E; cbn [fmap list_fmap default];
    (apply Forall_cons_2; [|apply IH]); [|done]. by eapply utf8_step_scalar.
Qed.

Lemma encode_utf8_app s t : encode_utf8 (s ++ t) = encode_utf8 s ++ encode_utf8 t.
Proof. apply bind_app. Qed.
Lemma byte_len_app s t : byte_len (s ++ t) = byte_len s + byte_len t.
Proof. unfold byte_len. by rewrite encode_utf8_app, len_app. Qed.

Definition is_ascii (c : char) : bool := (0 <=? c) && (c <? 128).
Lemma ascii_scalar c : is_ascii c = true → is_scalar c = true.
Proof. unfold is_ascii. intros. zbool. apply is_scalar_spec. lia. Qed.
Lemma ascii_scalars s : Forall (λ c, is_ascii c = true) s → scalars s.
Proof. intros H. eapply Forall_impl; [exact H|]. intros c. apply ascii_scalar. Qed.
Lemma encode_utf8_ascii s : Forall (λ c, is_ascii c = true) s → encode_utf8 s = byte_of <$> s.
Proof.
  induction 1 as [|c s Hc _ IH]; [done|]. unfold is_ascii in Hc. zbool.
  change (encode_utf8 (c :: s)) with (encode_utf8_char c ++ encode_utf8 s). rewrite IH.
  unfold encode_utf8_char. by run.
Qed.
Lemma byte_len_ascii s : Forall (λ c, is_ascii c = true) s → byte_len s = len s.
Proof. intros. unfold byte_len, len. by rewrite encode_utf8_ascii, length_fmap. Qed.

(** ** UTF-16 round trip *)

Lemma decode_encode_utf16 s : scalars s → decode_utf16 (encode_utf16 s) = Some <$> s.
Proof.
  induction 1 as [|c s Hc _ IH]; [done|]. apply is_scalar_spec in Hc.
  change (encode_utf16 (c :: s)) with (encode_utf16_char c ++ encode_utf16 s).
  unfold encode_utf16_char. destruct (Z.ltb_spec c 0x10000); cbn [app decode_utf16].
  - unfold is_high, is_low, between.
    destruct (Z.leb_spec 0xD800 c), (Z.leb_spec c 0xDBFF); try lia; cbn [andb];
      ztests; cbn [andb]; rewrite IH; done.
  - unfold is_high, is_low, between. run. rewrite IH. cbn. do 2 f_equal. lia.
Qed.
Lemma from_utf16_lossy_encode s : scalars s → from_utf16_lossy (encode_utf16 s) = s.
Proof. intros. unfold from_utf16_lossy. rewrite decode_encode_utf16 by done. apply default_Some. Qed.
Lemma from_utf16_encode s : scalars s → from_utf16 (encode_utf16 s) = Some s.
Proof. intros. unfold from_utf16. rewrite decode_encode_utf16 by done. apply mapM_Some. Qed.
Lemma encode_utf16_units s : scalars s → Forall (λ u, 0 <= u < 65536) (encode_utf16 s).
Proof.
  induction 1 as [|c s Hc _ IH]; [done|]. apply is_scalar_spec in Hc.
  change (encode_utf16 (c :: s)) with (encode_utf16_char c ++ encode_utf16 s).
  apply Forall_app_2; [|done]. unfold encode_utf16_char.
  destruct (Z.ltb_spec c 0x10000); repeat (apply Forall_cons_2; [lia|]); apply Forall_nil_2.
Qed.
Lemma encode_utf16_bmp s :
  Forall (λ c, c < 0x10000) s → encode_utf16 s = s.
Proof.
  induction 1 as [|c s Hc _ IH]; [done|].
  change (encode_utf16 (c :: s)) with (encode_utf16_char c ++ encode_utf16 s). rewrite IH.
  unfold encode_utf16_char. by run.
Qed.
Lemma le_u16s_bytes us : Forall (λ u, 0 <= u < 65536) us → le_u16s (u16_le_bytes us) = us.
Proof.
  induction 1 as [|u us Hu _ IH]; [done|].
  change (u16_le_bytes (u :: us)) with (to_le 2 u ++ u16_le_bytes us).
  change (to_le 2 u) with ([byte_of u; byte_of (Z.shiftr u 8)]). cbn [app le_u16s]. rewrite IH.
  f_equal. change (from_le (to_le 2 u) = u). by rewrite from_to_le_small by (change (Z.of_nat 2 * 8) with 16; lia).
Qed.

(** ** Prefixes, trimming, splitting *)

Lemma strip_prefix_Some p s r : strip_prefix p s = Some r ↔ s = p ++ r.
Proof.
  revert s. induction p as [|c p IH]; intros s; cbn.
  - destruct s; (split; [by intros [= <-]|by intros <-]).
  - destruct s as [|d s]; [done|]. destruct (Z.eqb_spec c d) as [->|Hd].
    + rewrite IH. split; [by intros ->|by intros [= ->]].
    + split; [done|by intros [= -> _]].
Qed.
Lemma strip_prefix_app p r : strip_prefix p (p ++ r) = Some r.
Proof. by apply strip_prefix_Some. Qed.
Lemma starts_with_spec s p : starts_with s p = true ↔ ∃ r, s = p ++ r.
Proof.
  unfold starts_with. rewrite bool_decide_eq_true. unfold is_Some. by setoid_rewrite strip_prefix_Some.
Qed.
Lemma strip_suffix_Some p s r : strip_suffix p s = Some r ↔ s = r ++ p.
Proof.
  unfold strip_suffix. rewrite fmap_Some. setoid_rewrite strip_prefix_Some. split.
  - intros (x & Hx & ->). by rewrite <-(rev_involutive s), Hx, rev_app_distr, rev_involutive.
  - intros ->. exists (rev r). by rewrite rev_app_distr, rev_involutive.
Qed.

Lemma trim_start_id f c s : f c = false → trim_start_matches f (c :: s) = c :: s.
Proof. intros H. cbn. by rewrite H. Qed.
Lemma trim_end_id f s c : f c = false → trim_end_matches f (s ++ [c]) = s ++ [c].
Proof.
  intros H. unfold trim_end_matches. rewrite rev_app_distr. cbn. rewrite H.
  change (rev (rev [c] ++ rev s) = s ++ [c]). by rewrite <-rev_app_distr, rev_involutive.
Qed.
Lemma trim_end_last f s : (∀ c s', s = s' ++ [c] → f c = false) → trim_end_matches f s = s.
Proof.
  destruct s as [|c s _] using rev_ind; [done|]. intros H. apply trim_end_id. by eapply H.
Qed.
Lemma trim_start_head f s : (∀ c s', s = c :: s' → f c = false) → trim_start_matches f s = s.
Proof. destruct s as [|c s]; [done|]. intros H. apply trim_start_id. by eapply H. Qed.
Lemma trim_id s :
  (∀ c s', s = c :: s' → is_whitespace c = false) →
  (∀ c s', s = s' ++ [c] → is_whitespace c = false) → trim s = s.
Proof. intros. unfold trim. by rewrite trim_start_head, trim_end_last. Qed.
Lemma trim_visible s : Forall (λ c, is_whitespace c = false) s → trim s = s.
Proof.
  intros H. apply trim_id; intros c s' ->.
  - by apply Forall_cons in H as [? _].
  - apply Forall_app in H as [_ H]. by apply Forall_cons in H as [? _].
Qed.

Lemma split_once_app c a b : c ∉ a → split_once c (a ++ c :: b) = Some (a, b).
Proof.
  induction a as [|d a IH]; intros Hc; cbn.
  - by rewrite Z.eqb_refl.
  - apply not_elem_of_cons in Hc as [Hd Hc]. rewrite (proj2 (Z.eqb_neq d c)) by done.
    by rewrite IH.
Qed.
Lemma split_once_Some c s a b : split_once c s = Some (a, b) → s = a ++ c :: b ∧ c ∉ a.
Proof.
  revert a. induction s as [|d s IH]; intros a; cbn; [done|].
  destruct (Z.eqb_spec d c) as [->|Hd].
  - intros [= <- <-]. split; [done|]. apply not_elem_of_nil.
  - destruct (split_once c s) as [[a' b']|]; [|done]. cbn. intros [= <- <-].
    destruct (IH a' eq_refl) as [-> ?]. split; [done|]. apply not_elem_of_cons. by split.
Qed.
Lemma split_app c p s : c ∉ p → split c (p ++ c :: s) = p :: split c s.
Proof.
  induction p as [|d p IH]; intros Hc; cbn.
  - by rewrite Z.eqb_refl.
  - apply not_elem_of_cons in Hc as [Hd Hc]. rewrite (proj2 (Z.eqb_neq d c)) by done.
    by rewrite IH.
Qed.
Lemma split_none c p : c ∉ p → split c p = [p].
Proof.
  induction p as [|d p IH]; intros Hc; [done|]. cbn.
  apply not_elem_of_cons in Hc as [Hd Hc]. rewrite (proj2 (Z.eqb_neq d c)) by done. by rewrite IH.
Qed.
Lemma split_join c parts :
  parts ≠ [] → Forall (λ p, c ∉ p) parts → split c (join [c] parts) = parts.
Proof.
  intros Hn H. induction H as [|p ps Hp Hps IH]; [done|].
  destruct ps as [|q qs]; [by apply split_none|].
  change (join [c] (p :: q :: qs)) with (p ++ c :: join [c] (q :: qs)).
  rewrite split_app by done. by rewrite IH.
Qed.

Lemma lines_from_line cur l s :
  10 ∉ l → lines_from cur (l ++ 10 :: s) = strip_cr (cur ++ l) :: lines_from [] s.
Proof.
  revert cur. induction l as [|c l IH]; intros cur Hl; cbn.
  - by rewrite app_nil_r.
  - apply not_elem_of_cons in Hl as [Hc Hl]. rewrite (proj2 (Z.eqb_neq c 10)) by done.
    rewrite IH by done. by rewrite <-app_assoc.
Qed.
Lemma lines_lf l s : 10 ∉ l → lines (l ++ 10 :: s) = strip_cr l :: lines s.
Proof. intros. by apply (lines_from_line []). Qed.
Lemma strip_cr_app l : strip_cr (l ++ [13]) = l.
Proof. unfold strip_cr. by rewrite (proj2 (strip_suffix_Some [13] (l ++ [13]) l)). Qed.
Lemma lines_crlf l s : 10 ∉ l → lines (l ++ 13 :: 10 :: s) = l :: lines s.
Proof.
  intros Hl. change (l ++ 13 :: 10 :: s) with (l ++ [13] ++ 10 :: s). rewrite app_assoc.
  rewrite lines_lf.
  - by rewrite strip_cr_app.
  - apply not_elem_of_app. split; [done|]. by rewrite list_elem_of_singleton.
Qed.
Lemma lines_single l : l ≠ [] → 10 ∉ l → lines l = [l].
Proof.
  intros Hn Hl. unfold lines. assert (∀ cur, cur ++ l ≠ [] → lines_from cur l = [cur ++ l]) as H.
  { clear Hn. induction l as [|c l IH]; intros cur Hc; cbn.
    - rewrite app_nil_r in *. by destruct cur.
    - apply not_elem_of_cons in Hl as [Hd Hl]. rewrite (proj2 (Z.eqb_neq c 10)) by done.
      rewrite IH; [by rewrite <-app_assoc|done|by destruct cur]. }
  by apply H.
Qed.

(** ** What trimming leaves *)

Definition head_not (f : char → bool) (s : str) : Prop := ∀ c s', s = c :: s' → f c = false.
Definition last_not (f : char → bool) (s : str) : Prop := ∀ c s', s = s' ++ [c] → f c = false.

Lemma trim_start_suffix f s : ∃ p, s = p ++ trim_start_matches f s.
Proof.
  induction s as [|c s [p IH]]; [by exists []|]. cbn. destruct (f c); [|by exists []].
  exists (c :: p). cbn. by f_equal.
Qed.
Lemma trim_end_prefix f s : ∃ p, s = trim_end_matches f s ++ p.
Proof.
  destruct (trim_start_suffix f (rev s)) as [p Hp]. exists (rev p). unfold trim_end_matches.
  by rewrite <-rev_app_distr, <-Hp, rev_involutive.
Qed.
Lemma trim_start_head_not f s : head_not f (trim_start_matches f s).
Proof.
  induction s as [|c s IH]; [by intros c s'|]. cbn. destruct (f c) eqn:E; [done|].
  by intros d s' [= <- <-].
Qed.
Lemma trim_end_last_not f s : last_not f (trim_end_matches f s).
Proof.
  intros c s' Heq. unfold trim_end_matches in Heq. apply (f_equal (@rev Z)) in Heq.
  rewrite rev_involutive, rev_app_distr in Heq. by apply trim_start_head_not in Heq.
Qed.
Lemma trim_start_head_not_id f s : head_not f s → trim_start_matches f s = s.
Proof. apply trim_start_head. Qed.
Lemma trim_end_last_not_id f s : last_not f s → trim_end_matches f s = s.
Proof. apply trim_end_last. Qed.
Lemma head_not_prefix f s p : head_not f (s ++ p) → head_not f s.
Proof. intros H c s' ->. by eapply H. Qed.
Lemma head_not_app f s c p : head_not f s → f c = false → head_not f (s ++ c :: p).
Proof.
  intros H Hc d s' Heq. destruct s as [|e s]; cbn in Heq.
  - injection Heq as Hd _. congruence.
  - injection Heq as Hd _. subst. by eapply H.
Qed.
Lemma trim_start_elem f s c : c ∈ trim_start_matches f s → c ∈ s.
Proof. intros H. destruct (trim_start_suffix f s) as [p Hp]. rewrite Hp. apply elem_of_app. by right. Qed.
Lemma trim_end_elem f s c : c ∈ trim_end_matches f s → c ∈ s.
Proof. intros H. destruct (trim_end_prefix f s) as [p Hp]. rewrite Hp. apply elem_of_app. by left. Qed.

Lemma lines_from_elem cur s l c : l ∈ lines_from cur s → c ∈ l → c ∈ cur ∨ c ∈ s.
Proof.
  revert cur. induction s as [|d s IH]; intros cur Hl Hc; cbn in Hl.
  - destruct cur; [by apply elem_of_nil in Hl|]. apply list_elem_of_singleton in Hl as ->. by left.
  - rewrite elem_of_cons. destruct (d =? 10).
    + apply elem_of_cons in Hl as [-> | Hl].
      * left. unfold strip_cr in Hc. destruct (strip_suffix [13] cur) as [r|] eqn:E; cbn in Hc; [|exact Hc].
        apply strip_suffix_Some in E as ->. apply elem_of_app. by left.
      * destruct (IH [] Hl Hc) as [?|?]; [by apply not_elem_of_nil in H|by right; right].
    + destruct (IH _ Hl Hc) as [Hcc|?]; [|by right; right].
      apply elem_of_app in Hcc as [?|Hcd]; [by left|]. apply list_elem_of_singleton in Hcd as ->. by right; left.
Qed.
Lemma lines_from_no_lf cur s : 10 ∉ cur → Forall (λ l, 10 ∉ l) (lines_from cur s).
Proof.
  revert cur. induction s as [|d s IH]; intros cur Hc; cbn.
  - destruct cur; [constructor|by apply Forall_cons_2; [|constructor]].
  - destruct (Z.eqb_spec d 10) as [->|Hd].
    + apply Forall_cons_2; [|apply IH, not_elem_of_nil]. unfold strip_cr.
      destruct (strip_suffix [13] cur) as [r|] eqn:E; cbn; [|exact Hc].
      apply strip_suffix_Some in E as ->. by apply not_elem_of_app in Hc as [? _].
    + apply IH. apply not_elem_of_app. split; [done|]. by rewrite list_elem_of_singleton.
Qed.
Lemma lines_no_lf s : Forall (λ l, 10 ∉ l) (lines s).
Proof. apply lines_from_no_lf, not_elem_of_nil. Qed.
Lemma lines_scalars s : scalars s → Forall (λ l, scalars l) (lines s).
Proof.
  intros Hs. apply Forall_forall. intros l Hl. apply Forall_forall. intros c Hc.
  destruct (lines_from_elem [] s l c Hl Hc) as [H|H]; [by apply not_elem_of_nil in H|].
  by eapply Forall_forall in Hs.
Qed.
Lemma encode_utf16_inj s t : scalars s → scalars t → encode_utf16 s = encode_utf16 t → s = t.
Proof.
  intros Hs Ht Heq. apply (f_equal from_utf16) in Heq.
  rewrite !from_utf16_encode in Heq by done. by injection Heq.
Qed.

(** ** Bytes *)

(** [bytes.starts_with(p)] *)
Definition bytes_start_with (bs : bytes) (p : list Z) : bool :=
  bool_decide (take (length p) bs = byte_of <$> p).
Definition u16_be_bytes (us : list Z) : bytes := us ≫= λ u, rev (to_le 2 u).
Lemma be_u16s_bytes us : Forall (λ u, 0 <= u < 65536) us → be_u16s (u16_be_bytes us) = us.
Proof.
  induction 1 as [|u us Hu _ IH]; [done|].
  change (u16_be_bytes (u :: us)) with (rev (to_le 2 u) ++ u16_be_bytes us).
  change (rev (to_le 2 u)) with ([byte_of (Z.shiftr u 8); byte_of u]). cbn [app be_u16s]. rewrite IH.
  f_equal. change (from_le (to_le 2 u) = u).
  by rewrite from_to_le_small by (change (Z.of_nat 2 * 8) with 16; lia).
Qed.
Lemma len_u16_bytes us : len (u16_le_bytes us) = 2 * len us ∧ len (u16_be_bytes us) = 2 * len us.
Proof.
  induction us as [|u us [IH1 IH2]]; [done|].
  change (u16_le_bytes (u :: us)) with (to_le 2 u ++ u16_le_bytes us).
  change (u16_be_bytes (u :: us)) with (rev (to_le 2 u) ++ u16_be_bytes us).
  rewrite !len_app, IH1, IH2, len_cons. change (len (rev (to_le 2 u))) with 2. rewrite len_to_le. lia.
Qed.

Lemma le_u16s_range bs : Forall (λ u, 0 <= u < 65536) (le_u16s bs).
Proof.
  assert (∀ n bs, (length bs <= n)%nat → Forall (λ u, 0 <= u < 65536) (le_u16s bs)) as H; [|by eapply H].
  clear bs. induction n as [|n IH]; intros [|a [|b r]] Hn; cbn in *; try constructor; try lia.
  - pose proof (from_le_range [a; b]) as Hr. change (8 * len [a; b]) with 16 in Hr. lia.
  - apply IH. lia.
Qed.
Lemma be_u16s_range bs : Forall (λ u, 0 <= u < 65536) (be_u16s bs).
Proof.
  assert (∀ n bs, (length bs <= n)%nat → Forall (λ u, 0 <= u < 65536) (be_u16s bs)) as H; [|by eapply H].
  clear bs. induction n as [|n IH]; intros [|a [|b r]] Hn; cbn in *; try constructor; try lia.
  - pose proof (from_le_range [b; a]) as Hr. change (8 * len [b; a]) with 16 in Hr. exact Hr.
  - apply IH. lia.
Qed.
Lemma u16_le_bytes_inj us vs :
  Forall (λ u, 0 <= u < 65536) us → Forall (λ u, 0 <= u < 65536) vs →
  u16_le_bytes us = u16_le_bytes vs → us = vs.
Proof. intros Hu Hv H. by rewrite <-(le_u16s_bytes us), <-(le_u16s_bytes vs), H. Qed.

(** The first byte of encoded text is not [0xFE] or [0xFF], and the text starts
    with the UTF-8 byte order mark only if its first character is U+FEFF. *)
Lemma encode_utf8_no_bom s :
  scalars s → (∀ r, s ≠ 0xFEFF :: r) →
  sub (encode_utf8 s) 0 3 ≠ byte_of <$> [0xEF; 0xBB; 0xBF] ∧
  sub (encode_utf8 s) 0 2 ≠ byte_of <$> [0xFF; 0xFE] ∧
  sub (encode_utf8 s) 0 2 ≠ byte_of <$> [0xFE; 0xFF].
Proof.
  intros Hs Hf. destruct Hs as [|c s Hc Hs]; [done|]. specialize (Hf s).
  apply is_scalar_spec in Hc.
  change (encode_utf8 (c :: s)) with (encode_utf8_char c ++ encode_utf8 s).
  assert (∀ x y : Z, 0 <= x < 256 → 0 <= y < 256 → byte_of x = byte_of y → x = y) as Hinj.
  { intros x y ?? Hxy. apply (f_equal u8) in Hxy. rewrite !u8_of, !Z.mod_small in Hxy by lia. done. }
  unfold sub, encode_utf8_char. change (Z.to_nat 0) with 0%nat. rewrite drop_0.
  change (Z.to_nat (3 - 0)) with 3%nat. change (Z.to_nat (2 - 0)) with 2%nat.
  destruct (Z.ltb_spec c 0x80); [|destruct (Z.ltb_spec c 0x800); [|destruct (Z.ltb_spec c 0x10000)]];
    cbn [fmap list_fmap app]; split_and?; intros Heq;
    destruct (encode_utf8 s) as [|b1 [|b2 r]]; cbn in Heq; try done;
    injection Heq; intros; repeat match goal with
    | H : byte_of ?x = byte_of ?y |- _ => apply Hinj in H; [|lia|lia]
    end; try lia.
  all: destruct Hf; f_equal; lia.
Qed.

(** ** Visible ASCII and rows *)

Definition CRLF : str := [13; 10].

(** Visible ASCII other than the comma. *)
Definition plain (c : char) : bool := (33 <=? c) && (c <? 127) && negb (c =? 44).
Lemma plain_spec c : plain c = true → 33 <= c < 127 ∧ c ≠ 44.
Proof. unfold plain. intros. zbool. lia. Qed.
Lemma plain_props c : plain c = true → is_ascii c = true ∧ is_whitespace c = false.
Proof.
  intros [Hc _]%plain_spec. split; [unfold is_ascii; by run|]. unfold is_whitespace, between. by run.
Qed.
Abbreviation plains s := (Forall (λ c, plain c = true) s) (only parsing).
Lemma plains_ascii s : plains s → Forall (λ c, is_ascii c = true) s.
Proof. intros H. eapply Forall_impl; [exact H|]. by intros c [? _]%plain_props. Qed.
Lemma plains_visible s : plains s → Forall (λ c, is_whitespace c = false) s.
Proof. intros H. eapply Forall_impl; [exact H|]. by intros c [_ ?]%plain_props. Qed.
Lemma plains_trim s : plains s → trim s = s.
Proof. intros. by apply trim_visible, plains_visible. Qed.
Lemma plains_notin s c : plains s → plain c = false → c ∉ s.
Proof. intros Hs Hc Hin. eapply Forall_forall in Hs; [|done]. by rewrite Hc in Hs. Qed.
Lemma from_utf8_plain s : plains s → from_utf8 (byte_of <$> s) = Some s.
Proof.
  intros Hs%plains_ascii. rewrite <-encode_utf8_ascii by done. by apply from_utf8_encode, ascii_scalars.
Qed.

Lemma plain_no_lf s : plains s → 10 ∉ s.
Proof. intros. by eapply plains_notin. Qed.

(** [l.chunks(n)]: each round takes a byte at least. *)
Fixpoint chunks {A} (fuel : nat) (n : nat) (bs : list A) : list (list A) :=
  match fuel, bs with
  | S fuel', _ :: _ => take n bs :: chunks fuel' n (drop n bs)
  | _, _ => []
  end.
Lemma chunks_concat {A} fuel n (l : list A) :
  (0 < n)%nat → (length l <= fuel)%nat → concat (chunks fuel n l) = l.
Proof.
  intros Hn. revert l. induction fuel as [|fuel IH]; intros [|x l] Hf; cbn [length] in Hf; try done; [lia|].
  cbn [chunks concat]. rewrite IH; [apply take_drop|]. rewrite length_drop. cbn [length]. lia.
Qed.
Lemma chunks_Forall {A} (P : A → Prop) fuel n l :
  (0 < n)%nat → Forall P l → Forall (λ c, c ≠ [] ∧ Forall P c) (chunks fuel n l).
Proof.
  intros Hn. revert l. induction fuel as [|fuel IH]; intros [|x l] Hl; cbn [chunks]; try constructor.
  - split; [by destruct n; [lia|]|by apply Forall_take].
  - by apply IH, Forall_drop.
Qed.
Lemma chunks_fmap {A B} (f : A → B) fuel n (l : list A) :
  chunks fuel n (f <$> l) = (λ c : list A, f <$> c) <$> chunks fuel n l.
Proof.
  revert l. induction fuel as [|fuel IH]; intros [|x l]; try done.
  change (take n (f <$> x :: l) :: chunks fuel n (drop n (f <$> x :: l)) =
    (f <$> take n (x :: l)) :: ((λ c : list A, f <$> c) <$> chunks fuel n (drop n (x :: l)))).
  by rewrite <-fmap_take, <-fmap_drop, IH.
Qed.

(** ** Paths

    [Path::extension]: the last component, when it is a name, after its last
    dot, when the dot is not its first character. *)
Definition rsplit_once (c : char) (s : str) : option (str * str) :=
  '(a, b) ← split_once c (@rev Z s); Some (@rev Z b, @rev Z a).
Definition path_file_name (p : str) : option str :=
  match last (List.filter (λ c, negb (bool_decide (c = [])) && negb (bool_decide (c = [46]))) (split 47 p)) with
  | Some name => if bool_decide (name = [46; 46]) then None else Some name
  | None => None
  end.
Definition path_extension (p : str) : option str :=
  name ← path_file_name p;
  '(stem, ext) ← rsplit_once 46 name;
  if bool_decide (stem = []) then None else Some ext.

(** ** Numbers, order and replacement *)

(** [n.to_string()]; the fuel bounds the number of digits *)
Fixpoint decimal (fuel : nat) (n : Z) : str :=
  match fuel with
  | O => []
  | S fuel' => if n <? 10 then [48 + n] else decimal fuel' (n / 10) ++ [48 + n mod 10]
  end.
(** [s.parse::<u16>()] and [s.parse::<u64>()]: digits, after an optional plus
    sign, of a number below the bound of the width *)
Fixpoint parse_digits (bound acc : Z) (s : str) : option Z :=
  match s with
  | [] => Some acc
  | c :: s' =>
      if is_ascii_digit c then
        let v := acc * 10 + (c - 48) in if v <? bound then parse_digits bound v s' else None
      else None
  end.
Definition parse_uint (bound : Z) (s : str) : option Z :=
  let s := default s (strip_prefix [43] s) in
  if bool_decide (s = []) then None else parse_digits bound 0 s.

Lemma is_ascii_digit_of n : 0 <= n < 10 → is_ascii_digit (48 + n) = true.
Proof. intros. unfold is_ascii_digit, between. rewrite andb_true_iff, !Z.leb_le. lia. Qed.
Lemma parse_digits_app bound acc s t :
  parse_digits bound acc (s ++ t) = (v ← parse_digits bound acc s; parse_digits bound v t).
Proof.
  revert acc. induction s as [|c s IH]; intros acc; [done|]. cbn.
  destruct (is_ascii_digit c); [|done]. by destruct (_ <? bound).
Qed.
Lemma parse_digits_decimal bound fuel n :
  0 <= n < bound → n < 10 ^ Z.of_nat fuel → parse_digits bound 0 (decimal fuel n) = Some n.
Proof.
  revert n. induction fuel as [|fuel IH]; intros n Hn Hf; [cbn in Hf; cbn; f_equal; lia|].
  cbn [decimal]. destruct (Z.ltb_spec n 10).
  - cbn [parse_digits]. rewrite is_ascii_digit_of by lia. ztest. cbn. f_equal. lia.
  - rewrite Nat2Z.inj_succ, Z.pow_succ_r in Hf by lia.
    rewrite parse_digits_app, IH by lia. cbn [mbind option_bind parse_digits].
    rewrite is_ascii_digit_of by lia. ztest. cbn. f_equal. lia.
Qed.
Lemma decimal_head fuel n : 0 <= n → (0 < fuel)%nat → ∃ c s, decimal fuel n = c :: s ∧ c ≠ 43.
Proof.
  revert n. induction fuel as [|fuel IH]; intros n Hn Hf; [lia|]. cbn [decimal].
  destruct (Z.ltb_spec n 10); [exists (48 + n), []; split; [done|lia]|].
  destruct fuel as [|fuel]; [exists (48 + n mod 10), []; split; [done|lia]|].
  destruct (IH (n / 10)) as (c & s & -> & Hc); [lia..|]. by eexists c, _.
Qed.
Lemma parse_uint_decimal bound fuel n :
  0 <= n < bound → n < 10 ^ Z.of_nat fuel → (0 < fuel)%nat → parse_uint bound (decimal fuel n) = Some n.
Proof.
  intros Hn Hf H0. destruct (decimal_head fuel n) as (c & s & Hd & Hc); [lia..|].
  unfold parse_uint. replace (strip_prefix [43] (decimal fuel n)) with (@None str).
  - rewrite bool_decide_eq_false_2 by (by rewrite Hd). by apply parse_digits_decimal.
  - rewrite Hd. change (strip_prefix [43] (c :: s)) with (if 43 =? c then Some s else None).
    by rewrite (proj2 (Z.eqb_neq 43 c)) by lia.
Qed.
Lemma parse_uint_range bound s n : parse_uint bound s = Some n → 0 <= n ∧ (n < bound ∨ n = 0).
Proof.
  unfold parse_uint. destruct (bool_decide _); [done|]. generalize (default s (strip_prefix [43] s)) as t.
  enough (∀ t acc, 0 <= acc → acc < bound ∨ acc = 0 → parse_digits bound acc t = Some n → 0 <= n ∧ (n < bound ∨ n = 0))
    as H by (intros t Ht; eapply H in Ht; [done|lia..]).
  induction t as [|c t IH]; intros acc Ha Hb; cbn; [by intros [= <-]|].
  unfold is_ascii_digit, between. destruct (_ && _) eqn:E; [|done]. zbool.
  destruct (Z.ltb_spec (acc * 10 + (c - 48)) bound); [|done]. apply IH; lia.
Qed.

(** The order of strings: code points compare as their UTF-8 bytes do. *)
Fixpoint str_le (a b : str) : bool :=
  match a, b with
  | [], _ => true
  | _ :: _, [] => false
  | x :: a', y :: b' => (x <? y) || ((x =? y) && str_le a' b')
  end.

(** [s.replace(c, by)] of a character by a string *)
Definition replace_char (c : char) (by_ : str) (s : str) : str := s ≫= λ d, if d =? c then by_ else [d].

(** ** Segments and case *)

Lemma lower_idem s : to_ascii_lowercase (to_ascii_lowercase s) = to_ascii_lowercase s.
Proof.
  unfold to_ascii_lowercase. rewrite <-list_fmap_compose. apply list_fmap_ext. intros _ c _. cbn.
  unfold lower at 2 3. destruct (is_ascii_upper c) eqn:E; unfold lower; [|by rewrite E].
  unfold is_ascii_upper, between in *. zbool. run. done.
Qed.
Lemma last_segment p : ∃ pre leaf, last (split 47 p) = Some leaf ∧ p = pre ++ leaf ∧ (split 47 p = [leaf] → pre = []).
Proof.
  induction p as [|c p (pre & leaf & Hl & Hp & Hs)]; [by exists [], []|]. cbn [split].
  destruct (c =? 47).
  - exists (c :: pre), leaf. rewrite last_cons, Hl. split; [done|]. split; [by rewrite Hp|].
    intros [= _ Hn]. by rewrite Hn in Hl.
  - destruct (split 47 p) as [|s [|s' ss]]; [done|..].
    + injection Hl as ->. exists [], (c :: leaf). split; [done|]. split; [|done]. by rewrite Hp, Hs.
    + exists (c :: pre), leaf. rewrite !last_cons in *. split; [by destruct (last ss)|]. split; [by rewrite Hp|done].
Qed.
Lemma rsplit_once_suffix c pre s a b : rsplit_once c s = Some (a, b) → rsplit_once c (pre ++ s) = Some (pre ++ a, b).
Proof.
  unfold rsplit_once. destruct (split_once c (rev s)) as [[x y]|] eqn:E; [|done]. cbn. intros [= <- <-].
  apply split_once_Some in E as [Hs Hn]. change (@rev Z) with (@List.rev Z) in *.
  rewrite rev_app_distr, Hs, <-app_assoc. cbn [app]. rewrite split_once_app by done. cbn.
  by rewrite rev_app_distr, rev_involutive.
Qed.
Lemma split_no_sep c p s : s ∈ split c p → c ∉ s.
Proof.
  revert s. induction p as [|d p IH]; intros s; cbn [split].
  { intros ->%list_elem_of_singleton. by intros ?%elem_of_nil. }
  destruct (Z.eqb_spec d c).
  - intros [->|Hs]%elem_of_cons; [by intros ?%elem_of_nil|by apply IH].
  - destruct (split c p) as [|s' ss]; [intros ->%list_elem_of_singleton; rewrite list_elem_of_singleton; congruence|].
    intros [->|Hs]%elem_of_cons; [|by apply IH; right].
    intros [?|?]%elem_of_cons; [congruence|]. by apply (IH s'); [left|].
Qed.
Lemma rsplit_once_Some c s a b : rsplit_once c s = Some (a, b) → s = a ++ c :: b.
Proof.
  unfold rsplit_once. destruct (split_once c (rev s)) as [[x y]|] eqn:E; [|done]. cbn. intros [= <- <-].
  apply split_once_Some in E as [Hs _]. apply (f_equal (@List.rev Z)) in Hs.
  rewrite rev_involutive in Hs. rewrite Hs. rewrite rev_app_distr. cbn. by rewrite <-app_assoc.
Qed.
Lemma lower_elem x s : is_ascii_lower x = false → x ∈ to_ascii_lowercase s → x ∈ s.
Proof.
  intros Hx (y & -> & Hy)%list_elem_of_fmap. unfold lower in *. destruct (is_ascii_upper y) eqn:E; [|done].
  unfold is_ascii_lower, is_ascii_upper, between in *. zbool. apply andb_false_iff in Hx as [?|?]; zbool; lia.
Qed.

(** ** The order of strings *)

Lemma str_le_trans a b c : str_le a b = true → str_le b c = true → str_le a c = true.
Proof.
  revert b c. induction a as [|x a IH]; intros [|y b] [|z c]; cbn; try done.
  rewrite !orb_true_iff, !andb_true_iff, !Z.ltb_lt, !Z.eqb_eq.
  intros [?|[-> ?]] [?|[-> ?]]; [left; lia|left; lia|left; lia|right]. split; [done|]. by eapply IH.
Qed.
Lemma str_le_antisym a b : str_le a b = true → str_le b a = true → a = b.
Proof.
  revert b. induction a as [|x a IH]; intros [|y b]; cbn; try done.
  rewrite !orb_true_iff, !andb_true_iff, !Z.ltb_lt, !Z.eqb_eq.
  intros [?|[-> ?]] [?|[? ?]]; try lia. f_equal. by apply IH.
Qed.
Lemma str_le_total a b : str_le a b = false → str_le b a = true.
Proof.
  revert b. induction a as [|x a IH]; intros [|y b]; cbn; try done.
  rewrite orb_false_iff, andb_false_iff, Z.ltb_ge, Z.eqb_neq, orb_true_iff, andb_true_iff, Z.ltb_lt, Z.eqb_eq.
  intros [? [?|?]]; [left; lia|]. destruct (decide (y = x)); [right|left; lia]. split; [done|]. by apply IH.
Qed.
Lemma str_le_refl a : str_le a a = true.
Proof. induction a as [|c a IH]; cbn; [done|]. by rewrite Z.eqb_refl, IH, orb_true_r. Qed.
