(* ===== verification/Find.v ===== *)
(** Searching a pattern in a text or a list of code units: the standard
    library's [str::find], [str::rfind] and [slice::windows], and the two
    helpers the script modules define over code units. *)

From S2P Require Import Prelude.
From S2P Require Import RustStr.

(** [haystack.find(needle)], counted from [i]. *)
Fixpoint find_at (i : Z) (haystack needle : list Z) : option Z :=
  match strip_prefix needle haystack with
  | Some _ => Some i
  | None => match haystack with [] => None | _ :: h' => find_at (i + 1) h' needle end
  end.
Definition find (haystack needle : list Z) : option Z := find_at 0 haystack needle.
Definition contains (haystack needle : list Z) : bool := bool_decide (is_Some (find haystack needle)).

(** [haystack.rfind(needle)]: the last position, from [i]. *)
Fixpoint rfind_at (i : Z) (last : option Z) (haystack needle : list Z) : option Z :=
  let last := match strip_prefix needle haystack with Some _ => Some i | None => last end in
  match haystack with [] => last | _ :: h' => rfind_at (i + 1) last h' needle end.
Definition rfind (haystack needle : list Z) : option Z := rfind_at 0 None haystack needle.

(** [needle] stands at position [k] of [haystack]. *)
Definition occurs (haystack needle : list Z) (k : Z) : Prop :=
  ∃ a c, haystack = a ++ needle ++ c ∧ len a = k.

Lemma occurs_nil n k : occurs [] n k ↔ n = [] ∧ k = 0.
Proof.
  split; [|intros [-> ->]; by exists [], []].
  intros ([|x a] & c & H & <-); [|done]. symmetry in H. cbn in H. by apply app_nil in H as [-> _].
Qed.
Lemma occurs_cons x h n k :
  occurs (x :: h) n k ↔ (k = 0 ∧ is_Some (strip_prefix n (x :: h))) ∨ (0 < k ∧ occurs h n (k - 1)).
Proof.
  split.
  - intros ([|y a] & c & H & <-).
    + left. split; [done|]. exists c. by apply strip_prefix_Some.
    + injection H as -> ->. right. rewrite len_cons. pose proof (len_nonneg a).
      split; [lia|]. exists a, c. split; [done|lia].
  - intros [[-> [r Hr%strip_prefix_Some]]|[Hk (a & c & -> & Ha)]].
    + exists [], r. by rewrite Hr.
    + exists (x :: a), c. rewrite len_cons. split; [done|lia].
Qed.
Lemma occurs_range h n k : occurs h n k → 0 <= k ∧ k + len n <= len h.
Proof. intros (a & c & -> & <-). rewrite !len_app.
  pose proof (len_nonneg a). pose proof (len_nonneg c). lia. Qed.

Lemma find_at_shift i h n : find_at i h n = (λ k, k + i) <$> find h n.
Proof.
  unfold find. revert i. induction h as [|x h IH]; intros i; cbn -[strip_prefix].
  - by destruct (strip_prefix n []).
  - destruct (strip_prefix n (x :: h)); [done|]. rewrite (IH (i + 1)), (IH (0 + 1)).
    destruct (find_at 0 h n); cbn; f_equal. lia.
Qed.
Lemma find_cons x h n :
  find (x :: h) n = if bool_decide (is_Some (strip_prefix n (x :: h))) then Some 0
                    else Z.succ <$> find h n.
Proof.
  unfold find at 1. cbn -[strip_prefix]. destruct (strip_prefix n (x :: h)) eqn:E.
  - by rewrite bool_decide_eq_true_2 by done.
  - rewrite bool_decide_eq_false_2 by (by intros [? [=]]). by rewrite find_at_shift.
Qed.

(** The search finds the first occurrence. *)
Lemma find_Some h n k : find h n = Some k ↔ occurs h n k ∧ ∀ j, j < k → ¬ occurs h n j.
Proof.
  revert k. induction h as [|x h IH]; intros k.
  - assert (find [] n = if bool_decide (n = []) then Some 0 else None) as -> by (by destruct n).
    case_bool_decide; subst; rewrite occurs_nil; (split; [|by intros [[? ->] _]]); [|done].
    intros [= <-]. split; [done|]. intros j Hj [_ ->]%occurs_nil. lia.
  - rewrite find_cons. case_bool_decide as Hp.
    + split.
      * intros [= <-]. split; [apply occurs_cons; by left|]. intros j Hj Ho%occurs_range. lia.
      * intros [Ho Hno]. pose proof (occurs_range _ _ _ Ho). destruct (decide (k = 0)) as [->|]; [done|].
        destruct (Hno 0); [lia|]. apply occurs_cons. by left.
    + rewrite fmap_Some. setoid_rewrite occurs_cons. split.
      * intros (k' & [Ho Hno]%IH & ->). pose proof (occurs_range _ _ _ Ho). split.
        -- right. split; [lia|]. by replace (Z.succ k' - 1) with k' by lia.
        -- intros j Hj [[_ ?]|[? ?]]; [done|]. by apply (Hno (j - 1)); [lia|].
      * intros [[[_ ?]|[Hk Ho]] Hno]; [done|]. exists (k - 1). split; [|lia]. apply IH. split; [done|].
        intros j Hj Hoj. pose proof (occurs_range _ _ _ Hoj). apply (Hno (j + 1)); [lia|].
        right. split; [lia|]. by replace (j + 1 - 1) with j by lia.
Qed.
Lemma find_None h n : find h n = None ↔ ∀ k, ¬ occurs h n k.
Proof.
  split.
  - intros H k (a & c & Hh & Hk). revert H. rewrite Hh. clear. induction a as [|x a IH].
    + cbn [app]. destruct (n ++ c) eqn:E; [by apply app_nil in E as [-> ->]|].
      rewrite find_cons, bool_decide_eq_true_2; [done|]. rewrite <-E, strip_prefix_app. by eexists.
    + cbn [app]. rewrite find_cons. case_bool_decide; [done|]. rewrite fmap_None. apply IH.
  - intros H. destruct (find h n) as [k|] eqn:E; [|done]. apply find_Some in E as [E _]. by destruct (H k).
Qed.
Lemma contains_false h n : contains h n = false ↔ ∀ k, ¬ occurs h n k.
Proof.
  rewrite <-find_None. unfold contains. rewrite bool_decide_eq_false. destruct (find h n); split; try done.
  intros H. destruct H. by eexists.
Qed.

(** ** Occurrences across a separator the pattern does not hold *)

Lemma strip_prefix_before n a c b : c ∉ n → n ≠ [] →
  is_Some (strip_prefix n (a ++ c :: b)) → is_Some (strip_prefix n a).
Proof.
  intros Hc Hn [r Hr%strip_prefix_Some]. clear Hn. revert n Hc Hr. induction a as [|x a IH]; intros n Hc Hr.
  - destruct n as [|y n]; [by eexists|]. injection Hr as -> _. destruct Hc. by left.
  - destruct n as [|y n]; [by eexists|]. injection Hr as -> Hr.
    destruct (IH n) as [r' Hr']; [by intros ?; apply Hc; right|done|].
    exists r'. apply strip_prefix_Some in Hr' as ->. by apply strip_prefix_Some.
Qed.
Lemma strip_prefix_longer n a b : is_Some (strip_prefix n a) → is_Some (strip_prefix n (a ++ b)).
Proof. intros [r ->%strip_prefix_Some]. rewrite <-app_assoc, strip_prefix_app. by eexists. Qed.

Lemma occurs_split a c b n k : c ∉ n → n ≠ [] →
  occurs (a ++ c :: b) n k → occurs a n k ∨ occurs b n (k - len a - 1).
Proof.
  intros Hc Hn. revert k. induction a as [|x a IH]; intros k Ho.
  - cbn [app] in Ho. apply occurs_cons in Ho as [[_ Hp]|[_ Ho]].
    + apply (strip_prefix_before n [] c b) in Hp as [? ?]; [|done..]. by destruct n.
    + right. replace (k - len [] - 1) with (k - 1) by (rewrite len_nil; lia). done.
  - cbn [app] in Ho. apply occurs_cons in Ho as [[-> Hp]|[Hk Ho]].
    + left. apply occurs_cons. left. split; [done|]. by apply (strip_prefix_before n (x :: a) c b).
    + destruct (IH _ Ho) as [Ha|Hb]; [left; apply occurs_cons; by right|right].
      rewrite len_cons. by replace (k - (1 + len a) - 1) with (k - 1 - len a - 1) by lia.
Qed.
Lemma contains_split a c b n : c ∉ n → n ≠ [] →
  contains a n = false → contains b n = false → contains (a ++ c :: b) n = false.
Proof.
  rewrite !contains_false. intros Hc Hn Ha Hb k Ho.
  apply occurs_split in Ho as [Ho|Ho]; [by eapply Ha|by eapply Hb|done..].
Qed.

Lemma find_skip a c b n : c ∉ n → n ≠ [] → contains a n = false →
  find (a ++ c :: b) n = (λ k, len a + 1 + k) <$> find b n.
Proof.
  intros Hc Hn. rewrite contains_false. induction a as [|x a IH]; intros Ha.
  - cbn [app]. rewrite find_cons, bool_decide_eq_false_2.
    + rewrite len_nil. destruct (find b n); cbn; f_equal; lia.
    + intros Hp. apply (strip_prefix_before n [] c b) in Hp as [? ?]; [|done..]. by destruct n.
  - cbn [app]. rewrite find_cons, bool_decide_eq_false_2.
    + rewrite IH, len_cons by (intros k Ho; pose proof (occurs_range _ _ _ Ho); apply (Ha (k + 1)), occurs_cons; right;
        split; [lia|]; by replace (k + 1 - 1) with k by lia).
      destruct (find b n); cbn; f_equal; lia.
    + intros Hp. apply (strip_prefix_before n (x :: a) c b) in Hp; [|done..].
      apply (Ha 0), occurs_cons. by left.
Qed.
Lemma find_longer a b n k : find a n = Some k → find (a ++ b) n = Some k.
Proof.
  rewrite !find_Some. intros [Ho Hno]. pose proof (occurs_range _ _ _ Ho). split.
  - destruct Ho as (p & q & -> & Hk). exists p, (q ++ b). by rewrite <-!app_assoc.
  - intros j Hj (p & q & Heq & Hp). apply (Hno j Hj).
    exists p, (take (length a - length p - length n) q). split; [|done]. unfold len in *.
    trans (take (length a) (a ++ b)); [by rewrite take_app_length|].
    by rewrite Heq, !take_app, (take_ge p), (take_ge n) by lia.
Qed.
Lemma find_around h n p q k :
  find h n = Some (k + len p) → occurs h (p ++ n ++ q) k → find h (p ++ n ++ q) = Some k.
Proof.
  rewrite !find_Some. intros [_ Hno] Ho. split; [done|]. intros j Hj (a & c & -> & Ha).
  apply (Hno (j + len p)); [lia|]. exists (a ++ p), (q ++ c). rewrite <-!app_assoc, len_app.
  split; [done|lia].
Qed.

(** [rfind] is the last occurrence. *)
Lemma rfind_at_spec i last h n :
  rfind_at i last h n = match rfind h n with Some k => Some (k + i) | None => last end.
Proof.
  unfold rfind. revert i last. induction h as [|x h IH]; intros i last; cbn -[strip_prefix].
  - by destruct (strip_prefix n []).
  - rewrite IH, (IH (0 + 1)). destruct (rfind_at 0 None h n); [f_equal; lia|].
    by destruct (strip_prefix n (x :: h)).
Qed.
Lemma rfind_cons x h n :
  rfind (x :: h) n = match rfind h n with
                     | Some k => Some (k + 1)
                     | None => if bool_decide (is_Some (strip_prefix n (x :: h))) then Some 0 else None
                     end.
Proof.
  unfold rfind at 1. cbn -[strip_prefix]. rewrite rfind_at_spec. destruct (rfind h n); [done|].
  case_bool_decide as Hp; destruct (strip_prefix n (x :: h)); try done; by destruct Hp.
Qed.
Lemma rfind_None_occurs h n k : rfind h n = None → ¬ occurs h n k.
Proof.
  revert k. induction h as [|x h IH]; intros k Hn Ho.
  - apply occurs_nil in Ho as [-> _]. by cbn in Hn.
  - rewrite rfind_cons in Hn. destruct (rfind h n); [done|]. case_bool_decide as Hp; [done|].
    apply occurs_cons in Ho as [[_ ?]|[_ ?]]; [done|]. by eapply IH.
Qed.
Lemma rfind_Some h n k : rfind h n = Some k ↔ occurs h n k ∧ ∀ j, k < j → ¬ occurs h n j.
Proof.
  revert k. induction h as [|x h IH]; intros k.
  - assert (rfind [] n = if bool_decide (n = []) then Some 0 else None) as -> by (by destruct n).
    case_bool_decide; subst; rewrite occurs_nil; (split; [|by intros [[? ->] _]]); [|done].
    intros [= <-]. split; [done|]. intros j Hj [_ ->]%occurs_nil. lia.
  - rewrite rfind_cons. split.
    + intros H. destruct (rfind h n) as [k'|] eqn:E.
      * injection H as <-. destruct (proj1 (IH k') eq_refl) as [Ho Hno].
        pose proof (occurs_range _ _ _ Ho). split.
        -- apply occurs_cons. right. split; [lia|]. by replace (k' + 1 - 1) with k' by lia.
        -- intros j Hj [[? _]|[_ ?]]%occurs_cons; [lia|]. apply (Hno (j - 1)); [lia|done].
      * case_bool_decide as Hp; [injection H as <-|done]. split; [apply occurs_cons; by left|].
        intros j Hj [[? _]|[_ Ho]]%occurs_cons; [lia|]. by eapply rfind_None_occurs in E.
    + intros [Ho Hno]. destruct (rfind h n) as [k'|] eqn:E.
      * destruct (proj1 (IH k') eq_refl) as [Ho' Hno']. f_equal. pose proof (occurs_range _ _ _ Ho').
        assert (occurs (x :: h) n (k' + 1)) as Hc.
        { apply occurs_cons. right. split; [lia|]. by replace (k' + 1 - 1) with k' by lia. }
        apply occurs_cons in Ho as [[-> _]|[Hk Ho]].
        -- exfalso. by apply (Hno (k' + 1)); [lia|].
        -- assert (¬ k' < k - 1) by (intros ?; by eapply Hno'). assert (¬ k < k' + 1) by (intros ?; by eapply Hno). lia.
      * apply occurs_cons in Ho as [[-> Hp]|[_ Ho]].
        -- by rewrite bool_decide_eq_true_2.
        -- by eapply rfind_None_occurs in E.
Qed.

(** ** Text without the pattern, whatever follows *)

(** [s] holds a character other than the one [n] has at the same place. *)
Fixpoint differs (n s : list Z) : bool :=
  match n, s with
  | x :: n', c :: s' => negb (x =? c) || differs n' s'
  | _, _ => false
  end.
(** No place of [s] starts an occurrence of [n], whatever follows [s]. *)
Fixpoint clear (n s : list Z) : bool :=
  match s with
  | [] => true
  | _ :: s' => differs n s && clear n s'
  end.
Lemma differs_app n a b : differs n a = true → differs n (a ++ b) = true.
Proof. revert a. induction n as [|x n IH]; intros [|c a]; cbn; try done. destruct (negb _); cbn; auto. Qed.
Lemma clear_app n a b : clear n a = true → clear n b = true → clear n (a ++ b) = true.
Proof.
  induction a as [|c a IH]; intros Ha Hb; [done|]. cbn [clear app] in Ha |- *. apply andb_true_iff in Ha as [Hd Ha].
  apply andb_true_iff. split; [by apply (differs_app n (c :: a) b)|by apply IH].
Qed.
Lemma clear_without x n s : x ∉ s → clear (x :: n) s = true.
Proof.
  induction s as [|c s IH]; intros Hx; [done|]. apply not_elem_of_cons in Hx as [Hc Hx]. cbn [clear differs].
  rewrite (proj2 (Z.eqb_neq x c)) by done. by apply IH.
Qed.
Lemma differs_prefix n s : differs n s = true → strip_prefix n s = None.
Proof.
  revert s. induction n as [|x n IH]; intros [|c s]; cbn; try done. destruct (x =? c); cbn; [apply IH|done].
Qed.
Lemma find_clear n a b : clear n a = true → n ≠ [] → find (a ++ n ++ b) n = Some (len a).
Proof.
  intros Ha Hn. induction a as [|c a IH]; cbn [app].
  - destruct n as [|x n]; [done|]. cbn [app]. rewrite find_cons, bool_decide_eq_true_2; [done|].
    exists b. apply (strip_prefix_app (x :: n)).
  - cbn [clear] in Ha. apply andb_true_iff in Ha as [Hd Ha]. rewrite find_cons, bool_decide_eq_false_2.
    + rewrite IH by done. cbn. rewrite len_cons. f_equal. lia.
    + rewrite (differs_prefix n (c :: a ++ n ++ b)); [by intros [? ?]|].
      by apply (differs_app n (c :: a) (n ++ b)).
Qed.
