(* ===== verification/Base64.v ===== *)
(** Base64: the interface of crate [base64]'s standard engine the sources
    call, and an implementation of it (RFC 4648, padded, canonical), which
    the witnesses of the other files run on. *)

From S2P Require Import Prelude.
From S2P Require Import RustStr.

(** The letters, the digits, [+], [/] and the padding [=]. *)
Definition is_base64_char (c : char) : bool :=
  is_ascii_alphanumeric c || (c =? 43) || (c =? 47) || (c =? 61).

(** What the sources rely on: decoding inverts encoding, and an encoding is
    whole groups of four characters of the standard alphabet. *)
Class Base64 := {
  b64_encode : bytes → str;
  b64_decode : str → option bytes;
  b64_roundtrip bs : b64_decode (b64_encode bs) = Some bs;
  b64_alphabet bs : Forall (λ c, is_base64_char c = true) (b64_encode bs);
  b64_groups bs : len (b64_encode bs) mod 4 = 0;
  b64_nonempty bs : bs ≠ [] → b64_encode bs ≠ [] }.

(** ** The implementation *)

Definition PAD : char := 61.
Definition ALPHABET : str :=
  chars "ABCDEFGHIJKLMNOPQRSTUVWXYZabcdefghijklmnopqrstuvwxyz0123456789+/".
Definition digit (n : Z) : char := nth (Z.to_nat n) ALPHABET 0.
Definition undigit (c : char) : option Z := fst ∘ (prod_map Z.of_nat id) <$> list_find (λ d, d = c) ALPHABET.

Fixpoint encode64 (bs : bytes) : str :=
  match bs with
  | a :: b :: c :: bs' =>
      digit (u8 a / 4) :: digit (u8 a mod 4 * 16 + u8 b / 16) ::
      digit (u8 b mod 16 * 4 + u8 c / 64) :: digit (u8 c mod 64) :: encode64 bs'
  | [a; b] => [digit (u8 a / 4); digit (u8 a mod 4 * 16 + u8 b / 16); digit (u8 b mod 16 * 4); PAD]
  | [a] => [digit (u8 a / 4); digit (u8 a mod 4 * 16); PAD; PAD]
  | [] => []
  end.

Fixpoint decode64 (s : str) : option bytes :=
  match s with
  | [] => Some []
  | c1 :: c2 :: c3 :: c4 :: s' =>
      x1 ← undigit c1; x2 ← undigit c2;
      let b1 := byte_of (x1 * 4 + x2 / 16) in
      if (c4 =? PAD) && bool_decide (s' = []) then
        if c3 =? PAD then if x2 mod 16 =? 0 then Some [b1] else None
        else
          x3 ← undigit c3;
          if x3 mod 4 =? 0 then Some [b1; byte_of (x2 mod 16 * 16 + x3 / 4)] else None
      else
        x3 ← undigit c3; x4 ← undigit c4;
        r ← decode64 s';
        Some (b1 :: byte_of (x2 mod 16 * 16 + x3 / 4) :: byte_of (x3 mod 4 * 64 + x4) :: r)
  | _ => None
  end.

Lemma digit_props n : 0 <= n < 64 →
  undigit (digit n) = Some n ∧ is_base64_char (digit n) = true ∧ (digit n =? PAD) = false.
Proof.
  intros Hn. pose proof (forall_range (λ n, bool_decide (undigit (digit n) = Some n ∧
    is_base64_char (digit n) = true ∧ (digit n =? PAD) = false)) 0 64 eq_refl n Hn) as H.
  by apply bool_decide_eq_true in H.
Qed.

(** Every list of bytes is groups of three and a rest. *)
Lemma bytes_ind3 (P : bytes → Prop) :
  P [] → (∀ a, P [a]) → (∀ a b, P [a; b]) → (∀ a b c l, P l → P (a :: b :: c :: l)) → ∀ l, P l.
Proof.
  intros H0 H1 H2 H3. fix IH 1. intros [|a [|b [|c l]]]; [apply H0|apply H1|apply H2|].
  apply H3. apply IH.
Qed.

Lemma byte_of_eq z b : z = u8 b → byte_of z = b.
Proof. intros ->. apply byte_of_u8. Qed.

Ltac undigits := repeat match goal with
  | |- context [undigit (digit ?n)] => rewrite (proj1 (digit_props n ltac:(lia))) end.
Ltac same_bytes := repeat first [done | apply byte_of_eq; lia | f_equal].

Lemma decode_encode64 bs : decode64 (encode64 bs) = Some bs.
Proof.
  induction bs as [|a|a b|a b c bs IH] using bytes_ind3; [done| | |].
  all: pose proof (u8_range a); try pose proof (u8_range b); try pose proof (u8_range c).
  all: cbn -[digit undigit byte_of PAD Z.mul Z.div Z.modulo Z.eqb bool_decide].
  - undigits. cbn -[byte_of Z.mul Z.div Z.modulo].
    ztest. same_bytes.
  - undigits. cbn -[digit byte_of Z.mul Z.div Z.modulo Z.eqb].
    rewrite (proj2 (proj2 (digit_props (u8 b mod 16 * 4) ltac:(lia)))). ztest.
    cbn [andb]. ztest. same_bytes.
  - rewrite (proj2 (proj2 (digit_props (u8 c mod 64) ltac:(lia)))), andb_false_l.
    undigits.
    cbn -[byte_of Z.mul Z.div Z.modulo]. rewrite IH. cbn -[byte_of Z.mul Z.div Z.modulo].
    same_bytes.
Qed.

Lemma encode64_alphabet bs : Forall (λ c, is_base64_char c = true) (encode64 bs).
Proof.
  induction bs as [|a|a b|a b c bs IH] using bytes_ind3; [constructor| | |].
  all: pose proof (u8_range a); try pose proof (u8_range b); try pose proof (u8_range c).
  all: cbn -[digit is_base64_char Z.mul Z.div Z.modulo]; repeat apply Forall_cons_2; try done.
  all: match goal with |- is_base64_char (digit ?n) = true => apply (digit_props n); lia end.
Qed.

Lemma encode64_groups bs : len (encode64 bs) mod 4 = 0.
Proof.
  induction bs as [|a|a b|a b c bs IH] using bytes_ind3; [done..|].
  cbn [encode64]. rewrite !len_cons. lia.
Qed.

Definition StdBase64 : Base64.
Proof.
  refine {| b64_encode := encode64; b64_decode := decode64; b64_roundtrip := decode_encode64;
            b64_alphabet := encode64_alphabet; b64_groups := encode64_groups |}.
  by intros [|a [|b [|c l]]].
Defined.

Example base64_of_text : encode64 (lit "psign") = chars "cHNpZ24=".
Proof. reflexivity. Qed.

Lemma base64_plain c : is_base64_char c = true → plain c = true.
Proof.
  intros Hc. assert (0 <= c < 128) as Hr.
  { unfold is_base64_char, is_ascii_alphanumeric, is_ascii_upper, is_ascii_lower, is_ascii_digit, between in Hc.
    rewrite !orb_true_iff, !andb_true_iff, !Z.leb_le, !Z.eqb_eq in Hc. lia. }
  pose proof (forall_range (λ c, implb (is_base64_char c) (plain c)) 0 128 eq_refl c Hr) as Hi.
  cbn beta in Hi. by rewrite Hc in Hi.
Qed.
