(* ===== verification/AppxTail.v ===== *)
(** The end records and the central directory of an APPX or MSIX package:
    [ClassicEocd] to [validate_central_directory_records] and
    [normalize_zip_for_appx_signing] of
    [crates/psign-sip-digest/src/msix_digest.rs]. *)

From S2P Require Import Prelude.

Definition ZIP64_EXTRA_ID : Z := 0x0001.
Definition LH_SIG : Z := 0x04034b50.
Definition CD_SIG : Z := 0x02014b50.
Definition EOCD_SIG : Z := 0x06054b50.
Definition ZIP64_EOCD_SIG : Z := 0x06064b50.
Definition ZIP64_LOC_SIG : Z := 0x07064b50.
Definition ZIP64_EOCD_RECORD_SIZE : Z := 44.
Definition ZIP64_VERSION : Z := 45.
Definition U16_MAX : Z := U16 - 1.
Definition U32_MAX : Z := U32 - 1.

Record ClassicEocd := mk_classic {
  disk_number : Z; disk_with_central_directory : Z;
  number_of_files_on_this_disk : Z; number_of_files : Z;
  central_directory_size : Z; central_directory_offset : Z; zip_file_comment : bytes }.
Record Zip64Locator := mk_locator {
  loc_disk_with_central_directory : Z; end_of_central_directory_offset : Z; number_of_disks : Z }.
Record Zip64Eocd := mk_zip64 {
  record_size : Z; version_made_by : Z; version_needed_to_extract : Z;
  z_disk_number : Z; z_disk_with_central_directory : Z;
  z_number_of_files_on_this_disk : Z; z_number_of_files : Z;
  z_central_directory_size : Z; z_central_directory_offset : Z; tail_after_fixed : bytes }.
Record ZipTail := mk_tail {
  classic : ClassicEocd; zip64_eocd : option Zip64Eocd; locator : option Zip64Locator;
  zip64_eocd_offset : option Z; eocd_offset : Z;
  t_central_directory_offset : Z; t_central_directory_size : Z }.

(** [buf.get(off..off + n)], at two, four and eight bytes *)
Definition read_le (n : Z) (buf : bytes) (off : Z) : outcome Z :=
  ok_or (from_le <$> get_range buf off (off + n)) "read past end at {off}".
Definition read_u16_le : bytes → Z → outcome Z := read_le 2.
Definition read_u32_le : bytes → Z → outcome Z := read_le 4.
Definition read_u64_le : bytes → Z → outcome Z := read_le 8.

(** The loop over the positions, from the last one down. *)
Fixpoint scan_classic (buf : bytes) (positions : list Z) : outcome (Z * ClassicEocd) :=
  match positions with
  | [] => Err "could not find ZIP end-of-central-directory"
  | p :: positions' =>
      sig ← read_u32_le buf p;
      if sig =? EOCD_SIG then
        disk ← read_u16_le buf (p + 4);
        disk_cd ← read_u16_le buf (p + 6);
        files_here ← read_u16_le buf (p + 8);
        files ← read_u16_le buf (p + 10);
        cd_size ← read_u32_le buf (p + 12);
        cd_offset ← read_u32_le buf (p + 16);
        comment_length ← read_u16_le buf (p + 20);
        let cstart := p + 22 in
        cend ← ok_or (checked_add64 cstart comment_length) "EOCD comment overflow";
        if negb (cend =? len buf) then scan_classic buf positions' else
        comment ← ok_or (get_range buf cstart cend) "EOCD comment out of range";
        Ok (p, mk_classic disk disk_cd files_here files cd_size cd_offset comment)
      else scan_classic buf positions'
  end.
Definition find_classic_eocd (buf : bytes) : outcome (Z * ClassicEocd) :=
  bail_if (len buf <? 22) "buffer too small for EOCD";;
  let search_upper_bound := saturating_sub (len buf) (22 + U16_MAX) in
  scan_classic buf (rev (seqZ search_upper_bound (len buf - 22 - search_upper_bound + 1))).

Definition parse_zip64_locator (buf : bytes) (off : Z) : outcome Zip64Locator :=
  sig ← read_u32_le buf off;
  bail_if (negb (sig =? ZIP64_LOC_SIG)) "invalid ZIP64 locator signature";;
  disk ← read_u32_le buf (off + 4);
  end_ ← read_u64_le buf (off + 8);
  disks ← read_u32_le buf (off + 16);
  let locator := mk_locator disk end_ disks in
  bail_if (negb (loc_disk_with_central_directory locator =? 0) || negb (number_of_disks locator =? 1))
    "multi-disk ZIP64 archives are not valid APPX/MSIX packages";;
  Ok locator.

(** The loop over the positions from the nominal one up. *)
Fixpoint scan_zip64 (buf : bytes) (nominal_offset : Z) (positions : list Z)
    : outcome (Z * Zip64Eocd * Z) :=
  match positions with
  | [] => Err "could not find ZIP64 end-of-central-directory"
  | pos :: positions' =>
      sig ← read_u32_le buf pos;
      if sig =? ZIP64_EOCD_SIG then
        let archive_offset := saturating_sub pos nominal_offset in
        record_size ← read_u64_le buf (pos + 4);
        bail_if (record_size <? 44) "ZIP64 end-of-central-directory record is too small";;
        made_by ← read_u16_le buf (pos + 12);
        needed ← read_u16_le buf (pos + 14);
        disk ← read_u32_le buf (pos + 16);
        disk_cd ← read_u32_le buf (pos + 20);
        bail_if (negb (disk =? 0) || negb (disk_cd =? 0))
          "multi-disk ZIP64 archives are not valid APPX/MSIX packages";;
        files_here ← read_u64_le buf (pos + 24);
        files ← read_u64_le buf (pos + 32);
        cd_size ← read_u64_le buf (pos + 40);
        cd_offset ← read_u64_le buf (pos + 48);
        let tail_len := record_size - 44 in
        let tail_start := pos + 12 + 44 in
        tail_end ← ok_or (checked_add64 tail_start tail_len) "zip64 tail overflow";
        tail ← ok_or (get_range buf tail_start tail_end) "zip64 tail out of range";
        Ok (pos, mk_zip64 record_size made_by needed disk disk_cd files_here files cd_size cd_offset tail,
            archive_offset)
      else scan_zip64 buf nominal_offset positions'
  end.
Definition find_zip64_eocd (buf : bytes) (nominal_offset search_upper_bound : Z)
    : outcome (Z * Zip64Eocd * Z) :=
  scan_zip64 buf nominal_offset (seqZ nominal_offset (search_upper_bound - nominal_offset + 1)).

(** [if let Some(off) = locator_seek && off + 20 <= buf.len() && read_u32_le(buf, off)? == ..] *)
Definition has_locator (buf : bytes) (locator_seek : option Z) : outcome (option Z) :=
  match locator_seek with
  | Some off =>
      if off + 20 <=? len buf then
        sig ← read_u32_le buf off;
        Ok (if sig =? ZIP64_LOC_SIG then Some off else None)
      else Ok None
  | None => Ok None
  end.
(** [locator], [zip64_eocd], [zip64_eocd_offset] and the directory's extent *)
Definition zip64_part (buf : bytes) (cde_pos : Z) (c : ClassicEocd)
    : outcome (option Zip64Locator * option Zip64Eocd * option Z * Z * Z) :=
  let comment_len := len (zip_file_comment c) in
  let locator_seek :=
    if 20 + 22 + comment_len <=? len buf then Some (len buf - (20 + 22 + comment_len)) else None in
  found ← has_locator buf locator_seek;
  match found with
  | Some off =>
      loc ← parse_zip64_locator buf off;
      '(zpos, z64, _) ← find_zip64_eocd buf (end_of_central_directory_offset loc)
                          (saturating_sub cde_pos 60);
      bail_if (negb (z_number_of_files_on_this_disk z64 =? z_number_of_files z64))
        "multi-disk ZIP64 entry counts are not valid APPX/MSIX packages";;
      Ok (Some loc, Some z64, Some zpos,
          if central_directory_offset c =? U32_MAX then z_central_directory_offset z64
          else central_directory_offset c,
          if central_directory_size c =? U32_MAX then z_central_directory_size z64
          else central_directory_size c)
  | None =>
      bail_if ((number_of_files_on_this_disk c =? U16_MAX) || (number_of_files c =? U16_MAX)
        || (central_directory_size c =? U32_MAX) || (central_directory_offset c =? U32_MAX))
        "classic EOCD uses ZIP64 sentinel values but ZIP64 locator is missing";;
      bail_if (cde_pos - central_directory_size c - central_directory_offset c <? 0)
        "invalid EOCD central directory size/offset";;
      Ok (None, None, None, central_directory_offset c, central_directory_size c)
  end.
Definition parse_zip_tail (buf : bytes) : outcome ZipTail :=
  '(cde_pos, c) ← find_classic_eocd buf;
  let classic_disk_fields_are_sentinels :=
    (disk_number c =? U16_MAX) && (disk_with_central_directory c =? U16_MAX) in
  bail_if (negb classic_disk_fields_are_sentinels
           && (negb (disk_number c =? 0) || negb (disk_with_central_directory c =? 0)))
    "multi-disk ZIP archives are not valid APPX/MSIX packages";;
  '(loc, z64, zpos, cd_offset, cd_size) ← zip64_part buf cde_pos c;
  cd_end ← ok_or (checked_add64 cd_offset cd_size) "central directory extent overflow";
  let expected_cd_end := default cde_pos zpos in
  bail_if (negb (cd_end =? expected_cd_end))
    "central directory extent does not end at EOCD/ZIP64 EOCD (offset={central_directory_offset}, size={central_directory_size}, expected_end={expected_cd_end})";;
  Ok (mk_tail c z64 loc zpos cde_pos cd_offset cd_size).

(** ** Checking the central directory *)

Definition encrypted_flags (flags : Z) : bool := negb (Z.land flags 0x2041 =? 0).
Definition cd_record_step (buf : bytes) (cd_end count : Z) (s : Z * Z) : Z * Z + outcome unit :=
  let '(cursor, seen) := s in
  if cursor <? cd_end then
    let r :=
      sig ← read_u32_le buf cursor;
      bail_if (negb (sig =? CD_SIG)) "bad central directory signature";;
      flags ← read_u16_le buf (cursor + 8);
      bail_if (encrypted_flags flags)
        "encrypted ZIP central directory records are not valid cleartext APPX/MSIX packages";;
      compression ← read_u16_le buf (cursor + 10);
      bail_if (negb ((compression =? 0) || (compression =? 8)))
        "unsupported ZIP compression method {compression} in APPX/MSIX central directory";;
      name_length ← read_u16_le buf (cursor + 28);
      extra_length ← read_u16_le buf (cursor + 30);
      comment_length ← read_u16_le buf (cursor + 32);
      disk_start ← read_u16_le buf (cursor + 34);
      bail_if (negb (disk_start =? 0)) "central directory entry starts on a non-zero disk";;
      bail_if (negb (comment_length =? 0))
        "central directory file comments are not valid in APPX/MSIX packages";;
      cursor ← ok_or (checked_add64 cursor (46 + name_length + extra_length + comment_length))
        "central directory record overflow";
      bail_if (cd_end <? cursor) "central directory record extends past directory";;
      Ok cursor in
    match r with
    | Ok cursor => inl (cursor, seen + 1)
    | Err e => inr (Err e)
    | Panic => inr Panic
    end
  else inr (bail_if (negb (seen =? count))
    "central directory entry count {seen} does not match EOCD count {count}").
Definition validate_central_directory_records (buf : bytes) (tail : ZipTail) : outcome unit :=
  let count :=
    match zip64_eocd tail with
    | Some z64 => z_number_of_files z64
    | None => number_of_files (classic tail)
    end in
  bail_if (0xA00000 <? count) "APPX/MSIX ZIP has too many central directory entries";;
  cd_end ← ok_or (checked_add64 (t_central_directory_offset tail) (t_central_directory_size tail))
    "central directory extent overflow";
  default Panic
    (loop (cd_record_step buf cd_end count) (S (length buf)) (t_central_directory_offset tail, 0)).

(** ** Normalising for signing *)

Record NormalizeState := mk_norm { n_out : bytes; n_entries : Z; n_p : Z }.
(** One round: the two fields of the record at [p] are rewritten. *)
Definition normalize_step (cd_end : Z) (s : NormalizeState) : NormalizeState + outcome NormalizeState :=
  if n_p s <? cd_end then
    let out := n_out s in let p := n_p s in
    let r :=
      sig ← read_u32_le out p;
      bail_if (negb (sig =? CD_SIG) || (len out <? p + 46)) "bad central directory entry";;
      name_len ← read_u16_le out (p + 28);
      extra_len ← read_u16_le out (p + 30);
      comment_len ← read_u16_le out (p + 32);
      out ← write_at out (p + 4) (to_le 2 ZIP64_VERSION);
      out ← write_at out (p + 38) (to_le 4 0);
      p ← ok_or (checked_add64 p (46 + name_len + extra_len + comment_len))
        "central directory entry overflow";
      Ok (mk_norm out (n_entries s + 1) p) in
    match r with Ok s' => inl s' | Err e => inr (Err e) | Panic => inr Panic end
  else inr (Ok s).
(** The records appended where the classic one was. *)
Definition zip64_end_records (entries cd_size cd_offset zip64_eocd_offset : Z) : bytes :=
  to_le 4 ZIP64_EOCD_SIG ++ to_le 8 ZIP64_EOCD_RECORD_SIZE
  ++ to_le 2 ZIP64_VERSION ++ to_le 2 ZIP64_VERSION ++ to_le 4 0 ++ to_le 4 0
  ++ to_le 8 entries ++ to_le 8 entries ++ to_le 8 cd_size ++ to_le 8 cd_offset
  ++ to_le 4 ZIP64_LOC_SIG ++ to_le 4 0 ++ to_le 8 zip64_eocd_offset ++ to_le 4 1
  ++ to_le 4 EOCD_SIG ++ to_le 2 U16_MAX ++ to_le 2 U16_MAX ++ to_le 2 U16_MAX ++ to_le 2 U16_MAX
  ++ to_le 4 U32_MAX ++ to_le 4 U32_MAX.
Definition normalize_zip_for_appx_signing (zip : bytes) : outcome bytes :=
  tail ← parse_zip_tail zip;
  let cd_offset := t_central_directory_offset tail in
  let cd_size := t_central_directory_size tail in
  cd_end ← ok_or (checked_add64 cd_offset cd_size) "central directory extent overflow";
  s ← default Panic (loop (normalize_step cd_end) (S (length zip)) (mk_norm zip 0 cd_offset));
  bail_if (negb (n_p s =? cd_end)) "central directory entries overrun the declared size";;
  match zip64_eocd tail with
  | Some _ => Ok (n_out s)
  | None =>
      let comment := zip_file_comment (classic tail) in
      let out := take (Z.to_nat (eocd_offset tail)) (n_out s)
                 ++ zip64_end_records (n_entries s) cd_size cd_offset (eocd_offset tail) in
      comment_len ← ok_or (try_u16 (len comment)) "ZIP comment is too long";
      Ok (out ++ to_le 2 comment_len ++ comment)
  end.

(** ** Fields *)

(** The little-endian field of [n] bytes at [off]. *)
Definition fld (n : Z) (buf : bytes) (off : Z) : Z := from_le (sub buf off (off + n)).
Lemma read_le_in n buf off : 0 <= off → 0 <= n → off + n <= len buf →
  read_le n buf off = Ok (fld n buf off).
Proof. intros. unfold read_le. by rewrite get_range_in by lia. Qed.
Lemma read_le_Ok n buf off v : 0 <= n → read_le n buf off = Ok v ↔
  0 <= off ∧ off + n <= len buf ∧ v = fld n buf off.
Proof.
  intros Hn. unfold read_le. rewrite ok_or_Ok. destruct (get_range _ _ _) eqn:E; cbn.
  - apply get_range_Some in E as (? & ? & ? & ->). split; [by intros [= <-]|by intros (_ & _ & ->)].
  - apply get_range_None in E. split; [done|]. intros (? & ? & _). destruct E. lia.
Qed.
Lemma read_le_not_panic n buf off : read_le n buf off ≠ Panic.
Proof. unfold read_le. apply ok_or_not_panic. Qed.
Lemma fld_range n buf off : 0 <= off → 0 <= n → off + n <= len buf → 0 <= fld n buf off < 2 ^ (8 * n).
Proof.
  intros. unfold fld. pose proof (from_le_range (sub buf off (off + n))) as Hr.
  rewrite len_sub in Hr by lia. by replace (off + n - off) with n in Hr by lia.
Qed.
Lemma fld_app_r n a b off : len a <= off → fld n (a ++ b) off = fld n b (off - len a).
Proof. intros. unfold fld. rewrite sub_app_r by done. do 2 f_equal; lia. Qed.
Lemma fld_app_l n a b off : 0 <= off → off + n <= len a → fld n (a ++ b) off = fld n a off.
Proof. intros. unfold fld. by rewrite sub_app_l. Qed.

(** A record as a list of fields. *)
Definition encode_fields (fs : list (nat * Z)) : bytes := fs ≫= λ f, to_le (fst f) (snd f).
Fixpoint fields_size (fs : list (nat * Z)) : Z :=
  match fs with [] => 0 | f :: fs' => Z.of_nat (fst f) + fields_size fs' end.
Lemma len_encode_fields fs : len (encode_fields fs) = fields_size fs.
Proof.
  induction fs as [|f fs IH]; [done|].
  change (encode_fields (f :: fs)) with (to_le (fst f) (snd f) ++ encode_fields fs).
  by rewrite len_app, len_to_le, IH.
Qed.
Lemma fields_size_nonneg fs : 0 <= fields_size fs.
Proof. induction fs as [|f fs IH]; cbn [fields_size]; lia. Qed.
Lemma fld_encoded fs (i : nat) n v rest off :
  fs !! i = Some (n, v) → off = fields_size (take i fs) →
  fld (Z.of_nat n) (encode_fields fs ++ rest) off = v mod 2 ^ (Z.of_nat n * 8).
Proof.
  revert i off. induction fs as [|[m w] fs IH]; intros i off; [done|].
  change (encode_fields ((m, w) :: fs)) with (to_le m w ++ encode_fields fs). rewrite <-app_assoc.
  destruct i as [|i]; cbn [lookup list_lookup take fields_size fst].
  - intros [= -> ->] ->. rewrite fld_app_l by (rewrite ?len_to_le; lia). unfold fld.
    rewrite sub_full_ge by (rewrite len_to_le; lia). apply from_to_le.
  - intros Hi ->. pose proof (fields_size_nonneg (take i fs)).
    rewrite fld_app_r by (rewrite len_to_le; lia). rewrite len_to_le. apply (IH i); [done|lia].
Qed.

(** ** The classic end record *)

Lemma find_rev_seqZ (P : Z → bool) f n p :
  List.find P (rev (seqZ f n)) = Some p ↔
  f <= p < f + n ∧ P p = true ∧ ∀ q, p < q < f + n → P q = false.
Proof.
  destruct (Z.le_gt_cases 0 n) as [Hn|Hn].
  2:{ replace (seqZ f n) with (@nil Z) by (unfold seqZ; by replace (Z.to_nat n) with 0%nat by lia).
      split; [done|lia]. }
  revert n Hn. apply natlike_ind; [split; [done|lia]|].
  intros n Hn IH. replace (Z.succ n) with (n + 1) by lia. rewrite seqZ_app by lia.
  assert (seqZ (f + n) 1 = [f + n]) as -> by (unfold seqZ; cbn; f_equal; lia). rewrite rev_app_distr. cbn [rev app List.find].
  destruct (P (f + n)) eqn:E.
  - split; [intros [= <-]; split; [lia|split; [done|lia]]|].
    intros (Hp & HP & Hq). destruct (decide (p = f + n)) as [->|]; [done|].
    rewrite Hq in E by lia. done.
  - rewrite IH. split; intros (Hp & HP & Hq).
    + split; [lia|]. split; [done|]. intros q Hq'. destruct (decide (q = f + n)) as [->|]; [done|].
      apply Hq. lia.
    + destruct (decide (p = f + n)) as [->|]; [by rewrite E in HP|]. split; [lia|].
      split; [done|]. intros q Hq'. apply Hq. lia.
Qed.

Definition classic_at (buf : bytes) (p : Z) : bool :=
  (fld 4 buf p =? EOCD_SIG) && (p + 22 + fld 2 buf (p + 20) =? len buf).
Definition classic_of (buf : bytes) (p : Z) : ClassicEocd :=
  mk_classic (fld 2 buf (p + 4)) (fld 2 buf (p + 6)) (fld 2 buf (p + 8)) (fld 2 buf (p + 10))
    (fld 4 buf (p + 12)) (fld 4 buf (p + 16)) (sub buf (p + 22) (len buf)).
Lemma scan_classic_find buf ps :
  len buf < 2 ^ 63 → Forall (λ p, 0 <= p ∧ p + 22 <= len buf) ps →
  scan_classic buf ps =
  match List.find (classic_at buf) ps with
  | Some p => Ok (p, classic_of buf p)
  | None => Err "could not find ZIP end-of-central-directory"
  end.
Proof.
  intros Hb. induction 1 as [|p ps [Hp Hl] _ IH]; [done|]. cbn [scan_classic List.find].
  unfold read_u32_le, read_u16_le. rewrite !read_le_in by lia. cbn [mbind outcome_bind].
  unfold classic_at at 1. destruct (_ =? EOCD_SIG); [|done]. cbn [andb].
  pose proof (fld_range 2 buf (p + 20)). change (2 ^ (8 * 2)) with U16 in *.
  unfold checked_add64. rewrite (proj2 (Z.ltb_lt _ _)) by lia. cbn [ok_or mbind outcome_bind].
  destruct (_ =? len buf) eqn:E; cbn [negb]; [|done]. zbool.
  rewrite get_range_in by lia. cbn [ok_or mbind outcome_bind]. unfold classic_of. by rewrite E.
Qed.
Lemma find_classic_eocd_Ok buf p c : len buf < 2 ^ 63 →
  find_classic_eocd buf = Ok (p, c) ↔
  0 <= p ∧ p + 22 <= len buf ∧ classic_at buf p = true ∧ c = classic_of buf p ∧
  ∀ q, p < q → q + 22 <= len buf → classic_at buf q = false.
Proof.
  intros Hb. unfold find_classic_eocd, U16_MAX. destruct (len buf <? 22) eqn:E; cbn [bail_if mbind outcome_bind]; zbool.
  { split; [done|lia]. }
  set (f := saturating_sub _ _). assert (f = Z.max 0 (len buf - (22 + (U16 - 1)))) as Hf by done.
  rewrite scan_classic_find; [|done|].
  2:{ apply Forall_forall. intros q Hq. apply list_elem_of_In, in_rev, list_elem_of_In, elem_of_seqZ in Hq. lia. }
  assert (∀ q, 0 <= q → q + 22 <= len buf → classic_at buf q = true → f <= q) as Hlow.
  { intros q Hq Hl Hat. unfold classic_at in Hat. zbool.
    pose proof (fld_range 2 buf (q + 20)). change (2 ^ (8 * 2)) with U16 in *. lia. }
  destruct (List.find _ _) as [q|] eqn:Ef.
  - apply find_rev_seqZ in Ef as (Hq & Hat & Hno). split.
    + intros [= <- <-]. split; [lia|]. split; [lia|]. split; [done|]. split; [done|]. intros. apply Hno. lia.
    + intros (Hp & Hpl & Hat' & -> & Hno'). destruct (Z.lt_trichotomy p q) as [?|[->|?]]; [|done|].
      * rewrite Hno' in Hat by lia. done.
      * rewrite Hno in Hat' by lia. done.
  - split; [done|]. intros (Hp & Hpl & Hat & _). pose proof (Hlow p Hp Hpl Hat).
    assert (p ∈ rev (seqZ f (len buf - 22 - f + 1))) as Hin.
    { apply list_elem_of_In. rewrite <-in_rev. apply list_elem_of_In, elem_of_seqZ. lia. }
    apply list_elem_of_In in Hin. pose proof (List.find_none _ _ Ef _ Hin) as Hn. by rewrite Hat in Hn.
Qed.

(** ** The directory as a list of records *)

(** A record of the directory: the header and the three fields it announces. *)
Definition cd_record (r : bytes) : Prop :=
  46 <= len r ∧ fld 4 r 0 = CD_SIG ∧ len r = 46 + fld 2 r 28 + fld 2 r 30 + fld 2 r 32.
(** The record as AppxPackaging writes it: version made by 4.5, no external
    attributes. *)
Definition appx_record (r : bytes) : bytes :=
  patch (patch r 4 (to_le 2 ZIP64_VERSION)) 38 (to_le 4 0).

Lemma len_appx_record r : cd_record r → len (appx_record r) = len r.
Proof. intros (? & _). unfold appx_record. len_side. Qed.
Lemma fld_appx_record n r off : cd_record r → 0 <= off → 0 <= n → off + n <= len r →
  off + n <= 4 ∨ 6 <= off ∧ off + n <= 38 ∨ 42 <= off →
  fld n (appx_record r) off = fld n r off.
Proof.
  intros (? & _) ??? Hoff. unfold appx_record, fld. f_equal.
  assert (off + n <= 38 → sub (patch (patch r 4 (to_le 2 ZIP64_VERSION)) 38 (to_le 4 0)) off (off + n) =
    sub (patch r 4 (to_le 2 ZIP64_VERSION)) off (off + n)) as Hb4
    by (intros; apply sub_patch_before; len_side).
  destruct Hoff as [?|[[? ?]|?]].
  - rewrite Hb4, sub_patch_before by len_side. done.
  - rewrite Hb4, sub_patch_after by len_side. done.
  - rewrite !sub_patch_after by len_side. done.
Qed.
Lemma appx_record_wf r : cd_record r → cd_record (appx_record r).
Proof.
  intros Hr. pose proof Hr as (? & ? & ?). unfold cd_record. rewrite len_appx_record by done.
  rewrite !fld_appx_record by (done || lia). done.
Qed.
Lemma appx_record_idem r : cd_record r → appx_record (appx_record r) = appx_record r.
Proof. intros (? & _). unfold appx_record. patch_ext. Qed.

Lemma len_concat_appx recs : Forall cd_record recs → len (concat (appx_record <$> recs)) = len (concat recs).
Proof.
  induction 1 as [|r recs Hr _ IH]; [done|]. cbn. by rewrite !len_app, IH, len_appx_record.
Qed.
Lemma normalize_one pre r post n cd_end :
  cd_record r → len pre < cd_end → len pre + len r < U64 →
  normalize_step cd_end (mk_norm (pre ++ r ++ post) n (len pre)) =
  inl (mk_norm ((pre ++ appx_record r) ++ post) (n + 1) (len (pre ++ appx_record r))).
Proof.
  intros Hr Hlt Hb. pose proof Hr as (Hl & Hsig & Hlen). pose proof (len_nonneg pre). pose proof (len_nonneg post).
  assert (∀ m k, 0 <= k → 0 <= m → k + m <= 46 → read_le m (pre ++ r ++ post) (len pre + k) = Ok (fld m r k)) as Hrd.
  { intros m k ???. rewrite read_le_in by (rewrite ?len_app; lia). rewrite fld_app_r by lia.
    rewrite fld_app_l by lia. do 2 f_equal. lia. }
  unfold normalize_step. cbn [n_out n_p n_entries]. rewrite (proj2 (Z.ltb_lt _ _)) by done. cbv zeta.
  unfold read_u32_le, read_u16_le.
  pose proof (Hrd 4 0) as Hr0. rewrite Z.add_0_r in Hr0. rewrite Hr0, !Hrd, Hsig by lia.
  cbn [mbind outcome_bind]. rewrite Z.eqb_refl, !len_app, (proj2 (Z.ltb_ge _ _)) by lia.
  cbn [negb orb bail_if mbind outcome_bind]. rewrite write_at_in by (rewrite ?len_app, ?len_to_le; lia).
  cbn [mbind outcome_bind]. rewrite write_at_in by (rewrite ?len_patch, ?len_app, ?len_to_le; rewrite ?len_app, ?len_to_le; lia).
  cbn [mbind outcome_bind]. unfold checked_add64.
  replace (len pre + (46 + fld 2 r 28 + fld 2 r 30 + fld 2 r 32)) with (len pre + len r) by lia.
  rewrite (proj2 (Z.ltb_lt _ _)) by lia. cbn [ok_or mbind outcome_bind].
  rewrite len_appx_record by done. do 2 f_equal.
  assert (∀ x o src, len x = len r → 0 <= o → o + len src <= len r →
    patch (pre ++ x ++ post) (len pre + o) src = pre ++ patch x o src ++ post) as Hp.
  { intros x o src Hx ??. pose proof (len_nonneg src). rewrite patch_app_r by (rewrite ?len_app; lia).
    rewrite patch_app_l by lia. do 2 f_equal. f_equal. lia. }
  rewrite !Hp by len_side. by rewrite <-app_assoc.
Qed.
Lemma normalize_records pre recs post n fuel :
  Forall cd_record recs → len pre + len (concat recs) < U64 → (length recs < fuel)%nat →
  loop (normalize_step (len pre + len (concat recs))) fuel (mk_norm (pre ++ concat recs ++ post) n (len pre)) =
  Some (Ok (mk_norm (pre ++ concat (appx_record <$> recs) ++ post) (n + len recs)
              (len pre + len (concat recs)))).
Proof.
  intros Hrecs. revert pre n fuel. induction Hrecs as [|r recs Hr Hrecs IH]; intros pre n fuel Hb Hf.
  - destruct fuel as [|fuel]; [cbn in Hf; lia|]. cbn [loop]. unfold normalize_step. cbn [n_p n_out n_entries].
    change (concat []) with (@nil byte). rewrite len_nil, Z.add_0_r, Z.ltb_irrefl. do 3 f_equal. change (len (@nil bytes)) with 0. lia.
  - destruct fuel as [|fuel]; [cbn in Hf; lia|]. cbn [loop concat]. change (concat (r :: recs)) with (r ++ concat recs) in *.
    rewrite len_app in *. pose proof (len_nonneg (concat recs)). pose proof Hr as (? & _).
    rewrite <-app_assoc, normalize_one by (done || lia).
    specialize (IH (pre ++ appx_record r) (n + 1) fuel). rewrite len_app, len_appx_record in IH by done.
    replace (len pre + (len r + len (concat recs))) with (len pre + len r + len (concat recs)) by lia.
    rewrite len_app, len_appx_record by done. rewrite IH by (cbn in Hf; lia).
    do 3 f_equal; [|rewrite len_cons; lia]. cbn. by rewrite <-!app_assoc.
Qed.

Lemma normalize_step_inl cd_end s s' : normalize_step cd_end s = inl s' →
  0 <= n_p s → n_p s < n_p s' ∧ n_p s < cd_end ∧ n_p s + 46 <= len (n_out s) ∧ fld 4 (n_out s) (n_p s) = CD_SIG ∧
  n_p s' = n_p s + (46 + fld 2 (n_out s) (n_p s + 28) + fld 2 (n_out s) (n_p s + 30) + fld 2 (n_out s) (n_p s + 32))
  ∧ n_p s' < U64.
Proof.
  unfold normalize_step. destruct (_ <? cd_end) eqn:E; [|done]. zbool. cbv zeta. intros Hr Hp.
  match type of Hr with match ?m with _ => _ end = _ => destruct m as [s1| |] eqn:Em; [|done..] end.
  injection Hr as ->. unfold read_u32_le, read_u16_le in Em. inv_ok Em.
  repeat match goal with H : read_le _ _ _ = Ok _ |- _ => apply read_le_Ok in H as (? & ? & ->); [|lia] end.
  zbool. match goal with H : checked_add64 _ _ = Some _ |- _ => unfold checked_add64 in H; destruct (_ <? _) eqn:E9 in H; [|done]; injection H as <- end.
  zbool. cbn [n_p].
  assert (∀ o, 0 <= o → o + 2 <= len (n_out s) → 0 <= fld 2 (n_out s) o) as Hf by (intros; apply fld_range; lia).
  pose proof (Hf (n_p s + 28)). pose proof (Hf (n_p s + 30)). pose proof (Hf (n_p s + 32)).
  repeat split; try lia.
Qed.
Lemma normalize_p_mono cd_end fuel s s' : 0 <= n_p s →
  loop (normalize_step cd_end) fuel s = Some (Ok s') → n_p s <= n_p s'.
Proof.
  intros Hp Hl. pose (Q := λ r : outcome NormalizeState, ∀ s', r = Ok s' → n_p s <= n_p s').
  enough (Q (Ok s')) as HQ by by apply HQ.
  refine (loop_inv (normalize_step cd_end) (λ x, n_p s <= n_p x) Q _ _ _ _ _ _ Hl); [| |done].
  - intros x x' Hx He. apply normalize_step_inl in He; lia.
  - intros x r Hx. unfold normalize_step. destruct (_ <? _); [|by intros [= <-] x' [= <-]].
    cbv zeta. match goal with |- match ?m with _ => _ end = _ → _ => destruct m end; [done|by intros [= <-] ?..].
Qed.
Lemma normalize_records_inv fuel pre rest n cd_end s :
  len pre <= cd_end → cd_end <= len (pre ++ rest) →
  loop (normalize_step cd_end) fuel (mk_norm (pre ++ rest) n (len pre)) = Some (Ok s) → n_p s = cd_end →
  ∃ recs post, rest = concat recs ++ post ∧ Forall cd_record recs ∧
    cd_end = len pre + len (concat recs) ∧ (length recs < fuel)%nat.
Proof.
  revert pre rest n. induction fuel as [|fuel IH]; intros pre rest n Hlo Hhi Hl Hend; [done|].
  destruct (decide (cd_end = len pre)) as [->|Hne].
  { exists [], rest. split; [done|]. split; [constructor|]. split; [|cbn; lia].
    change (concat []) with (@nil byte). rewrite len_nil. lia. }
  pose proof (len_nonneg pre). cbn [loop] in Hl.
  destruct (normalize_step cd_end _) as [s'|r] eqn:Est.
  2:{ unfold normalize_step in Est. cbn [n_p n_out] in Est. rewrite (proj2 (Z.ltb_lt _ _)) in Est by lia.
      cbv zeta in Est. match type of Est with match ?m with _ => _ end = _ => destruct m end; [done|..];
      injection Est as <-; done. }
  pose proof Est as Hst. apply normalize_step_inl in Hst; [|done].
  pose proof (normalize_p_mono cd_end fuel s' s) as Hm. cbn [n_p n_out] in Hst.
  destruct Hst as (Hlt & _ & H46 & Hsig & Hp' & H64). specialize (Hm ltac:(lia) Hl).
  rewrite len_app in Hhi, H46.
  assert (∀ k m, 0 <= k → fld m (pre ++ rest) (len pre + k) = fld m rest k) as Hfld.
  { intros k m ?. rewrite fld_app_r by lia. f_equal. lia. }
  pose proof (Hfld 0 4) as Hf0. rewrite Z.add_0_r in Hf0. rewrite Hf0 in Hsig by lia. rewrite !Hfld in Hp' by lia.
  set (k := 46 + fld 2 rest 28 + fld 2 rest 30 + fld 2 rest 32) in *.
  assert (0 <= fld 2 rest 28 ∧ 0 <= fld 2 rest 30 ∧ 0 <= fld 2 rest 32) as (? & ? & ?)
    by (repeat split; apply fld_range; lia).
  set (r := sub rest 0 k). set (post := sub rest k (len rest)).
  assert (rest = r ++ post) as Hrest by (apply sub_head_tail; lia).
  assert (len r = k) as Hlr by (unfold r; rewrite len_sub; lia).
  assert (cd_record r) as Hr.
  { unfold cd_record. rewrite Hlr. unfold fld, r in *. rewrite !sub_sub by lia. split; [lia|]. done. }
  rewrite Hrest, normalize_one in Est by (done || lia). injection Est as <-.
  destruct (IH (pre ++ appx_record r) post (n + 1)) as (recs & post' & Hpost & Hrecs & Hce & Hfu); [..|done|done|].
  - cbn [n_p] in Hm. lia.
  - rewrite !len_app, len_appx_record by done. rewrite Hrest, len_app in Hhi. lia.
  - exists (r :: recs), post'. split; [by rewrite Hrest, Hpost, app_assoc|]. split; [by constructor|].
    change (concat (r :: recs)) with (r ++ concat recs). rewrite len_app in *.
    rewrite len_appx_record in Hce by done. cbn [length]. split; lia.
Qed.

(** ** What a parsed tail says *)

Lemma scan_zip64_Ok buf nom ps p z a : Forall (λ q, 0 <= q) ps →
  scan_zip64 buf nom ps = Ok (p, z, a) →
  0 <= p ∧ p + 56 <= len buf ∧ fld 4 buf p = ZIP64_EOCD_SIG ∧
  0 <= z_central_directory_size z ∧ 0 <= z_central_directory_offset z ∧ 0 <= z_number_of_files z.
Proof.
  induction 1 as [|q ps Hq _ IH]; [done|]. cbn [scan_zip64]. intros (sig & Hs & Hr)%bind_Ok.
  destruct (sig =? ZIP64_EOCD_SIG) eqn:E; [|by apply IH]. zbool. cbv zeta in Hr.
  unfold read_u32_le, read_u16_le, read_u64_le in *. inv_ok Hr.
  repeat match goal with H : read_le _ _ _ = Ok _ |- _ => apply read_le_Ok in H as (? & ? & ->); [|lia] end.
  cbn. split; [done|]. split; [lia|]. split; [done|]. repeat split; apply fld_range; lia.
Qed.

Lemma locator_nonneg buf off l : parse_zip64_locator buf off = Ok l → 0 <= end_of_central_directory_offset l.
Proof.
  unfold parse_zip64_locator, read_u32_le, read_u64_le. intros Hr. inv_ok Hr.
  repeat match goal with H : read_le _ _ _ = Ok _ |- _ => apply read_le_Ok in H as (? & ? & ->); [|lia] end.
  apply fld_range; lia.
Qed.
Definition tail_of (buf : bytes) (t : ZipTail) : Prop :=
  0 <= eocd_offset t ∧ eocd_offset t + 22 <= len buf ∧
  classic_at buf (eocd_offset t) = true ∧ classic t = classic_of buf (eocd_offset t) ∧
  (∀ q, eocd_offset t < q → q + 22 <= len buf → classic_at buf q = false) ∧
  0 <= t_central_directory_offset t ∧ 0 <= t_central_directory_size t ∧
  t_central_directory_offset t + t_central_directory_size t <= len buf ∧
  (zip64_eocd t = None → t_central_directory_offset t + t_central_directory_size t = eocd_offset t ∧
    locator t = None ∧ zip64_eocd_offset t = None ∧
    t_central_directory_offset t = central_directory_offset (classic t) ∧
    t_central_directory_size t = central_directory_size (classic t)).

Lemma parse_zip_tail_Ok buf t : len buf < 2 ^ 63 → parse_zip_tail buf = Ok t → tail_of buf t.
Proof.
  intros Hb. unfold parse_zip_tail. intros ([p c] & Hc & Hr)%bind_Ok.
  apply find_classic_eocd_Ok in Hc as (Hp & Hpl & Hat & -> & Hno); [|done].
  cbv zeta in Hr. apply bail_bind_Ok in Hr as [_ Hr].
  apply bind_Ok in Hr as ([[[[loc z64] zpos] cdo] cds] & Hz & Hr).
  apply bind_Ok in Hr as (cd_end & He%ok_or_Ok & Hr). apply bail_bind_Ok in Hr as [E Hr]. zbool.
  unfold checked_add64 in He. destruct (_ <? _) in He; [|done]. injection He as <-.
  injection Hr as <-. unfold tail_of. cbn [eocd_offset classic t_central_directory_offset
    t_central_directory_size zip64_eocd locator zip64_eocd_offset].
  assert (0 <= cdo ∧ 0 <= cds ∧ default p zpos <= len buf ∧
    (z64 = None → default p zpos = p ∧ loc = None ∧ zpos = None ∧
       cdo = central_directory_offset (classic_of buf p) ∧ cds = central_directory_size (classic_of buf p)))
    as (? & ? & ? & Hn).
  { assert (0 <= central_directory_offset (classic_of buf p) ∧ 0 <= central_directory_size (classic_of buf p)) as [??]
      by (split; apply fld_range; lia).
    unfold zip64_part in Hz. cbv zeta in Hz. apply bind_Ok in Hz as (found & _ & Hz).
    destruct found as [off|].
    - apply bind_Ok in Hz as (l & Hl%locator_nonneg & Hz). apply bind_Ok in Hz as ([[zp z] ao] & Hs & Hz).
      apply bail_bind_Ok in Hz as [_ Hz]. injection Hz as <- <- <- <- <-.
      unfold find_zip64_eocd in Hs. apply scan_zip64_Ok in Hs as (? & ? & _ & ? & ? & _).
      2:{ apply Forall_forall. intros q Hq%elem_of_seqZ. lia. }
      clear E. cbn. split; [by destruct (_ =? _)|]. split; [by destruct (_ =? _)|]. split; [lia|done].
    - do 2 apply bail_bind_Ok in Hz as [_ Hz]. injection Hz as <- <- <- <- <-. cbn. repeat split; lia || done. }
  do 5 (split; [done|]). split; [lia|]. split; [lia|]. split; [lia|].
  intros Hnone. apply Hn in Hnone as (? & ? & ? & ? & ?). split; [lia|done].
Qed.

(** ** The normalised archive *)

Lemma normalize_Ok z z' : len z < 2 ^ 63 → normalize_zip_for_appx_signing z = Ok z' →
  ∃ t pre recs post, parse_zip_tail z = Ok t ∧ tail_of z t ∧
    z = pre ++ concat recs ++ post ∧ Forall cd_record recs ∧
    len pre = t_central_directory_offset t ∧ len (concat recs) = t_central_directory_size t ∧
    z' = pre ++ concat (appx_record <$> recs) ++
      match zip64_eocd t with
      | Some _ => post
      | None => zip64_end_records (len recs) (t_central_directory_size t) (t_central_directory_offset t)
                  (eocd_offset t) ++ to_le 2 (len (zip_file_comment (classic t))) ++ zip_file_comment (classic t)
      end.
Proof.
  intros Hb. unfold normalize_zip_for_appx_signing. intros (t & Ht & Hr)%bind_Ok. exists t.
  pose proof (parse_zip_tail_Ok _ _ Hb Ht) as Htail. pose proof Htail as (? & ? & _ & _ & _ & ? & ? & ? & Hnone).
  set (cdo := t_central_directory_offset t) in *. set (cds := t_central_directory_size t) in *. cbv zeta in Hr.
  apply bind_Ok in Hr as (cd_end & He%ok_or_Ok & Hr). unfold checked_add64 in He.
  destruct (_ <? U64) in He; [|done]. injection He as <-.
  apply bind_Ok in Hr as (s & Hs & Hr). apply bail_bind_Ok in Hr as [E Hr]. zbool.
  set (pre := sub z 0 cdo). set (rest := sub z cdo (len z)).
  assert (z = pre ++ rest) as Hz by (apply sub_head_tail; lia).
  assert (len pre = cdo) as Hlp by (unfold pre; rewrite len_sub; lia).
  destruct (loop _ _ _) as [o|] eqn:El; [|done]. cbn in Hs. subst o.
  assert (loop (normalize_step (cdo + cds)) (S (length z)) (mk_norm (pre ++ rest) 0 (len pre)) = Some (Ok s)) as El'
    by by rewrite <-Hz, Hlp.
  destruct (normalize_records_inv (S (length z)) pre rest 0 (cdo + cds) s)
    as (recs & post & Hrest & Hrecs & Hce & Hfu); [lia|rewrite <-Hz; lia|done|done|].
  rewrite Hrest, Hce, normalize_records in El' by (done || lia). injection El' as <-.
  exists pre, recs, post. rewrite Hrest in Hz. do 6 (split; [done || lia|]).
  cbn [n_out n_entries] in Hr. destruct (zip64_eocd t) as [z64|]; [by injection Hr as <-|].
  apply bind_Ok in Hr as (cl & Hcl%ok_or_Ok & Hr). injection Hr as <-. unfold try_u16 in Hcl.
  destruct (_ <? U16) in Hcl; [|done]. injection Hcl as <-.
  destruct (Hnone eq_refl) as (Heo & _).
  assert (take (Z.to_nat (eocd_offset t)) (pre ++ concat (appx_record <$> recs) ++ post) =
    pre ++ concat (appx_record <$> recs)) as ->.
  { rewrite app_assoc. apply take_app_length'. pose proof (len_concat_appx _ Hrecs) as Hla.
    rewrite length_app. unfold len in *. lia. }
  by rewrite <-!app_assoc.
Qed.

Definition end_fields (entries cd_size cd_offset eo : Z) : list (nat * Z) :=
  [(4%nat, ZIP64_EOCD_SIG); (8%nat, ZIP64_EOCD_RECORD_SIZE); (2%nat, ZIP64_VERSION); (2%nat, ZIP64_VERSION);
   (4%nat, 0); (4%nat, 0); (8%nat, entries); (8%nat, entries); (8%nat, cd_size); (8%nat, cd_offset);
   (4%nat, ZIP64_LOC_SIG); (4%nat, 0); (8%nat, eo); (4%nat, 1);
   (4%nat, EOCD_SIG); (2%nat, U16_MAX); (2%nat, U16_MAX); (2%nat, U16_MAX); (2%nat, U16_MAX);
   (4%nat, U32_MAX); (4%nat, U32_MAX)].
Lemma end_records_fields entries cd_size cd_offset eo :
  zip64_end_records entries cd_size cd_offset eo = encode_fields (end_fields entries cd_size cd_offset eo).
Proof. unfold zip64_end_records, end_fields, encode_fields. cbn. by rewrite app_nil_r. Qed.

(** No end record starts in the comment. *)
Definition quiet (tail : bytes) : Prop :=
  ∀ k, 0 <= k → k + 22 <= len tail → classic_at tail k = false.
Lemma classic_at_app a b k : 0 <= k → k + 22 <= len b → classic_at (a ++ b) (len a + k) = classic_at b k.
Proof.
  intros. pose proof (len_nonneg a). unfold classic_at. rewrite !fld_app_r, len_app by lia.
  f_equal; [f_equal; f_equal; lia|]. replace (len a + k + 20 - len a) with (k + 20) by lia.
  apply eq_true_iff_eq. rewrite !Z.eqb_eq. lia.
Qed.
Lemma from_le_first x bs : from_le (x :: bs) mod 256 = u8 x.
Proof.
  change (from_le (x :: bs)) with (Z.lor (u8 x) (Z.shiftl (from_le bs) 8)).
  rewrite Z.lor_comm, lor_shiftl_8 by apply u8_range. pose proof (u8_range x). lia.
Qed.
Lemma fld_first n buf q : 0 <= q → 1 <= n → q + n <= len buf → fld n buf q mod 256 = fld 1 buf q.
Proof.
  intros. unfold fld. rewrite (sub_split buf q (q + 1) (q + n)) by lia.
  pose proof (len_sub buf q (q + 1) ltac:(lia) ltac:(lia) ltac:(lia)) as Hl.
  destruct (sub buf q (q + 1)) as [|x [|y l]].
  - rewrite len_nil in Hl. lia.
  - cbn [app]. rewrite from_le_first. change (from_le [x]) with (Z.lor (u8 x) 0). by rewrite Z.lor_0_r.
  - rewrite !len_cons in Hl. pose proof (len_nonneg l). lia.
Qed.
(** A signature starts with the letter P. *)
Lemma classic_at_first buf q : 0 <= q → q + 4 <= len buf → classic_at buf q = true → fld 1 buf q = 0x50.
Proof.
  intros ?? Hat. unfold classic_at in Hat. zbool. rewrite <-(fld_first 4) by lia.
  match goal with H : fld 4 buf q = EOCD_SIG |- _ => rewrite H end. done.
Qed.

Section EndRecords.
Context (A comment : bytes) (n cds cdo : Z).
Context (Hn : 0 <= n < U64) (Hcds : 0 <= cds) (Hcdo : 0 <= cdo) (Hcd : cdo + cds = len A).
Context (HA : len A < 2 ^ 62) (Hc : len comment < U16).
Let o := len A.
Let R := zip64_end_records n cds cdo o.
Let T := to_le 2 (len comment) ++ comment.
Let B := A ++ R ++ T.
Context (Hq : quiet T).

Definition appx_tail : ZipTail :=
  mk_tail (mk_classic U16_MAX U16_MAX U16_MAX U16_MAX U32_MAX U32_MAX comment)
    (Some (mk_zip64 ZIP64_EOCD_RECORD_SIZE ZIP64_VERSION ZIP64_VERSION 0 0 n n cds cdo []))
    (Some (mk_locator 0 o 1)) (Some o) (o + 76) cdo cds.

Lemma len_R : len R = 96.
Proof. unfold R. by rewrite end_records_fields, len_encode_fields. Qed.
Lemma len_B : len B = o + 98 + len comment.
Proof. unfold B, T. rewrite !len_app, len_R, len_to_le. fold o. lia. Qed.
Lemma end_field (i m : nat) w v off :
  end_fields n cds cdo o !! i = Some (m, v) → off = fields_size (take i (end_fields n cds cdo o)) →
  w = Z.of_nat m → 0 <= v < 2 ^ (8 * w) → fld w B (o + off) = v.
Proof.
  intros Hi Hoff -> Hv. rewrite Z.mul_comm in Hv. unfold B, R. rewrite end_records_fields.
  pose proof (fields_size_nonneg (take i (end_fields n cds cdo o))).
  rewrite fld_app_r by (fold o; lia). fold o. replace (o + off - o) with off by lia.
  rewrite (fld_encoded _ i m v) by done. by apply Z.mod_small.
Qed.
Ltac offsets := repeat match goal with
  |- context [o + ?a + ?b] => let c := eval cbv in (a + b) in replace (o + a + b) with (o + c) by lia end.
Ltac end_fld i m w v off := rewrite (end_field i m w v off eq_refl eq_refl eq_refl) by (done || (cbn; lia)).

Lemma comment_field : fld 2 B (o + 96) = len comment.
Proof.
  unfold B. rewrite app_assoc, fld_app_r; rewrite !len_app, len_R; fold o; [|lia].
  replace (o + 96 - (o + 96)) with 0 by lia. unfold T, fld. rewrite sub_app_l by (rewrite ?len_to_le; lia).
  rewrite sub_full_ge by (rewrite len_to_le; lia). apply from_to_le_small. pose proof (len_nonneg comment).
  change (Z.of_nat 2 * 8) with 16. lia.
Qed.
Lemma appx_classic : find_classic_eocd B =
  Ok (o + 76, mk_classic U16_MAX U16_MAX U16_MAX U16_MAX U32_MAX U32_MAX comment).
Proof.
  pose proof len_B as HB. pose proof (len_nonneg comment). assert (0 <= o < 2 ^ 62) as Ho by (split; [apply len_nonneg|exact HA]).
  apply find_classic_eocd_Ok; [lia|].
  split; [lia|]. split; [lia|]. split; [|split].
  - unfold classic_at. end_fld 14%nat 4%nat 4 EOCD_SIG 76.
    replace (o + 76 + 20) with (o + 96) by lia. rewrite comment_field, HB. cbn [andb].
    apply andb_true_iff. split; [done|]. apply Z.eqb_eq. lia.
  - unfold classic_of. offsets.
    end_fld 15%nat 2%nat 2 U16_MAX 80. end_fld 16%nat 2%nat 2 U16_MAX 82. end_fld 17%nat 2%nat 2 U16_MAX 84. end_fld 18%nat 2%nat 2 U16_MAX 86. end_fld 19%nat 4%nat 4 U32_MAX 88. end_fld 20%nat 4%nat 4 U32_MAX 92.
    f_equal. unfold B, T. rewrite !app_assoc, sub_app_r; rewrite !len_app, len_R, len_to_le; fold o; [|lia].
    symmetry. trans (sub comment 0 (len comment)); [f_equal; lia|apply sub_full].
  - intros q Hlo Hhi. destruct (classic_at B q) eqn:E; [|done]. exfalso.
    destruct (decide (q < o + 96)) as [Hk|Hk].
    + apply classic_at_first in E; [|lia|lia]. revert E. unfold B.
      rewrite fld_app_r, fld_app_l by (fold o; rewrite ?len_R; lia). fold o. unfold R. rewrite end_records_fields.
      change (end_fields n cds cdo o) with (take 14 (end_fields n cds cdo o) ++ drop 14 (end_fields n 0 0 0)).
      unfold encode_fields. rewrite bind_app. fold (encode_fields (take 14 (end_fields n cds cdo o))).
      fold (encode_fields (drop 14 (end_fields n 0 0 0))).
      rewrite fld_app_r by (rewrite len_encode_fields; cbn; lia). rewrite len_encode_fields.
      pose proof (forall_range (λ k, negb (fld 1 (encode_fields (drop 14 (end_fields 0 0 0 0))) k =? 0x50)) 1 19 eq_refl
        (q - o - 76)) as Hf. cbn beta in Hf. intros E.
      change (fields_size (take 14 (end_fields n cds cdo o))) with 76 in E.
      change (drop 14 (end_fields n 0 0 0)) with (drop 14 (end_fields 0 0 0 0)) in E.
      rewrite E in Hf. specialize (Hf ltac:(lia)). done.
    + replace q with (len (A ++ R) + (q - o - 96)) in E by (rewrite len_app, len_R; fold o; lia).
      unfold B in E. rewrite app_assoc, classic_at_app in E.
      * rewrite Hq in E; [done|lia|]. unfold T. rewrite len_app, len_to_le. lia.
      * lia.
      * unfold T. rewrite len_app, len_to_le. lia.
Qed.
Ltac ok := cbn [mbind outcome_bind bail_if ok_or].
Lemma appx_locator : parse_zip64_locator B (o + 56) = Ok (mk_locator 0 o 1).
Proof.
  pose proof len_B as HB. pose proof (len_nonneg comment). assert (0 <= o < 2 ^ 62) as Ho by (split; [apply len_nonneg|exact HA]).
  unfold parse_zip64_locator, read_u32_le, read_u64_le. offsets. rewrite !read_le_in by lia.
  end_fld 10%nat 4%nat 4 ZIP64_LOC_SIG 56. end_fld 11%nat 4%nat 4 0 60. end_fld 12%nat 8%nat 8 o 64.
  end_fld 13%nat 4%nat 4 1 72. done.
Qed.
Lemma appx_zip64 : find_zip64_eocd B o (o + 16) =
  Ok (o, mk_zip64 ZIP64_EOCD_RECORD_SIZE ZIP64_VERSION ZIP64_VERSION 0 0 n n cds cdo [], 0).
Proof.
  pose proof len_B as HB. pose proof (len_nonneg comment). assert (0 <= o < 2 ^ 62) as Ho by (split; [apply len_nonneg|exact HA]).
  unfold find_zip64_eocd. replace (o + 16 - o + 1) with (1 + 16) by lia. rewrite seqZ_app by lia.
  assert (seqZ o 1 = [o]) as -> by (unfold seqZ; cbn; f_equal; lia). cbn [app scan_zip64].
  unfold read_u32_le, read_u64_le, read_u16_le. offsets. rewrite !read_le_in by lia.
  replace (fld 4 B o) with (fld 4 B (o + 0)) by (f_equal; lia). end_fld 0%nat 4%nat 4 ZIP64_EOCD_SIG 0.
  end_fld 1%nat 8%nat 8 ZIP64_EOCD_RECORD_SIZE 4. end_fld 2%nat 2%nat 2 ZIP64_VERSION 12.
  end_fld 3%nat 2%nat 2 ZIP64_VERSION 14. end_fld 4%nat 4%nat 4 0 16. end_fld 5%nat 4%nat 4 0 20.
  end_fld 6%nat 8%nat 8 n 24. end_fld 7%nat 8%nat 8 n 32. end_fld 8%nat 8%nat 8 cds 40. end_fld 9%nat 8%nat 8 cdo 48.
  ok. change (ZIP64_EOCD_SIG =? ZIP64_EOCD_SIG) with true. change (ZIP64_EOCD_RECORD_SIZE <? 44) with false.
  change (negb (0 =? 0) || negb (0 =? 0)) with false. change (ZIP64_EOCD_RECORD_SIZE - 44) with 0. ok.
  unfold checked_add64. rewrite (proj2 (Z.ltb_lt _ _)) by lia. ok.
  rewrite Z.add_0_r, get_range_in by lia. ok. rewrite sub_nil_range by lia. do 3 f_equal.
  unfold saturating_sub. lia.
Qed.
Lemma parse_appx_tail : parse_zip_tail B = Ok appx_tail.
Proof.
  pose proof len_B as HB. pose proof (len_nonneg comment). assert (0 <= o < 2 ^ 62) as Ho by (split; [apply len_nonneg|exact HA]).
  unfold parse_zip_tail. rewrite appx_classic. ok. cbn [disk_number disk_with_central_directory].
  change (U16_MAX =? U16_MAX) with true. cbn [andb negb]. ok.
  assert (zip64_part B (o + 76) (mk_classic U16_MAX U16_MAX U16_MAX U16_MAX U32_MAX U32_MAX comment) =
    Ok (Some (mk_locator 0 o 1),
        Some (mk_zip64 ZIP64_EOCD_RECORD_SIZE ZIP64_VERSION ZIP64_VERSION 0 0 n n cds cdo []), Some o, cdo, cds)) as ->.
  { unfold zip64_part. cbn [zip_file_comment central_directory_size central_directory_offset].
    rewrite (proj2 (Z.leb_le _ _)) by lia. replace (len B - (20 + 22 + len comment)) with (o + 56) by lia.
    cbv zeta. unfold has_locator at 1. rewrite (proj2 (Z.leb_le _ _)) by lia. unfold read_u32_le at 1.
    rewrite read_le_in by lia. end_fld 10%nat 4%nat 4 ZIP64_LOC_SIG 56. ok. rewrite Z.eqb_refl. ok.
    rewrite appx_locator. ok. cbn [end_of_central_directory_offset]. unfold saturating_sub.
    replace (Z.max 0 (o + 76 - 60)) with (o + 16) by lia. rewrite appx_zip64. ok.
    cbn [z_number_of_files_on_this_disk z_number_of_files]. rewrite (Z.eqb_refl n). cbn [negb]. ok.
    change (U32_MAX =? U32_MAX) with true. done. }
  ok. unfold checked_add64. rewrite Hcd. fold o. rewrite (proj2 (Z.ltb_lt _ _)) by lia. ok.
  cbn [default]. change (default (o + 76) (Some o)) with o. by rewrite Z.eqb_refl.
Qed.
End EndRecords.

Lemma records_short recs : Forall cd_record recs → len recs <= len (concat recs).
Proof.
  induction 1 as [|r recs (? & _) _ IH]; [done|]. change (concat (r :: recs)) with (r ++ concat recs).
  rewrite len_app, len_cons. lia.
Qed.
Lemma appx_records_wf recs : Forall cd_record recs → Forall cd_record (appx_record <$> recs).
Proof. induction 1; [constructor|]. constructor; [by apply appx_record_wf|done]. Qed.
Lemma appx_records_idem recs : Forall cd_record recs → appx_record <$> (appx_record <$> recs) = appx_record <$> recs.
Proof. induction 1; [done|]. cbn. f_equal; [by apply appx_record_idem|done]. Qed.

Lemma tail_comment z t : tail_of z t →
  sub z (eocd_offset t + 20) (len z) =
    to_le 2 (len (zip_file_comment (classic t))) ++ zip_file_comment (classic t) ∧
  len (zip_file_comment (classic t)) < U16 ∧ quiet (sub z (eocd_offset t + 20) (len z)).
Proof.
  intros (Ho & Hl & Hat & -> & Hno & _). set (o := eocd_offset t) in *. cbn [classic_of zip_file_comment].
  unfold classic_at in Hat. zbool. pose proof (fld_range 2 z (o + 20)) as Hf.
  assert (len (sub z (o + 22) (len z)) = fld 2 z (o + 20)) as Hlc by (rewrite len_sub; lia).
  split; [|split].
  - rewrite (sub_split z (o + 20) (o + 22)) by lia. f_equal. rewrite Hlc. unfold fld.
    replace (o + 20 + 2) with (o + 22) by lia. symmetry. apply to_from_le.
    pose proof (len_sub z (o + 20) (o + 22) ltac:(lia) ltac:(lia) Hl) as Hx. unfold len in Hx. lia.
  - rewrite Hlc. change (2 ^ (8 * 2)) with U16 in Hf. lia.
  - intros k Hk Hkl.
    assert (len (sub z 0 (o + 20)) = o + 20) as Hp by (rewrite len_sub; lia).
    rewrite <-(classic_at_app (sub z 0 (o + 20))) by done.
    rewrite <-sub_head_tail, Hp by lia. rewrite len_sub in Hkl by lia. apply Hno; lia.
Qed.

(** ** Nothing panics, and the loops end *)

#[local] Hint Resolve read_le_not_panic : psign.
Lemma scan_classic_not_panic buf ps : scan_classic buf ps ≠ Panic.
Proof. induction ps as [|p ps IH]; cbn [scan_classic]; unfold read_u32_le, read_u16_le; nopanic. Qed.
Lemma scan_zip64_not_panic buf nom ps : scan_zip64 buf nom ps ≠ Panic.
Proof. induction ps as [|p ps IH]; cbn [scan_zip64]; unfold read_u32_le, read_u64_le, read_u16_le; nopanic. Qed.
Lemma locator_not_panic buf off : parse_zip64_locator buf off ≠ Panic.
Proof. unfold parse_zip64_locator, read_u32_le, read_u64_le. nopanic. Qed.
#[local] Hint Resolve scan_classic_not_panic scan_zip64_not_panic locator_not_panic : psign.
Lemma parse_zip_tail_not_panic buf : parse_zip_tail buf ≠ Panic.
Proof.
  unfold parse_zip_tail, find_classic_eocd. nopanic. unfold zip64_part, has_locator, find_zip64_eocd, read_u32_le.
  apply bind_not_panic; [destruct (20 + 22 + _ <=? _); nopanic|]. intros [off|] _; nopanic.
Qed.

Definition cd_cursor (s : Z * Z) : Prop := 0 <= fst s.
Lemma cd_record_step_inl buf cd_end count s s' :
  cd_cursor s → cd_record_step buf cd_end count s = inl s' → fst s + 46 <= fst s' ∧ fst s + 4 <= len buf.
Proof.
  destruct s as [cursor seen]. unfold cd_cursor, cd_record_step. cbn [fst]. intros Hc.
  destruct (_ <? cd_end); [|done]. intros Hr.
  match type of Hr with match ?m with _ => _ end = _ => destruct m as [c| |] eqn:Em; [|done..] end.
  injection Hr as <-. cbn [fst]. unfold read_u32_le, read_u16_le in Em. inv_ok Em.
  repeat match goal with H : read_le _ _ _ = Ok _ |- _ => apply read_le_Ok in H as (? & ? & ->); [|lia] end.
  match goal with H : checked_add64 _ _ = Some _ |- _ => unfold checked_add64 in H; destruct (_ <? U64) in H; [|done]; injection H as <- end.
  assert (∀ o, 0 <= o → o + 2 <= len buf → 0 <= fld 2 buf o) as Hf by (intros; apply fld_range; lia).
  pose proof (Hf (cursor + 28)). pose proof (Hf (cursor + 30)). pose proof (Hf (cursor + 32)). lia.
Qed.
Lemma validate_records_not_panic buf t :
  0 <= t_central_directory_offset t → validate_central_directory_records buf t ≠ Panic.
Proof.
  intros Ho. unfold validate_central_directory_records. nopanic.
  set (step := cd_record_step buf _ _). pose proof (len_nonneg buf).
  assert (is_Some (loop step (S (length buf)) (t_central_directory_offset t, 0))) as [r Hr].
  { apply (loop_total step cd_cursor (λ s, Z.max 0 (len buf - fst s))); [|done|cbn; unfold len in *; lia|cbn; lia].
    intros s s' Hc He. apply cd_record_step_inl in He; [|done]. unfold cd_cursor in *. lia. }
  rewrite Hr. refine (loop_inv step cd_cursor (λ r, r ≠ Panic) _ _ _ _ _ _ Hr); [| |done].
  - intros s s' Hc He. apply cd_record_step_inl in He; [|done]. unfold cd_cursor in *. lia.
  - intros [cursor seen] r' _. unfold step, cd_record_step. destruct (cursor <? _); [|intros Hx; injection Hx as <-; apply bail_if_not_panic].
    match goal with |- match ?m with _ => _ end = _ → _ => assert (m ≠ Panic) as Hm; [|by destruct m; intros [= <-]] end.
    unfold read_u32_le, read_u16_le. nopanic.
Qed.

Definition norm_inv (L : Z) (s : NormalizeState) : Prop := 0 <= n_p s ∧ len (n_out s) = L.
Lemma normalize_step_inv L cd_end s s' : norm_inv L s → normalize_step cd_end s = inl s' →
  norm_inv L s' ∧ n_p s < n_p s' ∧ n_p s + 46 <= L.
Proof.
  intros [Hp Hl] He. pose proof (normalize_step_inl _ _ _ He Hp) as (? & _ & ? & _).
  split; [|lia]. split; [lia|]. revert He. unfold normalize_step. destruct (_ <? cd_end); [|done]. cbv zeta. intros Hr.
  match type of Hr with match ?m with _ => _ end = _ => destruct m as [s1| |] eqn:Em; [|done..] end.
  injection Hr as ->. inv_ok Em. cbn [n_out]. by repeat match goal with H : write_at _ _ _ = Ok _ |- _ =>
    apply write_at_Ok in H as (? & ? & ->) | |- context [len (patch _ _ _)] => rewrite len_patch by done end.
Qed.
Lemma normalize_loop_not_panic z cd_end p : 0 <= p →
  default Panic (loop (normalize_step cd_end) (S (length z)) (mk_norm z 0 p)) ≠ Panic.
Proof.
  intros Hp. pose proof (len_nonneg z).
  assert (norm_inv (len z) (mk_norm z 0 p)) as Hi by done.
  assert (is_Some (loop (normalize_step cd_end) (S (length z)) (mk_norm z 0 p))) as [r Hr].
  { apply (loop_total _ (norm_inv (len z)) (λ s, Z.max 0 (len z - n_p s))); [|done|cbn; unfold len in *; lia|cbn; lia].
    intros s s' Hc He. pose proof (normalize_step_inv _ _ _ _ Hc He) as ([? ?] & ? & ?). split; [done|lia]. }
  rewrite Hr. refine (loop_inv _ (norm_inv (len z)) (λ r, r ≠ Panic) _ _ _ _ _ Hi Hr).
  - intros s s' Hc He. by apply (normalize_step_inv _ _ _ _ Hc He).
  - intros s r' [Hs Hl]. unfold normalize_step. destruct (_ <? _); [|by intros [= <-]].
    match goal with |- context [match ?m with _ => _ end = _] => assert (m ≠ Panic) as Hm; [|by destruct m; intros [= <-]] end.
    unfold read_u32_le, read_u16_le. nopanic; zbool.
    all: match goal with H : read_le 4 _ _ = _ |- _ => apply read_le_Ok in H as (? & ? & _); [|lia] end.
    all: try match goal with H : write_at _ _ _ = Ok _ |- _ => apply write_at_Ok in H as (? & ? & ->) end.
    all: apply write_at_not_panic; repeat (rewrite ?len_to_le; first [lia | rewrite len_patch]).
Qed.
Lemma normalize_not_panic z : len z < 2 ^ 63 → normalize_zip_for_appx_signing z ≠ Panic.
Proof.
  intros Hb. unfold normalize_zip_for_appx_signing. apply bind_not_panic; [apply parse_zip_tail_not_panic|].
  intros t Ht. apply parse_zip_tail_Ok in Ht as (_ & _ & _ & _ & _ & ? & _); [|done]. cbv zeta.
  apply bind_not_panic; [apply ok_or_not_panic|]. intros cd_end _.
  apply bind_not_panic; [by apply normalize_loop_not_panic|]. intros s _. nopanic; destruct (zip64_eocd t); nopanic.
Qed.

(** ** An archive with a classic end record *)

Section ClassicRecord.
Context (A : bytes) (n cds cdo : Z).
Context (Hn : 0 <= n < U16_MAX) (Hcds : 0 <= cds < U32_MAX) (Hcdo : 0 <= cdo < U32_MAX).
Context (Hcd : cdo + cds = len A).
Let C := to_le 4 EOCD_SIG ++ replicate 4 (byte_of 0) ++ to_le 2 n ++ to_le 2 n ++ to_le 4 cds
         ++ to_le 4 cdo ++ to_le 2 0.
Let B := A ++ C.
Context (Hloc : 20 <= len A → fld 4 A (len A - 20) ≠ ZIP64_LOC_SIG).

Definition classic_fields : list (nat * Z) :=
  [(4%nat, EOCD_SIG); (2%nat, 0); (2%nat, 0); (2%nat, n); (2%nat, n); (4%nat, cds); (4%nat, cdo); (2%nat, 0)].
Definition classic_tail : ZipTail :=
  mk_tail (mk_classic 0 0 n n cds cdo []) None None None (len A) cdo cds.

Lemma C_fields : C = encode_fields classic_fields ++ [].
Proof. rewrite app_nil_r. unfold C, encode_fields, classic_fields. cbn. by rewrite app_nil_r. Qed.
Lemma len_C : len C = 22.
Proof. by rewrite C_fields, app_nil_r, len_encode_fields. Qed.
Lemma classic_field (i m : nat) w v off :
  classic_fields !! i = Some (m, v) → off = fields_size (take i classic_fields) →
  w = Z.of_nat m → 0 <= v < 2 ^ (8 * w) → fld w B (len A + off) = v.
Proof.
  intros Hi Hoff -> Hv. rewrite Z.mul_comm in Hv. unfold B. rewrite C_fields.
  pose proof (fields_size_nonneg (take i classic_fields)).
  rewrite fld_app_r by lia. replace (len A + off - len A) with off by lia.
  rewrite (fld_encoded _ i m v) by done. by apply Z.mod_small.
Qed.
Ltac c_fld i m w v off := rewrite (classic_field i m w v off eq_refl eq_refl eq_refl)
  by (unfold U16_MAX, U32_MAX in *; first [done | cbn; lia]).
Ltac ok := cbn [mbind outcome_bind bail_if ok_or].
Lemma classic_found : find_classic_eocd B = Ok (len A, mk_classic 0 0 n n cds cdo []).
Proof.
  pose proof (len_nonneg A). assert (len B = len A + 22) as HB by (unfold B; rewrite len_app, len_C; lia).
  unfold U32_MAX in *. apply find_classic_eocd_Ok; [lia|].
  split; [done|]. split; [lia|]. split; [|split].
  - unfold classic_at. replace (fld 4 B (len A)) with (fld 4 B (len A + 0)) by (f_equal; lia).
    c_fld 0%nat 4%nat 4 EOCD_SIG 0. c_fld 7%nat 2%nat 2 0 20. rewrite HB. cbn [andb].
    apply andb_true_iff. split; [done|]. apply Z.eqb_eq. lia.
  - unfold classic_of. c_fld 1%nat 2%nat 2 0 4. c_fld 2%nat 2%nat 2 0 6. c_fld 3%nat 2%nat 2 n 8.
    c_fld 4%nat 2%nat 2 n 10. c_fld 5%nat 4%nat 4 cds 12. c_fld 6%nat 4%nat 4 cdo 16.
    by rewrite sub_nil_range by lia.
  - intros q ??. lia.
Qed.
Lemma parse_classic_tail : parse_zip_tail B = Ok classic_tail.
Proof.
  pose proof (len_nonneg A). assert (len B = len A + 22) as HB by (unfold B; rewrite len_app, len_C; lia).
  unfold U32_MAX, U16_MAX in *. unfold parse_zip_tail. rewrite classic_found. ok.
  cbn [disk_number disk_with_central_directory]. change (negb ((0 =? U16_MAX) && (0 =? U16_MAX)) && _) with false. ok.
  assert (zip64_part B (len A) (mk_classic 0 0 n n cds cdo []) = Ok (None, None, None, cdo, cds)) as ->.
  { unfold zip64_part. cbn [zip_file_comment central_directory_size central_directory_offset
      number_of_files_on_this_disk number_of_files]. change (len (@nil byte)) with 0. cbv zeta. rewrite HB.
    replace (len A + 22 - (20 + 22 + 0)) with (len A - 20) by lia.
    assert (has_locator B (if 20 + 22 + 0 <=? len A + 22 then Some (len A - 20) else None) = Ok None) as ->.
    { unfold has_locator. destruct (_ <=? _) eqn:E; [|done]. zbool. rewrite (proj2 (Z.leb_le _ _)) by lia.
      unfold read_u32_le. rewrite read_le_in by lia. ok. unfold B. rewrite fld_app_l by lia.
      rewrite (proj2 (Z.eqb_neq _ _)); [done|]. apply Hloc. lia. }
    ok. unfold U16_MAX, U32_MAX. rewrite !(proj2 (Z.eqb_neq _ _)) by lia. cbn [orb]. ok.
    rewrite (proj2 (Z.ltb_ge _ _)) by lia. done. }
  ok. unfold checked_add64. rewrite Hcd, (proj2 (Z.ltb_lt _ _)) by lia. ok. cbn [default].
  change (default (len A) None) with (len A). by rewrite Z.eqb_refl.
Qed.
End ClassicRecord.

(** A record the directory check accepts. *)
Definition valid_record (r : bytes) : Prop :=
  cd_record r ∧ encrypted_flags (fld 2 r 8) = false ∧ (fld 2 r 10 = 0 ∨ fld 2 r 10 = 8) ∧
  fld 2 r 32 = 0 ∧ fld 2 r 34 = 0.
Lemma validate_one pre r post cd_end count seen :
  valid_record r → len pre + len r <= cd_end → cd_end < U64 →
  cd_record_step (pre ++ r ++ post) cd_end count (len pre, seen) = inl (len (pre ++ r), seen + 1).
Proof.
  intros ((Hl & Hsig & Hlen) & Hfl & Hm & Hcl & Hd) Hce Hb. pose proof (len_nonneg pre). pose proof (len_nonneg post).
  assert (∀ m k, 0 <= k → 0 <= m → k + m <= 46 → read_le m (pre ++ r ++ post) (len pre + k) = Ok (fld m r k)) as Hrd.
  { intros m k ???. rewrite read_le_in by (rewrite ?len_app; lia). rewrite fld_app_r by lia.
    rewrite fld_app_l by lia. do 2 f_equal. lia. }
  unfold cd_record_step. rewrite (proj2 (Z.ltb_lt _ _)) by lia. cbv zeta. unfold read_u32_le, read_u16_le.
  pose proof (Hrd 4 0) as Hr0. rewrite Z.add_0_r in Hr0. rewrite Hr0, !Hrd, Hsig by lia.
  cbn [mbind outcome_bind]. rewrite Z.eqb_refl. cbn [negb bail_if mbind outcome_bind].
  rewrite Hfl, Hcl, Hd. cbn [bail_if mbind outcome_bind].
  assert ((fld 2 r 10 =? 0) || (fld 2 r 10 =? 8) = true) as -> by (destruct Hm as [-> | ->]; done).
  cbn [negb bail_if mbind outcome_bind]. unfold checked_add64.
  replace (len pre + (46 + fld 2 r 28 + fld 2 r 30 + 0)) with (len pre + len r) by lia.
  rewrite (proj2 (Z.ltb_lt _ _)) by lia. cbn [ok_or mbind outcome_bind].
  rewrite (proj2 (Z.ltb_ge _ _)) by lia. cbn [bail_if mbind outcome_bind]. by rewrite len_app.
Qed.
Lemma validate_records pre recs post fuel seen :
  Forall valid_record recs → len pre + len (concat recs) < U64 → (length recs < fuel)%nat →
  loop (cd_record_step (pre ++ concat recs ++ post) (len pre + len (concat recs)) (seen + len recs)) fuel (len pre, seen)
  = Some (Ok tt).
Proof.
  intros Hrecs. revert pre seen fuel. induction Hrecs as [|r recs Hr Hrecs IH]; intros pre seen fuel Hb Hf.
  - destruct fuel as [|fuel]; [cbn in Hf; lia|]. cbn [loop]. unfold cd_record_step.
    change (concat []) with (@nil byte). rewrite len_nil, Z.add_0_r, Z.ltb_irrefl.
    change (len (@nil bytes)) with 0. by rewrite Z.add_0_r, Z.eqb_refl.
  - destruct fuel as [|fuel]; [cbn in Hf; lia|]. cbn [loop]. change (concat (r :: recs)) with (r ++ concat recs) in *.
    rewrite len_app in *. pose proof (len_nonneg (concat recs)).
    rewrite <-(app_assoc r), validate_one by (done || lia). rewrite (app_assoc pre).
    specialize (IH (pre ++ r) (seen + 1) fuel). rewrite len_app in IH.
    replace (len pre + (len r + len (concat recs))) with (len pre + len r + len (concat recs)) by lia.
    rewrite len_cons, len_app. replace (seen + (1 + len recs)) with (seen + 1 + len recs) by lia.
    apply IH; [lia|cbn in Hf; lia].
Qed.

(** ** Properties *)

(** Normalising a package that ends in a classic record keeps everything
    before its directory, rewrites exactly the two fields of every record, and
    appends end records that are read back with the same directory, comment
    and number of entries; normalising again changes nothing. *)
Theorem appx_normal_form z t z' :
  len z < 2 ^ 62 → parse_zip_tail z = Ok t → zip64_eocd t = None →
  normalize_zip_for_appx_signing z = Ok z' →
  ∃ pre recs t', Forall cd_record recs ∧
    pre ++ concat recs = sub z 0 (eocd_offset t) ∧
    pre ++ concat (appx_record <$> recs) = sub z' 0 (eocd_offset t) ∧
    len pre = t_central_directory_offset t ∧
    parse_zip_tail z' = Ok t' ∧
    t_central_directory_offset t' = t_central_directory_offset t ∧
    t_central_directory_size t' = t_central_directory_size t ∧
    zip_file_comment (classic t') = zip_file_comment (classic t) ∧
    z_number_of_files <$> zip64_eocd t' = Some (len recs) ∧
    normalize_zip_for_appx_signing z' = Ok z'.
Proof.
  intros Hb Ht Hnone Hn. apply normalize_Ok in Hn as (t0 & pre & recs & post & Ht0 & Htail & Hz & Hrecs & Hp & Hr & Hz'); [|lia].
  assert (t0 = t) as -> by congruence. rewrite Hnone in Hz'.
  pose proof (tail_comment _ _ Htail) as (Htc & Hc & Hq).
  pose proof Htail as (? & ? & _ & _ & _ & ? & ? & ? & Hx). destruct (Hx Hnone) as (Heo & _). clear Hx.
  set (cdo := t_central_directory_offset t) in *. set (cds := t_central_directory_size t) in *.
  set (comment := zip_file_comment (classic t)) in *. rewrite Htc in Hq.
  pose proof (len_concat_appx _ Hrecs) as Hla. pose proof (records_short _ Hrecs). pose proof (len_nonneg recs).
  set (A := pre ++ concat (appx_record <$> recs)).
  assert (len A = eocd_offset t) as HA by (unfold A; rewrite len_app; lia).
  rewrite app_assoc in Hz'. fold A in Hz'. rewrite <-HA in Hz'.
  pose proof (parse_appx_tail A comment (len recs) cds cdo ltac:(lia) ltac:(lia) ltac:(lia) ltac:(lia) ltac:(lia) Hc Hq) as Hpt.
  rewrite <-Hz' in Hpt.
  exists pre, recs, (appx_tail A comment (len recs) cds cdo). split; [done|].
  split. { rewrite Hz, app_assoc, sub_app_l, sub_full_ge; [done|..]; rewrite ?len_app; lia. }
  split. { rewrite Hz', <-HA, sub_app_l, sub_full; [done|lia..]. }
  do 6 (split; [done|]).
  unfold normalize_zip_for_appx_signing. rewrite Hpt. cbn [mbind outcome_bind appx_tail
    t_central_directory_offset t_central_directory_size zip64_eocd]. cbv zeta.
  unfold checked_add64. rewrite (proj2 (Z.ltb_lt _ _)) by lia. cbn [ok_or mbind outcome_bind].
  assert (len (concat (appx_record <$> recs)) = cds) as Hcds by lia.
  set (post' := _ ++ to_le 2 _ ++ comment) in Hz'.
  assert (∀ fuel, (length recs < fuel)%nat → loop (normalize_step (cdo + cds)) fuel (mk_norm (A ++ post') 0 cdo) =
    Some (Ok (mk_norm (A ++ post') (0 + len (appx_record <$> recs)) (cdo + cds)))) as Hloop.
  { intros fuel Hfu. rewrite <-Hp, <-Hcds. unfold A. rewrite <-app_assoc, normalize_records.
    - by rewrite appx_records_idem.
    - by apply appx_records_wf.
    - lia.
    - by rewrite length_fmap. }
  rewrite <-Hz' in Hloop. rewrite Hloop.
  - cbn [default from_option id mbind outcome_bind n_p n_out]. by rewrite Z.eqb_refl.
  - enough (len recs <= len z') by (unfold len in *; lia).
    rewrite Hz', len_app. pose proof (len_nonneg post'). lia.
Qed.

(** A package of one empty stored file [a] with a classic end record. *)
Definition toy_record : bytes :=
  to_le 4 CD_SIG ++ to_le 2 0x031e ++ to_le 2 20 ++ to_le 4 0 ++ to_le 4 0 ++ to_le 4 0 ++ to_le 4 0
  ++ to_le 4 0 ++ to_le 2 1 ++ to_le 2 0 ++ to_le 2 0 ++ to_le 2 0 ++ to_le 2 0 ++ to_le 4 0x81a40000
  ++ to_le 4 0 ++ lit "a".
Definition toy_zip : bytes :=
  to_le 4 LH_SIG ++ replicate 22 (byte_of 0) ++ to_le 2 1 ++ to_le 2 0 ++ lit "a" ++ toy_record
  ++ to_le 4 EOCD_SIG ++ to_le 4 0 ++ to_le 2 1 ++ to_le 2 1 ++ to_le 4 47 ++ to_le 4 31 ++ to_le 2 2 ++ lit "ok".
Definition or_default {A} (d : A) (m : outcome A) : A := match m with Ok a => a | _ => d end.
Lemma appx_normal_form_witness :
  let t := or_default (mk_tail (classic_of [] 0) None None None 0 0 0) (parse_zip_tail toy_zip) in
  let z' := or_default [] (normalize_zip_for_appx_signing toy_zip) in
  ∃ pre recs t', Forall cd_record recs ∧
    pre ++ concat recs = sub toy_zip 0 (eocd_offset t) ∧
    pre ++ concat (appx_record <$> recs) = sub z' 0 (eocd_offset t) ∧
    len pre = t_central_directory_offset t ∧
    parse_zip_tail z' = Ok t' ∧
    t_central_directory_offset t' = t_central_directory_offset t ∧
    t_central_directory_size t' = t_central_directory_size t ∧
    zip_file_comment (classic t') = zip_file_comment (classic t) ∧
    z_number_of_files <$> zip64_eocd t' = Some (len recs) ∧
    normalize_zip_for_appx_signing z' = Ok z'.
Proof. cbn zeta. apply (appx_normal_form toy_zip); by vm_compute. Defined.

(** No archive makes the end-record parser, the directory check or the
    normalisation panic, and their loops end. *)
Theorem appx_tail_never_panics z t :
  len z < 2 ^ 63 →
  parse_zip_tail z ≠ Panic ∧ normalize_zip_for_appx_signing z ≠ Panic ∧
  (0 <= t_central_directory_offset t → validate_central_directory_records z t ≠ Panic).
Proof.
  intros Hb. split; [apply parse_zip_tail_not_panic|]. split; [by apply normalize_not_panic|].
  apply validate_records_not_panic.
Qed.
Lemma appx_tail_never_panics_witness :
  let t := or_default (mk_tail (classic_of [] 0) None None None 0 0 0) (parse_zip_tail toy_zip) in
  parse_zip_tail toy_zip ≠ Panic ∧ normalize_zip_for_appx_signing toy_zip ≠ Panic ∧
  (0 <= t_central_directory_offset t → validate_central_directory_records toy_zip t ≠ Panic).
Proof. cbn zeta. apply appx_tail_never_panics. by vm_compute. Defined.
