(* ===== verification/AppxZip.v ===== *)
(** The ZIP writer for packages staged for signing:
    [crates/psign-portable-core/src/appx_zip.rs].

    The deflate encoder and the checksum of the [flate2] crate are the
    interface [Flate]; the capacity of the output vector, which decides when a
    flush is complete, is a number the vector's [reserve] only grows. *)

From S2P Require Import Prelude.
From S2P Require Import RustStr.
From S2P Require Import AppxTail.

Definition APPX_BLOCK_SIZE : Z := 64 * 1024.
Definition METHOD_STORED : Z := 0.
Definition METHOD_DEFLATED : Z := 8.
Definition LOCAL_HEADER_SIG : Z := 0x04034b50.
Definition CENTRAL_HEADER_SIG : Z := 0x02014b50.
Definition DOS_DATE_1980 : Z := 0x21.
Definition STORED_EXTENSIONS : list str := chars <$>
  ["png"; "jpg"; "jpeg"; "gif"; "zip"; "gz"; "7z"; "cab"; "appx"; "msix"; "appxbundle"; "msixbundle";
   "eappx"; "emsix"; "mp3"; "mp4"; "wma"; "wmv"; "m4a"].

Inductive FlushCompress := FlushFull | FlushFinish.
Inductive Status := StatusOk | StreamEnd.
#[export] Instance status_eq_dec : EqDecision Status.
Proof. solve_decision. Defined.

(** [compress_vec] is given the input and the spare capacity and returns the
    state, how much it consumed, what it wrote and its status. *)
Class Flate := {
  Compress : Type;
  compress_new : Compress;
  compress_vec : Compress → bytes → FlushCompress → Z → option (Compress * Z * bytes * Status);
  vec_reserve : Z → Z → Z → Z;
  crc32 : bytes → Z }.

Record AppxZipEntry := mk_entry {
  e_name : str; e_method : Z; e_crc32 : Z; e_uncompressed_size : Z; e_data : bytes;
  e_block_sizes : option (list Z) }.

(** [leaf.rsplit_once('.')] of the last segment, lower case, or nothing *)
Definition leaf_extension (name : str) : str :=
  default [] ('(_, ext) ← (leaf ← last (split 47 name); rsplit_once 46 leaf); Some (to_ascii_lowercase ext)).

Section Writer.
Context `{Flate}.

Record DeflateState := mk_deflate { d_compress : Compress; d_input : bytes; d_out : bytes; d_capacity : Z }.
Definition deflate_into_step (flush : FlushCompress) (s : DeflateState)
    : DeflateState + outcome DeflateState :=
  let capacity := vec_reserve (d_capacity s) (len (d_out s)) (len (d_input s) + 1024) in
  match compress_vec (d_compress s) (d_input s) flush (capacity - len (d_out s)) with
  | None => inr (Err "compress error")
  | Some (c, consumed, written, status) =>
      match index_range (d_input s) consumed (len (d_input s)) with
      | Ok input =>
          let s' := mk_deflate c input (d_out s ++ written) capacity in
          if bool_decide (status = StreamEnd)
             || (match flush with FlushFinish => false | FlushFull => true end
                 && bool_decide (input = []) && (len (d_out s') <? capacity))
          then inr (Ok s') else inl s'
      | Err e => inr (Err e)
      | Panic => inr Panic
      end
  end.
(** The encoder decides how often the loop runs: fuel, with [None] for a loop
    still running. *)
Definition deflate_into (fuel : nat) (c : Compress) (input : bytes) (flush : FlushCompress)
    (out : bytes) (capacity : Z) : option (outcome DeflateState) :=
  loop (deflate_into_step flush) fuel (mk_deflate c input out capacity).

Fixpoint deflate_blocks (fuel : nat) (blocks : list bytes) (c : Compress) (out : bytes) (capacity : Z)
    (block_sizes : list Z) : option (outcome (Compress * bytes * Z * list Z)) :=
  match blocks with
  | [] => Some (Ok (c, out, capacity, block_sizes))
  | block :: blocks' =>
      let start := len out in
      r ← deflate_into fuel c block FlushFull out capacity;
      match r with
      | Ok s => deflate_blocks fuel blocks' (d_compress s) (d_out s) (d_capacity s)
                  (block_sizes ++ [len (d_out s) - start])
      | Err e => Some (Err e)
      | Panic => Some Panic
      end
  end.
Definition deflate_appx_blocks (fuel : nat) (data : bytes) : option (outcome (bytes * list Z)) :=
  r ← deflate_blocks fuel (chunks (length data) (Z.to_nat APPX_BLOCK_SIZE) data) compress_new []
        (len data / 2 + 64) [];
  match r with
  | Ok (c, out, capacity, block_sizes) =>
      r ← deflate_into fuel c [] FlushFinish out capacity;
      Some (s ← r; Ok (d_out s, block_sizes))
  | Err e => Some (Err e)
  | Panic => Some Panic
  end.

Definition stored (name : str) (data : bytes) : AppxZipEntry :=
  mk_entry name METHOD_STORED (crc32 data) (len data) data None.
Definition payload (fuel : nat) (name : str) (data : bytes) : option (outcome AppxZipEntry) :=
  let extension := leaf_extension name in
  if bool_decide (data = []) || bool_decide (extension ∈ STORED_EXTENSIONS)
  then Some (Ok (stored name data)) else
  r ← deflate_appx_blocks fuel data;
  Some (
    '(compressed, block_sizes) ← r;
    if len data <=? len compressed then Ok (stored name data) else
    Ok (mk_entry name METHOD_DEFLATED (crc32 data) (len data) compressed (Some block_sizes))).
End Writer.

Definition raw (name : str) (method crc32 uncompressed_size : Z) (data : bytes) : outcome AppxZipEntry :=
  bail_if (negb ((method =? METHOD_STORED) || (method =? METHOD_DEFLATED)))
    "unsupported ZIP compression method {method} in staged MSIX package";;
  Ok (mk_entry name method crc32 uncompressed_size data None).
Definition local_header_size (e : AppxZipEntry) : Z := 30 + byte_len (e_name e).

Definition u32_field (value : Z) : outcome Z :=
  ok_or (v ← try_u32 value; if v =? U32_MAX then None else Some v)
    "{what} exceeds 4 GiB; portable MSIX signing does not write ZIP64 entries".

(** Bit 11: the name is UTF-8. *)
Definition name_flags (name : str) : Z := if forallb is_ascii name then 0 else Z.shiftl 1 11.
Definition local_record (e : AppxZipEntry) : bytes :=
  to_le 4 LOCAL_HEADER_SIG ++ to_le 2 20 ++ to_le 2 (name_flags (e_name e)) ++ to_le 2 (e_method e)
  ++ to_le 2 0 ++ to_le 2 DOS_DATE_1980 ++ to_le 4 (e_crc32 e) ++ to_le 4 (len (e_data e))
  ++ to_le 4 (e_uncompressed_size e) ++ to_le 2 (byte_len (e_name e)) ++ to_le 2 0
  ++ encode_utf8 (e_name e) ++ e_data e.
Definition central_record (e : AppxZipEntry) (offset : Z) : bytes :=
  to_le 4 CENTRAL_HEADER_SIG ++ to_le 2 45 ++ to_le 2 20 ++ to_le 2 (name_flags (e_name e))
  ++ to_le 2 (e_method e) ++ to_le 2 0 ++ to_le 2 DOS_DATE_1980 ++ to_le 4 (e_crc32 e)
  ++ to_le 4 (len (e_data e)) ++ to_le 4 (e_uncompressed_size e) ++ to_le 2 (byte_len (e_name e))
  ++ replicate 8 (byte_of 0) ++ to_le 4 0 ++ to_le 4 offset ++ encode_utf8 (e_name e).
Fixpoint write_entries (entries : list AppxZipEntry) (out central : bytes) : outcome (bytes * bytes) :=
  match entries with
  | [] => Ok (out, central)
  | e :: entries' =>
      _ ← ok_or (try_u16 (byte_len (e_name e))) "out of range integral type conversion attempted";
      offset ← u32_field (len out);
      _ ← u32_field (len (e_data e));
      _ ← u32_field (e_uncompressed_size e);
      write_entries entries' (out ++ local_record e) (central ++ central_record e offset)
  end.
(** The classic end record, with an empty comment. *)
Definition classic_record (entry_count cd_size cd_offset : Z) : bytes :=
  to_le 4 EOCD_SIG ++ replicate 4 (byte_of 0) ++ to_le 2 entry_count ++ to_le 2 entry_count
  ++ to_le 4 cd_size ++ to_le 4 cd_offset ++ to_le 2 0.
Definition write_appx_zip (entries : list AppxZipEntry) : outcome bytes :=
  '(out, central) ← write_entries entries [] [];
  entry_count ← ok_or (n ← try_u16 (len entries); if n =? U16_MAX then None else Some n)
    "too many MSIX package entries";
  cd_offset ← u32_field (len out);
  cd_size ← u32_field (len central);
  normalize_zip_for_appx_signing (out ++ central ++ classic_record entry_count cd_size cd_offset).

(** ** The records written *)

Fixpoint centrals (offset : Z) (es : list AppxZipEntry) : list bytes :=
  match es with
  | [] => []
  | e :: es' => central_record e offset :: centrals (offset + len (local_record e)) es'
  end.
(** What the format can hold without ZIP64 fields. *)
Definition entry_fits (e : AppxZipEntry) : Prop :=
  (e_method e = METHOD_STORED ∨ e_method e = METHOD_DEFLATED) ∧ 0 <= e_crc32 e < U32 ∧
  byte_len (e_name e) < U16 ∧ len (e_data e) < U32_MAX ∧ 0 <= e_uncompressed_size e < U32_MAX.

Lemma len_local e : len (local_record e) = local_header_size e + len (e_data e).
Proof.
  unfold local_record, local_header_size, byte_len. rewrite !len_app, !len_to_le. lia.
Qed.
Lemma len_central e o : len (central_record e o) = 46 + byte_len (e_name e).
Proof. unfold central_record, byte_len. rewrite !len_app, !len_to_le, len_replicate. lia. Qed.
Definition central_fields (e : AppxZipEntry) (offset : Z) : list (nat * Z) :=
  [(4%nat, CENTRAL_HEADER_SIG); (2%nat, 45); (2%nat, 20); (2%nat, name_flags (e_name e)); (2%nat, e_method e);
   (2%nat, 0); (2%nat, DOS_DATE_1980); (4%nat, e_crc32 e); (4%nat, len (e_data e));
   (4%nat, e_uncompressed_size e); (2%nat, byte_len (e_name e)); (2%nat, 0); (2%nat, 0); (2%nat, 0); (2%nat, 0);
   (4%nat, 0); (4%nat, offset)].
Definition local_fields (e : AppxZipEntry) : list (nat * Z) :=
  [(4%nat, LOCAL_HEADER_SIG); (2%nat, 20); (2%nat, name_flags (e_name e)); (2%nat, e_method e); (2%nat, 0);
   (2%nat, DOS_DATE_1980); (4%nat, e_crc32 e); (4%nat, len (e_data e)); (4%nat, e_uncompressed_size e);
   (2%nat, byte_len (e_name e)); (2%nat, 0)].
Lemma central_record_fields e o :
  central_record e o = encode_fields (central_fields e o) ++ encode_utf8 (e_name e).
Proof. unfold central_record, encode_fields, central_fields. cbn. by rewrite <-!app_assoc. Qed.
Lemma local_record_fields e :
  local_record e = encode_fields (local_fields e) ++ encode_utf8 (e_name e) ++ e_data e.
Proof. unfold local_record, encode_fields, local_fields. cbn. by rewrite <-!app_assoc. Qed.

Lemma name_flags_range name : name_flags name = 0 ∨ name_flags name = 2048.
Proof. unfold name_flags. destruct (forallb _ _); [by left|by right]. Qed.
Lemma byte_len_nonneg s : 0 <= byte_len s.
Proof. apply len_nonneg. Qed.

(** The value of a field of either record. *)
Lemma central_fld e o (i m : nat) w v off :
  central_fields e o !! i = Some (m, v) → off = fields_size (take i (central_fields e o)) →
  w = Z.of_nat m → 0 <= v < 2 ^ (8 * w) → fld w (central_record e o) off = v.
Proof.
  intros Hi Hoff -> Hv. rewrite central_record_fields, (fld_encoded _ i m v) by done.
  rewrite Z.mul_comm in Hv. by apply Z.mod_small.
Qed.
Lemma local_fld e (i m : nat) w v off :
  local_fields e !! i = Some (m, v) → off = fields_size (take i (local_fields e)) →
  w = Z.of_nat m → 0 <= v < 2 ^ (8 * w) → fld w (local_record e) off = v.
Proof.
  intros Hi Hoff -> Hv. rewrite local_record_fields, (fld_encoded _ i m v) by done.
  rewrite Z.mul_comm in Hv. by apply Z.mod_small.
Qed.
Ltac range := unfold U32_MAX, METHOD_STORED, METHOD_DEFLATED in *; first [done | cbn; lia].

Lemma fld_sub n buf off v (m : nat) : fld n buf off = v → n = Z.of_nat m → 0 <= off → off + n <= len buf →
  sub buf off (off + n) = to_le m v.
Proof.
  intros <- -> ??. unfold fld. symmetry. apply to_from_le.
  pose proof (len_sub buf off (off + Z.of_nat m)) as Hl. unfold len in *. lia.
Qed.
Section Central.
Context (e : AppxZipEntry) (o : Z) (He : entry_fits e) (Ho : 0 <= o < U32_MAX).
Lemma central_cd_record : cd_record (central_record e o).
Proof.
  destruct He as (Hm & Hc & Hn & Hd & Hu). pose proof (byte_len_nonneg (e_name e)). unfold cd_record.
  rewrite len_central. rewrite (central_fld e o 0 4 4 CD_SIG 0 eq_refl eq_refl eq_refl) by done.
  rewrite (central_fld e o 10 2 2 (byte_len (e_name e)) 28 eq_refl eq_refl eq_refl) by range.
  rewrite (central_fld e o 11 2 2 0 30 eq_refl eq_refl eq_refl), (central_fld e o 12 2 2 0 32 eq_refl eq_refl eq_refl) by done.
  split; [lia|]. split; [done|lia].
Qed.
Lemma central_valid : valid_record (central_record e o).
Proof.
  split; [apply central_cd_record|]. destruct He as (Hm & Hc & Hn & Hd & Hu).
  rewrite (central_fld e o 3 2 2 (name_flags (e_name e)) 8 eq_refl eq_refl eq_refl)
    by (destruct (name_flags_range (e_name e)) as [-> | ->]; done).
  rewrite (central_fld e o 4 2 2 (e_method e) 10 eq_refl eq_refl eq_refl) by (destruct Hm as [-> | ->]; done).
  rewrite (central_fld e o 12 2 2 0 32 eq_refl eq_refl eq_refl), (central_fld e o 13 2 2 0 34 eq_refl eq_refl eq_refl) by done.
  split; [by destruct (name_flags_range (e_name e)) as [-> | ->]|]. done.
Qed.
Lemma central_normal : appx_record (central_record e o) = central_record e o.
Proof.
  pose proof (byte_len_nonneg (e_name e)). unfold appx_record.
  assert (sub (central_record e o) 4 6 = to_le 2 ZIP64_VERSION) as H45.
  { apply (fld_sub 2 _ 4 45 2); [|done|lia|rewrite len_central; lia].
    by rewrite (central_fld e o 1 2 2 45 4 eq_refl eq_refl eq_refl). }
  assert (sub (central_record e o) 38 42 = to_le 4 0) as Hat.
  { apply (fld_sub 4 _ 38 0 4); [|done|lia|rewrite len_central; lia].
    by rewrite (central_fld e o 15 4 4 0 38 eq_refl eq_refl eq_refl). }
  rewrite (patch_id _ 4); [apply patch_id|..]; rewrite ?len_to_le, ?len_central; (done || lia).
Qed.
End Central.

Lemma centrals_Forall (P : bytes → Prop) o es :
  (∀ e k, entry_fits e → 0 <= k < U32_MAX → P (central_record e k)) →
  Forall entry_fits es → 0 <= o → o + len (concat (local_record <$> es)) < U32_MAX →
  Forall P (centrals o es).
Proof.
  intros HP Hes. revert o. induction Hes as [|e es He Hes IH]; intros o Ho Hb; [constructor|].
  cbn [centrals]. change (concat (local_record <$> e :: es)) with (local_record e ++ concat (local_record <$> es)) in Hb.
  rewrite len_app in Hb. pose proof (len_nonneg (local_record e)). pose proof (len_nonneg (concat (local_record <$> es))).
  constructor; [apply HP; [done|lia]|apply IH; lia].
Qed.
Lemma write_entries_eq es out central :
  Forall entry_fits es → len out + len (concat (local_record <$> es)) < U32_MAX →
  write_entries es out central =
  Ok (out ++ concat (local_record <$> es), central ++ concat (centrals (len out) es)).
Proof.
  intros Hes. revert out central. induction Hes as [|e es He Hes IH]; intros out central Hb.
  { cbn. by rewrite !app_nil_r. }
  change (concat (local_record <$> e :: es)) with (local_record e ++ concat (local_record <$> es)) in *.
  cbn [write_entries centrals]. change (concat (?a :: ?b)) with (a ++ concat b). rewrite len_app in Hb.
  pose proof (len_nonneg (local_record e)). pose proof (len_nonneg (concat (local_record <$> es))).
  destruct He as (_ & _ & Hn & Hd & Hu). pose proof (len_nonneg out). pose proof (len_nonneg (e_data e)).
  assert (∀ v, 0 <= v < U32_MAX → u32_field v = Ok v) as Hf.
  { intros v Hv. unfold u32_field, try_u32, U32_MAX in *. rewrite (proj2 (Z.ltb_lt _ _)) by lia. cbn [mbind option_bind].
    by rewrite (proj2 (Z.eqb_neq _ _)) by lia. }
  unfold try_u16. rewrite (proj2 (Z.ltb_lt _ _)) by done. cbn [ok_or mbind outcome_bind].
  rewrite !Hf by lia. cbn [mbind outcome_bind]. rewrite IH by (rewrite len_app; lia).
  cbn [concat]. by rewrite len_app, <-!app_assoc.
Qed.

Definition local_area (es : list AppxZipEntry) : bytes := concat (local_record <$> es).
Definition directory (es : list AppxZipEntry) : bytes := concat (centrals 0 es).
(** The archive the writer makes. *)
Definition appx_zip (es : list AppxZipEntry) : bytes :=
  local_area es ++ directory es
  ++ zip64_end_records (len es) (len (directory es)) (len (local_area es)) (len (local_area es) + len (directory es))
  ++ to_le 2 0.
Definition appx_zip_tail (es : list AppxZipEntry) : ZipTail :=
  appx_tail (local_area es ++ directory es) [] (len es) (len (directory es)) (len (local_area es)).
Definition SIGNATURE_NAME : str := chars "AppxSignature.p7x".
(** What a package staged for signing is. *)
Definition staged (es : list AppxZipEntry) : Prop :=
  Forall entry_fits es ∧ (∃ es' e, es = es' ++ [e] ∧ e_name e = SIGNATURE_NAME) ∧
  len es < U16_MAX ∧ len (local_area es) < U32_MAX ∧ len (directory es) < U32_MAX.

Lemma centrals_app o es es' :
  centrals o (es ++ es') = centrals o es ++ centrals (o + len (local_area es)) es'.
Proof.
  revert o. induction es as [|e es IH]; intros o; cbn [centrals app].
  - f_equal. change (len (local_area [])) with 0. lia.
  - rewrite IH. do 3 f_equal. change (local_area (e :: es)) with (local_record e ++ local_area es). rewrite len_app. lia.
Qed.
Lemma length_centrals o es : length (centrals o es) = length es.
Proof. revert o. induction es as [|e es IH]; intros o; [done|]. cbn. by rewrite IH. Qed.
(** The name of the signature keeps a locator's signature from showing up
    twenty bytes before the end record. *)
Lemma staged_no_locator es : staged es →
  20 <= len (local_area es ++ directory es) →
  fld 4 (local_area es ++ directory es) (len (local_area es ++ directory es) - 20) ≠ ZIP64_LOC_SIG.
Proof.
  intros (_ & (es' & e & -> & Hname) & _) H20 Hsig.
  set (A := local_area _ ++ directory _) in *.
  assert (∃ X, A = X ++ encode_utf8 SIGNATURE_NAME) as [X HX].
  { unfold A, directory. rewrite centrals_app, concat_app. cbn [centrals concat].
    rewrite app_nil_r, central_record_fields, Hname, !app_assoc. eauto. }
  assert (len A = len X + 17) as HlA by (rewrite HX, len_app; done).
  apply (fld_sub 4 _ _ _ 4) in Hsig; [|done|lia|lia].
  assert (sub A (len A - 20 + 3) (len A - 20 + 4) = [byte_of 7]) as H7.
  { rewrite <-(sub_sub A (len A - 20) (len A - 20 + 4) 3 4) by lia. by rewrite Hsig. }
  replace (len A - 20 + 3) with (len X) in H7 by lia. replace (len A - 20 + 4) with (len X + 1) in H7 by lia.
  rewrite HX, sub_app_r in H7 by lia. replace (len X - len X) with 0 in H7 by lia.
  replace (len X + 1 - len X) with 1 in H7 by lia. done.
Qed.

Lemma write_appx_zip_Ok es : staged es → write_appx_zip es = Ok (appx_zip es).
Proof.
  intros Hst. pose proof (staged_no_locator _ Hst) as Hloc. destruct Hst as (Hes & _ & Hn & Hl & Hd).
  pose proof (len_nonneg (local_area es)). pose proof (len_nonneg (directory es)). pose proof (len_nonneg es).
  unfold write_appx_zip. rewrite write_entries_eq by (done || (rewrite len_nil; done)).
  cbn [app mbind outcome_bind]. change (len (@nil byte)) with 0. fold (local_area es). fold (directory es).
  unfold try_u16, U16_MAX in *. rewrite (proj2 (Z.ltb_lt _ _)) by lia. cbn [mbind option_bind].
  rewrite (proj2 (Z.eqb_neq _ _)) by lia. cbn [ok_or mbind outcome_bind].
  assert (∀ v, 0 <= v < U32_MAX → u32_field v = Ok v) as Hf.
  { intros v Hv. unfold u32_field, try_u32, U32_MAX in *. rewrite (proj2 (Z.ltb_lt _ _)) by lia. cbn [mbind option_bind].
    by rewrite (proj2 (Z.eqb_neq _ _)) by lia. }
  rewrite !Hf by lia. cbn [mbind outcome_bind].
  unfold classic_record, normalize_zip_for_appx_signing. rewrite (app_assoc (local_area es)).
  rewrite parse_classic_tail; [|unfold U16_MAX; lia|lia|lia|by rewrite len_app|done].
  cbn [mbind outcome_bind classic_tail t_central_directory_offset t_central_directory_size zip64_eocd classic
    zip_file_comment eocd_offset]. cbv zeta.
  unfold checked_add64, U32_MAX in *. rewrite (proj2 (Z.ltb_lt _ _)) by lia. cbn [ok_or mbind outcome_bind].
  assert (Forall cd_record (centrals 0 es)) as Hcd by (apply centrals_Forall; [apply central_cd_record|done|done|done]).
  set (C := to_le 4 EOCD_SIG ++ _). rewrite <-app_assoc.
  unfold directory. rewrite normalize_records; [|done|fold (directory es); lia|].
  2:{ rewrite length_centrals, !length_app. fold (directory es). pose proof (records_short _ Hcd) as Hs.
      unfold len in Hs. rewrite length_centrals in Hs. fold (directory es) in Hs. lia. }
  assert (appx_record <$> centrals 0 es = centrals 0 es) as ->.
  { rewrite <-(list_fmap_id (centrals 0 es)) at 2.
    apply list_fmap_ext. intros i r Hr.
    assert (Forall (λ r, appx_record r = r) (centrals 0 es)) as Hall
      by (apply centrals_Forall; [intros e k ??; by apply central_normal|done|done|done]).
    exact (proj1 (Forall_lookup _ _) Hall i r Hr). }
  fold (directory es). cbn [default from_option id mbind outcome_bind n_p n_out n_entries].
  rewrite Z.eqb_refl. cbn [negb bail_if mbind outcome_bind]. change (len (@nil byte)) with 0.
  rewrite app_assoc, take_app_length' by (unfold len; lia).
  change (try_u16 0) with (Some 0). cbn [ok_or mbind outcome_bind].
  unfold appx_zip. f_equal. rewrite <-!app_assoc, (app_nil_r (to_le 2 0)), len_app.
  do 4 f_equal. unfold len. rewrite length_centrals. lia.
Qed.

(** *** What a written package is *)
(** What the constructors of entries guarantee. *)
Definition entry_made (e : AppxZipEntry) : Prop :=
  (e_method e = METHOD_STORED ∨ e_method e = METHOD_DEFLATED) ∧ 0 <= e_crc32 e < U32 ∧ 0 <= e_uncompressed_size e.
Lemma u32_field_Ok n v : u32_field n = Ok v → n < U32_MAX ∧ v = n.
Proof.
  unfold u32_field, try_u32. destruct (n <? U32) eqn:E; cbn; [|done]. destruct (n =? U32_MAX) eqn:E2; cbn; [done|].
  intros [= <-]. zbool. unfold U32_MAX, U32 in *. lia.
Qed.
Lemma write_entries_Ok es out central o c : Forall entry_made es → write_entries es out central = Ok (o, c) →
  Forall entry_fits es ∧ o = out ++ local_area es ∧ c = central ++ concat (centrals (len out) es).
Proof.
  intros Hm. revert out central. induction Hm as [|e es (Hme & Hc & Hu) _ IH]; intros out central; cbn [write_entries].
  { intros [= <- <-]. unfold local_area. cbn. by rewrite !app_nil_r. }
  intros (n & Hn%ok_or_Ok & Hw)%bind_Ok. apply bind_Ok in Hw as (k & [Hk ->]%u32_field_Ok & Hw).
  apply bind_Ok in Hw as (d & [Hd ->]%u32_field_Ok & Hw). apply bind_Ok in Hw as (u & [Hu' ->]%u32_field_Ok & Hw).
  unfold try_u16 in Hn. destruct (byte_len (e_name e) <? U16) eqn:E; [|done]. zbool.
  destruct (IH _ _ Hw) as (Hf & -> & ->). split; [by constructor|]. split.
  - unfold local_area. cbn [fmap list_fmap concat]. by rewrite <-app_assoc.
  - cbn [centrals concat]. by rewrite len_app, <-app_assoc.
Qed.
Lemma write_appx_zip_staged es' e z : Forall entry_made (es' ++ [e]) → e_name e = SIGNATURE_NAME →
  write_appx_zip (es' ++ [e]) = Ok z → staged (es' ++ [e]) ∧ z = appx_zip (es' ++ [e]).
Proof.
  intros Hm He Hw. assert (staged (es' ++ [e])) as Hst.
  { unfold write_appx_zip in Hw. apply bind_Ok in Hw as ([o c] & Ho & Hw).
    apply write_entries_Ok in Ho as (Hf & -> & ->); [|done]. cbn [app] in Hw.
    apply bind_Ok in Hw as (n & Hn%ok_or_Ok & Hw). apply bind_Ok in Hw as (k & [Hk ->]%u32_field_Ok & Hw).
    apply bind_Ok in Hw as (d & [Hd ->]%u32_field_Ok & Hw). split; [done|]. split; [by exists es', e|].
    split; [|by split].
    unfold try_u16 in Hn. destruct (_ <? U16) eqn:E in Hn; [|done]. cbn in Hn. destruct (_ =? U16_MAX) eqn:E2 in Hn; [done|].
    zbool. unfold U16, U16_MAX in *. lia. }
  split; [done|]. rewrite write_appx_zip_Ok in Hw by done. by injection Hw as <-.
Qed.

(** *** Where the records are *)
Definition entry_offset (es : list AppxZipEntry) (i : nat) : Z := len (local_area (take i es)).
Lemma local_area_split es i e : es !! i = Some e →
  local_area es = local_area (take i es) ++ local_record e ++ local_area (drop (S i) es).
Proof.
  intros Hi. rewrite <-(take_drop_middle es i e Hi) at 1.
  unfold local_area. rewrite fmap_app, concat_app. done.
Qed.
Lemma centrals_lookup es i e : es !! i = Some e →
  centrals 0 es !! i = Some (central_record e (entry_offset es i)).
Proof.
  intros Hi. rewrite <-(take_drop_middle es i e Hi) at 1. rewrite centrals_app.
  rewrite lookup_app_r; rewrite length_centrals, length_take_le by (apply lookup_lt_Some in Hi; lia); [|lia].
  rewrite Nat.sub_diag. done.
Qed.
Lemma local_at es i e rest : es !! i = Some e →
  sub (local_area es ++ rest) (entry_offset es i) (entry_offset es i + len (local_record e)) = local_record e.
Proof.
  intros Hi. rewrite (local_area_split _ _ _ Hi), <-!app_assoc. unfold entry_offset.
  rewrite sub_app_r by lia. replace (_ - _) with 0 by lia.
  replace (len (local_area (take i es)) + len (local_record e) - len (local_area (take i es))) with (len (local_record e)) by lia.
  by rewrite sub_app_l, sub_full by lia.
Qed.
Lemma entry_offset_bound es i e : es !! i = Some e →
  0 <= entry_offset es i ∧ entry_offset es i + len (local_record e) <= len (local_area es).
Proof.
  intros Hi. rewrite (local_area_split _ _ _ Hi), !len_app. unfold entry_offset.
  pose proof (len_nonneg (local_area (take i es))). pose proof (len_nonneg (local_area (drop (S i) es))). lia.
Qed.

Lemma appx_zip_parse es : staged es → parse_zip_tail (appx_zip es) = Ok (appx_zip_tail es).
Proof.
  intros (Hes & _ & Hn & Hl & Hd). pose proof (len_nonneg (local_area es)). pose proof (len_nonneg (directory es)).
  pose proof (len_nonneg es). unfold appx_zip, appx_zip_tail, U16_MAX, U32_MAX in *. rewrite app_assoc.
  pose proof (parse_appx_tail (local_area es ++ directory es) [] (len es) (len (directory es)) (len (local_area es))) as Hp.
  rewrite app_nil_r in Hp. change (len (@nil byte)) with 0 in Hp. rewrite len_app in Hp. apply Hp; try lia.
  intros k ? Hk. rewrite len_to_le in Hk. lia.
Qed.
Lemma appx_zip_directory es : staged es →
  validate_central_directory_records (appx_zip es) (appx_zip_tail es) = Ok tt.
Proof.
  intros (Hes & _ & Hn & Hl & Hd). pose proof (len_nonneg (local_area es)). pose proof (len_nonneg (directory es)).
  pose proof (len_nonneg es). unfold U16_MAX, U32_MAX in *.
  unfold validate_central_directory_records. cbn [appx_zip_tail appx_tail zip64_eocd z_number_of_files
    t_central_directory_offset t_central_directory_size]. cbv zeta.
  rewrite (proj2 (Z.ltb_ge _ _)) by lia. cbn [bail_if mbind outcome_bind]. unfold checked_add64.
  rewrite (proj2 (Z.ltb_lt _ _)) by lia. cbn [ok_or mbind outcome_bind].
  assert (Forall valid_record (centrals 0 es)) as Hv
    by (apply centrals_Forall; [apply central_valid|done|done|unfold U32_MAX; done]).
  pose proof (validate_records (local_area es) (centrals 0 es)
    (zip64_end_records (len es) (len (directory es)) (len (local_area es)) (len (local_area es) + len (directory es)) ++ to_le 2 0)
    (S (length (appx_zip es))) 0 Hv) as Hrun.
  fold (directory es) in Hrun. fold (appx_zip es) in Hrun.
  assert (0 + len (centrals 0 es) = len es) as Hc by (unfold len; rewrite length_centrals; lia). rewrite Hc in Hrun.
  rewrite Hrun; [done|lia|]. rewrite length_centrals. pose proof (records_short (centrals 0 es)) as Hs.
  unfold appx_zip. rewrite !length_app. fold (directory es) in Hs. unfold len in Hs. rewrite length_centrals in Hs.
  enough (Z.of_nat (length es) <= Z.of_nat (length (directory es))) by lia. apply Hs.
  eapply Forall_impl; [exact Hv|]. by intros r [? _].
Qed.

(** C26: Writing a package that ends in its signature entry always succeeds.
    The end records are read back with the extent of the directory and the
    number of entries, the directory passes the check, and the offset in the
    record of every entry leads to its local header, name and data. *)
Theorem written_package_reads_back es :
  staged es →
  ∃ z, write_appx_zip es = Ok z ∧ parse_zip_tail z = Ok (appx_zip_tail es) ∧
    validate_central_directory_records z (appx_zip_tail es) = Ok tt ∧
    sub z (t_central_directory_offset (appx_zip_tail es))
      (t_central_directory_offset (appx_zip_tail es) + t_central_directory_size (appx_zip_tail es))
      = concat (centrals 0 es) ∧
    ∀ i e, es !! i = Some e → ∃ r, centrals 0 es !! i = Some r ∧
      sub z (fld 4 r 42) (fld 4 r 42 + len (local_record e)) = local_record e.
Proof.
  intros Hst. exists (appx_zip es). split; [by apply write_appx_zip_Ok|].
  split; [by apply appx_zip_parse|]. split; [by apply appx_zip_directory|].
  destruct Hst as (Hes & _ & Hn & Hl & Hd). split.
  - cbn [appx_zip_tail appx_tail t_central_directory_offset t_central_directory_size]. unfold appx_zip.
    rewrite sub_app_r by lia. replace (_ - _) with 0 by lia.
    replace (len (local_area es) + len (directory es) - len (local_area es)) with (len (directory es)) by lia.
    by rewrite sub_app_l, sub_full by lia.
  - intros i e Hi. exists (central_record e (entry_offset es i)). split; [by apply centrals_lookup|].
    pose proof (entry_offset_bound _ _ _ Hi). pose proof (len_nonneg (local_record e)). unfold U32_MAX in *.
    rewrite (central_fld e _ 16 4 4 (entry_offset es i) 42 eq_refl eq_refl eq_refl) by (cbn; lia).
    by apply local_at.
Qed.
Definition toy_entries : list AppxZipEntry :=
  [mk_entry (chars "AppxManifest.xml") 8 7 3 (lit "ab") None;
   mk_entry SIGNATURE_NAME 0 9 4 (lit "PKCX") None].
Lemma toy_staged : staged toy_entries.
Proof.
  split; [|split; [by exists [mk_entry (chars "AppxManifest.xml") 8 7 3 (lit "ab") None],
    (mk_entry SIGNATURE_NAME 0 9 4 (lit "PKCX") None)|by vm_compute]].
  apply Forall_cons_2; [|apply Forall_cons_2; [|constructor]]; unfold entry_fits.
  - split; [by right|by vm_compute].
  - split; [by left|by vm_compute].
Qed.
Lemma written_package_reads_back_witness :
  staged toy_entries ∧
  ∃ z, write_appx_zip toy_entries = Ok z ∧ parse_zip_tail z = Ok (appx_zip_tail toy_entries) ∧
    validate_central_directory_records z (appx_zip_tail toy_entries) = Ok tt ∧
    sub z (t_central_directory_offset (appx_zip_tail toy_entries))
      (t_central_directory_offset (appx_zip_tail toy_entries) + t_central_directory_size (appx_zip_tail toy_entries))
      = concat (centrals 0 toy_entries) ∧
    ∀ i e, toy_entries !! i = Some e → ∃ r, centrals 0 toy_entries !! i = Some r ∧
      sub z (fld 4 r 42) (fld 4 r 42 + len (local_record e)) = local_record e.
Proof.
  split; [exact toy_staged|exact (written_package_reads_back toy_entries toy_staged)].
Defined.
