(* ===== verification/DerWire.v ===== *)
(** PKCS#7 wire normalisation: [crates/psign-sip-digest/src/pkcs7_wire.rs].

    Definite-length DER on raw byte ranges: the encoder, the TLV reader, the
    removal of duplicate certificates from a [SignedData] and the
    normalisation that every verifier of a detached PKCS#7 blob runs first. *)

From S2P Require Import Prelude.


(** OID 1.2.840.113549.1.7.2, [signedData], as a DER [OBJECT IDENTIFIER]. *)
Definition PKCS7_SIGNED_DATA_OID_DER : bytes :=
  byte_of <$> [0x06; 0x09; 0x2A; 0x86; 0x48; 0x86; 0xF7; 0x0D; 0x01; 0x07; 0x02].

(** The [while n > 0] loop that pushes the octets of [n], least significant
    first; a [usize] has at most eight. *)
Fixpoint length_octets (fuel : nat) (n : Z) : list Z :=
  match fuel with
  | O => []
  | S fuel' => if n =? 0 then [] else Z.land n 0xff :: length_octets fuel' (Z.shiftr n 8)
  end.

Definition der_encode_definite_length (n : Z) : bytes :=
  if n <? 0x80 then [byte_of n] else
  let stack := rev (length_octets 8 n) in
  byte_of (Z.lor 0x80 (len stack)) :: (byte_of <$> stack).

Definition der_encode_tlv (tag : byte) (content : bytes) : bytes :=
  tag :: der_encode_definite_length (len content) ++ content.

Record DerTlv := mk_DerTlv {
  tlv_tag : byte; tag_start : Z; value_start : Z; value_end : Z }.
Definition tlv_end (t : DerTlv) : Z := value_end t.

(** [None] where the code returns [None]; [bytes[1 + i]] is in range below the
    guard. *)
Definition parse_der_definite_length (bs : bytes) : option (Z * Z) :=
  first ← get_at bs 0;
  if Z.land (u8 first) 0x80 =? 0 then Some (u8 first, 1) else
  let n_octets := Z.land (u8 first) 0x7f in
  if (n_octets =? 0) || (n_octets >? 4) || (len bs <? 1 + n_octets) then None else
  Some (fold_left (λ l b, Z.lor (Z.shiftl l 8) (u8 b)) (sub bs 1 (1 + n_octets)) 0,
        1 + n_octets).

Definition tlv_outer_sequence_payload (data : bytes) : option bytes :=
  first ← get_at data 0;
  if negb (u8 first =? 0x30) then None else
  '(n, hdr) ← parse_der_definite_length (sub data 1 (len data));
  let total := 1 + hdr + n in
  if len data <? total then None else Some (sub data (1 + hdr) total).

Definition pkcs7_content_info_signed_data (signed_data_der : bytes) : bytes :=
  let explicit :=
    byte_of 0xA0 :: der_encode_definite_length (len signed_data_der) ++ signed_data_der in
  let inner_len := len PKCS7_SIGNED_DATA_OID_DER + len explicit in
  byte_of 0x30 :: der_encode_definite_length inner_len
    ++ PKCS7_SIGNED_DATA_OID_DER ++ explicit.

Definition der_tlv_at (data : bytes) (offset limit : Z) : option DerTlv :=
  if (limit <=? offset) || (len data <? limit) then None else
  tag ← get_at data offset;
  rest ← get_range data (offset + 1) limit;
  '(n, hdr) ← parse_der_definite_length rest;
  let vs := offset + 1 + hdr in
  ve ← checked_add64 vs n;
  if limit <? ve then None else Some (mk_DerTlv tag offset vs ve).

(** One round of [while offset < end]: the loop's variables are [out] and
    [offset]. *)
Definition der_tlv_children_step (data : bytes) (end_ : Z)
    (s : list DerTlv * Z) : (list DerTlv * Z) + option (list DerTlv) :=
  let '(out, offset) := s in
  if offset <? end_ then
    match der_tlv_at data offset end_ with
    | None => inr None
    | Some t => inl (out ++ [t], tlv_end t)
    end
  else inr (if offset =? end_ then Some out else None).

(** Every round advances by at least two bytes, so [len data + 1] rounds are
    enough ([children_terminates]). *)
Definition der_tlv_children (data : bytes) (start end_ : Z) : option (list DerTlv) :=
  default None (loop (der_tlv_children_step data end_) (S (length data)) ([], start)).

Definition tlv_bytes (data : bytes) (t : DerTlv) : bytes := sub data (tag_start t) (tlv_end t).

Definition replace_child_tlv (parent child : DerTlv) (replacement data : bytes) : bytes :=
  der_encode_tlv (tlv_tag parent)
    (sub data (value_start parent) (tag_start child) ++ replacement
     ++ sub data (tlv_end child) (value_end parent)).

(** The loop over the certificate set: [unique] keeps the encodings seen,
    [cert_content] the bytes kept, [removed] whether one was dropped. *)
Definition dedupe_step (data : bytes) (acc : list bytes * bytes * bool) (child : DerTlv)
    : list bytes * bytes * bool :=
  let '(unique, cert_content, removed) := acc in
  let encoded := tlv_bytes data child in
  if bool_decide (encoded ∈ unique) then (unique, cert_content, true)
  else (unique ++ [encoded], cert_content ++ encoded, removed).

Definition dedupe_signed_data_certificate_set (ci : bytes) : option bytes :=
  outer ← der_tlv_at ci 0 (len ci);
  if negb (u8 (tlv_tag outer) =? 0x30) then None else
  outer_children ← der_tlv_children ci (value_start outer) (value_end outer);
  content_type ← outer_children !! 0%nat;
  if negb (bool_decide (tlv_bytes ci content_type = PKCS7_SIGNED_DATA_OID_DER)) then None else
  explicit ← outer_children !! 1%nat;
  if negb (u8 (tlv_tag explicit) =? 0xa0) then None else
  explicit_children ← der_tlv_children ci (value_start explicit) (value_end explicit);
  signed_data ← explicit_children !! 0%nat;
  if negb (u8 (tlv_tag signed_data) =? 0x30) then None else
  signed_children ← der_tlv_children ci (value_start signed_data) (value_end signed_data);
  certificates ← find (λ c, u8 (tlv_tag c) =? 0xa0) (drop 3 signed_children);
  certificate_children ←
    der_tlv_children ci (value_start certificates) (value_end certificates);
  let '(_, cert_content, removed_duplicate) :=
    fold_left (dedupe_step ci) certificate_children ([], [], false) in
  if negb removed_duplicate then None else
  let certificates_deduped := der_encode_tlv (tlv_tag certificates) cert_content in
  let signed_data_deduped :=
    replace_child_tlv signed_data certificates certificates_deduped ci in
  let explicit_deduped := replace_child_tlv explicit signed_data signed_data_deduped ci in
  Some (replace_child_tlv outer explicit explicit_deduped ci).

Definition der_tlv_total_len_from_start (data : bytes) : option Z :=
  first ← get_at data 0;
  if negb (u8 first =? 0x30) then None else
  '(content_len, hdr) ← parse_der_definite_length (sub data 1 (len data));
  Some (1 + hdr + content_len).

Definition pkcs7_outer_sequence_prefix (data : bytes) : option bytes :=
  n ← der_tlv_total_len_from_start data;
  get_range data 0 n.

Definition strip_pkcx_p7x_wrapper (data : bytes) : option bytes :=
  if bool_decide (sub data 0 4 = lit "PKCX") then Some (sub data 4 (len data)) else None.

Definition normalize_pkcs7_der_for_authenticode (sig_blob0 : bytes) : bytes :=
  let sig_blob := default sig_blob0 (strip_pkcx_p7x_wrapper sig_blob0) in
  match tlv_outer_sequence_payload sig_blob with
  | None => sig_blob
  | Some inner =>
      let normalized :=
        match u8 <$> get_at inner 0 with
        | Some 0x06 => sig_blob
        | Some 0x02 => pkcs7_content_info_signed_data sig_blob
        | _ => sig_blob
        end in
      default normalized (dedupe_signed_data_certificate_set normalized)
  end.

(** ** The definite-length codec *)

Lemma octets_value fuel n :
  0 <= n < 256 ^ Z.of_nat fuel →
  fold_left (λ l b, Z.lor (Z.shiftl l 8) b) (rev (length_octets fuel n)) 0 = n.
Proof.
  revert n. induction fuel as [|fuel IH]; intros n Hn; [cbn in *; lia|].
  cbn [length_octets]. destruct (n =? 0) eqn:E; zbool; [by subst|].
  cbn [rev]. rewrite fold_left_app. cbn [fold_left].
  rewrite land_255, shiftr_8 in *.
  rewrite Nat2Z.inj_succ, Z.pow_succ_r in Hn by lia.
  rewrite IH by (split; [lia|apply Z.div_lt_upper_bound; lia]).
  rewrite lor_shiftl_8 by (apply Z.mod_pos_bound; lia). lia.
Qed.

Lemma octets_bytes fuel n : Forall (λ b, 0 <= b < 256) (length_octets fuel n).
Proof.
  revert n. induction fuel as [|fuel IH]; intros n; cbn [length_octets]; [done|].
  destruct (n =? 0); [done|]. constructor; [|done].
  rewrite land_255. apply Z.mod_pos_bound; lia.
Qed.

Lemma octets_length fuel k n :
  0 <= n → n < 256 ^ Z.of_nat k → (length (length_octets fuel n) <= k)%nat.
Proof.
  revert k n. induction fuel as [|fuel IH]; intros k n ? Hk; cbn [length_octets]; [cbn; lia|].
  destruct (n =? 0) eqn:E; zbool; [cbn; lia|].
  destruct k as [|k]; [cbn in Hk; lia|]. cbn [length].
  rewrite Nat2Z.inj_succ, Z.pow_succ_r in Hk by lia. rewrite shiftr_8.
  specialize (IH k (n / 256)). apply le_n_S, IH; [lia|].
  apply Z.div_lt_upper_bound; lia.
Qed.

Lemma octets_nonempty fuel n : 0 < n → (0 < fuel)%nat → (0 < length (length_octets fuel n))%nat.
Proof.
  intros. destruct fuel; cbn [length_octets]; [lia|].
  destruct (n =? 0) eqn:E; zbool; cbn; lia.
Qed.

(** A length with [k] octets or fewer is below [256 ^ k]. *)
Lemma octets_length_lower fuel k n :
  0 <= n < 256 ^ Z.of_nat fuel → (length (length_octets fuel n) <= k)%nat →
  n < 256 ^ Z.of_nat k.
Proof.
  revert k n. induction fuel as [|fuel IH]; intros k n Hn; [cbn in *; lia|].
  cbn [length_octets]. destruct (n =? 0) eqn:E; zbool; [subst; lia|].
  destruct k as [|k]; cbn [length]; [lia|]. intros Hk.
  rewrite Nat2Z.inj_succ, Z.pow_succ_r in * by lia. rewrite shiftr_8 in *.
  assert (n / 256 < 256 ^ Z.of_nat k); [|lia].
  apply IH; [|lia]. split; [lia|apply Z.div_lt_upper_bound; lia].
Qed.

Lemma u8_byte_of_list l : Forall (λ b, 0 <= b < 256) l → u8 <$> (byte_of <$> l) = l.
Proof.
  induction 1 as [|b l ? _ IH]; [done|]. cbn. rewrite u8_of, Z.mod_small by done.
  by f_equal.
Qed.

Lemma fold_u8 (bs : bytes) a :
  fold_left (λ l b, Z.lor (Z.shiftl l 8) (u8 b)) bs a =
  fold_left (λ l b, Z.lor (Z.shiftl l 8) b) (u8 <$> bs) a.
Proof. revert a. induction bs as [|b bs IH]; intros; [done|]. cbn. by rewrite IH. Qed.

(** The first octet: below 0x80 it is the length, from 0x81 on the low seven
    bits count the octets that follow. *)
Lemma long_form_octet k : 0 < k < 128 →
  u8 (byte_of (Z.lor 0x80 k)) = 0x80 + k ∧
  Z.land (0x80 + k) 0x80 = 0x80 ∧ Z.land (0x80 + k) 0x7f = k.
Proof.
  intros Hk.
  assert ((u8 (byte_of (Z.lor 0x80 k)) =? 0x80 + k)
          && (Z.land (0x80 + k) 0x80 =? 0x80) && (Z.land (0x80 + k) 0x7f =? k) = true) as H.
  { revert k Hk. refine (λ k Hk, forall_range (λ k, _ && _ && _) 1 127 _ k _); [done|lia]. }
  by zbool.
Qed.

Lemma short_form_octet n : 0 <= n < 0x80 → Z.land n 0x80 = 0.
Proof.
  intros Hn. apply Z.eqb_eq.
  refine (forall_range (λ n, Z.land n 0x80 =? 0) 0 128 _ n _); [done|lia].
Qed.

Lemma sub_long_form x (l rest : bytes) : sub (x :: l ++ rest) 1 (1 + len l) = l.
Proof.
  change (x :: l ++ rest) with ([x] ++ l ++ rest).
  rewrite sub_app_r by (unfold len; cbn; lia). change (len [x]) with 1.
  rewrite sub_app_l by lia. trans (sub l 0 (len l)); [f_equal; lia|apply sub_full].
Qed.

Lemma get_at_0 (x : byte) l : get_at (x :: l) 0 = Some x.
Proof. rewrite get_at_lookup; done. Qed.

Lemma parse_encoded_length n rest :
  0 <= n < U32 →
  parse_der_definite_length (der_encode_definite_length n ++ rest)
  = Some (n, len (der_encode_definite_length n)).
Proof.
  intros Hn. unfold der_encode_definite_length, parse_der_definite_length.
  destruct (n <? 0x80) eqn:E; zbool; cbn [app].
  - rewrite get_at_0. cbn [mbind option_bind]. rewrite u8_of, Z.mod_small by lia.
    by rewrite short_form_octet by lia.
  - set (st := rev (length_octets 8 n)).
    assert (len st = Z.of_nat (length (length_octets 8 n))) as Hst.
    { unfold st, len. by rewrite length_rev. }
    pose proof (octets_length 8 4 n ltac:(lia) ltac:(lia)).
    pose proof (octets_nonempty 8 n ltac:(lia) ltac:(lia)).
    destruct (long_form_octet (len st)) as (H1 & H2 & H3); [lia|].
    rewrite get_at_0. cbn [mbind option_bind]. rewrite H1, H2, H3. change (0x80 =? 0) with false.
    assert (len (byte_of <$> st) = len st) as Hl by (unfold len; by rewrite length_fmap).
    replace (_ || _ || _) with false.
    + cbn iota. rewrite <-Hl, sub_long_form, Hl, len_cons, Hl. do 2 f_equal.
      rewrite fold_u8, u8_byte_of_list; [apply octets_value; lia|].
      apply Forall_rev, octets_bytes.
    + pose proof (len_nonneg rest). symmetry. rewrite !orb_false_iff. repeat split.
      * apply Z.eqb_neq. lia.
      * rewrite Z.gtb_ltb. apply Z.ltb_ge. lia.
      * apply Z.ltb_ge. rewrite len_cons, len_app, Hl. lia.
Qed.

(** The encoder writes five or more octets from 2^32 on, which the parser
    refuses. *)
Lemma parse_encoded_length_overflow n rest :
  U32 <= n < U64 →
  parse_der_definite_length (der_encode_definite_length n ++ rest) = None.
Proof.
  intros Hn. unfold der_encode_definite_length, parse_der_definite_length.
  rewrite (proj2 (Z.ltb_ge n 0x80)) by lia. cbn [app].
  set (st := rev (length_octets 8 n)).
  assert (len st = Z.of_nat (length (length_octets 8 n))) as Hst.
  { unfold st, len. by rewrite length_rev. }
  pose proof (octets_length 8 8 n ltac:(lia) ltac:(lia)).
  assert (¬ (length (length_octets 8 n) <= 4)%nat) as Hlow.
  { intros Hle. pose proof (octets_length_lower 8 4 n ltac:(lia) Hle). lia. }
  destruct (long_form_octet (len st)) as (H1 & H2 & H3); [lia|].
  rewrite get_at_0. cbn [mbind option_bind]. rewrite H1, H2, H3.
  change (0x80 =? 0) with false. cbn iota.
  rewrite Z.gtb_ltb, (proj2 (Z.ltb_lt 4 _)) by lia. by rewrite orb_true_r.
Qed.

Lemma len_definite_length n : 0 <= n → 1 <= len (der_encode_definite_length n) <= 9.
Proof.
  intros. unfold der_encode_definite_length. destruct (n <? 0x80); [unfold len; cbn; lia|].
  rewrite len_cons. unfold len. rewrite length_fmap, length_rev.
  enough (length (length_octets 8 n) <= 8)%nat by lia.
  clear. generalize 8%nat as f. intros f. revert n.
  induction f as [|f IH]; intros n; cbn [length_octets]; [cbn; lia|].
  destruct (n =? 0); cbn [length]; [lia|]. specialize (IH (Z.shiftr n 8)). lia.
Qed.

(** ** TLVs and their layout *)

(** A node to encode: a tag and its content. *)
Definition node : Type := byte * bytes.
Definition enc (t : node) : bytes := der_encode_tlv t.1 t.2.
Definition encs (ts : list node) : bytes := concat (enc <$> ts).
Definition header_len (t : node) : Z := 1 + len (der_encode_definite_length (len t.2)).
Definition small (t : node) : Prop := len t.2 < U32.

(** Where the TLVs of [encs ts] lie when the first starts at [off]. *)
Fixpoint layout (off : Z) (ts : list node) : list DerTlv :=
  match ts with
  | [] => []
  | t :: ts' =>
      mk_DerTlv t.1 off (off + header_len t) (off + len (enc t)) :: layout (off + len (enc t)) ts'
  end.

Lemma len_enc t : len (enc t) = header_len t + len t.2.
Proof. unfold enc, der_encode_tlv, header_len. slen. lia. Qed.
Lemma header_len_pos t : 2 <= header_len t <= 10.
Proof.
  unfold header_len. pose proof (len_definite_length (len t.2) (len_nonneg _)). lia.
Qed.
Lemma len_enc_pos t : 2 <= len (enc t).
Proof. rewrite len_enc. pose proof (header_len_pos t). pose proof (len_nonneg t.2). lia. Qed.
Lemma enc_parts t : enc t = t.1 :: der_encode_definite_length (len t.2) ++ t.2.
Proof. done. Qed.

Lemma get_at_middle (pre : bytes) x post i :
  i = len pre → get_at (pre ++ x :: post) i = Some x.
Proof.
  intros ->. rewrite get_at_lookup by apply len_nonneg.
  rewrite lookup_app_r by (unfold len; lia). unfold len.
  by replace (Z.to_nat _ - length pre)%nat with 0%nat by lia.
Qed.

(** Reading a TLV where one was written. *)
Lemma der_tlv_at_enc pre t post off limit :
  small t → off = len pre → off + len (enc t) <= limit →
  limit <= len (pre ++ enc t ++ post) → limit < U64 →
  der_tlv_at (pre ++ enc t ++ post) off limit
  = Some (mk_DerTlv t.1 off (off + header_len t) (off + len (enc t))).
Proof.
  intros Hs -> Hlo Hhi Hu. pose proof (len_enc_pos t). unfold der_tlv_at.
  pose proof (len_nonneg pre).
  rewrite (proj2 (Z.leb_gt limit _)), (proj2 (Z.ltb_ge (len _) limit)) by lia. cbn [orb].
  assert (get_at (pre ++ enc t ++ post) (len pre) = Some t.1) as ->.
  { rewrite enc_parts. by apply get_at_middle. }
  cbn [mbind option_bind].
  rewrite get_range_in by lia. cbn [mbind option_bind].
  assert (∃ tail, sub (pre ++ enc t ++ post) (len pre + 1) limit
                  = der_encode_definite_length (len t.2) ++ tail) as [tail ->].
  { rewrite (sub_split _ _ (len pre + header_len t)).
    - rewrite enc_parts. eexists. f_equal.
      replace (pre ++ (t.1 :: der_encode_definite_length (len t.2) ++ t.2) ++ post)
        with ((pre ++ [t.1]) ++ der_encode_definite_length (len t.2) ++ (t.2 ++ post))
        by (rewrite <-!app_assoc; cbn; by rewrite <-app_assoc).
      apply sub_middle; unfold header_len; slen; lia.
    - lia.
    - pose proof (header_len_pos t); lia.
    - rewrite len_enc in Hlo. pose proof (len_nonneg t.2). lia. }
  rewrite parse_encoded_length by (unfold small in Hs; pose proof (len_nonneg t.2); lia).
  cbn [mbind option_bind]. rewrite len_enc in *. unfold header_len in *.
  unfold checked_add64.
  rewrite (proj2 (Z.ltb_lt _ U64)) by lia. cbn [mbind option_bind].
  rewrite (proj2 (Z.ltb_ge limit _)) by lia. do 2 f_equal; lia.
Qed.

#[global] Arguments encs : simpl never.
#[global] Arguments enc : simpl never.

Lemma encs_cons t ts : encs (t :: ts) = enc t ++ encs ts.
Proof. done. Qed.
Lemma encs_app ts us : encs (ts ++ us) = encs ts ++ encs us.
Proof. unfold encs. by rewrite fmap_app, concat_app. Qed.

Lemma children_loop pre ts post out fuel off end_ :
  Forall small ts → off = len pre → end_ = off + len (encs ts) → end_ < U64 →
  (length ts < fuel)%nat →
  loop (der_tlv_children_step (pre ++ encs ts ++ post) end_) fuel (out, off)
  = Some (Some (out ++ layout off ts)).
Proof.
  intros Hs. revert pre out fuel off. induction Hs as [|t ts Ht _ IH];
    intros pre out fuel off -> -> Hu Hf; (destruct fuel as [|fuel]; [cbn in Hf; lia|]).
  - cbn. rewrite Z.add_0_r, Z.ltb_irrefl, Z.eqb_refl. by rewrite app_nil_r.
  - rewrite encs_cons, len_app in *. pose proof (len_enc_pos t).
    pose proof (len_nonneg (encs ts)). cbn [loop der_tlv_children_step].
    rewrite (proj2 (Z.ltb_lt _ _)) by lia. rewrite <-app_assoc.
    rewrite der_tlv_at_enc; [|done|done|lia|slen; pose proof (len_nonneg post); lia|lia].
    cbn [tlv_end value_end layout]. rewrite (app_assoc pre).
    rewrite (IH (pre ++ enc t)); [|slen; lia|lia|lia|cbn in Hf; lia].
    rewrite <-app_assoc. done.
Qed.

Lemma length_encs ts : Z.of_nat (length ts) <= len (encs ts).
Proof.
  induction ts as [|t ts IH]; [done|]. rewrite encs_cons, len_app. cbn [length].
  pose proof (len_enc_pos t). lia.
Qed.

(** Parsing the children of a constructed value gives back the encoded nodes. *)
Lemma der_tlv_children_encs pre ts post off end_ :
  Forall small ts → off = len pre → end_ = off + len (encs ts) → end_ < U64 →
  der_tlv_children (pre ++ encs ts ++ post) off end_ = Some (layout off ts).
Proof.
  intros. unfold der_tlv_children. rewrite children_loop; try done.
  pose proof (length_encs ts). unfold len in *. rewrite !length_app. lia.
Qed.

(** ** What the reader guarantees on any input *)

Lemma fold_octets_range (bs : bytes) a :
  0 <= a →
  0 <= fold_left (λ l b, Z.lor (Z.shiftl l 8) (u8 b)) bs a < (a + 1) * 256 ^ len bs.
Proof.
  revert a. induction bs as [|b bs IH]; intros a Ha; cbn [fold_left].
  - change (len []) with 0. lia.
  - rewrite len_cons, Z.pow_add_r by (pose proof (len_nonneg bs); lia).
    pose proof (u8_range b). rewrite lor_shiftl_8 by lia.
    specialize (IH (a * 256 + u8 b) ltac:(lia)).
    assert (0 < 256 ^ len bs) by (apply Z.pow_pos_nonneg; [lia|apply len_nonneg]). nia.
Qed.

Lemma parse_range bs n h :
  parse_der_definite_length bs = Some (n, h) → 0 <= n < U32 ∧ 1 <= h <= 5 ∧ h <= len bs.
Proof.
  unfold parse_der_definite_length. destruct (get_at bs 0) as [x|] eqn:E0; [|done].
  cbn [mbind option_bind]. pose proof (u8_range x).
  assert (1 <= len bs).
  { unfold get_at in E0. destruct ((0 <=? 0) && (0 <? len bs)) eqn:E; [zbool; lia|done]. }
  destruct (Z.land (u8 x) 0x80 =? 0); [intros [= <- <-]; lia|].
  set (k := Z.land (u8 x) 0x7f).
  assert (0 <= k) by (apply Z.land_nonneg; lia).
  destruct ((k =? 0) || (k >? 4) || (len bs <? 1 + k)) eqn:Eg; [done|].
  zbool. rewrite Z.gtb_ltb in *. zbool. intros [= <- <-].
  pose proof (fold_octets_range (sub bs 1 (1 + k)) 0 ltac:(lia)) as Hr.
  rewrite len_sub in Hr by lia. split; [|lia].
  assert (256 ^ (1 + k - 1) <= 256 ^ 4) by (apply Z.pow_le_mono_r; lia). lia.
Qed.

Lemma der_tlv_at_range data off limit t :
  0 <= off → der_tlv_at data off limit = Some t →
  tag_start t = off ∧ off + 2 <= value_start t ∧ value_start t <= value_end t ∧
  value_end t <= limit ∧ limit <= len data.
Proof.
  intros Hoff. unfold der_tlv_at.
  destruct ((limit <=? off) || (len data <? limit)) eqn:Eg; [done|]. zbool.
  destruct (get_at data off) as [tag|]; [|done]. cbn [mbind option_bind].
  destruct (get_range data (off + 1) limit) as [rest|]; [|done]. cbn [mbind option_bind].
  destruct (parse_der_definite_length rest) as [[n h]|] eqn:Ep; [|done].
  apply parse_range in Ep. cbn [mbind option_bind]. unfold checked_add64.
  destruct (_ <? U64); [|done]. cbn [mbind option_bind].
  destruct (limit <? off + 1 + h + n) eqn:El; [done|]. zbool. intros [= <-]. cbn. lia.
Qed.

(** The children loop always returns within its fuel. *)
Lemma children_terminates data end_ out start :
  0 <= start → is_Some (loop (der_tlv_children_step data end_) (S (length data)) (out, start)).
Proof.
  intros Hs.
  apply (loop_total _ (λ s, 0 <= s.2) (λ s, if s.2 <? end_ then
           (if end_ <=? len data then len data - s.2 else 0) else 0)).
  - intros [o off] s' Hoff Hstep. cbn in *. destruct (off <? end_) eqn:E; [|done].
    destruct (der_tlv_at data off end_) as [t|] eqn:Et; [|done]. injection Hstep as <-.
    apply der_tlv_at_range in Et as (? & ? & ? & ? & ?); [|done]. cbn. unfold tlv_end.
    rewrite (proj2 (Z.leb_le _ _)) by lia. zbool.
    split; [lia|]. destruct (value_end t <? end_) eqn:E'; zbool; lia.
  - cbn. lia.
  - cbn. pose proof (len_nonneg data). unfold len in *.
    destruct (start <? end_); [destruct (end_ <=? _)|]; lia.
  - cbn. destruct (start <? end_) eqn:E; [destruct (end_ <=? len data) eqn:E'|]; zbool; lia.
Qed.

(** Consecutive TLVs that start at [s] and end at [e]. *)
Fixpoint tiles (s e : Z) (ts : list DerTlv) : Prop :=
  match ts with
  | [] => s = e
  | t :: ts' => tag_start t = s ∧ s + 2 <= value_start t ∧ value_start t <= value_end t ∧
                tiles (value_end t) e ts'
  end.

Lemma tiles_snoc s m e ts t :
  tiles s m ts → tag_start t = m → m + 2 <= value_start t →
  value_start t <= value_end t → value_end t = e → tiles s e (ts ++ [t]).
Proof.
  revert s. induction ts as [|u ts IH]; intros s; cbn; [intros; subst; auto|].
  intros (? & ? & ? & ?) ????. auto.
Qed.

Lemma tiles_le s e ts : tiles s e ts → s <= e.
Proof.
  revert s. induction ts as [|u ts IH]; intros s; cbn; [lia|].
  intros (? & ? & ? & H%IH). lia.
Qed.

Lemma tiles_bytes data s e ts :
  0 <= s → tiles s e ts → concat (tlv_bytes data <$> ts) = sub data s e.
Proof.
  revert s. induction ts as [|t ts IH]; intros s Hs; cbn.
  - intros ->. by rewrite sub_nil_range by lia.
  - intros (<- & ? & ? & Ht). rewrite (IH (value_end t) ltac:(lia) Ht). pose proof (tiles_le _ _ _ Ht).
    unfold tlv_bytes, tlv_end. by rewrite <-sub_split by lia.
Qed.

Lemma children_tile data start end_ ts :
  0 <= start → der_tlv_children data start end_ = Some ts → tiles start end_ ts.
Proof.
  intros Hs. unfold der_tlv_children.
  destruct (children_terminates data end_ [] start Hs) as [r Hr]. rewrite Hr. cbn. intros ->.
  revert Hr. pattern (Some ts : option (list DerTlv)).
  refine (λ H, loop_inv _ (λ s, 0 <= s.2 ∧ tiles start s.2 s.1)
            (λ r, ∀ ts, r = Some ts → tiles start end_ ts) _ _ _ _ _ _ H _ eq_refl); cbn.
  - intros [out off] s' [H1 H2]. cbn in *. destruct (off <? end_) eqn:E; [|done].
    destruct (der_tlv_at data off end_) as [t|] eqn:Et; [|done]. intros [= <-].
    apply der_tlv_at_range in Et as (? & ? & ? & ? & ?); [|done]. cbn. unfold tlv_end.
    split; [lia|]. by eapply tiles_snoc.
  - intros [out off] r' [H1 H2]. cbn in *. destruct (off <? end_) eqn:E.
    + by destruct (der_tlv_at data off end_) as [t|]; intros [= <-].
    + destruct (off =? end_) eqn:E'; intros [= <-] ts'; [|done].
      intros [= <-]. zbool. by subst.
  - done.
Qed.

(** ** The abstract specification of normalisation

    A signed message: the children of [SignedData] before the certificate set,
    the certificates, and the children after it. *)
Record signed_message := mk_sm {
  sm_head : list node; sm_certs : list node; sm_tail : list node }.

Definition A0 : byte := byte_of 0xA0.
Definition SEQ : byte := byte_of 0x30.
Definition OID_node : node := (byte_of 0x06, drop 2 PKCS7_SIGNED_DATA_OID_DER).
Definition certs_node (m : signed_message) : node := (A0, encs (sm_certs m)).
Definition sm_nodes (m : signed_message) : list node :=
  sm_head m ++ certs_node m :: sm_tail m.
(** The bare [SignedData], and the [ContentInfo] around it. *)
Definition signed_node (m : signed_message) : node := (SEQ, encs (sm_nodes m)).
Definition explicit_node (m : signed_message) : node := (A0, encs [signed_node m]).
Definition outer_node (m : signed_message) : node := (SEQ, encs [OID_node; explicit_node m]).
Definition signed_data_der (m : signed_message) : bytes := enc (signed_node m).
Definition content_info (m : signed_message) : bytes := enc (outer_node m).

(** [SignedData] starts with version, digest algorithms and content info, so
    the certificate set is the first [0xA0] child from the fourth on. *)
Definition sm_wf (m : signed_message) : Prop :=
  (3 <= length (sm_head m))%nat ∧
  Forall (λ t : node, t.1 ≠ A0) (drop 3 (sm_head m)) ∧
  len (content_info m) < U32.

(** Keep the first of every group of equal encodings. *)
Fixpoint first_occurrences (seen : list bytes) (ts : list node) : list node :=
  match ts with
  | [] => []
  | t :: ts' =>
      if bool_decide (enc t ∈ seen) then first_occurrences seen ts'
      else t :: first_occurrences (seen ++ [enc t]) ts'
  end.
Definition unique_certs (m : signed_message) : signed_message :=
  mk_sm (sm_head m) (first_occurrences [] (sm_certs m)) (sm_tail m).
Definition has_duplicates (m : signed_message) : bool :=
  bool_decide (length (first_occurrences [] (sm_certs m)) ≠ length (sm_certs m)).

Lemma first_occurrences_length seen ts :
  (length (first_occurrences seen ts) <= length ts)%nat.
Proof.
  revert seen. induction ts as [|t ts IH]; intros seen; cbn; [done|].
  case_bool_decide; cbn; [specialize (IH seen)|specialize (IH (seen ++ [enc t]))]; lia.
Qed.
Lemma first_occurrences_all seen ts :
  length (first_occurrences seen ts) = length ts → first_occurrences seen ts = ts.
Proof.
  revert seen. induction ts as [|t ts IH]; intros seen; cbn; [done|].
  case_bool_decide; cbn; intros H1.
  - pose proof (first_occurrences_length seen ts). lia.
  - f_equal. apply IH. lia.
Qed.
Lemma first_occurrences_NoDup seen ts :
  NoDup seen → NoDup (seen ++ (enc <$> first_occurrences seen ts)).
Proof.
  revert seen. induction ts as [|t ts IH]; intros seen Hs; cbn; [by rewrite app_nil_r|].
  case_bool_decide as Hin; [by apply IH|]. cbn. rewrite cons_middle, app_assoc. apply IH.
  apply NoDup_app. split; [done|]. split; [|by apply NoDup_singleton].
  intros x Hx ->%list_elem_of_singleton. done.
Qed.
Lemma first_occurrences_fixed seen ts :
  NoDup (seen ++ (enc <$> ts)) → first_occurrences seen ts = ts.
Proof.
  revert seen. induction ts as [|t ts IH]; intros seen H; cbn; [done|].
  cbn in H. rewrite cons_middle, app_assoc in H.
  rewrite bool_decide_eq_false_2; [by rewrite IH|].
  apply NoDup_app in H as [H _]. apply NoDup_app in H as (_ & H & _).
  intros Hin. apply (H _ Hin). by apply list_elem_of_singleton.
Qed.

(** The fold of the code over the parsed children computes it. *)
Lemma dedupe_fold data ts tlvs u cc r :
  tlv_bytes data <$> tlvs = enc <$> ts →
  fold_left (dedupe_step data) tlvs (u, cc, r) =
  (u ++ (enc <$> first_occurrences u ts), cc ++ encs (first_occurrences u ts),
   r || bool_decide (length (first_occurrences u ts) ≠ length ts)).
Proof.
  revert ts u cc r. induction tlvs as [|tl tlvs IH]; intros [|t ts] u cc r Heq; try done; cbn.
  - by rewrite !app_nil_r, orb_false_r.
  - injection Heq as Hb Heq. rewrite Hb. case_bool_decide as Hin.
    + rewrite (IH ts) by done. pose proof (first_occurrences_length u ts).
      rewrite (bool_decide_eq_true_2 (_ ≠ S _)) by lia. by rewrite orb_true_r.
    + rewrite (IH ts) by done. cbn. rewrite encs_cons, <-!app_assoc. cbn. f_equal.
      f_equal. apply bool_decide_ext. lia.
Qed.

Lemma layout_bytes pre ts post :
  tlv_bytes (pre ++ encs ts ++ post) <$> layout (len pre) ts = enc <$> ts.
Proof.
  revert pre. induction ts as [|t ts IH]; intros pre; cbn; [done|]. f_equal.
  - rewrite encs_cons, <-app_assoc. unfold tlv_bytes, tlv_end. cbn. by apply sub_middle.
  - rewrite encs_cons, <-app_assoc, (app_assoc pre), <-len_app. apply IH.
Qed.

(** ** Positions inside a nested encoding *)
Definition hdr (t : node) : bytes := t.1 :: der_encode_definite_length (len t.2).
Lemma enc_hdr t : enc t = hdr t ++ t.2.
Proof. done. Qed.
Lemma len_hdr t : len (hdr t) = header_len t.
Proof. unfold hdr, header_len. by slen. Qed.
Lemma encs_small ts : len (encs ts) < U32 → Forall small ts.
Proof.
  induction ts as [|t ts IH]; intros H; [done|]. rewrite encs_cons, len_app, len_enc in H.
  pose proof (header_len_pos t). pose proof (len_nonneg (encs ts)). pose proof (len_nonneg t.2).
  constructor; [unfold small; lia|]. apply IH. lia.
Qed.
Lemma encs_singleton t : encs [t] = enc t.
Proof. unfold encs. cbn. apply app_nil_r. Qed.

(** Replacing a child inside the bytes of its parent. *)
Lemma replace_child_enc P par A ch B Q r off1 off2 :
  par.2 = A ++ enc ch ++ B → off1 = len P + header_len par →
  off2 = off1 + len A →
  replace_child_tlv (mk_DerTlv par.1 (len P) off1 (len P + len (enc par)))
    (mk_DerTlv ch.1 off2 (off2 + header_len ch) (off2 + len (enc ch)))
    r (P ++ enc par ++ Q)
  = enc (par.1, A ++ r ++ B).
Proof.
  intros Hpar -> ->. unfold replace_child_tlv, tlv_end. cbn [tlv_tag value_start value_end tag_start].
  change (enc (par.1, A ++ r ++ B)) with (der_encode_tlv par.1 (A ++ r ++ B)).
  rewrite (len_enc par), Hpar, !len_app, (enc_hdr par), Hpar.
  assert (P ++ (hdr par ++ A ++ enc ch ++ B) ++ Q =
          (P ++ hdr par) ++ A ++ (enc ch ++ B ++ Q)) as Heq1 by (by rewrite <-!app_assoc).
  assert (P ++ (hdr par ++ A ++ enc ch ++ B) ++ Q =
          (P ++ hdr par ++ A ++ enc ch) ++ B ++ Q) as Heq2 by (by rewrite <-!app_assoc).
  rewrite Heq1 at 1. rewrite Heq2.
  rewrite !sub_middle; [done|rewrite ?len_app, ?len_hdr; lia..].
Qed.

(** ** Refinement: the byte-level routine computes the specification *)

Lemma find_certs m :
  sm_wf m → ∀ off, ∃ o, find (λ c, u8 (tlv_tag c) =? 0xa0) (drop 3 (layout off (sm_nodes m)))
    = Some (mk_DerTlv A0 o (o + header_len (certs_node m)) (o + len (enc (certs_node m)))) ∧
    o = off + len (encs (sm_head m)).
Proof.
  intros (Hlen & Hno & _). unfold sm_nodes.
  assert (∀ hs off, Forall (λ t : node, t.1 ≠ A0) hs → ∃ o,
    find (λ c, u8 (tlv_tag c) =? 0xa0) (layout off (hs ++ certs_node m :: sm_tail m))
    = Some (mk_DerTlv A0 o (o + header_len (certs_node m)) (o + len (enc (certs_node m)))) ∧
    o = off + len (encs hs)) as Hfind.
  { intros hs. induction hs as [|h hs IH]; intros off Hf.
    - exists off. split; [done|]. unfold encs, len. cbn. lia.
    - inversion_clear Hf as [|?? Hh Hf']. destruct (IH (off + len (enc h)) Hf') as (o & E1 & E2).
      exists o. cbn. rewrite (proj2 (Z.eqb_neq _ _)).
      + split; [done|]. rewrite encs_cons, len_app. lia.
      + intros Heq. apply Hh, u8_inj. by rewrite Heq. }
  intros off. destruct (sm_head m) as [|h1 [|h2 [|h3 hs]]]; cbn in Hlen; try lia.
  cbn [app layout drop] in *.
  destruct (Hfind hs (off + len (enc h1) + len (enc h2) + len (enc h3)) Hno) as (o & E1 & E2).
  exists o. split; [done|]. rewrite E2, !encs_cons, !len_app. lia.
Qed.

(** The header of [content_info] down to the children of [SignedData], and to
    the certificate set. *)
Definition prefix_explicit (m : signed_message) : bytes := hdr (outer_node m).
Definition prefix_signed (m : signed_message) : bytes :=
  prefix_explicit m ++ enc OID_node ++ hdr (explicit_node m).
Definition prefix_children (m : signed_message) : bytes :=
  prefix_signed m ++ hdr (signed_node m).
Definition prefix_certs (m : signed_message) : bytes :=
  prefix_children m ++ encs (sm_head m) ++ hdr (certs_node m).

#[global] Arguments hdr : simpl never.
#[global] Arguments prefix_explicit : simpl never.
#[global] Arguments prefix_signed : simpl never.
#[global] Arguments prefix_children : simpl never.
#[global] Arguments prefix_certs : simpl never.
#[global] Arguments header_len : simpl never.

Lemma view_outer m : content_info m = [] ++ encs [outer_node m] ++ [].
Proof. by rewrite encs_singleton, app_nil_r. Qed.
Lemma view_explicit m :
  content_info m = prefix_explicit m ++ encs [OID_node; explicit_node m] ++ [].
Proof. by rewrite app_nil_r. Qed.
Lemma view_signed m : content_info m = prefix_signed m ++ encs [signed_node m] ++ [].
Proof.
  rewrite view_explicit, !app_nil_r. unfold prefix_signed.
  by rewrite encs_cons, encs_singleton, (enc_hdr (explicit_node m)), <-!app_assoc.
Qed.
Lemma view_children m : content_info m = prefix_children m ++ encs (sm_nodes m) ++ [].
Proof.
  rewrite view_signed, encs_singleton, (enc_hdr (signed_node m)), !app_nil_r.
  unfold prefix_children. by rewrite <-app_assoc.
Qed.
Lemma view_certs m :
  content_info m = prefix_certs m ++ encs (sm_certs m) ++ encs (sm_tail m).
Proof.
  rewrite view_children, app_nil_r. unfold prefix_certs, sm_nodes.
  by rewrite encs_app, encs_cons, (enc_hdr (certs_node m)), <-!app_assoc.
Qed.

Lemma content_info_small m (pre : bytes) ts post :
  len (content_info m) < U32 → content_info m = pre ++ encs ts ++ post →
  Forall small ts ∧ len pre + len (encs ts) < U64.
Proof.
  intros Hl Heq. rewrite Heq, !len_app in Hl.
  pose proof (len_nonneg pre). pose proof (len_nonneg post).
  pose proof (len_nonneg (encs ts)). split; [apply encs_small|]; lia.
Qed.

Lemma children_of_view m pre ts post off end_ :
  sm_wf m → content_info m = pre ++ encs ts ++ post →
  off = len pre → end_ = off + len (encs ts) →
  der_tlv_children (content_info m) off end_ = Some (layout off ts).
Proof.
  intros (_ & _ & Hl) Heq -> ->. destruct (content_info_small _ _ _ _ Hl Heq).
  rewrite Heq. by apply der_tlv_children_encs.
Qed.

Lemma OID_node_enc : enc OID_node = PKCS7_SIGNED_DATA_OID_DER.
Proof. by vm_compute. Qed.

(** The bytes of a signed message whose certificate set was replaced. *)
Section ReplaceCerts.
Context (m : signed_message).
Let o := len (prefix_children m) + len (encs (sm_head m)).
Definition tlv_outer : DerTlv :=
  mk_DerTlv SEQ 0 (0 + header_len (outer_node m)) (0 + len (content_info m)).
Definition tlv_explicit : DerTlv :=
  let off := len (prefix_explicit m ++ enc OID_node) in
  mk_DerTlv A0 off (len (prefix_signed m)) (off + len (enc (explicit_node m))).
Definition tlv_signed : DerTlv :=
  mk_DerTlv SEQ (len (prefix_signed m)) (len (prefix_children m))
    (len (prefix_signed m) + len (enc (signed_node m))).
Definition tlv_certs : DerTlv :=
  mk_DerTlv A0 o (o + header_len (certs_node m)) (o + len (enc (certs_node m))).

Lemma replace_in_signed r :
  replace_child_tlv tlv_signed tlv_certs r (content_info m)
  = enc (SEQ, encs (sm_head m) ++ r ++ encs (sm_tail m)).
Proof.
  rewrite view_signed, encs_singleton.
  apply (replace_child_enc (prefix_signed m) (signed_node m) (encs (sm_head m))
           (certs_node m) (encs (sm_tail m)) []).
  - unfold signed_node, sm_nodes. cbn [snd]. by rewrite encs_app, encs_cons.
  - unfold prefix_children. by rewrite len_app, len_hdr.
  - done.
Qed.
Lemma replace_in_explicit r :
  replace_child_tlv tlv_explicit tlv_signed r (content_info m) = enc (A0, r).
Proof.
  rewrite view_explicit, encs_cons, encs_singleton, <-app_assoc, app_assoc.
  trans (enc (A0, [] ++ r ++ [])); [|by rewrite app_nil_r].
  assert (len (prefix_signed m)
          = len (prefix_explicit m ++ enc OID_node) + header_len (explicit_node m)) as Hlen.
  { unfold prefix_signed. by rewrite app_assoc, len_app, len_hdr. }
  assert (len (prefix_children m) = len (prefix_signed m) + header_len (signed_node m)) as Hl2.
  { unfold prefix_children. by rewrite len_app, len_hdr. }
  unfold tlv_signed, tlv_explicit. rewrite Hl2.
  apply (replace_child_enc (prefix_explicit m ++ enc OID_node) (explicit_node m) []
           (signed_node m) [] []).
  - cbn [explicit_node snd app]. by rewrite encs_singleton, app_nil_r.
  - done.
  - slen. lia.
Qed.
Lemma replace_in_outer r :
  replace_child_tlv tlv_outer tlv_explicit r (content_info m)
  = enc (SEQ, enc OID_node ++ r).
Proof.
  trans (enc (SEQ, enc OID_node ++ r ++ [])); [|by rewrite app_nil_r].
  assert (len (prefix_signed m)
          = len (prefix_explicit m ++ enc OID_node) + header_len (explicit_node m)) as Hlen.
  { unfold prefix_signed. by rewrite app_assoc, len_app, len_hdr. }
  unfold tlv_explicit, tlv_outer. rewrite Hlen.
  assert (content_info m = [] ++ enc (outer_node m) ++ []) as Hv by (by rewrite app_nil_r).
  rewrite Hv at 2.
  apply (replace_child_enc [] (outer_node m) (enc OID_node) (explicit_node m) [] []).
  - cbn [outer_node snd]. by rewrite encs_cons, encs_singleton, app_nil_r.
  - done.
  - unfold prefix_explicit. by rewrite len_app, len_hdr.
Qed.

Lemma replace_certs cs :
  replace_child_tlv tlv_outer tlv_explicit
    (replace_child_tlv tlv_explicit tlv_signed
      (replace_child_tlv tlv_signed tlv_certs (der_encode_tlv A0 (encs cs))
        (content_info m)) (content_info m)) (content_info m)
  = content_info (mk_sm (sm_head m) cs (sm_tail m)).
Proof.
  rewrite replace_in_signed, replace_in_explicit, replace_in_outer.
  unfold content_info, outer_node, explicit_node.
  rewrite encs_cons, !encs_singleton. do 5 f_equal.
  unfold signed_node, sm_nodes, certs_node. cbn [sm_head sm_certs sm_tail].
  by rewrite encs_app, encs_cons.
Qed.
End ReplaceCerts.

(** Walking down [content_info] finds the four nested values. *)
Section Navigate.
Context (m : signed_message) (Hwf : sm_wf m).

Definition tlv_oid : DerTlv :=
  mk_DerTlv OID_node.1 (len (prefix_explicit m)) (len (prefix_explicit m) + header_len OID_node)
    (len (prefix_explicit m) + len (enc OID_node)).

Lemma nav_outer : der_tlv_at (content_info m) 0 (len (content_info m)) = Some (tlv_outer m).
Proof using Hwf.
  destruct Hwf as (_ & _ & Hl). pose proof (len_nonneg (content_info m)) as Hnn.
  rewrite view_outer at 1. rewrite encs_singleton. apply der_tlv_at_enc; try done.
  - unfold small, content_info in *. rewrite len_enc in Hl.
    pose proof (header_len_pos (outer_node m)). lia.
  - by rewrite app_nil_r.
  - lia.
Qed.

Lemma nav_outer_children :
  der_tlv_children (content_info m) (value_start (tlv_outer m)) (value_end (tlv_outer m))
  = Some [tlv_oid; tlv_explicit m].
Proof using Hwf.
  rewrite (children_of_view m (prefix_explicit m) [OID_node; explicit_node m] []);
    [|done|apply view_explicit|cbn; unfold prefix_explicit; by rewrite len_hdr
     |cbn; change (len (content_info m)) with (len (enc (outer_node m))); by rewrite len_enc].
  assert (value_start (tlv_outer m) = len (prefix_explicit m)) as ->.
  { unfold prefix_explicit. by rewrite len_hdr. }
  cbn [layout]. unfold tlv_oid. rewrite <-!(len_app (prefix_explicit m) (enc OID_node)).
  assert (len (prefix_explicit m ++ enc OID_node) + header_len (explicit_node m)
          = len (prefix_signed m)) as ->; [|done].
  unfold prefix_signed. by rewrite app_assoc, (len_app (_ ++ _)), len_hdr.
Qed.

Lemma nav_explicit_children :
  der_tlv_children (content_info m) (value_start (tlv_explicit m)) (value_end (tlv_explicit m))
  = Some [tlv_signed m].
Proof using Hwf.
  rewrite (children_of_view m (prefix_signed m) [signed_node m] []);
    [|done|apply view_signed|done|].
  - cbn [layout tlv_explicit value_start]. unfold tlv_signed, prefix_children.
    by rewrite len_app, len_hdr.
  - cbn [tlv_explicit value_start value_end]. unfold prefix_signed.
    rewrite len_enc, !len_app, len_hdr. cbn [explicit_node snd]. lia.
Qed.

Lemma nav_signed_children :
  der_tlv_children (content_info m) (value_start (tlv_signed m)) (value_end (tlv_signed m))
  = Some (layout (len (prefix_children m)) (sm_nodes m)).
Proof using Hwf.
  apply (children_of_view m (prefix_children m) (sm_nodes m) []); [done|apply view_children|done|].
  cbn [tlv_signed value_start value_end]. unfold prefix_children.
  rewrite len_enc, !len_app, len_hdr. cbn [signed_node snd]. lia.
Qed.

Lemma nav_certs :
  find (λ c, u8 (tlv_tag c) =? 0xa0) (drop 3 (layout (len (prefix_children m)) (sm_nodes m)))
  = Some (tlv_certs m).
Proof using Hwf. destruct (find_certs m Hwf (len (prefix_children m))) as (o & -> & ->). done. Qed.

Lemma nav_certs_children :
  der_tlv_children (content_info m) (value_start (tlv_certs m)) (value_end (tlv_certs m))
  = Some (layout (len (prefix_certs m)) (sm_certs m)).
Proof using Hwf.
  assert (value_start (tlv_certs m) = len (prefix_certs m)) as Hs.
  { unfold prefix_certs. cbn. rewrite !len_app, len_hdr. lia. }
  rewrite (children_of_view m (prefix_certs m) (sm_certs m) (encs (sm_tail m)));
    [by rewrite Hs|done|apply view_certs|done|].
  cbn [tlv_certs value_start value_end]. rewrite len_enc. cbn [certs_node snd]. lia.
Qed.

Lemma nav_oid_bytes : tlv_bytes (content_info m) tlv_oid = PKCS7_SIGNED_DATA_OID_DER.
Proof using Hwf.
  rewrite <-OID_node_enc, view_explicit, encs_cons, <-!app_assoc.
  by apply sub_middle.
Qed.

(** The certificate-deduplication routine refines [unique_certs]. *)
Lemma dedupe_refines :
  dedupe_signed_data_certificate_set (content_info m)
  = if has_duplicates m then Some (content_info (unique_certs m)) else None.
Proof using Hwf.
  unfold dedupe_signed_data_certificate_set.
  rewrite nav_outer. cbn [mbind option_bind]. change (negb (u8 SEQ =? 0x30)) with false.
  cbn iota. rewrite nav_outer_children. cbn [mbind option_bind].
  change ([tlv_oid; tlv_explicit m] !! 0%nat) with (Some tlv_oid).
  change ([tlv_oid; tlv_explicit m] !! 1%nat) with (Some (tlv_explicit m)).
  cbn [mbind option_bind]. rewrite nav_oid_bytes, bool_decide_eq_true_2 by done.
  change (u8 (tlv_tag (tlv_explicit m)) =? 0xa0) with true. cbn [negb].
  rewrite nav_explicit_children. cbn [mbind option_bind].
  change ([tlv_signed m] !! 0%nat) with (Some (tlv_signed m)). cbn [mbind option_bind].
  change (u8 (tlv_tag (tlv_signed m)) =? 0x30) with true. cbn [negb].
  rewrite nav_signed_children. cbn [mbind option_bind]. rewrite nav_certs.
  cbn [mbind option_bind]. rewrite nav_certs_children. cbn [mbind option_bind].
  rewrite (dedupe_fold _ (sm_certs m)) by (rewrite view_certs; apply layout_bytes).
  rewrite orb_false_l, !app_nil_l. fold (has_duplicates m).
  destruct (has_duplicates m); [|done]. cbn [negb]. f_equal. apply replace_certs.
Qed.
End Navigate.

(** ** The whole normalisation *)

Lemma outer_payload_enc (c rest : bytes) :
  len c < U32 → tlv_outer_sequence_payload (enc (SEQ, c) ++ rest) = Some c.
Proof.
  intros Hc. unfold tlv_outer_sequence_payload. rewrite enc_parts. cbn [app].
  rewrite get_at_0. cbn [mbind option_bind]. change (negb (u8 SEQ =? 0x30)) with false. cbn iota.
  pose proof (len_nonneg c). pose proof (len_nonneg rest). cbn [snd fst].
  assert (∀ a, sub (SEQ :: a) 1 (len (SEQ :: a)) = a) as Htail.
  { intros a. pose proof (sub_long_form SEQ a []) as H1. rewrite app_nil_r in H1. by rewrite len_cons. }
  rewrite Htail, <-app_assoc, parse_encoded_length by lia. cbn [mbind option_bind].
  rewrite len_cons, !len_app, (proj2 (Z.ltb_ge _ _)) by lia. f_equal.
  rewrite app_comm_cons. apply sub_middle; rewrite len_cons; lia.
Qed.

Lemma unique_certs_id m : has_duplicates m = false → unique_certs m = m.
Proof.
  intros H. apply bool_decide_eq_false in H. unfold unique_certs.
  rewrite first_occurrences_all by lia. by destruct m.
Qed.

Lemma wrap_signed_data m :
  pkcs7_content_info_signed_data (signed_data_der m) = content_info m.
Proof.
  unfold pkcs7_content_info_signed_data, content_info, outer_node, explicit_node.
  rewrite encs_cons, !encs_singleton, OID_node_enc. rewrite (enc_parts (SEQ, _)). cbn [fst snd].
  by rewrite len_app.
Qed.

Lemma strip_pkcx_app x : strip_pkcx_p7x_wrapper (lit "PKCX" ++ x) = Some x.
Proof.
  unfold strip_pkcx_p7x_wrapper. rewrite sub_app_l by done.
  rewrite bool_decide_eq_true_2 by done. f_equal.
  rewrite sub_app_r by done. rewrite len_app. change (len (lit "PKCX")) with 4.
  trans (sub x 0 (len x)); [f_equal; lia|apply sub_full].
Qed.
Lemma strip_pkcx_enc c : strip_pkcx_p7x_wrapper (enc (SEQ, c)) = None.
Proof.
  unfold strip_pkcx_p7x_wrapper. rewrite bool_decide_eq_false_2; [done|].
  rewrite enc_parts. intros Heq. apply (f_equal head) in Heq. discriminate Heq.
Qed.

Section Normalize.
Context (m : signed_message) (Hwf : sm_wf m).
Context (Hver : u8 <$> get_at (encs (sm_head m)) 0 = Some 0x02).

Lemma content_info_bound :
  len (encs [OID_node; explicit_node m]) < U32 ∧ len (encs (sm_nodes m)) < U32.
Proof using Hwf.
  destruct Hwf as (_ & _ & Hl). pose proof Hl as Hl'. rewrite view_children in Hl'.
  unfold content_info in Hl. rewrite len_enc in Hl. cbn [outer_node snd] in Hl.
  pose proof (header_len_pos (outer_node m)). slen.
  pose proof (len_nonneg (prefix_children m)). lia.
Qed.

Lemma first_child_version : u8 <$> get_at (encs (sm_nodes m)) 0 = Some 0x02.
Proof using Hver.
  unfold sm_nodes. rewrite encs_app.
  destruct (encs (sm_head m)) as [|x l]; [done|]. rewrite get_at_0 in Hver.
  cbn [app]. by rewrite get_at_0.
Qed.

Lemma normalize_step (sig : bytes) c :
  tlv_outer_sequence_payload sig = Some c →
  (sig = content_info m ∧ u8 <$> get_at c 0 = Some 0x06) ∨
  (sig = signed_data_der m ∧ u8 <$> get_at c 0 = Some 0x02) →
  strip_pkcx_p7x_wrapper sig = None →
  normalize_pkcs7_der_for_authenticode sig = content_info (unique_certs m) ∧
  normalize_pkcs7_der_for_authenticode (lit "PKCX" ++ sig) = content_info (unique_certs m).
Proof using Hwf.
  intros Hp Hc Hs. unfold normalize_pkcs7_der_for_authenticode.
  rewrite strip_pkcx_app, Hs. cbn [default from_option id]. rewrite Hp.
  assert (default (content_info m) (dedupe_signed_data_certificate_set (content_info m))
          = content_info (unique_certs m)) as Hd.
  { rewrite dedupe_refines by done. destruct (has_duplicates m) eqn:E; [done|]. cbn.
    by rewrite unique_certs_id. }
  destruct Hc as [[-> Hc]|[-> Hc]]; rewrite Hc, ?wrap_signed_data; done.
Qed.

(** C6: for every signed message, whichever of the four forms it comes in (a
    PKCS#7 [ContentInfo], a bare [SignedData] that starts with its version
    INTEGER, or either behind the AppX "PKCX" prefix), normalisation
    produces the [ContentInfo] of the same message in which every
    certificate encoding occurs once, the first occurrences in their order
    and every enclosing DER length rewritten. *)
Theorem normalize_spec :
  let out := content_info (unique_certs m) in
  normalize_pkcs7_der_for_authenticode (content_info m) = out ∧
  normalize_pkcs7_der_for_authenticode (lit "PKCX" ++ content_info m) = out ∧
  normalize_pkcs7_der_for_authenticode (signed_data_der m) = out ∧
  normalize_pkcs7_der_for_authenticode (lit "PKCX" ++ signed_data_der m) = out ∧
  NoDup (enc <$> sm_certs (unique_certs m)).
Proof using Hwf Hver.
  destruct content_info_bound as [H1 H2].
  pose proof (outer_payload_enc _ [] H1) as P1. pose proof (outer_payload_enc _ [] H2) as P2.
  rewrite app_nil_r in P1, P2.
  destruct (normalize_step (content_info m) _ P1) as [-> ->];
    [by left|apply strip_pkcx_enc|].
  destruct (normalize_step (signed_data_der m) _ P2) as [-> ->];
    [right; split; [done|by apply first_child_version]|apply strip_pkcx_enc|].
  do 4 (split; [done|]). apply (first_occurrences_NoDup [] (sm_certs m)). constructor.
Qed.
End Normalize.

(** A message with three certificates, two of them equal. *)
Definition demo_message : signed_message :=
  let cert s : node := (SEQ, lit s) in
  mk_sm [(byte_of 2, [byte_of 1]); (byte_of 0x31, []); (SEQ, [])]
    [cert "cert-a"; cert "cert-b"; cert "cert-a"] [(byte_of 0x31, [])].

Lemma normalize_spec_witness :
  sm_wf demo_message ∧
  normalize_pkcs7_der_for_authenticode (content_info demo_message)
  = content_info (unique_certs demo_message) ∧
  length (sm_certs (unique_certs demo_message)) = 2%nat.
Proof.
  assert (sm_wf demo_message) as Hwf.
  { split; [cbn; lia|]. split; [by constructor|by vm_compute]. }
  split; [done|]. split; [|by vm_compute].
  by apply (normalize_spec demo_message Hwf).
Defined.

(** A length below 2^32 is read back exactly, with the octets that follow
    left alone; from 2^32 on the encoder's output is refused by the parser. *)
Theorem definite_length_roundtrip n rest :
  0 <= n < U64 →
  parse_der_definite_length (der_encode_definite_length n ++ rest)
  = if n <? U32 then Some (n, len (der_encode_definite_length n)) else None.
Proof.
  intros Hn. destruct (n <? U32) eqn:E; zbool.
  - apply parse_encoded_length. lia.
  - apply parse_encoded_length_overflow. lia.
Qed.

Lemma definite_length_roundtrip_witness :
  parse_der_definite_length (der_encode_definite_length 0x12345 ++ lit "abc") = Some (0x12345, 4).
Proof. rewrite (definite_length_roundtrip 0x12345 (lit "abc")) by lia. by vm_compute. Defined.

(** on any bytes, when the children of a range parse, they tile it: their
    encodings concatenate to exactly the bytes of the range, so no byte is
    skipped, shared or read past the end. *)
Theorem children_partition data start end_ ts :
  0 <= start →
  der_tlv_children data start end_ = Some ts →
  concat (tlv_bytes data <$> ts) = sub data start end_ ∧ tiles start end_ ts.
Proof.
  intros Hs Hc. pose proof (children_tile _ _ _ _ Hs Hc) as Ht.
  split; [by apply tiles_bytes|done].
Qed.

Lemma children_partition_witness :
  ∃ ts, der_tlv_children (content_info demo_message) 0 (len (content_info demo_message)) = Some ts
        ∧ tiles 0 (len (content_info demo_message)) ts.
Proof.
  eexists. split; [vm_compute; reflexivity|].
  eapply (children_partition (content_info demo_message) 0 _); [lia|by vm_compute].
Defined.

(** The [ContentInfo] at the start of a buffer is found whatever follows it. *)
Lemma outer_prefix_enc (c rest : bytes) :
  len c < U32 → pkcs7_outer_sequence_prefix (enc (SEQ, c) ++ rest) = Some (enc (SEQ, c)).
Proof.
  intros Hc. unfold pkcs7_outer_sequence_prefix, der_tlv_total_len_from_start.
  pose proof (len_nonneg c). pose proof (len_nonneg rest).
  assert (get_at (enc (SEQ, c) ++ rest) 0 = Some SEQ) as -> by apply get_at_0.
  cbn [mbind option_bind]. change (negb (u8 SEQ =? 0x30)) with false. cbn iota.
  assert (sub (enc (SEQ, c) ++ rest) 1 (len (enc (SEQ, c) ++ rest))
          = der_encode_definite_length (len c) ++ c ++ rest) as ->.
  { rewrite enc_parts. cbn [fst snd]. rewrite <-app_comm_cons, len_cons, <-app_assoc.
    pose proof (sub_long_form SEQ (der_encode_definite_length (len c) ++ c ++ rest) []) as H1.
    by rewrite app_nil_r in H1. }
  rewrite parse_encoded_length by lia. cbn [mbind option_bind].
  pose proof (len_enc (SEQ, c)) as Hl. unfold header_len in Hl. cbn [snd] in Hl.
  rewrite get_range_in; [|lia|pose proof (len_definite_length (len c)); lia|slen; lia].
  f_equal. rewrite sub_app_l by lia. rewrite sub_full_ge by lia. done.
Qed.

