(* ===== verification/PeDigest.v ===== *)
(** Digest kinds, hashers and the PE digest ranges:
    [crates/psign-sip-digest/src/pe_digest.rs], and the [RunningHasher] that
    [cab_digest.rs] and [msix_digest.rs] declare alike.

    The hash functions themselves (crates [sha1], [sha2]) are the interface
    [DigestOracle]: its one law is the output size of each algorithm. *)

From S2P Require Import Prelude.

Inductive PeAuthenticodeHashKind := Sha1 | Sha256 | Sha384 | Sha512.
#[export] Instance hash_kind_eq_dec : EqDecision PeAuthenticodeHashKind.
Proof. solve_decision. Defined.

Definition from_digest_byte_len (n : Z) : outcome PeAuthenticodeHashKind :=
  if n =? 20 then Ok Sha1 else if n =? 32 then Ok Sha256
  else if n =? 48 then Ok Sha384 else if n =? 64 then Ok Sha512
  else Err "unsupported Authenticode digest length {len} bytes (expected 20/32/48/64)".

Definition digest_output_len (k : PeAuthenticodeHashKind) : Z :=
  match k with Sha1 => 20 | Sha256 => 32 | Sha384 => 48 | Sha512 => 64 end.

(** What the code relies on of the hash crates: a function of the bytes, with
    an output of the algorithm's size. *)
Class DigestOracle := {
  digest : PeAuthenticodeHashKind → bytes → bytes;
  digest_len k bs : len (digest k bs) = digest_output_len k }.

(** An instance, so that the theorems can be run: the length and a byte sum,
    padded to the output size. *)
Definition toy_digest (k : PeAuthenticodeHashKind) (bs : bytes) : bytes :=
  to_le (Z.to_nat (digest_output_len k))
    (fold_left (λ a b, (a * 257 + u8 b + 1) mod (2 ^ 127 - 1)) bs 7).
Definition ToyDigest : DigestOracle.
Proof. refine {| digest := toy_digest |}. intros [] bs; apply len_to_le. Defined.

(** [RunningHasher]: [update] feeds bytes, [finalize] hashes all of them; the
    incremental interface of the [digest] crate is documented to hash the
    concatenation of the updates. *)
Record RunningHasher := mk_hasher { h_kind : PeAuthenticodeHashKind; h_fed : bytes }.
Definition hasher_new (k : PeAuthenticodeHashKind) : RunningHasher := mk_hasher k [].
Definition hasher_update (h : RunningHasher) (bs : bytes) : RunningHasher :=
  mk_hasher (h_kind h) (h_fed h ++ bs).
Definition hasher_finalize `{DigestOracle} (h : RunningHasher) : bytes :=
  digest (h_kind h) (h_fed h).

Lemma from_digest_byte_len_output k : from_digest_byte_len (digest_output_len k) = Ok k.
Proof. by destruct k. Qed.
Lemma from_digest_byte_len_Ok n k :
  from_digest_byte_len n = Ok k ↔ n = digest_output_len k.
Proof.
  unfold from_digest_byte_len.
  destruct (n =? 20) eqn:E1; [|destruct (n =? 32) eqn:E2; [|destruct (n =? 48) eqn:E3;
    [|destruct (n =? 64) eqn:E4]]]; zbool; subst; (split; [by intros [= <-]|]);
    destruct k; cbn; intros; by try lia.
Qed.

(** ** The file ranges of the PE digest

    [PeView] is what the code asks of the third-party [PeTrait]: the four
    header offsets, the file range of each section, the certificate table's
    range, each [None] where the crate finds it out of the file, and the file.
    A range is a pair [(start, end)]. *)
Record PeOffsets := mk_PeOffsets {
  check_sum : Z; after_check_sum : Z; security_data_dir : Z;
  after_security_data_dir : Z; after_header : Z }.
Record PeView := mk_PeView {
  pe_offsets : option PeOffsets;
  section_data_ranges : list (option (Z * Z));
  certificate_table_range : option (option (Z * Z));
  pe_data : bytes }.

(** [sections.sort_unstable_by_key(|r| r.start)]: insertion by start; the code
    leaves the order of sections with the same start open. *)
Fixpoint insert_by_start (r : Z * Z) (rs : list (Z * Z)) : list (Z * Z) :=
  match rs with
  | [] => [r]
  | r' :: rs' => if r.1 <=? r'.1 then r :: rs else r' :: insert_by_start r rs'
  end.
Definition sort_by_start (rs : list (Z * Z)) : list (Z * Z) := foldr insert_by_start [] rs.

Definition PeOffsetError : string := "PeOffsetError".

(** The section loop: [sum_of_bytes_hashed] and the ranges pushed so far. *)
Fixpoint hash_sections (data : bytes) (secs : list (Z * Z)) (sum : Z) (ranges : list (Z * Z))
    : outcome (Z * list (Z * Z)) :=
  match secs with
  | [] => Ok (sum, ranges)
  | r :: secs' =>
      bs ← ok_or (get_range data r.1 r.2) PeOffsetError;
      sum' ← ok_or (checked_add64 sum (len bs)) PeOffsetError;
      hash_sections data secs' sum' (ranges ++ [r])
  end.

Definition checked_sub (a b : Z) : option Z := if a <? b then None else Some (a - b).

Definition authenticode_digest_file_ranges (pe : PeView) : outcome (list (Z * Z)) :=
  o ← ok_or (pe_offsets pe) PeOffsetError;
  let ranges :=
    [(0, check_sum o); (after_check_sum o, security_data_dir o);
     (after_security_data_dir o, after_header o)] in
  sections ← ok_or (mapM id (section_data_ranges pe)) PeOffsetError;
  '(sum, ranges) ← hash_sections (pe_data pe) (sort_by_start sections) (after_header o) ranges;
  extra ← ok_or (checked_sub (len (pe_data pe)) sum) PeOffsetError;
  range ← ok_or (certificate_table_range pe) PeOffsetError;
  extra ← match range with
          | Some (s, e) =>
              size ← ok_or (checked_sub e s) PeOffsetError;
              ok_or (checked_sub extra size) PeOffsetError
          | None => Ok extra
          end;
  tail_end ← ok_or (checked_add64 sum extra) PeOffsetError;
  _ ← ok_or (get_range (pe_data pe) sum tail_end) PeOffsetError;
  Ok (ranges ++ [(sum, tail_end)]).

(** The bytes a list of ranges selects, in order. *)
Definition bytes_of_ranges (data : bytes) (ranges : list (Z * Z)) : bytes :=
  concat ((λ r : Z * Z, sub data r.1 r.2) <$> ranges).

(** A view whose accessors all succeed. *)
Definition whole_view (o : PeOffsets) (secs : list (Z * Z)) (cert : option (Z * Z)) (data : bytes)
    : PeView := mk_PeView (Some o) (Some <$> secs) (Some cert) data.
Lemma mapM_id_Some {A} (l : list A) : mapM id (Some <$> l) = Some l.
Proof. induction l as [|x l IH]; [done|]. cbn. by rewrite IH. Qed.
