(* ===== verification/Xml.v ===== *)
(** XML as the package code reads and writes it: attributes and event loop of
    [crates/psign-sip-digest/src/msix_digest.rs].

    The reader of the [quick-xml] crate is the interface [XmlReader]: the
    events of a document, and whether they end at its end or at an error.  The
    attributes of an element come one by one, [None] where the crate finds one
    malformed, each with its unescaped value where it can be decoded. *)

From S2P Require Import Prelude.
From S2P Require Import RustStr.

Record BytesStart := mk_elem { local_name : bytes; attributes : list (option (bytes * option str)) }.
Inductive XmlEvent :=
  | EStart (e : BytesStart) | EEmpty (e : BytesStart) | EEnd (name : bytes)
  | EText (t : option str) | EOther.
(** The events before the end or the error; [true] for the end. *)
Class XmlReader := { read_events : bytes → list XmlEvent * bool }.

Fixpoint xml_attr_in (attrs : list (option (bytes * option str))) (name : bytes) : outcome (option str) :=
  match attrs with
  | [] => Ok None
  | None :: _ => Err "AppxBlockMap.xml attribute parse failed: {e}"
  | Some (key, value) :: attrs' =>
      if bool_decide (key = name)
      then Some <$> ok_or value "AppxBlockMap.xml attribute decode failed: {e}"
      else xml_attr_in attrs' name
  end.
Definition xml_attr (e : BytesStart) (name : string) : outcome (option str) :=
  xml_attr_in (attributes e) (lit name).
Definition required_xml_attr (e : BytesStart) (name : string) : outcome str :=
  v ← xml_attr e name;
  ok_or v "AppxBlockMap.xml `{}` element missing `{}` attribute".
Definition optional_u64_xml_attr (e : BytesStart) (name : string) : outcome (option Z) :=
  v ← xml_attr e name;
  match v with
  | Some value => Some <$> ok_or (parse_uint U64 value) "AppxBlockMap.xml `{}` element has invalid `{}` value"
  | None => Ok None
  end.
Definition named (e : BytesStart) (name : string) : bool := bool_decide (local_name e = lit name).

(** The event loop: a step for each event, then the error of the reader. *)
Fixpoint run_events {St} (step : St → XmlEvent → outcome St) (s : St) (evs : list XmlEvent) : outcome St :=
  match evs with
  | [] => Ok s
  | ev :: evs' => s' ← step s ev; run_events step s' evs'
  end.

(** The documents the code writes: tags with attributes, whose values are
    escaped. *)
Definition escape (value : str) : str :=
  replace_char 62 (chars "&gt;") (replace_char 60 (chars "&lt;")
    (replace_char 34 (chars "&quot;") (replace_char 38 (chars "&amp;") value))).
(** [ name="value"] *)
Definition attr_text (name : string) (value : str) : str := 32 :: chars name ++ [61; 34] ++ value ++ [34].
Inductive XmlTag :=
  | TStart (name : string) (attrs : list (string * str))
  | TEmpty (name : string) (attrs : list (string * str))
  | TEnd (name : string).
Definition attrs_text (attrs : list (string * str)) : str := attrs ≫= λ a, attr_text (fst a) (escape (snd a)).
Definition tag_text (t : XmlTag) : str :=
  match t with
  | TStart n attrs => 60 :: chars n ++ attrs_text attrs ++ chars ">"
  | TEmpty n attrs => 60 :: chars n ++ attrs_text attrs ++ chars "/>"
  | TEnd n => chars "</" ++ chars n ++ chars ">"
  end.
Definition tag_elem (n : string) (attrs : list (string * str)) : BytesStart :=
  mk_elem (lit n) ((λ a, Some (lit (fst a), Some (snd a))) <$> attrs).
Definition tag_event (t : XmlTag) : XmlEvent :=
  match t with
  | TStart n attrs => EStart (tag_elem n attrs)
  | TEmpty n attrs => EEmpty (tag_elem n attrs)
  | TEnd n => EEnd (lit n)
  end.
Definition xml_declaration (standalone : string) : str :=
  chars "<?xml" ++ attr_text "version" (chars "1.0") ++ attr_text "encoding" (chars "UTF-8")
  ++ attr_text "standalone" (chars standalone) ++ chars "?>".
(** What the theorems rely on: the reader gives back the tags of a document,
    after an event for the declaration and its white space. *)
Definition reads_tags `{XmlReader} (prolog : str) (tags : list XmlTag) : Prop :=
  read_events (encode_utf8 (prolog ++ concat (tag_text <$> tags))) = (EOther :: (tag_event <$> tags), true).

(** ** The event loop *)

Lemma run_events_inv {St} (step : St → XmlEvent → outcome St) (I : St → Prop) evs s s' :
  (∀ s ev s', I s → step s ev = Ok s' → I s') → I s → run_events step s evs = Ok s' → I s'.
Proof.
  intros Hstep. revert s. induction evs as [|ev evs IH]; intros s HI; cbn [run_events]; [by intros [= <-]|].
  intros (s1 & H1 & H2)%bind_Ok. eauto.
Qed.
Lemma run_events_app {St} (step : St → XmlEvent → outcome St) s evs evs' :
  run_events step s (evs ++ evs') = (s' ← run_events step s evs; run_events step s' evs').
Proof.
  revert s. induction evs as [|ev evs IH]; intros s; [done|]. cbn [app run_events].
  destruct (step s ev); [apply IH|done..].
Qed.

(** ** A reader

    It reads the documents the code writes, so that the theorems can be run:
    tags with attributes in double quotes and the four entities, of ASCII. *)
Fixpoint before (c : char) (s : str) : str * str :=
  match s with
  | [] => ([], [])
  | d :: s' => if d =? c then ([], s') else let '(a, b) := before c s' in (d :: a, b)
  end.
Definition replace_all (fuel : nat) (p by_ : str) (s : str) : str :=
  (fix go fuel s := match fuel, s with
   | S fuel', c :: s' => match strip_prefix p s with Some r => by_ ++ go fuel' r | None => c :: go fuel' s' end
   | _, _ => s
   end) fuel s.
Definition unescape (s : str) : str :=
  let r p b s := replace_all (length s) (chars p) b s in
  r "&amp;"%string [38] (r "&quot;"%string [34] (r "&lt;"%string [60] (r "&gt;"%string [62] s))).
Definition to_bytes (s : str) : bytes := byte_of <$> s.
Fixpoint toy_attrs (fuel : nat) (s : str) : list (option (bytes * option str)) * bool * str :=
  match fuel, s with
  | S fuel', 47 :: 62 :: r => ([], true, r)
  | S fuel', 62 :: r => ([], false, r)
  | S fuel', 32 :: r =>
      let '(name, r) := before 61 r in let '(_, r) := before 34 r in let '(value, r) := before 34 r in
      let '(attrs, e, r) := toy_attrs fuel' r in (Some (to_bytes name, Some (unescape value)) :: attrs, e, r)
  | _, _ => ([], true, [])
  end.
Definition name_end (c : char) : bool := (c =? 32) || (c =? 47) || (c =? 62).
Fixpoint toy_name (s : str) : str * str :=
  match s with
  | c :: s' => if name_end c then ([], s) else let '(a, b) := toy_name s' in (c :: a, b)
  | [] => ([], [])
  end.
Fixpoint toy_events (fuel : nat) (s : str) : list XmlEvent :=
  match fuel, s with
  | S fuel', 60 :: 63 :: r => EOther :: toy_events fuel' (snd (before 62 r))
  | S fuel', 60 :: 47 :: r => let '(name, r) := before 62 r in EEnd (to_bytes name) :: toy_events fuel' r
  | S fuel', 60 :: r =>
      let '(name, r) := toy_name r in let '(attrs, empty, r) := toy_attrs fuel' r in
      let e := mk_elem (to_bytes name) attrs in
      (if empty then EEmpty e else EStart e) :: toy_events fuel' r
  | S fuel', _ :: r => toy_events fuel' r
  | _, _ => []
  end.
Definition ToyXml : XmlReader := {| read_events bs := (toy_events (length bs) (u8 <$> bs), true) |}.
