(* ===== verification/AppxParts.v ===== *)
(** The parts of an APPX or MSIX package: part names, [AppxBlockMap.xml] and
    the inventory of required parts, in
    [crates/psign-sip-digest/src/msix_digest.rs]. *)

From stdpp Require Import gmap.
From S2P Require Import Prelude.
From S2P Require Import RustStr.
From S2P Require Import Find.
From S2P Require Import Base64.
From S2P Require Import PeDigest.
From S2P Require Import Xml.

Definition APP_SIGNATURE : str := chars "AppxSignature.p7x".
Definition CONTENT_TYPES : str := chars "[Content_Types].xml".
Definition BLOCK_MAP : str := chars "AppxBlockMap.xml".
Definition APP_MANIFEST : str := chars "AppxManifest.xml".
Definition BUNDLE_MANIFEST : str := chars "AppxMetadata/AppxBundleManifest.xml".
Definition CODE_INTEGRITY : str := chars "AppxMetadata/CodeIntegrity.cat".
Definition HASH_SHA256 : str := chars "http://www.w3.org/2001/04/xmlenc#sha256".
Definition HASH_SHA384 : str := chars "http://www.w3.org/2001/04/xmldsig-more#sha384".
Definition HASH_SHA512 : str := chars "http://www.w3.org/2001/04/xmlenc#sha512".

Record AppxBlockMapBlock := mk_block { b_hash : bytes; compressed_size : option Z }.
Record AppxBlockMapFile := mk_file {
  f_name : str; normalized_name : str; declared_size : Z; lfh_size : option Z;
  blocks : list AppxBlockMapBlock; file_hash : option bytes }.
Record AppxPackageInventory := mk_inventory { has_code_integrity : bool }.

Definition hash_kind_from_block_map_uri (uri : str) : outcome PeAuthenticodeHashKind :=
  let uri := trim uri in
  if bool_decide (uri = HASH_SHA256) then Ok Sha256
  else if bool_decide (uri = HASH_SHA384) then Ok Sha384
  else if bool_decide (uri = HASH_SHA512) then Ok Sha512
  else Err "unsupported AppxBlockMap HashMethod URI `{uri}` (expected SHA256/384/512 URIs)".

(** ** Part names *)

Definition invalid_segment (s : str) : bool :=
  bool_decide (s = []) || bool_decide (s = [46]) || bool_decide (s = [46; 46]).
Definition normalize_appx_part_name (name : str) : outcome str :=
  bail_if (bool_decide (name = []) || existsb (Z.eqb 0) name)
    "AppxBlockMap.xml contains an empty or NUL part name";;
  let normalized := replace_char 92 [47] name in
  bail_if (starts_with normalized [47] || existsb (Z.eqb 58) normalized)
    "AppxBlockMap.xml part `{name}` is absolute or drive-qualified";;
  bail_if (existsb invalid_segment (split 47 normalized))
    "AppxBlockMap.xml part `{name}` contains an invalid path segment";;
  Ok normalized.

(** A name ending in a slash of either kind is a directory's. *)
Definition is_directory_name (name : str) : bool := ends_with name [47] || ends_with name [92].

(** ** The block map *)

Record BlockMapState := mk_bm {
  bm_kind : option PeAuthenticodeHashKind; bm_files : list AppxBlockMapFile;
  bm_current : option AppxBlockMapFile; bm_seen : gset str; in_block_map : bool }.

Section BlockMap.
Context `{Base64}.

(** A [BlockMap] element: [open] when it has contents. *)
Definition block_map_root (s : BlockMapState) (e : BytesStart) (open : bool) : outcome BlockMapState :=
  bail_if (bool_decide (is_Some (bm_kind s))) "duplicate AppxBlockMap.xml BlockMap root";;
  hash_method ← required_xml_attr e "HashMethod";
  kind ← hash_kind_from_block_map_uri hash_method;
  Ok (mk_bm (Some kind) (bm_files s) (bm_current s) (bm_seen s) (open || in_block_map s)).
(** The attributes of a [File] element, and the names seen with its own. *)
Definition file_element (s : BlockMapState) (e : BytesStart) : outcome (gset str * AppxBlockMapFile) :=
  name ← required_xml_attr e "Name";
  normalized ← normalize_appx_part_name name;
  bail_if (bool_decide (normalized ∈ bm_seen s)) "duplicate AppxBlockMap.xml File entry `{name}`";;
  size ← required_xml_attr e "Size";
  declared ← ok_or (parse_uint U64 size) "AppxBlockMap.xml File `{name}` has invalid Size";
  lfh ← optional_u64_xml_attr e "LfhSize";
  Ok ({[normalized]} ∪ bm_seen s, mk_file name normalized declared lfh [] None).
Definition file_start (s : BlockMapState) (e : BytesStart) : outcome BlockMapState :=
  bail_if (negb (in_block_map s)) "AppxBlockMap.xml File outside BlockMap";;
  bail_if (bool_decide (is_Some (bm_current s))) "nested AppxBlockMap.xml File elements are invalid";;
  '(seen, f) ← file_element s e;
  Ok (mk_bm (bm_kind s) (bm_files s) (Some f) seen (in_block_map s)).
Definition file_empty (s : BlockMapState) (e : BytesStart) : outcome BlockMapState :=
  bail_if (negb (in_block_map s)) "AppxBlockMap.xml File outside BlockMap";;
  '(seen, f) ← file_element s e;
  Ok (mk_bm (bm_kind s) (bm_files s ++ [f]) (bm_current s) seen (in_block_map s)).
Definition block_element (s : BlockMapState) (e : BytesStart) : outcome BlockMapState :=
  f ← ok_or (bm_current s) "AppxBlockMap.xml Block outside File";
  encoded ← required_xml_attr e "Hash";
  hash ← ok_or (b64_decode encoded) "AppxBlockMap.xml Block Hash is not base64: {e}";
  size ← optional_u64_xml_attr e "Size";
  let f' := mk_file (f_name f) (normalized_name f) (declared_size f) (lfh_size f)
              (blocks f ++ [mk_block hash size]) (file_hash f) in
  Ok (mk_bm (bm_kind s) (bm_files s) (Some f') (bm_seen s) (in_block_map s)).
Definition file_hash_element (s : BlockMapState) (e : BytesStart) : outcome BlockMapState :=
  f ← ok_or (bm_current s) "AppxBlockMap.xml FileHash outside File";
  bail_if (bool_decide (is_Some (file_hash f))) "AppxBlockMap.xml File `{}` has duplicate FileHash elements";;
  encoded ← required_xml_attr e "Hash";
  hash ← ok_or (b64_decode encoded) "AppxBlockMap.xml FileHash Hash is not base64: {e}";
  let f' := mk_file (f_name f) (normalized_name f) (declared_size f) (lfh_size f) (blocks f) (Some hash) in
  Ok (mk_bm (bm_kind s) (bm_files s) (Some f') (bm_seen s) (in_block_map s)).

Definition block_map_step (s : BlockMapState) (ev : XmlEvent) : outcome BlockMapState :=
  match ev with
  | EStart e | EEmpty e =>
      let open := match ev with EStart _ => true | _ => false end in
      if named e "BlockMap" then block_map_root s e open
      else if named e "File" then (if open then file_start s e else file_empty s e)
      else if named e "Block" then block_element s e
      else if named e "FileHash" then file_hash_element s e
      else Err "unexpected AppxBlockMap.xml element `{}`"
  | EEnd n =>
      if bool_decide (n = lit "BlockMap") then
        bail_if (bool_decide (is_Some (bm_current s))) "AppxBlockMap.xml BlockMap ended inside File";;
        Ok (mk_bm (bm_kind s) (bm_files s) (bm_current s) (bm_seen s) false)
      else if bool_decide (n = lit "File") then
        f ← ok_or (bm_current s) "AppxBlockMap.xml unexpected File end";
        Ok (mk_bm (bm_kind s) (bm_files s ++ [f]) None (bm_seen s) (in_block_map s))
      else Ok s
  | _ => Ok s
  end.

Fixpoint check_block_lens (expected_len : Z) (bs : list AppxBlockMapBlock) : outcome unit :=
  match bs with
  | [] => Ok tt
  | b :: bs' =>
      bail_if (negb (len (b_hash b) =? expected_len))
        "AppxBlockMap.xml File `{}` has {}-byte block hash, expected {expected_len}";;
      check_block_lens expected_len bs'
  end.
Fixpoint check_hash_lens (expected_len : Z) (files : list AppxBlockMapFile) : outcome unit :=
  match files with
  | [] => Ok tt
  | f :: files' =>
      bail_if (match file_hash f with Some h => negb (len h =? expected_len) | None => false end)
        "AppxBlockMap.xml File `{}` has {}-byte FileHash, expected {expected_len}";;
      check_block_lens expected_len (blocks f);;
      check_hash_lens expected_len files'
  end.

Definition parse_block_map_xml `{XmlReader} (xml : bytes)
    : outcome (PeAuthenticodeHashKind * list AppxBlockMapFile) :=
  let '(evs, eof) := read_events xml in
  s ← run_events block_map_step (mk_bm None [] None ∅ false) evs;
  bail_if (negb eof) "AppxBlockMap.xml parse failed: {e}";;
  bail_if (bool_decide (is_Some (bm_current s))) "unterminated AppxBlockMap.xml File element";;
  kind ← ok_or (bm_kind s) "AppxBlockMap.xml missing HashMethod";
  check_hash_lens (digest_output_len kind) (bm_files s);;
  Ok (kind, bm_files s).
End BlockMap.

(** ** Kinds of package *)

(** [matches!(ext, "msixbundle" | "appxbundle")] *)
Definition is_bundle (ext : str) : bool :=
  bool_decide (ext = chars "msixbundle") || bool_decide (ext = chars "appxbundle").
Definition is_encrypted_msix_extension (ext : str) : bool :=
  bool_decide (ext ∈ [chars "eappx"; chars "eappxbundle"; chars "emsix"; chars "emsixbundle"]).

(** ** The inventory of parts *)

Definition RESERVED : list str :=
  [CONTENT_TYPES; BLOCK_MAP; APP_SIGNATURE; APP_MANIFEST; BUNDLE_MANIFEST; CODE_INTEGRITY].
Definition canonical_reserved_part (normalized_name : str) : option str :=
  List.find (eq_ignore_ascii_case normalized_name) RESERVED.

Record InventoryState := mk_inv {
  i_seen : gset str; seen_casefolded : gmap str str; required_counts : gmap str Z }.
Definition count_of (s : InventoryState) (part : str) : Z := default 0 (required_counts s !! part).
Definition inventory_step (bundle : bool) (s : InventoryState) (name : str) : outcome InventoryState :=
  if is_directory_name name then Ok s else
  bail_if (existsb (Z.eqb 92) name)
    "APPX/MSIX ZIP entry `{name}` uses backslashes; package part names must use `/`";;
  normalized ← normalize_appx_part_name name;
  bail_if (bool_decide (normalized ∈ i_seen s)) "duplicate APPX/MSIX ZIP part `{normalized}`";;
  let folded := to_ascii_lowercase normalized in
  bail_if (bool_decide (is_Some (seen_casefolded s !! folded)))
    "duplicate APPX/MSIX ZIP part after case-insensitive normalization: `{previous}` / `{normalized}`";;
  counts ← match canonical_reserved_part normalized with
           | Some canonical =>
               bail_if (negb (bool_decide (normalized = canonical)))
                 "reserved APPX/MSIX part `{normalized}` must use canonical path `{canonical}`";;
               Ok (<[canonical := count_of s canonical + 1]> (required_counts s))
           | None => Ok (required_counts s)
           end;
  bail_if (bundle && match rsplit_once 46 normalized with
                     | Some (_, ext) => is_encrypted_msix_extension (to_ascii_lowercase ext)
                     | None => false
                     end)
    "cleartext APPX/MSIX bundle contains encrypted child package `{normalized}`";;
  Ok (mk_inv ({[normalized]} ∪ i_seen s) (<[folded := normalized]> (seen_casefolded s)) counts).
Fixpoint run_inventory (bundle : bool) (s : InventoryState) (names : list str) : outcome InventoryState :=
  match names with
  | [] => Ok s
  | name :: names' => s' ← inventory_step bundle s name; run_inventory bundle s' names'
  end.
Definition validate_package_part_inventory (file_names : list str) (ext : str) : outcome AppxPackageInventory :=
  let bundle := is_bundle ext in
  s ← run_inventory bundle (mk_inv ∅ ∅ ∅) file_names;
  bail_if (negb (forallb (λ required, count_of s required =? 1) [CONTENT_TYPES; BLOCK_MAP; APP_SIGNATURE]))
    "APPX/MSIX package must contain exactly one required part `{required}`";;
  (if bundle then
     bail_if (negb (count_of s BUNDLE_MANIFEST =? 1))
       "APPX/MSIX bundle must contain exactly one required part `{bundle_manifest}`";;
     bail_if (negb (count_of s APP_MANIFEST =? 0))
       "APPX/MSIX bundle must not contain top-level `{flat_manifest}`"
   else
     bail_if (negb (count_of s APP_MANIFEST =? 1))
       "APPX/MSIX package must contain exactly one required part `{flat_manifest}`";;
     bail_if (negb (count_of s BUNDLE_MANIFEST =? 0))
       "flat APPX/MSIX package must not contain bundle part `{bundle_manifest}`");;
  bail_if (1 <? count_of s CODE_INTEGRITY) "APPX/MSIX package must contain at most one `{code_integrity}`";;
  Ok (mk_inventory (count_of s CODE_INTEGRITY =? 1)).

(** ** Part names that are accepted *)

Definition part_name_ok (p : str) : Prop :=
  p ≠ [] ∧ (0 ∉ p) ∧ (92 ∉ p) ∧ (58 ∉ p) ∧ Forall (λ s, s ≠ [] ∧ s ≠ [46] ∧ s ≠ [46; 46]) (split 47 p).

Lemma existsb_eqb c s : existsb (Z.eqb c) s = false ↔ c ∉ s.
Proof.
  rewrite list_elem_of_In. split.
  - intros H Hin. assert (existsb (Z.eqb c) s = true); [|congruence].
    apply existsb_exists. exists c. by rewrite Z.eqb_refl.
  - intros H. apply not_true_iff_false. rewrite existsb_exists. intros (x & Hx & ->%Z.eqb_eq). done.
Qed.
Lemma invalid_segment_false s : invalid_segment s = false ↔ s ≠ [] ∧ s ≠ [46] ∧ s ≠ [46; 46].
Proof. unfold invalid_segment. rewrite !orb_false_iff, !bool_decide_eq_false. tauto. Qed.
Lemma existsb_segments ss :
  existsb invalid_segment ss = false ↔ Forall (λ s, s ≠ [] ∧ s ≠ [46] ∧ s ≠ [46; 46]) ss.
Proof.
  induction ss as [|s ss IH]; [by split; [constructor|]|]. cbn [existsb].
  by rewrite orb_false_iff, invalid_segment_false, IH, Forall_cons.
Qed.
Lemma replace_elem c t s x : x ∈ replace_char c t s → (x ∈ t ∧ c ∈ s) ∨ (x ∈ s ∧ x ≠ c).
Proof.
  unfold replace_char. rewrite list_elem_of_bind. intros (y & Hx & Hy). cbn beta in Hx.
  destruct (y =? c) eqn:E; zbool; [left; by subst|]. apply list_elem_of_singleton in Hx as ->. by right.
Qed.
Lemma replace_none c t s : c ∉ s → replace_char c t s = s.
Proof.
  unfold replace_char. induction s as [|d s IH]; [done|]. intros Hn. apply not_elem_of_cons in Hn as [Hd Hs].
  cbn. destruct (Z.eqb_spec d c); [congruence|]. cbn. by rewrite IH.
Qed.
Lemma replace_nil c d s : replace_char c [d] s = [] → s = [].
Proof. destruct s as [|x s]; [done|]. unfold replace_char. cbn. by destruct (x =? c). Qed.
Lemma replace_keeps c d s x : x ≠ c → x ∈ s → x ∈ replace_char c [d] s.
Proof.
  intros Hx Hs. unfold replace_char. rewrite list_elem_of_bind. exists x. split; [|done].
  destruct (Z.eqb_spec x c); [done|]. by apply list_elem_of_singleton.
Qed.
Lemma starts_with_slash p : Forall (λ s, s ≠ [] ∧ s ≠ [46] ∧ s ≠ [46; 46]) (split 47 p) → starts_with p [47] = false.
Proof.
  intros Hs. apply not_true_iff_false. rewrite starts_with_spec. intros (r & ->). cbn in Hs.
  apply Forall_cons in Hs as [[] _]. done.
Qed.
Lemma normalize_part_Ok name p :
  normalize_appx_part_name name = Ok p ↔ p = replace_char 92 [47] name ∧ part_name_ok p.
Proof.
  unfold normalize_appx_part_name. rewrite !bail_bind_Ok, !orb_false_iff, bool_decide_eq_false, !existsb_eqb, existsb_segments.
  split.
  - intros ((Hn & H0) & (_ & H58) & Hs & [= <-]). split; [done|]. split; [by intros ?%replace_nil|].
    split; [intros [[Hx%list_elem_of_singleton _]|[? _]]%replace_elem; done|].
    split; [intros [[Hx%list_elem_of_singleton _]|[_ ?]]%replace_elem; done|]. done.
  - intros (-> & Hne & H0 & H92 & H58 & Hs). split_and!; try done.
    + intros ->. by apply Hne.
    + intros Hin. apply H0. by apply replace_keeps.
    + by apply starts_with_slash.
Qed.
Lemma normalize_part_id p : part_name_ok p → normalize_appx_part_name p = Ok p.
Proof. intros Hp. apply normalize_part_Ok. split; [|done]. destruct Hp as (_ & _ & ? & _). by rewrite replace_none. Qed.
Lemma reserved_ok r : In r RESERVED → part_name_ok r.
Proof.
  intros Hr. apply (normalize_part_Ok r r). cbn in Hr. by repeat (destruct Hr as [<-|Hr]; [by vm_compute|]).
Qed.
Lemma normalize_part_not_panic n : normalize_appx_part_name n ≠ Panic.
Proof. unfold normalize_appx_part_name. nopanic. Qed.
#[export] Hint Resolve normalize_part_not_panic : psign.

(** ** The invariant of the block map *)

Section BlockMapProps.
Context `{Base64}.

Definition u64_opt (o : option Z) : Prop := ∀ n, o = Some n → 0 <= n < U64.
(** What holds of a [File] as it is read: the hashes are checked at the end. *)
Definition file_read (f : AppxBlockMapFile) : Prop :=
  normalize_appx_part_name (f_name f) = Ok (normalized_name f) ∧ 0 <= declared_size f < U64 ∧
  u64_opt (lfh_size f) ∧ Forall (λ b, u64_opt (compressed_size b)) (blocks f).
Definition bm_all (s : BlockMapState) : list AppxBlockMapFile :=
  bm_files s ++ match bm_current s with Some f => [f] | None => [] end.
Definition bm_inv (s : BlockMapState) : Prop :=
  NoDup (normalized_name <$> bm_all s) ∧ (∀ n, n ∈ normalized_name <$> bm_all s → n ∈ bm_seen s) ∧
  Forall file_read (bm_all s) ∧ bm_kind s ≠ Some Sha1.

Lemma parse_u64_range s n : parse_uint U64 s = Some n → 0 <= n < U64.
Proof. intros Hs%parse_uint_range. lia. Qed.
Lemma optional_u64_range e name o : optional_u64_xml_attr e name = Ok o → u64_opt o.
Proof.
  unfold optional_u64_xml_attr. intros ([v|] & _ & Hv)%bind_Ok; [|by injection Hv as <-].
  destruct (parse_uint U64 v) eqn:E; cbn in Hv; [|done]. injection Hv as <-.
  intros n [= <-]. by apply parse_u64_range in E.
Qed.
Lemma file_element_Ok s e seen f : file_element s e = Ok (seen, f) →
  seen = {[normalized_name f]} ∪ bm_seen s ∧ (normalized_name f ∉ bm_seen s) ∧ file_read f ∧ blocks f = [].
Proof.
  unfold file_element. intros Hf. inv_ok Hf. zbool.
  split; [done|]. split; [done|]. split; [|done]. split_and!; try done; [by eapply parse_u64_range|by eapply parse_u64_range|].
  by eapply optional_u64_range.
Qed.
(** Adding a file of a new name, wherever it is put in the list. *)
Lemma bm_inv_add s f all' : bm_inv s → normalized_name f ∉ bm_seen s → file_read f → all' ≡ₚ f :: bm_all s →
  NoDup (normalized_name <$> all') ∧
  (∀ n, n ∈ normalized_name <$> all' → n ∈ ({[normalized_name f]} ∪ bm_seen s : gset str)) ∧ Forall file_read all'.
Proof.
  intros (Hd & Hs & Hf & _) Hn Hr Hp. rewrite Hp. split; [|split; [|by constructor]].
  - rewrite fmap_cons. apply NoDup_cons. split; [|done]. intros Hin. by apply Hn, Hs.
  - intros n Hin. assert (n ∈ normalized_name <$> (f :: bm_all s)) as Hin' by (by rewrite <-Hp).
    rewrite fmap_cons, elem_of_cons in Hin'. apply elem_of_union.
    destruct Hin' as [->|Hin']; [left; by apply elem_of_singleton|right; by apply Hs].
Qed.
Lemma file_read_with f bs h : file_read f → Forall (λ b, u64_opt (compressed_size b)) bs →
  file_read (mk_file (f_name f) (normalized_name f) (declared_size f) (lfh_size f) bs h).
Proof. by intros (? & ? & ? & _) ?. Qed.
Lemma current_read s f : bm_inv s → bm_current s = Some f → file_read f.
Proof.
  intros (_ & _ & Hf & _) Hc. rewrite Forall_forall in Hf. apply Hf. unfold bm_all. rewrite Hc.
  apply elem_of_app. right. by apply list_elem_of_singleton.
Qed.
Lemma bm_inv_replace s f f' : bm_inv s → bm_current s = Some f → normalized_name f' = normalized_name f →
  file_read f' → bm_inv (mk_bm (bm_kind s) (bm_files s) (Some f') (bm_seen s) (in_block_map s)).
Proof.
  unfold bm_inv, bm_all. cbn. intros (Hd & Hs & Hf & Hk) Hc Hn Hr. rewrite Hc in *.
  rewrite !fmap_app in *. cbn in *. rewrite Hn. split_and!; try done.
  apply Forall_app in Hf as [Hf _]. apply Forall_app. split; [done|by apply Forall_singleton].
Qed.

Lemma block_map_step_inv s ev s' : bm_inv s → block_map_step s ev = Ok s' → bm_inv s'.
Proof.
  intros HI. pose proof HI as (Hd & Hs & Hf & Hk).
  assert (∀ e open, block_map_root s e open = Ok s' → bm_inv s') as Hroot.
  { unfold block_map_root. intros e open Hr. inv_ok Hr. split_and!; try done. cbn.
    intros [= ->]. unfold hash_kind_from_block_map_uri in E1. by repeat case_bool_decide. }
  assert (∀ e, block_element s e = Ok s' → bm_inv s') as Hblock.
  { unfold block_element. intros e Hr. inv_ok Hr. eapply bm_inv_replace; [done..|].
    pose proof (current_read _ _ HI E) as Hr. apply file_read_with; [done|].
    apply Forall_app. split; [apply Hr|]. apply Forall_singleton. by eapply optional_u64_range. }
  assert (∀ e, file_hash_element s e = Ok s' → bm_inv s') as Hhash.
  { unfold file_hash_element. intros e Hr. inv_ok Hr. eapply bm_inv_replace; [done..|].
    pose proof (current_read _ _ HI E) as Hr. apply file_read_with; [done|apply Hr]. }
  assert (∀ e, file_start s e = Ok s' → bm_inv s') as Hstart.
  { unfold file_start. intros e Hr. inv_ok Hr. destruct r as [seen f]. injection Hr as <-.
    apply file_element_Ok in E1 as (-> & Hn & Hr & _). zbool.
    destruct (bm_inv_add s f (bm_files s ++ [f]) HI Hn Hr) as (? & ? & ?); [|done].
    unfold bm_all. destruct (bm_current s); [by destruct E0|]. rewrite app_nil_r. by rewrite Permutation_app_comm. }
  assert (∀ e, file_empty s e = Ok s' → bm_inv s') as Hempty.
  { unfold file_empty. intros e Hr. inv_ok Hr. destruct r as [seen f]. injection Hr as <-.
    apply file_element_Ok in E0 as (-> & Hn & Hr & _).
    destruct (bm_inv_add s f ((bm_files s ++ [f]) ++ match bm_current s with Some f => [f] | None => [] end) HI Hn Hr)
      as (? & ? & ?); [|done].
    unfold bm_all. rewrite <-app_assoc. symmetry. apply Permutation_middle. }
  destruct ev as [e|e|n|t|]; cbn; try (by intros [= <-]).
  1,2: destruct (named e "BlockMap"); [by apply Hroot|]; destruct (named e "File"); [by eauto|];
    destruct (named e "Block"); [by apply Hblock|]; destruct (named e "FileHash"); [by apply Hhash|done].
  case_bool_decide; [|case_bool_decide; [|by intros [= <-]]]; intros Hr; inv_ok Hr; [done|].
  unfold bm_inv, bm_all in *. cbn. rewrite E in *. by rewrite app_nil_r.
Qed.
End BlockMapProps.

(** ** The inventory *)

Definition parts_of (names : list str) : list str := List.filter (λ n, negb (is_directory_name n)) names.
(** A part name that is accepted as it stands. *)
Definition part_accepted (bundle : bool) (n : str) : Prop :=
  part_name_ok n ∧ (∀ c, canonical_reserved_part n = Some c → n = c) ∧
  (bundle = true → ∀ p ext, rsplit_once 46 n = Some (p, ext) →
     is_encrypted_msix_extension (to_ascii_lowercase ext) = false).
Definition inv_of (s : InventoryState) (ps : list str) : Prop :=
  (∀ n, n ∈ i_seen s ↔ n ∈ ps) ∧ (∀ k, is_Some (seen_casefolded s !! k) ↔ k ∈ to_ascii_lowercase <$> ps) ∧
  (∀ r, r ∈ RESERVED → count_of s r = if bool_decide (r ∈ ps) then 1 else 0).

Lemma eq_ignore_case_refl s : eq_ignore_ascii_case s s = true.
Proof. unfold eq_ignore_ascii_case. by apply bool_decide_eq_true. Qed.
Lemma canonical_None n r : canonical_reserved_part n = None → r ∈ RESERVED → n ≠ r.
Proof.
  intros Hc Hr ->. apply list_elem_of_In in Hr. pose proof (find_none _ _ Hc _ Hr) as Hn.
  cbn beta in Hn. by rewrite eq_ignore_case_refl in Hn.
Qed.
Lemma part_name_no_backslash n p : 92 ∉ n → normalize_appx_part_name n = Ok p → p = n ∧ part_name_ok n.
Proof. intros Hn (-> & Hp)%normalize_part_Ok. by rewrite replace_none in * by done. Qed.

Lemma elem_of_snoc (x n : str) ps : x ∈ ps ++ [n] ↔ x ∈ ps ∨ x = n.
Proof. by rewrite elem_of_app, list_elem_of_singleton. Qed.
Lemma elem_of_snoc_ne (x n : str) ps : x ≠ n → x ∈ ps ↔ x ∈ ps ++ [n].
Proof. rewrite elem_of_snoc. tauto. Qed.
Lemma inventory_step_Ok bundle s ps n s' :
  inv_of s ps → is_directory_name n = false → inventory_step bundle s n = Ok s' →
  part_accepted bundle n ∧ (to_ascii_lowercase n ∉ to_ascii_lowercase <$> ps) ∧ inv_of s' (ps ++ [n]).
Proof.
  intros (Hseen & Hfold & Hcount) Hdir. unfold inventory_step. rewrite Hdir. intros Hs.
  inv_ok Hs. zbool. apply existsb_eqb in E.
  apply part_name_no_backslash in E0 as [-> Hok]; [|done].
  rewrite Hfold in E2.
  assert (n ∉ ps) as Hnew by (intros Hin; apply E2; by apply list_elem_of_fmap_2).
  split; [split; [done|]|split; [done|]].
  - split.
    + intros c Hc. rewrite Hc in E3. inv_ok E3. by zbool.
    + intros -> p ext Hx. by rewrite Hx in E4.
  - split; [|split].
    + intros m. cbn. rewrite elem_of_union, elem_of_singleton, Hseen, elem_of_app, list_elem_of_singleton. tauto.
    + intros k. cbn. rewrite fmap_app, elem_of_app, <-Hfold. cbn. rewrite list_elem_of_singleton.
      destruct (decide (k = to_ascii_lowercase n)) as [->|Hk].
      * rewrite lookup_insert_eq. split; [by right|by eauto].
      * rewrite lookup_insert_ne by done. split; [by left|]. by intros [?|?].
    + intros r Hr. unfold count_of. cbn. specialize (Hcount r Hr).
      destruct (canonical_reserved_part n) as [c|] eqn:Hc.
      * inv_ok E3. zbool. subst c. destruct (decide (r = n)) as [->|Hrn].
        -- rewrite lookup_insert_eq. rewrite bool_decide_eq_false_2 in Hcount by done.
           rewrite bool_decide_eq_true_2 by (apply elem_of_snoc; by right). cbn. lia.
        -- rewrite lookup_insert_ne by done. fold (count_of s r). rewrite Hcount.
           by rewrite (bool_decide_ext _ _ (elem_of_snoc_ne r n ps Hrn)).
      * injection E3 as <-. pose proof (canonical_None _ _ Hc Hr) as Hne. fold (count_of s r). rewrite Hcount.
        by rewrite (bool_decide_ext _ _ (elem_of_snoc_ne r n ps (not_eq_sym Hne))).
Qed.
Lemma inventory_step_accepts bundle s ps n :
  inv_of s ps → is_directory_name n = false → part_accepted bundle n →
  to_ascii_lowercase n ∉ to_ascii_lowercase <$> ps → ∃ s', inventory_step bundle s n = Ok s'.
Proof.
  intros (Hseen & Hfold & _) Hdir (Hok & Hcan & Henc) Hnew. unfold inventory_step. rewrite Hdir.
  pose proof Hok as (_ & _ & H92 & _). rewrite (proj2 (existsb_eqb 92 n)) by done. cbn [bail_if mbind outcome_bind].
  rewrite normalize_part_id by done. cbn [bail_if mbind outcome_bind].
  rewrite (bool_decide_eq_false_2 (n ∈ i_seen s)) by (rewrite Hseen; intros Hin; apply Hnew; by apply list_elem_of_fmap_2).
  rewrite bool_decide_eq_false_2 by (by rewrite Hfold). cbn [bail_if mbind outcome_bind].
  destruct (canonical_reserved_part n) as [c|]; cbn [mbind outcome_bind].
  - rewrite <-(Hcan c) by done. rewrite bool_decide_eq_true_2 by done. cbn [negb bail_if mbind outcome_bind].
    destruct bundle, (rsplit_once 46 n) as [[p ext]|] eqn:Hx; cbn; try by eauto.
    rewrite (Henc eq_refl p ext) by done. cbn. by eauto.
  - destruct bundle, (rsplit_once 46 n) as [[p ext]|] eqn:Hx; cbn; try by eauto.
    rewrite (Henc eq_refl p ext) by done. cbn. by eauto.
Qed.

Lemma run_inventory_Ok bundle names s ps s' :
  inv_of s ps → NoDup (to_ascii_lowercase <$> ps) → run_inventory bundle s names = Ok s' →
  Forall (part_accepted bundle) (parts_of names) ∧ NoDup (to_ascii_lowercase <$> ps ++ parts_of names) ∧
  inv_of s' (ps ++ parts_of names).
Proof.
  revert s ps. induction names as [|n names IH]; intros s ps HI Hd; cbn [run_inventory parts_of List.filter].
  { intros [= <-]. by rewrite app_nil_r. }
  intros (s1 & H1 & H2)%bind_Ok. destruct (is_directory_name n) eqn:Hdir; cbn [negb].
  { unfold inventory_step in H1. rewrite Hdir in H1. injection H1 as <-. by eapply IH. }
  apply (inventory_step_Ok _ _ ps) in H1 as (Ha & Hn & HI'); [|done..].
  apply (IH _ (ps ++ [n])) in H2 as (Hf & Hd' & HI2); [|done|].
  - rewrite <-app_assoc in *. split; [by constructor|]. done.
  - rewrite fmap_app. apply NoDup_app. split; [done|]. split; [|by apply NoDup_singleton].
    intros x Hx ->%list_elem_of_singleton. done.
Qed.
Lemma run_inventory_accepts bundle names s ps :
  inv_of s ps → Forall (part_accepted bundle) (parts_of names) →
  NoDup (to_ascii_lowercase <$> ps ++ parts_of names) → ∃ s', run_inventory bundle s names = Ok s'.
Proof.
  revert s ps. induction names as [|n names IH]; intros s ps HI; cbn [run_inventory parts_of List.filter]; [by eauto|].
  destruct (is_directory_name n) eqn:Hdir; cbn [negb]; intros Hf Hd.
  { destruct (IH s ps HI Hf Hd) as [s' Hs']. exists s'. unfold inventory_step. by rewrite Hdir. }
  apply Forall_cons in Hf as [Ha Hf].
  destruct (inventory_step_accepts bundle s ps n HI Hdir Ha) as [s1 H1].
  { rewrite fmap_app in Hd. apply NoDup_app in Hd as (_ & Hd & _). intros Hin. apply (Hd _ Hin). by left. }
  rewrite H1. cbn [mbind outcome_bind]. apply (IH _ (ps ++ [n])); [|done|by rewrite <-app_assoc].
  by eapply inventory_step_Ok.
Qed.
Lemma inv_of_empty : inv_of (mk_inv ∅ ∅ ∅) [].
Proof.
  split; [|split].
  - intros n. cbn. split; [by intros ?%not_elem_of_empty|by intros ?%elem_of_nil].
  - intros k. cbn. rewrite lookup_empty, elem_of_nil. split; [by intros []|done].
  - intros r _. unfold count_of. cbn. by rewrite lookup_empty.
Qed.
Lemma count_1 s ps r : inv_of s ps → r ∈ RESERVED → (count_of s r =? 1) = bool_decide (r ∈ ps).
Proof. intros (_ & _ & Hc) Hr. rewrite Hc by done. by case_bool_decide. Qed.
Lemma count_0 s ps r : inv_of s ps → r ∈ RESERVED → (count_of s r =? 0) = negb (bool_decide (r ∈ ps)).
Proof. intros (_ & _ & Hc) Hr. rewrite Hc by done. by case_bool_decide. Qed.

(** The parts a package must and must not have. *)
Definition required_parts (bundle : bool) (ps : list str) : Prop :=
  CONTENT_TYPES ∈ ps ∧ BLOCK_MAP ∈ ps ∧ APP_SIGNATURE ∈ ps ∧
  if bundle then BUNDLE_MANIFEST ∈ ps ∧ APP_MANIFEST ∉ ps else APP_MANIFEST ∈ ps ∧ BUNDLE_MANIFEST ∉ ps.

(** The inventory accepts exactly the packages whose parts have safe,
    canonical and case-insensitively distinct names, with each required part
    there, the manifest of the other kind of package absent, and in a bundle
    no encrypted child; it reports whether there is a code-integrity catalog. *)
Theorem part_inventory_spec names ext inventory :
  validate_package_part_inventory names ext = Ok inventory ↔
  Forall (part_accepted (is_bundle ext)) (parts_of names) ∧
  NoDup (to_ascii_lowercase <$> parts_of names) ∧ required_parts (is_bundle ext) (parts_of names) ∧
  has_code_integrity inventory = bool_decide (CODE_INTEGRITY ∈ parts_of names).
Proof.
  assert (∀ s, inv_of s (parts_of names) →
    (forallb (λ required, count_of s required =? 1) [CONTENT_TYPES; BLOCK_MAP; APP_SIGNATURE] = true ↔
     CONTENT_TYPES ∈ parts_of names ∧ BLOCK_MAP ∈ parts_of names ∧ APP_SIGNATURE ∈ parts_of names) ∧
    (1 <? count_of s CODE_INTEGRITY) = false) as Hreq.
  { intros s HI. cbn [forallb]. rewrite !(count_1 s _ _ HI) by (apply list_elem_of_In; cbn; tauto).
    rewrite !andb_true_iff, !bool_decide_eq_true. split; [tauto|].
    destruct HI as (_ & _ & Hc). rewrite Hc by (apply list_elem_of_In; cbn; tauto). by case_bool_decide. }
  unfold validate_package_part_inventory. cbv zeta. split.
  - intros (s & Hs & Hv)%bind_Ok. apply (run_inventory_Ok _ _ _ []) in Hs as (Hf & Hd & HI); [|apply inv_of_empty|constructor].
    cbn [app] in *. destruct (Hreq s HI) as [Hreq1 Hreq2]. apply bail_bind_Ok in Hv as [Ha Hv].
    apply negb_false_iff, Hreq1 in Ha as (? & ? & ?). unfold required_parts.
    destruct (is_bundle ext); inv_ok Hv; rewrite !(count_1 s _ _ HI), ?(count_0 s _ _ HI) in * by (apply list_elem_of_In; cbn; tauto);
      zbool; done.
  - intros (Hf & Hd & (? & ? & ? & Hm) & Hci).
    destruct (run_inventory_accepts (is_bundle ext) names (mk_inv ∅ ∅ ∅) [] inv_of_empty Hf Hd) as [s Hs].
    rewrite Hs. apply (run_inventory_Ok _ _ _ []) in Hs as (_ & _ & HI); [|apply inv_of_empty|constructor]. cbn [app] in HI.
    destruct (Hreq s HI) as [Hreq1 Hreq2]. cbn [mbind outcome_bind]. rewrite (proj2 Hreq1) by done. rewrite Hreq2.
    rewrite !(count_1 s _ _ HI), !(count_0 s _ _ HI), <-Hci by (apply list_elem_of_In; cbn; tauto).
    destruct inventory as [ci], (is_bundle ext), Hm as [Hm1 Hm2];
      rewrite (bool_decide_eq_true_2 _ Hm1), (bool_decide_eq_false_2 _ Hm2); done.
Qed.

(** ** Block maps that are accepted *)

Definition block_map_ok (k : PeAuthenticodeHashKind) (files : list AppxBlockMapFile) : Prop :=
  k ≠ Sha1 ∧ NoDup (normalized_name <$> files) ∧
  Forall (λ f,
    normalized_name f = replace_char 92 [47] (f_name f) ∧ part_name_ok (normalized_name f) ∧
    0 <= declared_size f < U64 ∧ u64_opt (lfh_size f) ∧
    (∀ h, file_hash f = Some h → len h = digest_output_len k) ∧
    Forall (λ b, len (b_hash b) = digest_output_len k ∧ u64_opt (compressed_size b)) (blocks f)) files.

Lemma check_block_lens_Ok n bs : check_block_lens n bs = Ok tt ↔ Forall (λ b, len (b_hash b) = n) bs.
Proof.
  induction bs as [|b bs IH]; [by split; [constructor|]|]. cbn [check_block_lens].
  by rewrite bail_bind_Ok, negb_false_iff, Z.eqb_eq, IH, Forall_cons.
Qed.
Lemma check_hash_lens_Ok n files :
  check_hash_lens n files = Ok tt ↔
  Forall (λ f, (∀ h, file_hash f = Some h → len h = n) ∧ Forall (λ b, len (b_hash b) = n) (blocks f)) files.
Proof.
  induction files as [|f files IH]; [by split; [constructor|]|]. cbn [check_hash_lens].
  rewrite bail_bind_Ok, bind_Ok, Forall_cons. split.
  - intros (Hh & [] & Hb & Hr). split; [|by apply IH]. split; [|by apply check_block_lens_Ok].
    intros h E. rewrite E in Hh. by zbool.
  - intros ((Hh & Hb) & Hr). split; [|exists tt; split; [by apply check_block_lens_Ok|by apply IH]].
    destruct (file_hash f) as [h|]; [|done]. by rewrite (Hh h), Z.eqb_refl by done.
Qed.

(** C25: Every block map that is accepted is well formed: files have distinct
    names that stay inside the package (no drive, no empty, [.] or [..]
    segment, separators normalised), sizes fit 64 bits, and every hash has the
    length of the declared algorithm, which is not SHA-1. *)
Theorem block_map_well_formed `{Base64} `{XmlReader} xml k files :
  parse_block_map_xml xml = Ok (k, files) → block_map_ok k files.
Proof.
  unfold parse_block_map_xml. destruct (read_events xml) as [evs eof]. intros Hp. inv_ok Hp.
  assert (bm_inv r) as (Hd & _ & Hf & Hk).
  { eapply run_events_inv; [intros s ev s'; apply block_map_step_inv| |exact E]. split; [apply NoDup_nil_2|].
    split; [by intros n ?%elem_of_nil|]. by split; [constructor|]. }
  zbool. unfold bm_all in *. destruct (bm_current r); [by destruct E1|]. rewrite app_nil_r in *.
  split; [congruence|]. split; [done|]. destruct r1. apply check_hash_lens_Ok in E3.
  apply Forall_forall. intros f Hin. rewrite Forall_forall in Hf, E3.
  destruct (Hf f Hin) as (Hn & Hs & Hl & Hb), (E3 f Hin) as (Hh & Hbl).
  apply normalize_part_Ok in Hn as [Hn Hok]. split_and!; try done; [apply Hs..|]. by apply Forall_and.
Qed.

(** ** Runs *)

Definition toy_inventory : list str :=
  [chars "assets/"; APP_MANIFEST; chars "assets/logo.png"; BLOCK_MAP; CONTENT_TYPES; APP_SIGNATURE].
Example toy_inventory_accepted :
  validate_package_part_inventory toy_inventory (chars "msix") = Ok (mk_inventory false) ∧
  is_err (validate_package_part_inventory toy_inventory (chars "msixbundle")) = true ∧
  is_err (validate_package_part_inventory (toy_inventory ++ [chars "Assets/Logo.png"]) (chars "msix")) = true.
Proof. by vm_compute. Qed.

(** A block map of one file of one block. *)
Definition toy_block_map : bytes := encode_utf8 (concat (tag_text <$>
  [TStart "BlockMap" [("HashMethod"%string, HASH_SHA256)];
   TStart "File" [("Name"%string, chars "a\b.txt"); ("Size"%string, chars "2"); ("LfhSize"%string, chars "37")];
   TEmpty "Block" [("Hash"%string, encode64 (replicate 32 (byte_of 7)))];
   TEnd "File"; TEnd "BlockMap"])).
Lemma block_map_well_formed_witness :
  ∃ k files, @parse_block_map_xml StdBase64 ToyXml toy_block_map = Ok (k, files) ∧ block_map_ok k files ∧
    normalized_name <$> files = [chars "a/b.txt"].
Proof.
  destruct (@parse_block_map_xml StdBase64 ToyXml toy_block_map) as [[k files]| |] eqn:E; [|by vm_compute in E..].
  exists k, files. split; [done|]. split; [by apply (@block_map_well_formed StdBase64 ToyXml toy_block_map)|].
  vm_compute in E. by injection E as <- <-.
Defined.
