(* ===== verification/AppxTypes.v ===== *)
(** Content types of an APPX or MSIX package: reading [[Content_Types].xml],
    the reserved parts' types, and the file written for signing, in
    [crates/psign-sip-digest/src/msix_digest.rs]. *)

From Stdlib Require Import Sorted.
From stdpp Require Import gmap.
From S2P Require Import Prelude.
From S2P Require Import RustStr.
From S2P Require Import Xml.
From S2P Require Import AppxParts.

Record AppxContentTypes := mk_types { defaults : gmap str str; overrides : gmap str str }.

(** ** Content types *)

Record TypesState := mk_ts { in_types : bool; saw_types : bool; ts_types : AppxContentTypes }.

Definition types_root (s : TypesState) (open : bool) : outcome TypesState :=
  bail_if (saw_types s) "duplicate [Content_Types].xml Types root";;
  Ok (mk_ts (open || in_types s) true (ts_types s)).
Definition default_element (s : TypesState) (e : BytesStart) : outcome TypesState :=
  bail_if (negb (in_types s)) "[Content_Types].xml Default outside Types";;
  extension ← required_xml_attr e "Extension";
  content_type ← required_xml_attr e "ContentType";
  bail_if (bool_decide (extension = []) || existsb (Z.eqb 47) extension || existsb (Z.eqb 92) extension)
    "[Content_Types].xml Default has invalid Extension `{extension}`";;
  bail_if (bool_decide (content_type = [])) "[Content_Types].xml Default `{extension}` has empty ContentType";;
  let key := to_ascii_lowercase extension in
  let ts := ts_types s in
  bail_if (bool_decide (is_Some (defaults ts !! key)))
    "duplicate [Content_Types].xml Default for extension `{extension}`";;
  Ok (mk_ts (in_types s) (saw_types s) (mk_types (<[key := content_type]> (defaults ts)) (overrides ts))).
Definition override_element (s : TypesState) (e : BytesStart) : outcome TypesState :=
  bail_if (negb (in_types s)) "[Content_Types].xml Override outside Types";;
  part_name ← required_xml_attr e "PartName";
  content_type ← required_xml_attr e "ContentType";
  rest ← ok_or (strip_prefix [47] part_name)
    "[Content_Types].xml Override PartName `{part_name}` is not absolute";
  bail_if (bool_decide (content_type = [])) "[Content_Types].xml Override `{part_name}` has empty ContentType";;
  normalized ← normalize_appx_part_name rest;
  let key := to_ascii_lowercase normalized in
  let ts := ts_types s in
  bail_if (bool_decide (is_Some (overrides ts !! key)))
    "duplicate [Content_Types].xml Override for part `{part_name}`";;
  Ok (mk_ts (in_types s) (saw_types s) (mk_types (defaults ts) (<[key := content_type]> (overrides ts)))).

Definition content_types_step (s : TypesState) (ev : XmlEvent) : outcome TypesState :=
  match ev with
  | EStart e | EEmpty e =>
      let open := match ev with EStart _ => true | _ => false end in
      if named e "Types" then types_root s open
      else if named e "Default" then default_element s e
      else if named e "Override" then override_element s e
      else Err "unexpected [Content_Types].xml element `{}`"
  | EEnd n =>
      if bool_decide (n = lit "Types") then Ok (mk_ts false (saw_types s) (ts_types s)) else Ok s
  | EText t =>
      text ← ok_or t "[Content_Types].xml text decode failed: {e}";
      bail_if (negb (bool_decide (trim text = []))) "[Content_Types].xml contains non-whitespace text";;
      Ok s
  | EOther => Ok s
  end.
Definition validate_content_types_xml `{XmlReader} (xml : bytes) : outcome AppxContentTypes :=
  let '(evs, eof) := read_events xml in
  s ← run_events content_types_step (mk_ts false false (mk_types ∅ ∅)) evs;
  bail_if (negb eof) "[Content_Types].xml parse failed: {e}";;
  bail_if (negb (saw_types s)) "[Content_Types].xml missing Types root";;
  bail_if (in_types s) "unterminated [Content_Types].xml Types root";;
  Ok (ts_types s).

Definition content_type_for_part (content_types : AppxContentTypes) (part : str) : option str :=
  normalized ← ok_opt (normalize_appx_part_name part);
  let folded := to_ascii_lowercase normalized in
  match overrides content_types !! folded with
  | Some content_type => Some content_type
  | None => '(_, ext) ← rsplit_once 46 normalized; defaults content_types !! to_ascii_lowercase ext
  end.
Definition require_content_type (content_types : AppxContentTypes) (part expected : str) : outcome unit :=
  actual ← ok_or (content_type_for_part content_types part)
    "[Content_Types].xml does not declare a content type for `{part}`";
  bail_if (negb (eq_ignore_ascii_case actual expected))
    "[Content_Types].xml content type for `{part}` is `{actual}`, expected `{expected}`".

Definition CONTENT_TYPE_MANIFEST : str := chars "application/vnd.ms-appx.manifest+xml".
Definition CONTENT_TYPE_BUNDLE_MANIFEST : str := chars "application/vnd.ms-appx.bundlemanifest+xml".
Definition CONTENT_TYPE_BLOCK_MAP : str := chars "application/vnd.ms-appx.blockmap+xml".
Definition CONTENT_TYPE_SIGNATURE : str := chars "application/vnd.ms-appx.signature".

Definition validate_reserved_content_types (content_types : AppxContentTypes)
    (inventory : AppxPackageInventory) (ext : str) : outcome unit :=
  require_content_type content_types BLOCK_MAP (chars "application/vnd.ms-appx.blockmap+xml");;
  require_content_type content_types APP_SIGNATURE (chars "application/vnd.ms-appx.signature");;
  (if has_code_integrity inventory
   then require_content_type content_types CODE_INTEGRITY (chars "application/vnd.ms-pkiseccat")
   else Ok tt);;
  if is_bundle ext
  then require_content_type content_types BUNDLE_MANIFEST (chars "application/vnd.ms-appx.bundlemanifest+xml")
  else require_content_type content_types APP_MANIFEST (chars "application/vnd.ms-appx.manifest+xml").

(** ** Content types for signing *)

(** A [BTreeMap] of strings: an association list in the order of its keys. *)
Abbreviation btree := (list (str * str)).
Fixpoint btree_insert (k v : str) (m : btree) : btree :=
  match m with
  | [] => [(k, v)]
  | (k', v') :: m' =>
      if bool_decide (k = k') then (k, v) :: m'
      else if str_le k k' then (k, v) :: m else (k', v') :: btree_insert k v m'
  end.
Fixpoint btree_get (m : btree) (k : str) : option str :=
  match m with
  | [] => None
  | (k', v) :: m' => if bool_decide (k = k') then Some v else btree_get m' k
  end.
Definition btree_collect (m : gmap str str) : btree :=
  foldr (λ p, btree_insert (fst p) (snd p)) [] (map_to_list m).

Definition EXTENSION_TYPES : list (list string * string) :=
  [(["png"], "image/png"); (["jpg"; "jpeg"], "image/jpeg"); (["gif"], "image/gif"); (["bmp"], "image/bmp");
   (["ico"], "image/vnd.microsoft.icon"); (["svg"], "image/svg+xml");
   (["exe"; "dll"; "sys"], "application/x-msdownload"); (["json"], "application/json"); (["txt"], "text/plain");
   (["htm"; "html"], "text/html"); (["css"], "text/css"); (["js"], "application/javascript");
   (["cat"], "application/vnd.ms-pkiseccat"); (["appx"], "application/vnd.ms-appx");
   (["msix"], "application/msix"); (["appxbundle"], "application/vnd.ms-appx.bundle");
   (["msixbundle"], "application/msixbundle")]%string.
Definition default_content_type_for_extension (extension : str) : str :=
  if bool_decide (extension = chars "xml") then CONTENT_TYPE_MANIFEST else
  match List.find (λ row, bool_decide (extension ∈ chars <$> fst row)) EXTENSION_TYPES with
  | Some row => chars (snd row)
  | None => chars "application/octet-stream"
  end.

(** The extension of the last segment, lower case, or nothing. *)
Definition part_extension (part : str) : str :=
  default [] ('(_, ext) ← (leaf ← last (split 47 part); rsplit_once 46 leaf); Some (to_ascii_lowercase ext)).

(** One payload part: the defaults and the overrides after it. *)
Definition content_type_part (input_overrides : gmap str str) (manifest_part manifest_type : str)
    (s : btree * list (str * str)) (part : str) : outcome (btree * list (str * str)) :=
  let '(ds, os) := s in
  normalized ← normalize_appx_part_name part;
  let extension := part_extension normalized in
  let explicit := input_overrides !! to_ascii_lowercase normalized in
  if eq_ignore_ascii_case normalized manifest_part then
    let ds :=
      if bool_decide (explicit = None) && negb (bool_decide (extension = []))
         && bool_decide (btree_get ds extension = None)
      then btree_insert extension manifest_type ds else ds in
    let resolved := match explicit with Some ct => Some ct | None => btree_get ds extension end in
    if match resolved with Some ct => eq_ignore_ascii_case ct manifest_type | None => false end
    then Ok (ds, os) else Ok (ds, os ++ [(normalized, manifest_type)])
  else match explicit with
  | Some content_type => Ok (ds, os ++ [(normalized, content_type)])
  | None =>
      if bool_decide (extension = []) then Ok (ds, os ++ [(normalized, chars "application/octet-stream")])
      else Ok (match btree_get ds extension with
               | Some _ => ds
               | None => btree_insert extension (default_content_type_for_extension extension) ds
               end, os)
  end.
Fixpoint content_type_parts (input_overrides : gmap str str) (manifest_part manifest_type : str)
    (s : btree * list (str * str)) (parts : list str) : outcome (btree * list (str * str)) :=
  match parts with
  | [] => Ok s
  | part :: parts' =>
      s' ← content_type_part input_overrides manifest_part manifest_type s part;
      content_type_parts input_overrides manifest_part manifest_type s' parts'
  end.

Definition default_text (p : str * str) : str :=
  chars "<Default" ++ attr_text "Extension" (escape (fst p)) ++ attr_text "ContentType" (escape (snd p)) ++ chars "/>".
Definition override_text (p : str * str) : str :=
  chars "<Override" ++ attr_text "PartName" (47 :: escape (fst p))
  ++ attr_text "ContentType" (escape (snd p)) ++ chars "/>".
Definition types_header : str :=
  xml_declaration "yes" ++ [10]
  ++ chars "<Types" ++ attr_text "xmlns" (chars "http://schemas.openxmlformats.org/package/2006/content-types")
  ++ chars ">".

(** The defaults and overrides of the generated file. *)
Definition content_types_for_signing (types : AppxContentTypes) (payload_parts : list str) (bundle : bool)
    : outcome (btree * list (str * str)) :=
  let '(manifest_part, manifest_type) :=
    if bundle then (BUNDLE_MANIFEST, CONTENT_TYPE_BUNDLE_MANIFEST) else (APP_MANIFEST, CONTENT_TYPE_MANIFEST) in
  '(ds, os) ← content_type_parts (overrides types) manifest_part manifest_type
                (btree_collect (defaults types), []) payload_parts;
  Ok (ds, os ++ [(BLOCK_MAP, CONTENT_TYPE_BLOCK_MAP); (APP_SIGNATURE, CONTENT_TYPE_SIGNATURE)]).
Definition types_text (ds : btree) (os : list (str * str)) : str :=
  types_header ++ concat (default_text <$> ds) ++ concat (override_text <$> os) ++ chars "</Types>".
Definition appx_content_types_for_signing `{XmlReader} (existing : option bytes) (payload_parts : list str)
    (bundle : bool) : outcome str :=
  types ← match existing with
          | Some xml => validate_content_types_xml xml
          | None => Ok (mk_types ∅ ∅)
          end;
  '(ds, os) ← content_types_for_signing types payload_parts bundle;
  Ok (types_text ds os).

(** ** The generated file *)

Definition default_tag (p : str * str) : XmlTag := TEmpty "Default" [("Extension"%string, fst p); ("ContentType"%string, snd p)].
Definition override_tag (p : str * str) : XmlTag :=
  TEmpty "Override" [("PartName"%string, 47 :: fst p); ("ContentType"%string, snd p)].
Definition types_tags (ds : btree) (os : list (str * str)) : list XmlTag :=
  TStart "Types" [("xmlns"%string, chars "http://schemas.openxmlformats.org/package/2006/content-types")]
  :: (default_tag <$> ds) ++ (override_tag <$> os) ++ [TEnd "Types"].

Lemma default_text_tag p : default_text p = tag_text (default_tag p).
Proof. unfold default_text, tag_text, default_tag, attrs_text. cbn. by rewrite app_nil_r, <-!app_assoc. Qed.
Lemma override_text_tag p : override_text p = tag_text (override_tag p).
Proof. unfold override_text, tag_text, override_tag, attrs_text. cbn. by rewrite app_nil_r, <-!app_assoc. Qed.
Lemma types_text_tags ds os :
  types_text ds os = (xml_declaration "yes" ++ [10]) ++ concat (tag_text <$> types_tags ds os).
Proof.
  unfold types_text, types_tags, types_header.
  rewrite fmap_cons, !fmap_app, concat_cons, !concat_app, <-!list_fmap_compose.
  rewrite (list_fmap_ext default_text (tag_text ∘ default_tag) ds) by (intros; apply default_text_tag).
  rewrite (list_fmap_ext override_text (tag_text ∘ override_tag) os) by (intros; apply override_text_tag).
  rewrite <-!app_assoc. do 2 f_equal.
Qed.

(** ** Ordered maps *)

Definition str_lt (a b : str) : Prop := str_le a b = true ∧ a ≠ b.
Definition btree_sorted (m : btree) : Prop := StronglySorted str_lt (fst <$> m).

Lemma btree_get_insert m k v k' :
  btree_get (btree_insert k v m) k' = if decide (k' = k) then Some v else btree_get m k'.
Proof.
  induction m as [|[k0 v0] m IH]; cbn; [by repeat case_decide|].
  case_bool_decide as E1; [|destruct (str_le k k0)]; cbn.
  - subst k0. case_bool_decide; by repeat case_decide.
  - case_bool_decide; by repeat case_decide.
  - rewrite IH. case_bool_decide; repeat case_decide; congruence.
Qed.
Lemma btree_insert_keys m k v x : x ∈ fst <$> btree_insert k v m → x = k ∨ x ∈ fst <$> m.
Proof.
  induction m as [|[k0 v0] m IH]; cbn; [by intros ?%list_elem_of_singleton; left|].
  case_bool_decide as E1; [|destruct (str_le k k0)]; cbn; rewrite !elem_of_cons; tauto.
Qed.
Lemma btree_insert_sorted m k v : btree_sorted m → btree_sorted (btree_insert k v m).
Proof.
  unfold btree_sorted. induction m as [|[k0 v0] m IH]; cbn; intros Hs; [repeat constructor|].
  apply StronglySorted_inv in Hs as [Hs Hk].
  case_bool_decide as E1; [subst; by constructor|]. destruct (str_le k k0) eqn:E2; cbn.
  - constructor; [by constructor|]. constructor; [by split|].
    eapply Forall_impl; [exact Hk|]. intros x [Hx Hne]. split; [by eapply str_le_trans|].
    intros ->. apply E1. by apply str_le_antisym.
  - constructor; [by apply IH|]. apply Forall_forall. intros x [->|Hx]%btree_insert_keys.
    + split; [by apply str_le_total|done].
    + rewrite Forall_forall in Hk. by apply Hk.
Qed.
Lemma btree_sorted_NoDup m : btree_sorted m → NoDup (fst <$> m).
Proof.
  unfold btree_sorted. generalize (fst <$> m) as l. induction 1 as [|x l Hl IH Hx]; [constructor|].
  constructor; [|done]. intros Hin. rewrite Forall_forall in Hx. by destruct (Hx x Hin).
Qed.
Lemma btree_insert_Forall (P : str * str → Prop) m k v : P (k, v) → Forall P m → Forall P (btree_insert k v m).
Proof.
  intros Hp. induction 1 as [|[k0 v0] m Hq Hm IH]; cbn; [by repeat constructor|].
  case_bool_decide; [by constructor|]. destruct (str_le k k0); by repeat constructor.
Qed.
Lemma btree_get_map m k : NoDup (fst <$> m) → btree_get m k = (list_to_map m : gmap str str) !! k.
Proof.
  induction m as [|[k0 v0] m IH]; intros Hd; [done|]. cbn in Hd. apply NoDup_cons in Hd as [Hn Hd]. cbn.
  case_bool_decide as E; [subst; by rewrite lookup_insert_eq|].
  rewrite lookup_insert_ne by done. by apply IH.
Qed.
Lemma btree_collect_spec (m : gmap str str) :
  btree_sorted (btree_collect m) ∧ (∀ k, btree_get (btree_collect m) k = m !! k) ∧
  ∀ P : str * str → Prop, (∀ k v, m !! k = Some v → P (k, v)) → Forall P (btree_collect m).
Proof.
  enough (∀ l, NoDup (fst <$> l) →
    btree_sorted (foldr (λ p, btree_insert (fst p) (snd p)) [] l) ∧
    (∀ k, btree_get (foldr (λ p, btree_insert (fst p) (snd p)) [] l) k = (list_to_map l : gmap str str) !! k) ∧
    ∀ P : str * str → Prop, (∀ k v, (list_to_map l : gmap str str) !! k = Some v → P (k, v)) →
      Forall P (foldr (λ p, btree_insert (fst p) (snd p)) [] l)) as Hl.
  { specialize (Hl _ (NoDup_fst_map_to_list m)). by rewrite list_to_map_to_list in Hl. }
  induction l as [|[k0 v0] l IH]; intros Hd.
  { split; [constructor|]. split; [done|]. constructor. }
  cbn in Hd. apply NoDup_cons in Hd as [Hn Hd]. destruct (IH Hd) as (Hs & Hg & Hf). cbn [foldr fst snd].
  split; [by apply btree_insert_sorted|]. split.
  - intros k. rewrite btree_get_insert, Hg. cbn. case_decide; subst; [by rewrite lookup_insert_eq|].
    by rewrite lookup_insert_ne.
  - intros P HP. apply btree_insert_Forall; [apply HP; cbn; by rewrite lookup_insert_eq|].
    apply Hf. intros k v Hk. apply HP. cbn. rewrite lookup_insert_ne; [done|]. intros ->.
    apply not_elem_of_list_to_map_1 in Hn. congruence.
Qed.

(** ** Reading the generated file *)

Definition default_ok (p : str * str) : Prop :=
  p.1 ≠ [] ∧ (47 ∉ p.1) ∧ (92 ∉ p.1) ∧ to_ascii_lowercase p.1 = p.1 ∧ p.2 ≠ [].
Definition override_ok (p : str * str) : Prop := part_name_ok p.1 ∧ p.2 ≠ [].
Definition override_key (p : str * str) : str * str := (to_ascii_lowercase p.1, p.2).
Definition types_of (ds : btree) (os : list (str * str)) : AppxContentTypes :=
  mk_types (list_to_map ds) (list_to_map (override_key <$> os)).

Lemma default_event p s : default_ok p → in_types s = true → defaults (ts_types s) !! p.1 = None →
  content_types_step s (tag_event (default_tag p)) =
  Ok (mk_ts true (saw_types s) (mk_types (<[p.1 := p.2]> (defaults (ts_types s))) (overrides (ts_types s)))).
Proof.
  destruct p as [k v]. intros (Hk & H47 & H92 & Hl & Hv) Hin Hnew. cbn [fst snd] in *.
  change (content_types_step s (tag_event (default_tag (k, v)))) with
    (default_element s (tag_elem "Default" [("Extension"%string, k); ("ContentType"%string, v)])).
  unfold default_element. rewrite Hin. cbn [negb bail_if mbind outcome_bind].
  change (required_xml_attr (tag_elem "Default" [("Extension"%string, k); ("ContentType"%string, v)]) "Extension") with (Ok k).
  change (required_xml_attr (tag_elem "Default" [("Extension"%string, k); ("ContentType"%string, v)]) "ContentType") with (Ok v).
  cbn [mbind outcome_bind]. rewrite (proj2 (existsb_eqb 47 k)), (proj2 (existsb_eqb 92 k)) by done.
  rewrite (bool_decide_eq_false_2 _ Hk), (bool_decide_eq_false_2 _ Hv). cbn [orb bail_if mbind outcome_bind].
  rewrite Hl, bool_decide_eq_false_2 by (rewrite Hnew; by intros []). done.
Qed.
Lemma override_event p s : override_ok p → in_types s = true → overrides (ts_types s) !! to_ascii_lowercase p.1 = None →
  content_types_step s (tag_event (override_tag p)) =
  Ok (mk_ts true (saw_types s)
        (mk_types (defaults (ts_types s)) (<[to_ascii_lowercase p.1 := p.2]> (overrides (ts_types s))))).
Proof.
  destruct p as [n v]. intros (Hn & Hv) Hin Hnew. cbn [fst snd] in *.
  change (content_types_step s (tag_event (override_tag (n, v)))) with
    (override_element s (tag_elem "Override" [("PartName"%string, 47 :: n); ("ContentType"%string, v)])).
  unfold override_element. rewrite Hin. cbn [negb bail_if mbind outcome_bind].
  change (required_xml_attr (tag_elem "Override" [("PartName"%string, 47 :: n); ("ContentType"%string, v)]) "PartName") with (Ok (47 :: n)).
  change (required_xml_attr (tag_elem "Override" [("PartName"%string, 47 :: n); ("ContentType"%string, v)]) "ContentType") with (Ok v).
  cbn [mbind outcome_bind]. rewrite (strip_prefix_app [47] n : strip_prefix [47] (47 :: n) = Some n).
  cbn [ok_or mbind outcome_bind].
  rewrite (bool_decide_eq_false_2 (v = [])) by done. cbn [bail_if mbind outcome_bind].
  rewrite normalize_part_id by done. cbn [mbind outcome_bind].
  rewrite bool_decide_eq_false_2 by (rewrite Hnew; by intros []). done.
Qed.

Lemma read_defaults ds m o : NoDup ds.*1 → (∀ k, k ∈ ds.*1 → m !! k = None) → Forall default_ok ds →
  run_events content_types_step (mk_ts true true (mk_types m o)) (tag_event <$> (default_tag <$> ds)) =
  Ok (mk_ts true true (mk_types (list_to_map ds ∪ m) o)).
Proof.
  intros Hd Hm Hok. revert m Hd Hm. induction Hok as [|[k v] ds Hp Hok IH]; intros m Hd Hm.
  { cbn. by rewrite (left_id_L ∅ _). }
  cbn in Hd. apply NoDup_cons in Hd as [Hn Hd]. cbn [fmap list_fmap run_events].
  rewrite default_event; [|done..|apply Hm; by left]. cbn [mbind outcome_bind ts_types defaults overrides fst snd saw_types].
  rewrite IH; [|done|].
  - do 3 f_equal. cbn [list_to_map foldr uncurry fst snd].
    rewrite <-insert_union_l, <-insert_union_r; [done|]. by apply not_elem_of_list_to_map_1.
  - intros k' Hk'. rewrite lookup_insert_ne; [apply Hm; by right|]. intros ->. done.
Qed.
Lemma read_overrides os m o : NoDup (override_key <$> os).*1 → (∀ k, k ∈ (override_key <$> os).*1 → o !! k = None) →
  Forall override_ok os →
  run_events content_types_step (mk_ts true true (mk_types m o)) (tag_event <$> (override_tag <$> os)) =
  Ok (mk_ts true true (mk_types m (list_to_map (override_key <$> os) ∪ o))).
Proof.
  intros Hd Hm Hok. revert o Hd Hm. induction Hok as [|[k v] os Hp Hok IH]; intros o Hd Hm.
  { cbn. by rewrite (left_id_L ∅ _). }
  cbn in Hd. apply NoDup_cons in Hd as [Hn Hd]. cbn [fmap list_fmap run_events].
  rewrite override_event; [|done..|apply Hm; by left]. cbn [mbind outcome_bind ts_types defaults overrides fst snd saw_types].
  rewrite IH; [|done|].
  - do 3 f_equal. cbn [list_to_map foldr uncurry fst snd override_key].
    rewrite <-insert_union_l, <-insert_union_r; [done|]. by apply not_elem_of_list_to_map_1.
  - intros k' Hk'. rewrite lookup_insert_ne; [apply Hm; by right|]. intros <-. done.
Qed.
Lemma read_types `{XmlReader} ds os :
  NoDup ds.*1 → NoDup (override_key <$> os).*1 → Forall default_ok ds → Forall override_ok os →
  reads_tags (xml_declaration "yes" ++ [10]) (types_tags ds os) →
  validate_content_types_xml (encode_utf8 (types_text ds os)) = Ok (types_of ds os).
Proof.
  intros Hd Hk Hdo Hoo Hr. unfold validate_content_types_xml. rewrite types_text_tags, Hr.
  unfold types_tags. rewrite fmap_cons, !fmap_app. cbn [run_events].
  change (content_types_step (mk_ts false false (mk_types ∅ ∅)) EOther) with (Ok (mk_ts false false (mk_types ∅ ∅))).
  cbn [mbind outcome_bind]. 
  change (content_types_step (mk_ts false false (mk_types ∅ ∅)) (tag_event (TStart "Types" ?a)))
    with (Ok (mk_ts true true (mk_types ∅ ∅))).
  cbn [mbind outcome_bind]. rewrite run_events_app, read_defaults by done. cbn [mbind outcome_bind].
  rewrite run_events_app, read_overrides by done. cbn [mbind outcome_bind].
  change (run_events content_types_step ?s (tag_event <$> [TEnd "Types"])) with (Ok (mk_ts false true (ts_types s))).
  cbn. by rewrite !(right_id_L ∅ _).
Qed.

(** ** Types of the parts *)

Lemma part_extension_split p : part_extension p ≠ [] →
  ∃ a e, rsplit_once 46 p = Some (a, e) ∧ to_ascii_lowercase e = part_extension p.
Proof.
  unfold part_extension. destruct (last_segment p) as (pre & leaf & -> & Hp & _). cbn [mbind option_bind].
  destruct (rsplit_once 46 leaf) as [[a e]|] eqn:E; [|done]. cbn [default from_option]. intros _. exists (pre ++ a), e.
  split; [|done]. rewrite Hp. by apply rsplit_once_suffix.
Qed.
Lemma part_extension_ok p : part_name_ok p →
  (47 ∉ part_extension p) ∧ (92 ∉ part_extension p) ∧ to_ascii_lowercase (part_extension p) = part_extension p.
Proof.
  intros (_ & _ & H92 & _). unfold part_extension.
  destruct (last_segment p) as (pre & leaf & Hl & Hp & _). rewrite Hl.
  assert (47 ∉ leaf) as H47 by (apply (split_no_sep 47 p), last_Some_elem_of; done).
  cbn [mbind option_bind].
  destruct (rsplit_once 46 leaf) as [[a e]|] eqn:E; cbn [default from_option]; [|by repeat split; intros ?%elem_of_nil].
  apply rsplit_once_Some in E. subst leaf p. split; [|split; [|apply lower_idem]].
  - intros Hin%lower_elem; [|done]. apply H47. set_solver.
  - intros Hin%lower_elem; [|done]. apply H92. set_solver.
Qed.

(** ** Generating the types of the parts *)

Section Parts.
Context (O : gmap str str) (M MT : str) (HO : ∀ k v, O !! k = Some v → v ≠ []) (HMT : MT ≠ []).

(** The manifest was declared with its type, and nothing is written for it. *)
Definition type_lost (p : str) : Prop :=
  eq_ignore_ascii_case p M = true ∧
  ∃ ct, O !! to_ascii_lowercase p = Some ct ∧ eq_ignore_ascii_case ct MT = true.
(** The type a part should have: the manifest its own, the others the one the
    package declared for them. *)
Definition type_good (p ct : str) : Prop :=
  (¬ type_lost p) ∧
  if eq_ignore_ascii_case p M then eq_ignore_ascii_case ct MT = true
  else ∀ ct0, O !! to_ascii_lowercase p = Some ct0 → ct = ct0.
Definition keys (os : list (str * str)) : list str := (override_key <$> os).*1.
Definition part_typed (ds : btree) (os : list (str * str)) (p : str) : Prop :=
  (∃ ct, (p, ct) ∈ os ∧ type_good p ct) ∨
  ((to_ascii_lowercase p ∉ keys os) ∧ part_extension p ≠ [] ∧
     ∃ ct, btree_get ds (part_extension p) = Some ct ∧ type_good p ct) ∨
  ((to_ascii_lowercase p ∉ keys os) ∧ type_lost p).

Lemma default_type_nonempty e : default_content_type_for_extension e ≠ [].
Proof.
  unfold default_content_type_for_extension. case_bool_decide; [done|].
  destruct (List.find _ _) as [row|] eqn:E; [|done]. apply find_some in E as [Hin _].
  cbn in Hin. by repeat destruct Hin as [<-|Hin]; [done..|].
Qed.
Lemma default_key_nonempty ds v : Forall default_ok ds → btree_get ds [] = Some v → False.
Proof.
  induction 1 as [|[k v'] ds (Hk & _) Hd IH]; [done|]. cbn. case_bool_decide; [by subst|done].
Qed.
Lemma default_row p v : part_name_ok p → part_extension p ≠ [] → v ≠ [] → default_ok (part_extension p, v).
Proof. intros Hp He Hv. destruct (part_extension_ok p Hp) as (? & ? & ?). done. Qed.

(** What one part does to the defaults and the overrides. *)
Definition part_effect (ds : btree) (os : list (str * str)) (p : str) (r : outcome (btree * list (str * str))) : Prop :=
  ∃ ds' extra, r = Ok (ds', os ++ extra) ∧
    btree_sorted ds' ∧ Forall default_ok ds' ∧ (∀ k v, btree_get ds k = Some v → btree_get ds' k = Some v) ∧
    (extra = [] ∨ ∃ ct, extra = [(p, ct)] ∧ ct ≠ []) ∧ part_typed ds' extra p ∧
    ∀ k, btree_get ds k = None → btree_get ds' k ≠ None → k = part_extension p ∧ ¬ type_lost p.
Lemma effect_override ds os p ct : btree_sorted ds → Forall default_ok ds → ct ≠ [] → type_good p ct →
  part_effect ds os p (Ok (ds, os ++ [(p, ct)])).
Proof.
  intros. exists ds, [(p, ct)]. split_and!; try done; [right; by exists ct|left; exists ct; by split; [left|]].
Qed.
Lemma effect_default ds ds' os p ct : btree_sorted ds → Forall default_ok ds → part_name_ok p → part_extension p ≠ [] →
  ct ≠ [] → ds' = match btree_get ds (part_extension p) with Some _ => ds | None => btree_insert (part_extension p) ct ds end →
  type_good p (default ct (btree_get ds (part_extension p))) → part_effect ds os p (Ok (ds', os)).
Proof.
  intros Hs Hd Hp He Hct -> Hg. exists (match btree_get ds (part_extension p) with
    Some _ => ds | None => btree_insert (part_extension p) ct ds end), []. rewrite app_nil_r.
  split; [done|]. destruct (btree_get ds (part_extension p)) as [v|] eqn:E; cbn in Hg.
  - split_and!; try done; [by left|].
    right; left. split; [by intros ?%elem_of_nil|]. split; [done|]. by exists v.
  - split; [by apply btree_insert_sorted|]. split; [apply btree_insert_Forall; [by apply default_row|done]|].
    split; [|split; [by left|split]].
    + intros k v Hk. rewrite btree_get_insert. case_decide; [congruence|done].
    + right; left. split; [by intros ?%elem_of_nil|]. split; [done|]. exists ct.
      by rewrite btree_get_insert, decide_True.
    + intros k Hk. rewrite btree_get_insert. case_decide; [|congruence]. intros _. split; [done|apply Hg].
Qed.
Lemma content_type_part_spec ds os p :
  btree_sorted ds → Forall default_ok ds → part_name_ok p → part_effect ds os p (content_type_part O M MT (ds, os) p).
Proof.
  intros Hs Hd Hp. unfold content_type_part. rewrite normalize_part_id by done. cbn [mbind outcome_bind]. cbv zeta.
  destruct (eq_ignore_ascii_case p M) eqn:HM.
  - assert (¬ type_lost p → part_effect ds os p (Ok (ds, os ++ [(p, MT)]))) as Hover.
    { intros Hl. apply effect_override; [done..|]. split; [done|]. rewrite HM. apply eq_ignore_case_refl. }
    destruct (O !! to_ascii_lowercase p) as [ct0|] eqn:HE.
    + rewrite bool_decide_eq_false_2 by done. cbn [andb]. destruct (eq_ignore_ascii_case ct0 MT) eqn:Ht.
      * exists ds, []. rewrite app_nil_r. split_and!; try done; [by left|].
        right; right. split; [by intros ?%elem_of_nil|]. split; [done|]. by exists ct0.
      * apply Hover. intros (_ & ct & Hct & Hl). congruence.
    + assert (¬ type_lost p) as Hl by (intros (_ & ct & Hct & _); congruence).
      rewrite bool_decide_eq_true_2 by done. cbn [andb]. case_bool_decide as Hext; cbn [negb andb].
      { rewrite Hext. destruct (btree_get ds []) as [v|] eqn:E; [|by apply Hover].
        exfalso. by apply (default_key_nonempty ds v). }
      destruct (btree_get ds (part_extension p)) as [v|] eqn:E.
      * rewrite bool_decide_eq_false_2, E by done. destruct (eq_ignore_ascii_case v MT) eqn:Ht; [|by apply Hover].
        eapply effect_default; [done..|exact HMT| |]; rewrite E; [done|]. split; [done|]. by rewrite HM.
      * rewrite bool_decide_eq_true_2, btree_get_insert, decide_True, eq_ignore_case_refl by done.
        eapply effect_default; [done..|exact HMT| |]; rewrite E; [done|]. split; [done|]. rewrite HM.
        apply eq_ignore_case_refl.
  - assert (¬ type_lost p) as Hl by (intros (Hlm & _); congruence).
    destruct (O !! to_ascii_lowercase p) as [ct0|] eqn:HE.
    + apply effect_override; [done..|by eapply HO|]. split; [done|]. rewrite HM, HE. by intros ? [= ->].
    + case_bool_decide as Hext.
      * apply effect_override; [done..|]. split; [done|]. by rewrite HM, HE.
      * eapply effect_default; [done..|apply default_type_nonempty|done|]. split; [done|]. by rewrite HM, HE.
Qed.

Lemma keys_app os os' : keys (os ++ os') = keys os ++ keys os'.
Proof. unfold keys. by rewrite !fmap_app. Qed.
Lemma keys_elem os p ct : (p, ct) ∈ os → to_ascii_lowercase p ∈ keys os.
Proof. intros Hin. unfold keys. apply list_elem_of_fmap. exists (override_key (p, ct)). split; [done|]. by apply list_elem_of_fmap_2. Qed.
Lemma part_typed_head ds ds' extra rest p : (∀ k v, btree_get ds k = Some v → btree_get ds' k = Some v) →
  to_ascii_lowercase p ∉ keys rest → part_typed ds extra p → part_typed ds' (extra ++ rest) p.
Proof.
  intros Hm Hr [(ct & Hin & Hg)|[(Hn & He & ct & Hget & Hg)|(Hn & Hl)]].
  - left. exists ct. split; [|done]. apply elem_of_app. by left.
  - right; left. rewrite keys_app, not_elem_of_app. split; [done|]. split; [done|]. exists ct. eauto.
  - right; right. by rewrite keys_app, not_elem_of_app.
Qed.
Lemma part_typed_tail ds extra rest p :
  to_ascii_lowercase p ∉ keys extra → part_typed ds rest p → part_typed ds (extra ++ rest) p.
Proof.
  intros Hr [(ct & Hin & Hg)|[(Hn & He)|(Hn & Hl)]].
  - left. exists ct. split; [|done]. apply elem_of_app. by right.
  - right; left. by rewrite keys_app, not_elem_of_app.
  - right; right. by rewrite keys_app, not_elem_of_app.
Qed.

Lemma content_type_parts_spec parts ds os :
  btree_sorted ds → Forall default_ok ds → Forall part_name_ok parts → NoDup (to_ascii_lowercase <$> parts) →
  ∃ ds' extra, content_type_parts O M MT (ds, os) parts = Ok (ds', os ++ extra) ∧
    btree_sorted ds' ∧ Forall default_ok ds' ∧ (∀ k v, btree_get ds k = Some v → btree_get ds' k = Some v) ∧
    keys extra `sublist_of` (to_ascii_lowercase <$> parts) ∧ Forall override_ok extra ∧
    Forall (part_typed ds' extra) parts ∧
    ∀ k, btree_get ds k = None → btree_get ds' k ≠ None → ∃ p, p ∈ parts ∧ k = part_extension p ∧ ¬ type_lost p.
Proof.
  intros Hs Hd Hp. revert ds os Hs Hd. induction Hp as [|p parts Hp Hps IH]; intros ds os Hs Hd Hnd; cbn [content_type_parts].
  { exists ds, []. rewrite app_nil_r. split_and!; try done; constructor. }
  cbn in Hnd. apply NoDup_cons in Hnd as [Hn Hnd].
  destruct (content_type_part_spec ds os p Hs Hd Hp) as (ds1 & e1 & -> & Hs1 & Hd1 & Hm1 & He1 & Ht1 & Hk1).
  cbn [mbind outcome_bind]. destruct (IH ds1 (os ++ e1) Hs1 Hd1 Hnd) as (ds2 & e2 & -> & Hs2 & Hd2 & Hm2 & Hsub & Ho2 & Ht2 & Hk2).
  exists ds2, (e1 ++ e2). rewrite app_assoc. split; [done|]. split; [done|]. split; [done|]. split; [by eauto|].
  assert (to_ascii_lowercase p ∉ keys e2) as Hnp.
  { intros Hin. apply Hn. by eapply elem_of_sublist. }
  split; [|split; [|split; [constructor|]]].
  - rewrite keys_app, fmap_cons. destruct He1 as [->|(ct & -> & _)]; [by apply sublist_cons|by apply sublist_skip].
  - apply Forall_app. split; [|done]. destruct He1 as [->|(ct & -> & Hct)]; [constructor|]. by apply Forall_singleton.
  - by eapply part_typed_head.
  - rewrite Forall_forall in *. intros q Hq. apply part_typed_tail; [|by apply Ht2].
    intros Hin. apply Hn. destruct He1 as [->|(ct & -> & _)]; [by apply elem_of_nil in Hin|].
    unfold keys in Hin. cbn in Hin. apply list_elem_of_singleton in Hin.
    change (to_ascii_lowercase q = to_ascii_lowercase p) in Hin. rewrite <-Hin. by apply list_elem_of_fmap_2.
  - intros k Hk Hk'. destruct (btree_get ds1 k) eqn:E.
    + destruct (Hk1 k) as [-> Hl]; [done|by rewrite E|]. exists p. by split; [left|].
    + destruct (Hk2 k E Hk') as (q & Hq & Hkq). exists q. by split; [right|].
Qed.
End Parts.

(** What [validate_content_types_xml] makes sure of. *)
Definition types_ok (t : AppxContentTypes) : Prop :=
  (∀ k v, defaults t !! k = Some v → default_ok (k, v)) ∧ (∀ k v, overrides t !! k = Some v → v ≠ []).
Lemma default_element_ok s e s' : types_ok (ts_types s) → default_element s e = Ok s' → types_ok (ts_types s').
Proof.
  intros [Hd Ho]. unfold default_element. intros Hs. inv_ok Hs. zbool. split; cbn; [|done].
  apply existsb_eqb in H1, H0. intros k v. destruct (decide (k = to_ascii_lowercase r)) as [->|Hk].
  - rewrite lookup_insert_eq. intros [= <-]. split_and!; cbn; [by intros ?%fmap_nil_inv| | |apply lower_idem|done].
    + by intros ?%lower_elem.
    + by intros ?%lower_elem.
  - rewrite lookup_insert_ne by done. apply Hd.
Qed.
Lemma override_element_ok s e s' : types_ok (ts_types s) → override_element s e = Ok s' → types_ok (ts_types s').
Proof.
  intros [Hd Ho]. unfold override_element. intros Hs. inv_ok Hs. zbool. split; cbn; [done|].
  intros k v. rewrite lookup_insert. case_decide; [by intros [= <-]|apply Ho].
Qed.
Lemma no_types_ok : types_ok (mk_types ∅ ∅).
Proof.
  split; intros k v Hk; unfold defaults, overrides in Hk; pose proof (lookup_empty (M:=gmap str) (A:=str) k); congruence.
Qed.
Lemma validate_types_ok `{XmlReader} xml t : validate_content_types_xml xml = Ok t → types_ok t.
Proof.
  unfold validate_content_types_xml. destruct (read_events xml) as [evs eof]. intros Hv. inv_ok Hv.
  eapply (run_events_inv _ (λ s, types_ok (ts_types s))); [| |exact E]; [|exact no_types_ok].
  intros s ev s' HI. unfold content_types_step. destruct ev as [e|e|n|o|]; try (by intros [= <-]).
  1,2: destruct (named e "Types"); [unfold types_root; intros Hr; by inv_ok Hr|];
    destruct (named e "Default"); [by apply default_element_ok|];
    destruct (named e "Override"); [by apply override_element_ok|done].
  - by case_bool_decide; intros [= <-].
  - intros Hr. by inv_ok Hr.
Qed.

Lemma content_type_override ds os p ct : part_name_ok p → NoDup (keys os) → (p, ct) ∈ os →
  content_type_for_part (types_of ds os) p = Some ct.
Proof.
  intros Hp Hd Hin. unfold content_type_for_part. rewrite normalize_part_id by done. cbn [ok_opt mbind option_bind].
  unfold types_of. cbn [overrides]. rewrite (elem_of_list_to_map_1 _ _ ct); [done|done|].
  apply list_elem_of_fmap. by exists (p, ct).
Qed.
Lemma content_type_default ds os p : part_name_ok p → NoDup ds.*1 → to_ascii_lowercase p ∉ keys os →
  part_extension p ≠ [] → content_type_for_part (types_of ds os) p = btree_get ds (part_extension p).
Proof.
  intros Hp Hd Hn He. unfold content_type_for_part. rewrite normalize_part_id by done. cbn [ok_opt mbind option_bind].
  unfold types_of. cbn [overrides defaults]. rewrite (not_elem_of_list_to_map_1 (M:=gmap str)) by done.
  destruct (part_extension_split p He) as (a & e & -> & He2). cbn [mbind option_bind]. rewrite He2. by rewrite btree_get_map.
Qed.

Section Generated.
Context (types : AppxContentTypes) (parts : list str) (bundle : bool).
Definition manifest_part : str := if bundle then BUNDLE_MANIFEST else APP_MANIFEST.
Definition manifest_type : str := if bundle then CONTENT_TYPE_BUNDLE_MANIFEST else CONTENT_TYPE_MANIFEST.
(** Parts a package is staged with: safe names that differ in more than case,
    from each other and from the two parts added. *)
Definition staged_parts : Prop :=
  Forall part_name_ok parts ∧ NoDup (to_ascii_lowercase <$> parts ++ [BLOCK_MAP; APP_SIGNATURE]).
Definition reserved_rows : list (str * str) :=
  [(BLOCK_MAP, CONTENT_TYPE_BLOCK_MAP); (APP_SIGNATURE, CONTENT_TYPE_SIGNATURE)].

Lemma generated : types_ok types → staged_parts →
  ∃ ds extra, content_types_for_signing types parts bundle = Ok (ds, extra ++ reserved_rows) ∧
    NoDup ds.*1 ∧ Forall default_ok ds ∧ NoDup (keys (extra ++ reserved_rows)) ∧
    Forall override_ok (extra ++ reserved_rows) ∧
    (∀ k v, defaults types !! k = Some v → btree_get ds k = Some v) ∧
    Forall (part_typed (overrides types) manifest_part manifest_type ds (extra ++ reserved_rows)) parts ∧
    ∀ k, defaults types !! k = None → btree_get ds k ≠ None →
      ∃ p, p ∈ parts ∧ k = part_extension p ∧ ¬ type_lost (overrides types) manifest_part manifest_type p.
Proof.
  intros [Hdef Hov] [Hok Hd].
  destruct (btree_collect_spec (defaults types)) as (Hs & Hg & Hf).
  rewrite fmap_app in Hd. apply NoDup_app in Hd as (Hd1 & Hd2 & Hd3).
  assert (manifest_type ≠ []) as HMT by (unfold manifest_type; by destruct bundle).
  destruct (content_type_parts_spec (overrides types) manifest_part manifest_type Hov HMT
    parts (btree_collect (defaults types)) [] Hs (Hf _ Hdef) Hok Hd1)
    as (ds & extra & Hp & Hs' & Hd' & Hm & Hsub & Ho & Ht & Hnew).
  exists ds, extra. split.
  { unfold content_types_for_signing. unfold manifest_part, manifest_type in Hp. by destruct bundle; rewrite Hp. }
  split; [by apply btree_sorted_NoDup|]. split; [done|]. rewrite keys_app. split; [|split; [|split; [|split]]].
  - apply NoDup_app. split; [exact (sublist_NoDup _ _ Hd1 Hsub)|]. split; [|done].
    intros k Hk. apply Hd2. by eapply elem_of_sublist.
  - apply Forall_app. split; [done|].
    apply Forall_cons_2; [|apply Forall_singleton]; split; [|done| |done]; apply reserved_ok; cbn; tauto.
  - intros k v Hk. apply Hm. by rewrite Hg.
  - rewrite Forall_forall in *. intros p Hpin. apply part_typed_head with ds; [done| |by apply Ht].
    change (keys reserved_rows) with (to_ascii_lowercase <$> [BLOCK_MAP; APP_SIGNATURE]).
    apply Hd2. by apply list_elem_of_fmap_2.
  - intros k Hk. apply Hnew. by rewrite Hg.
Qed.
End Generated.

(** The block map and the signature have their types: the manifest's decides. *)
Lemma reserved_check ds extra inventory ext :
  NoDup (keys (extra ++ reserved_rows)) → has_code_integrity inventory = false →
  validate_reserved_content_types (types_of ds (extra ++ reserved_rows)) inventory ext =
  require_content_type (types_of ds (extra ++ reserved_rows)) (manifest_part (is_bundle ext)) (manifest_type (is_bundle ext)).
Proof.
  intros Hk Hci.
  assert (∀ r ct, In (r, ct) reserved_rows → require_content_type (types_of ds (extra ++ reserved_rows)) r ct = Ok tt) as Hres.
  { intros r ct Hin. unfold require_content_type. rewrite (content_type_override _ _ r ct); cbn.
    - by rewrite eq_ignore_case_refl.
    - apply reserved_ok. cbn in *. intuition congruence.
    - done.
    - apply elem_of_app. right. by apply list_elem_of_In. }
  unfold validate_reserved_content_types. rewrite (Hres BLOCK_MAP), (Hres APP_SIGNATURE) by (first [by left|by right; left]).
  cbn [mbind outcome_bind]. rewrite Hci. by destruct (is_bundle ext).
Qed.

(** The content types written for signing are accepted when they are read
    back: the block map, the signature and the manifest have the types that
    signing requires, every part has a type, and a part keeps the type the
    package declared for it; unless the package declared the manifest with its
    own type. *)
Theorem generated_types_accepted `{XmlReader} types parts bundle ext :
  types_ok types → staged_parts parts → manifest_part bundle ∈ parts → is_bundle ext = bundle →
  (∀ ct, overrides types !! to_ascii_lowercase (manifest_part bundle) = Some ct →
     eq_ignore_ascii_case ct (manifest_type bundle) = false) →
  ∃ ds os, content_types_for_signing types parts bundle = Ok (ds, os) ∧
    (reads_tags (xml_declaration "yes" ++ [10]) (types_tags ds os) →
     ∃ types', validate_content_types_xml (encode_utf8 (types_text ds os)) = Ok types' ∧
       validate_reserved_content_types types' (mk_inventory false) ext = Ok tt ∧
       ∀ p, p ∈ parts → ∃ ct, content_type_for_part types' p = Some ct ∧
         (eq_ignore_ascii_case p (manifest_part bundle) = false → overrides types !! to_ascii_lowercase p = None ∨
          overrides types !! to_ascii_lowercase p = Some ct)).
Proof.
  intros Ht Hst Hm He Hx. destruct (generated types parts bundle Ht Hst) as (ds & extra & Hc & Hd & Hdo & Hk & Ho & _ & Hp & _).
  exists ds, (extra ++ reserved_rows). split; [done|]. intros Hr. exists (types_of ds (extra ++ reserved_rows)).
  split; [by apply read_types|]. destruct Hst as [Hok _].
  assert (∀ p, p ∈ parts → ∃ ct, content_type_for_part (types_of ds (extra ++ reserved_rows)) p = Some ct ∧
    type_good (overrides types) (manifest_part bundle) (manifest_type bundle) p ct) as Hall.
  { rewrite Forall_forall in *. intros p Hin. destruct (Hp p Hin) as [(ct & Hct & Hg)|[(Hn & Hne & ct & Hget & Hg)|(Hn & Hmp & ct & Hlo & Hlt)]].
    - exists ct. split; [|done]. apply content_type_override; auto.
    - exists ct. split; [|done]. rewrite content_type_default; auto.
    - exfalso. specialize (Hx ct). unfold eq_ignore_ascii_case in Hmp at 1. apply bool_decide_eq_true in Hmp.
      rewrite Hmp in Hlo. rewrite Hx in Hlt by done. done. }
  split.
  - rewrite reserved_check, He by done. destruct (Hall _ Hm) as (ct & Hct & _ & Hg).
    rewrite eq_ignore_case_refl in Hg. unfold require_content_type. rewrite Hct. cbn [ok_or mbind outcome_bind]. by rewrite Hg.
  - intros p Hin. destruct (Hall p Hin) as (ct & Hct & Hg). exists ct. split; [done|]. intros Hnm.
    destruct Hg as [_ Hg]. rewrite Hnm in Hg. destruct (overrides types !! to_ascii_lowercase p) as [ct0|]; [|by left].
    right. by rewrite (Hg ct0).
Qed.

(** A package whose content types declare the manifest part itself with its
    proper type, and no type for the extension [xml], cannot be signed: the
    file written drops the declaration, and is then refused. *)
Theorem declared_manifest_type_lost `{XmlReader} types parts bundle ext ct0 inventory :
  types_ok types → staged_parts parts → manifest_part bundle ∈ parts → is_bundle ext = bundle →
  overrides types !! to_ascii_lowercase (manifest_part bundle) = Some ct0 →
  eq_ignore_ascii_case ct0 (manifest_type bundle) = true →
  defaults types !! chars "xml" = None →
  (∀ p, p ∈ parts → p ≠ manifest_part bundle → part_extension p ≠ chars "xml") →
  has_code_integrity inventory = false →
  ∃ ds os, content_types_for_signing types parts bundle = Ok (ds, os) ∧
    (reads_tags (xml_declaration "yes" ++ [10]) (types_tags ds os) →
     ∃ types', validate_content_types_xml (encode_utf8 (types_text ds os)) = Ok types' ∧
       validate_reserved_content_types types' inventory ext =
         Err "[Content_Types].xml does not declare a content type for `{part}`").
Proof.
  intros Ht Hst Hm He Hov Hct Hdef Hxml Hci.
  destruct (generated types parts bundle Ht Hst) as (ds & extra & Hc & Hd & Hdo & Hk & Ho & _ & Hp & Hnew).
  assert (type_lost (overrides types) (manifest_part bundle) (manifest_type bundle) (manifest_part bundle)) as Hlost.
  { split; [apply eq_ignore_case_refl|]. by exists ct0. }
  exists ds, (extra ++ reserved_rows). split; [done|]. intros Hr. exists (types_of ds (extra ++ reserved_rows)).
  split; [by apply read_types|]. destruct Hst as [Hok _].
  assert (content_type_for_part (types_of ds (extra ++ reserved_rows)) (manifest_part bundle) = None) as Hnone.
  { rewrite Forall_forall in *. rewrite content_type_default; [|by apply Hok|done| |by destruct bundle].
    - replace (part_extension (manifest_part bundle)) with (chars "xml") by (by destruct bundle).
      destruct (btree_get ds (chars "xml")) eqn:E; [|done]. destruct (Hnew (chars "xml")) as (p & Hin & Hpe & Hnl); [done|by rewrite E|].
      exfalso. destruct (decide (p = manifest_part bundle)) as [->|Hne]; [done|]. by apply (Hxml p Hin Hne).
    - by destruct (Hp _ Hm) as [(ct & _ & [] & _)|[(_ & _ & ct & _ & [] & _)|[]]]. }
  rewrite reserved_check, He by done. unfold require_content_type. by rewrite Hnone.
Qed.

(** ** Runs *)

Definition toy_parts : list str := [chars "assets/logo.png"; APP_MANIFEST].
Lemma toy_parts_staged : staged_parts toy_parts.
Proof.
  split.
  - apply Forall_forall. intros p Hp%list_elem_of_In. apply (normalize_part_Ok p p).
    cbn in Hp. by repeat (destruct Hp as [<-|Hp]; [by vm_compute|]).
  - apply (bool_decide_unpack _). by vm_compute.
Qed.
Definition toy_types : AppxContentTypes := mk_types {[chars "png" := chars "image/apng"]} ∅.
Lemma toy_types_ok : types_ok toy_types.
Proof.
  split; intros k v; cbn [toy_types defaults overrides].
  - intros [<- <-]%lookup_singleton_Some. split_and!; try done; apply (bool_decide_unpack _); by vm_compute.
  - intros H. pose proof (lookup_empty (M:=gmap str) (A:=str) k). congruence.
Qed.
Definition toy_rows : btree * list (str * str) :=
  match content_types_for_signing toy_types toy_parts false with Ok r => r | _ => ([], []) end.
Lemma generated_types_accepted_witness :
  ∃ types', @validate_content_types_xml ToyXml (encode_utf8 (types_text toy_rows.1 toy_rows.2)) = Ok types' ∧
    validate_reserved_content_types types' (mk_inventory false) (chars "msix") = Ok tt ∧
    content_type_for_part types' (chars "assets/logo.png") = Some (chars "image/apng").
Proof.
  destruct (@generated_types_accepted ToyXml toy_types toy_parts false (chars "msix") toy_types_ok toy_parts_staged)
    as (ds & os & Hc & Hr); [by right; left|by vm_compute|by vm_compute|].
  assert (toy_rows = (ds, os)) as Hrows by (unfold toy_rows; by rewrite Hc). rewrite Hrows. cbn [fst snd].
  destruct Hr as (types' & Hv & Hres & _).
  { replace ds with toy_rows.1 by (by rewrite Hrows). replace os with toy_rows.2 by (by rewrite Hrows). by vm_compute. }
  exists types'. split; [done|]. split; [done|]. revert Hv.
  replace ds with toy_rows.1 by (by rewrite Hrows). replace os with toy_rows.2 by (by rewrite Hrows).
  intros Hv. vm_compute in Hv. injection Hv as <-. by vm_compute.
Defined.

Definition declared_types : AppxContentTypes :=
  mk_types {[chars "png" := chars "image/png"]} {[chars "appxmanifest.xml" := CONTENT_TYPE_MANIFEST]}.
Lemma declared_types_ok : types_ok declared_types.
Proof.
  split; intros k v; cbn [declared_types defaults overrides]; intros [<- <-]%lookup_singleton_Some; [|done].
  split_and!; try done; apply (bool_decide_unpack _); by vm_compute.
Qed.
Lemma declared_manifest_type_lost_witness :
  ∃ ds os types', content_types_for_signing declared_types toy_parts false = Ok (ds, os) ∧
     @validate_content_types_xml ToyXml (encode_utf8 (types_text ds os)) = Ok types' ∧
     validate_reserved_content_types types' (mk_inventory false) (chars "msix") =
       Err "[Content_Types].xml does not declare a content type for `{part}`".
Proof.
  destruct (@declared_manifest_type_lost ToyXml declared_types toy_parts false (chars "msix") CONTENT_TYPE_MANIFEST
    (mk_inventory false) declared_types_ok toy_parts_staged) as (ds & os & Hc & Hr);
    [by right; left|by vm_compute|by vm_compute|by vm_compute|by vm_compute| |done|].
  { intros p Hp. apply list_elem_of_In in Hp. cbn in Hp. destruct Hp as [<-|[<-|[]]]; [by vm_compute|done]. }
  exists ds, os.
  assert (match content_types_for_signing declared_types toy_parts false with Ok r => r | _ => ([], []) end = (ds, os))
    as Hrows by (by rewrite Hc).
  destruct Hr as (types' & Hv & Hres); [|exists types'; exact (conj Hc (conj Hv Hres))].
  vm_compute in Hrows. injection Hrows as <- <-. by vm_compute.
Defined.
