(* ===== verification/AppxDigest.v ===== *)
(** The digest of an APPX or MSIX package and its verification:
    [crates/psign-sip-digest/src/msix_digest.rs].

    The archive reader of the [zip] crate is the interface [ZipCrate]: what it
    reports of every entry, [Err] where opening an entry fails, and the bytes an
    entry's reader gives.  The PKCS#7 parser of the [authenticode] crate is an
    argument, the digest inside a message. *)

From stdpp Require Import gmap.
From S2P Require Import Prelude.
From S2P Require Import RustStr.
From S2P Require Import Base64.
From S2P Require Import AppxTail.
From S2P Require Import PeDigest.
From S2P Require Import Xml.
From S2P Require Import AppxParts.
From S2P Require Import AppxTypes.

Definition DATA_DESCRIPTOR_BIT : Z := Z.shiftl 1 3.
Definition DD_SIG : Z := 0x08074b50.
Definition APPX_BLOCK_SIZE : Z := 64 * 1024.
Definition SIG_APPX : bytes := lit "APPX".
Definition TAG_AXPC : bytes := lit "AXPC".
Definition TAG_AXCD : bytes := lit "AXCD".
Definition TAG_AXCT : bytes := lit "AXCT".
Definition TAG_AXBM : bytes := lit "AXBM".
Definition TAG_AXCI : bytes := lit "AXCI".

Inductive CompressionMethod := Stored | Deflated | OtherMethod.
(** An entry as the archive reports it. *)
Record ZipFile := mk_zf {
  zf_name : str; zf_name_raw : bytes; zf_compression : CompressionMethod; zf_crc32 : Z;
  zf_compressed_size : Z; zf_size : Z; zf_header_start : Z; zf_data_start : Z;
  zf_central_header_start : Z; zf_extra_data : bytes; read_to_end : outcome bytes }.
(** [by_index] for every index below [len()], [file_names] and [by_name];
    [by_index_raw] reads the bytes as they are stored. *)
Record ZipArchive := mk_archive {
  by_index : list (outcome ZipFile); file_names : list str; by_name : str → outcome ZipFile;
  by_index_raw : list (outcome ZipFile) }.
Class ZipCrate := { zip_archive_new : bytes → outcome ZipArchive }.

Record AppxDigestParts := mk_parts { axpc : bytes; axcd : bytes; axct : bytes; axbm : bytes; axci : option bytes }.

Definition strip_pkcx (data : bytes) : outcome bytes :=
  bail_if ((len data <? 4) || negb (bool_decide (sub data 0 4 = lit "PKCX")))
    "AppxSignature.p7x did not start with PKCX (Windows P7X wrapper)";;
  Ok (sub data 4 (len data)).

(** ** The digest blob *)

(** The position after the pieces of [tags], when they are all there. *)
Fixpoint tags_end (data : bytes) (candidate pos : Z) (tags : list bytes) : option Z :=
  match tags with
  | [] => Some pos
  | t :: tags' =>
      if (len data <? pos + 4 + candidate) || negb (bool_decide (sub data pos (pos + 4) = t))
      then None else tags_end data candidate (pos + 4 + candidate) tags'
  end.
Definition blob_candidate (data : bytes) (candidate : Z) : option bool :=
  pos ← tags_end data candidate 4 [TAG_AXPC; TAG_AXCD; TAG_AXCT; TAG_AXBM];
  if pos =? len data then Some false else
  match tags_end data candidate pos [TAG_AXCI] with
  | Some pos' => if pos' =? len data then Some true else None
  | None => None
  end.
Fixpoint blob_layout (data : bytes) (candidates : list Z) : option (Z * bool) :=
  match candidates with
  | [] => None
  | c :: candidates' =>
      match blob_candidate data c with
      | Some ci => Some (c, ci)
      | None => blob_layout data candidates'
      end
  end.
Definition take_piece (data : bytes) (md_len pos : Z) (tag : bytes) : outcome (bytes * Z) :=
  bail_if ((len data <? pos + 4 + md_len) || negb (bool_decide (sub data pos (pos + 4) = tag)))
    "unexpected APPX digest tag";;
  d ← index_range data (pos + 4) (pos + 4 + md_len);
  Ok (d, pos + 4 + md_len).
Definition parse_signed_appx_blob (data : bytes) : outcome (Z * AppxDigestParts) :=
  bail_if ((len data <? 4) || negb (bool_decide (sub data 0 4 = SIG_APPX)))
    "PKCS#7 indirect digest is not an APPX blob (missing APPX prefix)";;
  '(md_len, has_ci) ← ok_or (blob_layout data [20; 32; 48; 64])
    "could not parse APPX indirect digest blob (expected AXPC..AXBM [+ AXCI])";
  '(axpc, pos) ← take_piece data md_len 4 TAG_AXPC;
  '(axcd, pos) ← take_piece data md_len pos TAG_AXCD;
  '(axct, pos) ← take_piece data md_len pos TAG_AXCT;
  '(axbm, pos) ← take_piece data md_len pos TAG_AXBM;
  '(axci, pos) ← (if has_ci : bool
                  then '(ci, pos) ← take_piece data md_len pos TAG_AXCI; Ok (Some ci, pos)
                  else Ok (None, pos));
  bail_if (negb (pos =? len data)) "trailing bytes in APPX indirect digest blob";;
  Ok (md_len, mk_parts axpc axcd axct axbm axci).

(** ** ZIP64 extra fields *)

Record Z64 := mk_z64 {
  needs_uncomp : bool; needs_comp : bool; needs_off : bool; needs_disk : bool; z_disk : Z; z_i : Z }.
(** Eight bytes of the chunk for a size or offset still wanted. *)
Definition take8 (needs : bool) (r n : Z) : bool * Z :=
  if needs && (r + 8 <=? n) then (false, r + 8) else (needs, r).
Definition z64_chunk (chunk : bytes) (s : Z64) : Z64 :=
  let n := len chunk in
  let '(u, r) := take8 (needs_uncomp s) 0 n in
  let '(c, r) := take8 (needs_comp s) r n in
  let '(o, r) := take8 (needs_off s) r n in
  if needs_disk s && (r + 4 <=? n) then mk_z64 u c o false (fld 4 chunk r) (z_i s)
  else mk_z64 u c o (needs_disk s) (z_disk s) (z_i s).
Definition z64_step (extra : bytes) (s : Z64) : Z64 + Z64 :=
  let i := z_i s in
  if i + 4 <=? len extra then
    let id := fld 2 extra i in
    let sz := fld 2 extra (i + 2) in
    let i := i + 4 in
    if len extra <? i + sz then inr s else
    let chunk := sub extra i (i + sz) in
    let s' := if id =? ZIP64_EXTRA_ID then z64_chunk chunk s else s in
    inl (mk_z64 (needs_uncomp s') (needs_comp s') (needs_off s') (needs_disk s') (z_disk s') (i + sz))
  else inr s.
Definition parse_zip64_cd_extra (extra : bytes) (fixed_comp fixed_uncomp fixed_off fixed_disk : Z)
    : bool * bool * bool * bool * Z :=
  let s0 := mk_z64 (fixed_uncomp =? U32_MAX) (fixed_comp =? U32_MAX) (fixed_off =? U32_MAX)
              (fixed_disk =? U16_MAX) fixed_disk 0 in
  let s := default s0 (loop (z64_step extra) (S (length extra)) s0) in
  (fixed_uncomp =? U32_MAX, fixed_comp =? U32_MAX, fixed_off =? U32_MAX, fixed_disk =? U16_MAX, z_disk s).

(** ** Hashing the entries *)

Definition u32_or_max (z64 : bool) (n : Z) : Z := if z64 then U32_MAX else n.
Definition has_descriptor (flags : Z) : bool := negb (Z.land flags DATA_DESCRIPTOR_BIT =? 0).

Definition write_local_header_normalized (hasher : RunningHasher) (buf : bytes) (zf : ZipFile)
    : outcome RunningHasher :=
  let hs := zf_header_start zf in
  sig ← read_u32_le buf hs;
  bail_if (negb (sig =? LH_SIG)) "bad local file header signature";;
  version ← read_u16_le buf (hs + 4);
  flags ← read_u16_le buf (hs + 6);
  compression ← read_u16_le buf (hs + 8);
  mod_time ← read_u16_le buf (hs + 10);
  mod_date ← read_u16_le buf (hs + 12);
  let hasher := hasher_update hasher
    (to_le 4 LH_SIG ++ to_le 2 version ++ to_le 2 flags ++ to_le 2 compression ++ to_le 2 mod_time ++ to_le 2 mod_date) in
  let hasher := hasher_update hasher
    (if has_descriptor flags then replicate 12 (byte_of 0) else
     to_le 4 (zf_crc32 zf)
     ++ to_le 4 (u32_or_max (U32_MAX <? zf_compressed_size zf) (zf_compressed_size zf mod U32))
     ++ to_le 4 (u32_or_max (U32_MAX <? zf_size zf) (zf_size zf mod U32))) in
  Ok (hasher_update hasher
    (to_le 2 (len (zf_name_raw zf) mod U16) ++ to_le 2 (len (zf_extra_data zf) mod U16)
     ++ zf_name_raw zf ++ zf_extra_data zf)).

Definition append_data_descriptor (hasher : RunningHasher) (buf : bytes) (zf : ZipFile) (package_zip64 : bool)
    : outcome RunningHasher :=
  flags ← read_u16_le buf (zf_header_start zf + 6);
  if negb (has_descriptor flags) then Ok hasher else
  let hasher := hasher_update hasher (to_le 4 DD_SIG ++ to_le 4 (zf_crc32 zf)) in
  if package_zip64 then Ok (hasher_update hasher (to_le 8 (zf_compressed_size zf) ++ to_le 8 (zf_size zf)))
  else
    cs ← ok_or (try_u32 (zf_compressed_size zf)) "ZIP64 package flag required for large data descriptor";
    us ← ok_or (try_u32 (zf_size zf)) "ZIP64 package flag required";
    Ok (hasher_update hasher (to_le 4 cs ++ to_le 4 us)).

Definition saturating_add64 (a b : Z) : Z := Z.min (a + b) (U64 - 1).
Definition payload_and_descriptor_len (buf : bytes) (zf : ZipFile) (package_zip64 : bool) : outcome Z :=
  flags ← read_u16_le buf (zf_header_start zf + 6);
  Ok (saturating_add64 (zf_compressed_size zf)
        (if has_descriptor flags then if package_zip64 then 24 else 16 else 0)).

(** The entries that are left out: the signature and directories. *)
Definition skipped_entry (zf : ZipFile) : bool :=
  bool_decide (zf_name_raw zf = lit "AppxSignature.p7x") || is_directory_name (zf_name zf).

Definition hash_entry (buf : bytes) (package_zip64 : bool) (zf : ZipFile) (hasher : RunningHasher) (cd_cursor : Z)
    : outcome (RunningHasher * Z) :=
  bail_if (match zf_compression zf with OtherMethod => true | _ => false end)
    "unsupported ZIP compression {other:?} for MSIX digest (need Stored/Deflated)";;
  hasher ← write_local_header_normalized hasher buf zf;
  let hl := 30 + len (zf_name_raw zf) + len (zf_extra_data zf) in
  cd_cursor ← ok_or (checked_add64 cd_cursor hl) "cursor overflow";
  let ds := zf_data_start zf in
  end_ ← ok_or (checked_add64 ds (zf_compressed_size zf)) "payload overflow";
  slice ← ok_or (get_range buf ds end_) "compressed payload out of range";
  let hasher := hasher_update hasher slice in
  hasher ← append_data_descriptor hasher buf zf package_zip64;
  inc ← payload_and_descriptor_len buf zf package_zip64;
  cd_cursor ← ok_or (checked_add64 cd_cursor inc) "cursor overflow";
  Ok (hasher, cd_cursor).
Fixpoint hash_entries (buf : bytes) (package_zip64 : bool) (entries : list (outcome ZipFile))
    (hasher : RunningHasher) (cd_cursor : Z) : outcome (RunningHasher * Z) :=
  match entries with
  | [] => Ok (hasher, cd_cursor)
  | r :: entries' =>
      zf ← r;
      if skipped_entry zf then hash_entries buf package_zip64 entries' hasher cd_cursor else
      '(hasher, cd_cursor) ← hash_entry buf package_zip64 zf hasher cd_cursor;
      hash_entries buf package_zip64 entries' hasher cd_cursor
  end.
Definition hash_zip_file_data `{DigestOracle} (buf : bytes) (archive : ZipArchive) (tail : ZipTail)
    (kind : PeAuthenticodeHashKind) : outcome (bytes * Z) :=
  let package_zip64 := bool_decide (is_Some (locator tail)) in
  '(hasher, cd_cursor) ← hash_entries buf package_zip64 (by_index archive) (hasher_new kind) 0;
  Ok (hasher_finalize hasher, cd_cursor).

(** ** Hashing the central directory *)

(** The ZIP64 field of an entry, with the values that do not fit. *)
Definition synthetic_extra (uncomp_z64 comp_z64 off_z64 disk_z64 : bool) (uncomp comp off disk : Z) : bytes :=
  let pay := (if uncomp_z64 then to_le 8 uncomp else []) ++ (if comp_z64 then to_le 8 comp else [])
             ++ (if off_z64 then to_le 8 off else []) ++ (if disk_z64 then to_le 4 disk else []) in
  if bool_decide (pay = []) then [] else to_le 2 ZIP64_EXTRA_ID ++ to_le 2 (len pay mod U16) ++ pay.

(** One record: the bytes hashed, and how many count as written. *)
Definition central_entry (buf : bytes) (zf : ZipFile) : outcome (bytes * Z) :=
  let central_off := zf_central_header_start zf in
  sig ← read_u32_le buf central_off;
  bail_if (negb (sig =? CD_SIG)) "bad central directory signature";;
  version_made_by ← read_u16_le buf (central_off + 4);
  version_needed ← read_u16_le buf (central_off + 6);
  flags ← read_u16_le buf (central_off + 8);
  compression ← read_u16_le buf (central_off + 10);
  mod_time ← read_u16_le buf (central_off + 12);
  mod_date ← read_u16_le buf (central_off + 14);
  crc32 ← read_u32_le buf (central_off + 16);
  comp32 ← read_u32_le buf (central_off + 20);
  uncomp32 ← read_u32_le buf (central_off + 24);
  file_name_length ← read_u16_le buf (central_off + 28);
  extra_field_length ← read_u16_le buf (central_off + 30);
  file_comment_length ← read_u16_le buf (central_off + 32);
  disk_start ← read_u16_le buf (central_off + 34);
  internal_attr ← read_u16_le buf (central_off + 36);
  external_attr ← read_u32_le buf (central_off + 38);
  local_off32 ← read_u32_le buf (central_off + 42);
  let base := central_off + 46 in
  name_end ← ok_or (checked_add64 base file_name_length) "name";
  extra_end ← ok_or (checked_add64 name_end extra_field_length) "extra";
  record_end ← ok_or (checked_add64 extra_end file_comment_length) "comment";
  bail_if (len buf <? record_end) "central directory entry out of range";;
  fname ← index_range buf base name_end;
  extra ← index_range buf name_end extra_end;
  fcomment ← index_range buf extra_end record_end;
  let '(uncomp_z64, comp_z64, off_z64, disk_z64, disk_u32) :=
    parse_zip64_cd_extra extra comp32 uncomp32 local_off32 disk_start in
  let uncomp_z64 := uncomp_z64 || (U32_MAX <? zf_size zf) in
  let comp_z64 := comp_z64 || (U32_MAX <? zf_compressed_size zf) in
  let off_z64 := off_z64 || (U32_MAX <? zf_header_start zf) in
  let syn := synthetic_extra uncomp_z64 comp_z64 off_z64 disk_z64
               (zf_size zf) (zf_compressed_size zf) (zf_header_start zf) disk_u32 in
  bail_if (negb (version_made_by =? ZIP64_VERSION) || negb (external_attr =? 0))
    "MSIX/AppX central directory entry `{name}` has version made by {version_made_by:#06x} and external attributes {external_attr:#010x}; Windows AppxSip only accepts the AppxPackaging layout ({ZIP64_VERSION:#06x}, 0x00000000)";;
  comp ← (if comp_z64 : bool then Ok U32_MAX else ok_or (try_u32 (zf_compressed_size zf)) "compressed size overflow");
  uncomp ← (if uncomp_z64 : bool then Ok U32_MAX else ok_or (try_u32 (zf_size zf)) "uncompressed size overflow");
  syn_len ← ok_or (try_u16 (len syn)) "synthetic extra too large";
  off ← (if off_z64 : bool then Ok U32_MAX else ok_or (try_u32 (zf_header_start zf)) "local header offset overflow");
  Ok (to_le 4 CD_SIG ++ to_le 2 version_made_by ++ to_le 2 version_needed ++ to_le 2 flags ++ to_le 2 compression
      ++ to_le 2 mod_time ++ to_le 2 mod_date ++ to_le 4 crc32 ++ to_le 4 comp ++ to_le 4 uncomp
      ++ to_le 2 (len fname mod U16) ++ to_le 2 syn_len ++ to_le 2 (len fcomment mod U16)
      ++ to_le 2 (if disk_z64 then U16_MAX else disk_start) ++ to_le 2 internal_attr ++ to_le 4 external_attr
      ++ to_le 4 off ++ fname ++ syn ++ fcomment,
      46 + len fname + syn_len + len fcomment).
(** The records: the hasher, [cd_size] and [no_entries]. *)
Fixpoint hash_central (buf : bytes) (entries : list (outcome ZipFile)) (hasher : RunningHasher) (cd_size no_entries : Z)
    : outcome (RunningHasher * Z * Z) :=
  match entries with
  | [] => Ok (hasher, cd_size, no_entries)
  | r :: entries' =>
      zf ← r;
      if skipped_entry zf then hash_central buf entries' hasher cd_size no_entries else
      '(record, written) ← central_entry buf zf;
      cd_size ← ok_or (checked_add64 cd_size written) "cd_size overflow";
      no_entries ← ok_or (try_u16 (no_entries + 1)) "too many entries";
      hash_central buf entries' (hasher_update hasher record) cd_size no_entries
  end.
Definition hash_cd_and_eocd `{DigestOracle} (buf : bytes) (archive : ZipArchive) (tail : ZipTail)
    (kind : PeAuthenticodeHashKind) (cd_offset_virtual : Z) : outcome bytes :=
  '(hasher, cd_size, no_entries) ← hash_central buf (by_index archive) (hasher_new kind) 0 0;
  z ← ok_or (zip64_eocd tail)
    "MSIX/AppX package has no ZIP64 end-of-central-directory record; Windows AppxSip rejects the signature digest of such packages";
  loc ← ok_or (locator tail) "ZIP64 EOCD without locator";
  let hasher := hasher_update hasher
    (to_le 4 ZIP64_EOCD_SIG ++ to_le 8 (record_size z) ++ to_le 2 (version_made_by z) ++ to_le 2 (version_needed_to_extract z)
     ++ to_le 4 (z_disk_number z) ++ to_le 4 (z_disk_with_central_directory z) ++ to_le 8 no_entries ++ to_le 8 no_entries
     ++ to_le 8 cd_size ++ to_le 8 cd_offset_virtual ++ tail_after_fixed z) in
  let hasher := hasher_update hasher
    (to_le 4 ZIP64_LOC_SIG ++ to_le 4 (loc_disk_with_central_directory loc)
     ++ to_le 8 (saturating_add64 cd_offset_virtual cd_size) ++ to_le 4 (number_of_disks loc)) in
  let c := classic tail in
  size ← (if negb (central_directory_size c =? U32_MAX)
          then ok_or (try_u32 cd_size) "cd_size does not fit u32" else Ok U32_MAX);
  offset ← (if negb (central_directory_offset c =? U32_MAX)
            then ok_or (try_u32 cd_offset_virtual) "cd_offset does not fit u32" else Ok U32_MAX);
  Ok (hasher_finalize (hasher_update hasher
    (to_le 4 EOCD_SIG ++ to_le 2 0 ++ to_le 2 0
     ++ to_le 2 (if negb (number_of_files_on_this_disk c =? U16_MAX) then no_entries else U16_MAX)
     ++ to_le 2 (if negb (number_of_files c =? U16_MAX) then no_entries else U16_MAX)
     ++ to_le 4 size ++ to_le 4 offset ++ to_le 2 (len (zip_file_comment c) mod U16) ++ zip_file_comment c))).

(** ** The layout of the archive *)

Definition data_descriptor_len_and_validate (buf : bytes) (off : Z) (zf : ZipFile) : outcome Z :=
  let has_sig := match get_range buf off (off + 4) with Some b => from_le b =? DD_SIG | None => false end in
  let cursor := if has_sig then off + 4 else off in
  crc ← read_u32_le buf cursor;
  bail_if (negb (crc =? zf_crc32 zf)) "ZIP data descriptor CRC does not match central directory";;
  let sizes_match (c u : option Z) :=
    match c, u with Some c, Some u => (c =? zf_compressed_size zf) && (u =? zf_size zf) | _, _ => false end in
  let classic_matches :=
    sizes_match (ok_opt (read_u32_le buf (cursor + 4))) (ok_opt (read_u32_le buf (cursor + 8))) in
  if classic_matches then Ok (if has_sig then 16 else 12) else
  let zip64_matches :=
    sizes_match (ok_opt (read_u64_le buf (cursor + 4))) (ok_opt (read_u64_le buf (cursor + 12))) in
  if zip64_matches then Ok (if has_sig then 24 else 20) else
  _ ← read_u64_le buf (cursor + 4);
  _ ← read_u64_le buf (cursor + 12);
  Err "ZIP data descriptor sizes do not match central directory (compressed={compressed_size}, uncompressed={uncompressed_size})".

Definition local_file_record_extent (buf : bytes) (zf : ZipFile) : outcome (Z * Z) :=
  let hs := zf_header_start zf in
  sig ← read_u32_le buf hs;
  bail_if (negb (sig =? LH_SIG)) "bad local file header signature";;
  flags ← read_u16_le buf (hs + 6);
  bail_if (encrypted_flags flags)
    "encrypted ZIP local file records are not valid cleartext APPX/MSIX packages";;
  compression ← read_u16_le buf (hs + 8);
  bail_if (negb ((compression =? 0) || (compression =? 8)))
    "unsupported ZIP compression method {compression} in APPX/MSIX local file record";;
  bail_if (match zf_compression zf with OtherMethod => true | _ => false end)
    "unsupported ZIP compression method {:?} in APPX/MSIX central directory";;
  name_len ← read_u16_le buf (hs + 26);
  extra_len ← read_u16_le buf (hs + 28);
  name_start ← ok_or (checked_add64 hs 30) "local file name offset overflow";
  name_end ← ok_or (checked_add64 name_start name_len) "local file name extent overflow";
  local_name ← ok_or (get_range buf name_start name_end) "local file name out of range";
  bail_if (negb (bool_decide (local_name = zf_name_raw zf)))
    "ZIP local file name does not match central directory for `{}`";;
  expected_data_start ← ok_or (checked_add64 hs (30 + name_len + extra_len)) "local file header extent overflow";
  bail_if (negb (zf_data_start zf =? expected_data_start)) "local file header/data offset mismatch for `{}`";;
  compressed_end ← ok_or (checked_add64 (zf_data_start zf) (zf_compressed_size zf))
    "compressed payload extent overflow";
  (if negb (has_descriptor flags) then
     crc ← read_u32_le buf (hs + 14);
     compressed_size ← read_u32_le buf (hs + 18);
     uncompressed_size ← read_u32_le buf (hs + 22);
     bail_if (negb (crc =? zf_crc32 zf)) "ZIP local file CRC does not match central directory for `{}`";;
     bail_if (negb (compressed_size =? U32_MAX) && negb (compressed_size =? zf_compressed_size zf))
       "ZIP local compressed size does not match central directory for `{}`";;
     bail_if (negb (uncompressed_size =? U32_MAX) && negb (uncompressed_size =? zf_size zf))
       "ZIP local uncompressed size does not match central directory for `{}`"
   else Ok tt);;
  descriptor_len ← (if has_descriptor flags then data_descriptor_len_and_validate buf compressed_end zf else Ok 0);
  end_ ← ok_or (checked_add64 compressed_end descriptor_len) "local file record extent overflow";
  Ok (hs, end_).

Fixpoint entry_extents (buf : bytes) (entries : list (outcome ZipFile)) : outcome (list (Z * Z)) :=
  match entries with
  | [] => Ok []
  | r :: entries' =>
      zf ← r;
      extent ← local_file_record_extent buf zf;
      rest ← entry_extents buf entries';
      Ok (extent :: rest)
  end.
(** [extents.sort_by_key(start)], which is stable *)
Fixpoint insert_extent (x : Z * Z) (xs : list (Z * Z)) : list (Z * Z) :=
  match xs with
  | [] => [x]
  | y :: xs' => if fst x <=? fst y then x :: xs else y :: insert_extent x xs'
  end.
Definition sort_extents (xs : list (Z * Z)) : list (Z * Z) := foldr insert_extent [] xs.
(** [extents.windows(2)] *)
Fixpoint check_adjacent (xs : list (Z * Z)) : outcome unit :=
  match xs with
  | x :: ((y :: _) as xs') =>
      bail_if (fst y <? snd x) "APPX/MSIX ZIP local file records overlap (`{prev_name}` / `{next_name}`)";;
      bail_if (snd x <? fst y)
        "APPX/MSIX ZIP has a gap between local file records `{prev_name}` and `{next_name}`";;
      check_adjacent xs'
  | _ => Ok tt
  end.
Definition validate_zip_file_layout (buf : bytes) (archive : ZipArchive) (tail : ZipTail) : outcome unit :=
  validate_central_directory_records buf tail;;
  extents ← entry_extents buf (by_index archive);
  let extents := sort_extents extents in
  '(first_start, _) ← ok_or (head extents) "APPX/MSIX ZIP has no local file records";
  bail_if (negb (first_start =? 0)) "APPX/MSIX ZIP has leading bytes before first local file `{first_name}`";;
  check_adjacent extents;;
  '(_, last_end) ← unwrap (last extents);
  bail_if (negb (last_end =? t_central_directory_offset tail))
    "APPX/MSIX ZIP has a gap before the central directory after `{last_name}`";;
  cd_end ← ok_or (checked_add64 (t_central_directory_offset tail) (t_central_directory_size tail))
    "central directory extent overflow";
  let expected_cd_end := default (eocd_offset tail) (zip64_eocd_offset tail) in
  bail_if (negb (cd_end =? expected_cd_end)) "APPX/MSIX ZIP central directory does not end at EOCD/ZIP64 EOCD".

(** ** The block map against the entries *)

Fixpoint index_entries (entries : list (outcome ZipFile)) (i : Z) (files : gmap str Z) : outcome (gmap str Z) :=
  match entries with
  | [] => Ok files
  | r :: entries' =>
      zf ← r;
      if is_directory_name (zf_name zf) then index_entries entries' (i + 1) files else
      normalized ← normalize_appx_part_name (zf_name zf);
      bail_if (bool_decide (is_Some (files !! normalized)))
        "duplicate ZIP entry after APPX path normalization: `{normalized}`";;
      index_entries entries' (i + 1) (<[normalized := i]> files)
  end.
Definition archive_file_index_by_normalized_name (archive : ZipArchive) : outcome (gmap str Z) :=
  index_entries (by_index archive) 0 ∅.

Definition hash_bytes `{DigestOracle} (kind : PeAuthenticodeHashKind) (bs : bytes) : bytes :=
  hasher_finalize (hasher_update (hasher_new kind) bs).

Section BlockHashes.
Context `{DigestOracle} (kind : PeAuthenticodeHashKind).
(** The blocks of one file: the offset after the last. *)
Fixpoint check_blocks (data : bytes) (offset : Z) (bs : list AppxBlockMapBlock) : outcome Z :=
  match bs with
  | [] => Ok offset
  | b :: bs' =>
      bail_if (len data <=? offset) "AppxBlockMap.xml File `{}` has too many block hashes";;
      let end_ := Z.min (saturating_add64 offset APPX_BLOCK_SIZE) (len data) in
      block ← index_range data offset end_;
      bail_if (negb (bool_decide (hash_bytes kind block = b_hash b)))
        "AppxBlockMap.xml File `{}` block {block_index} hash mismatch";;
      bail_if (match compressed_size b with Some n => n =? 0 | None => false end)
        "AppxBlockMap.xml File `{}` block {block_index} has zero Size";;
      check_blocks data end_ bs'
  end.
(** The contents of one file of the map. *)
Definition check_content (f : AppxBlockMapFile) (data : bytes) : outcome unit :=
  bail_if (negb (len data =? declared_size f))
    "AppxBlockMap.xml File `{}` Size {} does not match uncompressed size {data_len}";;
  if bool_decide (data = []) then
    bail_if (negb (bool_decide (blocks f = []))) "AppxBlockMap.xml File `{}` is empty but has block hashes"
  else
    bail_if (bool_decide (blocks f = [])) "AppxBlockMap.xml File `{}` has content but no block hashes";;
    offset ← check_blocks data 0 (blocks f);
    bail_if (negb (offset =? len data)) "AppxBlockMap.xml File `{}` has too few block hashes";;
    bail_if (match file_hash f with Some h => negb (bool_decide (hash_bytes kind data = h)) | None => false end)
      "AppxBlockMap.xml File `{}` FileHash mismatch".
Definition check_file (archive : ZipArchive) (file_index : gmap str Z) (f : AppxBlockMapFile) : outcome unit :=
  bail_if (bool_decide (normalized_name f ∈ [BLOCK_MAP; CONTENT_TYPES; APP_SIGNATURE]))
    "AppxBlockMap.xml must not list metadata part `{}` as payload";;
  index ← ok_or (file_index !! normalized_name f) "AppxBlockMap.xml File `{}` is missing from package ZIP";
  r ← unwrap (get_at (by_index archive) index);
  zf ← r;
  (match lfh_size f with
   | Some lfh =>
       bail_if (zf_data_start zf <? zf_header_start zf) "local file header size underflow";;
       bail_if (negb (lfh =? zf_data_start zf - zf_header_start zf))
         "AppxBlockMap.xml File `{}` LfhSize {lfh_size} does not match ZIP local header size {actual_lfh_size}"
   | None => Ok tt
   end);;
  data ← read_to_end zf;
  check_content f data.
Fixpoint check_files (archive : ZipArchive) (file_index : gmap str Z) (files : list AppxBlockMapFile) : outcome unit :=
  match files with
  | [] => Ok tt
  | f :: files' => check_file archive file_index f;; check_files archive file_index files'
  end.
Definition validate_block_map_file_hashes `{ZipCrate} (buf : bytes) (block_map_files : list AppxBlockMapFile)
    : outcome unit :=
  archive ← zip_archive_new buf;
  file_index ← archive_file_index_by_normalized_name archive;
  archive ← zip_archive_new buf;
  check_files archive file_index block_map_files.
End BlockHashes.

(** ** Verifying and signing *)

Definition cleartext_msix_extension_for_name (name : str) : option str :=
  let lower := to_ascii_lowercase (default name (last (split 47 name))) in
  if ends_with lower (chars ".msix") then Some (chars "msix")
  else if ends_with lower (chars ".appx") then Some (chars "appx")
  else if ends_with lower (chars ".msixbundle") then Some (chars "msixbundle")
  else if ends_with lower (chars ".appxbundle") then Some (chars "appxbundle")
  else None.
Definition is_cleartext_msix_extension (ext : str) : bool :=
  bool_decide (ext ∈ [chars "msix"; chars "appx"; chars "msixbundle"; chars "appxbundle"]).

Section Verify.
Context `{ZipCrate} `{XmlReader} `{Base64} `{DigestOracle} (embedded_digest : bytes → option bytes).

Definition read_zip_entry_raw (archive : ZipArchive) (name : str) : outcome bytes :=
  f ← by_name archive name;
  read_to_end f.

(** The child packages of a bundle: name, extension and contents. *)
Fixpoint bundle_children (entries : list (outcome ZipFile)) : outcome (list (str * str * bytes)) :=
  match entries with
  | [] => Ok []
  | r :: entries' =>
      zf ← r;
      if is_directory_name (zf_name zf) then bundle_children entries' else
      normalized ← normalize_appx_part_name (zf_name zf);
      match cleartext_msix_extension_for_name normalized with
      | None => bundle_children entries'
      | Some ext =>
          child ← read_to_end zf;
          rest ← bundle_children entries';
          Ok ((normalized, ext, child) :: rest)
      end
  end.
(** Verification calls itself on the children; [None] is a nesting that is
    deeper than the fuel. *)
Fixpoint verify_children (verify : bytes → str → option (outcome (bytes * bytes)))
    (children : list (str * str * bytes)) : option (outcome unit) :=
  match children with
  | [] => Some (Ok tt)
  | (_, ext, child) :: children' =>
      r ← verify child ext;
      match r with
      | Ok _ => verify_children verify children'
      | Err _ => Some (Err "bundle child package `{name}` failed MSIX SIP validation: {e}")
      | Panic => Some Panic
      end
  end.
Definition verify_bundle_child_packages (verify : bytes → str → option (outcome (bytes * bytes))) (buf : bytes)
    : option (outcome unit) :=
  match archive ← zip_archive_new buf; bundle_children (by_index archive) with
  | Ok children => verify_children verify children
  | Err e => Some (Err e)
  | Panic => Some Panic
  end.

Definition check_piece (a b : bytes) (msg : string) : outcome unit := bail_if (negb (bool_decide (a = b))) msg.

(** What both entry points read of a package. *)
Definition read_block_map_and_types (archive : ZipArchive) (inventory : AppxPackageInventory) (ext : str)
    : outcome (bytes * PeAuthenticodeHashKind * list AppxBlockMapFile * bytes) :=
  block_map_bytes ← read_zip_entry_raw archive BLOCK_MAP;
  '(kind, files) ← parse_block_map_xml block_map_bytes;
  ct_raw ← read_zip_entry_raw archive CONTENT_TYPES;
  content_types ← validate_content_types_xml ct_raw;
  validate_reserved_content_types content_types inventory ext;;
  Ok (block_map_bytes, kind, files, ct_raw).
Definition read_code_integrity (archive : ZipArchive) (inventory : AppxPackageInventory) : outcome (option bytes) :=
  if has_code_integrity inventory then Some <$> read_zip_entry_raw archive CODE_INTEGRITY else Ok None.
Definition zip_hashes (buf : bytes) (tail : ZipTail) (kind : PeAuthenticodeHashKind) : outcome (bytes * bytes) :=
  archive2 ← zip_archive_new buf;
  '(data_hash, cd_off_virt) ← hash_zip_file_data buf archive2 tail kind;
  archive3 ← zip_archive_new buf;
  cd_hash ← hash_cd_and_eocd buf archive3 tail kind cd_off_virt;
  Ok (data_hash, cd_hash).

(** Everything before the child packages. *)
Definition verify_package (buf : bytes) (ext : str) : outcome (bytes * bytes) :=
  tail ← parse_zip_tail buf;
  layout_archive ← zip_archive_new buf;
  validate_zip_file_layout buf layout_archive tail;;
  archive ← zip_archive_new buf;
  inventory ← validate_package_part_inventory (file_names archive) ext;
  p7x ← read_zip_entry_raw archive APP_SIGNATURE;
  pkcs7 ← strip_pkcx p7x;
  embedded ← ok_or (embedded_digest pkcs7) "MSIX PKCS#7 parse failed: {e}";
  '(piece_len, parts) ← parse_signed_appx_blob embedded;
  '(_, kind, block_map_files, ct_raw) ← read_block_map_and_types archive inventory ext;
  bail_if (negb (piece_len =? digest_output_len kind))
    "PKCS#7 APPX digest width {piece_len} does not match AppxBlockMap HashMethod ({expected_piece})";;
  bm_raw ← read_zip_entry_raw archive BLOCK_MAP;
  ci_raw ← read_code_integrity archive inventory;
  bail_if (negb (Bool.eqb (has_code_integrity inventory) (bool_decide (is_Some (axci parts)))))
    "CodeIntegrity.cat presence does not match PKCS#7 AXCI block";;
  let ct_hash := hash_bytes kind ct_raw in
  let bm_hash := hash_bytes kind bm_raw in
  ci_hash ← match ci_raw, axci parts with
            | Some data, Some _ => Ok (Some (hash_bytes kind data))
            | None, None => Ok None
            | _, _ => Panic
            end;
  '(data_hash, cd_hash) ← zip_hashes buf tail kind;
  check_piece data_hash (axpc parts) "MSIX Authenticode {label} mismatch (Rust SIP vs PKCS#7 APPX blob)";;
  check_piece cd_hash (axcd parts) "MSIX Authenticode {label} mismatch (Rust SIP vs PKCS#7 APPX blob)";;
  check_piece ct_hash (axct parts) "MSIX Authenticode {label} mismatch (Rust SIP vs PKCS#7 APPX blob)";;
  check_piece bm_hash (axbm parts) "MSIX Authenticode {label} mismatch (Rust SIP vs PKCS#7 APPX blob)";;
  match ci_hash, axci parts with
  | Some ch, Some sig_ci =>
      check_piece ch sig_ci "MSIX Authenticode {label} mismatch (Rust SIP vs PKCS#7 APPX blob)"
  | None, None => Ok tt
  | _, _ => Err "MSIX Authenticode AXCI presence mismatch (CodeIntegrity.cat vs PKCS#7 APPX blob)"
  end;;
  validate_block_map_file_hashes kind buf block_map_files;;
  Ok (pkcs7, embedded).
Fixpoint verify_msix_digest_consistency_bytes (depth : nat) (buf : bytes) (ext : str)
    : option (outcome (bytes * bytes)) :=
  match depth with
  | O => None
  | S depth' =>
      match verify_package buf ext with
      | Ok r =>
          if is_bundle ext then
            children ← verify_bundle_child_packages (verify_msix_digest_consistency_bytes depth') buf;
            Some (children;; Ok r)
          else Some (Ok r)
      | Err e => Some (Err e)
      | Panic => Some Panic
      end
  end.

(** The pieces of the blob, before the child packages are checked. *)
Definition digest_package (buf : bytes) (ext : str) : outcome (PeAuthenticodeHashKind * bytes) :=
  tail ← parse_zip_tail buf;
  layout_archive ← zip_archive_new buf;
  validate_zip_file_layout buf layout_archive tail;;
  archive ← zip_archive_new buf;
  inventory ← validate_package_part_inventory (file_names archive) ext;
  '(block_map_bytes, kind, block_map_files, ct_raw) ← read_block_map_and_types archive inventory ext;
  ci_raw ← read_code_integrity archive inventory;
  '(data_hash, cd_hash) ← zip_hashes buf tail kind;
  validate_block_map_file_hashes kind buf block_map_files;;
  Ok (kind,
      SIG_APPX ++ TAG_AXPC ++ data_hash ++ TAG_AXCD ++ cd_hash ++ TAG_AXCT ++ hash_bytes kind ct_raw
      ++ TAG_AXBM ++ hash_bytes kind block_map_bytes
      ++ match ci_raw with Some data => TAG_AXCI ++ hash_bytes kind data | None => [] end).
Definition msix_authenticode_digest_blob (depth : nat) (buf : bytes) (ext : str)
    : option (outcome (PeAuthenticodeHashKind * bytes)) :=
  let ext := to_ascii_lowercase ext in
  if is_encrypted_msix_extension ext
  then Some (Err "Rust MSIX SIP digest parity applies only to cleartext OPC/ZIP packages (.msix, .appx, bundles)")
  else if negb (is_cleartext_msix_extension ext)
  then Some (Err "Rust MSIX SIP digest applies only to `.msix` / `.appx` / `.msixbundle` / `.appxbundle` files")
  else match digest_package buf ext with
  | Ok r =>
      if is_bundle ext then
        children ← verify_bundle_child_packages (verify_msix_digest_consistency_bytes depth) buf;
        Some (children;; Ok r)
      else Some (Ok r)
  | Err e => Some (Err e)
  | Panic => Some Panic
  end.

Definition msix_verified_signature (depth : nat) (buf : bytes) (ext : str) : option (outcome (bytes * bytes)) :=
  let ext := to_ascii_lowercase ext in
  if negb (is_cleartext_msix_extension ext)
  then Some (Err "Rust MSIX SIP digest check applies only to cleartext `.msix` / `.appx` / `.msixbundle` / `.appxbundle` files")
  else verify_msix_digest_consistency_bytes depth buf ext.
(** The file system is a function from paths to contents. *)
Definition verify_msix_digest_consistency (depth : nat) (fs : str → option bytes) (path : str) : option (outcome unit) :=
  let ext := to_ascii_lowercase (default [] (path_extension path)) in
  if is_encrypted_msix_extension ext
  then Some (Err "Rust MSIX SIP digest parity applies only to cleartext OPC/ZIP packages (.msix, .appx, bundles); encrypted packages (.eappx, .emsix, …) use AppxSip `EappxSip*` / Windows crypto — rely on WinVerifyTrust")
  else if negb (is_cleartext_msix_extension ext)
  then Some (Err "Rust MSIX SIP digest check applies only to `.msix` / `.appx` / `.msixbundle` / `.appxbundle` files")
  else match fs path with
  | None => Some (Err "No such file or directory")
  | Some buf => r ← verify_msix_digest_consistency_bytes depth buf ext; Some (r;; Ok tt)
  end.
Definition msix_signature_part_present (package : bytes) : outcome bool :=
  archive ← zip_archive_new package;
  Ok (existsb (λ name, bool_decide (name = chars "AppxSignature.p7x")) (file_names archive)).
End Verify.
