(* ===== verification/AppxVerify.v ===== *)
(** What the verification of an APPX or MSIX package shows: it recomputes the
    digest a signer computes.  The definitions are in [AppxDigest]. *)

From stdpp Require Import gmap.
From S2P Require Import Prelude.
From S2P Require Import RustStr.
From S2P Require Import Base64.
From S2P Require Import AppxTail.
From S2P Require Import PeDigest.
From S2P Require Import Xml.
From S2P Require Import AppxParts.
From S2P Require Import AppxTypes.
From S2P Require Import AppxDigest.

(** ** The digest blob *)

Definition encode_blob (p : AppxDigestParts) : bytes :=
  SIG_APPX ++ TAG_AXPC ++ axpc p ++ TAG_AXCD ++ axcd p ++ TAG_AXCT ++ axct p ++ TAG_AXBM ++ axbm p
  ++ match axci p with Some ci => TAG_AXCI ++ ci | None => [] end.
Definition pieces_len (n : Z) (p : AppxDigestParts) : Prop :=
  len (axpc p) = n ∧ len (axcd p) = n ∧ len (axct p) = n ∧ len (axbm p) = n ∧ ∀ ci, axci p = Some ci → len ci = n.

Definition enc (l : list (bytes * bytes)) : bytes := concat ((λ x, x.1 ++ x.2) <$> l).
Definition pieces (p : AppxDigestParts) : list (bytes * bytes) :=
  [(TAG_AXPC, axpc p); (TAG_AXCD, axcd p); (TAG_AXCT, axct p); (TAG_AXBM, axbm p)]
  ++ match axci p with Some ci => [(TAG_AXCI, ci)] | None => [] end.
Definition entry_sized (n : Z) (x : bytes * bytes) : Prop := len x.1 = 4 ∧ len x.2 = n.
Lemma encode_pieces p : encode_blob p = SIG_APPX ++ enc (pieces p).
Proof.
  unfold encode_blob, enc, pieces. destruct (axci p); cbn [app fmap list_fmap concat fst snd]; by rewrite ?app_nil_r, <-!app_assoc.
Qed.
Lemma pieces_sized n p : pieces_len n p → Forall (entry_sized n) (pieces p).
Proof.
  intros (H1 & H2 & H3 & H4 & H5). unfold pieces. apply Forall_app. split; [by repeat constructor|].
  destruct (axci p) as [ci|]; [|constructor]. apply Forall_singleton. split; [done|by apply H5].
Qed.
Lemma len_enc_pieces n l : Forall (entry_sized n) l → len (enc l) = len l * (4 + n).
Proof.
  induction 1 as [|x l [H1 H2] Hl IH]; [done|]. change (enc (x :: l)) with ((x.1 ++ x.2) ++ enc l).
  rewrite !len_app, IH, len_cons, H1, H2. lia.
Qed.
Lemma enc_split l1 x l2 : SIG_APPX ++ enc (l1 ++ x :: l2) = (SIG_APPX ++ enc l1) ++ x.1 ++ x.2 ++ enc l2.
Proof. unfold enc. rewrite fmap_app, concat_app. cbn. by rewrite <-!app_assoc. Qed.
Lemma take_piece_at n l1 x l2 pos : Forall (entry_sized n) (l1 ++ x :: l2) → pos = 4 + len l1 * (4 + n) →
  take_piece (SIG_APPX ++ enc (l1 ++ x :: l2)) n pos x.1 = Ok (x.2, pos + 4 + n).
Proof.
  intros Hs ->. apply Forall_app in Hs as [H1 [[Ht Hd] H2]%Forall_cons].
  rewrite enc_split. set (pre := SIG_APPX ++ enc l1).
  assert (len pre = 4 + len l1 * (4 + n)) as Hp by (unfold pre; by rewrite len_app, (len_enc_pieces n)).
  rewrite <-Hp. unfold take_piece. pose proof (len_nonneg (enc l2)). pose proof (len_nonneg pre). pose proof (len_nonneg x.2).
  rewrite (proj2 (Z.ltb_ge _ _)) by (rewrite !len_app; lia).
  rewrite (sub_middle pre x.1 (x.2 ++ enc l2)) by (done || lia). rewrite bool_decide_eq_true_2 by done. cbn [orb negb bail_if mbind outcome_bind].
  rewrite index_range_in by (rewrite ?len_app; lia). cbn [mbind outcome_bind].
  rewrite (app_assoc pre x.1), (sub_middle (pre ++ x.1) x.2 (enc l2)); [done|rewrite len_app; lia|rewrite len_app; lia].
Qed.
Lemma tags_end_at n l1 l l2 pos : Forall (entry_sized n) (l1 ++ l ++ l2) → pos = 4 + len l1 * (4 + n) →
  tags_end (SIG_APPX ++ enc (l1 ++ l ++ l2)) n pos l.*1 = Some (pos + len l * (4 + n)).
Proof.
  revert l1 pos. induction l as [|x l IH]; intros l1 pos Hs ->; cbn [fmap list_fmap tags_end].
  { f_equal. change (len []) with 0. lia. }
  pose proof Hs as [H1 [[Ht Hd] H2]%Forall_cons]%Forall_app.
  assert (take_piece (SIG_APPX ++ enc (l1 ++ x :: l ++ l2)) n (4 + len l1 * (4 + n)) x.1 = Ok (x.2, 4 + len l1 * (4 + n) + 4 + n))
    as Hp by (by apply take_piece_at).
  unfold take_piece in Hp. change (x :: l ++ l2) with ((x :: l) ++ l2) in Hp. destruct (_ || _); [done|].
  rewrite len_cons. change (l1 ++ (x :: l) ++ l2) with (l1 ++ [x] ++ (l ++ l2)) in *. rewrite app_assoc in *.
  rewrite IH; [f_equal; lia|done|]. rewrite len_app. change (len [x]) with 1. lia.
Qed.
Lemma tags_end_Some data n pos tags p : 0 <= pos → 0 <= n → Forall (λ t, len t = 4) tags → tags_end data n pos tags = Some p →
  p = pos + len tags * (4 + n) ∧ (tags ≠ [] → p <= len data).
Proof.
  intros Hp Hn Ht. revert pos Hp. induction Ht as [|t tags Hl Ht IH]; intros pos Hp; cbn [tags_end].
  { intros [= <-]. change (len []) with 0. split; [lia|done]. }
  destruct (_ || _) eqn:E; [done|]. zbool. intros Ht'. destruct (IH (pos + 4 + n) ltac:(lia) Ht') as [-> Hb].
  rewrite len_cons. split; [lia|]. intros _. destruct tags; [|by apply Hb]. unfold len in *. cbn. lia.
Qed.
Lemma blob_candidate_len data n ci : 0 <= n → blob_candidate data n = Some ci →
  len data = 4 + (if ci then 5 else 4) * (4 + n).
Proof.
  intros Hn. unfold blob_candidate. destruct (tags_end data n 4 _) as [pos|] eqn:E; [|done]. cbn [mbind option_bind].
  apply tags_end_Some in E as [-> _]; [|lia|lia|repeat constructor].
  destruct (_ =? len data) eqn:E1; zbool; [intros [= <-]; cbn in E1; unfold len in *; cbn in *; lia|].
  destruct (tags_end data n _ [TAG_AXCI]) as [pos|] eqn:E2; [|done].
  apply tags_end_Some in E2 as [-> _]; [|unfold len; cbn; lia|lia|repeat constructor].
  destruct (_ =? len data) eqn:E3; zbool; [|done]. intros [= <-]. unfold len in *; cbn in *; lia.
Qed.
Lemma len_pieces p : len (pieces p) = if bool_decide (is_Some (axci p)) then 5 else 4.
Proof. unfold pieces. by destruct (axci p). Qed.
Lemma len_encode_blob n p : pieces_len n p →
  len (encode_blob p) = 4 + (if bool_decide (is_Some (axci p)) then 5 else 4) * (4 + n).
Proof. intros Hp%pieces_sized. rewrite encode_pieces, len_app, (len_enc_pieces n), len_pieces by done. done. Qed.
Lemma tags_end_encode n p : pieces_len n p →
  tags_end (encode_blob p) n 4 [TAG_AXPC; TAG_AXCD; TAG_AXCT; TAG_AXBM] = Some (4 + 4 * (4 + n)) ∧
  ∀ ci, axci p = Some ci → tags_end (encode_blob p) n (4 + 4 * (4 + n)) [TAG_AXCI] = Some (4 + 5 * (4 + n)).
Proof.
  intros Hp. pose proof (pieces_sized n p Hp) as Hs. rewrite encode_pieces.
  set (l := [(TAG_AXPC, axpc p); (TAG_AXCD, axcd p); (TAG_AXCT, axct p); (TAG_AXBM, axbm p)]). split.
  - apply (tags_end_at n [] l _ 4); done.
  - intros ci Hci. unfold pieces in *. rewrite Hci in *.
    replace (4 + 5 * (4 + n)) with (4 + 4 * (4 + n) + len [(TAG_AXCI, ci)] * (4 + n)) by (unfold len; cbn; lia).
    by apply (tags_end_at n l [(TAG_AXCI, ci)] []).
Qed.
Lemma blob_candidate_encode n p : 0 <= n → pieces_len n p →
  blob_candidate (encode_blob p) n = Some (bool_decide (is_Some (axci p))).
Proof.
  intros Hn Hp. destruct (tags_end_encode n p Hp) as [Ht Hc]. unfold blob_candidate. rewrite Ht. cbn [mbind option_bind].
  rewrite (len_encode_blob n p Hp). destruct (axci p) as [ci|].
  - rewrite (Hc ci) by done. cbn. by rewrite (proj2 (Z.eqb_neq _ _)), Z.eqb_refl by lia.
  - cbn. by rewrite Z.eqb_refl.
Qed.
Definition piece_sizes : list Z := [20; 32; 48; 64].
Lemma blob_layout_encode n p : n ∈ piece_sizes → pieces_len n p →
  blob_layout (encode_blob p) piece_sizes = Some (n, bool_decide (is_Some (axci p))).
Proof.
  intros Hn Hp. pose proof (len_encode_blob n p Hp) as Hl.
  assert (∀ c, c ∈ piece_sizes → c ≠ n → blob_candidate (encode_blob p) c = None) as Hno.
  { intros c Hc Hne. destruct (blob_candidate (encode_blob p) c) as [b|] eqn:E; [|done]. exfalso.
    apply blob_candidate_len in E; [|apply list_elem_of_In in Hc; cbn in Hc; lia].
    apply list_elem_of_In in Hc, Hn. cbn in Hc, Hn. destruct b, (bool_decide _); lia. }
  assert (∀ cs, (∀ c, c ∈ cs → c ∈ piece_sizes) → n ∈ cs →
    blob_layout (encode_blob p) cs = Some (n, bool_decide (is_Some (axci p)))) as Hall; [|by apply Hall].
  induction cs as [|c cs IH]; intros Hsub Hin; [by apply elem_of_nil in Hin|]. cbn [blob_layout].
  destruct (decide (c = n)) as [->|Hne].
  - rewrite blob_candidate_encode by (done || (apply list_elem_of_In in Hn; cbn in Hn; lia)). done.
  - rewrite Hno by (done || (apply Hsub; by left)). apply IH; [intros; apply Hsub; by right|].
    apply elem_of_cons in Hin as [?|?]; [congruence|done].
Qed.
Lemma parse_blob_encode n p : n ∈ piece_sizes → pieces_len n p → parse_signed_appx_blob (encode_blob p) = Ok (n, p).
Proof.
  intros Hn Hp. unfold parse_signed_appx_blob. pose proof (len_encode_blob n p Hp) as Hl.
  assert (0 <= n) as Hn0 by (apply list_elem_of_In in Hn; cbn in Hn; lia).
  rewrite (proj2 (Z.ltb_ge _ _)) by (rewrite Hl; destruct (bool_decide _); lia).
  replace (sub (encode_blob p) 0 4) with SIG_APPX by (unfold encode_blob; by rewrite sub_app_l, sub_full_ge).
  rewrite bool_decide_eq_true_2 by done. cbn [orb negb bail_if mbind outcome_bind].
  fold piece_sizes. rewrite (blob_layout_encode n p Hn Hp). cbn [ok_or mbind outcome_bind].
  rewrite Hl. clear Hl. pose proof (pieces_sized n p Hp) as Hs. rewrite encode_pieces.
  destruct p as [pc cd ct bm ci]; unfold pieces in *; cbn [axpc axcd axct axbm axci] in *.
  set (rest := match ci with Some ci => [(TAG_AXCI, ci)] | None => [] end) in *.
  pose proof (take_piece_at n [] (TAG_AXPC, pc) ([(TAG_AXCD, cd); (TAG_AXCT, ct); (TAG_AXBM, bm)] ++ rest) 4 Hs eq_refl) as T1.
  pose proof (take_piece_at n [(TAG_AXPC, pc)] (TAG_AXCD, cd) ([(TAG_AXCT, ct); (TAG_AXBM, bm)] ++ rest) (4 + 4 + n) Hs) as T2.
  pose proof (take_piece_at n [(TAG_AXPC, pc); (TAG_AXCD, cd)] (TAG_AXCT, ct) ([(TAG_AXBM, bm)] ++ rest) (4 + 4 + n + 4 + n) Hs) as T3.
  pose proof (take_piece_at n [(TAG_AXPC, pc); (TAG_AXCD, cd); (TAG_AXCT, ct)] (TAG_AXBM, bm) rest (4 + 4 + n + 4 + n + 4 + n) Hs) as T4.
  cbn [app fst snd] in *. rewrite T1. cbn [mbind outcome_bind].
  rewrite T2 by (unfold len; cbn; lia). cbn [mbind outcome_bind]. rewrite T3 by (unfold len; cbn; lia). cbn [mbind outcome_bind].
  rewrite T4 by (unfold len; cbn; lia). cbn [mbind outcome_bind]. unfold rest in *. destruct ci as [ci|].
  - rewrite bool_decide_eq_true_2 by done.
    pose proof (take_piece_at n [(TAG_AXPC, pc); (TAG_AXCD, cd); (TAG_AXCT, ct); (TAG_AXBM, bm)] (TAG_AXCI, ci) []
      (4 + 4 + n + 4 + n + 4 + n + 4 + n) Hs) as T5.
    cbn [app fst snd] in T5. rewrite T5 by (unfold len; cbn; lia). cbn [mbind outcome_bind].
    by rewrite (proj2 (Z.eqb_eq _ _)) by lia.
  - rewrite bool_decide_eq_false_2 by (by intros []). cbn [mbind outcome_bind]. by rewrite (proj2 (Z.eqb_eq _ _)) by lia.
Qed.
Lemma take_piece_Ok data n pos tag d pos' : 0 <= pos → 0 <= n → take_piece data n pos tag = Ok (d, pos') →
  pos' = pos + 4 + n ∧ len d = n ∧ pos' <= len data ∧ sub data pos pos' = tag ++ d.
Proof.
  intros Hp Hn Ht. unfold take_piece in Ht. apply bail_bind_Ok in Ht as [E Ht]. apply bind_Ok in Ht as (d' & Hd & [= <- <-]).
  apply index_range_Ok in Hd as (? & ? & ? & ->). zbool.
  split; [done|]. split; [rewrite len_sub; lia|]. split; [done|].
  rewrite (sub_split data pos (pos + 4)) by lia. by f_equal.
Qed.
Lemma blob_layout_Some data cs n ci : blob_layout data cs = Some (n, ci) → n ∈ cs.
Proof.
  induction cs as [|c cs IH]; [done|]. cbn [blob_layout]. destruct (blob_candidate data c); [intros [= <- _]; by left|].
  intros Hn. right. by apply IH.
Qed.
(** The parser accepts exactly the spellings of four or five pieces. *)
Lemma parse_blob_Ok data n p :
  parse_signed_appx_blob data = Ok (n, p) ↔ data = encode_blob p ∧ pieces_len n p ∧ n ∈ piece_sizes.
Proof.
  split; [|by intros (-> & Hp & Hn); apply parse_blob_encode].
  unfold parse_signed_appx_blob. intros Hd. apply bail_bind_Ok in Hd as [E0 Hd].
  apply bind_Ok in Hd as ([m ci] & El & Hd). apply ok_or_Ok, blob_layout_Some in El. fold piece_sizes in El.
  assert (0 <= m) as Hm by (apply list_elem_of_In in El; cbn in El; lia).
  apply bind_Ok in Hd as ([pc p1] & E1 & Hd). apply take_piece_Ok in E1 as (-> & Hl1 & _ & S1); [|lia..].
  apply bind_Ok in Hd as ([cd p2] & E2 & Hd). apply take_piece_Ok in E2 as (-> & Hl2 & _ & S2); [|lia..].
  apply bind_Ok in Hd as ([ct p3] & E3 & Hd). apply take_piece_Ok in E3 as (-> & Hl3 & _ & S3); [|lia..].
  apply bind_Ok in Hd as ([bm p4] & E4 & Hd). apply take_piece_Ok in E4 as (-> & Hl4 & B4 & S4); [|lia..].
  apply bind_Ok in Hd as ([c p5] & E5 & Hd). apply bail_bind_Ok in Hd as [E6 [= <- <-]]. zbool.
  assert (data = sub data 0 4 ++ (TAG_AXPC ++ pc) ++ (TAG_AXCD ++ cd) ++ (TAG_AXCT ++ ct) ++ (TAG_AXBM ++ bm)
    ++ sub data (4 + 4 + m + 4 + m + 4 + m + 4 + m) (len data)) as Hdata.
  { rewrite <-S1, <-S2, <-S3, <-S4, <-!sub_split by lia. by rewrite sub_full. }
  assert (sub data 0 4 = SIG_APPX) as HS by done.
  unfold encode_blob, pieces_len. cbn [axpc axcd axct axbm axci]. destruct ci.
  - apply bind_Ok in E5 as ([x p5'] & E5 & [= <- <-]). apply take_piece_Ok in E5 as (-> & Hl5 & B5 & S5); [|lia..].
    split; [|split; [split_and!; try done; by intros ? [= <-]|done]].
    rewrite HS, <-E6, S5 in Hdata. rewrite Hdata. by rewrite <-!app_assoc.
  - injection E5 as <- <-. split; [|by split_and!].
    rewrite HS, <-E6, (sub_nil_range data _ _ (Z.le_refl _)) in Hdata. rewrite Hdata. by rewrite <-!app_assoc.
Qed.

(** ** Verification recomputes the digest *)

Section Digest.
Context `{ZipCrate} `{XmlReader} `{Base64} `{DigestOracle} (embedded_digest : bytes → option bytes).

(** The PKCS#7 of the signature part. *)
Definition signature_pkcs7 (buf : bytes) : outcome bytes :=
  archive ← zip_archive_new buf;
  p7x ← read_zip_entry_raw archive APP_SIGNATURE;
  strip_pkcx p7x.

Lemma hash_bytes_len k bs : len (hash_bytes k bs) = digest_output_len k.
Proof. apply digest_len. Qed.
Lemma output_len_piece k : digest_output_len k ∈ piece_sizes.
Proof. apply list_elem_of_In. by destruct k; cbn; tauto. Qed.
Lemma output_len_inj k k' : digest_output_len k = digest_output_len k' → k = k'.
Proof. by destruct k, k'. Qed.
Lemma hash_entries_kind buf z entries h c h' c' :
  hash_entries buf z entries h c = Ok (h', c') → h_kind h' = h_kind h.
Proof.
  revert h c. induction entries as [|r entries IH]; intros h c; cbn [hash_entries]; [by intros [= <- <-]|].
  intros (zf & _ & He)%bind_Ok. destruct (skipped_entry zf); [by eapply IH|].
  apply bind_Ok in He as ([h1 c1] & He & Hr). apply IH in Hr. rewrite Hr. clear Hr IH.
  unfold hash_entry in He. inv_ok He.
  unfold write_local_header_normalized in E0. inv_ok E0.
  unfold append_data_descriptor in E4. apply bind_Ok in E4 as (fl & _ & E4). destruct (negb (has_descriptor fl)); [by injection E4 as <-|].
  destruct z; [by injection E4 as <-|]. by inv_ok E4.
Qed.
Lemma hash_central_kind buf entries h cd n h' cd' n' :
  hash_central buf entries h cd n = Ok (h', cd', n') → h_kind h' = h_kind h.
Proof.
  revert h cd n. induction entries as [|r entries IH]; intros h cd n; cbn [hash_central]; [by intros [= <- <- <-]|].
  intros (zf & _ & He)%bind_Ok. destruct (skipped_entry zf); [by eapply IH|].
  apply bind_Ok in He as ([rec w] & _ & He). inv_ok He. by apply IH in He.
Qed.
Lemma zip_hashes_len buf tail k a b : zip_hashes buf tail k = Ok (a, b) →
  len a = digest_output_len k ∧ len b = digest_output_len k.
Proof.
  unfold zip_hashes. intros Hz. apply bind_Ok in Hz as (a2 & _ & Hz). apply bind_Ok in Hz as ([d o] & Hd & Hz).
  apply bind_Ok in Hz as (a3 & _ & Hz). apply bind_Ok in Hz as (c & Hc & [= -> ->]).
  unfold hash_zip_file_data in Hd. apply bind_Ok in Hd as ([h cu] & Hh & [= <- <-]).
  unfold hash_cd_and_eocd in Hc. apply bind_Ok in Hc as ([[h' s] n] & Hh' & Hc). cbv zeta in Hc. inv_ok Hc.
  apply hash_entries_kind in Hh. apply hash_central_kind in Hh'. unfold hasher_finalize. rewrite !digest_len. cbn.
  by rewrite Hh, Hh'.
Qed.

Lemma check_piece_Ok a b msg : check_piece a b msg = Ok tt ↔ a = b.
Proof. unfold check_piece. rewrite bail_if_Ok, negb_false_iff, bool_decide_eq_true. done. Qed.

(** What a package that passes the checks holds. *)
Record package_read (buf : bytes) (ext : str) (archive : ZipArchive) (tail : ZipTail) (inventory : AppxPackageInventory)
    (bm : bytes) (k : PeAuthenticodeHashKind) (files : list AppxBlockMapFile) (ct : bytes) (ci : option bytes)
    (data_hash cd_hash : bytes) : Prop := mk_read {
  pr_tail : parse_zip_tail buf = Ok tail;
  pr_archive : zip_archive_new buf = Ok archive;
  pr_layout : validate_zip_file_layout buf archive tail = Ok tt;
  pr_inventory : validate_package_part_inventory (file_names archive) ext = Ok inventory;
  pr_parts : read_block_map_and_types archive inventory ext = Ok (bm, k, files, ct);
  pr_ci : read_code_integrity archive inventory = Ok ci;
  pr_hashes : zip_hashes buf tail k = Ok (data_hash, cd_hash);
  pr_files : validate_block_map_file_hashes k buf files = Ok tt }.
Definition package_parts (k : PeAuthenticodeHashKind) (bm ct : bytes) (ci : option bytes) (data_hash cd_hash : bytes)
    : AppxDigestParts :=
  mk_parts data_hash cd_hash (hash_bytes k ct) (hash_bytes k bm) (hash_bytes k <$> ci).

Lemma digest_package_Ok buf ext k e :
  digest_package buf ext = Ok (k, e) ↔
  ∃ archive tail inventory bm files ct ci dh ch,
    package_read buf ext archive tail inventory bm k files ct ci dh ch ∧ e = encode_blob (package_parts k bm ct ci dh ch).
Proof.
  unfold digest_package. split.
  - intros Hd. apply bind_Ok in Hd as (tail & Ht & Hd). apply bind_Ok in Hd as (a & Ha & Hd). rewrite Ha in Hd.
    apply bind_Ok in Hd as ([] & Hl & Hd). cbn [mbind outcome_bind] in Hd. apply bind_Ok in Hd as (inv & Hi & Hd).
    apply bind_Ok in Hd as ([[[bm k'] files] ct] & Hp & Hd). apply bind_Ok in Hd as (ci & Hci & Hd).
    apply bind_Ok in Hd as ([dh ch] & Hz & Hd). apply bind_Ok in Hd as ([] & Hf & [= -> <-]).
    exists a, tail, inv, bm, files, ct, ci, dh, ch. split; [by split|].
    unfold encode_blob, package_parts. by destruct ci.
  - intros (a & tail & inv & bm & files & ct & ci & dh & ch & [Ht Ha Hl Hi Hp Hc Hz Hf] & ->).
    rewrite Ht, Ha. cbn [mbind outcome_bind]. rewrite Hl. cbn [mbind outcome_bind]. rewrite Hi. cbn [mbind outcome_bind].
    rewrite Hp. cbn [mbind outcome_bind]. rewrite Hc. cbn [mbind outcome_bind]. rewrite Hz. cbn [mbind outcome_bind].
    rewrite Hf. cbn [mbind outcome_bind]. unfold encode_blob, package_parts. by destruct ci.
Qed.
Lemma read_parts_block_map archive inventory ext bm k files ct :
  read_block_map_and_types archive inventory ext = Ok (bm, k, files, ct) →
  read_zip_entry_raw archive BLOCK_MAP = Ok bm ∧ parse_block_map_xml bm = Ok (k, files).
Proof.
  unfold read_block_map_and_types. intros Hr. apply bind_Ok in Hr as (b & Hb & Hr).
  apply bind_Ok in Hr as ([k' fs] & Hp & Hr). inv_ok Hr. done.
Qed.
Lemma read_ci_presence archive inventory ci : read_code_integrity archive inventory = Ok ci →
  has_code_integrity inventory = bool_decide (is_Some ci).
Proof.
  unfold read_code_integrity. destruct (has_code_integrity inventory); [|by intros [= <-]].
  destruct (read_zip_entry_raw _ _); [|done..]. intros [= <-]. by rewrite bool_decide_eq_true_2.
Qed.
Lemma package_parts_len buf ext a tail inv bm k files ct ci dh ch :
  package_read buf ext a tail inv bm k files ct ci dh ch →
  pieces_len (digest_output_len k) (package_parts k bm ct ci dh ch).
Proof.
  intros [_ _ _ _ _ _ Hz _]. apply zip_hashes_len in Hz as [H1' H2']. unfold pieces_len. cbn.
  split_and!; try done; [apply hash_bytes_len..|]. intros h. destruct ci; [|done]. cbn. intros [= <-]. apply hash_bytes_len.
Qed.
Lemma verify_package_Ok buf ext p e :
  verify_package embedded_digest buf ext = Ok (p, e) ↔
  signature_pkcs7 buf = Ok p ∧ embedded_digest p = Some e ∧
  ∃ archive tail inventory bm k files ct ci dh ch,
    package_read buf ext archive tail inventory bm k files ct ci dh ch ∧ e = encode_blob (package_parts k bm ct ci dh ch).
Proof.
  unfold verify_package, signature_pkcs7. split.
  - intros Hv. apply bind_Ok in Hv as (tail & Ht & Hv). apply bind_Ok in Hv as (a & Ha & Hv). rewrite Ha in *.
    apply bind_Ok in Hv as ([] & Hl & Hv). cbn [mbind outcome_bind] in *.
    apply bind_Ok in Hv as (inv & Hi & Hv). apply bind_Ok in Hv as (p7x & -> & Hv). apply bind_Ok in Hv as (p7 & Hp7 & Hv).
    apply bind_Ok in Hv as (em & Hem & Hv). apply ok_or_Ok in Hem. apply bind_Ok in Hv as ([n parts] & Hparts & Hv).
    apply parse_blob_Ok in Hparts as (-> & Hlen & _).
    apply bind_Ok in Hv as ([[[bm k] files] ct] & Hp & Hv). apply bail_bind_Ok in Hv as [Hn Hv]. zbool. subst n.
    destruct (read_parts_block_map _ _ _ _ _ _ _ Hp) as [Hbm _]. rewrite Hbm in Hv. cbn [mbind outcome_bind] in Hv.
    apply bind_Ok in Hv as (ci & Hci & Hv). apply bail_bind_Ok in Hv as [_ Hv]. cbv zeta in Hv.
    apply bind_Ok in Hv as (cih & Hcih & Hv). apply bind_Ok in Hv as ([dh ch] & Hz & Hv).
    apply bind_Ok in Hv as ([] & H1'%check_piece_Ok & Hv). apply bind_Ok in Hv as ([] & H2'%check_piece_Ok & Hv).
    apply bind_Ok in Hv as ([] & H3'%check_piece_Ok & Hv). apply bind_Ok in Hv as ([] & H4'%check_piece_Ok & Hv).
    apply bind_Ok in Hv as ([] & H5' & Hv). apply bind_Ok in Hv as ([] & Hf & [= <- <-]).
    split; [done|]. split; [done|]. exists a, tail, inv, bm, k, files, ct, ci, dh, ch. split; [by split|]. f_equal.
    destruct parts as [pc cd ctp bmp cip]; unfold package_parts; cbn [axpc axcd axct axbm axci] in *. subst.
    destruct ci as [ci|], cip as [cip|]; try done; injection Hcih as <-.
    by apply check_piece_Ok in H5' as <-.
  - intros (Hs & Hem & a & tail & inv & bm & k & files & ct & ci & dh & ch & Hr & ->).
    pose proof (package_parts_len _ _ _ _ _ _ _ _ _ _ _ _ Hr) as Hlen. destruct Hr as [Ht Ha Hl Hi Hp Hc Hz Hf].
    rewrite Ht, Ha in *. cbn [mbind outcome_bind] in *. rewrite Hl. cbn [mbind outcome_bind]. rewrite Hi. cbn [mbind outcome_bind].
    apply bind_Ok in Hs as (p7x & -> & Hs). cbn [mbind outcome_bind]. rewrite Hs. cbn [mbind outcome_bind].
    rewrite Hem. cbn [ok_or mbind outcome_bind]. rewrite parse_blob_encode with (n := digest_output_len k) by (done || apply output_len_piece).
    cbn [mbind outcome_bind]. rewrite Hp. cbn [mbind outcome_bind]. rewrite Z.eqb_refl. cbn [negb bail_if mbind outcome_bind].
    destruct (read_parts_block_map _ _ _ _ _ _ _ Hp) as [-> _]. cbn [mbind outcome_bind]. rewrite Hc. cbn [mbind outcome_bind].
    rewrite (read_ci_presence _ _ _ Hc). cbn [package_parts axpc axcd axct axbm axci].
    replace (bool_decide (is_Some (hash_bytes k <$> ci))) with (bool_decide (is_Some ci)) by (by destruct ci).
    rewrite eqb_reflx. cbn [negb bail_if mbind outcome_bind]. rewrite Hz. unfold check_piece.
    destruct ci; cbn [fmap option_fmap option_map mbind outcome_bind]; rewrite !bool_decide_eq_true_2 by done;
      cbn [negb bail_if mbind outcome_bind]; by rewrite Hf.
Qed.
Lemma verify_package_spec buf ext p e :
  verify_package embedded_digest buf ext = Ok (p, e) ↔
  signature_pkcs7 buf = Ok p ∧ embedded_digest p = Some e ∧ ∃ k, digest_package buf ext = Ok (k, e).
Proof.
  rewrite verify_package_Ok. split.
  - intros (? & ? & a & tail & inv & bm & k & rest). split; [done|]. split; [done|]. exists k. apply digest_package_Ok.
    by exists a, tail, inv, bm.
  - intros (? & ? & k & (a & tail & inv & bm & rest)%digest_package_Ok). split; [done|]. split; [done|].
    by exists a, tail, inv, bm, k.
Qed.

Lemma then_children_Ok {A} (r : outcome A) (bundle : bool) (children : option (outcome unit)) y :
  match r with
  | Ok x => if bundle then c ← children; Some (c;; Ok x) else Some (Ok x)
  | Err e => Some (Err e)
  | Panic => Some Panic
  end = Some (Ok y) ↔ r = Ok y ∧ (bundle = true → children = Some (Ok tt)).
Proof.
  destruct r as [x| |]; [|by split; [|intros []]..]. destruct bundle; [|naive_solver].
  destruct children as [[[]| |]|]; cbn; naive_solver.
Qed.

Lemma verify_bytes_Ok depth buf ext p e :
  verify_msix_digest_consistency_bytes embedded_digest (S depth) buf ext = Some (Ok (p, e)) ↔
  (signature_pkcs7 buf = Ok p ∧ embedded_digest p = Some e ∧ ∃ k, digest_package buf ext = Ok (k, e)) ∧
  (is_bundle ext = true →
   verify_bundle_child_packages (verify_msix_digest_consistency_bytes embedded_digest depth) buf = Some (Ok tt)).
Proof. cbn [verify_msix_digest_consistency_bytes]. by rewrite then_children_Ok, verify_package_spec. Qed.
Lemma cleartext_not_encrypted ext : is_cleartext_msix_extension ext = true → is_encrypted_msix_extension ext = false.
Proof.
  unfold is_cleartext_msix_extension. intros Hc%bool_decide_eq_true%list_elem_of_In. cbn in Hc.
  by repeat (destruct Hc as [<-|Hc]; [by vm_compute|]).
Qed.
Lemma digest_blob_Ok depth buf ext k e :
  msix_authenticode_digest_blob embedded_digest depth buf ext = Some (Ok (k, e)) ↔
  is_cleartext_msix_extension (to_ascii_lowercase ext) = true ∧
  digest_package buf (to_ascii_lowercase ext) = Ok (k, e) ∧
  (is_bundle (to_ascii_lowercase ext) = true →
   verify_bundle_child_packages (verify_msix_digest_consistency_bytes embedded_digest depth) buf = Some (Ok tt)).
Proof.
  unfold msix_authenticode_digest_blob. cbv zeta.
  destruct (is_cleartext_msix_extension (to_ascii_lowercase ext)) eqn:Hc; cbn [negb].
  - rewrite cleartext_not_encrypted by done. rewrite then_children_Ok. naive_solver.
  - split; [by destruct (is_encrypted_msix_extension _)|]. by intros [? _].
Qed.

(** C20: The verifier accepts a package exactly when its signature part holds a
    PKCS#7 over the digest that a signer would compute for the same package,
    and it returns that PKCS#7 and digest; for bundles, up to the same nesting
    of child packages. *)
Theorem verification_is_digest depth buf ext p e :
  msix_verified_signature embedded_digest (S depth) buf ext = Some (Ok (p, e)) ↔
  signature_pkcs7 buf = Ok p ∧ embedded_digest p = Some e ∧
  ∃ k, msix_authenticode_digest_blob embedded_digest depth buf ext = Some (Ok (k, e)).
Proof.
  unfold msix_verified_signature. cbv zeta. setoid_rewrite digest_blob_Ok.
  destruct (is_cleartext_msix_extension (to_ascii_lowercase ext)); cbn [negb]; [|naive_solver].
  rewrite verify_bytes_Ok. naive_solver.
Qed.
End Digest.
