(* ===== verification/AppxWritten.v ===== *)
(** What the archive reader reports of a package the ZIP writer made, and what
    the layout check and the digest of [AppxDigest] do on such a package.
    The reader is the [zip] crate: [reads_written] is what is assumed of it. *)

From stdpp Require Import gmap.
From S2P Require Import Prelude.
From S2P Require Import RustStr.
From S2P Require Import AppxTail.
From S2P Require Import AppxZip.
From S2P Require Import PeDigest.
From S2P Require Import AppxParts.
From S2P Require Import AppxDigest.

Section Written.
(** What the reader gives of the contents of an entry. *)
Context (contents : AppxZipEntry → outcome bytes).

Definition compression_of (method : Z) : CompressionMethod :=
  if method =? METHOD_STORED then Stored else if method =? METHOD_DEFLATED then Deflated else OtherMethod.
Definition directory_offset (es : list AppxZipEntry) (i : nat) : Z :=
  len (local_area es) + len (directory (take i es)).
Definition written_file (es : list AppxZipEntry) (i : nat) (e : AppxZipEntry) : ZipFile :=
  mk_zf (e_name e) (encode_utf8 (e_name e)) (compression_of (e_method e)) (e_crc32 e) (len (e_data e))
    (e_uncompressed_size e) (entry_offset es i) (entry_offset es i + local_header_size e) (directory_offset es i) []
    (contents e).
Definition with_data (data : outcome bytes) (zf : ZipFile) : ZipFile :=
  mk_zf (zf_name zf) (zf_name_raw zf) (zf_compression zf) (zf_crc32 zf) (zf_compressed_size zf) (zf_size zf)
    (zf_header_start zf) (zf_data_start zf) (zf_central_header_start zf) (zf_extra_data zf) data.
Definition written_files (es : list AppxZipEntry) : list ZipFile := imap (written_file es) es.
Definition written_archive (es : list AppxZipEntry) : ZipArchive :=
  mk_archive (Ok <$> written_files es) (e_name <$> es)
    (λ name, ok_or (snd <$> list_find (λ zf, zf_name zf = name) (written_files es)) "specified file not found in archive")
    (Ok <$> imap (λ i e, with_data (Ok (e_data e)) (written_file es i e)) es).

Lemma written_files_lookup es i e : es !! i = Some e → written_files es !! i = Some (written_file es i e).
Proof. intros Hi. unfold written_files. by rewrite list_lookup_imap, Hi. Qed.

(** ** Reading a local header *)
Section Local.
Context (es : list AppxZipEntry) (i : nat) (e : AppxZipEntry) (rest : bytes).
Context (Hi : es !! i = Some e) (Hfit : entry_fits e).
Let buf := local_area es ++ rest.
Let o := entry_offset es i.

Lemma local_read (j m : nat) w v off : local_fields e !! j = Some (m, v) → off = fields_size (take j (local_fields e)) →
  w = Z.of_nat m → 0 <= off → off + w <= 30 → 0 <= v < 2 ^ (8 * w) → read_le w buf (o + off) = Ok v.
Proof.
  intros Hj Hoff Hw H0 Hle Hv. pose proof (entry_offset_bound _ _ _ Hi) as [Ho Hb].
  pose proof (byte_len_nonneg (e_name e)). pose proof (len_nonneg (e_data e)). pose proof (len_nonneg rest).
  rewrite len_local in Hb. unfold local_header_size in Hb. fold o in Ho, Hb.
  apply read_le_Ok; [lia|]. unfold buf. rewrite len_app. split_and!; [lia|lia|].
  rewrite <- (local_fld e j m w v off) by done. unfold fld. f_equal.
  rewrite <- (local_at es i e rest Hi). fold o.
  rewrite sub_sub by (rewrite ?len_local; unfold local_header_size; lia). f_equal; lia.
Qed.
Context (Hsmall : len (local_area es) < U32_MAX).
Let zf := written_file es i e.

Lemma local_bounds : 0 <= o ∧ o + 30 + byte_len (e_name e) + len (e_data e) <= len (local_area es) ∧
  0 <= byte_len (e_name e) ∧ 0 <= len (e_data e) ∧ 0 <= len rest.
Proof.
  pose proof (entry_offset_bound _ _ _ Hi) as [Ho Hb]. rewrite len_local in Hb. unfold local_header_size in Hb.
  fold o in Ho, Hb. pose proof (byte_len_nonneg (e_name e)). pose proof (len_nonneg (e_data e)).
  pose proof (len_nonneg rest). lia.
Qed.
Lemma local_reads :
  read_u32_le buf o = Ok LH_SIG ∧ read_u16_le buf (o + 4) = Ok 20 ∧ read_u16_le buf (o + 6) = Ok (name_flags (e_name e)) ∧
  read_u16_le buf (o + 8) = Ok (e_method e) ∧ read_u16_le buf (o + 10) = Ok 0 ∧ read_u16_le buf (o + 12) = Ok DOS_DATE_1980 ∧
  read_u32_le buf (o + 14) = Ok (e_crc32 e) ∧ read_u32_le buf (o + 18) = Ok (len (e_data e)) ∧
  read_u32_le buf (o + 22) = Ok (e_uncompressed_size e) ∧ read_u16_le buf (o + 26) = Ok (byte_len (e_name e)) ∧
  read_u16_le buf (o + 28) = Ok 0.
Proof.
  destruct Hfit as (Hm & Hc & Hn & Hd & Hu). destruct local_bounds as (? & ? & ? & ? & ?).
  unfold U16, U32, U32_MAX in *. unfold read_u32_le, read_u16_le.
  replace o with (o + 0) at 1 by lia.
  pose proof (name_flags_range (e_name e)). unfold METHOD_STORED, METHOD_DEFLATED in *.
  split_and!; [apply (local_read 0 4)|apply (local_read 1 2)|apply (local_read 2 2)|apply (local_read 3 2)
    |apply (local_read 4 2)|apply (local_read 5 2)|apply (local_read 6 4)|apply (local_read 7 4)|apply (local_read 8 4)
    |apply (local_read 9 2)|apply (local_read 10 2)]; done || (cbn; lia).
Qed.
Lemma local_slice a b : 0 <= a → a <= b → b <= len (local_record e) →
  get_range buf (o + a) (o + b) = Some (sub (local_record e) a b).
Proof.
  intros. destruct local_bounds as (? & ? & ? & ? & ?). rewrite len_local in *. unfold local_header_size in *.
  rewrite get_range_in by (unfold buf; rewrite ?len_app; lia). f_equal.
  rewrite <- (local_at es i e rest Hi), len_local. fold o. by rewrite sub_sub by (unfold local_header_size; lia).
Qed.
Lemma local_record_parts : local_record e = encode_fields (local_fields e) ++ encode_utf8 (e_name e) ++ e_data e.
Proof. apply local_record_fields. Qed.
Lemma local_name : get_range buf (o + 30) (o + (30 + byte_len (e_name e))) = Some (encode_utf8 (e_name e)).
Proof.
  destruct local_bounds as (? & ? & ? & ? & ?).
  rewrite local_slice by (rewrite ?len_local; unfold local_header_size; lia). f_equal.
  rewrite local_record_parts. rewrite sub_app_r by (rewrite len_encode_fields; done).
  rewrite len_encode_fields. change (fields_size (local_fields e)) with 30.
  rewrite sub_app_l by (unfold byte_len in *; lia). replace (30 - 30) with 0 by lia.
  replace (30 + _ - 30) with (len (encode_utf8 (e_name e))) by (unfold byte_len; lia). apply sub_full.
Qed.
Lemma local_data : get_range buf (o + local_header_size e) (o + local_header_size e + len (e_data e)) = Some (e_data e).
Proof.
  destruct local_bounds as (? & ? & ? & ? & ?). rewrite <- Z.add_assoc.
  rewrite local_slice by (rewrite ?len_local; unfold local_header_size; lia). f_equal.
  rewrite local_record_parts, app_assoc. unfold local_header_size.
  assert (len (encode_fields (local_fields e) ++ encode_utf8 (e_name e)) = 30 + byte_len (e_name e)) as Hl
    by (rewrite len_app, len_encode_fields; done).
  rewrite sub_app_r by lia. rewrite Hl. replace (_ - _) with 0 by lia.
  replace (_ - _) with (len (e_data e)) by lia. apply sub_full.
Qed.
Lemma no_descriptor : has_descriptor (name_flags (e_name e)) = false.
Proof. by destruct (name_flags_range (e_name e)) as [-> | ->]. Qed.
Lemma no_encryption : encrypted_flags (name_flags (e_name e)) = false.
Proof. by destruct (name_flags_range (e_name e)) as [-> | ->]. Qed.

Lemma written_extent : local_file_record_extent buf zf = Ok (o, o + len (local_record e)).
Proof.
  destruct local_bounds as (? & ? & ? & ? & ?).
  destruct local_reads as (R0 & R4 & R6 & R8 & R10 & R12 & R14 & R18 & R22 & R26 & R28).
  destruct Hfit as (Hm & Hc & Hn & Hd & Hu).
  unfold local_file_record_extent, zf, written_file.
  cbn [zf_header_start zf_name_raw zf_data_start zf_compressed_size zf_size zf_crc32 zf_compression]. cbv zeta. fold o.
  rewrite R0, R6, R8, R26, R28, R14, R18, R22. cbn [mbind outcome_bind]. rewrite no_descriptor, no_encryption.
  cbn [negb bail_if mbind outcome_bind]. rewrite Z.eqb_refl. cbn [negb bail_if mbind outcome_bind].
  unfold checked_add64. unfold U32_MAX, U64 in *.
  rewrite (proj2 (Z.ltb_lt (o + 30) _)) by lia. cbn [ok_or mbind outcome_bind].
  rewrite (proj2 (Z.ltb_lt (o + 30 + _) _)) by lia. cbn [ok_or mbind outcome_bind].
  rewrite <- (Z.add_assoc o 30), local_name. cbn [ok_or mbind outcome_bind].
  rewrite bool_decide_eq_true_2 by done. rewrite (proj2 (Z.ltb_lt (o + (_ + 0)) _)) by lia.
  cbn [negb bail_if ok_or mbind outcome_bind].
  rewrite len_local. unfold local_header_size. rewrite Z.add_0_r, !Z.eqb_refl. cbn [negb bail_if ok_or mbind outcome_bind].
  rewrite (proj2 (Z.ltb_lt (o + _ + len _) _)) by lia. cbn [ok_or mbind outcome_bind].
  rewrite !andb_false_r. cbn [bail_if mbind outcome_bind]. rewrite Z.add_0_r.
  rewrite (proj2 (Z.ltb_lt (o + _ + len _) _)) by lia. cbn [ok_or mbind outcome_bind].
  destruct Hm as [-> | ->]; cbn; do 2 f_equal; lia.
Qed.

(** What is hashed of an entry is its record, byte for byte. *)
Lemma written_hash_entry z64 hasher cursor : 0 <= cursor <= o →
  hash_entry buf z64 zf hasher cursor = Ok (hasher_update hasher (local_record e), cursor + len (local_record e)).
Proof.
  intros Hcur. destruct local_bounds as (? & ? & ? & ? & ?).
  destruct local_reads as (R0 & R4 & R6 & R8 & R10 & R12 & R14 & R18 & R22 & R26 & R28).
  destruct Hfit as (Hm & Hc & Hn & Hd & Hu).
  unfold hash_entry, write_local_header_normalized, append_data_descriptor, payload_and_descriptor_len, zf, written_file.
  cbn [zf_header_start zf_name_raw zf_data_start zf_compressed_size zf_size zf_crc32 zf_compression zf_extra_data].
  cbv zeta. fold o.
  rewrite R0, R4, R6, R8, R10, R12. cbn [mbind outcome_bind]. rewrite Z.eqb_refl. cbn [negb bail_if mbind outcome_bind].
  rewrite no_descriptor. change (len (@nil byte)) with 0. rewrite Z.add_0_r. fold (byte_len (e_name e)).
  unfold checked_add64, saturating_add64. unfold U32_MAX, U64 in *.
  rewrite (proj2 (Z.ltb_lt (cursor + _) _)), (proj2 (Z.ltb_lt (o + _ + _) _)) by (unfold local_header_size; lia).
  cbn [ok_or mbind outcome_bind]. rewrite local_data.
  destruct (compression_of (e_method e)) eqn:Hcm; [..|by destruct Hm as [Hx|Hx]; rewrite Hx in Hcm].
  all: cbn [negb bail_if ok_or mbind outcome_bind]; rewrite Z.add_0_r, Z.min_l by lia;
    rewrite (proj2 (Z.ltb_lt (cursor + _ + _) _)) by lia; cbn [ok_or mbind outcome_bind];
    rewrite len_local; unfold local_header_size; f_equal; f_equal; [|lia];
    unfold hasher_update; cbn [h_kind h_fed]; f_equal; unfold u32_or_max, local_record, U32, U16 in *;
    rewrite !(proj2 (Z.ltb_ge _ _)), !Z.mod_small by lia; rewrite <- !app_assoc; cbn [app]; done.
Qed.
End Local.

(** ** Reading a record of the directory *)
Lemma directory_split es i e : es !! i = Some e →
  directory es = directory (take i es) ++ central_record e (entry_offset es i)
                 ++ concat (centrals (entry_offset es i + len (local_record e)) (drop (S i) es)).
Proof.
  intros Hi. unfold directory. rewrite <-(take_drop_middle es i e Hi) at 1.
  rewrite centrals_app, concat_app. unfold entry_offset. by rewrite Z.add_0_l.
Qed.
Section Directory.
Context (es : list AppxZipEntry) (i : nat) (e : AppxZipEntry) (rest : bytes).
Context (Hi : es !! i = Some e) (Hfit : entry_fits e).
Context (Hsmall : len (local_area es) < U32_MAX) (Hdir : len (directory es) < U32_MAX).
Let buf := local_area es ++ directory es ++ rest.
Let o := entry_offset es i.
Let c := directory_offset es i.
Let record := central_record e o.

Lemma directory_at a b : 0 <= a → a <= b → b <= len record → sub buf (c + a) (c + b) = sub record a b.
Proof.
  intros. unfold buf, c, directory_offset. rewrite (directory_split _ _ _ Hi).
  pose proof (len_nonneg (local_area es)). pose proof (len_nonneg (directory (take i es))).
  rewrite <- !app_assoc, sub_app_r by lia. rewrite sub_app_r by lia. rewrite sub_app_l by (fold o; fold record; lia).
  fold o. fold record. f_equal; lia.
Qed.
Lemma directory_bounds : 0 <= c ∧ c + len record <= len buf ∧ len record = 46 + byte_len (e_name e) ∧
  0 <= byte_len (e_name e) ∧ 0 <= o < U32_MAX ∧ c + len record < 2 * U32_MAX.
Proof.
  unfold buf, c, directory_offset, record. rewrite !len_app, len_central.
  rewrite (directory_split _ _ _ Hi), !len_app, len_central in *. fold o in Hdir |- *.
  pose proof (byte_len_nonneg (e_name e)). destruct (local_bounds es i e [] Hi) as (? & ? & ? & ? & ?).
  fold o in H0, H1. pose proof (len_nonneg (local_area es)). pose proof (len_nonneg (directory (take i es))).
  pose proof (len_nonneg rest). pose proof (len_nonneg (concat (centrals (o + len (local_record e)) (drop (S i) es)))).
  unfold U32_MAX in *. lia.
Qed.
Lemma directory_read (j m : nat) w v off : central_fields e o !! j = Some (m, v) →
  off = fields_size (take j (central_fields e o)) → w = Z.of_nat m → 0 <= off → off + w <= 46 → 0 <= v < 2 ^ (8 * w) →
  read_le w buf (c + off) = Ok v.
Proof.
  intros Hj Hoff Hw H0 Hle Hv. destruct directory_bounds as (? & ? & ? & ? & _).
  apply read_le_Ok; [lia|]. split_and!; [lia|lia|].
  rewrite <- (central_fld e o j m w v off) by done. unfold fld. f_equal. rewrite <- Z.add_assoc, directory_at by lia. done.
Qed.
Lemma directory_name : sub buf (c + 46) (c + (46 + byte_len (e_name e))) = encode_utf8 (e_name e).
Proof.
  destruct directory_bounds as (? & ? & ? & ? & _). rewrite directory_at by lia. unfold record.
  rewrite central_record_fields. rewrite sub_app_r by (rewrite len_encode_fields; done).
  rewrite len_encode_fields. change (fields_size (central_fields e o)) with 46.
  replace (46 - 46) with 0 by lia. replace (46 + _ - 46) with (len (encode_utf8 (e_name e))) by (unfold byte_len; lia).
  apply sub_full.
Qed.
Lemma directory_reads :
  read_u32_le buf c = Ok CD_SIG ∧ read_u16_le buf (c + 4) = Ok 45 ∧ read_u16_le buf (c + 6) = Ok 20 ∧
  read_u16_le buf (c + 8) = Ok (name_flags (e_name e)) ∧ read_u16_le buf (c + 10) = Ok (e_method e) ∧
  read_u16_le buf (c + 12) = Ok 0 ∧ read_u16_le buf (c + 14) = Ok DOS_DATE_1980 ∧
  read_u32_le buf (c + 16) = Ok (e_crc32 e) ∧ read_u32_le buf (c + 20) = Ok (len (e_data e)) ∧
  read_u32_le buf (c + 24) = Ok (e_uncompressed_size e) ∧ read_u16_le buf (c + 28) = Ok (byte_len (e_name e)) ∧
  read_u16_le buf (c + 30) = Ok 0 ∧ read_u16_le buf (c + 32) = Ok 0 ∧ read_u16_le buf (c + 34) = Ok 0 ∧
  read_u16_le buf (c + 36) = Ok 0 ∧ read_u32_le buf (c + 38) = Ok 0 ∧ read_u32_le buf (c + 42) = Ok o.
Proof.
  destruct Hfit as (Hm & Hc & Hn & Hd & Hu). destruct directory_bounds as (? & ? & ? & ? & ? & ?).
  unfold U16, U32, U32_MAX in *. unfold read_u32_le, read_u16_le. pose proof (len_nonneg (e_data e)).
  replace c with (c + 0) at 1 by lia.
  pose proof (name_flags_range (e_name e)). unfold METHOD_STORED, METHOD_DEFLATED in *.
  split_and!; [apply (directory_read 0 4)|apply (directory_read 1 2)|apply (directory_read 2 2)|apply (directory_read 3 2)
    |apply (directory_read 4 2)|apply (directory_read 5 2)|apply (directory_read 6 2)|apply (directory_read 7 4)
    |apply (directory_read 8 4)|apply (directory_read 9 4)|apply (directory_read 10 2)|apply (directory_read 11 2)
    |apply (directory_read 12 2)|apply (directory_read 13 2)|apply (directory_read 14 2)|apply (directory_read 15 4)
    |apply (directory_read 16 4)]; done || (cbn; lia).
Qed.

Lemma no_zip64_extra comp uncomp off : comp < U32_MAX → uncomp < U32_MAX → off < U32_MAX →
  parse_zip64_cd_extra [] comp uncomp off 0 = (false, false, false, false, 0).
Proof.
  intros. unfold parse_zip64_cd_extra. rewrite !(proj2 (Z.eqb_neq _ U32_MAX)) by lia. done.
Qed.
(** What is hashed of a record is the record, byte for byte. *)
Lemma written_central_entry : central_entry buf (written_file es i e) = Ok (record, len record).
Proof.
  destruct directory_bounds as (? & Hb & Hl & ? & ? & ?).
  destruct directory_reads as (R0 & R4 & R6 & R8 & R10 & R12 & R14 & R16 & R20 & R24 & R28 & R30 & R32 & R34 & R36 & R38 & R42).
  destruct Hfit as (Hm & Hc & Hn & Hd & Hu).
  unfold central_entry, written_file. cbn [zf_central_header_start zf_size zf_compressed_size zf_header_start].
  cbv zeta. fold o. fold c. rewrite Hl in Hb.
  rewrite R0. cbn [mbind outcome_bind]. rewrite Z.eqb_refl. cbn [negb bail_if mbind outcome_bind].
  rewrite R4, R6, R8, R10, R12, R14. cbn [mbind outcome_bind]. rewrite R16, R20, R24, R28, R30, R32, R34, R36, R38, R42.
  cbn [mbind outcome_bind]. unfold checked_add64. unfold U32_MAX, U64, U32, U16 in *.
  rewrite (proj2 (Z.ltb_lt (c + 46 + _) _)) by lia. cbn [ok_or mbind outcome_bind].
  rewrite !(Z.add_0_r (c + 46 + _)), !(proj2 (Z.ltb_lt (c + 46 + _) _)) by lia. cbn [ok_or mbind outcome_bind].
  rewrite !(Z.add_0_r (c + 46 + _)), !(proj2 (Z.ltb_lt (c + 46 + _) _)) by lia. cbn [ok_or mbind outcome_bind].
  rewrite (proj2 (Z.ltb_ge (len buf) _)) by lia. cbn [bail_if mbind outcome_bind].
  rewrite !index_range_in by lia. cbn [mbind outcome_bind]. rewrite <- Z.add_assoc, directory_name, sub_nil_range by lia.
  rewrite no_zip64_extra by (unfold U32_MAX; lia). rewrite !(proj2 (Z.ltb_ge 0xffffffff _)) by lia.
  cbn -[to_le byte_len len Z.ltb]. unfold try_u32, try_u16, U32, U16. rewrite !(proj2 (Z.ltb_lt _ 0x100000000)) by lia.
  cbn -[to_le byte_len len Z.ltb]. change (len (@nil byte)) with 0. fold (byte_len (e_name e)).
  rewrite (Z.mod_small (byte_len _)) by lia. 
  change (0 <? _) with true. cbn [ok_or mbind outcome_bind].
  rewrite (Z.mod_small 0) by lia. f_equal. f_equal; [|lia]. unfold record, central_record.
  rewrite app_nil_r. change (replicate 8 (byte_of 0)) with (to_le 2 0 ++ to_le 2 0 ++ to_le 2 0 ++ to_le 2 0).
  by rewrite <- !app_assoc.
Qed.
End Directory.

(** ** The digest of a written package *)
Definition skipped_name (name : str) : bool :=
  bool_decide (encode_utf8 name = lit "AppxSignature.p7x") || is_directory_name name.
Lemma skipped_written es i e : skipped_entry (written_file es i e) = skipped_name (e_name e).
Proof. done. Qed.

Section Hashed.
Context (es : list AppxZipEntry) (rest : bytes).
Context (Hes : Forall entry_fits es) (Hsmall : len (local_area es) < U32_MAX) (Hdir : len (directory es) < U32_MAX).
Context (Hn : len es < U16_MAX).
Let buf := local_area es ++ directory es ++ rest.

Let files (k : nat) (l : list AppxZipEntry) : list (outcome ZipFile) :=
  Ok <$> imap (λ i e, written_file es (k + i) e) l.
Lemma files_cons k e l : files k (e :: l) = Ok (written_file es k e) :: files (S k) l.
Proof.
  unfold files. cbn [imap fmap list_fmap]. rewrite Nat.add_0_r. do 2 f_equal. apply imap_ext. intros i x _.
  unfold compose. by rewrite Nat.add_succ_comm.
Qed.
Lemma at_prefix pre e suf : es = pre ++ e :: suf →
  es !! length pre = Some e ∧ entry_offset es (length pre) = len (local_area pre) ∧ entry_fits e.
Proof.
  intros Heq. assert (es !! length pre = Some e) as Hi by (subst es; by rewrite lookup_app_r, Nat.sub_diag).
  split; [done|]. split; [subst es; unfold entry_offset; by rewrite take_app_length|].
  by eapply (proj1 (Forall_lookup _ _) Hes).
Qed.
Lemma local_area_snoc pre e : local_area (pre ++ [e]) = local_area pre ++ local_record e.
Proof. unfold local_area. rewrite fmap_app, concat_app. cbn. by rewrite app_nil_r. Qed.
Lemma directory_snoc pre e : directory (pre ++ [e]) = directory pre ++ central_record e (len (local_area pre)).
Proof. unfold directory. rewrite centrals_app, concat_app. cbn [centrals concat]. by rewrite app_nil_r. Qed.

Lemma hash_entries_written z64 pre suf sig k hd : es = pre ++ suf ++ [sig] →
  Forall (λ e, skipped_name (e_name e) = false) suf → skipped_name (e_name sig) = true →
  hash_entries buf z64 (files (length pre) (suf ++ [sig])) (mk_hasher k hd) (len (local_area pre))
  = Ok (mk_hasher k (hd ++ local_area suf), len (local_area (pre ++ suf))).
Proof.
  intros Heq Hsuf Hsig. revert pre hd Heq. induction Hsuf as [|e suf He _ IH]; intros pre hd Heq.
  - cbn [app] in *. rewrite files_cons. cbn. by rewrite skipped_written, Hsig, !app_nil_r.
  - cbn [app]. rewrite files_cons. cbn [hash_entries mbind outcome_bind]. rewrite skipped_written, He.
    destruct (at_prefix _ _ _ Heq) as (Hi & Ho & Hf).
    unfold buf. rewrite written_hash_entry by (done || (rewrite Ho; pose proof (len_nonneg (local_area pre)); lia)).
    cbn [mbind outcome_bind hasher_update h_kind h_fed]. specialize (IH (pre ++ [e]) (hd ++ local_record e)).
    rewrite length_app, Nat.add_comm, local_area_snoc, len_app, <- !app_assoc in IH.
    change (length [e] + length pre)%nat with (S (length pre)) in IH. unfold buf in IH.
    exact (IH Heq).
Qed.
Lemma hash_central_written pre suf sig k hd : es = pre ++ suf ++ [sig] →
  Forall (λ e, skipped_name (e_name e) = false) suf → skipped_name (e_name sig) = true →
  hash_central buf (files (length pre) (suf ++ [sig])) (mk_hasher k hd) (len (directory pre)) (len pre)
  = Ok (mk_hasher k (hd ++ concat (centrals (len (local_area pre)) suf)), len (directory (pre ++ suf)), len (pre ++ suf)).
Proof.
  intros Heq Hsuf Hsig. revert pre hd Heq. induction Hsuf as [|e suf He _ IH]; intros pre hd Heq.
  - cbn [app] in *. rewrite files_cons. cbn. by rewrite skipped_written, Hsig, !app_nil_r.
  - cbn [app]. rewrite files_cons. cbn [hash_central mbind outcome_bind]. rewrite skipped_written, He.
    destruct (at_prefix _ _ _ Heq) as (Hi & Ho & Hf).
    unfold buf. rewrite written_central_entry by done. cbn [mbind outcome_bind].
    assert (len (directory pre) + len (central_record e (entry_offset es (length pre))) <= len (directory es)) as Hle.
    { rewrite (directory_split _ _ _ Hi), !len_app.
      replace (take (length pre) es) with pre by (rewrite Heq; by rewrite take_app_length).
      match goal with |- context [len (concat ?x)] => pose proof (len_nonneg (concat x)) end. lia. }
    unfold checked_add64, U32_MAX, U64, U16_MAX in *. rewrite (proj2 (Z.ltb_lt _ _)) by lia. cbn [ok_or mbind outcome_bind].
    assert (len pre + 1 <= len es) as Hlen by (rewrite Heq; cbn [app]; rewrite len_app, len_cons; pose proof (len_nonneg (suf ++ [sig])); lia).
    unfold try_u16, U16. rewrite (proj2 (Z.ltb_lt (len pre + 1) _)) by lia. cbn [ok_or mbind outcome_bind hasher_update h_kind h_fed].
    rewrite Ho. specialize (IH (pre ++ [e]) (hd ++ central_record e (len (local_area pre)))).
    rewrite length_app, Nat.add_comm, directory_snoc, local_area_snoc, !len_app, <- !app_assoc in IH.
    change (len [e]) with 1 in IH. change (length [e] + length pre)%nat with (S (length pre)) in IH. unfold buf in IH.
    replace (len (pre ++ e :: suf)) with (len pre + 1 + len suf) by (rewrite len_app, len_cons; lia).
    exact (IH Heq).
Qed.
End Hashed.

(** The end records as they are hashed. *)
Definition hashed_end (n cds cdo : Z) : bytes :=
  to_le 4 ZIP64_EOCD_SIG ++ to_le 8 ZIP64_EOCD_RECORD_SIZE
  ++ to_le 2 ZIP64_VERSION ++ to_le 2 ZIP64_VERSION ++ to_le 4 0 ++ to_le 4 0
  ++ to_le 8 n ++ to_le 8 n ++ to_le 8 cds ++ to_le 8 cdo
  ++ to_le 4 ZIP64_LOC_SIG ++ to_le 4 0 ++ to_le 8 (cdo + cds) ++ to_le 4 1
  ++ to_le 4 EOCD_SIG ++ to_le 2 0 ++ to_le 2 0 ++ to_le 2 U16_MAX ++ to_le 2 U16_MAX
  ++ to_le 4 U32_MAX ++ to_le 4 U32_MAX ++ to_le 2 0.

Definition unsigned_part (es : list AppxZipEntry) (sig : AppxZipEntry) : Prop :=
  staged (es ++ [sig]) ∧ e_name sig = SIGNATURE_NAME ∧ Forall (λ e, skipped_name (e_name e) = false) es.
Lemma signature_skipped sig : e_name sig = SIGNATURE_NAME → skipped_name (e_name sig) = true.
Proof. intros ->. by vm_compute. Qed.
Lemma written_zip_data `{DigestOracle} es sig k : unsigned_part es sig →
  hash_zip_file_data (appx_zip (es ++ [sig])) (written_archive (es ++ [sig])) (appx_zip_tail (es ++ [sig])) k
  = Ok (digest k (local_area es), len (local_area es)).
Proof.
  intros (Hst & Hsig & Hes). destruct Hst as (Hfit & _ & Hn & Hl & Hd). unfold hash_zip_file_data, appx_zip.
  pose proof (hash_entries_written (es ++ [sig])) as Hx.
  cbn [appx_zip_tail appx_tail locator]. rewrite bool_decide_eq_true_2 by done.
  specialize (Hx (zip64_end_records (len (es ++ [sig])) (len (directory (es ++ [sig]))) (len (local_area (es ++ [sig])))
    (len (local_area (es ++ [sig])) + len (directory (es ++ [sig]))) ++ to_le 2 0) Hfit Hl Hd Hn true [] es sig k [] eq_refl Hes
    (signature_skipped _ Hsig)).
  cbn [app length Nat.add] in Hx. change (len (local_area [])) with 0 in Hx.
  unfold hasher_new. cbn [written_archive by_index]. unfold written_files.
  match type of Hx with ?l = _ => match goal with |- ?l' ≫= _ = _ => change l' with l end end.
  rewrite Hx. done.
Qed.
Lemma written_cd `{DigestOracle} es sig k : unsigned_part es sig →
  hash_cd_and_eocd (appx_zip (es ++ [sig])) (written_archive (es ++ [sig])) (appx_zip_tail (es ++ [sig])) k (len (local_area es))
  = Ok (digest k (directory es ++ hashed_end (len es) (len (directory es)) (len (local_area es)))).
Proof.
  intros (Hst & Hsig & Hes). destruct Hst as (Hfit & _ & Hn & Hl & Hd). unfold hash_cd_and_eocd, appx_zip.
  pose proof (hash_central_written (es ++ [sig])) as Hx.
  specialize (Hx (zip64_end_records (len (es ++ [sig])) (len (directory (es ++ [sig]))) (len (local_area (es ++ [sig])))
    (len (local_area (es ++ [sig])) + len (directory (es ++ [sig]))) ++ to_le 2 0) Hfit Hl Hd Hn [] es sig k [] eq_refl Hes
    (signature_skipped _ Hsig)).
  cbn [app length Nat.add] in Hx. change (len (directory [])) with 0 in Hx. change (len (@nil AppxZipEntry)) with 0 in Hx.
  change (len (local_area [])) with 0 in Hx.
  unfold hasher_new. cbn [written_archive by_index]. unfold written_files.
  match type of Hx with ?l = _ => match goal with |- ?l' ≫= _ = _ => change l' with l end end. rewrite Hx.
  cbn [mbind outcome_bind appx_zip_tail appx_tail zip64_eocd locator ok_or classic central_directory_size
    central_directory_offset number_of_files number_of_files_on_this_disk zip_file_comment record_size version_made_by
    version_needed_to_extract z_disk_number z_disk_with_central_directory tail_after_fixed loc_disk_with_central_directory
    number_of_disks]. cbv zeta. rewrite !Z.eqb_refl. cbn [negb mbind outcome_bind]. unfold hasher_finalize, hasher_update.
  cbn [h_kind h_fed]. do 2 f_equal. unfold hashed_end, saturating_add64. rewrite local_area_snoc, directory_snoc, !len_app in *.
  pose proof (len_nonneg (local_record sig)). pose proof (len_nonneg (central_record sig (len (local_area es)))).
  unfold U32_MAX, U64 in *. rewrite Z.min_l by lia. change (len (@nil byte)) with 0. change (0 mod U16) with 0.
  rewrite !app_nil_r, <- !app_assoc. done.
Qed.
End Written.
