(* ===== verification/AppxLayout.v ===== *)
(** The layout check of APPX and MSIX packages: what an accepted layout says,
    and that a package of the ZIP writer is accepted.  The definitions are in
    [AppxDigest], the writer in [AppxZip]. *)

From stdpp Require Import gmap.
From S2P Require Import Prelude.
From S2P Require Import RustStr.
From S2P Require Import AppxTail.
From S2P Require Import AppxZip.
From S2P Require Import PeDigest.
From S2P Require Import AppxDigest.
From S2P Require Import AppxWritten.

(** ** The records tile the archive *)

Fixpoint tiles (a : Z) (xs : list (Z * Z)) (b : Z) : Prop :=
  match xs with
  | [] => a = b
  | (s, e) :: xs' => s = a ∧ s < e ∧ tiles e xs' b
  end.
Definition covers (x : Z * Z) (p : Z) : Prop := fst x <= p < snd x.

Lemma tiles_bound a xs b : tiles a xs b → a <= b ∧ ∀ x, x ∈ xs → a <= fst x < snd x ∧ snd x <= b.
Proof.
  revert a. induction xs as [|[s e] xs IH]; intros a; cbn.
  { intros <-. split; [done|]. by intros x ?%elem_of_nil. }
  intros (-> & Hse & [Hle Hx]%IH). split; [lia|]. intros x [->|Hin]%elem_of_cons; [cbn; lia|]. specialize (Hx x Hin). lia.
Qed.
Lemma tiles_covered a xs b p : tiles a xs b → a <= p < b → ∃ x, x ∈ xs ∧ covers x p.
Proof.
  revert a. induction xs as [|[s e] xs IH]; intros a; cbn; [lia|]. intros (-> & Hse & Ht) Hp.
  destruct (decide (p < e)); [exists (a, e); split; [by left|unfold covers; cbn; lia]|].
  destruct (IH e Ht) as (x & Hx & Hc); [lia|]. exists x. by split; [right|].
Qed.
Lemma tiles_unique a xs b p x y : tiles a xs b → x ∈ xs → y ∈ xs → covers x p → covers y p → x = y.
Proof.
  revert a. induction xs as [|[s e] xs IH]; intros a; cbn; [by intros _ ?%elem_of_nil|]. intros (-> & Hse & Ht).
  destruct (tiles_bound _ _ _ Ht) as [_ Hx]. unfold covers.
  intros [->|H1]%elem_of_cons [->|H2]%elem_of_cons; cbn; try done.
  - intros ? ?. destruct (Hx y H2). lia.
  - intros ? ?. destruct (Hx x H1). lia.
  - by eapply IH.
Qed.
Lemma tiles_NoDup a xs b : tiles a xs b → NoDup xs.
Proof.
  revert a. induction xs as [|[s e] xs IH]; intros a; cbn; [constructor|]. intros (-> & Hse & Ht).
  constructor; [|by eapply IH]. intros Hin. destruct (tiles_bound _ _ _ Ht) as [_ Hx]. specialize (Hx _ Hin). cbn in Hx. lia.
Qed.

Lemma insert_extent_perm x xs : insert_extent x xs ≡ₚ x :: xs.
Proof.
  induction xs as [|y xs IH]; [done|]. cbn. destruct (_ <=? _); [done|]. rewrite IH. apply Permutation_swap.
Qed.
Lemma sort_extents_perm xs : sort_extents xs ≡ₚ xs.
Proof. induction xs as [|x xs IH]; [done|]. cbn. rewrite insert_extent_perm. by rewrite IH. Qed.
Lemma adjacent_tiles x xs z : Forall (λ y, fst y < snd y) (x :: xs) → check_adjacent (x :: xs) = Ok tt →
  last (x :: xs) = Some z → tiles (fst x) (x :: xs) (snd z).
Proof.
  revert x. induction xs as [|y xs IH]; intros [s e] Hf Hc Hl.
  { injection Hl as <-. apply Forall_cons in Hf as [Hf _]. done. }
  apply Forall_cons in Hf as [Hx Hf]. cbn [check_adjacent] in Hc.
  apply bail_bind_Ok in Hc as [H1 Hc]. apply bail_bind_Ok in Hc as [H2 Hc]. zbool. cbn [fst snd] in *.
  split; [done|]. split; [done|]. replace e with (fst y) by lia. apply IH; [done|done|].
  by rewrite last_cons_cons in Hl.
Qed.
Lemma checked_add64_Some a b c : checked_add64 a b = Some c → c = a + b.
Proof. unfold checked_add64. destruct (_ <? _); congruence. Qed.
Lemma descriptor_len_nonneg buf off zf n : data_descriptor_len_and_validate buf off zf = Ok n → 0 <= n.
Proof.
  unfold data_descriptor_len_and_validate. cbv zeta. intros Hx.
  destruct (match get_range _ _ _ with Some _ => _ | None => _ end); apply bind_Ok in Hx as (? & _ & Hx);
    apply bail_bind_Ok in Hx as [_ Hx];
    do 2 (destruct (match ok_opt _ with Some _ => _ | None => _ end); [by injection Hx as <-|]);
    do 2 apply bind_Ok in Hx as (? & _ & Hx); done.
Qed.
Lemma extent_pos buf zf s e : 0 <= zf_compressed_size zf → local_file_record_extent buf zf = Ok (s, e) →
  0 <= s ∧ s + 30 <= e.
Proof.
  intros Hc. unfold local_file_record_extent. intros Hx. inv_ok Hx. zbool. unfold read_u32_le, read_u16_le in *.
  repeat match goal with H : checked_add64 _ _ = Some _ |- _ => apply checked_add64_Some in H end.
  repeat match goal with H : read_le _ _ _ = Ok _ |- _ => apply read_le_Ok in H as (? & ? & ->); [|lia] end.
  pose proof (fld_range 2 buf (zf_header_start zf + 26)). pose proof (fld_range 2 buf (zf_header_start zf + 28)).
  assert (0 <= r10) by (destruct (has_descriptor _); [by eapply descriptor_len_nonneg|by injection E16 as <-]).
  lia.
Qed.

Definition entry_sized (r : outcome ZipFile) : Prop := match r with Ok zf => 0 <= zf_compressed_size zf | _ => True end.
Lemma entry_extents_Ok buf entries extents : Forall entry_sized entries → entry_extents buf entries = Ok extents →
  Forall (λ x, fst x < snd x) extents ∧
  ∃ zfs, entries = Ok <$> zfs ∧ Forall2 (λ zf x, local_file_record_extent buf zf = Ok x) zfs extents.
Proof.
  intros Hs. revert extents. induction Hs as [|r entries Hr _ IH]; intros extents Hx; cbn in Hx.
  { injection Hx as <-. split; [constructor|]. by exists []. }
  apply bind_Ok in Hx as (zf & -> & Hx). apply bind_Ok in Hx as ([s e] & He & Hx).
  apply bind_Ok in Hx as (rest & Hrest & [= <-]). destruct (IH _ Hrest) as (Hf & zfs & -> & Hall).
  apply extent_pos in He as Hpos; [|done]. split; [constructor; [cbn; lia|done]|].
  exists (zf :: zfs). split; [done|]. by constructor.
Qed.
Lemma layout_inv buf a tail : validate_zip_file_layout buf a tail = Ok tt →
  ∃ extents first z, entry_extents buf (by_index a) = Ok extents ∧ head (sort_extents extents) = Some first ∧
    fst first = 0 ∧ check_adjacent (sort_extents extents) = Ok tt ∧ last (sort_extents extents) = Some z ∧
    snd z = t_central_directory_offset tail ∧
    t_central_directory_offset tail + t_central_directory_size tail = default (eocd_offset tail) (zip64_eocd_offset tail).
Proof.
  unfold validate_zip_file_layout. intros Hx.
  apply bind_Ok in Hx as ([] & _ & Hx). apply bind_Ok in Hx as (extents & He & Hx). cbv zeta in Hx.
  apply bind_Ok in Hx as ([s e] & Hh%ok_or_Ok & Hx). apply bail_bind_Ok in Hx as [Hs Hx].
  apply bind_Ok in Hx as ([] & Hc & Hx). apply bind_Ok in Hx as ([s' z] & Hl%unwrap_Ok & Hx).
  apply bail_bind_Ok in Hx as [Hz Hx]. apply bind_Ok in Hx as (cd & Hcd%ok_or_Ok%checked_add64_Some & Hx).
  apply bail_if_Ok in Hx. zbool. exists extents, (s, e), (s', z). split_and!; try done. lia.
Qed.

(** C24: An archive whose layout is accepted has every entry readable and its
    local file records tile the file: each byte before the central directory
    belongs to the record of exactly one entry, and the central directory runs
    up to the end records. *)
Theorem layout_tiles buf a tail : Forall entry_sized (by_index a) → validate_zip_file_layout buf a tail = Ok tt →
  ∃ zfs extents, by_index a = Ok <$> zfs ∧
    Forall2 (λ zf x, local_file_record_extent buf zf = Ok x) zfs extents ∧
    (∀ p, 0 <= p < t_central_directory_offset tail → exists! i : nat, ∃ x, extents !! i = Some x ∧ covers x p) ∧
    t_central_directory_offset tail + t_central_directory_size tail = default (eocd_offset tail) (zip64_eocd_offset tail).
Proof.
  intros Hs (extents & first & z & He & Hh & H0 & Hc & Hl & Hz & Hcd)%layout_inv.
  destruct (entry_extents_Ok _ _ _ Hs He) as (Hpos & zfs & Hzfs & Hall). exists zfs, extents. split_and!; try done.
  pose proof (sort_extents_perm extents) as Hp. rewrite <- Hp in Hpos.
  assert (tiles 0 (sort_extents extents) (t_central_directory_offset tail)) as Ht.
  { destruct (sort_extents extents) as [|x xs]; [done|]. injection Hh as ->. rewrite <- H0, <- Hz. by apply adjacent_tiles. }
  intros p Hr. destruct (tiles_covered _ _ _ _ Ht Hr) as (x & Hx & Hcov).
  assert (NoDup extents) as Hnd by (rewrite <- Hp; by eapply tiles_NoDup).
  setoid_rewrite Hp in Hx. apply list_elem_of_lookup in Hx as (i & Hi). exists i. split; [by exists x|].
  intros j (y & Hj & Hy). assert (x = y) as ->.
  { eapply tiles_unique; [exact Ht|..|exact Hcov|exact Hy]; rewrite Hp; by eapply list_elem_of_lookup_2. }
  by eapply NoDup_lookup.
Qed.

(** ** A written package is accepted *)

Lemma entry_extents_run buf zfs xs : Forall2 (λ zf x, local_file_record_extent buf zf = Ok x) zfs xs →
  entry_extents buf (Ok <$> zfs) = Ok xs.
Proof.
  induction 1 as [|zf x zfs xs Hx _ IH]; [done|]. cbn [fmap list_fmap entry_extents mbind outcome_bind].
  rewrite Hx. cbn [mbind outcome_bind]. by rewrite IH.
Qed.
Lemma tiles_sorted a xs b : tiles a xs b → sort_extents xs = xs.
Proof.
  revert a. induction xs as [|[s e] xs IH]; intros a; [done|]. intros (-> & Hse & Ht).
  change (sort_extents ((a, e) :: xs)) with (insert_extent (a, e) (sort_extents xs)). rewrite (IH _ Ht).
  destruct xs as [|[s' e'] xs]; [done|]. destruct Ht as (-> & _ & _). cbn. by rewrite (proj2 (Z.leb_le a e)) by lia.
Qed.
Lemma tiles_adjacent a xs b : tiles a xs b → check_adjacent xs = Ok tt.
Proof.
  revert a. induction xs as [|[s e] xs IH]; intros a; [done|]. intros (-> & Hse & Ht).
  destruct xs as [|[s' e'] xs]; [done|]. pose proof (IH _ Ht) as Hc. destruct Ht as (-> & _ & _).
  cbn [check_adjacent fst snd]. rewrite Z.ltb_irrefl. exact Hc.
Qed.
Lemma tiles_ends a xs b : tiles a xs b → xs ≠ [] →
  ∃ e z, head xs = Some (a, e) ∧ last xs = Some (z, b).
Proof.
  revert a. induction xs as [|[s e] xs IH]; intros a; [done|]. intros (-> & Hse & Ht) _. exists e.
  destruct xs as [|x xs]; [cbn in Ht; subst b; by exists a|].
  destruct (IH _ Ht) as (e' & z & _ & Hl); [done|]. exists z. by rewrite last_cons_cons.
Qed.
Definition record_extents (es : list AppxZipEntry) : list (Z * Z) :=
  imap (λ i e, (entry_offset es i, entry_offset es i + len (local_record e))) es.
Lemma record_extents_tile es : tiles 0 (record_extents es) (len (local_area es)).
Proof.
  enough (∀ pre es', tiles (len (local_area pre))
    (imap (λ i e, (entry_offset (pre ++ es') (length pre + i), entry_offset (pre ++ es') (length pre + i) + len (local_record e))) es')
    (len (local_area (pre ++ es')))) as Hx by exact (Hx [] es).
  intros pre es'. revert pre. induction es' as [|e es' IH]; intros pre; [by rewrite app_nil_r|].
  cbn [imap]. assert (entry_offset (pre ++ e :: es') (length pre + 0) = len (local_area pre)) as Ho
    by (unfold entry_offset; by rewrite Nat.add_0_r, take_app_length).
  split; [done|]. rewrite Ho.
  assert (0 < len (local_record e)) as Hpos
    by (rewrite len_local; unfold local_header_size; pose proof (byte_len_nonneg (e_name e)); pose proof (len_nonneg (e_data e)); lia).
  split; [lia|]. specialize (IH (pre ++ [e])). rewrite <- app_assoc in IH. cbn [app] in IH.
  replace (len (local_area (pre ++ [e]))) with (len (local_area pre) + len (local_record e)) in IH
    by (unfold local_area; rewrite fmap_app, concat_app, len_app; cbn; by rewrite app_nil_r).
  erewrite imap_ext; [exact IH|]. intros j x _.
  unfold compose. replace (length (pre ++ [e]) + j)%nat with (length pre + S j)%nat by (rewrite length_app; cbn; lia).
  done.
Qed.
Lemma written_layout_accepted contents es : staged es →
  validate_zip_file_layout (appx_zip es) (written_archive contents es) (appx_zip_tail es) = Ok tt.
Proof.
  intros Hst. unfold validate_zip_file_layout. rewrite appx_zip_directory by done. cbn [mbind outcome_bind written_archive by_index].
  destruct Hst as (Hes & (es' & e' & Heq & _) & Hn & Hl & Hd).
  rewrite (entry_extents_run _ _ (record_extents es)).
  2:{ apply Forall2_same_length_lookup. split; [unfold written_files, record_extents; by rewrite !length_imap|].
    intros i zf x. unfold written_files, record_extents. rewrite !list_lookup_imap.
    destruct (es !! i) as [e|] eqn:Hi; [|done]. intros [= <-] [= <-]. unfold appx_zip.
    apply written_extent; try done. by eapply (proj1 (Forall_lookup _ _) Hes). }
  pose proof (record_extents_tile es) as Ht. cbn [mbind outcome_bind].
  assert (record_extents es ≠ []) as Hne
    by (subst es; intros H%(f_equal length); unfold record_extents in H; rewrite length_imap, length_app in H; cbn in H; lia).
  destruct (tiles_ends _ _ _ Ht Hne) as (e & z & Hh & Hlast). cbv zeta. rewrite (tiles_sorted _ _ _ Ht), Hh, Hlast, (tiles_adjacent _ _ _ Ht).
  cbn [ok_or unwrap mbind outcome_bind appx_zip_tail appx_tail t_central_directory_offset t_central_directory_size
    zip64_eocd_offset eocd_offset default from_option id]. rewrite !Z.eqb_refl. cbn [negb bail_if mbind outcome_bind].
  unfold checked_add64, U32_MAX, U64 in *. rewrite (proj2 (Z.ltb_lt _ _)) by lia. cbn [ok_or mbind outcome_bind].
  rewrite len_app, Z.eqb_refl. done.
Qed.

Definition toy_archive : ZipArchive := written_archive (λ e, Ok (e_data e)) toy_entries.
Lemma layout_tiles_witness :
  validate_zip_file_layout (appx_zip toy_entries) toy_archive (appx_zip_tail toy_entries) = Ok tt ∧
  ∃ zfs extents, by_index toy_archive = Ok <$> zfs ∧
    Forall2 (λ zf x, local_file_record_extent (appx_zip toy_entries) zf = Ok x) zfs extents ∧
    (∀ p, 0 <= p < t_central_directory_offset (appx_zip_tail toy_entries) →
       exists! i : nat, ∃ x, extents !! i = Some x ∧ covers x p) ∧
    t_central_directory_offset (appx_zip_tail toy_entries) + t_central_directory_size (appx_zip_tail toy_entries)
      = default (eocd_offset (appx_zip_tail toy_entries)) (zip64_eocd_offset (appx_zip_tail toy_entries)).
Proof.
  split; [exact (written_layout_accepted _ _ toy_staged)|].
  apply (layout_tiles (appx_zip toy_entries) toy_archive).
  - by repeat constructor.
  - exact (written_layout_accepted _ _ toy_staged).
Defined.
