(* ===== verification/MsixStage.v ===== *)
(** Staging and signing of APPX and MSIX packages: the MSIX half of
    [crates/psign-portable-core/src/lib.rs] and the indirect data of
    [psign-sip-digest/src/pkcs7.rs].

    Keys, CMS and time stamps are arguments of [sign_msix]: what the signing
    provider makes of a digest.  The file system is a function. *)

From stdpp Require Import gmap.
From S2P Require Import Prelude.
From S2P Require Import RustStr.
From S2P Require Import Base64.
From S2P Require Import AppxTail.
From S2P Require Import AppxZip.
From S2P Require Import PeDigest.
From S2P Require Import Xml.
From S2P Require Import AppxParts.
From S2P Require Import AppxTypes.
From S2P Require Import AppxDigest.

Inductive PortableDigestAlgorithm := PSha256 | PSha384 | PSha512.
Definition pe_hash_kind (alg : PortableDigestAlgorithm) : PeAuthenticodeHashKind :=
  match alg with PSha256 => Sha256 | PSha384 => Sha384 | PSha512 => Sha512 end.

Definition MSIX_FLAT_EXTENSIONS : list str := [chars "msix"; chars "appx"].
Definition MSIX_BUNDLE_EXTENSIONS : list str := [chars "msixbundle"; chars "appxbundle"].
Definition is_portable_msix_family_extension (ext : str) : bool :=
  bool_decide (ext ∈ MSIX_FLAT_EXTENSIONS) || bool_decide (ext ∈ MSIX_BUNDLE_EXTENSIONS).
Definition is_msix_bundle_extension (ext : str) : bool := bool_decide (ext ∈ MSIX_BUNDLE_EXTENSIONS).

(** ** Block maps *)

Definition xml_escape_attr (value : str) : str :=
  replace_char 62 (chars "&gt;") (replace_char 60 (chars "&lt;")
    (replace_char 34 (chars "&quot;") (replace_char 38 (chars "&amp;") value))).
Definition flat_hash_method (alg : PortableDigestAlgorithm) : str :=
  match alg with
  | PSha256 => chars "http://www.w3.org/2001/04/xmlenc#sha256"
  | PSha384 => chars "http://www.w3.org/2001/04/xmldsig-more#sha384"
  | PSha512 => chars "http://www.w3.org/2001/04/xmlenc#sha512"
  end.
Definition bundle_hash_method (alg : PortableDigestAlgorithm) : str :=
  match alg with
  | PSha256 => chars "http://www.w3.org/2001/04/xmlenc#sha256"
  | PSha384 => chars "http://www.w3.org/2004/xmldsig-more#sha384"
  | PSha512 => chars "http://www.w3.org/2001/04/xmlenc#sha512"
  end.
Definition block_map_header (hash_method : str) : str :=
  xml_declaration "no" ++ chars "<BlockMap"
  ++ attr_text "xmlns" (chars "http://schemas.microsoft.com/appx/2010/blockmap")
  ++ attr_text "HashMethod" hash_method ++ chars ">".
(** A [u64] has at most twenty digits. *)
Definition to_dec (n : Z) : str := decimal 20 n.
(** [data.chunks(64 * 1024)] *)
Definition data_chunks (data : bytes) : list bytes := chunks (length data) (Z.to_nat AppxZip.APPX_BLOCK_SIZE) data.

Section BlockMaps.
Context `{Base64} `{DigestOracle} (alg : PortableDigestAlgorithm).
Definition encoded_digest (chunk : bytes) : str := b64_encode (digest (pe_hash_kind alg) chunk).
Definition block_text (chunk : bytes) (size : option Z) : str :=
  chars "<Block" ++ attr_text "Hash" (encoded_digest chunk)
  ++ match size with Some n => attr_text "Size" (to_dec n) | None => [] end ++ chars "/>".
Definition build_msix_bundle_block_map (manifest : bytes) : str :=
  block_map_header (bundle_hash_method alg)
  ++ chars "<File" ++ attr_text "Name" (chars "AppxMetadata\AppxBundleManifest.xml")
  ++ attr_text "Size" (to_dec (len manifest)) ++ attr_text "LfhSize" (chars "65") ++ chars ">"
  ++ concat ((λ chunk, block_text chunk (Some (len chunk))) <$> data_chunks manifest)
  ++ chars "</File></BlockMap>".
Definition flat_file_text (name : str) (data : bytes) (entry : AppxZipEntry) : str :=
  let block_map_name := replace_char 47 [92] name in
  chars "<File" ++ attr_text "Name" (xml_escape_attr block_map_name)
  ++ attr_text "Size" (to_dec (len data)) ++ attr_text "LfhSize" (to_dec (local_header_size entry)) ++ chars ">"
  ++ concat (imap (λ index chunk, block_text chunk (default [] (e_block_sizes entry) !! index)) (data_chunks data))
  ++ chars "</File>".
Definition build_flat_msix_block_map (payloads : list (str * bytes)) (entries : list AppxZipEntry) : str :=
  block_map_header (flat_hash_method alg)
  ++ concat ((λ p, flat_file_text (fst (fst p)) (snd (fst p)) (snd p)) <$> zip payloads entries)
  ++ chars "</BlockMap>".
End BlockMaps.

(** ** Reading the source package *)

(** The name of an entry with forward slashes. *)
Definition slashed (name : str) : str := replace_char 92 [47] name.
Definition bundle_manifest_name : str := chars "AppxMetadata/AppxBundleManifest.xml".
Definition flat_dropped (name : str) : bool :=
  bool_decide (name ∈ chars <$> ["AppxBlockMap.xml"%string; "AppxSignature.p7x"%string; "AppxMetadata/CodeIntegrity.cat"%string]).
Definition bundle_dropped (name : str) : bool :=
  bool_decide (name ∈ chars <$> ["AppxBlockMap.xml"%string; "AppxSignature.p7x"%string; "AppxManifest.xml"%string;
                                 "AppxMetadata/CodeIntegrity.cat"%string]).
Fixpoint flat_parts (entries : list (outcome ZipFile)) (payloads : list (str * bytes)) (content_types : option bytes)
    : outcome (list (str * bytes) * option bytes) :=
  match entries with
  | [] => Ok (payloads, content_types)
  | r :: entries' =>
      zf ← with_context r "read MSIX ZIP entry";
      let name := slashed (zf_name zf) in
      if ends_with name [47] then flat_parts entries' payloads content_types
      else if bool_decide (name = chars "[Content_Types].xml") then
        data ← read_to_end zf;
        flat_parts entries' payloads (Some data)
      else if flat_dropped name then flat_parts entries' payloads content_types
      else
        data ← read_to_end zf;
        flat_parts entries' (payloads ++ [(name, data)]) content_types
  end.
Record BundleParts := mk_bundle {
  child_payloads : list (str * bytes); bundle_manifest : option bytes; bundle_content_types : option bytes }.
Fixpoint bundle_parts (entries : list (outcome ZipFile)) (s : BundleParts) : outcome BundleParts :=
  match entries with
  | [] => Ok s
  | r :: entries' =>
      zf ← with_context r "read MSIX bundle ZIP entry";
      let name := slashed (zf_name zf) in
      if ends_with name [47] then bundle_parts entries' s
      else if bool_decide (name = bundle_manifest_name) then
        data ← read_to_end zf;
        bundle_parts entries' (mk_bundle (child_payloads s) (Some data) (bundle_content_types s))
      else if bool_decide (name = chars "[Content_Types].xml") then
        data ← read_to_end zf;
        bundle_parts entries' (mk_bundle (child_payloads s) (bundle_manifest s) (Some data))
      else if bundle_dropped name then bundle_parts entries' s
      else
        data ← read_to_end zf;
        bundle_parts entries' (mk_bundle (child_payloads s ++ [(name, data)]) (bundle_manifest s) (bundle_content_types s))
  end.

(** ** Staging *)

Section Stage.
Context `{Flate} `{ZipCrate} `{XmlReader} `{Base64} `{DigestOracle} (fuel : nat) (alg : PortableDigestAlgorithm).

Fixpoint payload_entries (payloads : list (str * bytes)) : option (outcome (list AppxZipEntry)) :=
  match payloads with
  | [] => Some (Ok [])
  | (name, data) :: payloads' =>
      then_ (payload fuel name data) (λ e,
      then_ (payload_entries payloads') (λ es, Some (Ok (e :: es))))
  end.
(** The three parts every staged package ends with. *)
Definition metadata_entries (block_map content_types : str) : option (outcome (list AppxZipEntry)) :=
  then_ (payload fuel (chars "AppxBlockMap.xml") (encode_utf8 block_map)) (λ bm,
  then_ (payload fuel (chars "[Content_Types].xml") (encode_utf8 content_types)) (λ ct,
  Some (Ok [bm; ct; stored (chars "AppxSignature.p7x") (lit "PKCX")]))).

Definition flat_entries (package : bytes) : option (outcome (list AppxZipEntry)) :=
  then_ (Some (source ← with_context (zip_archive_new package) "open MSIX ZIP";
               flat_parts (by_index source) [] None)) (λ '(payloads, content_types),
  then_ (Some (bail_if (negb (existsb (λ p, bool_decide (fst p = chars "AppxManifest.xml")) payloads))
                 "flat MSIX package is missing AppxManifest.xml";;
               appx_content_types_for_signing content_types (fst <$> payloads) false)) (λ content_types,
  then_ (payload_entries payloads) (λ entries,
  then_ (metadata_entries (build_flat_msix_block_map alg payloads entries) content_types) (λ metadata,
  Some (Ok (entries ++ metadata)))))).
Definition stage_flat_msix_for_signature (package : bytes) : option (outcome bytes) :=
  then_ (flat_entries package) (λ entries, Some (write_appx_zip entries)).

(** A child package that is encrypted. *)
Definition encrypted_child (name : str) : bool :=
  is_encrypted_msix_extension (default [] ('(_, ext) ← rsplit_once 46 name; Some (to_ascii_lowercase ext))).
Definition bundle_entries (package : bytes) : option (outcome (list AppxZipEntry)) :=
  then_ (Some (source ← with_context (zip_archive_new package) "open MSIX bundle ZIP";
               bundle_parts (by_index source) (mk_bundle [] None None))) (λ s,
  then_ (Some (ok_or (bundle_manifest s) "MSIX bundle is missing AppxMetadata/AppxBundleManifest.xml")) (λ manifest,
  then_ (Some (content_types ← appx_content_types_for_signing (bundle_content_types s)
                 ((fst <$> child_payloads s) ++ [bundle_manifest_name]) true;
               bail_if (existsb (λ p, encrypted_child (fst p)) (child_payloads s))
                 "cleartext MSIX bundle contains encrypted child package `{name}`; encrypted children require Windows AppxSip OS delegation";;
               Ok content_types)) (λ content_types,
  then_ (metadata_entries (build_msix_bundle_block_map alg manifest) content_types) (λ metadata,
  Some (Ok (((λ p, stored (fst p) (snd p)) <$> child_payloads s) ++ [stored bundle_manifest_name manifest] ++ metadata)))))).
Definition stage_msix_bundle_for_signature (package : bytes) : option (outcome bytes) :=
  then_ (bundle_entries package) (λ entries, Some (write_appx_zip entries)).
Definition stage_msix_family_for_signature (package : bytes) (ext : str) : option (outcome bytes) :=
  if is_msix_bundle_extension ext then stage_msix_bundle_for_signature package
  else stage_flat_msix_for_signature package.

(** ** The signature part *)

Fixpoint resigned_entries (entries : list (outcome ZipFile)) (p7x : bytes) : outcome (list AppxZipEntry) :=
  match entries with
  | [] => Ok []
  | r :: entries' =>
      zf ← with_context r "read staged MSIX ZIP entry";
      e ← (if bool_decide (zf_name zf = chars "AppxSignature.p7x") then Ok (stored (zf_name zf) p7x)
           else
             method ← match zf_compression zf with
                      | Stored => Ok 0
                      | Deflated => Ok 8
                      | OtherMethod => Err "unsupported compression {other:?} in staged MSIX entry `{name}`"
                      end;
             data ← read_to_end zf;
             raw (zf_name zf) method (zf_crc32 zf) (zf_size zf) data);
      es ← resigned_entries entries' p7x;
      Ok (e :: es)
  end.
Definition replace_msix_signature_part (package p7x : bytes) : outcome bytes :=
  source ← with_context (zip_archive_new package) "open staged MSIX ZIP";
  entries ← resigned_entries (by_index_raw source) p7x;
  write_appx_zip entries.
Definition msix_signature_pkcs7_der (package : bytes) : outcome bytes :=
  archive ← with_context (zip_archive_new package) "open MSIX ZIP";
  entry ← with_context (by_name archive (chars "AppxSignature.p7x")) "read AppxSignature.p7x";
  p7x ← read_to_end entry;
  bail_if (negb (bool_decide (sub p7x 0 4 = lit "PKCX"))) "AppxSignature.p7x missing PKCX prefix";;
  Ok (sub p7x 4 (len p7x)).

(** ** Signing *)

Context (embedded_digest : bytes → option bytes) (depth : nat).
(** The digest that goes into the message, with its kind. *)
Definition msix_spc_indirect_data (package : bytes) (ext : str) : option (outcome (PeAuthenticodeHashKind * bytes)) :=
  then_ (msix_authenticode_digest_blob embedded_digest depth package ext) (λ '(kind, blob),
  Some (bail_if (negb (bool_decide (kind = pe_hash_kind alg)))
          "MSIX AppxBlockMap HashMethod {:?} does not match requested signing digest {:?}";;
        Ok (kind, blob))).

(** What [sign_msix] does to the output file, and its result. *)
Record SignResult := mk_signed { written : option bytes; skipped : bool }.
Context {Provider : Type} (load_signing_provider : outcome Provider)
  (create_authenticode_pkcs7 : Provider → PeAuthenticodeHashKind * bytes → outcome bytes)
  (maybe_timestamp_pkcs7 : bytes → outcome bytes).
Definition sign_msix (fs : str → outcome bytes) (path output_path : str) (skip_signed : bool)
    : option (outcome SignResult) :=
  let ext := to_ascii_lowercase (default [] (path_extension path)) in
  then_ (Some (bail_if (is_encrypted_msix_extension ext)
                 "portable MSIX signing does not support encrypted packages (.{ext}); encrypted packages require Windows AppxSip OS delegation";;
               bail_if (negb (is_portable_msix_family_extension ext))
                 "portable MSIX signing supports flat .msix/.appx packages and .msixbundle/.appxbundle bundles; got .{ext}";;
               package ← with_context (fs path) "read {}";
               present ← (if skip_signed then msix_signature_part_present package else Ok false);
               Ok (package, present))) (λ '(package, present),
  if (present : bool) then
    Some (Ok (mk_signed (if bool_decide (output_path = path) then None else Some package) true))
  else
  then_ (stage_msix_family_for_signature package ext) (λ staged,
  then_ (Some load_signing_provider) (λ provider,
  then_ (msix_spc_indirect_data staged ext) (λ indirect,
  Some (pkcs7 ← create_authenticode_pkcs7 provider indirect;
        pkcs7 ← maybe_timestamp_pkcs7 pkcs7;
        signed ← replace_msix_signature_part staged (lit "PKCX" ++ pkcs7);
        Ok (mk_signed (Some signed) false)))))).
End Stage.
