(* ===== verification/MsixBlockMap.v ===== *)
(** The block maps written for signing, read back: the map of a flat package
    describes its parts, and the map of a bundle is refused for SHA-384.  The
    definitions are in [MsixStage] and [AppxParts]. *)

From stdpp Require Import gmap.
From S2P Require Import Prelude.
From S2P Require Import RustStr.
From S2P Require Import Base64.
From S2P Require Import AppxZip.
From S2P Require Import PeDigest.
From S2P Require Import Xml.
From S2P Require Import AppxParts.
From S2P Require Import AppxDigest.
From S2P Require Import MsixStage.

(** ** Text without entities *)

Definition unescaped (c : char) : bool := negb ((c =? 38) || (c =? 34) || (c =? 60) || (c =? 62)).
Lemma escape_id s : Forall (λ c, unescaped c = true) s → escape s = s.
Proof.
  intros Hs. rewrite Forall_forall in Hs.
  assert (∀ c, c ∈ [38; 34; 60; 62] → c ∉ s) as Hn.
  { intros c Hc Hin. specialize (Hs c Hin). apply list_elem_of_In in Hc. cbn in Hc.
    by repeat (destruct Hc as [<-|Hc]; [done|]). }
  unfold escape. rewrite (replace_none 38), (replace_none 34), (replace_none 60), (replace_none 62) by (apply Hn; set_solver).
  done.
Qed.
Lemma decimal_plain fuel n : 0 <= n → Forall (λ c, unescaped c = true) (decimal fuel n).
Proof.
  assert (∀ d, 0 <= d < 10 → unescaped (48 + d) = true) as Hd
    by (intros d Hd; unfold unescaped; rewrite !(proj2 (Z.eqb_neq _ _)) by lia; done).
  revert n. induction fuel as [|fuel IH]; intros n Hn; [done|]. cbn [decimal]. destruct (Z.ltb_spec n 10).
  - apply Forall_singleton. apply Hd. lia.
  - apply Forall_app. split; [apply IH; lia|]. apply Forall_singleton. apply Hd. lia.
Qed.
Lemma base64_unescaped `{Base64} bs : Forall (λ c, unescaped c = true) (b64_encode bs).
Proof.
  eapply Forall_impl; [apply b64_alphabet|]. intros c Hc. cbn beta in Hc.
  unfold is_base64_char, is_ascii_alphanumeric, is_ascii_upper, is_ascii_lower, is_ascii_digit, between in Hc.
  rewrite !orb_true_iff, !andb_true_iff, !Z.leb_le, !Z.eqb_eq in Hc.
  unfold unescaped. by rewrite !(proj2 (Z.eqb_neq _ _)) by lia.
Qed.
Lemma chars_plain s : forallb unescaped (chars s) = true → Forall (λ c, unescaped c = true) (chars s).
Proof. intros Hs. apply Forall_forall. intros c Hc%list_elem_of_In. rewrite forallb_forall in Hs. by apply Hs. Qed.

(** ** The map as tags *)

(** What a [File] of the map says: name, size, header size, blocks. *)
Definition block_tag (b : str * option Z) : XmlTag :=
  TEmpty "Block" ([("Hash"%string, fst b)] ++ match snd b with Some n => [("Size"%string, to_dec n)] | None => [] end).
Definition file_tags (name : str) (size lfh : Z) (bs : list (str * option Z)) : list XmlTag :=
  TStart "File" [("Name"%string, name); ("Size"%string, to_dec size); ("LfhSize"%string, to_dec lfh)]
  :: (block_tag <$> bs) ++ [TEnd "File"].
Definition block_map_tags (uri : str) (files : list (list XmlTag)) : list XmlTag :=
  TStart "BlockMap" [("xmlns"%string, chars "http://schemas.microsoft.com/appx/2010/blockmap"); ("HashMethod"%string, uri)]
  :: concat files ++ [TEnd "BlockMap"].

Section Tags.
Context `{Base64} `{DigestOracle} (alg : PortableDigestAlgorithm).
Definition block_row (chunk : bytes) (size : option Z) : str * option Z := (encoded_digest alg chunk, size).
Lemma block_text_tag chunk size : (∀ n, size = Some n → 0 <= n) →
  block_text alg chunk size = tag_text (block_tag (block_row chunk size)).
Proof.
  intros Hs. unfold block_text, block_tag, block_row, tag_text, attrs_text. cbn [fst snd].
  assert (escape (encoded_digest alg chunk) = encoded_digest alg chunk) as He by apply escape_id, base64_unescaped.
  destruct size as [n|]; cbn [app mbind list_bind fst snd]; rewrite He.
  - unfold to_dec. rewrite (escape_id (decimal 20 n)) by (by apply decimal_plain, Hs). by rewrite app_nil_r, <- !app_assoc.
  - by rewrite app_nil_r.
Qed.
Definition flat_blocks (data : bytes) (entry : AppxZipEntry) : list (str * option Z) :=
  imap (λ i chunk, block_row chunk (default [] (e_block_sizes entry) !! i)) (data_chunks data).
Definition flat_tags (p : str * bytes * AppxZipEntry) : list XmlTag :=
  file_tags (replace_char 47 [92] (fst (fst p))) (len (snd (fst p))) (local_header_size (snd p)) (flat_blocks (snd (fst p)) (snd p)).
Definition sizes_nonneg (e : AppxZipEntry) : Prop := Forall (λ n, 0 <= n) (default [] (e_block_sizes e)).
Lemma concat_imap_text (f g : nat → bytes → str) l :
  (∀ i c, l !! i = Some c → f i c = g i c) → concat (imap f l) = concat (imap g l).
Proof. intros Hf. by rewrite (imap_ext f g l Hf). Qed.
Lemma imap_concat_tags (f : nat → bytes → str * option Z) l :
  concat (tag_text <$> (block_tag <$> imap f l)) = concat (imap (λ i c, tag_text (block_tag (f i c))) l).
Proof. f_equal. rewrite <- list_fmap_compose. by rewrite fmap_imap. Qed.
Lemma file_text_tags name size lfh bs text : 0 <= size → 0 <= lfh → text = concat (tag_text <$> (block_tag <$> bs)) →
  chars "<File" ++ attr_text "Name" (escape name) ++ attr_text "Size" (to_dec size) ++ attr_text "LfhSize" (to_dec lfh)
    ++ chars ">" ++ text ++ chars "</File>" = concat (tag_text <$> file_tags name size lfh bs).
Proof.
  intros Hs Hl ->. unfold file_tags. rewrite fmap_cons, fmap_app, concat_cons, concat_app.
  cbn [tag_text attrs_text mbind list_bind fst snd]. unfold attrs_text. cbn [mbind list_bind fst snd].
  unfold to_dec. rewrite !(escape_id (decimal 20 _)) by (by apply decimal_plain). cbn [fmap list_fmap concat tag_text].
  rewrite !app_nil_r. change (60 :: chars "File" ++ ?r) with (chars "<File" ++ r). by rewrite <- !app_assoc.
Qed.
Lemma flat_file_text_tags p : sizes_nonneg (snd p) →
  flat_file_text alg (fst (fst p)) (snd (fst p)) (snd p) = concat (tag_text <$> flat_tags p).
Proof.
  destruct p as [[name data] e]. cbn [fst snd]. intros Hs. unfold flat_file_text. cbv zeta.
  change (xml_escape_attr (replace_char 47 [92] name)) with (escape (replace_char 47 [92] name)).
  apply file_text_tags; [apply len_nonneg|cbn [snd]; unfold local_header_size; pose proof (byte_len_nonneg (e_name e)); lia|].
  unfold flat_blocks. rewrite imap_concat_tags. apply concat_imap_text. intros i c _. apply block_text_tag.
  intros n Hn. unfold sizes_nonneg in Hs. by eapply (proj1 (Forall_lookup _ _) Hs).
Qed.
Lemma block_map_text uri texts files : Forall (λ c, unescaped c = true) uri → texts = concat (tag_text <$> concat files) →
  block_map_header uri ++ texts ++ chars "</BlockMap>" = xml_declaration "no" ++ concat (tag_text <$> block_map_tags uri files).
Proof.
  intros Hu ->. unfold block_map_header, block_map_tags. rewrite fmap_cons, fmap_app, concat_cons, concat_app.
  rewrite <- !app_assoc. f_equal. cbn [tag_text fmap list_fmap concat]. unfold attrs_text. cbn [mbind list_bind fst snd].
  rewrite (escape_id uri) by done. rewrite !app_nil_r. change (60 :: chars "BlockMap" ++ ?r) with (chars "<BlockMap" ++ r).
  by rewrite <- !app_assoc.
Qed.
End Tags.

(** ** Reading the map *)

Section Reading.
Context `{Base64} `{DigestOracle} (alg : PortableDigestAlgorithm).
Let kind := pe_hash_kind alg.
Lemma parse_dec n : 0 <= n < U64 → parse_uint U64 (to_dec n) = Some n.
Proof. intros Hn. unfold to_dec. apply parse_uint_decimal; [done| |lia]. unfold U64 in Hn. cbn. lia. Qed.

(** A row of a file: a block of its data and its compressed size. *)
Definition read_block (r : bytes * option Z) : AppxBlockMapBlock := mk_block (digest kind (fst r)) (snd r).
Definition row_tag (r : bytes * option Z) : XmlTag := block_tag (block_row alg (fst r) (snd r)).
Definition row_ok (r : bytes * option Z) : Prop := ∀ n, snd r = Some n → 0 <= n < U64.
Definition with_blocks (f : AppxBlockMapFile) (bs : list AppxBlockMapBlock) : AppxBlockMapFile :=
  mk_file (f_name f) (normalized_name f) (declared_size f) (lfh_size f) (blocks f ++ bs) (file_hash f).
Definition with_current (s : BlockMapState) (f : AppxBlockMapFile) : BlockMapState :=
  mk_bm (bm_kind s) (bm_files s) (Some f) (bm_seen s) (in_block_map s).

Lemma row_event s f r : bm_current s = Some f → row_ok r →
  block_map_step s (tag_event (row_tag r)) = Ok (with_current s (with_blocks f [read_block r])).
Proof.
  intros Hc Hr. unfold row_tag, block_tag, block_row. cbn [fst snd].
  set (attrs := _ ++ _ : list (string * str)).
  change (block_map_step s (tag_event (TEmpty "Block" attrs))) with (block_element s (tag_elem "Block" attrs)).
  unfold block_element. rewrite Hc. cbn [ok_or mbind outcome_bind].
  change (required_xml_attr (tag_elem "Block" attrs) "Hash") with (Ok (encoded_digest alg (fst r))).
  cbn [mbind outcome_bind]. unfold encoded_digest. rewrite b64_roundtrip. cbn [ok_or mbind outcome_bind].
  assert (optional_u64_xml_attr (tag_elem "Block" attrs) "Size" = Ok (snd r)) as ->; [|done].
  unfold attrs. destruct r as [chunk [n|]]; cbn [snd app]; [|done].
  change (optional_u64_xml_attr (tag_elem "Block" [("Hash"%string, ?h); ("Size"%string, to_dec n)]) "Size")
    with (Some <$> ok_or (parse_uint U64 (to_dec n)) "AppxBlockMap.xml `{}` element has invalid `{}` value").
  by rewrite parse_dec by (by apply Hr).
Qed.
Lemma rows_events s f rows : bm_current s = Some f → Forall row_ok rows →
  run_events block_map_step s (tag_event <$> (row_tag <$> rows)) = Ok (with_current s (with_blocks f (read_block <$> rows))).
Proof.
  intros Hc Hr. revert s f Hc. induction Hr as [|r rows Hr _ IH]; intros s f Hc.
  - cbn. unfold with_current, with_blocks. rewrite app_nil_r. destruct f, s. cbn in *. by subst.
  - cbn [fmap list_fmap run_events]. rewrite (row_event s f) by done. cbn [mbind outcome_bind].
    rewrite (IH _ (with_blocks f [read_block r])) by done. unfold with_current, with_blocks. cbn. by rewrite <- app_assoc.
Qed.
(** A file of the map: its part, data size, header size and rows. *)
Record MapFile := mk_map { m_part : str; m_size : Z; m_lfh : Z; m_rows : list (bytes * option Z) }.
Definition map_file_ok (m : MapFile) : Prop :=
  part_name_ok (m_part m) ∧ 0 <= m_size m < U64 ∧ 0 <= m_lfh m < U64 ∧ Forall row_ok (m_rows m).
Definition backslashed (n : str) : str := replace_char 47 [92] n.
Definition map_tags (m : MapFile) : list XmlTag :=
  file_tags (backslashed (m_part m)) (m_size m) (m_lfh m) ((λ r, block_row alg (fst r) (snd r)) <$> m_rows m).
Definition read_file (m : MapFile) : AppxBlockMapFile :=
  mk_file (backslashed (m_part m)) (m_part m) (m_size m) (Some (m_lfh m)) (read_block <$> m_rows m) None.

Lemma normalize_backslashed n : part_name_ok n → normalize_appx_part_name (backslashed n) = Ok n.
Proof.
  intros Hn. apply normalize_part_Ok. split; [|done]. destruct Hn as (_ & _ & Hb & _). unfold backslashed, replace_char.
  induction n as [|c n IH]; [done|]. apply not_elem_of_cons in Hb as [Hc Hb]. cbn.
  destruct (Z.eqb_spec c 47) as [->|Hne]; cbn; [by rewrite <- IH|].
  destruct (Z.eqb_spec c 92); [congruence|]. cbn. by rewrite <- IH.
Qed.
Lemma file_events s m : map_file_ok m → bm_current s = None → in_block_map s = true → m_part m ∉ bm_seen s →
  run_events block_map_step s (tag_event <$> map_tags m) =
  Ok (mk_bm (bm_kind s) (bm_files s ++ [read_file m]) None ({[m_part m]} ∪ bm_seen s) true).
Proof.
  intros (Hn & Hs & Hl & Hr) Hc Hin Hnew. unfold map_tags, file_tags. cbn [fmap list_fmap run_events].
  set (attrs := [("Name"%string, _); _; _]).
  change (block_map_step s (tag_event (TStart "File" attrs))) with (file_start s (tag_elem "File" attrs)).
  unfold file_start. rewrite Hin, Hc. cbn [negb bail_if mbind outcome_bind]. rewrite bool_decide_eq_false_2 by (by intros []).
  cbn [bail_if mbind outcome_bind]. unfold file_element.
  change (required_xml_attr (tag_elem "File" attrs) "Name") with (Ok (backslashed (m_part m))).
  change (required_xml_attr (tag_elem "File" attrs) "Size") with (Ok (to_dec (m_size m))).
  change (optional_u64_xml_attr (tag_elem "File" attrs) "LfhSize")
    with (Some <$> ok_or (parse_uint U64 (to_dec (m_lfh m))) "AppxBlockMap.xml `{}` element has invalid `{}` value").
  cbn [mbind outcome_bind]. rewrite normalize_backslashed by done. cbn [mbind outcome_bind].
  rewrite bool_decide_eq_false_2 by done. cbn [bail_if mbind outcome_bind]. rewrite !parse_dec by done.
  cbn [ok_or fmap outcome_fmap mbind outcome_bind].
  rewrite fmap_app, run_events_app. rewrite <- (list_fmap_compose _ block_tag). change (block_tag ∘ _) with row_tag.
  set (f0 := mk_file _ _ _ _ [] None).
  rewrite (rows_events _ f0) by done. cbn [mbind outcome_bind]. done.
Qed.
Lemma files_events s ms : Forall map_file_ok ms → NoDup (m_part <$> ms) → (∀ n, n ∈ m_part <$> ms → n ∉ bm_seen s) →
  bm_current s = None → in_block_map s = true →
  ∃ seen, run_events block_map_step s (tag_event <$> concat (map_tags <$> ms)) =
  Ok (mk_bm (bm_kind s) (bm_files s ++ (read_file <$> ms)) None seen true).
Proof.
  intros Hok. revert s. induction Hok as [|m ms Hm _ IH]; intros s Hd Hnew Hc Hin.
  - exists (bm_seen s). cbn. rewrite app_nil_r. destruct s. cbn in *. by subst.
  - cbn in Hd. apply NoDup_cons in Hd as [Hn Hd]. cbn [fmap list_fmap concat]. rewrite fmap_app, run_events_app.
    rewrite file_events by (done || (apply Hnew; by left)). cbn [mbind outcome_bind].
    destruct (IH (mk_bm (bm_kind s) (bm_files s ++ [read_file m]) None ({[m_part m]} ∪ bm_seen s) true) Hd) as [seen Hrun];
      [|done|done|].
    { intros n Hnin. cbn [bm_seen]. intros [->%elem_of_singleton|Hs]%elem_of_union; [done|].
      by apply (Hnew n); [right|]. }
    exists seen. cbn [bm_kind bm_files] in Hrun. rewrite Hrun. by rewrite <- app_assoc.
Qed.
Lemma read_hash_lens ms : check_hash_lens (digest_output_len kind) (read_file <$> ms) = Ok tt.
Proof.
  induction ms as [|m ms IH]; [done|]. cbn [fmap list_fmap check_hash_lens read_file file_hash bail_if mbind outcome_bind].
  assert (check_block_lens (digest_output_len kind) (blocks (read_file m)) = Ok tt) as ->; [|done].
  cbn. induction (m_rows m) as [|r rows IHr]; [done|]. cbn. rewrite digest_len, Z.eqb_refl. done.
Qed.
Lemma parse_written_map `{XmlReader} uri ms text :
  hash_kind_from_block_map_uri uri = Ok kind → Forall map_file_ok ms → NoDup (m_part <$> ms) →
  text = xml_declaration "no" ++ concat (tag_text <$> block_map_tags uri (map_tags <$> ms)) →
  reads_tags (xml_declaration "no") (block_map_tags uri (map_tags <$> ms)) →
  parse_block_map_xml (encode_utf8 text) = Ok (kind, read_file <$> ms).
Proof.
  intros Hu Hok Hd -> Hr. unfold parse_block_map_xml. rewrite Hr. cbn [run_events].
  change (block_map_step (mk_bm None [] None ∅ false) EOther) with (Ok (mk_bm None [] None ∅ false)).
  cbn [mbind outcome_bind]. unfold block_map_tags at 1. rewrite fmap_cons. cbn [run_events].
  change (block_map_step ?s (tag_event (TStart "BlockMap" [("xmlns"%string, ?x); ("HashMethod"%string, uri)])))
    with (bail_if (bool_decide (is_Some (bm_kind s))) "duplicate AppxBlockMap.xml BlockMap root";;
          k ← hash_kind_from_block_map_uri uri; Ok (mk_bm (Some k) (bm_files s) (bm_current s) (bm_seen s) true)).
  cbn [bm_kind bm_files bm_current bm_seen]. rewrite bool_decide_eq_false_2 by (by intros []).
  cbn [bail_if mbind outcome_bind]. rewrite Hu. cbn [mbind outcome_bind]. rewrite fmap_app, run_events_app.
  destruct (files_events (mk_bm (Some kind) [] None ∅ true) ms Hok Hd) as [seen Hrun]; [|done|done|].
  { intros n _ Hn. by apply not_elem_of_empty in Hn. }
  rewrite Hrun. cbn [mbind outcome_bind bm_kind bm_files].
  change (run_events block_map_step ?s (tag_event <$> [TEnd "BlockMap"])) with
    (bail_if (bool_decide (is_Some (bm_current s))) "AppxBlockMap.xml BlockMap ended inside File";;
        Ok (mk_bm (bm_kind s) (bm_files s) (bm_current s) (bm_seen s) false)).
  cbn [bm_current]. rewrite bool_decide_eq_false_2 by (by intros []). cbn [bail_if mbind outcome_bind negb bm_current bm_kind bm_files].
  rewrite bool_decide_eq_false_2 by (by intros []). cbn [bail_if ok_or mbind outcome_bind app].
  by rewrite read_hash_lens.
Qed.
End Reading.

(** ** The blocks against the data *)

Section Blocks.
Context `{Base64} `{DigestOracle} (alg : PortableDigestAlgorithm).
Lemma blocks_check data pre rest fuel rows : data = pre ++ rest → (length rest <= fuel)%nat → len data < U64 →
  fst <$> rows = chunks fuel (Z.to_nat AppxZip.APPX_BLOCK_SIZE) rest → Forall (λ r : bytes * option Z, snd r ≠ Some 0) rows →
  check_blocks (pe_hash_kind alg) data (len pre) (read_block alg <$> rows) = Ok (len data).
Proof.
  assert (Z.of_nat (Z.to_nat AppxZip.APPX_BLOCK_SIZE) = 64 * 1024) as Hn by (by rewrite Z2Nat.id).
  set (n := Z.to_nat AppxZip.APPX_BLOCK_SIZE) in *. clearbody n.
  revert pre rest rows. induction fuel as [|fuel IH]; intros pre rest rows Hd Hf Hl Hrows Hz.
  { destruct rest; [|cbn in Hf; lia]. rewrite app_nil_r in Hd. subst pre. by destruct rows. }
  destruct rest as [|x rest]. { rewrite app_nil_r in Hd. subst pre. by destruct rows. }
  destruct rows as [|[chunk size] rows]; [done|]. cbn [chunks fmap list_fmap fst] in Hrows. injection Hrows as Hc Hrows.
  apply Forall_cons in Hz as [Hz0 Hz]. cbn [fmap list_fmap check_blocks read_block b_hash compressed_size fst snd].
  set (rest' := x :: rest) in *.
  assert (len data = len pre + len rest') as Hlen by (rewrite Hd; apply len_app).
  assert (0 < len rest') as Hpos by (unfold rest'; rewrite len_cons; pose proof (len_nonneg rest); lia).
  rewrite (proj2 (Z.leb_gt (len data) (len pre))) by lia. cbn [bail_if mbind outcome_bind].
  pose proof (len_nonneg pre). unfold saturating_add64. unfold AppxDigest.APPX_BLOCK_SIZE, U64 in *. cbv zeta.
  rewrite (Z.min_comm (len pre + _)). set (e := Z.min _ _).
  assert (e = len pre + len chunk) as He.
  { subst chunk. unfold e. unfold len in *. rewrite length_take. lia. }
  assert (0 <= len chunk <= len rest') as Hcl by (subst chunk; unfold len; rewrite length_take; lia).
  assert (sub data (len pre) e = chunk) as Hsub.
  { rewrite He, Hd, sub_app_r by lia. replace (len pre - len pre) with 0 by lia.
    replace (len pre + len chunk - len pre) with (len chunk) by lia. subst chunk.
    rewrite <- (take_drop n rest') at 1. rewrite sub_app_l by lia. apply sub_full. }
  rewrite index_range_in by lia. cbn [mbind outcome_bind]. rewrite Hsub, bool_decide_eq_true_2 by done.
  cbn [negb bail_if mbind outcome_bind].
  assert (match size with Some k => k =? 0 | None => false end = false) as ->
    by (destruct size as [k|]; [apply Z.eqb_neq; intros ->; by apply Hz0|done]).
  cbn [bail_if mbind outcome_bind]. replace e with (len (pre ++ take n rest')) by (rewrite len_app; subst chunk; lia).
  apply IH with (rest := drop n rest'); [by rewrite <- app_assoc, take_drop| |done|done|done].
  rewrite length_drop. unfold rest' in *. cbn [length] in *. lia.
Qed.
Definition flat_rows (data : bytes) (sizes : list Z) : list (bytes * option Z) :=
  imap (λ i chunk, (chunk, sizes !! i)) (data_chunks data).
Lemma content_check data sizes f : len data < U64 → Forall (λ n, n ≠ 0) sizes →
  declared_size f = len data → file_hash f = None → blocks f = read_block alg <$> flat_rows data sizes →
  check_content (pe_hash_kind alg) f data = Ok tt.
Proof.
  intros Hl Hs Hsz Hh Hb. unfold check_content. rewrite Hsz, Hh, Hb, Z.eqb_refl. cbn [negb bail_if mbind outcome_bind].
  case_bool_decide as Hd; [by subst data|].
  rewrite bool_decide_eq_false_2 by (by destruct data). cbn [bail_if mbind outcome_bind].
  rewrite (blocks_check data [] data (length data)); [|done|lia|done| |].
  - cbn [mbind outcome_bind]. by rewrite Z.eqb_refl.
  - unfold flat_rows, data_chunks. rewrite fmap_imap. generalize (chunks (length data) (Z.to_nat AppxZip.APPX_BLOCK_SIZE) data).
    intros l. apply list_eq. intros i. rewrite list_lookup_imap. by destruct (l !! i).
  - apply Forall_lookup. intros i r. unfold flat_rows. rewrite list_lookup_imap. destruct (data_chunks data !! i); [|done].
    cbn. intros [= <-]. cbn. intros Hx. by eapply (proj1 (Forall_lookup _ _) Hs) in Hx.
Qed.
End Blocks.

(** ** The maps that are written *)

Section Written.
Context `{Base64} `{XmlReader} `{DigestOracle} (alg : PortableDigestAlgorithm).
(** The file of the map for a part staged as an entry. *)
Definition flat_map_file (p : str * bytes * AppxZipEntry) : MapFile :=
  mk_map (fst (fst p)) (len (snd (fst p))) (local_header_size (snd p))
    (flat_rows (snd (fst p)) (default [] (e_block_sizes (snd p)))).
(** A part a package can be staged with: a safe name, and blocks that the
    encoder did not leave empty. *)
Definition stageable (p : str * bytes * AppxZipEntry) : Prop :=
  part_name_ok (fst (fst p)) ∧ len (snd (fst p)) < U64 ∧ local_header_size (snd p) < U64 ∧
  Forall (λ n, 0 < n < U64) (default [] (e_block_sizes (snd p))).

Lemma flat_rows_ok data sizes : Forall (λ n, 0 < n < U64) sizes → Forall row_ok (flat_rows data sizes).
Proof.
  intros Hs. apply Forall_lookup. intros i r. unfold flat_rows. rewrite list_lookup_imap.
  destruct (data_chunks data !! i); [|done]. cbn. intros [= <-] n. cbn. intros Hn.
  apply (proj1 (Forall_lookup _ _) Hs) in Hn. cbn beta in Hn. lia.
Qed.
Lemma flat_map_file_ok p : stageable p → map_file_ok (flat_map_file p).
Proof.
  intros (Hn & Hd & Hl & Hs). unfold map_file_ok, flat_map_file. cbn [m_part m_size m_lfh m_rows].
  pose proof (len_nonneg (snd (fst p))). pose proof (byte_len_nonneg (e_name (snd p))). unfold local_header_size in *.
  split; [done|]. split; [lia|]. split; [lia|]. by apply flat_rows_ok.
Qed.
Lemma flat_tags_map p : flat_tags alg p = map_tags alg (flat_map_file p).
Proof.
  unfold flat_tags, map_tags, flat_map_file, flat_blocks, flat_rows. cbn [m_part m_size m_lfh m_rows]. by rewrite fmap_imap.
Qed.
Lemma concat_concat_texts {A} (f : A → list XmlTag) l :
  concat ((λ x, concat (tag_text <$> f x)) <$> l) = concat (tag_text <$> concat (f <$> l)).
Proof. induction l as [|x l IH]; [done|]. cbn [fmap list_fmap concat]. by rewrite fmap_app, concat_app, <- IH. Qed.
Lemma flat_map_text payloads entries : Forall stageable (zip payloads entries) →
  build_flat_msix_block_map alg payloads entries = xml_declaration "no" ++
    concat (tag_text <$> block_map_tags (flat_hash_method alg) (map_tags alg <$> (flat_map_file <$> zip payloads entries))).
Proof.
  intros Hs. unfold build_flat_msix_block_map. apply block_map_text.
  - destruct alg; by apply chars_plain.
  - rewrite <- list_fmap_compose, <- (concat_concat_texts (map_tags alg ∘ flat_map_file)). f_equal.
    apply list_fmap_ext. intros i p Hp. unfold compose. rewrite <- flat_tags_map. apply flat_file_text_tags.
    destruct (proj1 (Forall_lookup _ _) Hs i p Hp) as (_ & _ & _ & Hn). unfold sizes_nonneg.
    eapply Forall_impl; [exact Hn|]. cbn. lia.
Qed.
Lemma flat_uri_kind : hash_kind_from_block_map_uri (flat_hash_method alg) = Ok (pe_hash_kind alg).
Proof. destruct alg; by vm_compute. Qed.

(** C23: The block map written for a flat package, read back, lists the parts
    staged, in order, with their header sizes, and the data of every part
    passes the check against its entry of the map. *)
Theorem flat_block_map_describes payloads entries :
  let ps := zip payloads entries in
  Forall stageable ps → NoDup ((λ p, fst (fst p)) <$> ps) →
  reads_tags (xml_declaration "no") (block_map_tags (flat_hash_method alg) (map_tags alg <$> (flat_map_file <$> ps))) →
  ∃ files, parse_block_map_xml (encode_utf8 (build_flat_msix_block_map alg payloads entries)) = Ok (pe_hash_kind alg, files) ∧
    Forall2 (λ f p, normalized_name f = fst (fst p) ∧ lfh_size f = Some (local_header_size (snd p)) ∧
               check_content (pe_hash_kind alg) f (snd (fst p)) = Ok tt) files ps.
Proof.
  intros ps Hs Hd Hr. exists (read_file alg <$> (flat_map_file <$> ps)). split.
  - apply parse_written_map with (uri := flat_hash_method alg); [apply flat_uri_kind| | |by apply flat_map_text|done].
    + apply Forall_fmap. eapply Forall_impl; [exact Hs|]. apply flat_map_file_ok.
    + by rewrite <- list_fmap_compose.
  - rewrite <- list_fmap_compose. apply Forall2_fmap_l. apply Forall_Forall2_diag.
    eapply Forall_impl; [exact Hs|]. intros p (Hn & Hl & _ & Hz). split; [done|]. split; [done|].
    eapply content_check; [done| |done|done|done]. eapply Forall_impl; [exact Hz|]. cbn. lia.
Qed.

Definition bundle_map_file (manifest : bytes) : MapFile :=
  mk_map bundle_manifest_name (len manifest) 65 ((λ c, (c, Some (len c))) <$> data_chunks manifest).
Lemma bundle_map_text manifest :
  build_msix_bundle_block_map alg manifest = xml_declaration "no" ++
    concat (tag_text <$> block_map_tags (bundle_hash_method alg) [map_tags alg (bundle_map_file manifest)]).
Proof.
  unfold build_msix_bundle_block_map.
  rewrite <- (block_map_text (bundle_hash_method alg) (concat (tag_text <$> map_tags alg (bundle_map_file manifest))));
    [|destruct alg; by apply chars_plain|cbn [concat]; by rewrite app_nil_r].
  f_equal. unfold map_tags. rewrite <- (file_text_tags _ _ _ _
    (concat ((λ chunk, block_text alg chunk (Some (len chunk))) <$> data_chunks manifest))).
  - rewrite <- !app_assoc. do 3 f_equal.
  - apply len_nonneg.
  - done.
  - f_equal. unfold bundle_map_file. cbn [m_rows]. rewrite <- !list_fmap_compose. apply list_fmap_ext. intros i c _.
    apply block_text_tag. intros n [= <-]. apply len_nonneg.
Qed.
Lemma bundle_rows manifest : flat_rows manifest (len <$> data_chunks manifest) = m_rows (bundle_map_file manifest).
Proof.
  unfold flat_rows, bundle_map_file. cbn [m_rows]. apply list_eq. intros i. rewrite list_lookup_imap, !list_lookup_fmap.
  by destruct (data_chunks manifest !! i).
Qed.
Lemma bundle_sizes manifest : len manifest < U64 → Forall (λ n, 0 < n < U64) (len <$> data_chunks manifest).
Proof.
  intros Hl. apply Forall_fmap. unfold data_chunks. apply Forall_forall. intros c Hc. split.
  - assert (Forall (λ c : bytes, c ≠ [] ∧ Forall (λ _, True) c) (chunks (length manifest) (Z.to_nat AppxZip.APPX_BLOCK_SIZE) manifest)) as Hn
      by (apply chunks_Forall; [unfold AppxZip.APPX_BLOCK_SIZE; lia|by apply Forall_true]).
    rewrite Forall_forall in Hn. destruct (Hn c Hc) as [Hne _]. destruct c; [done|].
    change (0 < len (b :: c)). rewrite len_cons. pose proof (len_nonneg c). lia.
  - enough (len c <= len manifest) by (cbn; lia).
    rewrite <- (chunks_concat (length manifest) (Z.to_nat AppxZip.APPX_BLOCK_SIZE) manifest) at 1
      by (unfold AppxZip.APPX_BLOCK_SIZE; lia).
    apply list_elem_of_split in Hc as (l1 & l2 & ->). rewrite concat_app. cbn [concat]. rewrite !len_app.
    pose proof (len_nonneg (concat l1)). pose proof (len_nonneg (concat l2)). lia.
Qed.

(** The block map written for a bundle lists the bundle manifest, whose
    contents pass the check; but the name written for SHA-384 is not the one
    the reader knows, so with that algorithm the map is refused, whatever the
    manifest. *)
Theorem bundle_block_map_reads manifest : len manifest < U64 →
  reads_tags (xml_declaration "no") (block_map_tags (bundle_hash_method alg) [map_tags alg (bundle_map_file manifest)]) →
  match alg with
  | PSha384 =>
      parse_block_map_xml (encode_utf8 (build_msix_bundle_block_map alg manifest)) =
        Err "unsupported AppxBlockMap HashMethod URI `{uri}` (expected SHA256/384/512 URIs)"
  | _ => ∃ f, parse_block_map_xml (encode_utf8 (build_msix_bundle_block_map alg manifest)) = Ok (pe_hash_kind alg, [f]) ∧
           normalized_name f = BUNDLE_MANIFEST ∧ check_content (pe_hash_kind alg) f manifest = Ok tt
  end.
Proof.
  intros Hl Hr.
  assert (alg ≠ PSha384 → ∃ f, parse_block_map_xml (encode_utf8 (build_msix_bundle_block_map alg manifest)) = Ok (pe_hash_kind alg, [f]) ∧
           normalized_name f = BUNDLE_MANIFEST ∧ check_content (pe_hash_kind alg) f manifest = Ok tt) as Hok.
  { intros Ha. exists (read_file alg (bundle_map_file manifest)). split; [|split; [done|]].
    - apply (parse_written_map alg (bundle_hash_method alg) [bundle_map_file manifest]);
        [by destruct alg; first [by vm_compute|done]| |by apply NoDup_singleton|apply bundle_map_text|done].
      apply Forall_singleton. split; [by apply reserved_ok; cbn; tauto|].
      split; [split; [apply len_nonneg|done]|]. split; [done|]. rewrite <- bundle_rows. by apply flat_rows_ok, bundle_sizes.
    - apply (content_check alg manifest (len <$> data_chunks manifest)); [done| |done|done|].
      + eapply Forall_impl; [by apply bundle_sizes|]. cbn. lia.
      + by rewrite bundle_rows. }
  destruct alg eqn:Ha; [by apply Hok| |by apply Hok].
  unfold parse_block_map_xml. rewrite <- Ha, bundle_map_text, Ha, Hr. done.
Qed.
End Written.

(** ** Runs *)

Definition toy_ps : list (str * bytes) := [(chars "Assets/a&b.png", lit "png"); (APP_MANIFEST, []); (chars "b.bin", lit "0123")].
Definition toy_entry (n : str) (sizes : option (list Z)) : AppxZipEntry := mk_entry n 8 7 4 (lit "ab") sizes.
Definition toy_es : list AppxZipEntry :=
  [toy_entry (chars "Assets/a&b.png") None; toy_entry APP_MANIFEST None; toy_entry (chars "b.bin") (Some [2])].
Lemma toy_stageable : Forall stageable (zip toy_ps toy_es).
Proof.
  change (zip toy_ps toy_es) with [(chars "Assets/a&b.png", lit "png", toy_entry (chars "Assets/a&b.png") None);
    (APP_MANIFEST, [], toy_entry APP_MANIFEST None); (chars "b.bin", lit "0123", toy_entry (chars "b.bin") (Some [2]))].
  assert (∀ p, normalize_appx_part_name (fst (fst p)) = Ok (fst (fst p)) → len (snd (fst p)) < U64 →
    local_header_size (snd p) < U64 → Forall (λ n, 0 < n < U64) (default [] (e_block_sizes (snd p))) → stageable p) as Hp.
  { intros p Hn%normalize_part_Ok ? ? ?. split; [apply Hn|done]. }
  apply Forall_cons_2; [|apply Forall_cons_2; [|apply Forall_singleton]]; (apply Hp; cbn [fst snd]; [by vm_compute|by vm_compute|by vm_compute|]).
  - apply Forall_nil_2.
  - apply Forall_nil_2.
  - by apply Forall_singleton.
Qed.
Lemma flat_block_map_describes_witness :
  reads_tags (H:=ToyXml) (xml_declaration "no") (block_map_tags (flat_hash_method PSha384)
    (@map_tags StdBase64 ToyDigest PSha384 <$> (flat_map_file <$> zip toy_ps toy_es))) ∧
  ∃ files, @parse_block_map_xml StdBase64 ToyXml
      (encode_utf8 (@build_flat_msix_block_map StdBase64 ToyDigest PSha384 toy_ps toy_es)) = Ok (Sha384, files) ∧
    Forall2 (λ f p, normalized_name f = fst (fst p) ∧ lfh_size f = Some (local_header_size (snd p)) ∧
               @check_content ToyDigest Sha384 f (snd (fst p)) = Ok tt) files (zip toy_ps toy_es).
Proof.
  assert (reads_tags (H:=ToyXml) (xml_declaration "no") (block_map_tags (flat_hash_method PSha384)
    (@map_tags StdBase64 ToyDigest PSha384 <$> (flat_map_file <$> zip toy_ps toy_es)))) as Hr by (by vm_compute).
  split; [exact Hr|].
  apply (@flat_block_map_describes StdBase64 ToyXml ToyDigest PSha384 toy_ps toy_es); [exact toy_stageable| |exact Hr].
  apply (bool_decide_unpack _). by vm_compute.
Defined.
Lemma bundle_block_map_reads_witness :
  @parse_block_map_xml StdBase64 ToyXml
    (encode_utf8 (@build_msix_bundle_block_map StdBase64 ToyDigest PSha384 (lit "<Bundle/>"))) =
      Err "unsupported AppxBlockMap HashMethod URI `{uri}` (expected SHA256/384/512 URIs)".
Proof.
  apply (@bundle_block_map_reads StdBase64 ToyXml ToyDigest PSha384 (lit "<Bundle/>")); [done|by vm_compute].
Defined.
