(* ===== verification/MsixSign.v ===== *)
(** What signing an APPX or MSIX package shows: the digest does not depend on
    the signature part, so the package signed over the digest of its staged
    form verifies; bundles with SHA-384 cannot be signed.  The definitions are
    in [MsixStage]. *)

From stdpp Require Import gmap.
From S2P Require Import Prelude.
From S2P Require Import RustStr.
From S2P Require Import Base64.
From S2P Require Import AppxTail.
From S2P Require Import AppxZip.
From S2P Require Import PeDigest.
From S2P Require Import Xml.
From S2P Require Import AppxParts.
From S2P Require Import AppxTypes.
From S2P Require Import AppxDigest.
From S2P Require Import AppxVerify.
From S2P Require Import AppxWritten.
From S2P Require Import AppxLayout.
From S2P Require Import MsixStage.

(** ** Archives that differ in the signature *)

Definition same_entry (r1 r2 : outcome ZipFile) : Prop :=
  ∃ z1 z2, r1 = Ok z1 ∧ r2 = Ok z2 ∧ zf_name z1 = zf_name z2 ∧
    (zf_name z1 = SIGNATURE_NAME ∨
     zf_header_start z1 = zf_header_start z2 ∧ zf_data_start z1 = zf_data_start z2 ∧ read_to_end z1 = read_to_end z2).

Lemma index_entries_same l1 l2 i files : Forall2 same_entry l1 l2 → index_entries l1 i files = index_entries l2 i files.
Proof.
  intros Hs. revert i files. induction Hs as [|r1 r2 l1 l2 (z1 & z2 & -> & -> & Hn & _) _ IH]; intros i files; [done|].
  cbn. rewrite <- Hn. destruct (is_directory_name _); [apply IH|].
  destruct (normalize_appx_part_name _); [|done..]. cbn. destruct (bool_decide _); [done|]. apply IH.
Qed.
Lemma index_entries_from l i files m n j : index_entries l i files = Ok m → m !! n = Some j →
  files !! n = Some j ∨ i <= j ∧ ∃ z, l !! Z.to_nat (j - i) = Some (Ok z) ∧ normalize_appx_part_name (zf_name z) = Ok n.
Proof.
  revert i files. induction l as [|r l IH]; intros i files; cbn; [intros [= <-]; by left|].
  intros (z & -> & Hx)%bind_Ok Hm.
  assert (∀ files', index_entries l (i + 1) files' = Ok m → files' !! n = Some j ∨
    i <= j ∧ ∃ z0, (Ok z :: l) !! Z.to_nat (j - i) = Some (Ok z0) ∧ normalize_appx_part_name (zf_name z0) = Ok n) as Hrec.
  { intros files' Hf. destruct (IH _ _ Hf Hm) as [?|(Hle & z0 & Hl & Hn)]; [by left|right]. split; [lia|]. exists z0.
    replace (Z.to_nat (j - i)) with (S (Z.to_nat (j - (i + 1)))) by lia. done. }
  destruct (is_directory_name _); [by apply Hrec|]. apply bind_Ok in Hx as (n' & Hn & Hx).
  apply bail_bind_Ok in Hx as [_ Hx]. destruct (Hrec _ Hx) as [Hin|?]; [|by right].
  rewrite lookup_insert in Hin. case_decide; [|by left]. injection Hin as <-. subst n'. right. split; [done|]. exists z.
  by rewrite Z.sub_diag.
Qed.
Lemma bundle_children_same l1 l2 : Forall2 same_entry l1 l2 → bundle_children l1 = bundle_children l2.
Proof.
  induction 1 as [|r1 r2 l1 l2 (z1 & z2 & -> & -> & Hn & Hr) _ IH]; [done|].
  cbn. rewrite <- Hn, IH. destruct (is_directory_name _); [done|]. destruct Hr as [->|(_ & _ & ->)]; [|done].
  by vm_compute.
Qed.
Section Swap.
Context `{DigestOracle} (k : PeAuthenticodeHashKind).
Lemma check_file_same a1 a2 index f : Forall2 same_entry (by_index a1) (by_index a2) →
  archive_file_index_by_normalized_name a1 = Ok index → check_file k a1 index f = check_file k a2 index f.
Proof.
  intros Hs Hi. unfold check_file. case_bool_decide as Hm; [done|]. cbn [bail_if mbind outcome_bind].
  destruct (index !! normalized_name f) as [j|] eqn:Hj; [|done]. cbn [ok_or mbind outcome_bind].
  destruct (index_entries_from _ _ _ _ _ _ Hi Hj) as [Hx|(H0 & z & Hz & Hn)].
  { by rewrite lookup_empty in Hx. }
  rewrite Z.sub_0_r in Hz. destruct (Forall2_lookup_l _ _ _ _ _ Hs Hz) as (r2 & Hz2 & z1 & z2 & [= <-] & -> & Hname & Hr).
  assert (len (by_index a1) = len (by_index a2)) as Hl by (unfold len; by rewrite (Forall2_length _ _ _ Hs)).
  pose proof (lookup_lt_Some _ _ _ Hz) as Hlt.
  unfold get_at. rewrite <- Hl, (proj2 (Z.leb_le 0 j)), (proj2 (Z.ltb_lt j _)) by (unfold len; lia).
  rewrite Hz, Hz2. cbn [andb unwrap mbind outcome_bind].
  destruct Hr as [Hsig|(-> & -> & ->)]; [|done]. exfalso. apply Hm. rewrite Hsig in Hn.
  assert (normalize_appx_part_name SIGNATURE_NAME = Ok APP_SIGNATURE) as Hsn by (by vm_compute).
  rewrite Hsn in Hn. injection Hn as <-. right. right. by left.
Qed.
Lemma check_files_same a1 a2 index files : Forall2 same_entry (by_index a1) (by_index a2) →
  archive_file_index_by_normalized_name a1 = Ok index → check_files k a1 index files = check_files k a2 index files.
Proof.
  intros Hs Hi. induction files as [|f files IH]; [done|]. cbn. rewrite (check_file_same a1 a2 index f), IH by done. done.
Qed.
Lemma block_hashes_same `{ZipCrate} b1 b2 a1 a2 files : zip_archive_new b1 = Ok a1 → zip_archive_new b2 = Ok a2 →
  Forall2 same_entry (by_index a1) (by_index a2) →
  validate_block_map_file_hashes k b1 files = validate_block_map_file_hashes k b2 files.
Proof.
  intros H1 H2 Hs. unfold validate_block_map_file_hashes. rewrite H1, H2. cbn [mbind outcome_bind].
  assert (archive_file_index_by_normalized_name a1 = archive_file_index_by_normalized_name a2) as He
    by (by apply index_entries_same).
  rewrite <- He. destruct (archive_file_index_by_normalized_name a1) as [index| |] eqn:Hi; [|done..].
  cbn [mbind outcome_bind]. by apply check_files_same.
Qed.
End Swap.

(** ** The digest of a package with another signature *)
Section Resign.
Context `{ZipCrate} `{XmlReader} `{Base64} `{DigestOracle} (contents : AppxZipEntry → outcome bytes).
(** The reader finds in a written package what was written. *)
Definition reads_written (es : list AppxZipEntry) : Prop :=
  zip_archive_new (appx_zip es) = Ok (written_archive contents es).

Lemma written_by_name es name : read_zip_entry_raw (written_archive contents es) name =
  match list_find (λ e, e_name e = name) es with
  | Some (_, e) => contents e
  | None => Err "specified file not found in archive"
  end.
Proof.
  unfold read_zip_entry_raw. cbn [written_archive by_name].
  assert (∀ (f : nat → AppxZipEntry → ZipFile), (∀ i e, zf_name (f i e) = e_name e ∧ read_to_end (f i e) = contents e) →
    (r ← ok_or (snd <$> list_find (λ zf, zf_name zf = name) (imap f es)) "specified file not found in archive"; read_to_end r) =
    match list_find (λ e, e_name e = name) es with Some (_, e) => contents e
    | None => Err "specified file not found in archive" end) as Hx; [|by apply Hx].
  induction es as [|e es IH]; intros f Hf; [done|]. cbn [imap list_find]. destruct (Hf 0%nat e) as [-> Hc].
  destruct (decide (e_name e = name)); [done|].
  specialize (IH (f ∘ S) (λ i e', Hf (S i) e')).
  destruct (list_find _ (imap _ _)) as [[]|], (list_find _ es) as [[]|]; done.
Qed.
Lemma find_snoc_other es sig name : e_name sig = SIGNATURE_NAME → name ≠ SIGNATURE_NAME →
  match list_find (λ e, e_name e = name) (es ++ [sig]) with
  | Some (_, e) => contents e | None => Err "specified file not found in archive" end =
  match list_find (λ e, e_name e = name) es with
  | Some (_, e) => contents e | None => Err "specified file not found in archive" end.
Proof.
  intros Hs Hn. induction es as [|e es IH]; cbn [app list_find].
  - destruct (decide (e_name sig = name)); [congruence|done].
  - destruct (decide (e_name e = name)); [done|].
    destruct (list_find _ (es ++ [sig])) as [[]|], (list_find _ es) as [[]|]; done.
Qed.
Context (es : list AppxZipEntry) (sig1 sig2 : AppxZipEntry).
Context (U1 : unsigned_part es sig1) (U2 : unsigned_part es sig2).
Context (R1 : reads_written (es ++ [sig1])) (R2 : reads_written (es ++ [sig2])).
Let a1 := written_archive contents (es ++ [sig1]).
Let a2 := written_archive contents (es ++ [sig2]).
Let b1 := appx_zip (es ++ [sig1]).
Let b2 := appx_zip (es ++ [sig2]).

Lemma resigned_names : file_names a1 = file_names a2.
Proof. unfold a1, a2. cbn. rewrite !fmap_app. destruct U1 as (_ & H1' & _), U2 as (_ & H2' & _). cbn. by rewrite H1', H2'. Qed.
Lemma resigned_read name : name ≠ SIGNATURE_NAME → read_zip_entry_raw a1 name = read_zip_entry_raw a2 name.
Proof.
  intros Hn. unfold a1, a2. rewrite !written_by_name. destruct U1 as (_ & H1' & _), U2 as (_ & H2' & _).
  by rewrite !find_snoc_other.
Qed.
Lemma resigned_entries_same : Forall2 same_entry (by_index a1) (by_index a2).
Proof.
  unfold a1, a2. cbn [written_archive by_index]. unfold written_files.
  rewrite !imap_app, !fmap_app. apply Forall2_app.
  - apply Forall2_same_length_lookup. split; [by rewrite !length_fmap, !length_imap|]. intros i r1 r2.
    rewrite !list_lookup_fmap, !list_lookup_imap. destruct (es !! i) as [e|] eqn:Hi; [|done]. intros [= <-] [= <-].
    eexists _, _. split; [done|]. split; [done|]. split; [done|]. right. unfold written_file. cbn.
    unfold entry_offset. apply lookup_lt_Some in Hi. by rewrite !take_app_le by lia.
  - cbn. constructor; [|done]. eexists _, _. split; [done|]. split; [done|].
    destruct U1 as (_ & H1' & _), U2 as (_ & H2' & _). cbn. rewrite H1', H2'. by split; [|left].
Qed.
Lemma resigned_zip_hashes k : zip_hashes b1 (appx_zip_tail (es ++ [sig1])) k = zip_hashes b2 (appx_zip_tail (es ++ [sig2])) k.
Proof.
  unfold zip_hashes, b1, b2. rewrite R1, R2. cbn [mbind outcome_bind].
  rewrite !written_zip_data by done. cbn [mbind outcome_bind]. by rewrite !written_cd.
Qed.
Lemma resigned_digest_package ext : digest_package b1 ext = digest_package b2 ext.
Proof.
  unfold digest_package, b1, b2. pose proof (proj1 U1) as S1. pose proof (proj1 U2) as S2.
  rewrite !appx_zip_parse by done. cbn [mbind outcome_bind]. rewrite R1, R2. cbn [mbind outcome_bind].
  rewrite !written_layout_accepted by done. cbn [mbind outcome_bind]. fold a1. fold a2. rewrite resigned_names.
  destruct (validate_package_part_inventory _ _) as [inv| |]; [|done..]. cbn [mbind outcome_bind].
  unfold read_block_map_and_types, read_code_integrity. rewrite !(resigned_read) by done.
  destruct (_ ← read_zip_entry_raw a2 BLOCK_MAP; _) as [[[[bm k] files] ct]| |]; [|done..]. cbn [mbind outcome_bind].
  destruct (if has_code_integrity inv then _ else _) as [ci| |]; [|done..]. cbn [mbind outcome_bind].
  fold b1. fold b2. rewrite resigned_zip_hashes. destruct (zip_hashes b2 _ k) as [[dh ch]| |]; [|done..]. cbn [mbind outcome_bind].
  by rewrite (block_hashes_same k b1 b2 a1 a2) by (done || apply resigned_entries_same).
Qed.
Lemma resigned_children verify : verify_bundle_child_packages verify b1 = verify_bundle_child_packages verify b2.
Proof.
  unfold verify_bundle_child_packages, b1, b2. rewrite R1, R2. cbn [mbind outcome_bind]. fold a1. fold a2.
  by rewrite (bundle_children_same _ _ resigned_entries_same).
Qed.
Lemma resigned_digest embedded depth ext :
  msix_authenticode_digest_blob embedded depth b1 ext = msix_authenticode_digest_blob embedded depth b2 ext.
Proof. unfold msix_authenticode_digest_blob. by rewrite resigned_digest_package, resigned_children. Qed.
End Resign.

(** ** What is staged *)
Section Staged.
Context `{Flate} (Hcrc : ∀ d, 0 <= crc32 d < U32).

Lemma stored_made n d : entry_made (stored n d).
Proof. split; [by left|]. split; [apply Hcrc|apply len_nonneg]. Qed.
Lemma payload_made fuel n d e : payload fuel n d = Some (Ok e) → e_name e = n ∧ entry_made e.
Proof.
  unfold payload. destruct (_ || _); [intros [= <-]; split; [done|apply stored_made]|].
  destruct (deflate_appx_blocks fuel d) as [[[c sizes]|?|]|]; cbn; [|done..].
  destruct (_ <=? _); intros [= <-]; (split; [done|]); [apply stored_made|].
  split; [by right|]. split; [apply Hcrc|apply len_nonneg].
Qed.
Lemma payload_entries_made fuel payloads es : payload_entries fuel payloads = Some (Ok es) →
  e_name <$> es = fst <$> payloads ∧ Forall entry_made es.
Proof.
  revert es. induction payloads as [|[n d] payloads IH]; intros es; cbn [payload_entries]; [by intros [= <-]|].
  intros (e & [He Hm]%payload_made & Hx)%then_Ok. apply then_Ok in Hx as (es' & Hes & [= <-]).
  destruct (IH _ Hes) as [Hn Hf]. split; [cbn; by rewrite He, Hn|by constructor].
Qed.
Lemma metadata_entries_made fuel bm ct es : metadata_entries fuel bm ct = Some (Ok es) →
  ∃ e1 e2, es = [e1; e2; stored (chars "AppxSignature.p7x") (lit "PKCX")] ∧ e_name e1 = chars "AppxBlockMap.xml" ∧
    e_name e2 = chars "[Content_Types].xml" ∧ Forall entry_made [e1; e2].
Proof.
  unfold metadata_entries. intros (e1 & [H1 M1]%payload_made & Hx)%then_Ok.
  apply then_Ok in Hx as (e2 & [H2 M2]%payload_made & [= <-]). exists e1, e2. split_and!; try done. by apply Forall_cons_2; [|apply Forall_singleton].
Qed.

Definition scalar_names (entries : list (outcome ZipFile)) : Prop :=
  Forall (λ r, ∀ zf, r = Ok zf → scalars (zf_name zf)) entries.
Definition payload_name (n : str) : Prop := skipped_name n = false.
Lemma slashed_no_backslash n : 92 ∉ slashed n.
Proof. unfold slashed. intros [[Hx%list_elem_of_singleton _]|[_ Hx]]%replace_elem; done. Qed.
Lemma slashed_scalars n : scalars n → scalars (slashed n).
Proof.
  unfold slashed. rewrite !Forall_forall. intros Hs c [[Hc%list_elem_of_singleton _]|[Hc _]]%replace_elem; [|by apply Hs].
  by subst c.
Qed.
Lemma slashed_payload n : scalars n → ends_with (slashed n) [47] = false → slashed n ≠ SIGNATURE_NAME →
  payload_name (slashed n).
Proof.
  intros Hs He Hn. unfold payload_name, skipped_name. apply orb_false_iff. split.
  - apply bool_decide_eq_false. intros Hx. apply Hn. apply slashed_scalars in Hs. apply from_utf8_encode in Hs.
    rewrite Hx in Hs. assert (from_utf8 (lit "AppxSignature.p7x") = Some SIGNATURE_NAME) as Hsig by (by vm_compute).
    rewrite Hsig in Hs. by injection Hs.
  - unfold is_directory_name. rewrite He. cbn [orb]. unfold ends_with. apply bool_decide_eq_false.
    intros [p Hp]. apply (slashed_no_backslash n). apply strip_suffix_Some in Hp. rewrite Hp. apply elem_of_app. right. by left.
Qed.

Lemma flat_parts_names entries payloads ct payloads' ct' : scalar_names entries → Forall payload_name (fst <$> payloads) →
  flat_parts entries payloads ct = Ok (payloads', ct') → Forall payload_name (fst <$> payloads').
Proof.
  intros Hs. revert payloads ct. induction Hs as [|r entries Hr _ IH]; intros payloads ct Hp; cbn [flat_parts].
  { by intros [= <- <-]. }
  intros (zf & Hz%with_context_Ok & Hx)%bind_Ok. specialize (Hr zf Hz). cbv zeta in Hx.
  destruct (ends_with _ _) eqn:He in Hx; [by eapply IH|].
  case_bool_decide; [apply bind_Ok in Hx as (d & _ & Hx); by eapply IH|].
  destruct (flat_dropped _) eqn:Hd in Hx; [by eapply IH|]. apply bind_Ok in Hx as (d & _ & Hx).
  eapply IH; [|exact Hx]. rewrite fmap_app. apply Forall_app. split; [done|]. apply Forall_singleton. apply slashed_payload; [done..|].
  intros Heq. cbn [fst] in *. rewrite Heq in Hd. by vm_compute in Hd.
Qed.
Lemma bundle_parts_names entries s s' : scalar_names entries → Forall payload_name (fst <$> child_payloads s) →
  bundle_parts entries s = Ok s' → Forall payload_name (fst <$> child_payloads s').
Proof.
  intros Hs. revert s. induction Hs as [|r entries Hr _ IH]; intros s Hp; cbn [bundle_parts].
  { by intros [= <-]. }
  intros (zf & Hz%with_context_Ok & Hx)%bind_Ok. specialize (Hr zf Hz). cbv zeta in Hx.
  destruct (ends_with _ _) eqn:He in Hx; [by eapply IH|].
  case_bool_decide; [apply bind_Ok in Hx as (d & _ & Hx); by eapply IH in Hx|].
  case_bool_decide; [apply bind_Ok in Hx as (d & _ & Hx); by eapply IH in Hx|].
  destruct (bundle_dropped _) eqn:Hd in Hx; [by eapply IH|]. apply bind_Ok in Hx as (d & _ & Hx).
  eapply IH; [|exact Hx]. cbn [child_payloads]. rewrite fmap_app. apply Forall_app. split; [done|]. apply Forall_singleton.
  apply slashed_payload; [done..|]. intros Heq. cbn [fst] in *. rewrite Heq in Hd. by vm_compute in Hd.
Qed.

Definition placeholder : AppxZipEntry := stored SIGNATURE_NAME (lit "PKCX").
(** What is staged: parts that are hashed, then the placeholder. *)
Definition staged_entries (entries : list AppxZipEntry) : Prop :=
  ∃ es, entries = es ++ [placeholder] ∧ Forall entry_made es ∧ Forall (λ e, payload_name (e_name e)) es.
Context `{ZipCrate} `{XmlReader} `{Base64} `{DigestOracle} (fuel : nat) (alg : PortableDigestAlgorithm).
Definition scalar_source (package : bytes) : Prop :=
  ∀ source, zip_archive_new package = Ok source → scalar_names (by_index source).
Lemma metadata_staged es bm ct md : Forall entry_made es → Forall payload_name (e_name <$> es) →
  metadata_entries fuel bm ct = Some (Ok md) → staged_entries (es ++ md).
Proof.
  intros Hm Hn (e1 & e2 & -> & H1' & H2' & Hm')%metadata_entries_made. exists (es ++ [e1; e2]). rewrite <- app_assoc.
  split; [done|]. split; [by apply Forall_app|]. apply Forall_app. split; [exact (proj1 (Forall_fmap _ _ _) Hn)|].
  apply Forall_cons_2; [|apply Forall_singleton]; [rewrite H1'|rewrite H2']; by vm_compute.
Qed.
Lemma flat_entries_staged package entries : scalar_source package →
  flat_entries fuel alg package = Some (Ok entries) → staged_entries entries.
Proof.
  intros Hsrc. unfold flat_entries. intros ([payloads ct] & Hp & Hx)%then_Ok. injection Hp as Hp.
  apply bind_Ok in Hp as (source & Hz%with_context_Ok & Hp).
  apply (flat_parts_names _ [] None) in Hp; [|by apply Hsrc|constructor].
  apply then_Ok in Hx as (ctx & _ & Hx). apply then_Ok in Hx as (es & [Hnames Hmade]%payload_entries_made & Hx).
  apply then_Ok in Hx as (md & Hmd & [= <-]). eapply metadata_staged; [done|by rewrite Hnames|done].
Qed.
Lemma bundle_entries_staged package entries : scalar_source package →
  bundle_entries fuel alg package = Some (Ok entries) → staged_entries entries.
Proof.
  intros Hsrc. unfold bundle_entries. intros (s & Hp & Hx)%then_Ok. injection Hp as Hp.
  apply bind_Ok in Hp as (source & Hz%with_context_Ok & Hp).
  apply bundle_parts_names in Hp; [|by apply Hsrc|constructor].
  apply then_Ok in Hx as (manifest & _ & Hx). apply then_Ok in Hx as (ctx & _ & Hx).
  apply then_Ok in Hx as (md & Hmd & [= <-]).
  change (staged_entries (((λ p, stored (fst p) (snd p)) <$> child_payloads s) ++ [stored bundle_manifest_name manifest] ++ md)).
  rewrite (app_assoc _ [_]). eapply metadata_staged; [| |done].
  - apply Forall_app. split; [|by apply Forall_singleton, stored_made]. apply Forall_fmap. apply Forall_forall.
    intros p _. apply stored_made.
  - rewrite fmap_app. apply Forall_app. split; [|by apply Forall_singleton; vm_compute].
    by rewrite <- list_fmap_compose.
Qed.
Definition family_entries (package : bytes) (ext : str) : option (outcome (list AppxZipEntry)) :=
  if is_msix_bundle_extension ext then bundle_entries fuel alg package else flat_entries fuel alg package.
Lemma family_staged package ext entries z : scalar_source package → family_entries package ext = Some (Ok entries) →
  stage_msix_family_for_signature fuel alg package ext = Some (Ok z) →
  ∃ es, entries = es ++ [placeholder] ∧ z = appx_zip entries ∧ unsigned_part es placeholder.
Proof.
  intros Hsrc He Hst. assert (write_appx_zip entries = Ok z) as Hw.
  { unfold stage_msix_family_for_signature, stage_msix_bundle_for_signature, stage_flat_msix_for_signature, family_entries in *.
    destruct (is_msix_bundle_extension ext); rewrite He in Hst; cbn in Hst; by injection Hst. }
  assert (staged_entries entries) as (es & -> & Hm & Hn)
    by (unfold family_entries in He; destruct (is_msix_bundle_extension ext);
        [by eapply bundle_entries_staged|by eapply flat_entries_staged]).
  apply write_appx_zip_staged in Hw as [Hs ->]; [|apply Forall_app; split; [done|apply Forall_singleton, stored_made]|done].
  exists es. split; [done|]. split; [done|]. split; [done|]. by split.
Qed.
End Staged.

(** ** Replacing the signature *)

Definition bare (e : AppxZipEntry) : AppxZipEntry :=
  mk_entry (e_name e) (e_method e) (e_crc32 e) (e_uncompressed_size e) (e_data e) None.
Lemma centrals_bare o es : centrals o (bare <$> es) = centrals o es.
Proof.
  revert o. induction es as [|e es IH]; intros o; [done|]. cbn [fmap list_fmap centrals]. rewrite IH.
  by change (len (local_record (bare e))) with (len (local_record e)).
Qed.
Lemma local_area_bare es : local_area (bare <$> es) = local_area es.
Proof. unfold local_area. by rewrite <- list_fmap_compose. Qed.
Lemma appx_zip_bare es sig : appx_zip ((bare <$> es) ++ [sig]) = appx_zip (es ++ [sig]).
Proof.
  assert (∀ l l', local_area l = local_area l' → (∀ o, centrals o l = centrals o l') → length l = length l' →
    appx_zip l = appx_zip l') as Hx.
  { intros l l' H1 H2 H3. unfold appx_zip, directory, len. by rewrite H1, H2, H3. }
  apply Hx; [|intros o|by rewrite !length_app, length_fmap].
  - unfold local_area. rewrite !fmap_app, !concat_app. f_equal. apply local_area_bare.
  - by rewrite !centrals_app, centrals_bare, local_area_bare.
Qed.

Section Replace.
Context `{Flate} `{ZipCrate} `{XmlReader} `{Base64} `{DigestOracle} (Hcrc : ∀ d, 0 <= crc32 d < U32).
Context (contents : AppxZipEntry → outcome bytes).
Lemma payload_not_signature e : payload_name (e_name e) → e_name e ≠ SIGNATURE_NAME.
Proof. intros Hp He. unfold payload_name in Hp. rewrite He in Hp. by vm_compute in Hp. Qed.
Lemma resigned_written es sig p7x : Forall entry_fits es → Forall (λ e, payload_name (e_name e)) es →
  e_name sig = SIGNATURE_NAME →
  resigned_entries (by_index_raw (written_archive contents (es ++ [sig]))) p7x
  = Ok ((bare <$> es) ++ [stored SIGNATURE_NAME p7x]).
Proof.
  intros Hf Hn Hs. cbn [written_archive by_index_raw].
  assert (∀ f : nat → AppxZipEntry → ZipFile,
    (∀ i e, f i e = with_data (Ok (e_data e)) (f i e) ∧ zf_name (f i e) = e_name e ∧ zf_crc32 (f i e) = e_crc32 e ∧
            zf_size (f i e) = e_uncompressed_size e ∧ zf_compression (f i e) = compression_of (e_method e)) →
    resigned_entries (Ok <$> imap f (es ++ [sig])) p7x = Ok ((bare <$> es) ++ [stored SIGNATURE_NAME p7x])) as Hx.
  { induction es as [|e es IH]; intros f Hp.
    - cbn. destruct (Hp 0%nat sig) as (_ & -> & _). rewrite bool_decide_eq_true_2 by done. by rewrite Hs.
    - apply Forall_cons in Hf as [(Hm & _) Hf]. apply Forall_cons in Hn as [He Hn].
      cbn [app imap fmap list_fmap resigned_entries with_context mbind outcome_bind].
      destruct (Hp 0%nat e) as (Hdata & Hname & Hc & Hsz & Hcm). rewrite Hdata. cbn [with_data zf_name zf_crc32 zf_size zf_compression read_to_end].
      rewrite Hname, Hc, Hsz, Hcm. rewrite bool_decide_eq_false_2 by (by apply payload_not_signature).
      rewrite IH by (done || (intros i e'; apply (Hp (S i) e'))).
      unfold bare at 2. destruct Hm as [-> | ->]; done. }
  apply Hx. done.
Qed.
Lemma replace_written es sig p7x z : unsigned_part es sig → reads_written contents (es ++ [sig]) →
  replace_msix_signature_part (appx_zip (es ++ [sig])) p7x = Ok z →
  z = appx_zip (es ++ [stored SIGNATURE_NAME p7x]) ∧ unsigned_part es (stored SIGNATURE_NAME p7x).
Proof.
  intros (Hst & Hs & Hn) Hr. unfold replace_msix_signature_part. rewrite Hr. cbn [with_context mbind outcome_bind].
  destruct Hst as (Hf & _). apply Forall_app in Hf as [Hf _].
  rewrite resigned_written by done. cbn [mbind outcome_bind]. intros Hw.
  apply write_appx_zip_staged in Hw as [Hst ->]; [|apply Forall_app; split; [|by apply Forall_singleton, stored_made]|done].
  - rewrite appx_zip_bare. split; [done|]. split; [|by split]. destruct Hst as (Hf' & _ & Hst).
    split; [|split; [by eexists es, _|]].
    + apply Forall_app in Hf' as [_ Hf']. by apply Forall_app.
    + unfold directory in *. rewrite !centrals_app, centrals_bare, local_area_bare in *.
      unfold local_area in *. rewrite !fmap_app, !concat_app, <- !list_fmap_compose in *. unfold len in *.
      rewrite !length_app, !length_fmap in *. cbn [fmap list_fmap] in *. done.
  - apply Forall_fmap. eapply Forall_impl; [exact Hf|]. intros e (Hm & Hc & _ & _ & [Hu _]).
    exact (conj Hm (conj Hc Hu)).
Qed.
End Replace.

(** ** Signing *)

Section Sign.
Context `{Flate} `{ZipCrate} `{XmlReader} `{Base64} `{DigestOracle} (Hcrc : ∀ d, 0 <= crc32 d < U32).
Context (contents : AppxZipEntry → outcome bytes) (Hstored : ∀ n d, contents (stored n d) = Ok d).
Context (embedded_digest : bytes → option bytes) {Provider : Type} (load_signing_provider : outcome Provider)
  (create_authenticode_pkcs7 : Provider → PeAuthenticodeHashKind * bytes → outcome bytes)
  (maybe_timestamp_pkcs7 : bytes → outcome bytes).
(** The message made of a digest embeds it, with or without a time stamp. *)
Definition cms_embeds : Prop :=
  ∀ provider kind blob c p7, create_authenticode_pkcs7 provider (kind, blob) = Ok c →
    maybe_timestamp_pkcs7 c = Ok p7 → embedded_digest p7 = Some blob.
Definition signature (pkcs7 : bytes) : AppxZipEntry := stored SIGNATURE_NAME (lit "PKCX" ++ pkcs7).

Lemma signature_read es sig p7x : e_name sig = SIGNATURE_NAME → Forall (λ e, payload_name (e_name e)) es →
  contents sig = Ok p7x → read_zip_entry_raw (written_archive contents (es ++ [sig])) APP_SIGNATURE = Ok p7x.
Proof.
  intros Hs Hn Hc. rewrite written_by_name. change APP_SIGNATURE with SIGNATURE_NAME.
  induction Hn as [|e es He _ IH]; cbn [app list_find].
  - by rewrite decide_True.
  - rewrite decide_False by (by apply payload_not_signature).
    destruct (list_find _ (es ++ [sig])) as [[]|]; done.
Qed.
Lemma resigned_pkcs7 es pkcs7 : unsigned_part es (signature pkcs7) → reads_written contents (es ++ [signature pkcs7]) →
  signature_pkcs7 (appx_zip (es ++ [signature pkcs7])) = Ok pkcs7 ∧
  msix_signature_pkcs7_der (appx_zip (es ++ [signature pkcs7])) = Ok pkcs7.
Proof.
  intros (_ & Hs & Hn) Hr.
  assert (len (lit "PKCX") = 4) as H4 by done. pose proof (len_nonneg pkcs7).
  assert (sub (lit "PKCX" ++ pkcs7) 0 4 = lit "PKCX") as Hp by (rewrite sub_app_l by lia; done).
  assert (sub (lit "PKCX" ++ pkcs7) 4 (len (lit "PKCX" ++ pkcs7)) = pkcs7) as Hrest.
  { rewrite len_app, sub_app_r by lia. rewrite H4. replace (4 + len pkcs7 - 4) with (len pkcs7) by lia. apply sub_full. }
  pose proof (signature_read es (signature pkcs7) (lit "PKCX" ++ pkcs7) Hs Hn (Hstored _ _)) as Hread.
  split.
  - unfold signature_pkcs7. rewrite Hr. cbn [mbind outcome_bind]. rewrite Hread. cbn [mbind outcome_bind].
    unfold strip_pkcx. rewrite Hp, bool_decide_eq_true_2 by done. cbn [negb]. rewrite len_app. change (len (lit "PKCX")) with 4.
    rewrite orb_false_r, (proj2 (Z.ltb_ge _ 4)) by lia. cbn [bail_if mbind outcome_bind].
    rewrite len_app, H4 in Hrest. by rewrite Hrest.
  - unfold msix_signature_pkcs7_der. rewrite Hr. cbn [with_context mbind outcome_bind].
    unfold read_zip_entry_raw in Hread. change (chars "AppxSignature.p7x") with APP_SIGNATURE.
    apply bind_Ok in Hread as (zf & -> & Hz). cbn [with_context mbind outcome_bind]. rewrite Hz. cbn [mbind outcome_bind].
    rewrite Hp, bool_decide_eq_true_2 by done. cbn [negb bail_if mbind outcome_bind]. by rewrite Hrest.
Qed.

(** C21: A package that [sign_msix] signs verifies: from the parts it stages, the
    output is the same parts with a signature of the message made of their
    digest, and the verifier accepts it and returns that message and digest.
    The reader is relied on for packages of these parts, with any signature. *)
Theorem msix_sign_then_verify fuel alg depth fs path output_path skip_signed package es out :
  let ext := to_ascii_lowercase (default [] (path_extension path)) in
  fs path = Ok package → scalar_source package → cms_embeds →
  family_entries fuel alg package ext = Some (Ok (es ++ [placeholder])) →
  (∀ d, unsigned_part es (stored SIGNATURE_NAME d) → reads_written contents (es ++ [stored SIGNATURE_NAME d])) →
  sign_msix fuel alg embedded_digest depth load_signing_provider create_authenticode_pkcs7 maybe_timestamp_pkcs7
    fs path output_path skip_signed = Some (Ok (mk_signed (Some out) false)) →
  ∃ pkcs7 blob, out = appx_zip (es ++ [signature pkcs7]) ∧ msix_signature_pkcs7_der out = Ok pkcs7 ∧
    embedded_digest pkcs7 = Some blob ∧ msix_verified_signature embedded_digest (S depth) out ext = Some (Ok (pkcs7, blob)).
Proof.
  intros ext Hfs Hsrc Hcms Hes Hread. unfold sign_msix. cbv zeta. fold ext.
  intros ([package' present] & Hpre & Hx)%then_Ok. injection Hpre as Hpre.
  apply bail_bind_Ok in Hpre as [_ Hpre]. apply bail_bind_Ok in Hpre as [_ Hpre]. rewrite Hfs in Hpre.
  cbn [with_context mbind outcome_bind] in Hpre. apply bind_Ok in Hpre as (present' & _ & [= <- <-]).
  destruct present'; [by injection Hx|].
  apply then_Ok in Hx as (staged_pkg & Hst & Hx).
  apply (family_staged Hcrc _ _ _ _ _ _ Hsrc Hes) in Hst as (es' & [<- _]%app_inj_2 & -> & Hun); [|done].
  apply then_Ok in Hx as (provider & _ & Hx). apply then_Ok in Hx as ([kind blob] & Hind & Hx).
  unfold msix_spc_indirect_data in Hind. apply then_Ok in Hind as ([kind' blob'] & Hblob & Hind).
  injection Hind as Hind. apply bail_bind_Ok in Hind as [_ [= -> ->]].
  injection Hx as Hx. apply bind_Ok in Hx as (c & Hc & Hx). apply bind_Ok in Hx as (pkcs7 & Hts & Hx).
  apply bind_Ok in Hx as (signed & Hrep & [= ->]). exists pkcs7, blob. pose proof (Hread _ Hun) as Hr1.
  apply (replace_written Hcrc contents) in Hrep as [-> Hun']; [|done|done]. pose proof (Hread _ Hun') as Hr2.
  destruct (resigned_pkcs7 es pkcs7 Hun' Hr2) as [Hp7 Hder]. pose proof (Hcms _ _ _ _ _ Hc Hts) as Hem.
  split; [done|]. split; [done|]. split; [done|].
  rewrite (resigned_digest contents es placeholder (signature pkcs7)) in Hblob by done.
  apply digest_blob_Ok in Hblob as (Hclear & Hdp & Hch).
  unfold msix_verified_signature. cbv zeta.
  assert (to_ascii_lowercase ext = ext) as Hl by apply lower_idem. rewrite Hl in *. rewrite Hclear. cbn [negb]. apply verify_bytes_Ok.
  split; [|done]. split; [done|]. split; [done|]. by exists kind.
Qed.
End Sign.

(** ** A run *)

(** An encoder that copies: every entry is stored. *)
Definition ToyFlate : Flate := {|
  Compress := unit; compress_new := tt;
  compress_vec c input flush spare :=
    Some (c, len input, input, match flush with FlushFull => StatusOk | FlushFinish => StreamEnd end);
  vec_reserve capacity used more := Z.max capacity (used + more);
  crc32 bs := fold_left (λ a b, (a * 257 + u8 b + 1) mod U32) bs 7 |}.
Lemma toy_crc (d : bytes) : 0 <= @crc32 ToyFlate d < U32.
Proof.
  cbn. assert (∀ a, 0 <= a < U32 → 0 <= fold_left (λ a b, (a * 257 + u8 b + 1) mod U32) d a < U32) as Hx; [|by apply Hx].
  induction d as [|b d IH]; intros a Ha; [done|]. cbn. apply IH. by apply Z.mod_pos_bound.
Qed.
Definition toy_contents (e : AppxZipEntry) : outcome bytes := Ok (e_data e).
Definition toy_source : ZipArchive :=
  written_archive toy_contents [mk_entry (chars "AppxManifest.xml") 0 7 2 (lit "ab") None].
Definition SourceZip : ZipCrate :=
  {| zip_archive_new bs := if bool_decide (bs = lit "zip") then Ok toy_source else Err "no archive" |}.
Definition toy_staged : list AppxZipEntry :=
  match @family_entries ToyFlate SourceZip ToyXml StdBase64 ToyDigest 9 PSha256 (lit "zip") (chars "msix") with
  | Some (Ok entries) => removelast entries
  | _ => []
  end.
(** A reader of the source and of packages of these parts with a signature. *)
Definition toy_signature (bs : bytes) : bytes :=
  let o := len (local_area toy_staged) in sub bs (o + 47) (o + 47 + fld 4 bs (o + 18)).
Definition ToyZip : ZipCrate := {| zip_archive_new bs :=
  if bool_decide (bs = lit "zip") then Ok toy_source else
  let es := toy_staged ++ [@stored ToyFlate SIGNATURE_NAME (toy_signature bs)] in
  if bool_decide (bs = appx_zip es) then Ok (written_archive toy_contents es) else Err "no archive" |}.
Definition out_bytes (r : option (outcome SignResult)) : bytes :=
  match r with Some (Ok (mk_signed (Some out) false)) => out | _ => [] end.
Definition toy_run : option (outcome SignResult) :=
  @sign_msix ToyFlate ToyZip ToyXml StdBase64 ToyDigest 9 PSha256 Some 0 unit (Ok tt) (λ _ i, Ok (snd i)) Ok
    (λ _, Ok (lit "zip")) (chars "a.msix") (chars "b.msix") true.
Lemma toy_zip_reads d : unsigned_part toy_staged (@stored ToyFlate SIGNATURE_NAME d) →
  @reads_written ToyZip toy_contents (toy_staged ++ [@stored ToyFlate SIGNATURE_NAME d]).
Proof.
  intros ((Hf & _ & _ & Hl & Hd) & _ & _). set (sig := @stored ToyFlate SIGNATURE_NAME d) in *.
  set (es := toy_staged ++ [sig]) in *. set (bs := appx_zip es).
  assert (es !! length toy_staged = Some sig) as Hi by (unfold es; by rewrite lookup_app_r, Nat.sub_diag).
  assert (entry_fits sig) as Hfit by (by eapply (proj1 (Forall_lookup _ _) Hf)).
  assert (entry_offset es (length toy_staged) = len (local_area toy_staged)) as Ho
    by (unfold entry_offset, es; by rewrite take_app_length).
  destruct (local_reads toy_contents es _ _ (directory es ++ zip64_end_records (len es) (len (directory es)) (len (local_area es))
    (len (local_area es) + len (directory es)) ++ to_le 2 0) Hi Hfit) as (_ & _ & _ & _ & _ & _ & _ & Hlen & _).
  pose proof (local_data es _ _ (directory es ++ zip64_end_records (len es) (len (directory es)) (len (local_area es))
    (len (local_area es) + len (directory es)) ++ to_le 2 0) Hi) as Hdata.
  change (local_area es ++ directory es ++ _) with bs in Hlen, Hdata. rewrite Ho in Hlen, Hdata.
  unfold read_u32_le in Hlen. apply read_le_Ok in Hlen as (_ & Hb & Hlen); [|lia].
  apply get_range_Some in Hdata as (_ & _ & _ & Hdata).
  change (local_header_size sig) with 47 in Hdata.
  assert (toy_signature bs = d) as Hsig by (unfold toy_signature; rewrite <- Hlen; exact (eq_sym Hdata)).
  unfold reads_written. fold bs. cbn [ToyZip zip_archive_new]. rewrite Hsig. fold sig. fold es. fold bs.
  rewrite bool_decide_eq_false_2, bool_decide_eq_true_2; [done..|]. intros Hz. rewrite Hz in Hb.
  change (len (lit "zip")) with 3 in Hb. pose proof (len_nonneg (local_area toy_staged)). lia.
Qed.
Lemma toy_cms : @cms_embeds Some unit (λ _ i, Ok (snd i)) Ok.
Proof. by intros provider kind blob c p7 [= <-] [= <-]. Qed.
Lemma msix_sign_then_verify_witness :
  ∃ out pkcs7 blob, toy_run = Some (Ok (mk_signed (Some out) false)) ∧
    @msix_signature_pkcs7_der ToyZip out = Ok pkcs7 ∧
    @msix_verified_signature ToyZip ToyXml StdBase64 ToyDigest Some 1 out (chars "msix") = Some (Ok (pkcs7, blob)).
Proof.
  exists (out_bytes toy_run).
  assert (toy_run = Some (Ok (mk_signed (Some (out_bytes toy_run)) false))) as Hrun by (by vm_compute).
  destruct (@msix_sign_then_verify ToyFlate ToyZip ToyXml StdBase64 ToyDigest toy_crc toy_contents (λ _ _, eq_refl) Some unit
    (Ok tt) (λ _ i, Ok (snd i)) Ok 9 PSha256 0 (λ _, Ok (lit "zip")) (chars "a.msix") (chars "b.msix") true (lit "zip")
    toy_staged (out_bytes toy_run)) as (pkcs7 & blob & _ & Hder & _ & Hv).
  - done.
  - intros source. cbn [ToyZip zip_archive_new]. rewrite bool_decide_eq_true_2 by done. intros [= <-].
    apply Forall_singleton. intros zf [= <-]. apply (bool_decide_unpack _). by vm_compute.
  - exact toy_cms.
  - by vm_compute.
  - exact toy_zip_reads.
  - exact Hrun.
  - exists pkcs7, blob. split; [exact Hrun|]. split; [exact Hder|exact Hv].
Defined.
