(* ===== verification/AppxBinds.v ===== *)
(** What the digest of an APPX or MSIX package binds: packages that verify
    with the same digest have the same block map and the same contents of
    every file it lists, or a hash collision is exhibited.  The definitions
    are in [AppxDigest]. *)

From stdpp Require Import gmap.
From S2P Require Import Prelude.
From S2P Require Import RustStr.
From S2P Require Import Base64.
From S2P Require Import AppxTail.
From S2P Require Import PeDigest.
From S2P Require Import Xml.
From S2P Require Import AppxParts.
From S2P Require Import AppxTypes.
From S2P Require Import AppxZip.
From S2P Require Import MsixStage.
From S2P Require Import MsixBlockMap.
From S2P Require Import MsixSign.
From S2P Require Import AppxDigest.
From S2P Require Import AppxVerify.

Section Binds.
Context `{ZipCrate} `{XmlReader} `{Base64} `{DigestOracle}.

(** Two texts that differ and have one hash. *)
Definition collide (k : PeAuthenticodeHashKind) (x y : bytes) : Prop := x ≠ y ∧ hash_bytes k x = hash_bytes k y.
Lemma same_hash k x y : hash_bytes k x = hash_bytes k y → x = y ∨ collide k x y.
Proof. intros Hh. destruct (decide (x = y)); [by left|by right]. Qed.
(** The contents the verifier reads for a file of the block map. *)
Definition listed_data (buf : bytes) (f : AppxBlockMapFile) : outcome bytes :=
  archive ← zip_archive_new buf;
  index ← archive_file_index_by_normalized_name archive;
  i ← ok_or (index !! normalized_name f) "AppxBlockMap.xml File `{}` is missing from package ZIP";
  r ← unwrap (get_at (by_index archive) i);
  zf ← r;
  read_to_end zf.

Lemma check_file_reads k archive index f : check_file k archive index f = Ok tt →
  ∃ i zf d, index !! normalized_name f = Some i ∧ get_at (by_index archive) i = Some (Ok zf) ∧ read_to_end zf = Ok d ∧
    check_content k f d = Ok tt.
Proof.
  unfold check_file. intros Hc. apply bail_bind_Ok in Hc as [_ Hc]. apply bind_Ok in Hc as (i & Hi%ok_or_Ok & Hc).
  apply bind_Ok in Hc as (r & Hr%unwrap_Ok & Hc). apply bind_Ok in Hc as (zf & -> & Hc).
  apply bind_Ok in Hc as ([] & _ & Hc). apply bind_Ok in Hc as (d & Hd & Hc). by exists i, zf, d.
Qed.
Lemma check_files_reads k archive index files f : check_files k archive index files = Ok tt → f ∈ files →
  check_file k archive index f = Ok tt.
Proof.
  induction files as [|g files IH]; [by intros _ ?%elem_of_nil|]. cbn. intros ([] & Hg & Hfs)%bind_Ok.
  intros [->|Hin]%elem_of_cons; [done|by apply IH].
Qed.
Lemma block_hashes_read k buf files f : validate_block_map_file_hashes k buf files = Ok tt → f ∈ files →
  ∃ d, listed_data buf f = Ok d ∧ check_content k f d = Ok tt.
Proof.
  unfold validate_block_map_file_hashes, listed_data. intros Hv Hin. apply bind_Ok in Hv as (a & Ha & Hv).
  rewrite Ha in *. cbn [mbind outcome_bind]. apply bind_Ok in Hv as (index & Hi & Hv). cbn [mbind outcome_bind] in Hv.
  destruct (check_file_reads k a index f) as (i & zf & d & Hx & Hg & Hd & Hc); [by eapply check_files_reads|].
  exists d. rewrite Hi. cbn [mbind outcome_bind]. rewrite Hx. cbn [ok_or mbind outcome_bind]. rewrite Hg.
  cbn [unwrap mbind outcome_bind]. done.
Qed.

Lemma check_blocks_range k data off bs r : 0 <= off <= len data → check_blocks k data off bs = Ok r → off <= r <= len data.
Proof.
  revert off. induction bs as [|b bs IH]; intros off Ho; cbn; [intros [= <-]; lia|].
  intros Hc. apply bail_bind_Ok in Hc as [Hlt Hc]. zbool. apply bind_Ok in Hc as (blk & Hb & Hc).
  apply bail_bind_Ok in Hc as [_ Hc]. apply bail_bind_Ok in Hc as [_ Hc]. apply index_range_Ok in Hb as (? & ? & ? & _).
  apply IH in Hc; lia.
Qed.
(** Data of one length with the same block hashes agree from the offset. *)
Lemma blocks_agree k d1 d2 off bs : 0 <= off <= len d1 → len d1 = len d2 →
  check_blocks k d1 off bs = Ok (len d1) → check_blocks k d2 off bs = Ok (len d2) →
  sub d1 off (len d1) = sub d2 off (len d2) ∨ ∃ a b, collide k (sub d1 a b) (sub d2 a b).
Proof.
  intros Ho Hl. revert off Ho. induction bs as [|blk bs IH]; intros off Ho; cbn.
  { intros [= ->] _. left. rewrite !sub_nil_range by lia. done. }
  rewrite <- Hl. intros H1' H2'. apply bail_bind_Ok in H1' as [Hlt H1']. apply bail_bind_Ok in H2' as [_ H2']. zbool.
  set (e := Z.min (saturating_add64 off APPX_BLOCK_SIZE) (len d1)) in *.
  apply bind_Ok in H1' as (x1 & (Hx0 & Hx1 & Hx2 & ->)%index_range_Ok & H1').
  apply bind_Ok in H2' as (x2 & (_ & _ & _ & ->)%index_range_Ok & H2').
  apply bail_bind_Ok in H1' as [Hh1 H1']. apply bail_bind_Ok in H2' as [Hh2 H2'].
  apply bail_bind_Ok in H1' as [_ H1']. apply bail_bind_Ok in H2' as [_ H2']. zbool.
  destruct (same_hash k (sub d1 off e) (sub d2 off e)) as [Heq|Hcol]; [congruence| |right; by exists off, e].
  rewrite Hl in H2'. destruct (IH e) as [Hrest|Hcol]; [lia|done|done| |by right]. left.
  rewrite (sub_split d1 off e), (sub_split d2 off e) by lia. rewrite <- Hl in Hrest. by rewrite Heq, Hrest.
Qed.
Lemma content_agrees k f d1 d2 : check_content k f d1 = Ok tt → check_content k f d2 = Ok tt →
  d1 = d2 ∨ ∃ a b, collide k (sub d1 a b) (sub d2 a b).
Proof.
  unfold check_content. intros C1 C2. apply bail_bind_Ok in C1 as [L1 C1]. apply bail_bind_Ok in C2 as [L2 C2]. zbool.
  assert (len d1 = len d2) as Hl by congruence.
  destruct (decide (d1 = [])) as [->|E1]; [left; symmetry; apply len_0_nil; by rewrite <- Hl|].
  assert (d2 ≠ []) as E2 by (intros ->; apply E1, len_0_nil; done).
  rewrite bool_decide_eq_false_2 in C1 by done. rewrite bool_decide_eq_false_2 in C2 by done.
  apply bail_bind_Ok in C1 as [_ C1]. apply bail_bind_Ok in C2 as [_ C2].
  apply bind_Ok in C1 as (o1 & B1 & C1). apply bind_Ok in C2 as (o2 & B2 & C2).
  apply bail_bind_Ok in C1 as [O1 _]. apply bail_bind_Ok in C2 as [O2 _]. zbool. subst o1 o2.
  destruct (blocks_agree k d1 d2 0 _ (conj (Z.le_refl 0) (len_nonneg d1)) Hl B1 B2) as [Heq|Hc]; [left|by right].
  by rewrite !sub_full in Heq.
Qed.

(** The texts that the package's digest hashes. *)
Lemma read_parts_bytes archive inventory ext bm k files ct : read_block_map_and_types archive inventory ext = Ok (bm, k, files, ct) →
  read_zip_entry_raw archive BLOCK_MAP = Ok bm ∧ parse_block_map_xml bm = Ok (k, files) ∧
  read_zip_entry_raw archive CONTENT_TYPES = Ok ct.
Proof.
  intros Hr. pose proof (read_parts_block_map _ _ _ _ _ _ _ Hr) as [Hb Hp]. split_and!; [done..|].
  unfold read_block_map_and_types in Hr. rewrite Hb in Hr. cbn [mbind outcome_bind] in Hr. rewrite Hp in Hr.
  cbn [mbind outcome_bind] in Hr. apply bind_Ok in Hr as (c & Hc & Hr). apply bind_Ok in Hr as (ts & _ & Hr).
  apply bind_Ok in Hr as (u & _ & Hr). by inv_ok Hr.
Qed.
(** Packages with the same digest have the same kind and the same pieces. *)
Lemma digest_injective buf1 buf2 ext1 ext2 k1 k2 e : digest_package buf1 ext1 = Ok (k1, e) → digest_package buf2 ext2 = Ok (k2, e) →
  k1 = k2 ∧ ∃ a1 t1 i1 b1 f1 c1 ci1 dh1 ch1 a2 t2 i2 b2 f2 c2 ci2 dh2 ch2,
    package_read buf1 ext1 a1 t1 i1 b1 k1 f1 c1 ci1 dh1 ch1 ∧ package_read buf2 ext2 a2 t2 i2 b2 k2 f2 c2 ci2 dh2 ch2 ∧
    package_parts k1 b1 c1 ci1 dh1 ch1 = package_parts k2 b2 c2 ci2 dh2 ch2.
Proof.
  intros (a1 & t1 & i1 & b1 & f1 & c1 & ci1 & dh1 & ch1 & R1 & E1)%digest_package_Ok
    (a2 & t2 & i2 & b2 & f2 & c2 & ci2 & dh2 & ch2 & R2 & E2)%digest_package_Ok.
  pose proof (parse_blob_encode _ _ (output_len_piece k1) (package_parts_len _ _ _ _ _ _ _ _ _ _ _ _ R1)) as P1.
  pose proof (parse_blob_encode _ _ (output_len_piece k2) (package_parts_len _ _ _ _ _ _ _ _ _ _ _ _ R2)) as P2.
  rewrite <- E1 in P1. rewrite <- E2, P1 in P2. apply Ok_inj, pair_equal_spec in P2 as [Hk%output_len_inj Hp].
  split; [done|]. do 18 eexists. split_and!; [exact R1|exact R2|exact Hp].
Qed.

Context (embedded_digest : bytes → option bytes).
(** A package that verifies is one whose digest the signature embeds. *)
Lemma verified_digest depth buf ext p e : msix_verified_signature embedded_digest (S depth) buf ext = Some (Ok (p, e)) →
  ∃ k, digest_package buf (to_ascii_lowercase ext) = Ok (k, e).
Proof.
  unfold msix_verified_signature. cbv zeta. destruct (is_cleartext_msix_extension _); [|done].
  cbn [negb]. by intros ((_ & _ & Hd) & _)%verify_bytes_Ok.
Qed.
(** C22: Packages that verify with the same digest are of the same hash kind, and
    have the same block map, the same content types and, for every file that
    the block map lists, the same contents; or two texts of the packages that
    differ have the same hash. *)
Theorem package_digest_binds_contents depth1 depth2 buf1 buf2 ext1 ext2 p1 p2 e :
  msix_verified_signature embedded_digest (S depth1) buf1 ext1 = Some (Ok (p1, e)) →
  msix_verified_signature embedded_digest (S depth2) buf2 ext2 = Some (Ok (p2, e)) →
  ∃ k a1 a2 bm1 bm2 ct1 ct2, zip_archive_new buf1 = Ok a1 ∧ zip_archive_new buf2 = Ok a2 ∧
    read_zip_entry_raw a1 BLOCK_MAP = Ok bm1 ∧ read_zip_entry_raw a2 BLOCK_MAP = Ok bm2 ∧
    read_zip_entry_raw a1 CONTENT_TYPES = Ok ct1 ∧ read_zip_entry_raw a2 CONTENT_TYPES = Ok ct2 ∧
    (ct1 = ct2 ∨ collide k ct1 ct2) ∧
    (collide k bm1 bm2 ∨ bm1 = bm2 ∧ ∃ files, parse_block_map_xml bm1 = Ok (k, files) ∧
       ∀ f, f ∈ files → ∃ d1 d2, listed_data buf1 f = Ok d1 ∧ listed_data buf2 f = Ok d2 ∧
         (d1 = d2 ∨ ∃ a b, collide k (sub d1 a b) (sub d2 a b))).
Proof.
  intros [k V1]%verified_digest [k' V2]%verified_digest. destruct (digest_injective _ _ _ _ _ _ _ V1 V2) as
    (<- & a1 & t1 & i1 & b1 & f1 & c1 & ci1 & dh1 & ch1 & a2 & t2 & i2 & b2 & f2 & c2 & ci2 & dh2 & ch2 & R1 & R2 & Hp).
  assert (hash_bytes k c1 = hash_bytes k c2 ∧ hash_bytes k b1 = hash_bytes k b2) as [Hct Hbm]
    by (split; [exact (f_equal axct Hp)|exact (f_equal axbm Hp)]).
  destruct (read_parts_bytes _ _ _ _ _ _ _ (pr_parts _ _ _ _ _ _ _ _ _ _ _ _ R1)) as (B1 & P1 & C1).
  destruct (read_parts_bytes _ _ _ _ _ _ _ (pr_parts _ _ _ _ _ _ _ _ _ _ _ _ R2)) as (B2 & P2 & C2).
  exists k, a1, a2, b1, b2, c1, c2. split_and!; [apply R1|apply R2|done..|by apply same_hash|].
  destruct (same_hash _ _ _ Hbm) as [<-|Hcol]; [right|by left]. split; [done|]. exists f1. split; [done|].
  rewrite P1 in P2. apply Ok_inj in P2. injection P2 as <-. intros f Hin.
  destruct (block_hashes_read _ _ _ _ (pr_files _ _ _ _ _ _ _ _ _ _ _ _ R1) Hin) as (d1 & D1 & K1).
  destruct (block_hashes_read _ _ _ _ (pr_files _ _ _ _ _ _ _ _ _ _ _ _ R2) Hin) as (d2 & D2 & K2).
  exists d1, d2. split_and!; [done..|]. by eapply content_agrees.
Qed.
End Binds.

(** The package that [toy_run] signs, read under two spellings of its extension. *)
Definition toy_verified (ext : str) : option (outcome (bytes * bytes)) :=
  @msix_verified_signature ToyZip ToyXml StdBase64 ToyDigest Some 1 (out_bytes toy_run) ext.
Definition digest_of (r : option (outcome (bytes * bytes))) : bytes := match r with Some (Ok (_, e)) => e | _ => [] end.
Definition toy_digest : bytes := digest_of (toy_verified (chars "msix")).
Lemma package_digest_binds_contents_witness :
  ∃ k a bm ct, @zip_archive_new ToyZip (out_bytes toy_run) = Ok a ∧ read_zip_entry_raw a BLOCK_MAP = Ok bm ∧
    read_zip_entry_raw a CONTENT_TYPES = Ok ct ∧
    ∃ bm', read_zip_entry_raw a BLOCK_MAP = Ok bm' ∧ (@collide ToyDigest k bm bm' ∨ bm = bm').
Proof.
  assert (∃ p, toy_verified (chars "msix") = Some (Ok (p, toy_digest))) as (p & V1).
  { exists toy_digest. vm_compute. reflexivity. }
  assert (∃ p, toy_verified (chars "MSIX") = Some (Ok (p, toy_digest))) as (p' & V2).
  { exists toy_digest. vm_compute. reflexivity. }
  destruct (@package_digest_binds_contents ToyZip ToyXml StdBase64 ToyDigest Some 0 0 (out_bytes toy_run) (out_bytes toy_run)
    (chars "msix") (chars "MSIX") p p' toy_digest V1 V2) as (k & a & a' & bm & bm' & ct & ct' & A & A' & B & B' & C & C' & _ & Hb).
  rewrite A in A'. apply Ok_inj in A'. subst a'. exists k, a, bm, ct. split_and!; [done..|]. exists bm'.
  split; [done|]. destruct Hb as [Hb|[Hb _]]; [by left|by right].
Defined.
