(* ===== verification/PeEmbed.v ===== *)
(** The PE attribute certificate table: [crates/psign-sip-digest/src/pe_embed.rs].

    Reading and writing the security data directory, the image checksum, the
    [WIN_CERTIFICATE] wrapper, and the four operations on a PE file: prepare,
    append, replace and remove. *)

From S2P Require Import Prelude.

Definition WIN_CERT_REVISION_2_0 : Z := 0x0200.
Definition WIN_CERT_TYPE_PKCS_SIGNED_DATA : Z := 0x0002.
Definition PE_OFFSET : Z := 0x3c.
Definition PE32_MAGIC : Z := 0x10b.
Definition PE32PLUS_MAGIC : Z := 0x20b.
Definition IMAGE_DIRECTORY_ENTRY_SECURITY : Z := 4.
Definition ATTRIBUTE_CERTIFICATE_ALIGNMENT : Z := 8.
Definition OPTIONAL_HEADER_CHECKSUM_OFFSET : Z := 64.

Definition pe_optional_header_start (pe : bytes) : outcome (Z * Z) :=
  bail_if (len pe <? PE_OFFSET + 4) "PE image too small";;
  bail_if (negb (bool_decide (get_range pe 0 2 = Some (lit "MZ")))) "missing MZ DOS stub";;
  e_lfanew ← index_range pe PE_OFFSET (PE_OFFSET + 4);
  let pe_off := from_le e_lfanew in
  bail_if (len pe <? pe_off + 24) "invalid e_lfanew";;
  bail_if (negb (bool_decide
    (get_range pe pe_off (pe_off + 4) = Some (lit "PE" ++ [byte_of 0; byte_of 0]))))
    "missing PE signature";;
  let optional_start := pe_off + 4 + 20 in
  bail_if (len pe <? optional_start + 2) "truncated optional header";;
  magic ← index_range pe optional_start (optional_start + 2);
  Ok (optional_start, from_le magic).

Definition pe_checksum_field_file_offset (pe : bytes) : outcome Z :=
  '(optional_start, _) ← pe_optional_header_start pe;
  let off := optional_start + OPTIONAL_HEADER_CHECKSUM_OFFSET in
  bail_if (len pe <? off + 4) "PE image truncated before Optional Header CheckSum";;
  Ok off.

(** [sum = (sum >> 16) + (sum & 0xffff)] *)
Definition fold16 (sum : Z) : Z := Z.shiftr sum 16 + Z.land sum 0xffff.

(** One round of [while i < image.len()]; the variables are [i] and [sum].
    [sum] stays below 2^17, so its [u64] never wraps. *)
Definition checksum_step (image : bytes) (check_off : Z) (s : Z * Z) : (Z * Z) + Z :=
  let '(i, sum) := s in
  if i <? len image then
    if (check_off <=? i) && (i <? check_off + 4) then inl (check_off + 4, sum)
    else
      let w := if i + 1 <? len image then from_le (sub image i (i + 2))
               else from_le (sub image i (i + 1)) in
      inl (i + 2, fold16 (sum + w))
  else inr sum.

(** The final [while (sum >> 16) != 0]. *)
Definition fold_step (sum : Z) : Z + Z :=
  if negb (Z.shiftr sum 16 =? 0) then inl (fold16 sum) else inr sum.

(** Fuel: [i] grows every round; after the first loop [sum] is below 2^17, so
    two folds are enough ([checksum_total]). *)
Definition pe_compute_image_checksum (image : bytes) : outcome Z :=
  check_off ← pe_checksum_field_file_offset image;
  sum ← unwrap (loop (checksum_step image check_off) (S (length image)) (0, 0));
  sum ← unwrap (loop fold_step 4 sum);
  Ok (wrapping_add32 (sum mod U32) (len image mod U32)).

Definition pe_write_image_checksum (image : bytes) (checksum : Z) : outcome bytes :=
  off ← pe_checksum_field_file_offset image;
  write_at image off (to_le 4 checksum).

Definition pe_read_image_checksum (image : bytes) : outcome Z :=
  off ← pe_checksum_field_file_offset image;
  b ← index_range image off (off + 4);
  Ok (from_le b).

(** The [debug_assert_eq!] of a debug build is not part of the release code;
    [refresh_stable] shows when it holds. *)
Definition pe_refresh_image_checksum (image : bytes) : outcome bytes :=
  c ← pe_compute_image_checksum image;
  pe_write_image_checksum image c.

(** [while body.len() % 8 != 0 { body.push(0) }]: at most seven rounds. *)
Fixpoint pad_to_8 (fuel : nat) (body : bytes) : bytes :=
  match fuel with
  | O => body
  | S fuel' => if len body mod 8 =? 0 then body else pad_to_8 fuel' (body ++ [byte_of 0])
  end.

(** The header is written over a zeroed buffer: revision and type first, the
    padded total last, its [as u32] cast included. *)
Definition wrap_pkcs7_der_authenticode_win_certificate (pkcs7_der : bytes) : bytes :=
  let body := replicate 4 (byte_of 0) ++ to_le 2 WIN_CERT_REVISION_2_0
                ++ to_le 2 WIN_CERT_TYPE_PKCS_SIGNED_DATA ++ pkcs7_der in
  let body := pad_to_8 7 body in
  patch body 0 (to_le 4 (len body mod U32)).

Definition unsupported_magic : string := "unsupported optional header magic {magic:#x}".

Definition data_directory_entry_offset (optional_start magic : Z) : outcome Z :=
  dir0 ← (if magic =? PE32_MAGIC then Ok (optional_start + 96)
          else if magic =? PE32PLUS_MAGIC then Ok (optional_start + 112)
          else Err unsupported_magic);
  Ok (dir0 + IMAGE_DIRECTORY_ENTRY_SECURITY * 8).

Definition number_of_rva_and_sizes_offset (optional_start magic : Z) : outcome Z :=
  if magic =? PE32_MAGIC then Ok (optional_start + 92)
  else if magic =? PE32PLUS_MAGIC then Ok (optional_start + 108)
  else Err unsupported_magic.

Definition read_security_data_directory (pe : bytes) : outcome (Z * Z) :=
  '(optional_start, magic) ← pe_optional_header_start pe;
  num_rva_off ← number_of_rva_and_sizes_offset optional_start magic;
  bail_if (len pe <? num_rva_off + 4) "truncated NumberOfRvaAndSizes";;
  num ← index_range pe num_rva_off (num_rva_off + 4);
  bail_if (from_le num <=? IMAGE_DIRECTORY_ENTRY_SECURITY)
    "PE optional header has only {num} data directories (need security slot)";;
  dd_off ← data_directory_entry_offset optional_start magic;
  bail_if (len pe <? dd_off + 8) "truncated security data directory";;
  va ← index_range pe dd_off (dd_off + 4);
  size ← index_range pe (dd_off + 4) (dd_off + 8);
  Ok (from_le va, from_le size).

Definition write_security_data_directory (pe : bytes) (cert_file_ptr cert_size : Z)
    : outcome bytes :=
  '(optional_start, magic) ← pe_optional_header_start pe;
  dd_off ← data_directory_entry_offset optional_start magic;
  bail_if (len pe <? dd_off + 8) "truncated security data directory (write)";;
  pe ← write_at pe dd_off (to_le 4 cert_file_ptr);
  write_at pe (dd_off + 4) (to_le 4 cert_size).

Definition is_multiple_of_8 (n : Z) : bool := n mod ATTRIBUTE_CERTIFICATE_ALIGNMENT =? 0.

Definition validate_attribute_certificate_table_alignment (cert_file_ptr cert_size : Z)
    : outcome unit :=
  if (cert_file_ptr =? 0) && (cert_size =? 0) then Ok tt else
  bail_if ((cert_file_ptr =? 0) || (cert_size =? 0))
    "incomplete PE certificate table directory: offset {cert_file_ptr}, size {cert_size}";;
  bail_if (negb (is_multiple_of_8 cert_file_ptr))
    "PE certificate table offset {cert_file_ptr} is not 8-byte aligned";;
  bail_if (negb (is_multiple_of_8 cert_size))
    "PE certificate table size {cert_size} is not 8-byte aligned".

Definition pe_validate_attribute_certificate_table_alignment (pe_image : bytes) : outcome unit :=
  '(cert_file_ptr, cert_size) ← read_security_data_directory pe_image;
  validate_attribute_certificate_table_alignment cert_file_ptr cert_size.

Definition checked_add_usize (a b : Z) (msg : string) : outcome Z := ok_or (checked_add64 a b) msg.

Definition pe_prepare_for_authenticode_signing (pe_image : bytes) : outcome bytes :=
  '(cert_file_ptr, cert_size) ← read_security_data_directory pe_image;
  validate_attribute_certificate_table_alignment cert_file_ptr cert_size;;
  if negb (cert_file_ptr =? 0) then Ok pe_image else
  let remainder := len pe_image mod ATTRIBUTE_CERTIFICATE_ALIGNMENT in
  let padding := (ATTRIBUTE_CERTIFICATE_ALIGNMENT - remainder)
                   mod ATTRIBUTE_CERTIFICATE_ALIGNMENT in
  padded_len ← checked_add_usize (len pe_image) padding
    "PE image length overflow while aligning certificate table";
  Ok (pe_image ++ replicate (Z.to_nat (padded_len - len pe_image)) (byte_of 0)).

Definition overflow_msg : string := "security directory size overflow".

Definition pe_append_authenticode_pkcs7_certificate (pe_image pkcs7_der : bytes)
    : outcome bytes :=
  let wrapped := wrap_pkcs7_der_authenticode_win_certificate pkcs7_der in
  '(va, size) ← read_security_data_directory pe_image;
  validate_attribute_certificate_table_alignment va size;;
  if (va =? 0) && (size =? 0) then
    bail_if (negb (is_multiple_of_8 (len pe_image)))
      "PE image length {} is not 8-byte aligned; prepare it before computing the Authenticode digest";;
    off ← ok_or (try_u32 (len pe_image)) "PE certificate table offset exceeds u32";
    wrapped_len ← ok_or (try_u32 (len wrapped)) "WIN_CERTIFICATE size exceeds u32";
    image ← write_security_data_directory (pe_image ++ wrapped) off wrapped_len;
    pe_refresh_image_checksum image
  else
    let start := va in
    end_ ← checked_add_usize start size overflow_msg;
    bail_if (len pe_image <? start) "security directory pointer {start} past EOF {}";;
    image ← (if end_ <? len pe_image then Ok (sub pe_image 0 end_)
             else if len pe_image <? end_ then
               Err "security directory end {end} beyond EOF {}"
             else Ok pe_image);
    wrapped_len ← ok_or (try_u32 (len wrapped)) "WIN_CERTIFICATE size exceeds u32";
    new_size ← ok_or (checked_add32 size wrapped_len) "certificate table size overflow";
    image ← write_security_data_directory (image ++ wrapped) va new_size;
    pe_refresh_image_checksum image.

(** The loop of the replacement over the certificate table. *)
Record ReplaceState := mk_rs {
  rs_offset : Z; rs_rebuilt : bytes; rs_pkcs7_seen : Z; rs_replaced : bool }.

Definition replace_step (table replacement : bytes) (pkcs7_index : Z) (s : ReplaceState)
    : ReplaceState + outcome ReplaceState :=
  if rs_offset s <? len table then
    let offset := rs_offset s in
    if len table <? offset + 8 then
      inr (Err "truncated WIN_CERTIFICATE header at table offset {offset}")
    else
    let n := from_le (sub table offset (offset + 4)) in
    if (n <? 8) || (len table <? offset + n) then
      inr (Err "invalid WIN_CERTIFICATE length {len} at table offset {offset}")
    else
    let cert_type := from_le (sub table (offset + 6) (offset + 8)) in
    let row := sub table offset (offset + n) in
    if cert_type =? WIN_CERT_TYPE_PKCS_SIGNED_DATA then
      if rs_pkcs7_seen s =? pkcs7_index then
        inl (mk_rs (offset + n) (rs_rebuilt s ++ replacement) (rs_pkcs7_seen s + 1) true)
      else inl (mk_rs (offset + n) (rs_rebuilt s ++ row) (rs_pkcs7_seen s + 1) (rs_replaced s))
    else inl (mk_rs (offset + n) (rs_rebuilt s ++ row) (rs_pkcs7_seen s) (rs_replaced s))
  else inr (Ok s).

(** Every row is at least eight bytes, so the table's length is enough fuel. *)
Definition rebuild_certificate_table (table replacement : bytes) (pkcs7_index : Z)
    : outcome ReplaceState :=
  r ← unwrap (loop (replace_step table replacement pkcs7_index) (S (length table))
                (mk_rs 0 [] 0 false));
  r.

Definition range_outside_msg : string :=
  "security directory range {start}..{end} is outside PE length {}".

Definition pe_replace_authenticode_pkcs7_certificate_at
    (pe_image : bytes) (pkcs7_index : Z) (pkcs7_der : bytes) : outcome bytes :=
  let replacement := wrap_pkcs7_der_authenticode_win_certificate pkcs7_der in
  '(va, size) ← read_security_data_directory pe_image;
  bail_if ((va =? 0) || (size =? 0)) "PE has no certificate table";;
  let start := va in
  end_ ← checked_add_usize start size overflow_msg;
  bail_if ((len pe_image <? start) || (len pe_image <? end_)) range_outside_msg;;
  table ← index_range pe_image start end_;
  s ← rebuild_certificate_table table replacement pkcs7_index;
  bail_if (negb (rs_replaced s))
    "no PKCS#7 Authenticode entry at index {pkcs7_index} (found {pkcs7_seen})";;
  let rebuilt := rs_rebuilt s in
  image ← write_security_data_directory (sub pe_image 0 start ++ rebuilt) va
            (len rebuilt mod U32);
  pe_refresh_image_checksum image.

Definition pe_remove_authenticode_certificates (pe_image : bytes) : outcome (bytes * Z) :=
  '(va, size) ← read_security_data_directory pe_image;
  if (va =? 0) || (size =? 0) then Ok (pe_image, 0) else
  let start := va in
  end_ ← checked_add_usize start size overflow_msg;
  bail_if ((len pe_image <? start) || (len pe_image <? end_)) range_outside_msg;;
  image ← write_security_data_directory
            (sub pe_image 0 start ++ sub pe_image end_ (len pe_image)) 0 0;
  image ← pe_refresh_image_checksum image;
  Ok (image, size).

(** ** What the headers say *)

Lemma header_Ok pe opt magic :
  pe_optional_header_start pe = Ok (opt, magic) ↔
  64 <= len pe ∧ sub pe 0 2 = lit "MZ" ∧ opt = from_le (sub pe 60 64) + 24 ∧
  opt + 2 <= len pe ∧ sub pe (opt - 24) (opt - 20) = lit "PE" ++ [byte_of 0; byte_of 0] ∧
  magic = from_le (sub pe opt (opt + 2)).
Proof.
  unfold pe_optional_header_start, PE_OFFSET. change (60 + 4) with 64. split.
  - intros H. inv_ok H. zbool. apply index_range_Ok in E1 as (_ & _ & _ & ->).
    pose proof (from_le_range (sub pe 60 64)).
    apply get_range_Some in E0 as (_ & _ & _ & E0). apply get_range_Some in E3 as (_ & _ & _ & E3).
    apply index_range_Ok in E5 as (_ & _ & _ & ->).
    replace (from_le (sub pe 60 64) + 4 + 20) with (from_le (sub pe 60 64) + 24) in * by lia.
    split; [lia|]. split; [done|]. split; [done|]. split; [lia|]. split; [|done].
    rewrite E3. f_equal; lia.
  - intros (Hl & Hmz & -> & Ho & Hpe & ->). pose proof (from_le_range (sub pe 60 64)).
    rewrite (proj2 (Z.ltb_ge _ _)) by lia. cbn [bail_if mbind outcome_bind].
    rewrite get_range_in, Hmz, bool_decide_eq_true_2 by (done || lia). cbn [negb bail_if].
    rewrite index_range_in by lia. cbn [mbind outcome_bind].
    rewrite (proj2 (Z.ltb_ge _ _)) by lia. cbn [bail_if].
    rewrite get_range_in by lia. rewrite bool_decide_eq_true_2 by (rewrite <-Hpe; do 2 f_equal; lia).
    cbn [negb bail_if].
    replace (from_le (sub pe 60 64) + 4 + 20) with (from_le (sub pe 60 64) + 24) by lia.
    rewrite (proj2 (Z.ltb_ge _ _)) by lia. cbn [bail_if].
    by rewrite index_range_in by lia.
Qed.

Lemma header_opt_range pe opt magic :
  pe_optional_header_start pe = Ok (opt, magic) → 24 <= opt ∧ opt + 2 <= len pe ∧ 64 <= len pe.
Proof. intros (? & _ & -> & ? & _)%header_Ok. pose proof (from_le_range (sub pe 60 64)). lia. Qed.

(** The header is read below [optional_start + 64]: bytes that agree there
    have the same header. *)
Lemma header_prefix pe pe' opt magic n :
  pe_optional_header_start pe = Ok (opt, magic) → opt + 64 <= n → n <= len pe' →
  sub pe' 0 n = sub pe 0 n → pe_optional_header_start pe' = Ok (opt, magic).
Proof.
  intros H Hn Hl Heq. pose proof (header_opt_range _ _ _ H).
  apply header_Ok in H as (? & Hmz & Ho & ? & Hpe & ->). apply header_Ok.
  rewrite !(sub_prefix_eq pe pe' n) by (done || lia). repeat split; (done || lia).
Qed.

(** The security slot: file offset of the data directory entry, and of the
    [NumberOfRvaAndSizes] field. *)
Definition slot_of (opt magic dd num : Z) : Prop :=
  data_directory_entry_offset opt magic = Ok dd ∧ number_of_rva_and_sizes_offset opt magic = Ok num.

Lemma slot_of_offsets opt magic dd num :
  slot_of opt magic dd num → dd = num + 36 ∧ opt + 128 <= dd <= opt + 144.
Proof.
  unfold slot_of, data_directory_entry_offset, number_of_rva_and_sizes_offset.
  destruct (magic =? PE32_MAGIC); [|destruct (magic =? PE32PLUS_MAGIC)]; intros [H1 H2];
    cbn in H1, H2; simplify_eq; unfold IMAGE_DIRECTORY_ENTRY_SECURITY; lia.
Qed.

Lemma read_dir_Ok pe va size :
  read_security_data_directory pe = Ok (va, size) ↔
  ∃ opt magic dd num,
    pe_optional_header_start pe = Ok (opt, magic) ∧ slot_of opt magic dd num ∧
    dd + 8 <= len pe ∧ 4 < from_le (sub pe num (num + 4)) ∧
    va = from_le (sub pe dd (dd + 4)) ∧ size = from_le (sub pe (dd + 4) (dd + 8)).
Proof.
  unfold read_security_data_directory. split.
  - intros H. apply bind_Ok in H as ([opt magic] & E0 & H). inv_ok H. zbool.
    exists opt, magic, r1, r. apply index_range_Ok in E2 as (_ & _ & _ & ->).
    apply index_range_Ok in E6 as (_ & _ & _ & ->). apply index_range_Ok in E7 as (_ & _ & _ & ->).
    unfold IMAGE_DIRECTORY_ENTRY_SECURITY in *. by repeat split; try lia.
  - intros (opt & magic & dd & num & E0 & Hs & Hl & Hn & -> & ->).
    pose proof (header_opt_range _ _ _ E0). pose proof (slot_of_offsets _ _ _ _ Hs).
    destruct Hs as [Hd Hn']. rewrite E0. cbn [mbind outcome_bind]. rewrite Hn'. cbn [mbind outcome_bind].
    rewrite (proj2 (Z.ltb_ge _ _)) by lia. cbn [bail_if mbind outcome_bind].
    rewrite index_range_in by lia. cbn [mbind outcome_bind].
    rewrite (proj2 (Z.leb_gt _ _)) by (unfold IMAGE_DIRECTORY_ENTRY_SECURITY; lia).
    cbn [bail_if mbind outcome_bind]. rewrite Hd. cbn [mbind outcome_bind].
    rewrite (proj2 (Z.ltb_ge _ _)) by lia. cbn [bail_if mbind outcome_bind].
    by rewrite !index_range_in by lia.
Qed.

(** [layout pe opt magic dd]: a PE whose header is read at [opt] and whose
    security slot lies at [dd]. *)
Record pe_layout (pe : bytes) (opt magic dd num : Z) : Prop := {
  pl_header : pe_optional_header_start pe = Ok (opt, magic);
  pl_slot : slot_of opt magic dd num;
  pl_len : dd + 8 <= len pe;
  pl_num : 4 < from_le (sub pe num (num + 4)) }.

Lemma layout_offsets pe opt magic dd num :
  pe_layout pe opt magic dd num → 88 <= opt + 64 ∧ opt + 68 <= num ∧ dd = num + 36 ∧ dd + 8 <= len pe.
Proof.
  intros [H Hs Hl _]. pose proof (header_opt_range _ _ _ H). pose proof Hs as Hs'.
  apply slot_of_offsets in Hs' as [? ?].
  destruct Hs as [_ Hn]. unfold number_of_rva_and_sizes_offset in Hn.
  destruct (magic =? PE32_MAGIC); [|destruct (magic =? PE32PLUS_MAGIC)]; simplify_eq; lia.
Qed.

Lemma layout_read pe opt magic dd num :
  pe_layout pe opt magic dd num →
  read_security_data_directory pe =
  Ok (from_le (sub pe dd (dd + 4)), from_le (sub pe (dd + 4) (dd + 8))).
Proof. intros [? ? ? ?]. apply read_dir_Ok. by exists opt, magic, dd, num. Qed.
Lemma read_layout pe va size :
  read_security_data_directory pe = Ok (va, size) →
  ∃ opt magic dd num, pe_layout pe opt magic dd num ∧
    va = from_le (sub pe dd (dd + 4)) ∧ size = from_le (sub pe (dd + 4) (dd + 8)).
Proof. intros (opt & magic & dd & num & ? & ? & ? & ? & ? & ?)%read_dir_Ok. by exists opt, magic, dd, num. Qed.

(** Writing the directory and the checksum field. *)
Definition set_dir (pe : bytes) (dd va size : Z) : bytes :=
  patch (patch pe dd (to_le 4 va)) (dd + 4) (to_le 4 size).
Definition set_sum (pe : bytes) (opt c : Z) : bytes := patch pe (opt + 64) (to_le 4 c).

Lemma len_set_dir pe dd va size : 0 <= dd → dd + 8 <= len pe → len (set_dir pe dd va size) = len pe.
Proof. intros. unfold set_dir. rewrite !len_patch; rewrite ?len_patch; rewrite ?len_to_le; lia. Qed.
Lemma len_set_sum pe opt c : 0 <= opt → opt + 68 <= len pe → len (set_sum pe opt c) = len pe.
Proof. intros. unfold set_sum. rewrite len_patch; rewrite ?len_to_le; lia. Qed.
Lemma sub_set_dir pe dd va size s e :
  0 <= s → 0 <= dd → dd + 8 <= len pe → e <= len pe → e <= dd ∨ dd + 8 <= s →
  sub (set_dir pe dd va size) s e = sub pe s e.
Proof.
  intros. unfold set_dir.
  assert (len (patch pe dd (to_le 4 va)) = len pe) by (apply len_patch; rewrite ?len_to_le; lia).
  destruct (decide (e <= dd)).
  - rewrite !sub_patch_before; rewrite ?len_to_le; lia || done.
  - rewrite !sub_patch_after; rewrite ?len_to_le; lia || done.
Qed.
Lemma sub_set_sum pe opt c s e :
  0 <= s → 0 <= opt → opt + 68 <= len pe → e <= len pe → e <= opt + 64 ∨ opt + 68 <= s →
  sub (set_sum pe opt c) s e = sub pe s e.
Proof.
  intros. unfold set_sum. destruct (decide (e <= opt + 64)).
  - rewrite sub_patch_before; rewrite ?len_to_le; lia || done.
  - rewrite sub_patch_after; rewrite ?len_to_le; lia || done.
Qed.
Lemma read_set_dir pe dd va size :
  0 <= dd → dd + 8 <= len pe →
  sub (set_dir pe dd va size) dd (dd + 4) = to_le 4 va ∧
  sub (set_dir pe dd va size) (dd + 4) (dd + 8) = to_le 4 size.
Proof.
  intros. unfold set_dir.
  assert (len (patch pe dd (to_le 4 va)) = len pe) as Hl by (apply len_patch; rewrite ?len_to_le; lia).
  split.
  - rewrite sub_patch_before by (rewrite ?len_to_le; lia).
    replace (dd + 4) with (dd + len (to_le 4 va)) by (by rewrite len_to_le).
    apply sub_patch_same; rewrite ?len_to_le; lia.
  - replace (dd + 8) with (dd + 4 + len (to_le 4 size)) by (rewrite len_to_le; lia).
    apply sub_patch_same; rewrite ?len_to_le; lia.
Qed.

(** ** Framing: what keeps the layout *)

Lemma layout_frame pe pe' opt magic dd num :
  pe_layout pe opt magic dd num → dd + 8 <= len pe' →
  sub pe' 0 (opt + 64) = sub pe 0 (opt + 64) → sub pe' num (num + 4) = sub pe num (num + 4) →
  pe_layout pe' opt magic dd num.
Proof.
  intros HL Hl H1 H2. pose proof (layout_offsets _ _ _ _ _ HL). destruct HL as [Hh Hs Hlen Hn].
  split; [|done|done|by rewrite H2]. eapply (header_prefix pe pe'); [done|..]; done || lia.
Qed.
Lemma layout_set_dir pe opt magic dd num va size :
  pe_layout pe opt magic dd num → pe_layout (set_dir pe dd va size) opt magic dd num.
Proof.
  intros HL. pose proof (layout_offsets _ _ _ _ _ HL).
  apply (layout_frame pe); [done|rewrite len_set_dir; lia|apply sub_set_dir; lia..].
Qed.
Lemma layout_set_sum pe opt magic dd num c :
  pe_layout pe opt magic dd num → pe_layout (set_sum pe opt c) opt magic dd num.
Proof.
  intros HL. pose proof (layout_offsets _ _ _ _ _ HL).
  apply (layout_frame pe); [done|rewrite len_set_sum; lia|apply sub_set_sum; lia..].
Qed.
Lemma layout_app pe w opt magic dd num :
  pe_layout pe opt magic dd num → pe_layout (pe ++ w) opt magic dd num.
Proof.
  intros HL. pose proof (layout_offsets _ _ _ _ _ HL). pose proof (len_nonneg w).
  apply (layout_frame pe); [done|slen; lia|apply sub_app_l; lia..].
Qed.
Lemma layout_take pe n opt magic dd num :
  pe_layout pe opt magic dd num → dd + 8 <= n → n <= len pe →
  pe_layout (sub pe 0 n) opt magic dd num.
Proof.
  intros HL ??. pose proof (layout_offsets _ _ _ _ _ HL).
  apply (layout_frame pe); [done|rewrite len_sub; lia|rewrite sub_sub; done || lia..].
Qed.

Lemma write_dir_eq pe opt magic dd num va size :
  pe_layout pe opt magic dd num → write_security_data_directory pe va size = Ok (set_dir pe dd va size).
Proof.
  intros HL. pose proof (layout_offsets _ _ _ _ _ HL). destruct HL as [Hh [Hd _] Hlen _].
  unfold write_security_data_directory. rewrite Hh. cbn [mbind outcome_bind]. rewrite Hd.
  cbn [mbind outcome_bind]. rewrite (proj2 (Z.ltb_ge _ _)) by lia. cbn [bail_if mbind outcome_bind].
  rewrite write_at_in by (rewrite ?len_to_le; lia). cbn [mbind outcome_bind].
  apply write_at_in; rewrite ?len_patch; rewrite ?len_to_le; lia.
Qed.
Lemma checksum_offset_eq pe opt magic dd num :
  pe_layout pe opt magic dd num → pe_checksum_field_file_offset pe = Ok (opt + 64).
Proof.
  intros HL. pose proof (layout_offsets _ _ _ _ _ HL). destruct HL as [Hh _ Hlen _].
  unfold pe_checksum_field_file_offset, OPTIONAL_HEADER_CHECKSUM_OFFSET. rewrite Hh.
  cbn [mbind outcome_bind]. by rewrite (proj2 (Z.ltb_ge _ _)) by lia.
Qed.

(** ** The checksum *)

Lemma fold16_range s : 0 <= s < 2 ^ 18 → 0 <= fold16 s <= 65538 ∧ (65536 <= s → fold16 s < s).
Proof.
  intros. unfold fold16. rewrite Z.shiftr_div_pow2 by lia.
  change 0xffff with (Z.ones 16). rewrite Z.land_ones by lia. lia.
Qed.
Lemma fold16_small s : 0 <= s <= 65538 → 65536 <= s → fold16 s < 65536.
Proof.
  intros. unfold fold16. rewrite Z.shiftr_div_pow2 by lia.
  change 0xffff with (Z.ones 16). rewrite Z.land_ones by lia. lia.
Qed.

Lemma word_range (image : bytes) i n :
  (n = 1 ∨ n = 2) → 0 <= i → i + n <= len image → 0 <= from_le (sub image i (i + n)) < 65536.
Proof.
  intros Hn Hi Hl. pose proof (from_le_range (sub image i (i + n))) as H.
  rewrite len_sub in H by lia. replace (i + n - i) with n in H by lia.
  destruct Hn as [-> | ->]; lia.
Qed.

Lemma checksum_step_inv image ck s s' :
  0 <= s.1 ∧ 0 <= s.2 <= 65538 → checksum_step image ck s = inl s' →
  (0 <= s'.1 ∧ 0 <= s'.2 <= 65538) ∧ s.1 < s'.1 ∧ s.1 < len image.
Proof.
  destruct s as [i sum]. cbn. intros [Hi Hsum]. destruct (i <? len image) eqn:E; [|done]. zbool.
  destruct ((ck <=? i) && (i <? ck + 4)) eqn:E2; zbool.
  - intros [= <-]. cbn. lia.
  - assert (0 <= (if i + 1 <? len image then from_le (sub image i (i + 2))
                  else from_le (sub image i (i + 1))) < 65536) as Hw.
    { destruct (i + 1 <? len image) eqn:E3; zbool; apply word_range; lia. }
    intros [= <-]. cbn. pose proof (fold16_range (sum + if i + 1 <? len image
      then from_le (sub image i (i + 2)) else from_le (sub image i (i + 1)))). lia.
Qed.

(** The checksum loops always end: the result is a [u32] for every PE. *)
Lemma checksum_total image ck :
  pe_checksum_field_file_offset image = Ok ck →
  ∃ c, pe_compute_image_checksum image = Ok c ∧ 0 <= c < U32.
Proof.
  intros Hck. unfold pe_compute_image_checksum. rewrite Hck. cbn [mbind outcome_bind].
  destruct (loop_total (checksum_step image ck) (λ s, 0 <= s.1 ∧ 0 <= s.2 <= 65538)
    (λ s, Z.max 0 (len image - s.1))) with (S (length image)) (0, 0) as [sum Hsum].
  - intros s s' HI Hs. destruct (checksum_step_inv _ _ _ _ HI Hs) as (? & ? & ?). lia.
  - cbn. lia.
  - cbn. unfold len. lia.
  - cbn. lia.
  - rewrite Hsum. cbn [unwrap mbind outcome_bind].
    assert (0 <= sum <= 65538) as Hr.
    { refine (loop_inv _ (λ s, 0 <= s.1 ∧ 0 <= s.2 <= 65538) (λ r, 0 <= r <= 65538) _ _ _ _ _ _ Hsum).
      - intros s s' HI Hs. by destruct (checksum_step_inv _ _ _ _ HI Hs).
      - intros [i s] r [_ HI]. cbn. destruct (i <? _); [by destruct (_ && _)|]. by intros [= <-].
      - cbn. lia. }
    destruct (loop_total fold_step (λ s, 0 <= s <= 65538) (λ s, if s <? 65536 then 0 else 1))
      with 4%nat sum as [f Hf].
    + intros s s' HI. unfold fold_step. rewrite Z.shiftr_div_pow2 by lia.
      destruct (s / 2 ^ 16 =? 0) eqn:E; [done|]. cbn. intros [= <-]. zbool.
      pose proof (fold16_small s HI ltac:(lia)). pose proof (fold16_range s ltac:(lia)).
      rewrite (proj2 (Z.ltb_ge s _)), (proj2 (Z.ltb_lt _ _)) by lia. lia.
    + done.
    + destruct (_ <? _); lia.
    + destruct (_ <? _); lia.
    + rewrite Hf. cbn [unwrap mbind outcome_bind]. eexists. split; [done|].
      apply Z.mod_pos_bound. lia.
Qed.

(** With the checksum field at an even offset, the checksum does not depend on
    the field. *)
Lemma checksum_field_irrelevant image opt magic dd num c :
  pe_layout image opt magic dd num → opt mod 2 = 0 →
  pe_compute_image_checksum (set_sum image opt c) = pe_compute_image_checksum image.
Proof.
  intros HL Heven. pose proof (layout_offsets _ _ _ _ _ HL).
  unfold pe_compute_image_checksum.
  rewrite (checksum_offset_eq _ _ _ _ _ HL),
    (checksum_offset_eq _ _ _ _ _ (layout_set_sum _ _ _ _ _ c HL)).
  cbn [mbind outcome_bind].
  assert (len (set_sum image opt c) = len image) as Hlen by (apply len_set_sum; lia).
  assert (length (set_sum image opt c) = length image) as -> by (unfold len in Hlen; lia).
  rewrite Hlen.
  rewrite (loop_ext _ (checksum_step image (opt + 64)) (λ s, 0 <= s.1 ∧ s.1 mod 2 = 0)); [done|..].
  - intros [i sum]. cbn. intros [Hi Hm]. rewrite Hlen.
    destruct (i <? len image) eqn:E; [|done].
    destruct ((opt + 64 <=? i) && (i <? opt + 64 + 4)) eqn:E2; [done|]. zbool.
    assert (i + 2 <= opt + 64 ∨ opt + 68 <= i) as Hout.
    { apply andb_false_iff in E2 as [E2|E2]; zbool; lia. }
    destruct (i + 1 <? len image) eqn:E3; zbool; rewrite sub_set_sum; done || lia.
  - intros [i sum] s'. cbn. intros [Hi Hm]. destruct (i <? _); [|done].
    destruct (_ && _) eqn:E2; intros [= <-]; cbn; zbool; lia.
  - done.
Qed.

Lemma refresh_eq image opt magic dd num :
  pe_layout image opt magic dd num →
  ∃ c, pe_compute_image_checksum image = Ok c ∧
       pe_refresh_image_checksum image = Ok (set_sum image opt c).
Proof.
  intros HL. pose proof (layout_offsets _ _ _ _ _ HL).
  pose proof (checksum_offset_eq _ _ _ _ _ HL) as Hck.
  destruct (checksum_total _ _ Hck) as (c & Hc & _). exists c. split; [done|].
  unfold pe_refresh_image_checksum, pe_write_image_checksum. rewrite Hc, Hck.
  cbn [mbind outcome_bind]. apply write_at_in; rewrite ?len_to_le; lia.
Qed.

Lemma read_dir_set_sum pe opt magic dd num c :
  pe_layout pe opt magic dd num →
  read_security_data_directory (set_sum pe opt c) = read_security_data_directory pe.
Proof.
  intros HL. pose proof (layout_offsets _ _ _ _ _ HL).
  rewrite (layout_read _ _ _ _ _ HL), (layout_read _ _ _ _ _ (layout_set_sum _ _ _ _ _ c HL)).
  by rewrite !sub_set_sum by lia.
Qed.
Lemma read_dir_set_dir pe opt magic dd num va size :
  pe_layout pe opt magic dd num → 0 <= va < U32 → 0 <= size < U32 →
  read_security_data_directory (set_dir pe dd va size) = Ok (va, size).
Proof.
  intros HL ??. pose proof (layout_offsets _ _ _ _ _ HL).
  rewrite (layout_read _ _ _ _ _ (layout_set_dir _ _ _ _ _ va size HL)).
  destruct (read_set_dir pe dd va size) as [-> ->]; [lia..|].
  by rewrite !from_to_le_small by lia.
Qed.

(** ** The WIN_CERTIFICATE record *)

Definition padding (n : Z) : Z := (- n) mod 8.

Lemma pad_to_8_spec fuel body :
  padding (len body) <= Z.of_nat fuel →
  pad_to_8 fuel body = body ++ replicate (Z.to_nat (padding (len body))) (byte_of 0).
Proof.
  unfold padding. revert body. induction fuel as [|fuel IH]; intros body Hf; cbn [pad_to_8].
  - replace (Z.to_nat _) with 0%nat by lia. by rewrite app_nil_r.
  - destruct (len body mod 8 =? 0) eqn:E; zbool.
    + replace (Z.to_nat _) with 0%nat by lia. by rewrite app_nil_r.
    + rewrite IH; rewrite len_app; change (len [byte_of 0]) with 1; [|lia].
      rewrite <-app_assoc. f_equal.
      replace (Z.to_nat (- len body mod 8)) with (S (Z.to_nat (- (len body + 1) mod 8))) by lia.
      done.
Qed.

(** [dwLength], [wRevision], [wCertificateType], the payload, zero padding. *)
Lemma wrap_eq p :
  let total := 8 + len p + padding (len p) in
  wrap_pkcs7_der_authenticode_win_certificate p =
  to_le 4 (total mod U32) ++ to_le 2 WIN_CERT_REVISION_2_0 ++ to_le 2 WIN_CERT_TYPE_PKCS_SIGNED_DATA
    ++ p ++ replicate (Z.to_nat (padding (len p))) (byte_of 0).
Proof.
  cbn zeta. unfold wrap_pkcs7_der_authenticode_win_certificate.
  assert (∀ a, len (replicate 4 (byte_of 0) ++ to_le 2 WIN_CERT_REVISION_2_0
            ++ to_le 2 WIN_CERT_TYPE_PKCS_SIGNED_DATA ++ a) = 8 + len a) as Hl by (intros; slen; lia).
  rewrite pad_to_8_spec by (unfold padding; lia).
  assert (padding (len (replicate 4 (byte_of 0) ++ to_le 2 WIN_CERT_REVISION_2_0
            ++ to_le 2 WIN_CERT_TYPE_PKCS_SIGNED_DATA ++ p)) = padding (len p)) as ->.
  { rewrite Hl. unfold padding. lia. }
  rewrite <-!app_assoc, Hl.
  assert (0 <= padding (len p)) by (unfold padding; lia).
  rewrite patch_app_l by (slen; lia). rewrite len_app, len_replicate, Z2Nat.id by done.
  replace (8 + (len p + padding (len p))) with (8 + len p + padding (len p)) by lia.
  by f_equal.
Qed.

Lemma len_wrap p :
  len (wrap_pkcs7_der_authenticode_win_certificate p) = 8 + len p + padding (len p).
Proof. rewrite wrap_eq. unfold padding. slen. rewrite Z2Nat.id by lia. lia. Qed.

(** ** The certificate table as a list of rows *)

(** A row: at least a header, its [dwLength] its own length, 8-byte aligned. *)
Definition row_wf (r : bytes) : Prop :=
  8 <= len r ∧ len r mod 8 = 0 ∧ from_le (sub r 0 4) = len r.
Definition row_is_pkcs7 (r : bytes) : bool :=
  from_le (sub r 6 8) =? WIN_CERT_TYPE_PKCS_SIGNED_DATA.
Definition count_pkcs7 (rows : list bytes) : Z := len (filter (λ r, row_is_pkcs7 r = true) rows).
Fixpoint replace_nth_pkcs7 (rows : list bytes) (k : Z) (new : bytes) : list bytes :=
  match rows with
  | [] => []
  | r :: rows' =>
      if row_is_pkcs7 r then
        if k =? 0 then new :: rows' else r :: replace_nth_pkcs7 rows' (k - 1) new
      else r :: replace_nth_pkcs7 rows' k new
  end.

Lemma wrap_row_wf p :
  8 + len p + padding (len p) < U32 → row_wf (wrap_pkcs7_der_authenticode_win_certificate p).
Proof.
  intros H. pose proof (len_nonneg p). assert (0 <= padding (len p)) by (unfold padding; lia).
  unfold row_wf. rewrite len_wrap. split; [lia|]. split; [unfold padding; lia|].
  rewrite wrap_eq, sub_app_l by (slen; lia). rewrite sub_full_ge by (slen; lia).
  rewrite from_to_le_small; rewrite Z.mod_small; lia.
Qed.
Lemma wrap_is_pkcs7 p : row_is_pkcs7 (wrap_pkcs7_der_authenticode_win_certificate p) = true.
Proof.
  unfold row_is_pkcs7. rewrite wrap_eq. apply Z.eqb_eq.
  rewrite sub_app_r, len_to_le by (slen; lia).
  rewrite sub_app_r, len_to_le by (slen; lia).
  rewrite sub_app_l by (slen; lia). rewrite sub_full_ge by (slen; lia). by vm_compute.
Qed.

Lemma count_cons r rows :
  count_pkcs7 (r :: rows) = (if row_is_pkcs7 r then 1 else 0) + count_pkcs7 rows.
Proof.
  unfold count_pkcs7. rewrite filter_cons.
  destruct (row_is_pkcs7 r); case_decide; try done; rewrite ?len_cons; lia.
Qed.
Lemma count_nonneg rows : 0 <= count_pkcs7 rows.
Proof. apply len_nonneg. Qed.
Lemma count_app rows rows' : count_pkcs7 (rows ++ rows') = count_pkcs7 rows + count_pkcs7 rows'.
Proof. unfold count_pkcs7. by rewrite filter_app, len_app. Qed.

(** One row read where the table holds it. *)
Lemma replace_step_row pre r rest repl k seen reb b :
  row_wf r →
  replace_step (pre ++ r ++ rest) repl k (mk_rs (len pre) reb seen b) =
  inl (if row_is_pkcs7 r then
         if seen =? k then mk_rs (len (pre ++ r)) (reb ++ repl) (seen + 1) true
         else mk_rs (len (pre ++ r)) (reb ++ r) (seen + 1) b
       else mk_rs (len (pre ++ r)) (reb ++ r) seen b).
Proof.
  intros (Hr & _ & Hl). unfold replace_step. cbn [rs_offset rs_rebuilt rs_pkcs7_seen rs_replaced].
  pose proof (len_nonneg pre). pose proof (len_nonneg rest).
  assert (∀ s e, 0 <= s → e <= len r →
    sub (pre ++ r ++ rest) (len pre + s) (len pre + e) = sub r s e) as Hsub.
  { intros s e Hs He. rewrite sub_app_r by lia. rewrite sub_app_l by lia. f_equal; lia. }
  rewrite (proj2 (Z.ltb_lt (len pre) _)) by (slen; lia).
  rewrite (proj2 (Z.ltb_ge _ (len pre + 8))) by (slen; lia).
  replace (sub _ (len pre) (len pre + 4)) with (sub r 0 4)
    by (rewrite <-(Hsub 0 4) by lia; f_equal; lia).
  rewrite Hl, (proj2 (Z.ltb_ge (len r) 8)), (proj2 (Z.ltb_ge _ (len pre + len r))) by (slen; lia).
  cbn [orb]. rewrite Hsub by lia. unfold row_is_pkcs7.
  replace (sub _ (len pre) (len pre + len r)) with r.
  - rewrite len_app. destruct (_ =? WIN_CERT_TYPE_PKCS_SIGNED_DATA); [|done].
    by destruct (seen =? k).
  - rewrite <-(Z.add_0_r (len pre)) at 1. rewrite Hsub by lia. symmetry. apply sub_full.
Qed.

(** The replacement loop over a table of rows. *)
Lemma replace_loop rows repl k pre seen reb fuel b :
  Forall row_wf rows → (length rows < fuel)%nat →
  loop (replace_step (pre ++ concat rows) repl k) fuel (mk_rs (len pre) reb seen b)
  = Some (Ok (mk_rs (len (pre ++ concat rows))
      (reb ++ concat (replace_nth_pkcs7 rows (k - seen) repl))
      (seen + count_pkcs7 rows) (b || ((seen <=? k) && (k <? seen + count_pkcs7 rows))))).
Proof.
  intros Hw. revert pre seen reb fuel b. induction Hw as [|r rows Hr Hw IH];
    intros pre seen reb [|fuel] b Hf; cbn [length] in Hf; try lia; cbn [loop].
  - unfold replace_step. cbn [rs_offset concat]. rewrite !app_nil_r, Z.ltb_irrefl.
    change (count_pkcs7 []) with 0. rewrite Z.add_0_r.
    replace ((seen <=? k) && (k <? seen)) with false by (destruct (seen <=? k) eqn:?,
      (k <? seen) eqn:?; zbool; try done; lia).
    cbn. by rewrite orb_false_r.
  - cbn [concat]. rewrite replace_step_row by done. rewrite count_cons. cbn [replace_nth_pkcs7].
    pose proof (count_nonneg rows).
    rewrite (app_assoc pre). destruct (row_is_pkcs7 r).
    + destruct (seen =? k) eqn:E; zbool.
      * subst. rewrite IH by lia. rewrite Z.sub_diag, Z.eqb_refl.
        replace (k - (k + 1)) with (-1) by lia.
        assert (∀ rs j, j < 0 → replace_nth_pkcs7 rs j repl = rs) as Hneg.
        { clear. induction rs as [|x rs IH]; intros j Hj; cbn; [done|].
          destruct (row_is_pkcs7 x); rewrite ?(proj2 (Z.eqb_neq _ _)) by lia; rewrite IH; done || lia. }
        rewrite Hneg by lia. cbn [concat]. rewrite <-!app_assoc. do 3 f_equal; [lia|].
        rewrite Z.leb_refl, (proj2 (Z.ltb_lt k (k + (1 + count_pkcs7 rows)))) by lia.
        by rewrite orb_true_r.
      * rewrite IH by lia. rewrite (proj2 (Z.eqb_neq (k - seen) 0)) by lia. cbn [concat].
        rewrite <-!app_assoc. replace (k - (seen + 1)) with (k - seen - 1) by lia.
        do 3 f_equal; [lia|]. f_equal.
        destruct (seen + 1 <=? k) eqn:?, (seen <=? k) eqn:?, (k <? seen + 1 + _) eqn:?,
          (k <? seen + (1 + _)) eqn:?; zbool; try done; lia.
    + rewrite IH by lia. cbn [concat]. rewrite <-!app_assoc. done.
Qed.

Lemma length_rows rows : Forall row_wf rows → Z.of_nat (length rows) <= len (concat rows).
Proof.
  induction 1 as [|r rows (? & _) _ IH]; [done|]. cbn [length concat]. rewrite len_app. lia.
Qed.

Lemma rebuild_rows rows repl k :
  Forall row_wf rows → 0 <= k →
  rebuild_certificate_table (concat rows) repl k =
  Ok (mk_rs (len (concat rows)) (concat (replace_nth_pkcs7 rows k repl)) (count_pkcs7 rows)
        (k <? count_pkcs7 rows)).
Proof.
  intros Hw Hk. unfold rebuild_certificate_table.
  pose proof (replace_loop rows repl k [] 0 [] (S (length (concat rows))) false Hw) as H.
  cbn [app] in H. change (len []) with 0 in H. rewrite H.
  - cbn. by rewrite Z.sub_0_r, (proj2 (Z.leb_le _ _)) by done.
  - pose proof (length_rows _ Hw). unfold len in *. lia.
Qed.

(** The rebuild loop always ends, on any table. *)
Lemma rebuild_terminates table repl k :
  is_Some (loop (replace_step table repl k) (S (length table)) (mk_rs 0 [] 0 false)).
Proof.
  apply (loop_total _ (λ s, 0 <= rs_offset s) (λ s, Z.max 0 (len table - rs_offset s))).
  - intros s s' Hs. unfold replace_step. destruct (rs_offset s <? len table) eqn:E; [|done].
    destruct (len table <? _) eqn:E2; [done|].
    destruct (_ || _) eqn:E3; [done|]. zbool. intros Heq.
    assert (rs_offset s' = rs_offset s + from_le (sub table (rs_offset s) (rs_offset s + 4))) as ->.
    { destruct (_ =? WIN_CERT_TYPE_PKCS_SIGNED_DATA); [destruct (_ =? k)|];
        injection Heq as <-; done. }
    lia.
  - cbn. lia.
  - cbn. unfold len. lia.
  - cbn. lia.
Qed.

Lemma replace_nth_wf rows k w :
  Forall row_wf rows → row_wf w → Forall row_wf (replace_nth_pkcs7 rows k w).
Proof.
  intros H Hw. revert k. induction H as [|r rs Hr H IH]; intros k; cbn; [done|].
  destruct (row_is_pkcs7 r); [destruct (k =? 0)|]; by constructor.
Qed.
Lemma replace_nth_elem rows k w : 0 <= k < count_pkcs7 rows → w ∈ replace_nth_pkcs7 rows k w.
Proof.
  revert k. induction rows as [|r rs IH]; intros k; [change (count_pkcs7 []) with 0; lia|].
  rewrite count_cons. cbn. destruct (row_is_pkcs7 r).
  - destruct (k =? 0) eqn:E; zbool; intros; [by left|right; apply IH; lia].
  - intros. right. by apply IH.
Qed.

(** ** The abstract state: an unsigned image and a list of certificate rows

    [signed_image rows c] is the file the list [rows] of certificate rows
    stands for: the unsigned image [img], the table after it, the security
    directory pointing at it, and [c] in the checksum field. *)
Section Refinement.
Context (img : bytes) (opt magic dd num : Z).
Context (HL : pe_layout img opt magic dd num).

Definition raw_image (table : bytes) (va size c : Z) : bytes :=
  set_sum (set_dir (img ++ table) dd va size) opt c.
Definition table_va (rows : list bytes) : Z := if bool_decide (rows = []) then 0 else len img.
Definition table_size (rows : list bytes) : Z := len (concat rows).
Definition signed_image (rows : list bytes) (c : Z) : bytes :=
  raw_image (concat rows) (table_va rows) (table_size rows) c.
Definition fits (rows : list bytes) : Prop := len img + table_size rows < U32.

Lemma offsets : 88 <= opt + 64 ∧ opt + 68 <= num ∧ dd = num + 36 ∧ dd + 8 <= len img.
Proof using HL. by eapply layout_offsets. Qed.

Lemma len_raw T va size c : len (raw_image T va size c) = len img + len T.
Proof using HL.
  pose proof offsets. pose proof (len_nonneg T). unfold raw_image.
  assert (len (set_dir (img ++ T) dd va size) = len img + len T) as Hd
    by (rewrite len_set_dir by (rewrite ?len_app; lia); apply len_app).
  rewrite len_set_sum by lia. done.
Qed.
Lemma raw_layout T va size c : pe_layout (raw_image T va size c) opt magic dd num.
Proof using HL. by apply layout_set_sum, layout_set_dir, layout_app. Qed.
Lemma raw_read T va size c :
  0 <= va < U32 → 0 <= size < U32 →
  read_security_data_directory (raw_image T va size c) = Ok (va, size).
Proof using HL.
  intros. unfold raw_image.
  rewrite (read_dir_set_sum _ opt magic dd num) by (by apply layout_set_dir, layout_app).
  apply (read_dir_set_dir _ opt magic dd num); [by apply layout_app|lia..].
Qed.
Lemma raw_app T va size c w : raw_image T va size c ++ w = raw_image (T ++ w) va size c.
Proof using HL.
  pose proof offsets. pose proof (len_nonneg T). unfold raw_image, set_sum, set_dir.
  rewrite app_assoc. by rewrite !patch_app_l by len_side.
Qed.
Lemma raw_write T va size va' size' c :
  write_security_data_directory (raw_image T va size c) va' size' = Ok (raw_image T va' size' c).
Proof using HL.
  rewrite (write_dir_eq _ opt magic dd num) by apply raw_layout. f_equal.
  pose proof offsets. pose proof (len_nonneg T). pose proof (len_app img T).
  unfold raw_image, set_dir, set_sum. patch_ext.
Qed.
Lemma raw_set_sum T va size c c' :
  set_sum (raw_image T va size c) opt c' = raw_image T va size c'.
Proof using HL.
  pose proof offsets. pose proof (len_nonneg T). pose proof (len_app img T).
  unfold raw_image, set_dir, set_sum. patch_ext.
Qed.
Lemma raw_cut T va size c :
  sub (raw_image T va size c) 0 (len img) = raw_image [] va size c.
Proof using HL.
  rewrite <-(app_nil_l T), <-raw_app, sub_app_l by (rewrite ?len_raw, ?len_nil; lia).
  apply sub_full_ge. rewrite len_raw, len_nil. lia.
Qed.
Lemma raw_tail T va size c :
  sub (raw_image T va size c) (len img) (len img + len T) = T.
Proof using HL.
  rewrite <-(app_nil_l T) at 1. rewrite <-raw_app, sub_app_r by (rewrite len_raw, len_nil; lia).
  rewrite len_raw, len_nil. trans (sub T 0 (len T)); [f_equal; lia|apply sub_full].
Qed.
(** Refreshing the checksum; at an even offset it is then the file's own. *)
Lemma raw_refresh T va size c :
  ∃ c', pe_refresh_image_checksum (raw_image T va size c) = Ok (raw_image T va size c') ∧
    0 <= c' < U32 ∧
    pe_compute_image_checksum (raw_image T va size c) = Ok c' ∧
    (opt mod 2 = 0 → pe_compute_image_checksum (raw_image T va size c') = Ok c').
Proof using HL.
  destruct (refresh_eq _ _ _ _ _ (raw_layout T va size c)) as (c' & Hc & Hr). exists c'.
  rewrite raw_set_sum in Hr. split; [done|].
  destruct (checksum_total _ _ (checksum_offset_eq _ _ _ _ _ (raw_layout T va size c)))
    as (c'' & Hc'' & Hb). assert (c'' = c') as -> by congruence.
  split; [done|]. split; [done|]. intros Heven. rewrite <-(raw_set_sum T va size c c'), <-Hc.
  apply (checksum_field_irrelevant _ _ magic dd num); [apply raw_layout|done].
Qed.

(** *** The operations on represented files *)
Context (Hal : len img mod 8 = 0).

Lemma table_va_eq rows : rows ≠ [] → table_va rows = len img.
Proof using. intros. unfold table_va. by rewrite bool_decide_eq_false_2. Qed.
Lemma rows_size_aligned rows : Forall row_wf rows → table_size rows mod 8 = 0.
Proof using.
  clear -rows.
  unfold table_size. induction 1 as [|r rows (_ & Hr & _) _ IH]; [done|].
  cbn [concat]. rewrite len_app. lia.
Qed.
Lemma rows_size_pos rows : Forall row_wf rows → rows ≠ [] → 8 <= table_size rows.
Proof using.
  clear -rows.
  unfold table_size. intros [|r rs (? & _) _]; [done|]. intros _.
  cbn [concat]. rewrite len_app. pose proof (len_nonneg (concat rs)). lia.
Qed.
Lemma fits_u32 rows : fits rows → 0 <= table_va rows < U32 ∧ 0 <= table_size rows < U32.
Proof using.
  unfold fits, table_va, table_size. pose proof (len_nonneg img).
  pose proof (len_nonneg (concat rows)). case_bool_decide; lia.
Qed.
Lemma read_signed rows c :
  fits rows →
  read_security_data_directory (signed_image rows c) = Ok (table_va rows, table_size rows).
Proof using HL. intros [? ?]%fits_u32. by apply raw_read. Qed.

Lemma append_signed rows c p :
  let w := wrap_pkcs7_der_authenticode_win_certificate p in
  Forall row_wf rows → fits (rows ++ [w]) →
  ∃ c', pe_append_authenticode_pkcs7_certificate (signed_image rows c) p
        = Ok (signed_image (rows ++ [w]) c') ∧ 0 <= c' < U32 ∧
        (opt mod 2 = 0 → pe_compute_image_checksum (signed_image (rows ++ [w]) c') = Ok c').
Proof using HL Hal.
  cbn zeta. set (w := wrap_pkcs7_der_authenticode_win_certificate p). intros Hw Hf.
  pose proof offsets. pose proof (len_nonneg w).
  assert (concat (rows ++ [w]) = concat rows ++ w) as Hcat by (rewrite concat_app; cbn; by rewrite app_nil_r).
  assert (table_size (rows ++ [w]) = table_size rows + len w) as Hsz.
  { unfold table_size. by rewrite Hcat, len_app. }
  assert (fits rows) as Hf0 by (unfold fits in *; lia).
  assert (table_va (rows ++ [w]) = len img) as Hva by (apply table_va_eq; by destruct rows).
  pose proof (len_nonneg (concat rows)) as Hnn. fold (table_size rows) in Hnn.
  unfold fits in *.
  destruct (raw_refresh (concat rows ++ w) (len img) (table_size rows + len w) c)
    as (c' & Hr & Hb & _ & He).
  exists c'. unfold signed_image at 2 3. rewrite Hcat, Hva, Hsz. split; [|done].
  unfold pe_append_authenticode_pkcs7_certificate. fold w.
  rewrite read_signed by done. cbn [mbind outcome_bind].
  unfold validate_attribute_certificate_table_alignment.
  destruct (decide (rows = [])) as [-> | Hne].
  - change (table_va []) with 0. change (table_size []) with 0 in *. cbn.
    unfold signed_image. rewrite len_raw. change (len (concat [])) with 0. rewrite Z.add_0_r.
    unfold is_multiple_of_8, ATTRIBUTE_CERTIFICATE_ALIGNMENT.
    rewrite Hal. cbn [negb Z.eqb bail_if mbind outcome_bind].
    unfold try_u32. rewrite !(proj2 (Z.ltb_lt _ U32)) by lia. cbn [ok_or mbind outcome_bind].
    rewrite raw_app, raw_write. cbn [mbind outcome_bind]. apply Hr.
  - rewrite table_va_eq by done. pose proof (rows_size_pos _ Hw Hne).
    unfold is_multiple_of_8, ATTRIBUTE_CERTIFICATE_ALIGNMENT.
    rewrite Hal, rows_size_aligned by done.
    unfold checked_add_usize, checked_add64, checked_add32, try_u32. run.
    unfold signed_image. rewrite len_raw, table_va_eq by done.
    change (len (concat rows)) with (table_size rows). run.
    rewrite raw_app, raw_write. cbn [mbind outcome_bind]. apply Hr.
Qed.

Lemma replace_signed rows c k p :
  let w := wrap_pkcs7_der_authenticode_win_certificate p in
  Forall row_wf rows → fits rows → fits (replace_nth_pkcs7 rows k w) →
  0 <= k < count_pkcs7 rows →
  ∃ c', pe_replace_authenticode_pkcs7_certificate_at (signed_image rows c) k p
        = Ok (signed_image (replace_nth_pkcs7 rows k w) c') ∧ 0 <= c' < U32 ∧
        (opt mod 2 = 0 →
         pe_compute_image_checksum (signed_image (replace_nth_pkcs7 rows k w) c') = Ok c').
Proof using HL Hal.
  cbn zeta. set (w := wrap_pkcs7_der_authenticode_win_certificate p). intros Hw Hf Hf' Hk.
  pose proof offsets. set (rows' := replace_nth_pkcs7 rows k w) in *.
  assert (rows ≠ []) as Hne by (intros ->; change (count_pkcs7 []) with 0 in Hk; lia).
  assert (rows' ≠ []) as Hne'.
  { unfold rows'. destruct rows as [|r rs]; [done|]. cbn.
    destruct (row_is_pkcs7 r); [|done]. by destruct (k =? 0). }
  pose proof (rows_size_pos _ Hw Hne). pose proof (len_nonneg (concat rows')).
  destruct (raw_refresh (concat rows') (len img) (table_size rows') c) as (c' & Hr & Hb & _ & He).
  exists c'. unfold signed_image at 2 3. rewrite !(table_va_eq rows') by done. split; [|done].
  unfold pe_replace_authenticode_pkcs7_certificate_at. fold w.
  rewrite read_signed by done. cbn [mbind outcome_bind]. rewrite table_va_eq by done.
  unfold fits in *. unfold checked_add_usize, checked_add64. run.
  unfold signed_image. rewrite !len_raw, table_va_eq by done.
  change (len (concat rows)) with (table_size rows). run.
  rewrite index_range_in; [|lia..|rewrite len_raw; unfold table_size; lia].
  cbn [mbind outcome_bind]. unfold table_size at 2. rewrite raw_tail.
  rewrite rebuild_rows by (done || lia). run. cbn [rs_replaced rs_rebuilt].
  run. fold rows'. rewrite raw_cut, raw_app, raw_write. cbn [app].
  rewrite Z.mod_small by (unfold table_size in *; lia). apply Hr.
Qed.

Lemma replace_missing rows c k p :
  Forall row_wf rows → fits rows → count_pkcs7 rows <= k →
  is_err (pe_replace_authenticode_pkcs7_certificate_at (signed_image rows c) k p) = true.
Proof using HL Hal.
  intros Hw Hf Hk. pose proof offsets. pose proof (count_nonneg rows).
  unfold pe_replace_authenticode_pkcs7_certificate_at.
  rewrite read_signed by done. cbn [mbind outcome_bind].
  destruct (decide (rows = [])) as [-> | Hne]; [done|].
  pose proof (rows_size_pos _ Hw Hne). rewrite table_va_eq by done.
  unfold fits in *. unfold checked_add_usize, checked_add64. run.
  unfold signed_image. rewrite !len_raw, table_va_eq by done.
  change (len (concat rows)) with (table_size rows). run.
  rewrite index_range_in; [|lia..|rewrite len_raw; unfold table_size; lia].
  cbn [mbind outcome_bind]. unfold table_size at 2. rewrite raw_tail.
  rewrite rebuild_rows by (done || lia). run. cbn [rs_replaced rs_rebuilt]. by run.
Qed.

Lemma remove_signed rows c :
  Forall row_wf rows → fits rows → rows ≠ [] →
  ∃ c', pe_remove_authenticode_certificates (signed_image rows c)
        = Ok (signed_image [] c', table_size rows) ∧ 0 <= c' < U32 ∧
        pe_compute_image_checksum (signed_image [] c) = Ok c' ∧
        (opt mod 2 = 0 → pe_compute_image_checksum (signed_image [] c') = Ok c').
Proof using HL Hal.
  intros Hw Hf Hne. pose proof offsets. pose proof (rows_size_pos _ Hw Hne).
  destruct (raw_refresh [] 0 0 c) as (c' & Hr & Hb & Hc & He).
  exists c'. unfold signed_image at 2 3 4. cbn [concat].
  change (table_va []) with 0. change (table_size []) with 0. split; [|done].
  unfold pe_remove_authenticode_certificates.
  rewrite read_signed by done. cbn [mbind outcome_bind]. rewrite table_va_eq by done.
  unfold fits in *. unfold checked_add_usize, checked_add64. run.
  unfold signed_image. rewrite !len_raw, table_va_eq by done.
  change (len (concat rows)) with (table_size rows). run.
  rewrite raw_cut, (sub_nil_range _ _ (len img + table_size rows)) by lia.
  rewrite app_nil_r, raw_write. cbn [mbind outcome_bind]. by rewrite Hr.
Qed.


Lemma remove_unsigned c :
  len img < U32 →
  pe_remove_authenticode_certificates (signed_image [] c) = Ok (signed_image [] c, 0).
Proof using HL Hal.
  intros. unfold pe_remove_authenticode_certificates. rewrite read_signed; [done|].
  unfold fits. change (table_size []) with 0. lia.
Qed.

Lemma wrapped_wf rows p :
  let w := wrap_pkcs7_der_authenticode_win_certificate p in w ∈ rows → fits rows → row_wf w.
Proof using.
  cbn zeta. set (w := wrap_pkcs7_der_authenticode_win_certificate p). intros Hin Hf.
  apply wrap_row_wf. rewrite <-len_wrap. fold w. pose proof (len_nonneg img).
  enough (len w <= table_size rows) by (unfold fits in Hf; lia).
  apply list_elem_of_split in Hin as (l1 & l2 & ->). unfold table_size.
  rewrite concat_app. cbn [concat]. rewrite !len_app.
  pose proof (len_nonneg (concat l1)). pose proof (len_nonneg (concat l2)). lia.
Qed.

(** An unsigned image is itself represented, by no rows. *)
Lemma unsigned_represented :
  read_security_data_directory img = Ok (0, 0) →
  img = signed_image [] (from_le (sub img (opt + 64) (opt + 68))).
Proof using HL.
  intros Hr. pose proof offsets. rewrite (layout_read _ _ _ _ _ HL) in Hr.
  injection Hr as Hva Hsz. unfold signed_image, raw_image. cbn [concat]. rewrite app_nil_r.
  change (table_va []) with 0. change (table_size []) with 0.
  assert (set_dir img dd 0 0 = img) as ->.
  { unfold set_dir. rewrite (patch_id img dd).
    - apply patch_id; rewrite ?len_to_le; [lia..|].
      change (Z.of_nat 4) with 4. replace (dd + 4 + 4) with (dd + 8) by lia. rewrite <-Hsz.
      symmetry. apply to_from_le. pose proof (len_sub img (dd + 4) (dd + 8)). unfold len in *. lia.
    - lia.
    - rewrite len_to_le. lia.
    - rewrite len_to_le, <-Hva. symmetry. apply to_from_le. change (Z.of_nat 4) with 4.
      pose proof (len_sub img dd (dd + 4)). unfold len in *. lia. }
  unfold set_sum. symmetry. apply patch_id; rewrite ?len_to_le; [lia..|].
  change (Z.of_nat 4) with 4. replace (opt + 64 + 4) with (opt + 68) by lia.
  symmetry. apply to_from_le. pose proof (len_sub img (opt + 64) (opt + 68)). unfold len in *. lia.
Qed.
Lemma read_checksum_raw T va size c :
  0 <= c < U32 → pe_read_image_checksum (raw_image T va size c) = Ok c.
Proof using HL.
  intros Hc. pose proof offsets. pose proof (len_nonneg T). unfold pe_read_image_checksum.
  rewrite (checksum_offset_eq _ _ _ _ _ (raw_layout T va size c)). cbn [mbind outcome_bind].
  rewrite index_range_in by (rewrite ?len_raw; lia). cbn [mbind outcome_bind].
  unfold raw_image, set_sum. replace (opt + 64 + 4) with (opt + 64 + len (to_le 4 c))
    by (rewrite len_to_le; lia).
  rewrite sub_patch_same; [by rewrite from_to_le_small by lia|lia|].
  rewrite len_to_le, len_set_dir; rewrite ?len_app; lia.
Qed.
End Refinement.

(** ** The certificate table as an abstract machine

    The state is the list of certificate rows; the three operations the tool
    offers act on it. [run_spec] is defined as long as the result fits the
    32-bit fields of the security directory and a replacement finds its entry. *)
Inductive cert_op :=
  | Append (pkcs7_der : bytes)
  | Replace (pkcs7_index : Z) (pkcs7_der : bytes)
  | Remove.

Definition wrap := wrap_pkcs7_der_authenticode_win_certificate.

Definition spec_op (img : bytes) (op : cert_op) (rows : list bytes) : option (list bytes) :=
  rows' ← match op with
          | Append p => Some (rows ++ [wrap p])
          | Replace k p =>
              if (0 <=? k) && (k <? count_pkcs7 rows)
              then Some (replace_nth_pkcs7 rows k (wrap p)) else None
          | Remove => Some []
          end;
  if len img + table_size rows' <? U32 then Some rows' else None.
Fixpoint run_spec (img : bytes) (ops : list cert_op) (rows : list bytes) : option (list bytes) :=
  match ops with
  | [] => Some rows
  | op :: ops' => rows' ← spec_op img op rows; run_spec img ops' rows'
  end.

Definition exec_op (op : cert_op) (file : bytes) : outcome bytes :=
  match op with
  | Append p => pe_append_authenticode_pkcs7_certificate file p
  | Replace k p => pe_replace_authenticode_pkcs7_certificate_at file k p
  | Remove => '(file', _) ← pe_remove_authenticode_certificates file; Ok file'
  end.
Fixpoint exec (ops : list cert_op) (file : bytes) : outcome bytes :=
  match ops with
  | [] => Ok file
  | op :: ops' => file' ← exec_op op file; exec ops' file'
  end.

(** The stored checksum is the file's own. *)
Definition checksum_valid (file : bytes) : Prop :=
  pe_read_image_checksum file = pe_compute_image_checksum file.

Section Machine.
Context (img : bytes) (opt magic dd num : Z).
Context (HL : pe_layout img opt magic dd num).
Context (Hal : len img mod 8 = 0).

Definition represents (rows : list bytes) (file : bytes) : Prop :=
  ∃ c, file = signed_image img opt dd rows c.
Definition table_wf (rows : list bytes) : Prop :=
  Forall row_wf rows ∧ len img + table_size rows < U32.

Lemma exec_op_refines op rows rows' file :
  table_wf rows → represents rows file → spec_op img op rows = Some rows' →
  table_wf rows' ∧ ∃ file', exec_op op file = Ok file' ∧ represents rows' file' ∧
    (opt mod 2 = 0 → checksum_valid file → checksum_valid file').
Proof using HL Hal.
  intros [Hw Hf] [c ->]. unfold spec_op.
  intros (r & Hop & Hfit)%bind_Some.
  destruct (_ <? U32) eqn:E in Hfit; [|done]. injection Hfit as ->. zbool.
  assert (∀ c', 0 <= c' < U32 → (opt mod 2 = 0 →
    pe_compute_image_checksum (signed_image img opt dd rows' c') = Ok c') →
    opt mod 2 = 0 → checksum_valid (signed_image img opt dd rows' c')) as Hck.
  { intros c' ? Hev ?. unfold checksum_valid. rewrite Hev by done.
    by apply (read_checksum_raw _ _ _ _ _ HL). }
  destruct op as [p|k p|]; cbn [exec_op].
  - injection Hop as <-.
    destruct (append_signed img opt magic dd num HL Hal rows c p) as (c' & Heq & ? & ?);
      [done..|]. split.
    + split; [|done]. apply Forall_app_2; [done|]. constructor; [|done].
      eapply (wrapped_wf img); [|by unfold fits].
      apply elem_of_app. right. by apply list_elem_of_singleton.
    + eexists. split; [apply Heq|]. split; [by eexists|]. intros. by apply Hck.
  - destruct (_ && _) eqn:Ek; [|done]. injection Hop as <-. zbool.
    destruct (replace_signed img opt magic dd num HL Hal rows c k p) as (c' & Heq & ? & ?);
      [done..|]. split.
    + split; [|done]. apply replace_nth_wf; [done|].
      eapply (wrapped_wf img); [by apply replace_nth_elem|by unfold fits].
    + eexists. split; [apply Heq|]. split; [by eexists|]. intros. by apply Hck.
  - injection Hop as <-. split; [by split|].
    destruct (decide (rows = [])) as [-> | Hne].
    + rewrite (remove_unsigned img opt magic dd num) by (done || change (table_size []) with 0 in *; lia).
      eexists. split; [done|]. split; [by eexists|done].
    + destruct (remove_signed img opt magic dd num HL Hal rows c) as (c' & Heq & ? & _ & ?); [done..|].
      rewrite Heq. eexists. split; [done|]. split; [by eexists|]. intros. by apply Hck.
Qed.
End Machine.

(** ** No operation panics *)

Lemma index_le_not_panic (pe : bytes) s n : 0 <= s → 0 <= n → (len pe <? s + n) = false →
  index_range pe s (s + n) ≠ Panic.
Proof. intros. zbool. apply index_range_not_panic; lia. Qed.
Lemma header_not_panic pe : pe_optional_header_start pe ≠ Panic.
Proof.
  unfold pe_optional_header_start. nopanic; (apply index_le_not_panic; [|lia|done]); [by vm_compute|].
  apply index_range_Ok in E1 as (_ & _ & _ & ->).
  pose proof (from_le_range (sub pe PE_OFFSET (PE_OFFSET + 4))). lia.
Qed.
Lemma slot_not_panic opt magic :
  data_directory_entry_offset opt magic ≠ Panic ∧ number_of_rva_and_sizes_offset opt magic ≠ Panic.
Proof. unfold data_directory_entry_offset, number_of_rva_and_sizes_offset. split; nopanic. Qed.
Lemma slot_range opt magic n :
  24 <= opt → data_directory_entry_offset opt magic = Ok n ∨
    number_of_rva_and_sizes_offset opt magic = Ok n → 0 <= n.
Proof.
  unfold data_directory_entry_offset, number_of_rva_and_sizes_offset, IMAGE_DIRECTORY_ENTRY_SECURITY.
  destruct (_ =? PE32_MAGIC); [|destruct (_ =? PE32PLUS_MAGIC)];
    cbn [mbind outcome_bind]; intros ? [[=]|[=]]; lia.
Qed.
Ltac slot_pos :=
  match goal with
  | H : data_directory_entry_offset _ _ = Ok ?n |- _ =>
      assert (0 <= n) by (eapply slot_range; [|by left]; done)
  end.
Lemma read_dir_not_panic pe : read_security_data_directory pe ≠ Panic.
Proof.
  unfold read_security_data_directory. nopanic; try apply slot_not_panic; [apply header_not_panic|..];
    apply header_opt_range in E as (? & _).
  - apply index_le_not_panic; [|lia|done]. eapply slot_range; eauto.
  - zbool. slot_pos. apply index_range_not_panic; lia.
  - zbool. slot_pos. apply index_range_not_panic; lia.
Qed.
Lemma write_dir_not_panic pe va size : write_security_data_directory pe va size ≠ Panic.
Proof.
  unfold write_security_data_directory. nopanic; try apply slot_not_panic; [apply header_not_panic|..];
    apply header_opt_range in E as (? & _); zbool;
    slot_pos.
  - apply write_at_not_panic; rewrite ?len_to_le; lia.
  - apply write_at_Ok in E2 as (_ & _ & ->).
    apply write_at_not_panic; rewrite ?len_patch; rewrite ?len_to_le; lia.
Qed.
Lemma checksum_offset_range pe off :
  pe_checksum_field_file_offset pe = Ok off → 0 <= off ∧ off + 4 <= len pe.
Proof.
  unfold pe_checksum_field_file_offset, OPTIONAL_HEADER_CHECKSUM_OFFSET. intros H.
  apply bind_Ok in H as ([opt magic] & Hh & H). apply header_opt_range in Hh as (? & _).
  inv_ok H. zbool. lia.
Qed.
Lemma checksum_offset_not_panic pe : pe_checksum_field_file_offset pe ≠ Panic.
Proof. unfold pe_checksum_field_file_offset. nopanic. apply header_not_panic. Qed.
Lemma compute_checksum_not_panic pe : pe_compute_image_checksum pe ≠ Panic.
Proof.
  destruct (pe_checksum_field_file_offset pe) as [off|e|] eqn:E.
  - destruct (checksum_total _ _ E) as (c & -> & _). done.
  - unfold pe_compute_image_checksum. by rewrite E.
  - by apply checksum_offset_not_panic in E.
Qed.
Lemma refresh_not_panic pe : pe_refresh_image_checksum pe ≠ Panic.
Proof.
  unfold pe_refresh_image_checksum, pe_write_image_checksum.
  nopanic; [apply compute_checksum_not_panic|apply checksum_offset_not_panic|].
  apply checksum_offset_range in E0. apply write_at_not_panic; rewrite ?len_to_le; lia.
Qed.
Lemma validate_not_panic va size : validate_attribute_certificate_table_alignment va size ≠ Panic.
Proof. unfold validate_attribute_certificate_table_alignment. nopanic. Qed.
Lemma rebuild_not_panic table repl k : rebuild_certificate_table table repl k ≠ Panic.
Proof.
  unfold rebuild_certificate_table. destruct (rebuild_terminates table repl k) as [r Hr].
  rewrite Hr. cbn [unwrap mbind outcome_bind].
  refine (loop_inv _ (λ _, True) (λ r, r ≠ Panic) _ _ _ _ _ I Hr); [done|].
  intros s r'. unfold replace_step.
  repeat (case_match; try discriminate); by intros _ [= <-].
Qed.
Lemma read_dir_nonneg pe va size : read_security_data_directory pe = Ok (va, size) → 0 <= va ∧ 0 <= size.
Proof.
  intros (opt & magic & dd & num & _ & -> & ->)%read_layout.
  split; eapply from_le_range.
Qed.
#[local] Hint Resolve read_dir_not_panic write_dir_not_panic refresh_not_panic validate_not_panic
  rebuild_not_panic : psign.

Lemma remove_not_panic pe : pe_remove_authenticode_certificates pe ≠ Panic.
Proof. unfold pe_remove_authenticode_certificates, checked_add_usize. nopanic. Qed.

(** A minimal PE32 image for the witnesses: 240 bytes, sixteen directories. *)
Definition test_pe : bytes :=
  let z n := replicate n (byte_of 0) in
  lit "MZ" ++ z 58%nat ++ to_le 4 64 ++ lit "PE" ++ z 22%nat
  ++ to_le 2 PE32_MAGIC ++ z 62%nat ++ z 4%nat ++ z 24%nat ++ to_le 4 5 ++ z 56%nat.
Lemma test_pe_layout : pe_layout test_pe 88 PE32_MAGIC 216 180.
Proof. split; [by vm_compute|split; by vm_compute|vm_compute; discriminate|by vm_compute]. Defined.
Definition test_img : bytes := set_sum test_pe 88 (ltac:(let c := eval vm_compute in
  (match pe_compute_image_checksum test_pe with Ok c => c | _ => 0 end) in exact c)).
Lemma test_img_layout : pe_layout test_img 88 PE32_MAGIC 216 180.
Proof. split; [by vm_compute|split; by vm_compute|vm_compute; discriminate|by vm_compute]. Defined.

(** ** Properties *)

(** C1: The functional refinement of the certificate table. Starting from a
    file that represents a list of well-formed rows over an aligned image, any
    sequence of append, replace and remove that the abstract table admits is
    executed without error, the result represents exactly the table the
    abstract machine reaches (the image's bytes outside the security directory
    and the checksum are untouched), and a valid checksum stays valid when the
    optional header is at an even offset. *)
Theorem certificate_ops_refine img opt magic dd num ops rows rows' file :
  pe_layout img opt magic dd num → len img mod 8 = 0 →
  table_wf img rows → represents img opt dd rows file → run_spec img ops rows = Some rows' →
  ∃ file', exec ops file = Ok file' ∧ represents img opt dd rows' file' ∧ table_wf img rows' ∧
    (opt mod 2 = 0 → checksum_valid file → checksum_valid file').
Proof.
  intros HL Hal. revert rows file. induction ops as [|op ops IH]; intros rows file Hw Hr; cbn.
  - intros [= <-]. by exists file.
  - intros (r & Hop & Hrun)%bind_Some.
    destruct (exec_op_refines _ _ _ _ _ HL Hal _ _ _ _ Hw Hr Hop) as (Hw' & f & Hf & Hr' & Hc).
    rewrite Hf. cbn [mbind outcome_bind].
    destruct (IH _ _ Hw' Hr' Hrun) as (f' & ? & ? & ? & ?). exists f'. naive_solver.
Qed.
Lemma certificate_ops_refine_witness :
  let ops := [Append (lit "first"); Append (lit "second!!!"); Replace 1 (lit "again"); Remove;
              Append (lit "last")] in
  ∃ file', exec ops test_img = Ok file' ∧
    represents test_img 88 216 [wrap (lit "last")] file' ∧
    table_wf test_img [wrap (lit "last")] ∧ (88 mod 2 = 0 → checksum_valid test_img → checksum_valid file').
Proof.
  apply (certificate_ops_refine test_img 88 PE32_MAGIC 216 180 _ []);
    [exact test_img_layout|by vm_compute|split; [by constructor|by vm_compute]| |by vm_compute].
  exists (from_le (sub test_img 152 156)).
  apply (unsigned_represented test_img 88 PE32_MAGIC 216 180); [exact test_img_layout|by vm_compute].
Defined.

(** Replacing a PKCS#7 entry that is not there is an error, and so is any
    replacement in an unsigned file: the file is never rewritten. *)
Theorem replace_missing_entry img opt magic dd num rows file k p :
  pe_layout img opt magic dd num → len img mod 8 = 0 →
  table_wf img rows → represents img opt dd rows file → count_pkcs7 rows <= k →
  is_err (pe_replace_authenticode_pkcs7_certificate_at file k p) = true.
Proof. intros HL Hal [? ?] [c ->] ?. by eapply replace_missing. Qed.
Lemma replace_missing_entry_witness :
  is_err (pe_replace_authenticode_pkcs7_certificate_at
    (signed_image test_img 88 216 [wrap (lit "one")] 5) 1 (lit "x")) = true.
Proof.
  apply (replace_missing_entry test_img 88 PE32_MAGIC 216 180 [wrap (lit "one")]);
    [exact test_img_layout|by vm_compute| |by eexists|vm_compute; discriminate].
  split; [|by vm_compute]. constructor; [|by constructor].
  split; [vm_compute; discriminate|split; by vm_compute].
Defined.

(** Signing and stripping is the identity: appending a signature to an
    unsigned, aligned image with a valid checksum and removing all signatures
    returns the image byte for byte, and reports the size removed. *)
Theorem sign_strip_roundtrip img opt magic dd num p :
  pe_layout img opt magic dd num → len img mod 8 = 0 → opt mod 2 = 0 →
  read_security_data_directory img = Ok (0, 0) → checksum_valid img →
  len img + len (wrap p) < U32 →
  ∃ signed, pe_append_authenticode_pkcs7_certificate img p = Ok signed ∧
    pe_remove_authenticode_certificates signed = Ok (img, len (wrap p)).
Proof.
  intros HL Hal Hev Hr Hck Hfit.
  pose proof (unsigned_represented _ _ _ _ _ HL Hr) as Himg.
  pose proof (from_le_range (sub img (opt + 64) (opt + 68))) as Hc0.
  pose proof (offsets _ _ _ _ _ HL). rewrite len_sub in Hc0 by lia.
  replace (8 * (opt + 68 - (opt + 64))) with 32 in Hc0 by lia. set (c0 := from_le _) in *.
  assert (table_size [wrap p] = len (wrap p)) as Hsz
    by (unfold table_size; cbn; by rewrite app_nil_r).
  assert (fits img [wrap p]) as Hf by (unfold fits; lia).
  destruct (append_signed img opt magic dd num HL Hal [] c0 p) as (c & Happ & ? & _);
    [by constructor|done|].
  rewrite <-Himg in Happ. eexists. split; [apply Happ|].
  destruct (remove_signed img opt magic dd num HL Hal [wrap p] c) as (c' & Hrem & ? & Hcc & _).
  - constructor; [|done]. eapply (wrapped_wf img); [|done]. by apply list_elem_of_singleton.
  - done.
  - done.
  - enough (c' = c0) as -> by (rewrite <-Hsz; etrans; [apply Hrem|]; by rewrite <-Himg).
    assert (pe_compute_image_checksum img = Ok c') as Hcc'.
    { rewrite <-Hcc. trans (pe_compute_image_checksum (signed_image img opt dd [] c0));
        [by rewrite <-Himg|]. unfold signed_image.
      rewrite <-(raw_set_sum img opt magic dd num HL _ _ _ c c0).
      apply (checksum_field_irrelevant _ opt magic dd num); [by apply raw_layout|done]. }
    assert (pe_read_image_checksum img = Ok c0).
    { rewrite Himg. apply (read_checksum_raw img opt magic dd num HL). lia. }
    red in Hck. congruence.
Qed.
Lemma sign_strip_roundtrip_witness :
  ∃ signed, pe_append_authenticode_pkcs7_certificate test_img (lit "signature") = Ok signed ∧
    pe_remove_authenticode_certificates signed = Ok (test_img, len (wrap (lit "signature"))).
Proof.
  apply (sign_strip_roundtrip test_img 88 PE32_MAGIC 216 180);
    [exact test_img_layout|by vm_compute..].
Defined.

(** Preparing an unsigned PE pads it with fewer than eight zero bytes to an
    8-byte boundary, keeps its headers, and is idempotent; the prepared file
    can then be signed whenever the result fits 32-bit offsets. *)
Theorem prepare_then_append pe p :
  read_security_data_directory pe = Ok (0, 0) → len pe + 8 + len (wrap p) < U32 →
  ∃ pad pe', pe_prepare_for_authenticode_signing pe = Ok pe' ∧
    pe' = pe ++ replicate pad (byte_of 0) ∧ (pad < 8)%nat ∧ len pe' mod 8 = 0 ∧
    pe_prepare_for_authenticode_signing pe' = Ok pe' ∧
    is_ok (pe_append_authenticode_pkcs7_certificate pe' p) = true.
Proof.
  intros Hr Hfit. pose proof (len_nonneg pe). pose proof (len_nonneg (wrap p)).
  destruct (read_layout _ _ _ Hr) as (opt & magic & dd & num & HL & _).
  pose proof (layout_offsets _ _ _ _ _ HL).
  set (pad := Z.to_nat ((8 - len pe mod 8) mod 8)). set (pe' := pe ++ replicate pad (byte_of 0)).
  assert (len pe' = len pe + (8 - len pe mod 8) mod 8) as Hl'.
  { unfold pe', pad. rewrite len_app, len_replicate. lia. }
  assert (len pe' mod 8 = 0) as Hal by lia.
  assert (pe_layout pe' opt magic dd num) as HL' by by apply layout_app.
  assert (read_security_data_directory pe' = Ok (0, 0)) as Hr'.
  { rewrite <-Hr, (layout_read _ _ _ _ _ HL), (layout_read _ _ _ _ _ HL').
    unfold pe'. by rewrite !sub_app_l by lia. }
  exists pad, pe'. unfold pe_prepare_for_authenticode_signing at 1 2. rewrite Hr, Hr'.
  unfold validate_attribute_certificate_table_alignment, checked_add_usize, checked_add64,
    ATTRIBUTE_CERTIFICATE_ALIGNMENT. run.
  split; [unfold pe', pad; do 3 f_equal; lia|]. split; [done|]. split; [lia|]. split; [done|].
  split.
  - f_equal. replace (Z.to_nat _) with 0%nat by lia. apply app_nil_r.
  - destruct (append_signed pe' opt magic dd num HL' Hal [] (from_le (sub pe' (opt + 64) (opt + 68))) p)
      as (c & Happ & _); [by constructor| |].
    + unfold fits, table_size. cbn. rewrite app_nil_r. unfold wrap in *. lia.
    + rewrite <-(unsigned_represented _ _ _ _ _ HL' Hr') in Happ. by rewrite Happ.
Qed.
Lemma prepare_then_append_witness :
  ∃ pad pe', pe_prepare_for_authenticode_signing (test_pe ++ lit "abc") = Ok pe' ∧
    pe' = (test_pe ++ lit "abc") ++ replicate pad (byte_of 0) ∧ (pad < 8)%nat ∧ len pe' mod 8 = 0 ∧
    pe_prepare_for_authenticode_signing pe' = Ok pe' ∧
    is_ok (pe_append_authenticode_pkcs7_certificate pe' (lit "sig")) = true.
Proof. apply (prepare_then_append (test_pe ++ lit "abc") (lit "sig")); by vm_compute. Defined.

(** No malformed PE makes an operation panic: prepare, append, replace,
    remove, the checksum and the alignment check return [Ok] or an error on
    every byte string, however its offsets and sizes are chosen. *)
Theorem pe_operations_never_panic pe p k :
  pe_prepare_for_authenticode_signing pe ≠ Panic ∧
  pe_append_authenticode_pkcs7_certificate pe p ≠ Panic ∧
  pe_replace_authenticode_pkcs7_certificate_at pe k p ≠ Panic ∧
  pe_remove_authenticode_certificates pe ≠ Panic ∧
  pe_compute_image_checksum pe ≠ Panic ∧
  pe_validate_attribute_certificate_table_alignment pe ≠ Panic.
Proof.
  unfold pe_prepare_for_authenticode_signing, pe_append_authenticode_pkcs7_certificate,
    pe_replace_authenticode_pkcs7_certificate_at, pe_remove_authenticode_certificates,
    pe_validate_attribute_certificate_table_alignment, checked_add_usize.
  repeat split; nopanic; try apply compute_checksum_not_panic.
  apply read_dir_nonneg in E as [? ?]. unfold checked_add64 in E1. case_match; [|done].
  simplify_eq. zbool. apply index_range_not_panic; lia.
Qed.

(** The checksum skips its own field only when the field is 16-bit
    aligned: with the optional header at an odd offset the stored value takes
    part in the sum, and a refreshed image does not carry its own checksum. *)
Theorem odd_offset_checksum_unstable :
  ∃ pe pe', pe_layout pe 89 PE32_MAGIC 217 181 ∧ pe_refresh_image_checksum pe = Ok pe' ∧
    ¬ checksum_valid pe'.
Proof.
  pose (pe := patch (sub test_pe 0 64 ++ [byte_of 0] ++ sub test_pe 64 240) 60 (to_le 4 65)).
  exists pe. eexists. split.
  - split; [by vm_compute|split; by vm_compute|vm_compute; discriminate|by vm_compute].
  - split; [vm_compute; reflexivity|]. unfold checksum_valid. vm_compute. discriminate.
Qed.
