(* ===== verification/PeSign.v ===== *)
(** Signing a PE leaves its Authenticode digest alone: the certificate table of
    [PeEmbed] against the digest ranges of [PeDigest]. *)

From S2P Require Import Prelude.
From S2P Require Import PeDigest.
From S2P Require Import PeEmbed.

(** The view the PE parser (crates [object] and [authenticode]) has of the file
    a list of certificate rows represents: the header offsets, the end [h] of
    the headers and the section ranges [secs] are those of the image; [cr rows]
    is the certificate table range it reads from the security directory, [None]
    or an empty range for an unsigned file. *)
Section SignedDigest.
Context (img : bytes) (opt magic dd num h : Z) (secs : list (Z * Z)).
Context (HL : pe_layout img opt magic dd num).
Context (Hh : dd + 8 <= h) (Hhl : h <= len img).
Context (Hsecs : Forall (λ r : Z * Z, h <= r.1 ∧ r.1 <= r.2 ∧ r.2 <= len img) secs).
Context (cr : list bytes → option (Z * Z)).
Context (Hcr : ∀ rows, match cr rows with
                       | None => rows = []
                       | Some (s, e) => e - s = table_size rows
                       end).

Definition signed_view (rows : list bytes) (c : Z) : PeView :=
  whole_view (mk_PeOffsets (opt + 64) (opt + 68) dd (dd + 8) h) secs (cr rows)
    (signed_image img opt dd rows c).

(** A range outside the checksum and the security directory. *)
Definition untouched (r : Z * Z) : Prop :=
  0 <= r.1 ∧ r.2 <= len img ∧ (r.2 <= opt + 64 ∨ opt + 68 <= r.1) ∧ (r.2 <= dd ∨ dd + 8 <= r.1).

Ltac all_untouched :=
  repeat (apply Forall_cons_2; [unfold untouched; cbn [fst snd]; lia|]); apply Forall_nil_2.

Lemma sub_signed rows c r :
  untouched r → sub (signed_image img opt dd rows c) r.1 r.2 = sub img r.1 r.2.
Proof using HL.
  intros (? & ? & ? & ?). pose proof (offsets _ _ _ _ _ HL).
  pose proof (len_nonneg (concat rows)). unfold signed_image, raw_image.
  assert (len (img ++ concat rows) = len img + len (concat rows)) by apply len_app.
  assert (len (set_dir (img ++ concat rows) dd (table_va img rows) (table_size rows))
          = len img + len (concat rows)) by (rewrite len_set_dir by lia; done).
  rewrite sub_set_sum, sub_set_dir, sub_app_l by lia. done.
Qed.
Lemma bytes_signed rows c rs :
  Forall untouched rs → bytes_of_ranges (signed_image img opt dd rows c) rs = bytes_of_ranges img rs.
Proof using HL.
  unfold bytes_of_ranges. induction 1 as [|r rs Hr _ IH]; [done|].
  cbn. rewrite sub_signed by done. f_equal. apply IH.
Qed.

Lemma insert_by_start_elem r rs x : x ∈ insert_by_start r rs ↔ x = r ∨ x ∈ rs.
Proof using.
  clear. induction rs as [|r' rs IH]; cbn; [by rewrite list_elem_of_singleton, elem_of_nil; tauto|].
  destruct (_ <=? _); rewrite !elem_of_cons, ?IH; tauto.
Qed.
Lemma sort_by_start_elem rs x : x ∈ sort_by_start rs ↔ x ∈ rs.
Proof using.
  clear. induction rs as [|r rs IH]; [done|].
  change (sort_by_start (r :: rs)) with (insert_by_start r (sort_by_start rs)).
  rewrite insert_by_start_elem, elem_of_cons, IH. tauto.
Qed.

(** The section loop over either file. *)
Lemma hash_sections_signed rows c rs sum acc :
  Forall (λ r : Z * Z, h <= r.1 ∧ r.1 <= r.2 ∧ r.2 <= len img) rs →
  hash_sections (signed_image img opt dd rows c) rs sum acc = hash_sections img rs sum acc ∧
  (h <= sum → Forall untouched acc → ∀ sum' acc',
    hash_sections img rs sum acc = Ok (sum', acc') → h <= sum' ∧ Forall untouched acc').
Proof using HL Hh.
  pose proof (offsets _ _ _ _ _ HL).
  intros Hrs. revert sum acc. induction Hrs as [|r rs Hr Hrs IH]; intros sum acc.
  - split; [done|]. cbn. by intros ? ? ? ? [= <- <-].
  - pose proof (len_raw img opt magic dd num HL (concat rows) (table_va img rows) (table_size rows) c) as Hl.
    fold (signed_image img opt dd rows c) in Hl. pose proof (len_nonneg (concat rows)).
    assert (untouched r) by (unfold untouched; lia).
    cbn [hash_sections]. rewrite !get_range_in by lia. rewrite sub_signed by done.
    cbn [ok_or mbind outcome_bind]. rewrite len_sub by lia.
    destruct (checked_add64 sum (r.2 - r.1)) as [s|] eqn:E; cbn [ok_or mbind outcome_bind]; [|done].
    destruct (IH s (acc ++ [r])) as [-> IH']. split; [done|]. intros Hs Ha. apply IH'.
    + unfold checked_add64 in E. destruct (_ <? _); [|done].
      injection E as <-. lia.
    + apply Forall_app_2; [done|]. by constructor.
Qed.

Lemma ranges_signed rows c :
  authenticode_digest_file_ranges (signed_view rows c) =
  authenticode_digest_file_ranges
    (whole_view (mk_PeOffsets (opt + 64) (opt + 68) dd (dd + 8) h) secs None img) ∧
  ∀ rs, authenticode_digest_file_ranges (signed_view rows c) = Ok rs → Forall untouched rs.
Proof using HL Hh Hhl Hsecs Hcr.
  pose proof (offsets _ _ _ _ _ HL).
  assert (Forall (λ r : Z * Z, h <= r.1 ∧ r.1 <= r.2 ∧ r.2 <= len img) (sort_by_start secs)) as Hs.
  { apply Forall_forall. intros x Hx.
    apply (proj1 (sort_by_start_elem _ _)) in Hx. exact (proj1 (Forall_forall _ _) Hsecs x Hx). }
  unfold authenticode_digest_file_ranges, signed_view, whole_view.
  cbn [check_sum after_check_sum security_data_dir after_security_data_dir after_header
       pe_offsets section_data_ranges certificate_table_range pe_data].
  rewrite mapM_id_Some.
  cbn [ok_or mbind outcome_bind check_sum after_check_sum security_data_dir
       after_security_data_dir after_header].
  destruct (hash_sections_signed rows c (sort_by_start secs) h
    [(0, opt + 64); (opt + 68, dd); (dd + 8, h)] Hs) as [-> Hok].
  assert (len (signed_image img opt dd rows c) = len img + table_size rows) as Hl
    by apply (len_raw img opt magic dd num HL).
  pose proof (len_nonneg (concat rows)). fold (table_size rows) in *.
  destruct (hash_sections img _ h _) as [[sum acc]|e|] eqn:E; cbn [mbind outcome_bind]; [|done..].
  destruct (Hok ltac:(lia) ltac:(all_untouched) _ _ eq_refl) as [Hsum Hacc].
  rewrite Hl. unfold checked_sub, checked_add64.
  specialize (Hcr rows). destruct (cr rows) as [[s e]|].
  - destruct (decide (sum <= len img)).
    + run. replace (len img + table_size rows - sum - (e - s)) with (len img - sum) by lia.
      replace (sum + (len img - sum)) with (len img) by lia.
      destruct (len img <? U64); cbn [ok_or mbind outcome_bind]; [|done].
      rewrite !get_range_in by lia. cbn [ok_or mbind outcome_bind]. split; [done|].
      intros rs [= <-]. apply Forall_app_2; [done|]. all_untouched.
    + destruct (len img + table_size rows <? sum) eqn:E1; run; done.
  - subst rows. change (table_size []) with 0 in *. rewrite Z.add_0_r.
    destruct (len img <? sum) eqn:E1; cbn [ok_or mbind outcome_bind]; [done|]. zbool.
    replace (sum + (len img - sum)) with (len img) by lia.
    destruct (len img <? U64); cbn [ok_or mbind outcome_bind]; [|done].
    rewrite !get_range_in by lia. cbn [ok_or mbind outcome_bind]. split; [done|].
    intros rs [= <-]. apply Forall_app_2; [done|]. all_untouched.
Qed.
End SignedDigest.

(** C2: The Authenticode digest ignores the certificate table: over a file
    signed with any rows and any checksum, the digest ranges are computed, or
    refused, exactly as over the unsigned image, and the bytes they select are
    the unsigned image's, so every hash over them is unchanged by signing. *)
Theorem signing_preserves_digest `{DigestOracle} img opt magic dd num h secs cr rows c :
  pe_layout img opt magic dd num → dd + 8 <= h → h <= len img →
  Forall (λ r : Z * Z, h <= r.1 ∧ r.1 <= r.2 ∧ r.2 <= len img) secs →
  (∀ rows, match cr rows with None => rows = [] | Some (s, e) => e - s = table_size rows end) →
  let signed := signed_view img opt dd h secs cr rows c in
  let unsigned := whole_view (mk_PeOffsets (opt + 64) (opt + 68) dd (dd + 8) h) secs None img in
  authenticode_digest_file_ranges signed = authenticode_digest_file_ranges unsigned ∧
  ∀ rs k, authenticode_digest_file_ranges signed = Ok rs →
    digest k (bytes_of_ranges (pe_data signed) rs) = digest k (bytes_of_ranges img rs).
Proof.
  cbn zeta. intros HL Hh Hhl Hsecs Hcr.
  destruct (ranges_signed _ _ _ _ _ _ _ HL Hh Hhl Hsecs cr Hcr rows c) as [Heq Hun].
  split; [done|]. intros rs k Hrs. f_equal. cbn [pe_data signed_view].
  apply (bytes_signed img opt magic dd num HL). by apply Hun.
Qed.
Lemma signing_preserves_digest_witness :
  let cr rows := if bool_decide (rows = []) then None else Some (240, 240 + table_size rows) in
  let signed := signed_view test_img 88 216 228 [(232, 240); (228, 232)] cr [wrap (lit "sig")] 9 in
  let unsigned := whole_view (mk_PeOffsets 152 156 216 224 228) [(232, 240); (228, 232)] None test_img in
  authenticode_digest_file_ranges signed = authenticode_digest_file_ranges unsigned ∧
  ∀ rs k, authenticode_digest_file_ranges signed = Ok rs →
    @digest ToyDigest k (bytes_of_ranges (pe_data signed) rs) =
    @digest ToyDigest k (bytes_of_ranges test_img rs).
Proof.
  cbn zeta. apply (@signing_preserves_digest ToyDigest test_img 88 PE32_MAGIC 216 180 228 _ _ _ 9).
  - exact test_img_layout.
  - lia.
  - vm_compute. discriminate.
  - repeat constructor; vm_compute; discriminate.
  - intros rows. case_bool_decide; [done|lia].
Defined.
