(* ===== verification/PeFile.v ===== *)
(** PE files as the digest and verification code sees them: parsing and digest
    of [crates/psign-sip-digest/src/pe_digest.rs], and the interface
    [PeCrates] of the crates [object] and [authenticode] it is written on. *)

From S2P Require Import Prelude.
From S2P Require Import PeDigest.
From S2P Require Import RustStr.

(** [object::read::FileKind]: the two PE kinds, and all others. *)
Inductive FileKind := KindPe32 | KindPe64 | KindOther.

(** A row of the certificate table as the [authenticode] crate yields it. *)
Record AttributeCertificate := mk_attr { certificate_type : Z; attr_data : bytes }.

(** What the code relies on of the two crates.  [attribute_certificates] is
    [AttributeCertificateIterator::new]: [None] where the table lies outside
    the file, [Some None] where there is no table, otherwise the entries the
    iterator yields, [None] for a malformed one.  [authenticode_digest] gives
    the bytes the crate feeds to the hasher; they are documented (and tested
    in [pe_digest.rs]) to be those of the digest ranges. *)
Class PeCrates := {
  file_kind : bytes → option FileKind;
  pe_file32 : bytes → option PeView;
  pe_file64 : bytes → option PeView;
  attribute_certificates : PeView → option (option (list (option AttributeCertificate)));
  authenticode_digest : PeView → option bytes;
  pe_file32_data bs pe : pe_file32 bs = Some pe → pe_data pe = bs;
  pe_file64_data bs pe : pe_file64 bs = Some pe → pe_data pe = bs;
  authenticode_digest_of_ranges pe :
    authenticode_digest pe =
    bytes_of_ranges (pe_data pe) <$> ok_opt (authenticode_digest_file_ranges pe) }.

Inductive ParsedPe := Pe32 (p : PeView) | Pe64 (p : PeView).

Definition parse_pe `{PeCrates} (bs : bytes) : outcome ParsedPe :=
  kind ← ok_or (file_kind bs) "not a PE image: {e}";
  match kind with
  | KindPe32 => p ← ok_or (pe_file32 bs) "PE32 parse failed: {e}"; Ok (Pe32 p)
  | KindPe64 => p ← ok_or (pe_file64 bs) "PE32+ parse failed: {e}"; Ok (Pe64 p)
  | KindOther => Err "expected PE32 or PE32+ file, got {:?}"
  end.
Definition as_pe_trait (p : ParsedPe) : PeView := match p with Pe32 p | Pe64 p => p end.

Definition pe_authenticode_digest_file_ranges `{PeCrates} (image : bytes)
    : outcome (list (Z * Z)) :=
  parsed ← parse_pe image;
  with_context (authenticode_digest_file_ranges (as_pe_trait parsed))
    "PE layout invalid for Authenticode digest ranges (checksum/security-directory offsets)".

(** The four arms of the [match kind] differ in the hasher alone. *)
Definition pe_authenticode_digest `{PeCrates} `{DigestOracle} (bs : bytes)
    (kind : PeAuthenticodeHashKind) : outcome bytes :=
  parsed ← parse_pe bs;
  fed ← ok_or (authenticode_digest (as_pe_trait parsed)) "authenticode_digest failed";
  Ok (hasher_finalize (hasher_update (hasher_new kind) fed)).

(** [bytes.iter().map(|b| format!("{b:02x}")).collect()] *)
Definition hex_nibble (n : Z) : char := if n <? 10 then 48 + n else 87 + n.
Definition fmt_02x (b : byte) : str := [hex_nibble (u8 b / 16); hex_nibble (u8 b mod 16)].
Definition hex_lower (bs : bytes) : str := bs ≫= fmt_02x.

Definition pe_authenticode_digest_sha256_hex `{PeCrates} `{DigestOracle} (bs : bytes)
    : outcome str :=
  d ← pe_authenticode_digest bs Sha256; Ok (hex_lower d).

Section Laws.
Context `{PeCrates} `{DigestOracle}.

Lemma parse_pe_data bs p : parse_pe bs = Ok p → pe_data (as_pe_trait p) = bs.
Proof.
  unfold parse_pe. intros (k & _ & Hp)%bind_Ok. destruct k; [| |done];
    apply bind_Ok in Hp as (v & Hv & [= <-]); apply ok_or_Ok in Hv; cbn.
  - by eapply pe_file32_data.
  - by eapply pe_file64_data.
Qed.

(** A digest exists exactly where the ranges do, and is theirs. *)
Lemma pe_digest_Ok bs kind d :
  pe_authenticode_digest bs kind = Ok d ↔
  ∃ p rs, parse_pe bs = Ok p ∧ authenticode_digest_file_ranges (as_pe_trait p) = Ok rs ∧
    d = digest kind (bytes_of_ranges bs rs).
Proof.
  unfold pe_authenticode_digest. rewrite bind_Ok. split.
  - intros (p & Hp & Hd). exists p. apply bind_Ok in Hd as (fed & Hf & [= <-]).
    apply ok_or_Ok in Hf. rewrite authenticode_digest_of_ranges in Hf.
    apply fmap_Some in Hf as (rs & Hrs & ->). exists rs. split; [done|].
    rewrite (parse_pe_data _ _ Hp).
    destruct (authenticode_digest_file_ranges _) eqn:E; [|done..]. injection Hrs as ->. done.
  - intros (p & rs & Hp & Hrs & ->). exists p. split; [done|].
    rewrite authenticode_digest_of_ranges, Hrs, (parse_pe_data _ _ Hp). done.
Qed.
Lemma pe_digest_len bs kind d :
  pe_authenticode_digest bs kind = Ok d → len d = digest_output_len kind.
Proof. intros (p & rs & _ & _ & ->)%pe_digest_Ok. apply digest_len. Qed.
End Laws.
