(* ===== verification/VerifyPe.v ===== *)
(** Checking the digests of a signed PE file:
    [crates/psign-sip-digest/src/verify_pe.rs], over the parser interface of
    [PeFile], the table checks of [PeEmbed] and the normalisation of
    [DerWire]. *)

From S2P Require Import Prelude.
From S2P Require Import DerWire.
From S2P Require Import PeDigest.
From S2P Require Import PeEmbed.
From S2P Require Import PeSign.
From S2P Require Import RustStr.
From S2P Require Import PeFile.

Record PeDigestConsistencyResult := mk_consistency {
  recomputed_digest_hex : str;
  matched_attribute_certificate_index : Z;
  pkcs7_authenticode_entries : Z }.
Inductive PeDigestConsistencyStatus :=
  | NoCertificateTable
  | NoPkcs7Entries
  | Signed (r : PeDigestConsistencyResult).

Definition table_invalid : string := "certificate table invalid: {e}".
Definition entry_invalid : string := "attribute certificate entry invalid: {e}".
Definition no_table : string := "PE has no certificate table".
Definition no_entries : string :=
  "no PKCS#7 Authenticode entries found in certificate table".

Section VerifyPe.
Context `{PeCrates} `{DigestOracle}.
(** [AuthenticodeSignature::from_bytes(..).digest()], [None] where it fails *)
Context (embedded_digest : bytes → option bytes).

(** [ParsedPe::parse], then [AttributeCertificateIterator::new] *)
Definition certificate_entries (bs : bytes) : outcome (option (list (option AttributeCertificate))) :=
  parsed ← parse_pe bs;
  ok_or (attribute_certificates (as_pe_trait parsed)) table_invalid.

Definition is_pkcs7 (a : AttributeCertificate) : bool :=
  certificate_type a =? WIN_CERT_TYPE_PKCS_SIGNED_DATA.

(** The body of the loop for one PKCS#7 entry: the digest it matches. *)
Definition check_entry (bs : bytes) (data : bytes) : outcome bytes :=
  let normalized := normalize_pkcs7_der_for_authenticode data in
  embedded ← ok_or (embedded_digest normalized) "PKCS#7 Authenticode parse failed: {e}";
  kind ← from_digest_byte_len (len embedded);
  computed ← pe_authenticode_digest bs kind;
  bail_if (negb (bool_decide (computed = embedded)))
    "Rust SIP digest mismatch for PKCS#7 entry {idx}: recomputed {} vs embedded {}";;
  Ok computed.
(** The loop, with [pkcs7_count], [last_hex] and [last_idx]. *)
Fixpoint check_entries (bs : bytes) (idx : Z) (entries : list (option AttributeCertificate))
    (count : Z) (last_hex : str) (last_idx : Z) : outcome (Z * str * Z) :=
  match entries with
  | [] => Ok (count, last_hex, last_idx)
  | entry :: entries' =>
      attr ← ok_or entry entry_invalid;
      if negb (is_pkcs7 attr) then check_entries bs (idx + 1) entries' count last_hex last_idx
      else
        computed ← check_entry bs (attr_data attr);
        check_entries bs (idx + 1) entries' (count + 1) (hex_lower computed) idx
  end.
Definition verify_pe_authenticode_digest_consistency_status (bs : bytes)
    : outcome PeDigestConsistencyStatus :=
  pe_validate_attribute_certificate_table_alignment bs;;
  iter ← certificate_entries bs;
  match iter with
  | None => Ok NoCertificateTable
  | Some entries =>
      '(count, last_hex, last_idx) ← check_entries bs 0 entries 0 [] 0;
      if count =? 0 then Ok NoPkcs7Entries
      else Ok (Signed (mk_consistency last_hex last_idx count))
  end.
Definition verify_pe_authenticode_digest_consistency (bs : bytes)
    : outcome PeDigestConsistencyResult :=
  status ← verify_pe_authenticode_digest_consistency_status bs;
  match status with
  | Signed result => Ok result
  | NoCertificateTable => Err no_table
  | NoPkcs7Entries => Err no_entries
  end.
Definition verify_pe_authenticode_digest_consistency_if_signed (bs : bytes)
    : outcome (option PeDigestConsistencyResult) :=
  status ← verify_pe_authenticode_digest_consistency_status bs;
  match status with
  | Signed result => Ok (Some result)
  | NoCertificateTable | NoPkcs7Entries => Ok None
  end.

(** [for_each_pe_pkcs7_signed_data]: the closure threads a state of its own. *)
Fixpoint visit_entries {A} (f : Z → bytes → A → outcome A) (idx : Z)
    (entries : list (option AttributeCertificate)) (count : Z) (s : A) : outcome (Z * A) :=
  match entries with
  | [] => Ok (count, s)
  | entry :: entries' =>
      attr ← ok_or entry entry_invalid;
      if negb (is_pkcs7 attr) then visit_entries f (idx + 1) entries' count s
      else s ← f idx (attr_data attr) s; visit_entries f (idx + 1) entries' (count + 1) s
  end.
Definition for_each_pe_pkcs7_signed_data {A} (bs : bytes) (f : Z → bytes → A → outcome A) (s : A)
    : outcome (Z * A) :=
  iter ← certificate_entries bs;
  entries ← ok_or iter no_table;
  '(count, s) ← visit_entries f 0 entries 0 s;
  bail_if (count =? 0) no_entries;;
  Ok (count, s).

Fixpoint skip_to (entries : list (option AttributeCertificate)) (skip : Z) : outcome bytes :=
  match entries with
  | [] => Err "no PKCS#7 Authenticode entry at index {index} (fewer PKCS#7 rows in certificate table)"
  | entry :: entries' =>
      attr ← ok_or entry entry_invalid;
      if is_pkcs7 attr then
        if skip =? 0 then Ok (attr_data attr) else skip_to entries' (skip - 1)
      else skip_to entries' skip
  end.
Definition pe_nth_pkcs7_signed_data_der (bs : bytes) (index : Z) : outcome bytes :=
  iter ← certificate_entries bs;
  entries ← ok_or iter no_table;
  skip_to entries index.
Definition pe_first_pkcs7_signed_data_der (bs : bytes) : outcome bytes :=
  pe_nth_pkcs7_signed_data_der bs 0.

Fixpoint push_lens (entries : list (option AttributeCertificate)) (lens : list Z)
    : outcome (list Z) :=
  match entries with
  | [] => Ok lens
  | entry :: entries' =>
      attr ← ok_or entry entry_invalid;
      push_lens entries' (if is_pkcs7 attr then lens ++ [len (attr_data attr)] else lens)
  end.
Definition pe_pkcs7_signed_data_byte_lens (bs : bytes) : outcome (list Z) :=
  iter ← certificate_entries bs;
  entries ← ok_or iter no_table;
  push_lens entries [].
Definition pe_pkcs7_signed_data_entry_count (bs : bytes) : outcome Z :=
  lens ← pe_pkcs7_signed_data_byte_lens bs; Ok (len lens).

(** ** The abstract view: the PKCS#7 rows with their table index *)

Fixpoint pkcs7_rows (idx : Z) (entries : list AttributeCertificate) : list (Z * bytes) :=
  match entries with
  | [] => []
  | a :: entries' =>
      if is_pkcs7 a then (idx, attr_data a) :: pkcs7_rows (idx + 1) entries'
      else pkcs7_rows (idx + 1) entries'
  end.

(** The embedded digest of a PKCS#7 blob is the file's, at the hash it names. *)
Definition matches_file (bs data d : bytes) : Prop :=
  embedded_digest (normalize_pkcs7_der_for_authenticode data) = Some d ∧
  ∃ k, from_digest_byte_len (len d) = Ok k ∧ pe_authenticode_digest bs k = Ok d.

Lemma check_entry_Ok bs data d : check_entry bs data = Ok d ↔ matches_file bs data d.
Proof.
  unfold check_entry, matches_file. rewrite bind_Ok. split.
  - intros (e & He & Hk). apply ok_or_Ok in He. apply bind_Ok in Hk as (k & Hk & Hd).
    apply bind_Ok in Hd as (c & Hc & Hd). apply bail_bind_Ok in Hd as [E Hd].
    injection Hd as <-. zbool. subst e. eauto.
  - intros (He & k & Hk & Hd). exists d. rewrite He. split; [done|]. rewrite Hk. cbn.
    rewrite Hd. cbn. by rewrite bool_decide_eq_true_2.
Qed.

Lemma mapM_id_entries {A} (es : list (option A)) es' : mapM id es = Some es' ↔ es = Some <$> es'.
Proof.
  split; [|intros ->; apply mapM_id_Some]. revert es'.
  induction es as [|e es IH]; intros es'; cbn; [by intros [= <-]|].
  intros (a & -> & Hr)%bind_Some. apply bind_Some in Hr as (as_ & Hm & [= <-]).
  cbn. f_equal. by apply IH.
Qed.

(** The check loop accepts exactly the tables whose entries are well-formed
    and match, and reports the last. *)
Lemma check_entries_Ok bs idx es n h i n' h' i' :
  check_entries bs idx es n h i = Ok (n', h', i') ↔
  ∃ es', es = Some <$> es' ∧ n' = n + len (pkcs7_rows idx es') ∧
    ∃ ds, Forall2 (λ r d, matches_file bs r.2 d) (pkcs7_rows idx es') ds ∧
      (h', i') = default (h, i) (last (zip_with (λ r d, (hex_lower d, r.1)) (pkcs7_rows idx es') ds)).
Proof.
  revert idx n h i. induction es as [|e es IH]; intros idx n h i; cbn [check_entries].
  - split.
    + intros [= <- <- <-]. exists []. split; [done|].
      split; [cbn [pkcs7_rows]; rewrite len_nil; lia|]. exists []. split; [constructor|done].
    + intros ([|??] & [=] & -> & ds & Hds & Hl). cbn in Hds. inversion Hds; subst.
      cbn in Hl. injection Hl as -> ->. cbn [pkcs7_rows].
      rewrite len_nil. do 3 f_equal. lia.
  - destruct e as [a|]; cbn [ok_or mbind outcome_bind];
      [|by split; [|intros ([|??] & [=] & _)]].
    assert (∀ es', Some a :: es = Some <$> es' ↔ ∃ es'', es' = a :: es'' ∧ es = Some <$> es'') as Hcons.
    { intros es'. split; [|by intros (? & -> & ->)]. destruct es' as [|b es'']; [done|].
      intros [= -> ->]. eauto. }
    destruct (is_pkcs7 a) eqn:Ea; cbn [negb].
    + rewrite bind_Ok. split.
      * intros (d & Hd%check_entry_Ok & Hr). apply IH in Hr as (es' & -> & -> & ds & Hds & Hl).
        exists (a :: es'). split; [done|]. cbn [pkcs7_rows]. rewrite Ea. split; [slen; lia|].
        exists (d :: ds). split; [by constructor|]. rewrite Hl. cbn [zip_with].
        rewrite last_cons. by destruct (last _).
      * intros (es' & (es'' & -> & ->)%Hcons & -> & ds & Hds & Hl). cbn [pkcs7_rows] in *.
        rewrite Ea in *. apply Forall2_cons_inv_l in Hds as (d & ds' & Hd & Hds' & ->).
        exists d. split; [by apply check_entry_Ok|].
        apply IH. exists es''. split; [done|]. split; [slen; lia|]. exists ds'. split; [done|].
        rewrite Hl. clear Hl. cbn [zip_with]. rewrite last_cons. destruct (last _); reflexivity.
    + rewrite IH. split.
      * intros (es' & -> & -> & ds & Hds & Hl). exists (a :: es'). split; [done|].
        cbn [pkcs7_rows]. rewrite Ea. eauto.
      * intros (es' & (es'' & -> & ->)%Hcons & -> & ds & Hds & Hl). cbn [pkcs7_rows] in *.
        rewrite Ea in *. eauto 10.
Qed.
End VerifyPe.

(** ** Signed files

    What the PE crates report of the files [PeEmbed] writes: over an image with
    headers ending at [h] and sections [secs], a file with certificate [rows]
    parses to the view [signed_view], and the iterator yields a row's type
    field and its payload, padding included. *)
Definition row_entry (r : bytes) : AttributeCertificate :=
  mk_attr (from_le (sub r 6 8)) (sub r 8 (len r)).
Record reads_signed_files `{PeCrates} (img : bytes) (opt dd h : Z) (secs : list (Z * Z))
    (cr : list bytes → option (Z * Z)) : Prop := {
  reads_view rows c : table_wf img rows →
    ∃ p, parse_pe (signed_image img opt dd rows c) = Ok p ∧
         as_pe_trait p = signed_view img opt dd h secs cr rows c;
  reads_rows rows c : table_wf img rows →
    attribute_certificates (signed_view img opt dd h secs cr rows c) =
    Some (if bool_decide (rows = []) then None else Some (Some ∘ row_entry <$> rows));
  reads_range rows :
    match cr rows with None => rows = [] | Some (s, e) => e - s = table_size rows end }.

(** The payload a signature comes back as. *)
Definition padded (p : bytes) : bytes := p ++ replicate (Z.to_nat (padding (len p))) (byte_of 0).
Lemma wrap_entry p : row_entry (wrap p) = mk_attr WIN_CERT_TYPE_PKCS_SIGNED_DATA (padded p).
Proof.
  unfold row_entry. f_equal; [apply Z.eqb_eq, wrap_is_pkcs7|].
  unfold wrap. rewrite len_wrap, wrap_eq. do 2 rewrite sub_app_r, len_to_le by (slen; lia).
  rewrite sub_app_r, len_to_le by (slen; lia). change (Z.of_nat 4) with 4. change (Z.of_nat 2) with 2.
  unfold padded. replace (8 - 4 - 2 - 2) with 0 by lia. apply sub_full_ge. slen. unfold padding.
  rewrite Z2Nat.id by lia. lia.
Qed.

(** Computing the ranges never panics. *)
Lemma ranges_not_panic pe : authenticode_digest_file_ranges pe ≠ Panic.
Proof.
  unfold authenticode_digest_file_ranges. nopanic.
  - generalize (sort_by_start a0), (after_header a),
      [(0, check_sum a); (after_check_sum a, security_data_dir a);
       (after_security_data_dir a, after_header a)].
    intros l. induction l as [|r l IH]; intros s acc; cbn; [done|]. nopanic.
  - match goal with |- context [match ?o with Some _ => _ | None => _ end] => destruct o as [[??]|] end;
      nopanic.
Qed.

Section SignedFiles.
Context `{PeCrates} `{DigestOracle}.
Context (img : bytes) (opt magic dd num h : Z) (secs : list (Z * Z)).
Context (cr : list bytes → option (Z * Z)).
Context (HL : pe_layout img opt magic dd num) (Hal : len img mod 8 = 0).
Context (Hh : dd + 8 <= h) (Hhl : h <= len img).
Context (Hsecs : Forall (λ r : Z * Z, h <= r.1 ∧ r.1 <= r.2 ∧ r.2 <= len img) secs).
Context (HR : reads_signed_files img opt dd h secs cr).

Lemma signed_digest rows c k :
  table_wf img rows →
  pe_authenticode_digest (signed_image img opt dd rows c) k =
  rs ← with_context (authenticode_digest_file_ranges
         (whole_view (mk_PeOffsets (opt + 64) (opt + 68) dd (dd + 8) h) secs None img))
         "authenticode_digest failed";
  Ok (digest k (bytes_of_ranges img rs)).
Proof using HL Hh Hhl Hsecs HR.
  intros Hw. destruct (reads_view _ _ _ _ _ _ HR rows c Hw) as (p & Hp & Hv).
  destruct (ranges_signed img opt magic dd num h secs HL Hh Hhl Hsecs cr
    (reads_range _ _ _ _ _ _ HR) rows c) as [Heq Hun].
  unfold pe_authenticode_digest. rewrite Hp. cbn [mbind outcome_bind].
  rewrite authenticode_digest_of_ranges, Hv. rewrite Heq in *.
  pose proof (ranges_not_panic
    (whole_view (mk_PeOffsets (opt + 64) (opt + 68) dd (dd + 8) h) secs None img)) as Hnp.
  clear Heq. destruct (authenticode_digest_file_ranges _) as [rs| |]; [|reflexivity|congruence].
  cbn. by rewrite (bytes_signed img opt magic dd num HL rows c rs (Hun rs eq_refl)).
Qed.

Lemma signed_validates rows c :
  table_wf img rows →
  pe_validate_attribute_certificate_table_alignment (signed_image img opt dd rows c) = Ok tt.
Proof using HL Hal.
  intros [Hw Hf]. unfold pe_validate_attribute_certificate_table_alignment.
  pose proof (offsets _ _ _ _ _ HL).
  rewrite (read_signed img opt magic dd num HL) by done. cbn [mbind outcome_bind].
  destruct (decide (rows = [])) as [-> | Hne]; [done|]. rewrite table_va_eq by done.
  pose proof (rows_size_pos _ Hw Hne). unfold validate_attribute_certificate_table_alignment.
  unfold is_multiple_of_8, ATTRIBUTE_CERTIFICATE_ALIGNMENT.
  rewrite Hal, rows_size_aligned by done. by run.
Qed.

Lemma signed_entries rows c :
  table_wf img rows →
  certificate_entries (signed_image img opt dd rows c) =
  Ok (if bool_decide (rows = []) then None else Some (Some ∘ row_entry <$> rows)).
Proof using HR.
  intros Hw. destruct (reads_view _ _ _ _ _ _ HR rows c Hw) as (p & Hp & Hv).
  unfold certificate_entries. rewrite Hp. cbn [mbind outcome_bind].
  by rewrite Hv, (reads_rows _ _ _ _ _ _ HR rows c Hw).
Qed.

(** Appending signatures one after the other. *)
Lemma exec_appends ps rows file :
  table_wf img (rows ++ (wrap <$> ps)) → Forall row_wf rows → represents img opt dd rows file →
  ∃ file', exec (Append <$> ps) file = Ok file' ∧ represents img opt dd (rows ++ (wrap <$> ps)) file'.
Proof using HL Hal.
  revert rows file. induction ps as [|p ps IH]; intros rows file Hw Hrows Hr.
  - exists file. by rewrite app_nil_r.
  - change (wrap <$> p :: ps) with (wrap p :: (wrap <$> ps)) in *.
    rewrite cons_middle, app_assoc in *. destruct Hw as [Hw Hf].
    destruct Hr as [c ->]. destruct (append_signed img opt magic dd num HL Hal rows c p) as (c' & Heq & _).
    + done.
    + unfold fits, table_size in *. rewrite concat_app, len_app in Hf.
      pose proof (len_nonneg (concat (wrap <$> ps))). change wrap_pkcs7_der_authenticode_win_certificate with wrap. lia.
    + cbn [fmap list_fmap exec exec_op]. rewrite Heq. cbn [mbind outcome_bind].
      apply IH; [by split|by apply Forall_app in Hw as [? _]|by exists c'].
Qed.

(** Signatures over the image's digest match every file they are put in. *)
Lemma signed_rows_match emb ps c0 c :
  img = signed_image img opt dd [] c0 → table_wf img [] → table_wf img (wrap <$> ps) →
  Forall (λ p, ∃ k d, pe_authenticode_digest img k = Ok d ∧
                      emb (normalize_pkcs7_der_for_authenticode (padded p)) = Some d) ps →
  ∀ js, ∃ ds, Forall2 (λ (row : Z * bytes) d,
                    matches_file emb (signed_image img opt dd (wrap <$> ps) c) row.2 d)
                (zip js (padded <$> ps)) ds.
Proof using HL Hh Hhl Hsecs HR.
  intros Himg Hw0 Hw Hall.
  assert (Forall (λ p, ∃ d, matches_file emb (signed_image img opt dd (wrap <$> ps) c) (padded p) d) ps) as Hm.
  { eapply Forall_impl; [exact Hall|]. intros p (k & d & Hd & He). exists d. split; [done|]. exists k.
    rewrite (pe_digest_len _ _ _ Hd), from_digest_byte_len_output. split; [done|]. rewrite <-Hd.
    rewrite Himg at 2. by rewrite !signed_digest. }
  revert Hm. generalize (signed_image img opt dd (wrap <$> ps) c). intros f. clear.
  induction 1 as [|p ps (d & Hd) _ IH]; intros [|j js]; try by exists [].
  destruct (IH js) as [ds Hds]. exists (d :: ds). by constructor.
Qed.
Lemma wraps_wf ps :
  len img + table_size (wrap <$> ps) < U32 → table_wf img (wrap <$> ps).
Proof using.
  clear -img. intros Hf. split; [|done]. apply Forall_fmap, Forall_forall. intros p Hp. cbn.
  eapply (wrapped_wf img (wrap <$> ps)); [|by unfold fits]. by apply list_elem_of_fmap_2.
Qed.
End SignedFiles.

Lemma pkcs7_rows_wraps idx ps :
  pkcs7_rows idx (row_entry <$> (wrap <$> ps)) = zip (seqZ idx (len ps)) (padded <$> ps).
Proof.
  revert idx. induction ps as [|p ps IH]; intros idx; [done|].
  cbn [fmap list_fmap pkcs7_rows]. rewrite wrap_entry.
  change (is_pkcs7 (mk_attr _ _)) with true. cbn iota. cbn [attr_data].
  rewrite seqZ_cons by (rewrite len_cons; pose proof (len_nonneg ps); lia).
  cbn [zip_with]. f_equal. rewrite IH. do 2 f_equal. rewrite len_cons. lia.
Qed.
Lemma last_zip_with {A B C} (f : A → B → C) l k :
  length l = length k →
  last (zip_with f l k) =
  match last l, last k with Some a, Some b => Some (f a b) | _, _ => None end.
Proof.
  revert k. induction l as [|a l IH]; intros [|b k] Hl; cbn [length] in Hl; try lia; [done|].
  cbn [zip_with]. rewrite !last_cons, IH by lia.
  destruct l, k; cbn [length] in Hl; try lia; [done|].
  rewrite (last_cons a0 l), (last_cons b0 k). by destruct (last l), (last k).
Qed.

(** A concrete reader for the witnesses: an image without sections, the table
    walked row by row. *)
Fixpoint toy_rows (fuel : nat) (table : bytes) : list (option AttributeCertificate) :=
  match fuel with
  | O => []
  | S fuel' =>
      if len table =? 0 then [] else
      let n := from_le (sub table 0 4) in
      if (n <? 8) || (len table <? n) then [None]
      else Some (row_entry (sub table 0 n)) :: toy_rows fuel' (sub table n (len table))
  end.
Definition toy_view (bs : bytes) : option PeView :=
  '(opt, magic) ← ok_opt (pe_optional_header_start bs);
  '(va, size) ← ok_opt (read_security_data_directory bs);
  dd ← ok_opt (data_directory_entry_offset opt magic);
  Some (whole_view (mk_PeOffsets (opt + 64) (opt + 68) dd (dd + 8) (dd + 8)) []
    (if size =? 0 then None else Some (va, va + size)) bs).
Definition toy_certificates (pe : PeView) : option (option (list (option AttributeCertificate))) :=
  range ← certificate_table_range pe;
  match range with
  | None => Some None
  | Some (s, e) => table ← get_range (pe_data pe) s e; Some (Some (toy_rows (length table) table))
  end.
Lemma toy_view_data bs pe : toy_view bs = Some pe → pe_data pe = bs.
Proof.
  unfold toy_view. intros ([opt magic] & _ & H)%bind_Some. apply bind_Some in H as ([va size] & _ & H).
  by apply bind_Some in H as (dd & _ & [= <-]).
Qed.
Definition ToyPe : PeCrates.
Proof.
  refine {| file_kind := λ _, Some KindPe32; pe_file32 := toy_view; pe_file64 := λ _, None;
    attribute_certificates := toy_certificates;
    authenticode_digest := λ pe,
      bytes_of_ranges (pe_data pe) <$> ok_opt (authenticode_digest_file_ranges pe) |}.
  - apply toy_view_data.
  - done.
  - done.
Defined.

Lemma toy_rows_eq rows fuel :
  Forall row_wf rows → (length rows <= fuel)%nat →
  toy_rows fuel (concat rows) = Some ∘ row_entry <$> rows.
Proof.
  intros Hw. revert fuel. induction Hw as [|r rows (Hr & _ & Hl) Hw IH]; intros fuel Hf; cbn [length] in Hf.
  - by destruct fuel.
  - destruct fuel as [|fuel]; [lia|]. cbn [toy_rows concat]. pose proof (len_nonneg (concat rows)).
    assert (sub (r ++ concat rows) 0 4 = sub r 0 4) as Hs by (apply sub_app_l; lia).
    rewrite Hs, Hl, len_app. run.
    assert (sub (r ++ concat rows) 0 (len r) = r) as H1
      by (rewrite sub_app_l by lia; apply sub_full).
    assert (sub (r ++ concat rows) (len r) (len r + len (concat rows)) = concat rows) as H2.
    { rewrite sub_app_r by lia. trans (sub (concat rows) 0 (len (concat rows))); [f_equal; lia|apply sub_full]. }
    rewrite H1, H2. cbn [fmap list_fmap]. f_equal. apply IH. lia.
Qed.
Definition toy_range (img : bytes) (rows : list bytes) : option (Z * Z) :=
  if bool_decide (rows = []) then None else Some (len img, len img + table_size rows).
Lemma toy_reads img opt magic dd num :
  pe_layout img opt magic dd num →
  @reads_signed_files ToyPe img opt dd (dd + 8) [] (toy_range img).
Proof.
  intros HL. split.
  - intros rows c [Hw Hf]. eexists. unfold parse_pe. cbn [file_kind pe_file32 ToyPe ok_or mbind outcome_bind].
    pose proof (raw_layout img opt magic dd num HL (concat rows) (table_va img rows) (table_size rows) c) as HLr.
    fold (signed_image img opt dd rows c) in HLr. destruct (id HLr) as [Hh [Hd Hn] _ _].
    unfold toy_view. rewrite Hh. cbn [ok_opt mbind option_bind].
    rewrite (read_signed img opt magic dd num HL) by done. cbn [ok_opt mbind option_bind].
    rewrite Hd. cbn. split; [done|]. cbn. unfold signed_view, whole_view, toy_range. do 2 f_equal.
    case_bool_decide as He; [by subst|]. pose proof (rows_size_pos _ Hw He).
    rewrite (proj2 (Z.eqb_neq _ _)) by lia. by rewrite table_va_eq.
  - intros rows c [Hw Hf]. cbn [attribute_certificates ToyPe]. unfold toy_certificates, signed_view, whole_view.
    cbn [certificate_table_range pe_data mbind option_bind]. unfold toy_range.
    case_bool_decide as He; [done|]. unfold signed_image.
    pose proof (len_nonneg img). pose proof (len_nonneg (concat rows)). unfold table_size at 1.
    rewrite get_range_in by (rewrite ?(len_raw img opt magic dd num HL); unfold table_size in *; lia).
    cbn [mbind option_bind]. rewrite (raw_tail img opt magic dd num HL), toy_rows_eq; [done|done|].
    pose proof (length_rows _ Hw). unfold len in *. lia.
  - intros rows. unfold toy_range. case_bool_decide; [done|lia].
Qed.

(** The accessors on a table of wrapped signatures. *)
Lemma skip_to_wraps ps (i : nat) p :
  ps !! i = Some p →
  skip_to (Some ∘ row_entry <$> (wrap <$> ps)) (Z.of_nat i) = Ok (padded p).
Proof.
  revert i. induction ps as [|q ps IH]; intros i; [done|].
  cbn [fmap list_fmap compose skip_to ok_or mbind outcome_bind]. rewrite wrap_entry.
  change (is_pkcs7 (mk_attr _ _)) with true. cbn iota. destruct i as [|i]; cbn [lookup list_lookup].
  - by intros [= ->].
  - intros Hp. rewrite (proj2 (Z.eqb_neq _ _)) by lia.
    replace (Z.of_nat (S i) - 1) with (Z.of_nat i) by lia. by apply IH.
Qed.
Lemma push_lens_wraps ps acc :
  push_lens (Some ∘ row_entry <$> (wrap <$> ps)) acc = Ok (acc ++ (len ∘ padded <$> ps)).
Proof.
  revert acc. induction ps as [|q ps IH]; intros acc; cbn [fmap list_fmap compose push_lens].
  - by rewrite app_nil_r.
  - cbn [ok_or mbind outcome_bind]. rewrite wrap_entry. change (is_pkcs7 (mk_attr _ _)) with true.
    cbn iota. rewrite IH, <-app_assoc. done.
Qed.

Lemma verify_consistent `{PeCrates} `{DigestOracle} emb bs es ds row d :
  pe_validate_attribute_certificate_table_alignment bs = Ok tt →
  certificate_entries bs = Ok (Some (Some <$> es)) →
  Forall2 (λ row d, matches_file emb bs row.2 d) (pkcs7_rows 0 es) ds →
  last (pkcs7_rows 0 es) = Some row → last ds = Some d →
  verify_pe_authenticode_digest_consistency emb bs =
  Ok (mk_consistency (hex_lower d) row.1 (len (pkcs7_rows 0 es))).
Proof.
  intros Hv He Hds Hrow Hd. unfold verify_pe_authenticode_digest_consistency.
  unfold verify_pe_authenticode_digest_consistency_status. rewrite Hv. cbn [mbind outcome_bind].
  rewrite He. cbn [mbind outcome_bind].
  assert (check_entries emb bs 0 (Some <$> es) 0 [] 0
          = Ok (len (pkcs7_rows 0 es), hex_lower d, row.1)) as Hc.
  { apply check_entries_Ok. exists es. split; [done|]. split; [lia|]. exists ds. split; [done|].
    rewrite last_zip_with, Hrow, Hd by (by eapply Forall2_length). done. }
  rewrite Hc. cbn [mbind outcome_bind]. rewrite (proj2 (Z.eqb_neq _ _)); [done|].
  destruct (pkcs7_rows 0 es) as [|x l]; [done|]. rewrite len_cons. pose proof (len_nonneg l). lia.
Qed.

(** The digest check of a PE, stated on its certificate table: it accepts
    a file, on any bytes, exactly when the table is aligned, every entry is
    well-formed, there is a PKCS#7 entry, and each PKCS#7 entry's normalised
    signature embeds the digest of this file under the hash its length names;
    it then reports the number of PKCS#7 entries, and the index and digest of
    the last. *)
Theorem pe_consistency_spec `{PeCrates} `{DigestOracle} emb bs r :
  verify_pe_authenticode_digest_consistency emb bs = Ok r ↔
  pe_validate_attribute_certificate_table_alignment bs = Ok tt ∧
  ∃ es ds row d,
    certificate_entries bs = Ok (Some (Some <$> es)) ∧
    Forall2 (λ row d, matches_file emb bs row.2 d) (pkcs7_rows 0 es) ds ∧
    last (pkcs7_rows 0 es) = Some row ∧ last ds = Some d ∧
    r = mk_consistency (hex_lower d) row.1 (len (pkcs7_rows 0 es)).
Proof.
  split; [|intros (Hv & es & ds & row & d & He & Hds & Hr & Hd & ->); by eapply verify_consistent].
  unfold verify_pe_authenticode_digest_consistency.
  intros (st & Hst & Hr)%bind_Ok. destruct st as [| |r']; [done..|]. injection Hr as ->.
  unfold verify_pe_authenticode_digest_consistency_status in Hst.
  apply bind_Ok in Hst as ([] & Hv & Hst). apply bind_Ok in Hst as (iter & He & Hst).
  split; [done|]. destruct iter as [es|]; [|done].
  apply bind_Ok in Hst as ([[n h] i] & Hc & Hst). destruct (n =? 0) eqn:E; [done|]. injection Hst as <-.
  apply check_entries_Ok in Hc as (es' & -> & -> & ds & Hds & Hl).
  rewrite last_zip_with in Hl by (by eapply Forall2_length). zbool.
  pose proof (Forall2_length _ _ _ Hds) as Hlen.
  destruct (last (pkcs7_rows 0 es')) as [row|] eqn:Hrow.
  - destruct (last ds) as [d|] eqn:Hd.
    + injection Hl as -> ->. exists es', ds, row, d. done.
    + apply last_None in Hd as ->. destruct (pkcs7_rows 0 es'); done.
  - apply last_None in Hrow. rewrite Hrow in E. by destruct E.
Qed.

(** C11: Signing a PE end to end: an unsigned aligned image to which signatures
    over its own digest are appended, any number of them and at any of the
    hashes, passes the digest check with every one of them counted, and every
    signature is read back at its index, padded to eight bytes; the image
    itself counts as unsigned.  The premises are the image's layout, the size
    limit of the format and that the PE crates read the files written. *)
Theorem pe_sign_then_verify `{PeCrates} `{DigestOracle} emb img opt magic dd num h secs cr ps :
  pe_layout img opt magic dd num → len img mod 8 = 0 → dd + 8 <= h → h <= len img →
  Forall (λ r : Z * Z, h <= r.1 ∧ r.1 <= r.2 ∧ r.2 <= len img) secs →
  reads_signed_files img opt dd h secs cr →
  read_security_data_directory img = Ok (0, 0) →
  ps ≠ [] → len img + table_size (wrap <$> ps) < U32 →
  Forall (λ p, ∃ k d, pe_authenticode_digest img k = Ok d ∧
                      emb (normalize_pkcs7_der_for_authenticode (padded p)) = Some d) ps →
  ∃ file r, exec (Append <$> ps) img = Ok file ∧
    verify_pe_authenticode_digest_consistency emb file = Ok r ∧
    pkcs7_authenticode_entries r = len ps ∧
    pe_pkcs7_signed_data_entry_count file = Ok (len ps) ∧
    (∀ (i : nat) p, ps !! i = Some p → pe_nth_pkcs7_signed_data_der file (Z.of_nat i) = Ok (padded p)) ∧
    verify_pe_authenticode_digest_consistency_if_signed emb img = Ok None.
Proof.
  intros HL Hal Hh Hhl Hsecs HR Hun Hne Hfit Hall.
  pose proof (unsigned_represented _ _ _ _ _ HL Hun) as Himg. set (c0 := from_le _) in Himg.
  pose proof (wraps_wf img ps Hfit) as Hw.
  assert (table_wf img []) as Hw0.
  { split; [constructor|]. unfold table_size in *. pose proof (len_nonneg (concat (wrap <$> ps))).
    cbn [concat]. rewrite len_nil. lia. }
  destruct (exec_appends img opt magic dd num HL Hal ps [] img Hw) as (file & Hex & c & Hf);
    [constructor|by exists c0|]. cbn [app] in Hf. subst file.
  assert (wrap <$> ps ≠ []) as Hnw by by destruct ps.
  pose proof (signed_entries img opt dd h secs cr HR _ c Hw) as He.
  rewrite bool_decide_eq_false_2 in He by done.
  assert (certificate_entries (signed_image img opt dd (wrap <$> ps) c)
          = Ok (Some (Some <$> (row_entry <$> (wrap <$> ps))))) as He'
    by (rewrite He; reflexivity || (do 3 f_equal; apply list_fmap_compose)).
  destruct (signed_rows_match img opt magic dd num h secs cr HL Hh Hhl Hsecs HR emb ps c0 c Himg Hw0 Hw Hall
    (seqZ 0 (len ps))) as [ds Hds].
  pose proof (Forall2_length _ _ _ Hds) as Hlen.
  assert (length (zip (seqZ 0 (len ps)) (padded <$> ps)) = length ps) as Hlz.
  { rewrite length_zip_with_r_eq; rewrite ?length_seqZ, ?length_fmap; unfold len; lia. }
  assert (0 < length ps)%nat as Hpos by (destruct ps; [done|cbn; lia]).
  destruct (last (zip (seqZ 0 (len ps)) (padded <$> ps))) as [row|] eqn:Hrow;
    [|apply last_None in Hrow; rewrite Hrow in Hlz; cbn in Hlz; lia].
  destruct (last ds) as [d|] eqn:Hd; [|apply last_None in Hd; subst ds; cbn in Hlen; lia].
  eexists _, _. split; [exact Hex|]. split.
  { eapply (verify_consistent emb _ _ ds row d);
      [by eapply signed_validates|exact He'|by rewrite pkcs7_rows_wraps..|done]. }
  cbn [pkcs7_authenticode_entries]. rewrite pkcs7_rows_wraps. unfold len at 1. rewrite Hlz.
  split; [done|]. split; [|split].
  - unfold pe_pkcs7_signed_data_entry_count, pe_pkcs7_signed_data_byte_lens. rewrite He.
    cbn [ok_or mbind outcome_bind]. rewrite push_lens_wraps. cbn. unfold len at 1. by rewrite length_fmap.
  - intros i p Hp. unfold pe_nth_pkcs7_signed_data_der. rewrite He. cbn [ok_or mbind outcome_bind].
    by apply skip_to_wraps.
  - unfold verify_pe_authenticode_digest_consistency_if_signed.
    unfold verify_pe_authenticode_digest_consistency_status. rewrite Himg.
    rewrite (signed_validates img opt magic dd num HL Hal) by done. cbn [mbind outcome_bind].
    by rewrite (signed_entries img opt dd h secs cr HR) by done.
Qed.

Lemma pe_sign_then_verify_witness :
  let d := match @pe_authenticode_digest ToyPe ToyDigest test_img Sha256 with Ok d => d | _ => [] end in
  let ps := [lit "first"; lit "second signature"] in
  ∃ file r, exec (Append <$> ps) test_img = Ok file ∧
    @verify_pe_authenticode_digest_consistency ToyPe ToyDigest (λ _, Some d) file = Ok r ∧
    pkcs7_authenticode_entries r = 2 ∧
    @pe_pkcs7_signed_data_entry_count ToyPe file = Ok 2 ∧
    (∀ (i : nat) p, ps !! i = Some p → @pe_nth_pkcs7_signed_data_der ToyPe file (Z.of_nat i) = Ok (padded p)) ∧
    @verify_pe_authenticode_digest_consistency_if_signed ToyPe ToyDigest (λ _, Some d) test_img = Ok None.
Proof.
  cbn zeta. eapply (@pe_sign_then_verify ToyPe ToyDigest _ test_img 88 PE32_MAGIC 216 180 224 []
    (toy_range test_img)).
  - exact test_img_layout.
  - by vm_compute.
  - lia.
  - by vm_compute.
  - constructor.
  - apply (toy_reads test_img 88 PE32_MAGIC 216 180), test_img_layout.
  - by vm_compute.
  - done.
  - by vm_compute.
  - repeat constructor; exists Sha256; eexists; split; by vm_compute.
Defined.
