(* ===== verification/PageHashes.v ===== *)
(** Authenticode page hashes: [crates/psign-sip-digest/src/page_hashes.rs].

    The crates [der] and [cms] are the interface [CmsCrates]: a reader is the
    list of the bytes it has still to give, and a decoder returns what it read
    with the reader after it, [None] where it fails. *)

From stdpp Require Import sorting.
From S2P Require Import Prelude.
From S2P Require Import PeDigest.
From S2P Require Import PeEmbed.
From S2P Require Import RustStr.
From S2P Require Import PeFile.
From S2P Require Import VerifyPe.

Record Any := mk_any { any_tag : Z; any_value : bytes }.
Record Attribute := mk_attribute { oid : string; values : list Any }.
Record SignerInfo := mk_signer { signed_attrs : option (list Attribute) }.
Record SignedData := mk_signed_data { signer_infos : list SignerInfo }.
Record ContentInfo := mk_content_info { content_type : string; content : Any }.

Class CmsCrates := {
  slice_reader : bytes → option bytes;
  header_decode : bytes → option (Z * Z * bytes);
  read_slice : bytes → Z → option (bytes * bytes);
  octet_string_decode : bytes → option (bytes * bytes);
  oid_decode : bytes → option bytes;
  content_info_decode : bytes → option ContentInfo;
  signed_data_decode : Any → option SignedData;
  header_decode_len r t n r' : header_decode r = Some (t, n, r') → len r' < len r;
  read_slice_len r n s r' : read_slice r n = Some (s, r') → len r' <= len r }.

Definition ID_SIGNED_DATA : string := "1.2.840.113549.1.7.2".
Definition OID_PE_PAGE_HASHES_V1 : string := "1.3.6.1.4.1.311.2.3.1".
Definition OID_PE_PAGE_HASHES_V2 : string := "1.3.6.1.4.1.311.2.3.2".

Inductive PageHashAttrKind := V1 | V2.
#[export] Instance page_hash_kind_eq_dec : EqDecision PageHashAttrKind.
Proof. solve_decision. Defined.
Record PageHashAttrValue := mk_value { kind : PageHashAttrKind; value_der : bytes }.
Record PePageHashAttrLocation := mk_location {
  pkcs7_index : Z; signer_index : Z; location_values : list PageHashAttrValue }.
Record PageHashTableEntry := mk_entry { page_end_offset : Z; entry_digest : bytes }.

Definition digest_byte_len_for_page_hash_attr (k : PageHashAttrKind) : Z :=
  match k with V1 => 20 | V2 => 32 end.

Definition TAG_SEQUENCE : Z := 0x30.
Definition TAG_SET : Z := 0x31.
Definition der_error : string := "{e}".

Section Peel.
Context `{CmsCrates}.

Definition try_spc_serialized_object_data (seq_der : bytes) : outcome (option bytes) :=
  if negb (bool_decide (u8 <$> head seq_der = Some 0x30)) then Ok None else
  r ← ok_or (slice_reader seq_der) "invalid DER slice";
  '(tag, n, r) ← ok_or (header_decode r) der_error;
  if negb (tag =? TAG_SEQUENCE) then Ok None else
  '(body, _) ← ok_or (read_slice r n) der_error;
  inner ← ok_or (slice_reader body) "inner DER slice";
  '(class_id, inner) ← ok_or (octet_string_decode inner) der_error;
  if negb (len class_id =? 16) then Ok None else
  '(serialized, _) ← ok_or (octet_string_decode inner) der_error;
  Ok (Some serialized).

(** One member of the SET; the loop's variables are [sr] and [concat]. *)
Definition set_member_step (s : bytes * bytes) : (bytes * bytes) + outcome bytes :=
  let '(sr, acc) := s in
  if len sr =? 0 then inr (Ok acc) else
  match
    '(tag, n, sr) ← ok_or (header_decode sr) der_error;
    bail_if (negb (tag =? TAG_SEQUENCE)) "SET OF member is not SEQUENCE";;
    '(seq_body, sr) ← ok_or (read_slice sr n) der_error;
    qr ← ok_or (slice_reader seq_body) "SEQUENCE body";
    qr ← ok_or (oid_decode qr) der_error;
    '(oct, _) ← ok_or (octet_string_decode qr) der_error;
    Ok (sr, acc ++ oct)
  with
  | Ok s' => inl s'
  | Err e => inr (Err e)
  | Panic => inr Panic
  end.
Definition concat_octets_from_set_of_type_and_optional_value (data : bytes) : outcome bytes :=
  if negb (bool_decide (u8 <$> head data = Some TAG_SET)) then Ok data else
  r ← ok_or (slice_reader data) "invalid DER slice";
  '(tag, n, r) ← ok_or (header_decode r) der_error;
  if negb (tag =? TAG_SET) then Ok data else
  '(set_body, _) ← ok_or (read_slice r n) der_error;
  sr ← ok_or (slice_reader set_body) "SET body slice";
  default Panic (loop set_member_step (S (length sr)) (sr, [])).

(** [for _ in 0..8]: at most eight layers are peeled. *)
Fixpoint peel_layers (rounds : nat) (cur : bytes) : outcome bytes :=
  match rounds with
  | O => Ok cur
  | S rounds' =>
      match u8 <$> head cur with
      | None => Err "empty page-hash attribute payload"
      | Some 0x04 =>
          rd ← ok_or (slice_reader cur) "OCTET STRING slice";
          '(oct, _) ← ok_or (octet_string_decode rd) der_error;
          peel_layers rounds' oct
      | Some 0x30 =>
          inner ← try_spc_serialized_object_data cur;
          match inner with Some inner => peel_layers rounds' inner | None => Ok cur end
      | _ => Ok cur
      end
  end.
Definition peel_authenticode_page_hash_attribute_payload (value : bytes) : outcome bytes :=
  cur ← peel_layers 8 value;
  concat_octets_from_set_of_type_and_optional_value cur.
End Peel.

(** ** The flat table *)

Definition all_zero (bs : bytes) : bool := forallb (λ b, u8 b =? 0) bs.

(** One round of the loop, on [i] and [out]; [inr] leaves it. *)
Definition flat_step (data : bytes) (digest_len : Z) (s : Z * list PageHashTableEntry)
    : (Z * list PageHashTableEntry) + outcome (Z * list PageHashTableEntry) :=
  let '(i, out) := s in
  if i + 4 + digest_len <=? len data then
    match
      word ← index_range data i (i + 4);
      digest ← index_range data (i + 4) (i + 4 + digest_len);
      Ok (from_le word, digest)
    with
    | Ok (page_end, digest) =>
        let i := i + 4 + digest_len in
        if all_zero digest then inr (Ok (i, out))
        else inl (i, out ++ [mk_entry page_end digest])
    | Err e => inr (Err e)
    | Panic => inr Panic
    end
  else inr (Ok (i, out)).
Definition parse_page_hash_flat_pairs_le (data : bytes) (digest_len : Z)
    : outcome (list PageHashTableEntry) :=
  bail_if (digest_len =? 0) "digest_len must be non-zero";;
  '(i, out) ← default Panic (loop (flat_step data digest_len) (S (length data)) (0, []));
  rest ← (if i <? len data then index_range data i (len data) else Ok []);
  bail_if ((i <? len data) && negb (all_zero rest))
    "trailing bytes after PE page-hash table (offset {})";;
  Ok out.
Definition parse_page_hash_attribute_entries `{CmsCrates} (value : bytes) (k : PageHashAttrKind)
    : outcome (list PageHashTableEntry) :=
  flat ← peel_authenticode_page_hash_attribute_payload value;
  parse_page_hash_flat_pairs_le flat (digest_byte_len_for_page_hash_attr k).

(** ** The contiguous check *)

(** [sort_by_key(|e| e.page_end_offset)], which is stable *)
Fixpoint insert_by_end (e : PageHashTableEntry) (es : list PageHashTableEntry)
    : list PageHashTableEntry :=
  match es with
  | [] => [e]
  | e' :: es' =>
      if page_end_offset e <=? page_end_offset e' then e :: es else e' :: insert_by_end e es'
  end.
Definition sort_by_end (es : list PageHashTableEntry) : list PageHashTableEntry :=
  foldr insert_by_end [] es.

Definition page_digest `{DigestOracle} (k : PageHashAttrKind) (slice : bytes) : bytes :=
  match k with V1 => digest Sha1 slice | V2 => digest Sha256 slice end.

(** The loop over the sorted rows, with [start]. *)
Fixpoint verify_rows `{DigestOracle} (pe_image : bytes) (k : PageHashAttrKind) (start : Z)
    (rows : list PageHashTableEntry) : outcome unit :=
  match rows with
  | [] => Ok tt
  | e :: rows' =>
      bail_if (negb (len (entry_digest e) =? digest_byte_len_for_page_hash_attr k))
        "page-hash digest length {} does not match {:?} expectation {}";;
      let end_ := page_end_offset e in
      bail_if (len pe_image <? end_) "page_end_offset {end} exceeds PE image length {}";;
      bail_if (end_ <=? start) "non-increasing or empty page-hash range (start={start} end={end})";;
      slice ← index_range pe_image start end_;
      bail_if (negb (bool_decide (page_digest k slice = entry_digest e)))
        "page-hash digest mismatch for file range [{start},{end}) (kind {:?})";;
      verify_rows pe_image k end_ rows'
  end.
Definition verify_page_hash_entries_contiguous_file_offsets `{DigestOracle} (pe_image : bytes)
    (entries : list PageHashTableEntry) (k : PageHashAttrKind) : outcome unit :=
  verify_rows pe_image k 0 (sort_by_end entries).

(** ** The attributes of the embedded signatures *)

Definition decode_signed_data `{CmsCrates} (pkcs7_der : bytes) : outcome SignedData :=
  r ← ok_or (slice_reader pkcs7_der) "PKCS#7 empty";
  ci ← ok_or (content_info_decode r) "PKCS#7 ContentInfo: {e}";
  bail_if (negb (bool_decide (content_type ci = ID_SIGNED_DATA)))
    "PKCS#7 root content type is not SignedData (got {})";;
  ok_or (signed_data_decode (content ci)) "SignedData: {e}".

Definition attr_kind (a : Attribute) : option PageHashAttrKind :=
  if bool_decide (oid a = OID_PE_PAGE_HASHES_V1) then Some V1
  else if bool_decide (oid a = OID_PE_PAGE_HASHES_V2) then Some V2 else None.
(** The row of one signer. *)
Fixpoint signer_row (attrs : list Attribute) (row : list PageHashAttrValue)
    : list PageHashAttrValue :=
  match attrs with
  | [] => row
  | attr :: attrs' =>
      match attr_kind attr with
      | None => signer_row attrs' row
      | Some k => signer_row attrs' (row ++ ((λ v, mk_value k (any_value v)) <$> values attr))
      end
  end.
Definition page_hash_values_from_signed_data (sd : SignedData) : list (list PageHashAttrValue) :=
  (λ si, match signed_attrs si with Some attrs => signer_row attrs [] | None => [] end)
    <$> signer_infos sd.

(** [rows.into_iter().enumerate()], the empty rows skipped *)
Fixpoint push_locations (pkcs7 signer : Z) (rows : list (list PageHashAttrValue))
    (out : list PePageHashAttrLocation) : list PePageHashAttrLocation :=
  match rows with
  | [] => out
  | row :: rows' =>
      push_locations pkcs7 (signer + 1) rows'
        (match row with [] => out | _ => out ++ [mk_location pkcs7 signer row] end)
  end.

Section Embedded.
Context `{PeCrates} `{CmsCrates}.

Fixpoint collect_entries (idx : Z) (entries : list (option AttributeCertificate))
    (out : list PePageHashAttrLocation) : outcome (list PePageHashAttrLocation) :=
  match entries with
  | [] => Ok out
  | entry :: entries' =>
      attr ← ok_or entry entry_invalid;
      collect_entries (idx + 1) entries'
        (if negb (is_pkcs7 attr) then out else
         match decode_signed_data (attr_data attr) with
         | Ok sd => push_locations idx 0 (page_hash_values_from_signed_data sd) out
         | _ => out
         end)
  end.
Definition pe_collect_page_hash_auth_attributes (bs : bytes)
    : outcome (list PePageHashAttrLocation) :=
  iter ← certificate_entries bs;
  match iter with
  | None => Ok []
  | Some entries => collect_entries 0 entries []
  end.

(** The two nested loops, with [verified_table]. *)
Fixpoint verify_values `{DigestOracle} (pe_image : bytes) (vs : list PageHashAttrValue)
    (verified_table : bool) : outcome bool :=
  match vs with
  | [] => Ok verified_table
  | v :: vs' =>
      entries ← parse_page_hash_attribute_entries (value_der v) (kind v);
      match entries with
      | [] => verify_values pe_image vs' verified_table
      | _ =>
          with_context (verify_page_hash_entries_contiguous_file_offsets pe_image entries (kind v))
            "pkcs7_index={} signer_index={} kind {:?}";;
          verify_values pe_image vs' true
      end
  end.
Fixpoint verify_locations `{DigestOracle} (pe_image : bytes) (locs : list PePageHashAttrLocation)
    (verified_table : bool) : outcome bool :=
  match locs with
  | [] => Ok verified_table
  | loc :: locs' =>
      verified_table ← verify_values pe_image (location_values loc) verified_table;
      verify_locations pe_image locs' verified_table
  end.
Definition verify_pe_embedded_page_hash_tables `{DigestOracle} (pe_image : bytes) : outcome unit :=
  locs ← pe_collect_page_hash_auth_attributes pe_image;
  bail_if (match locs with [] => true | _ => false end)
    "no CMS signed_attributes carrying SPC_PE_IMAGE_PAGE_HASHES in embedded PKCS#7";;
  verified_table ← verify_locations pe_image locs false;
  bail_if (negb verified_table)
    "PE page-hash attributes present but no non-empty parsable tables".

(** ** Looking for the attribute *)

(** The two identifiers as encoded OBJECT IDENTIFIERs. *)
Definition PAGE_HASHES_OID_PREFIX : bytes :=
  byte_of <$> [6; 10; 43; 6; 1; 4; 1; 130; 55; 2; 3].
Definition SPC_PE_IMAGE_PAGE_HASHES_V1_OID_DER : bytes := PAGE_HASHES_OID_PREFIX ++ [byte_of 1].
Definition SPC_PE_IMAGE_PAGE_HASHES_V2_OID_DER : bytes := PAGE_HASHES_OID_PREFIX ++ [byte_of 2].

(** [haystack.windows(n)], for a non-zero [n] *)
Definition windows (haystack : bytes) (n : nat) : list bytes :=
  (λ i, take n (drop i haystack)) <$> seq 0 (S (length haystack) - n).
Definition contains_oid_tlv (haystack oid_tlv : bytes) : bool :=
  existsb (λ w, bool_decide (w = oid_tlv)) (windows haystack (length oid_tlv)).
Definition pkcs7_signed_data_contains_page_hash_oid (pkcs7_der : bytes) : bool :=
  contains_oid_tlv pkcs7_der SPC_PE_IMAGE_PAGE_HASHES_V1_OID_DER
  || contains_oid_tlv pkcs7_der SPC_PE_IMAGE_PAGE_HASHES_V2_OID_DER.

Definition entry_has_page_hashes (data : bytes) : bool :=
  match decode_signed_data data with
  | Ok sd =>
      existsb (λ row, match row with [] => false | _ => true end)
        (page_hash_values_from_signed_data sd)
      || pkcs7_signed_data_contains_page_hash_oid data
  | _ => pkcs7_signed_data_contains_page_hash_oid data
  end.
Fixpoint any_entry_has_page_hashes (entries : list (option AttributeCertificate)) : outcome bool :=
  match entries with
  | [] => Ok false
  | entry :: entries' =>
      attr ← ok_or entry entry_invalid;
      if negb (is_pkcs7 attr) then any_entry_has_page_hashes entries' else
      if entry_has_page_hashes (attr_data attr) then Ok true
      else any_entry_has_page_hashes entries'
  end.
Definition pe_embedded_pkcs7_contains_page_hash_attribute (bs : bytes) : outcome bool :=
  iter ← certificate_entries bs;
  match iter with
  | None => Ok false
  | Some entries => any_entry_has_page_hashes entries
  end.
End Embedded.

(** ** The loops end

    Each member of the SET is at least a header, each row of the table at least
    four bytes, so that the fuel is never used up. *)
Lemma set_member_total `{CmsCrates} sr acc :
  is_Some (loop set_member_step (S (length sr)) (sr, acc)).
Proof.
  apply (loop_total _ (λ _, True) (λ s, len s.1)); [|done|cbn; unfold len; lia|apply len_nonneg].
  intros [r a] [r' a'] _. unfold set_member_step. destruct (len r =? 0); [done|].
  destruct (mbind _ _) as [s| |] eqn:E; [|done..]. intros [= ->]. split; [done|]. cbn [fst].
  apply bind_Ok in E as ([[tag n] r1] & Hh & E). apply ok_or_Ok, header_decode_len in Hh.
  apply bail_bind_Ok in E as [_ E]. apply bind_Ok in E as ([body r2] & Hr & E).
  apply ok_or_Ok, read_slice_len in Hr. apply bind_Ok in E as (q & _ & E). apply bind_Ok in E as (q' & _ & E).
  apply bind_Ok in E as ([o q2] & _ & [= <- <-]). pose proof (len_nonneg r2). lia.
Qed.
Lemma flat_total data dl :
  0 <= dl → is_Some (loop (flat_step data dl) (S (length data)) (0, [])).
Proof.
  intros Hdl. apply (loop_total _ (λ s, 0 <= s.1 <= len data) (λ s, len data - s.1));
    [|cbn; pose proof (len_nonneg data); lia|cbn; unfold len; lia|cbn; pose proof (len_nonneg data); lia].
  intros [i o] [i' o'] Hi. cbn [fst] in *. unfold flat_step.
  destruct (_ <=? _) eqn:E; [|done]. zbool. rewrite !index_range_in by lia. cbn [mbind outcome_bind].
  destruct (all_zero _); [done|]. intros [= <- <-]. lia.
Qed.

(** ** The grammar of the flat table *)

Definition flat_row (e : PageHashTableEntry) : bytes :=
  to_le 4 (page_end_offset e) ++ entry_digest e.
Definition flat_rows (es : list PageHashTableEntry) : bytes := es ≫= flat_row.
Definition entry_wf (digest_len : Z) (e : PageHashTableEntry) : Prop :=
  0 <= page_end_offset e < U32 ∧ len (entry_digest e) = digest_len ∧
  all_zero (entry_digest e) = false.
(** What may follow the rows: less than a row of zeros, or a terminator row,
    any offset with an all-zero digest, and zeros. *)
Definition table_end (digest_len : Z) (tail : bytes) : Prop :=
  (len tail < 4 + digest_len ∧ all_zero tail = true) ∨
  (4 + digest_len <= len tail ∧ all_zero (sub tail 4 (len tail)) = true).

Lemma all_zero_app a b : all_zero (a ++ b) = all_zero a && all_zero b.
Proof. apply forallb_app. Qed.
Lemma flat_rows_app es es' : flat_rows (es ++ es') = flat_rows es ++ flat_rows es'.
Proof. apply bind_app. Qed.
Lemma flat_rows_single e : flat_rows [e] = flat_row e.
Proof. unfold flat_rows. cbn. apply app_nil_r. Qed.
Lemma len_flat_row dl e : entry_wf dl e → len (flat_row e) = 4 + dl.
Proof. intros (_ & H & _). unfold flat_row. slen. lia. Qed.

(** One round, on a buffer that holds a row at [i]. *)
Lemma flat_step_in data dl i out :
  0 <= i → 0 < dl → i + 4 + dl <= len data →
  flat_step data dl (i, out) =
  let digest := sub data (i + 4) (i + 4 + dl) in
  if all_zero digest then inr (Ok (i + 4 + dl, out))
  else inl (i + 4 + dl, out ++ [mk_entry (from_le (sub data i (i + 4))) digest]).
Proof.
  intros. unfold flat_step. rewrite (proj2 (Z.leb_le _ _)) by lia.
  rewrite !index_range_in by lia. done.
Qed.
Lemma flat_step_out data dl i out :
  len data < i + 4 + dl → flat_step data dl (i, out) = inr (Ok (i, out)).
Proof. intros. unfold flat_step. by rewrite (proj2 (Z.leb_gt _ _)) by lia. Qed.

Lemma flat_loop es dl pre tail out fuel :
  0 < dl → Forall (entry_wf dl) es → table_end dl tail → (length es < fuel)%nat →
  let data := pre ++ flat_rows es ++ tail in
  ∃ i, loop (flat_step data dl) fuel (len pre, out) = Some (Ok (i, out ++ es)) ∧
    0 <= i <= len data ∧ all_zero (sub data i (len data)) = true.
Proof.
  intros Hdl Hes Htail. cbn zeta. revert pre out fuel.
  induction Hes as [|e es He Hes IH]; intros pre out [|fuel] Hf; cbn [length] in Hf; try lia; cbn [loop].
  - change (flat_rows [] ++ tail) with tail. rewrite app_nil_r, len_app.
    pose proof (len_nonneg pre). pose proof (len_nonneg tail).
    assert (∀ o, 0 <= o → sub (pre ++ tail) (len pre + o) (len pre + len tail) = sub tail o (len tail)) as Hs.
    { intros o Ho. rewrite sub_app_r by lia. f_equal; lia. }
    destruct Htail as [[Hl Hz]|[Hl Hz]].
    + rewrite flat_step_out by (slen; lia). exists (len pre). split; [done|]. split; [lia|].
      rewrite <-(Z.add_0_r (len pre)) at 1. rewrite Hs by lia. by rewrite sub_full.
    + assert (all_zero (sub tail 4 (4 + dl)) = true ∧ all_zero (sub tail (4 + dl) (len tail)) = true) as [H1 H2].
      { rewrite (sub_split tail 4 (4 + dl)) in Hz by lia. rewrite all_zero_app in Hz. by apply andb_true_iff. }
      rewrite flat_step_in by (slen; lia). cbn zeta.
      replace (sub (pre ++ tail) (len pre + 4) (len pre + 4 + dl)) with (sub tail 4 (4 + dl))
        by (rewrite sub_app_r by lia; f_equal; lia).
      rewrite H1. eexists. split; [done|]. split; [lia|].
      rewrite <-Z.add_assoc, Hs by lia. done.
  - change (flat_rows (e :: es)) with (flat_row e ++ flat_rows es). pose proof (len_flat_row _ _ He) as Hr.
    destruct He as (Hoff & Hld & Hnz). pose proof (len_nonneg pre). pose proof (len_nonneg (flat_rows es)).
    pose proof (len_nonneg tail). rewrite flat_step_in by (rewrite ?len_app; lia). cbn zeta.
    assert (sub (pre ++ (flat_row e ++ flat_rows es) ++ tail) (len pre) (len pre + 4) = to_le 4 (page_end_offset e)) as Hw1.
    { rewrite sub_app_r by lia. unfold flat_row. rewrite <-!app_assoc, sub_app_l by (rewrite ?len_to_le; lia).
      rewrite Z.sub_diag. apply sub_full_ge. rewrite len_to_le. lia. }
    assert (sub (pre ++ (flat_row e ++ flat_rows es) ++ tail) (len pre + 4) (len pre + 4 + dl) = entry_digest e) as Hw2.
    { rewrite sub_app_r by lia. unfold flat_row. rewrite <-!app_assoc, sub_app_r by (rewrite ?len_to_le; lia).
      rewrite len_to_le, sub_app_l by lia. trans (sub (entry_digest e) 0 (len (entry_digest e)));
        [f_equal; lia|apply sub_full]. }
    rewrite Hw1, Hw2, Hnz, from_to_le_small by lia. cbn iota.
    destruct (IH (pre ++ flat_row e) (out ++ [mk_entry (page_end_offset e) (entry_digest e)]) fuel) as (i & Hi & Hb & Hz);
      [lia|]. exists i. rewrite len_app, Hr in Hi. rewrite <-!app_assoc in *. cbn [app] in Hi.
    split; [|done]. destruct e as [o d]. cbn [page_end_offset entry_digest] in *. rewrite <-Hi.
    do 2 f_equal. lia.
Qed.

Lemma length_flat_rows es dl : 0 < dl → Forall (entry_wf dl) es → Z.of_nat (length es) <= len (flat_rows es).
Proof.
  intros Hdl. induction 1 as [|e es He _ IH]; [done|].
  change (flat_rows (e :: es)) with (flat_row e ++ flat_rows es).
  rewrite len_app, (len_flat_row _ _ He). cbn [length]. lia.
Qed.

(** The loop, on any buffer: the rows read spell the buffer up to where it
    stopped. *)
Lemma flat_loop_inv data dl fuel i out :
  0 < dl → loop (flat_step data dl) fuel (0, []) = Some (Ok (i, out)) →
  0 <= i <= len data ∧ Forall (entry_wf dl) out ∧
  ((sub data 0 i = flat_rows out ∧ len data < i + 4 + dl) ∨
   ∃ j, i = j + 4 + dl ∧ 0 <= j ∧ sub data 0 j = flat_rows out ∧ all_zero (sub data (j + 4) i) = true).
Proof.
  intros Hdl. pose (I := λ s : Z * list PageHashTableEntry,
    0 <= s.1 <= len data ∧ Forall (entry_wf dl) s.2 ∧ sub data 0 s.1 = flat_rows s.2).
  pose (Q := λ r : outcome (Z * list PageHashTableEntry), ∀ i out, r = Ok (i, out) →
    0 <= i <= len data ∧ Forall (entry_wf dl) out ∧
    ((sub data 0 i = flat_rows out ∧ len data < i + 4 + dl) ∨
     ∃ j, i = j + 4 + dl ∧ 0 <= j ∧ sub data 0 j = flat_rows out ∧ all_zero (sub data (j + 4) i) = true)).
  intros Hl. enough (Q (Ok (i, out))) as HQ by by apply HQ.
  refine (loop_inv (flat_step data dl) I Q _ _ _ _ _ _ Hl); [| |split; [cbn; pose proof (len_nonneg data); lia|];
    split; [constructor|done]].
  - intros [i' o] s' (Hi & Hw & Hs). cbn [fst snd] in *. destruct (decide (i' + 4 + dl <= len data)).
    + rewrite flat_step_in by lia. cbn zeta. destruct (all_zero _) eqn:Ez; [done|]. intros [= <-].
      split; cbn [fst snd]; [lia|]. pose proof (from_le_range (sub data i' (i' + 4))) as Hr.
      rewrite len_sub in Hr by lia. replace (8 * (i' + 4 - i')) with 32 in Hr by lia.
      split; [apply Forall_app_2; [done|]; constructor; [|done]; unfold entry_wf; cbn [page_end_offset entry_digest];
        split_and!; [lia|lia|rewrite len_sub; lia|done]|].
      rewrite flat_rows_app, flat_rows_single, <-Hs. unfold flat_row. cbn [page_end_offset entry_digest].
      rewrite to_from_le by (pose proof (len_sub data i' (i' + 4)); unfold len in *; lia).
      rewrite (sub_split data 0 i' (i' + 4 + dl)), (sub_split data i' (i' + 4) (i' + 4 + dl)) by lia. done.
    + by rewrite flat_step_out by lia.
  - intros [i' o] r (Hi & Hw & Hs). cbn [fst snd] in *. destruct (decide (i' + 4 + dl <= len data)).
    + rewrite flat_step_in by lia. cbn zeta. destruct (all_zero _) eqn:Ez; [|done]. intros [= <-] i0 o0 [= <- <-].
      split; [lia|]. split; [done|]. right. exists i'. split_and!; [done|lia|done|done].
    + rewrite flat_step_out by lia. intros [= <-] i0 o0 [= <- <-]. split; [done|]. split; [done|]. left. by split; [|lia].
Qed.

(** ** The contiguous check *)

Section Contiguous.
Context `{DigestOracle} (image : bytes) (k : PageHashAttrKind).

(** The table a signer computes for the cuts [cuts] of the file. *)
Fixpoint page_table (start : Z) (cuts : list Z) : list PageHashTableEntry :=
  match cuts with
  | [] => []
  | c :: cuts' => mk_entry c (page_digest k (sub image start c)) :: page_table c cuts'
  end.
(** Cuts strictly increasing from [start], within the file. *)
Fixpoint cuts_from (start : Z) (cuts : list Z) : Prop :=
  match cuts with
  | [] => True
  | c :: cuts' => start < c ∧ c <= len image ∧ cuts_from c cuts'
  end.

Lemma page_digest_len bs : len (page_digest k bs) = digest_byte_len_for_page_hash_attr k.
Proof. destruct k; cbn; apply digest_len. Qed.

Lemma verify_rows_Ok start rows :
  0 <= start →
  verify_rows image k start rows = Ok tt ↔
  ∃ cuts, cuts_from start cuts ∧ rows = page_table start cuts.
Proof.
  revert start. induction rows as [|[c d] rows IH]; intros start Hs; cbn [verify_rows].
  - split; [by exists []|done].
  - cbn [page_end_offset entry_digest]. split.
    + intros Hv. do 3 apply bail_bind_Ok in Hv as [? Hv]. apply bind_Ok in Hv as (slice & Hsl & Hv).
      apply bail_bind_Ok in Hv as [? Hv]. zbool. apply index_range_Ok in Hsl as (? & ? & ? & ->). subst d.
      apply IH in Hv as (cuts & Hc & ->); [|lia]. exists (c :: cuts). by cbn.
    + intros ([|c' cuts] & Hc & Heq); [done|]. cbn in Hc. destruct Hc as (? & ? & Hc). cbn in Heq.
      injection Heq as -> -> ->. rewrite page_digest_len, Z.eqb_refl. run.
      rewrite index_range_in by lia. cbn [mbind outcome_bind]. rewrite bool_decide_eq_true_2 by done.
      cbn. apply IH; [lia|]. by exists cuts.
Qed.

(** *** Sorting *)
Definition end_le (a b : PageHashTableEntry) : Prop := page_end_offset a <= page_end_offset b.

Lemma insert_by_end_perm e es : insert_by_end e es ≡ₚ e :: es.
Proof.
  induction es as [|e' es IH]; cbn; [done|]. destruct (_ <=? _); [done|].
  rewrite IH. apply Permutation_swap.
Qed.
Lemma sort_by_end_perm es : sort_by_end es ≡ₚ es.
Proof.
  induction es as [|e es IH]; [done|].
  change (sort_by_end (e :: es)) with (insert_by_end e (sort_by_end es)).
  by rewrite insert_by_end_perm, IH.
Qed.
Lemma insert_by_end_sorted e es : StronglySorted end_le es → StronglySorted end_le (insert_by_end e es).
Proof.
  induction 1 as [|e' es Hs IH Hall]; cbn; [by repeat constructor|]. destruct (_ <=? _) eqn:E; zbool.
  - constructor; [by constructor|]. constructor; [done|].
    eapply Forall_impl; [exact Hall|]. unfold end_le. intros; lia.
  - constructor; [done|]. apply (proj2 (Forall_forall _ _)). intros x Hx.
    rewrite insert_by_end_perm in Hx. apply elem_of_cons in Hx as [-> |Hx]; [unfold end_le; lia|].
    exact (proj1 (Forall_forall _ _) Hall x Hx).
Qed.
Lemma sort_by_end_sorted es : StronglySorted end_le (sort_by_end es).
Proof. induction es as [|e es IH]; [constructor|]. by apply insert_by_end_sorted. Qed.

Lemma page_table_sorted start cuts :
  cuts_from start cuts →
  StronglySorted end_le (page_table start cuts) ∧
  Forall (λ e, start < page_end_offset e) (page_table start cuts) ∧
  NoDup (page_end_offset <$> page_table start cuts).
Proof.
  revert start. induction cuts as [|c cuts IH]; intros start; cbn.
  - intros _. repeat constructor.
  - intros (Hc & _ & Hr). destruct (IH c Hr) as (Hs & Hall & Hnd). split; [|split].
    + constructor; [done|]. eapply Forall_impl; [exact Hall|]. unfold end_le. cbn. intros; lia.
    + constructor; [done|]. eapply Forall_impl; [exact Hall|]. cbn. intros; lia.
    + constructor; [|done]. intros (e & Heq & He)%list_elem_of_fmap.
      apply (proj1 (Forall_forall _ _) Hall) in He. lia.
Qed.
Lemma sort_page_table start cuts es :
  cuts_from start cuts → es ≡ₚ page_table start cuts → sort_by_end es = page_table start cuts.
Proof.
  intros Hc Hp. destruct (page_table_sorted _ _ Hc) as (Hs & _ & Hnd).
  assert (sort_by_end es ≡ₚ page_table start cuts) as Hp' by by rewrite sort_by_end_perm.
  apply (StronglySorted_unique_strong end_le); [|apply sort_by_end_sorted|done|done].
  intros x1 x2 H1 H2 ? ?. rewrite Hp' in H1. assert (page_end_offset x1 = page_end_offset x2) as He
    by (unfold end_le in *; lia).
  apply list_elem_of_lookup in H1 as [i Hi]. apply list_elem_of_lookup in H2 as [j Hj].
  assert (i = j) as ->; [|congruence]. eapply (NoDup_lookup _ _ _ (page_end_offset x1)); [exact Hnd|..].
  - by rewrite list_lookup_fmap, Hi.
  - by rewrite list_lookup_fmap, Hj, He.
Qed.
End Contiguous.

Lemma verify_entries_Ok `{DigestOracle} image entries k :
  verify_page_hash_entries_contiguous_file_offsets image entries k = Ok tt ↔
  ∃ cuts, cuts_from image 0 cuts ∧ entries ≡ₚ page_table image k 0 cuts.
Proof.
  unfold verify_page_hash_entries_contiguous_file_offsets. rewrite verify_rows_Ok by lia.
  split; intros (cuts & Hc & He); exists cuts; (split; [done|]).
  - by rewrite <-He, sort_by_end_perm.
  - by apply sort_page_table.
Qed.

(** A value of the attribute is in order: its table parses, and is empty or a
    page table of the image, its rows in any order. *)
Definition value_accepted `{CmsCrates} `{DigestOracle} (image : bytes) (v : PageHashAttrValue)
    (nonempty : bool) : Prop :=
  ∃ entries, parse_page_hash_attribute_entries (value_der v) (kind v) = Ok entries ∧
    (if nonempty then entries ≠ [] else entries = []) ∧
    ∃ cuts, cuts_from image 0 cuts ∧ entries ≡ₚ page_table image (kind v) 0 cuts.

Section EmbeddedSpec.
Context `{PeCrates} `{CmsCrates} `{DigestOracle} (image : bytes).

Lemma verify_values_Ok vs b b' :
  verify_values image vs b = Ok b' ↔
  ∃ flags, Forall2 (value_accepted image) vs flags ∧ b' = b || existsb id flags.
Proof.
  revert b. induction vs as [|v vs IH]; intros b; cbn [verify_values].
  - split.
    + intros [= <-]. exists []. split; [constructor|]. by rewrite orb_false_r.
    + intros (flags & Hf%Forall2_nil_inv_l & ->). subst flags. by rewrite orb_false_r.
  - rewrite bind_Ok. split.
    + intros (entries & He & Hv). destruct entries as [|e es] eqn:Ees.
      * apply IH in Hv as (flags & Hf & ->). exists (false :: flags). split; [|done].
        constructor; [|done]. exists []. split; [done|]. split; [done|]. by exists [].
      * apply bind_Ok in Hv as ([] & Hc & Hv). apply IH in Hv as (flags & Hf & ->).
        exists (true :: flags). split; [|by rewrite orb_true_l, orb_true_r].
        constructor; [|done]. exists (e :: es). split; [done|]. split; [done|].
        apply verify_entries_Ok. unfold with_context in Hc.
        by destruct (verify_page_hash_entries_contiguous_file_offsets _ _ _) as [[]| |].
    + intros (flags & Hf & ->). apply Forall2_cons_inv_l in Hf as (fl & flags' & Hv & Hf & ->).
      destruct Hv as (entries & He & Hfl & Hc%verify_entries_Ok). exists entries. split; [done|].
      destruct fl.
      * destruct entries as [|e es]; [done|]. rewrite Hc. cbn [with_context mbind outcome_bind].
        apply IH. exists flags'. split; [done|]. cbn. by rewrite orb_true_r.
      * subst entries. apply IH. exists flags'. by split.
Qed.
Lemma verify_locations_Ok locs b b' :
  verify_locations image locs b = Ok b' ↔
  ∃ flags, Forall2 (value_accepted image) (locs ≫= location_values) flags ∧ b' = b || existsb id flags.
Proof.
  revert b. induction locs as [|loc locs IH]; intros b; cbn [verify_locations].
  - split.
    + intros [= <-]. exists []. split; [constructor|]. by rewrite orb_false_r.
    + intros (flags & Hf%Forall2_nil_inv_l & ->). subst flags. by rewrite orb_false_r.
  - change ((loc :: locs) ≫= location_values) with (location_values loc ++ (locs ≫= location_values)).
    rewrite bind_Ok. split.
    + intros (b1 & (f1 & Hf1 & ->)%verify_values_Ok & (f2 & Hf2 & ->)%IH). exists (f1 ++ f2).
      split; [by apply Forall2_app|]. by rewrite existsb_app, orb_assoc.
    + intros (flags & Hf & ->). apply Forall2_app_inv_l in Hf as (f1 & f2 & Hf1 & Hf2 & ->).
      exists (b || existsb id f1). split; [apply verify_values_Ok; eauto|].
      apply IH. exists f2. split; [done|]. by rewrite existsb_app, orb_assoc.
Qed.
End EmbeddedSpec.

(** Two page tables that are equal digest equal or colliding slices. *)
Lemma page_tables_agree `{DigestOracle} image1 image2 k start cuts1 cuts2 :
  0 <= start → cuts_from image1 start cuts1 → cuts_from image2 start cuts2 →
  page_table image1 k start cuts1 = page_table image2 k start cuts2 →
  (∀ m, m ∈ cuts1 → sub image1 start m = sub image2 start m) ∨
  ∃ s e, sub image1 s e ≠ sub image2 s e ∧
    page_digest k (sub image1 s e) = page_digest k (sub image2 s e).
Proof.
  revert start cuts2. induction cuts1 as [|c cuts1 IH]; intros start [|c2 cuts2] Hs; cbn; try done.
  - left. intros m Hm. by apply elem_of_nil in Hm.
  - intros (H1 & H1' & Hc1) (H2 & H2' & Hc2) Heq. apply (inj2 cons) in Heq as [He Ht].
    injection He as <- Hd.
    destruct (decide (sub image1 start c = sub image2 start c)) as [Hsub|]; [|right; by exists start, c].
    destruct (IH c cuts2 ltac:(lia) Hc1 Hc2 Ht) as [IHl|]; [left|by right].
    intros m [-> |Hm]%elem_of_cons; [done|]. assert (c <= m) as Hcm.
    { clear -Hc1 Hm. revert c Hc1. induction cuts1 as [|x l IH]; intros c; cbn; [by apply elem_of_nil in Hm|].
      intros (? & _ & Hl). apply elem_of_cons in Hm as [-> |Hm]; [lia|].
      pose proof (IH Hm x Hl). lia. }
    by rewrite (sub_split image1 start c m), (sub_split image2 start c m), Hsub, IHl by (done || lia).
Qed.

(** The grammar of the page-hash table: parsing yields exactly the rows
    that spell the payload, an offset in four little-endian octets and a
    digest that is not all zero each, up to a terminator with an all-zero
    digest or to less than a row, after which all octets are zero; any other
    payload is refused, and a table that is printed is read back. *)
Theorem flat_table_grammar data digest_len es :
  0 < digest_len →
  parse_page_hash_flat_pairs_le data digest_len = Ok es ↔
  ∃ tail, data = flat_rows es ++ tail ∧ Forall (entry_wf digest_len) es ∧ table_end digest_len tail.
Proof.
  intros Hdl. unfold parse_page_hash_flat_pairs_le. rewrite (proj2 (Z.eqb_neq _ _)) by lia.
  cbn [bail_if mbind outcome_bind]. rewrite bind_Ok. split.
  - intros ([i out] & Hl & Hp). pose proof (len_nonneg data).
    destruct (loop _ _ _) as [o|] eqn:El in Hl; [|done]. cbn [default from_option id] in Hl. subst o.
    apply flat_loop_inv in El as (Hi & Hw & Hcase); [|done].
    apply bind_Ok in Hp as (rest & Hrest & Hp). apply bail_bind_Ok in Hp as [Hz [= ->]].
    assert (all_zero (sub data i (len data)) = true) as Hz'.
    { destruct (i <? len data) eqn:E; zbool.
      - apply index_range_Ok in Hrest as (_ & _ & _ & ->). by apply negb_false_iff in Hz.
      - by rewrite sub_nil_range by lia. }
    destruct Hcase as [[Hs Hshort]|(j & -> & Hj & Hs & Hzd)].
    + exists (sub data i (len data)). rewrite <-Hs. split; [apply sub_head_tail; lia|]. split; [done|].
      left. rewrite len_sub by lia. split; [lia|done].
    + exists (sub data j (len data)). rewrite <-Hs. split; [apply sub_head_tail; lia|]. split; [done|].
      right. rewrite len_sub by lia. split; [lia|]. rewrite sub_sub by lia.
      rewrite (sub_split data (j + 4) (j + 4 + digest_len)) by lia. rewrite all_zero_app, Hzd.
      by replace (j + (len data - j)) with (len data) by lia.
  - intros (tail & -> & Hw & Ht). pose proof (length_flat_rows es digest_len Hdl Hw) as Hlen.
    destruct (flat_loop es digest_len [] tail [] (S (length (flat_rows es ++ tail))) Hdl Hw Ht)
      as (i & Hi & Hb & Hz).
    { rewrite length_app. unfold len in *. lia. }
    cbn [app] in Hi, Hb, Hz. rewrite len_nil in Hi. exists (i, es). rewrite Hi. split; [done|].
    destruct (i <? len (flat_rows es ++ tail)) eqn:E; zbool.
    + rewrite index_range_in by lia. cbn [mbind outcome_bind]. by rewrite Hz.
    + done.
Qed.
Definition test_entries : list PageHashTableEntry :=
  [mk_entry 4096 (lit "0123456789abcdefghij"); mk_entry 5000 (lit "abcdefghij0123456789")].
Lemma flat_table_grammar_witness :
  parse_page_hash_flat_pairs_le (flat_rows test_entries ++ replicate 30 (byte_of 0)) 20 = Ok test_entries.
Proof.
  apply (flat_table_grammar _ 20); [lia|]. eexists. split; [reflexivity|]. split.
  - repeat (apply Forall_cons_2; [split; [cbn; lia|split; by vm_compute]|]). constructor.
  - right. split; [by vm_compute|by vm_compute].
Defined.

(** The embedded page-hash check of a PE, on any bytes: it accepts exactly
    when the signers' attributes can be collected, every one of their tables
    parses and is empty or the table of this image for some increasing cuts
    of it (in any row order, at the attribute's hash), and one is not empty. *)
Theorem embedded_page_hashes_spec `{PeCrates} `{CmsCrates} `{DigestOracle} image :
  verify_pe_embedded_page_hash_tables image = Ok tt ↔
  ∃ locs flags, pe_collect_page_hash_auth_attributes image = Ok locs ∧
    Forall2 (value_accepted image) (locs ≫= location_values) flags ∧ true ∈ flags.
Proof.
  unfold verify_pe_embedded_page_hash_tables. rewrite bind_Ok. split.
  - intros (locs & Hl & Hv). apply bail_bind_Ok in Hv as [_ Hv]. apply bind_Ok in Hv as (b & Hb & Hv).
    apply bail_if_Ok, negb_false_iff in Hv. subst b. apply verify_locations_Ok in Hb as (flags & Hf & Hb).
    exists locs, flags. split; [done|]. split; [done|]. symmetry in Hb. cbn in Hb.
    apply existsb_exists in Hb as (x & Hx & Hid). cbn in Hid. subst x. by apply list_elem_of_In.
  - intros (locs & flags & Hl & Hf & Ht). exists locs. split; [done|].
    assert (verify_locations image locs false = Ok true) as Hv.
    { apply verify_locations_Ok. exists flags. split; [done|]. symmetry. apply existsb_exists.
      exists true. split; [by apply list_elem_of_In|done]. }
    destruct locs as [|loc locs].
    + apply Forall2_nil_inv_l in Hf as ->. by apply elem_of_nil in Ht.
    + rewrite Hv. done.
Qed.

(** C12: A page-hash table binds the image: two images accepted with the same
    table agree on every byte before any row's end offset, or a page of the
    two is a collision of the hash function. *)
Theorem page_hashes_bind_image `{DigestOracle} image1 image2 entries k :
  verify_page_hash_entries_contiguous_file_offsets image1 entries k = Ok tt →
  verify_page_hash_entries_contiguous_file_offsets image2 entries k = Ok tt →
  (∀ e, e ∈ entries → sub image1 0 (page_end_offset e) = sub image2 0 (page_end_offset e)) ∨
  (∃ s e, sub image1 s e ≠ sub image2 s e ∧
     page_digest k (sub image1 s e) = page_digest k (sub image2 s e)).
Proof.
  intros (cuts1 & Hc1 & Hp1)%verify_entries_Ok (cuts2 & Hc2 & Hp2)%verify_entries_Ok.
  pose proof (sort_page_table _ _ _ _ _ Hc1 Hp1) as Hs1. pose proof (sort_page_table _ _ _ _ _ Hc2 Hp2) as Hs2.
  rewrite Hs1 in Hs2. destruct (page_tables_agree image1 image2 k 0 cuts1 cuts2 (Z.le_refl 0) Hc1 Hc2 Hs2) as [Ha|]; [left|by right].
  intros e He. apply Ha. rewrite Hp1 in He. clear -He. revert He. generalize 0.
  induction cuts1 as [|c cuts IH]; intros s; cbn; [by intros ?%elem_of_nil|].
  intros [-> |He]%elem_of_cons; apply elem_of_cons; [by left|right]. by eapply IH.
Qed.
Lemma page_hashes_bind_image_witness :
  let image := lit "MZ page one, page two" in
  (∀ e, e ∈ @page_table ToyDigest image V2 0 [9; 21] →
     sub image 0 (page_end_offset e) = sub image 0 (page_end_offset e)) ∨
  (∃ s e, sub image s e ≠ sub image s e ∧
     @page_digest ToyDigest V2 (sub image s e) = @page_digest ToyDigest V2 (sub image s e)).
Proof.
  cbn zeta. apply (@page_hashes_bind_image ToyDigest _ _ (@page_table ToyDigest (lit "MZ page one, page two") V2 0 [9; 21]));
    by vm_compute.
Defined.
