(* ===== verification/CabDigest.v ===== *)
(** Cabinet files: [crates/psign-sip-digest/src/cab_digest.rs].

    Parsing the MSCF header and the signature extent, making room for the
    signature in an unsigned cabinet, appending it, extracting it, and the
    Authenticode digest of a cabinet. *)

From S2P Require Import Prelude.
From S2P Require Import PeDigest.

Definition FLAG_PREV_CABINET : Z := 0x0001.
Definition FLAG_NEXT_CABINET : Z := 0x0002.
Definition FLAG_RESERVE_PRESENT : Z := 0x0004.
Definition AB_RESERVE_EXPECTED : Z := 0x00100000.
Definition SIGNED_HEADER_EXTRA : Z := 20.

Record CabCtx := mk_CabCtx {
  header_size : Z; sigpos : Z; siglen : Z; fileend : Z; flags : Z }.

(** [flags & FLAG != 0] *)
Definition has_flag (flags flag : Z) : bool := negb (Z.land flags flag =? 0).

Definition read_u16_le (buf : bytes) (off : Z) : outcome Z :=
  ok_or (from_le <$> get_range buf off (off + 2)) "read past end at {off}".
Definition read_u32_le (buf : bytes) (off : Z) : outcome Z :=
  ok_or (from_le <$> get_range buf off (off + 4)) "read past end at {off}".
Definition write_u16_le (buf : bytes) (off value : Z) : outcome bytes :=
  if in_range buf off (off + 2) then Ok (patch buf off (to_le 2 value))
  else Err "write past end at {off}".
Definition write_u32_le (buf : bytes) (off value : Z) : outcome bytes :=
  if in_range buf off (off + 4) then Ok (patch buf off (to_le 4 value))
  else Err "write past end at {off}".
Definition checked_u32_add (a b : Z) (what : string) : outcome Z :=
  ok_or (checked_add32 a b) (what +:+ " exceeds CAB u32 range").

(** [while idx < data.len()]: [idx] grows, so the data's length is enough fuel. *)
Definition skip_cab_sz_step (data : bytes) (idx : Z) : Z + outcome Z :=
  if idx <? len data then
    match get_at data idx with
    | None => inr Panic
    | Some b => if u8 b =? 0 then inr (Ok (idx + 1)) else inl (idx + 1)
    end
  else inr (Err "truncated CAB sz field").
Definition skip_cab_sz (data : bytes) (idx : Z) : outcome Z :=
  r ← unwrap (loop (skip_cab_sz_step data) (S (length data)) idx); r.

Definition cffolder_table_offset (data : bytes) (flags : Z) : outcome Z :=
  if has_flag flags FLAG_PREV_CABINET then
    Err "multivolume CAB (FLAG_PREV_CABINET) is unsupported for portable signing"
  else if has_flag flags FLAG_NEXT_CABINET then
    idx ← skip_cab_sz data 36;
    skip_cab_sz data idx
  else Ok 36.

Definition parse_cab_context (data : bytes) : outcome CabCtx :=
  bail_if (len data <? 44) "CAB file too short";;
  sig ← index_range data 0 4;
  bail_if (negb (bool_decide (sig = lit "MSCF"))) "not a CAB file (missing MSCF signature)";;
  reserved1 ← read_u32_le data 4;
  bail_if (negb (reserved1 =? 0)) "CAB reserved1 must be zero";;
  flags ← read_u16_le data 30;
  bail_if (has_flag flags FLAG_PREV_CABINET)
    "multivolume CAB (FLAG_PREV_CABINET) is unsupported for Rust SIP digest";;
  fileend ← ok_or (try_u32 (len data)) "CAB file too large";
  if has_flag flags FLAG_RESERVE_PRESENT then
    header_size ← read_u32_le data 36;
    bail_if (negb (header_size =? SIGNED_HEADER_EXTRA))
      "unsupported CAB additional header size {header_size} (expected {SIGNED_HEADER_EXTRA})";;
    ab_reserved ← read_u32_le data 40;
    bail_if (negb (ab_reserved =? AB_RESERVE_EXPECTED))
      "unexpected CAB abReserve value 0x{ab_reserved:08x} (expected 0x00100000)";;
    sigpos ← read_u32_le data 44;
    siglen ← read_u32_le data 48;
    bail_if ((0 <? sigpos) && (siglen =? 0) || (sigpos =? 0) && (0 <? siglen))
      "corrupt CAB signature extent (sigpos/siglen)";;
    bail_if ((sigpos <? fileend) && negb (saturating_add32 sigpos siglen =? fileend))
      "CAB signature extent does not match file size (sigpos={sigpos}, siglen={siglen}, file={fileend})";;
    bail_if (fileend <=? sigpos) "CAB sigpos past end of file";;
    Ok (mk_CabCtx header_size sigpos siglen fileend flags)
  else Ok (mk_CabCtx 0 0 0 fileend flags).

(** The 24-byte reserve block inserted at offset 36. *)
Definition reserve_block : bytes :=
  byte_of <$> [0x14; 0; 0; 0; 0; 0; 0x10; 0; 0; 0; 0; 0; 0; 0; 0; 0; 0; 0; 0; 0; 0; 0; 0; 0].

(** The body of [for folder_index in 0..folder_count], and the loop. *)
Definition shift_folder (out : bytes) (entry : Z) : outcome bytes :=
  coff_cab_start ← read_u32_le out entry;
  v ← checked_u32_add coff_cab_start 24 "CFFOLDER coffCabStart";
  write_u32_le out entry v.
Fixpoint shift_folders (n : nat) (entry : Z) (out : bytes) : outcome bytes :=
  match n with
  | O => Ok out
  | S n' => out' ← shift_folder out entry; shift_folders n' (entry + 8) out'
  end.

Definition prepare_unsigned_cab_for_authenticode_signature (data : bytes) (signature_len : Z)
    : outcome bytes :=
  ctx ← parse_cab_context data;
  bail_if (has_flag (flags ctx) FLAG_RESERVE_PRESENT)
    "CAB already has a reserve header; replacing CAB signatures is not implemented";;
  bail_if (negb (sigpos ctx =? 0) || negb (siglen ctx =? 0))
    "CAB already has an embedded signature";;
  signature_len ← ok_or (try_u32 signature_len) "CAB signature too large";
  original_len ← ok_or (try_u32 (len data)) "CAB file too large";
  sigpos ← checked_u32_add original_len 24 "signed CAB header";
  original_cb_cabinet ← read_u32_le data 8;
  bail_if (negb (original_cb_cabinet =? original_len))
    "unsupported CAB cbCabinet {} (expected unsigned file size {})";;
  original_coff_files ← read_u32_le data 16;
  folder_count ← read_u16_le data 26;
  original_folder_table ← cffolder_table_offset data (flags ctx);
  folder_table_end ← ok_or
    (checked_add64 original_folder_table (Z.min (folder_count * 8) (U64 - 1)))
    "CFFOLDER table overflow";
  bail_if (original_coff_files <? folder_table_end)
    "CFFOLDER table extends past coffFiles (end={folder_table_end}, coffFiles={original_coff_files_usize})";;
  head ← index_range data 0 36;
  tail ← index_range data 36 (len data);
  let out := head ++ reserve_block ++ tail in
  let new_flags := Z.lor (flags ctx) FLAG_RESERVE_PRESENT in
  out ← write_u32_le out 8 sigpos;
  coff_files ← checked_u32_add original_coff_files 24 "coffFiles";
  out ← write_u32_le out 16 coff_files;
  out ← write_u16_le out 30 new_flags;
  out ← write_u32_le out 44 sigpos;
  out ← write_u32_le out 48 signature_len;
  new_folder_table ← ok_or (checked_add64 original_folder_table 24)
    "CFFOLDER table offset overflow";
  shift_folders (Z.to_nat folder_count) new_folder_table out.

Definition cab_append_authenticode_pkcs7_signature (data pkcs7 : bytes) : outcome bytes :=
  out ← prepare_unsigned_cab_for_authenticode_signature data (len pkcs7);
  Ok (out ++ pkcs7).

(** [hasher.update(&data[s..e])] *)
Definition feed (h : RunningHasher) (data : bytes) (s e : Z) : outcome RunningHasher :=
  hasher_update h <$> index_range data s e.

(** [while idx < fileend]; the variables are the hasher and [idx]. *)
Definition hash_sz_step (data : bytes) (fileend : Z) (s : RunningHasher * Z)
    : (RunningHasher * Z) + outcome (RunningHasher * Z) :=
  let '(h, idx) := s in
  if idx <? fileend then
    match get_at data idx with
    | None => inr Panic
    | Some b =>
        let h := hasher_update h [b] in
        if u8 b =? 0 then inr (Ok (h, idx + 1)) else inl (h, idx + 1)
    end
  else inr (Ok (h, idx)).
Definition hash_sz_field (h : RunningHasher) (data : bytes) (idx fileend : Z)
    : outcome (RunningHasher * Z) :=
  r ← unwrap (loop (hash_sz_step data fileend) (S (length data)) (h, idx)); r.

(** [while remaining > 0 && idx < sigpos]: [remaining] is the counter. *)
Fixpoint hash_folders (remaining : nat) (h : RunningHasher) (data : bytes) (idx sigpos : Z)
    : outcome (RunningHasher * Z * nat) :=
  match remaining with
  | O => Ok (h, idx, O)
  | S remaining' =>
      if idx <? sigpos then
        end_ ← ok_or (checked_add64 idx 8) "folder table overflow";
        bail_if (sigpos <? end_) "CFFOLDER entries overflow signature offset";;
        h ← feed h data idx end_;
        hash_folders remaining' h data end_ sigpos
      else Ok (h, idx, remaining)
  end.

Definition hash_cab (data : bytes) (ctx : CabCtx) (kind : PeAuthenticodeHashKind)
    : outcome RunningHasher :=
  let h := hasher_new kind in
  let fileend := fileend ctx in
  h ← feed h data 0 4;
  if negb (sigpos ctx =? 0) then
    let sigpos := sigpos ctx in
    coff_files ← read_u32_le data 16;
    nfolders ← read_u16_le data 26;
    flags ← read_u16_le data 30;
    h ← feed h data 8 16;
    h ← feed h data 16 20;
    h ← feed h data 20 26;
    h ← feed h data 26 28;
    h ← feed h data 28 30;
    h ← feed h data 30 32;
    h ← feed h data 32 34;
    h ← feed h data 56 60;
    '(h, idx) ← (if has_flag flags FLAG_NEXT_CABINET then
                   '(h, idx) ← hash_sz_field h data 60 sigpos;
                   hash_sz_field h data idx sigpos
                 else Ok (h, 60));
    '(h, idx, remaining) ← hash_folders (Z.to_nat nfolders) h data idx sigpos;
    bail_if (negb (Nat.eqb remaining 0)) "truncated CFFOLDER table";;
    bail_if (negb (idx =? coff_files))
      "corrupt CAB coffFiles: expected header to end at 0x{coff_files:x}, got 0x{idx:x}";;
    bail_if (fileend <? sigpos) "sigpos past file";;
    feed h data idx sigpos
  else feed h data 8 fileend.

Definition compute_cab_authenticode_digest `{DigestOracle} (data : bytes) (ctx : CabCtx)
    (kind : PeAuthenticodeHashKind) : outcome bytes :=
  hasher_finalize <$> hash_cab data ctx kind.

Definition cab_authenticode_digest_for_signing `{DigestOracle} (unsigned_cab : bytes)
    (kind : PeAuthenticodeHashKind) : outcome bytes :=
  prepared ← prepare_unsigned_cab_for_authenticode_signature unsigned_cab 0;
  sigpos ← ok_or (try_u32 (len prepared)) "CAB file too large";
  flags ← read_u16_le prepared 30;
  compute_cab_authenticode_digest prepared
    (mk_CabCtx SIGNED_HEADER_EXTRA sigpos 0 sigpos flags) kind.

Definition no_signature (ctx : CabCtx) : bool :=
  negb (header_size ctx =? SIGNED_HEADER_EXTRA) || (sigpos ctx =? 0) || (siglen ctx =? 0).

Definition cab_signature_pkcs7_der (data : bytes) : outcome bytes :=
  ctx ← parse_cab_context data;
  bail_if (no_signature ctx)
    "CAB has no embedded Authenticode signature (expected reserve header + PKCS#7)";;
  let sig_start := sigpos ctx in
  sig_end ← ok_or (checked_add64 sig_start (siglen ctx)) "signature extent overflow";
  ok_or (get_range data sig_start sig_end) "PKCS#7 extent out of range".

(** [verify_cab_digest_consistency] on the file's bytes; [embedded_digest] is
    [AuthenticodeSignature::from_bytes(..).digest()] of the crate
    [authenticode], [None] where it fails. *)
Definition verify_cab_digest_consistency `{DigestOracle}
    (embedded_digest : bytes → option bytes) (data : bytes) : outcome unit :=
  ctx ← parse_cab_context data;
  bail_if (no_signature ctx)
    "CAB has no embedded Authenticode signature (expected 20-byte reserve header + PKCS#7)";;
  pkcs7 ← cab_signature_pkcs7_der data;
  embedded ← ok_or (embedded_digest pkcs7) "CAB PKCS#7 parse failed: {e}";
  kind ← from_digest_byte_len (len embedded);
  computed ← compute_cab_authenticode_digest data ctx kind;
  bail_if (negb (bool_decide (computed = embedded)))
    "CAB Authenticode digest mismatch (Rust SIP vs PKCS#7 indirect digest)".

(** ** The header fields *)

Lemma read_u32_in buf off : 0 <= off → off + 4 <= len buf →
  read_u32_le buf off = Ok (from_le (sub buf off (off + 4))).
Proof. intros. unfold read_u32_le. by rewrite get_range_in by lia. Qed.
Lemma read_u16_in buf off : 0 <= off → off + 2 <= len buf →
  read_u16_le buf off = Ok (from_le (sub buf off (off + 2))).
Proof. intros. unfold read_u16_le. by rewrite get_range_in by lia. Qed.
Lemma read_u32_Ok buf off v : read_u32_le buf off = Ok v →
  0 <= off ∧ off + 4 <= len buf ∧ v = from_le (sub buf off (off + 4)) ∧ 0 <= v < U32.
Proof.
  unfold read_u32_le. intros (x & Hx & ->)%ok_or_Ok%fmap_Some.
  apply get_range_Some in Hx as (? & _ & ? & ->).
  pose proof (from_le_range (sub buf off (off + 4))) as Hr. rewrite len_sub in Hr by lia.
  by replace (8 * (off + 4 - off)) with 32 in Hr by lia.
Qed.
Lemma read_u16_Ok buf off v : read_u16_le buf off = Ok v →
  0 <= off ∧ off + 2 <= len buf ∧ v = from_le (sub buf off (off + 2)) ∧ 0 <= v < U16.
Proof.
  unfold read_u16_le. intros (x & Hx & ->)%ok_or_Ok%fmap_Some.
  apply get_range_Some in Hx as (? & _ & ? & ->).
  pose proof (from_le_range (sub buf off (off + 2))) as Hr. rewrite len_sub in Hr by lia.
  by replace (8 * (off + 2 - off)) with 16 in Hr by lia.
Qed.
Lemma write_u32_Ok buf off v buf' : write_u32_le buf off v = Ok buf' ↔
  0 <= off ∧ off + 4 <= len buf ∧ buf' = patch buf off (to_le 4 v).
Proof.
  unfold write_u32_le. destruct (in_range buf off (off + 4)) eqn:E.
  - apply in_range_spec in E. split; [intros [= <-]; tauto|by intros (_ & _ & ->)].
  - apply in_range_false in E. split; [done|]. intros (? & ? & _). destruct E. lia.
Qed.
Lemma write_u16_Ok buf off v buf' : write_u16_le buf off v = Ok buf' ↔
  0 <= off ∧ off + 2 <= len buf ∧ buf' = patch buf off (to_le 2 v).
Proof.
  unfold write_u16_le. destruct (in_range buf off (off + 2)) eqn:E.
  - apply in_range_spec in E. split; [intros [= <-]; tauto|by intros (_ & _ & ->)].
  - apply in_range_false in E. split; [done|]. intros (? & ? & _). destruct E. lia.
Qed.
Lemma sub_patch_field (l : bytes) o n v s e :
  0 <= o → o + Z.of_nat n <= len l → 0 <= s → e <= len l → e <= o ∨ o + Z.of_nat n <= s →
  sub (patch l o (to_le n v)) s e = sub l s e.
Proof.
  intros. destruct (decide (e <= o)).
  - apply sub_patch_before; rewrite ?len_to_le; lia.
  - apply sub_patch_after; rewrite ?len_to_le; lia.
Qed.
Lemma sub_patch_own (l : bytes) o n v :
  0 <= o → o + Z.of_nat n <= len l → sub (patch l o (to_le n v)) o (o + Z.of_nat n) = to_le n v.
Proof.
  intros. pose proof (sub_patch_same l o (to_le n v)) as H'.
  rewrite len_to_le in H'. auto.
Qed.
Lemma len_patch_field (l : bytes) o n v :
  0 <= o → o + Z.of_nat n <= len l → len (patch l o (to_le n v)) = len l.
Proof. intros. apply len_patch; rewrite ?len_to_le; lia. Qed.

Lemma checked_u32_Ok a b what v : checked_u32_add a b what = Ok v ↔ v = a + b ∧ a + b < U32.
Proof.
  unfold checked_u32_add, checked_add32, try_u32. destruct (a + b <? U32) eqn:E; zbool; cbn.
  - split; [by intros [= <-]|by intros [-> _]].
  - split; [done|lia].
Qed.

(** ** The loops end *)

Lemma skip_cab_sz_total data idx :
  0 <= idx → ∃ r, skip_cab_sz data idx = r ∧ r ≠ Panic ∧ ∀ j, r = Ok j → idx < j <= len data.
Proof.
  intros Hi. unfold skip_cab_sz.
  destruct (loop_total (skip_cab_sz_step data) (λ i, idx <= i) (λ i, Z.max 0 (len data - i)))
    with (S (length data)) idx as [r Hr]; [|lia|unfold len; lia|lia|].
  - intros i i' Hi'. unfold skip_cab_sz_step. destruct (i <? len data) eqn:E; [|done].
    destruct (get_at data i); [|done]. destruct (u8 b =? 0); [done|]. intros [= <-]. zbool. lia.
  - rewrite Hr. cbn [unwrap mbind outcome_bind]. exists r. split; [done|].
    refine (loop_inv _ (λ i, idx <= i) (λ r, r ≠ Panic ∧ ∀ j, r = Ok j → idx < j <= len data) _ _ _ _ _ _ Hr).
    + intros i i' Hi'. unfold skip_cab_sz_step. destruct (i <? len data); [|done].
      destruct (get_at data i); [|done]. destruct (u8 b =? 0); [done|]. intros [= <-]. lia.
    + intros i r' Hi'. unfold skip_cab_sz_step. destruct (i <? len data) eqn:E; zbool;
        [|by intros [= <-]].
      rewrite get_at_lookup by lia.
      destruct (lookup_lt_is_Some_2 data (Z.to_nat i)) as [b Hb]; [unfold len in *; lia|].
      rewrite Hb. destruct (u8 b =? 0); [|done]. intros [= <-]. split; [done|].
      intros j [= <-]. lia.
    + lia.
Qed.
Lemma cffolder_range data fl idx : 36 <= len data →
  cffolder_table_offset data fl = Ok idx → 36 <= idx <= len data.
Proof.
  intros Hl. unfold cffolder_table_offset. destruct (has_flag fl _); [done|].
  destruct (has_flag fl _); [|intros [= <-]; lia]. intros H.
  apply bind_Ok in H as (i & Hi & H).
  destruct (skip_cab_sz_total data 36) as (r & Hr & _ & Hb); [lia|].
  destruct (Hb i); [congruence|].
  destruct (skip_cab_sz_total data i) as (r' & Hr' & _ & Hb'); [lia|].
  destruct (Hb' idx); [congruence|]. lia.
Qed.

(** ** Shifting the folders *)

Lemma shift_folder_len out entry out' : shift_folder out entry = Ok out' → len out' = len out.
Proof.
  unfold shift_folder. intros H. inv_ok H. apply write_u32_Ok in H as (? & ? & ->).
  by apply len_patch_field.
Qed.
Lemma shift_folders_keep n entry out out' :
  0 <= entry → shift_folders n entry out = Ok out' →
  len out' = len out ∧ ∀ s e, 0 <= s → e <= entry → e <= len out → sub out' s e = sub out s e.
Proof.
  revert entry out. induction n as [|n IH]; intros entry out He; cbn; [by intros [= <-]|].
  intros (o1 & H1 & H2)%bind_Ok. unfold shift_folder in H1.
  apply bind_Ok in H1 as (v & _ & H1). apply bind_Ok in H1 as (v' & _ & H1).
  apply write_u32_Ok in H1 as (? & ? & ->). apply IH in H2 as [Hl Hs]; [|lia].
  rewrite len_patch_field in Hl, Hs by lia. split; [done|]. intros s e ???.
  rewrite Hs by lia. apply sub_patch_field; lia.
Qed.
(** A field written before the table does not matter to it. *)
Lemma shift_folders_patch n entry out o src :
  0 <= o → o + len src <= entry → o + len src <= len out →
  shift_folders n entry (patch out o src) = (λ r, patch r o src) <$> shift_folders n entry out.
Proof.
  revert entry out. induction n as [|n IH]; intros entry out ???; [done|]. cbn.
  pose proof (len_nonneg src).
  assert (shift_folder (patch out o src) entry
          = (λ r, patch r o src) <$> shift_folder out entry) as Hstep.
  { unfold shift_folder, read_u32_le. unfold get_range, in_range. rewrite len_patch by lia.
    destruct (_ && (entry + 4 <=? len out)) eqn:E; [|done]. zbool. cbn [fmap option_fmap option_map ok_or mbind outcome_bind].
    rewrite sub_patch_after by lia. destruct (checked_u32_add _ _ _) as [v|e|] eqn:Ev; [|done..].
    cbn [mbind outcome_bind]. unfold write_u32_le, in_range. rewrite len_patch by lia.
    destruct (_ && _); [|done]. cbn. f_equal. apply patch_comm; rewrite ?len_to_le; lia. }
  rewrite Hstep. destruct (shift_folder out entry) as [out1|e|] eqn:E1; [|done..]. cbn.
  apply IH; [lia..|]. rewrite (shift_folder_len _ _ _ E1). lia.
Qed.

(** Each entry's [coffCabStart] grows by 24; all other bytes stay. *)
Lemma shift_folders_spec n entry out out' :
  0 <= entry → entry + 8 * Z.of_nat n <= len out → shift_folders n entry out = Ok out' →
  (∀ i, 0 <= i < Z.of_nat n →
    from_le (sub out' (entry + 8 * i) (entry + 8 * i + 4))
      = from_le (sub out (entry + 8 * i) (entry + 8 * i + 4)) + 24 ∧
    sub out' (entry + 8 * i + 4) (entry + 8 * i + 8)
      = sub out (entry + 8 * i + 4) (entry + 8 * i + 8)) ∧
  sub out' (entry + 8 * Z.of_nat n) (len out) = sub out (entry + 8 * Z.of_nat n) (len out).
Proof.
  revert entry out. induction n as [|n IH]; intros entry out He Hfit; cbn [shift_folders].
  - intros [= <-]. split; [lia|done].
  - intros (o1 & H1 & H2)%bind_Ok. pose proof (shift_folders_keep n (entry + 8) o1 out' ltac:(lia) H2) as [Hl Hk].
    pose proof (shift_folder_len _ _ _ H1) as Hl1.
    destruct (IH (entry + 8) o1 ltac:(lia) ltac:(lia) H2) as [Hi Ht].
    unfold shift_folder in H1. inv_ok H1. apply read_u32_Ok in E as (_ & _ & -> & _).
    apply checked_u32_Ok in E0 as [-> Hov]. apply write_u32_Ok in H1 as (_ & _ & Ho1).
    pose proof (from_le_range (sub out entry (entry + 4))) as [Hr _].
    assert (∀ s e, entry + 4 <= s → e <= len out → sub o1 s e = sub out s e) as Hp.
    { intros s e ??. rewrite Ho1. apply sub_patch_field; lia. }
    split.
    + intros i Hi'. destruct (decide (i = 0)) as [-> | ].
      * rewrite Z.mul_0_r, Z.add_0_r. rewrite !Hk by lia. split; [|apply Hp; lia].
        rewrite Ho1. set (v := from_le _ + 24) in *.
        pose proof (sub_patch_own out entry 4 v ltac:(lia) ltac:(lia)) as Hown.
        change (Z.of_nat 4) with 4 in Hown. rewrite Hown.
        by rewrite from_to_le_small by (change (Z.of_nat 4 * 8) with 32; lia).
      * destruct (Hi (i - 1)) as [Ha Hb]; [lia|].
        replace (entry + 8 + 8 * (i - 1)) with (entry + 8 * i) in * by lia.
        rewrite Ha, Hb, !Hp by lia. done.
    + replace (entry + 8 * Z.of_nat (S n)) with (entry + 8 + 8 * Z.of_nat n) by lia.
      rewrite <-Hl1, Ht. apply Hp; lia.
Qed.

(** ** The prepared cabinet *)

Lemma prepare_siglen data sl :
  0 <= sl < U32 →
  prepare_unsigned_cab_for_authenticode_signature data sl =
  (λ r, patch r 48 (to_le 4 sl)) <$> prepare_unsigned_cab_for_authenticode_signature data 0.
Proof.
  intros Hsl. unfold prepare_unsigned_cab_for_authenticode_signature.
  assert (try_u32 sl = Some sl) as -> by (unfold try_u32; by rewrite (proj2 (Z.ltb_lt _ _)) by lia).
  change (try_u32 0) with (Some 0).
  repeat lazymatch goal with
  | |- mbind _ (write_u32_le _ 48 sl) = _ => fail
  | |- mbind _ (ok_or (Some _) _) = _ => cbn [ok_or mbind outcome_bind]
  | |- mbind _ ?m = _ => destruct m as [?a|?e|] eqn:?E; cbn [mbind outcome_bind fmap outcome_fmap]; [|done..]
  end.
  apply index_range_Ok in E11 as (_ & _ & ? & ->). apply index_range_Ok in E12 as (_ & _ & _ & ->).
  apply cffolder_range in E8; [|lia].
  assert (len (sub data 0 36 ++ reserve_block ++ sub data 36 (len data)) = len data + 24) as Hl.
  { rewrite !len_app, !len_sub by lia. change (len reserve_block) with 24. lia. }
  apply write_u32_Ok in E13 as (_ & ? & ->). apply write_u32_Ok in E15 as (_ & ? & ->).
  apply write_u16_Ok in E16 as (_ & ? & ->). apply write_u32_Ok in E17 as (_ & ? & ->).
  set (hd := patch _ 44 _) in *.
  assert (len hd = len data + 24) as Hl' by (unfold hd; rewrite !len_patch_field; rewrite ?len_patch_field; lia).
  unfold write_u32_le, in_range.
  rewrite Hl'. run.
  destruct (ok_or (checked_add64 a8 24) _) as [nft|e|] eqn:Eft; cbn [mbind outcome_bind]; [|done..].
  apply ok_or_Ok in Eft. unfold checked_add64 in Eft.
  destruct (a8 + 24 <? U64); [|done]. injection Eft as <-.
  rewrite !shift_folders_patch by (rewrite ?len_to_le; lia).
  destruct (shift_folders _ _ hd) as [out| |] eqn:Eo; [|done..]. cbn.
  apply shift_folders_keep in Eo as [Ho _]; [|lia].
  by rewrite patch_patch by (rewrite ?len_to_le; lia).
Qed.

(** What the prepared cabinet's header says. *)
Record reserved (out : bytes) (sp sl : Z) : Prop := {
  rs_len : 68 <= len out;
  rs_magic : sub out 0 4 = lit "MSCF";
  rs_reserved1 : from_le (sub out 4 8) = 0;
  rs_prev : has_flag (from_le (sub out 30 32)) FLAG_PREV_CABINET = false;
  rs_reserve : has_flag (from_le (sub out 30 32)) FLAG_RESERVE_PRESENT = true;
  rs_extra : from_le (sub out 36 40) = SIGNED_HEADER_EXTRA;
  rs_abreserve : from_le (sub out 40 44) = AB_RESERVE_EXPECTED;
  rs_sigpos : from_le (sub out 44 48) = sp;
  rs_siglen : from_le (sub out 48 52) = sl }.

Lemma flags_lor fl : 0 <= fl < U16 → has_flag fl FLAG_PREV_CABINET = false →
  has_flag (Z.lor fl FLAG_RESERVE_PRESENT) FLAG_PREV_CABINET = false ∧
  has_flag (Z.lor fl FLAG_RESERVE_PRESENT) FLAG_RESERVE_PRESENT = true ∧
  0 <= Z.lor fl FLAG_RESERVE_PRESENT < U16.
Proof.
  intros Hr. unfold has_flag. rewrite !negb_false_iff, negb_true_iff, !Z.eqb_eq, Z.eqb_neq.
  rewrite !Z.land_lor_distr_l. intros ->. split; [done|]. split.
  - intros H%Z.lor_eq_0_iff. by destruct H.
  - assert (0 <= Z.lor fl FLAG_RESERVE_PRESENT) by (apply Z.lor_nonneg; unfold FLAG_RESERVE_PRESENT; lia).
    split; [done|]. apply Z.log2_lt_cancel. rewrite Z.log2_lor by (unfold FLAG_RESERVE_PRESENT; lia).
    destruct (decide (fl = 0)) as [-> | ]; [done|].
    assert (Z.log2 fl < 16) by (apply Z.log2_lt_pow2; lia).
    change (Z.log2 FLAG_RESERVE_PRESENT) with 2. change (Z.log2 U16) with 16. lia.
Qed.

Lemma parse_Ok_inv data ctx : parse_cab_context data = Ok ctx →
  44 <= len data ∧ len data < U32 ∧ sub data 0 4 = lit "MSCF" ∧ from_le (sub data 4 8) = 0 ∧
  flags ctx = from_le (sub data 30 32) ∧ has_flag (flags ctx) FLAG_PREV_CABINET = false ∧
  fileend ctx = len data.
Proof.
  unfold parse_cab_context. intros H. inv_ok H; zbool.
  apply index_range_Ok in E0 as (_ & _ & _ & ->). rename E1 into Hm. rewrite Hm.
  apply read_u32_Ok in E2 as (_ & _ & -> & _). apply read_u16_Ok in E4 as (_ & _ & -> & _).
  unfold try_u32 in E6. destruct (len data <? U32) eqn:El; [|done].
  injection E6 as <-. zbool.
  destruct (has_flag _ FLAG_RESERVE_PRESENT); [|by simplify_eq].
  inv_ok H. by simplify_eq.
Qed.

Ltac field Hl Hs Hp Hpl :=
  rewrite Hs by lia; repeat rewrite Hp by (repeat first [exact Hl|apply Hpl]; lia).
Lemma prepare_facts data out : prepare_unsigned_cab_for_authenticode_signature data 0 = Ok out →
  44 <= len data ∧ len data + 24 < U32 ∧ len out = len data + 24 ∧ reserved out (len data + 24) 0.
Proof.
  unfold prepare_unsigned_cab_for_authenticode_signature. intros H.
  apply bind_Ok in H as (ctx & Hctx & H).
  apply parse_Ok_inv in Hctx as (Hlen & Hu & Hmagic & Hr1 & Hfl & Hprev & _).
  inv_ok H. zbool. injection E1 as <-.
  unfold try_u32 in E2. rewrite (proj2 (Z.ltb_lt _ _)) in E2 by lia. injection E2 as <-.
  apply checked_u32_Ok in E3 as [-> Hu'].
  assert (r5 + 24 = r15) as <-.
  { unfold checked_add64 in E19. destruct (_ <? U64); [by injection E19|done]. }
  apply cffolder_range in E8; [|lia]. apply index_range_Ok in E11 as (_ & _ & _ & ->).
  apply index_range_Ok in E12 as (_ & _ & _ & ->).
  set (base := sub data 0 36 ++ reserve_block ++ sub data 36 (len data)) in *.
  assert (len base = len data + 24) as Hl.
  { unfold base. rewrite !len_app, !len_sub by lia. change (len reserve_block) with 24. lia. }
  apply write_u32_Ok in E13 as (_ & _ & ->). apply write_u32_Ok in E15 as (_ & _ & ->).
  apply write_u16_Ok in E16 as (_ & _ & ->). apply write_u32_Ok in E17 as (_ & _ & ->).
  apply write_u32_Ok in E18 as (_ & _ & ->).
  apply shift_folders_keep in H as [Hlo Hs]; [|lia].
  assert (∀ l o n v s e, len l = len data + 24 → 0 <= o → o + Z.of_nat n <= 60 → 0 <= s → e <= 60 →
    e <= o ∨ o + Z.of_nat n <= s → sub (patch l o (to_le n v)) s e = sub l s e) as Hp
    by (intros; apply sub_patch_field; lia).
  assert (∀ l o n v, len l = len data + 24 → 0 <= o → o + Z.of_nat n <= 60 →
    len (patch l o (to_le n v)) = len data + 24) as Hpl
    by (intros l o n v El ??; rewrite <-El; apply len_patch_field; lia).
  assert (∀ l o n v, len l = len data + 24 → 0 <= o → o + Z.of_nat n <= 60 →
    sub (patch l o (to_le n v)) o (o + Z.of_nat n) = to_le n v) as Hown
    by (intros; apply sub_patch_own; lia).
  rewrite !Hpl in Hlo by (repeat first [exact Hl|apply Hpl]; lia). rewrite !Hpl in Hs by (repeat first [exact Hl|apply Hpl]; lia).
  destruct (flags_lor (flags ctx)) as (? & ? & ?); [|done|].
  { rewrite Hfl. pose proof (from_le_range (sub data 30 32)) as Hr. by rewrite len_sub in Hr by lia. }
  split; [done|]. split; [done|]. split; [done|]. split.
  - lia.
  - field Hl Hs Hp Hpl. unfold base. by rewrite sub_app_l, sub_sub by (rewrite ?len_sub; lia).
  - field Hl Hs Hp Hpl. unfold base. by rewrite sub_app_l, sub_sub by (rewrite ?len_sub; lia).
  - field Hl Hs Hp Hpl. change 32 with (30 + Z.of_nat 2).
    rewrite Hown by (repeat first [exact Hl|apply Hpl]; lia).
    by rewrite from_to_le_small by (change (Z.of_nat 4 * 8) with 32; lia).
  - field Hl Hs Hp Hpl. change 32 with (30 + Z.of_nat 2).
    rewrite Hown by (repeat first [exact Hl|apply Hpl]; lia).
    by rewrite from_to_le_small by (change (Z.of_nat 4 * 8) with 32; lia).
  - field Hl Hs Hp Hpl. unfold base. rewrite sub_app_r, sub_app_l, !len_sub by (rewrite ?len_sub; lia || done).
    by vm_compute.
  - field Hl Hs Hp Hpl. unfold base. rewrite sub_app_r, sub_app_l, !len_sub by (rewrite ?len_sub; lia || done).
    by vm_compute.
  - field Hl Hs Hp Hpl. change (sub ?l 44 48) with (sub l 44 (44 + Z.of_nat 4)).
    rewrite Hown by (repeat first [exact Hl|apply Hpl]; lia).
    by rewrite from_to_le_small by (change (Z.of_nat 4 * 8) with 32; lia).
  - field Hl Hs Hp Hpl. change 52 with (48 + Z.of_nat 4).
    rewrite Hown by (repeat first [exact Hl|apply Hpl]; lia).
    by rewrite from_to_le_small by (change (Z.of_nat 4 * 8) with 32; lia).
Qed.

(** Bytes that agree below the signature position, the signature's size
    field apart. *)
Definition agree (data data' : bytes) (n : Z) : Prop :=
  n <= len data ∧ n <= len data' ∧
  ∀ s e, 0 <= s → e <= n → e <= 48 ∨ 52 <= s → sub data' s e = sub data s e.

Lemma agree_append out sl p :
  52 <= len out → agree out (patch out 48 (to_le 4 sl) ++ p) (len out).
Proof.
  intros Hl. pose proof (len_nonneg p).
  assert (len (patch out 48 (to_le 4 sl)) = len out) as Hp by (apply len_patch_field; lia).
  split; [lia|]. rewrite len_app, Hp. split; [lia|]. intros s e ???.
  rewrite sub_app_l by lia. apply sub_patch_field; lia.
Qed.
Lemma reserved_append out sp sl p :
  0 <= sl < U32 → reserved out sp 0 → reserved (patch out 48 (to_le 4 sl) ++ p) sp sl.
Proof.
  intros Hsl [Hl ????????]. pose proof (len_nonneg p).
  destruct (agree_append out sl p) as (_ & _ & Ha); [lia|].
  assert (len (patch out 48 (to_le 4 sl)) = len out) as Hp by (apply len_patch_field; lia).
  split; rewrite ?Ha by lia; try done; [rewrite len_app; lia|].
  rewrite sub_app_l by lia. change 52 with (48 + Z.of_nat 4).
  rewrite sub_patch_own, from_to_le_small by (change (Z.of_nat 4 * 8) with 32; lia). done.
Qed.

Lemma parse_reserved data sp sl :
  reserved data sp sl → 0 < sp → 0 < sl → sp + sl = len data → len data < U32 →
  parse_cab_context data =
  Ok (mk_CabCtx SIGNED_HEADER_EXTRA sp sl (len data) (from_le (sub data 30 32))).
Proof.
  intros [Hl Hm Hr1 Hpv Hrs Hx Hab Hsp Hsl] ? ? ? ?. unfold parse_cab_context.
  rewrite index_range_in, !read_u32_in, !read_u16_in by lia. run.
  change (4 + 4) with 8. change (30 + 2) with 32. change (36 + 4) with 40.
  change (40 + 4) with 44. change (44 + 4) with 48. change (48 + 4) with 52.
  rewrite Hm, bool_decide_eq_true_2, Hr1, Hpv, Hrs by done. run.
  unfold try_u32. run. rewrite Hx, Hsp, Hsl. unfold saturating_add32.
  by run.
Qed.

(** ** Bytes that agree have the same digest *)

Lemma feed_agree data data' n h s e :
  agree data data' n → 0 <= s → e <= n → e <= 48 ∨ 52 <= s → feed h data' s e = feed h data s e.
Proof.
  intros (Hl & Hl' & Ha) ???. unfold feed, index_range, get_range, in_range.
  rewrite (proj2 (Z.leb_le e (len data))), (proj2 (Z.leb_le e (len data'))) by lia.
  destruct (_ && _); [|done]. cbn. by rewrite Ha by lia.
Qed.
Lemma get_at_agree data data' n i :
  agree data data' n → 52 <= i < n → ∃ b, get_at data i = Some b ∧ get_at data' i = Some b.
Proof.
  intros (Hl & Hl' & Ha) ?. specialize (Ha i (i + 1) ltac:(lia) ltac:(lia) ltac:(lia)).
  assert (∀ l : bytes, i < len l → ∃ b, get_at l i = Some b ∧ sub l i (i + 1) = [b]) as Hone.
  { intros l ?. rewrite get_at_lookup by lia.
    destruct (lookup_lt_is_Some_2 l (Z.to_nat i)) as [b Hb]; [unfold len in *; lia|].
    exists b. split; [done|]. unfold sub. replace (Z.to_nat (i + 1 - i)) with 1%nat by lia.
    rewrite (drop_S _ _ _ Hb). done. }
  destruct (Hone data) as (b & ? & ?); [lia|]. destruct (Hone data') as (b' & ? & ?); [lia|].
  exists b. split; [done|]. congruence.
Qed.

(** The string loop ends at or before [n], and does not go back. *)
Lemma hash_sz_total data h idx n :
  0 <= idx <= n → n <= len data →
  ∃ h' idx', loop (hash_sz_step data n) (S (length data)) (h, idx) = Some (Ok (h', idx')) ∧
    idx <= idx' <= n.
Proof.
  intros Hi Hn.
  destruct (loop_total (hash_sz_step data n) (λ s, idx <= s.2 <= n) (λ s, Z.max 0 (n - s.2)))
    with (S (length data)) (h, idx) as [r Hr]; [|cbn [snd]; unfold len in *; lia..|].
  - intros [h1 i] s'. cbn. intros Hi'. destruct (i <? n) eqn:E; [|done]. zbool.
    destruct (get_at data i); [|done]. destruct (u8 b =? 0); [done|]. intros [= <-]. cbn. lia.
  - assert (∃ h' idx', r = Ok (h', idx') ∧ idx <= idx' <= n) as (h' & i' & -> & ?); [|by eauto].
    refine (loop_inv _ (λ s, idx <= s.2 <= n) (λ r, ∃ h' i', r = Ok (h', i') ∧ idx <= i' <= n)
      _ _ _ _ _ _ Hr).
    + intros [h1 i] s'. cbn. intros Hi'. destruct (i <? n) eqn:E; [|done]. zbool.
      destruct (get_at data i); [|done]. destruct (u8 b =? 0); [done|]. intros [= <-]. cbn. lia.
    + intros [h1 i] r'. cbn. intros Hi'. destruct (i <? n) eqn:E; [|intros [= <-]; by eauto].
      zbool. rewrite get_at_lookup by lia.
      destruct (lookup_lt_is_Some_2 data (Z.to_nat i)) as [b ->]; [unfold len in *; lia|].
      destruct (u8 b =? 0); [|done]. intros [= <-]. eexists _, _. split; [done|lia].
    + cbn. lia.
Qed.
Lemma hash_sz_agree data data' h idx n :
  agree data data' n → 52 <= idx <= n →
  hash_sz_field h data' idx n = hash_sz_field h data idx n ∧
  ∃ h' idx', hash_sz_field h data idx n = Ok (h', idx') ∧ idx <= idx' <= n.
Proof.
  intros Ha Hi. pose proof Ha as (Hl & Hl' & _). unfold hash_sz_field.
  destruct (hash_sz_total data h idx n) as (h1 & i1 & H1 & ?); [lia..|].
  destruct (hash_sz_total data' h idx n) as (h2 & i2 & H2 & ?); [lia..|].
  assert (Some (Ok (h2, i2)) = Some (Ok (h1, i1))) as [= -> ->].
  { pose (f := (S (length data) + S (length data'))%nat).
    rewrite <-(loop_more _ _ f _ _ H1), <-(loop_more _ _ f _ _ H2) by (unfold f; lia).
    symmetry. apply (loop_ext _ _ (λ s, 52 <= s.2)); [| |cbn; lia].
    - intros [h3 i] ?. cbn [hash_sz_step] in *. cbn in *. destruct (i <? n) eqn:E; [|done]. zbool.
      destruct (get_at_agree _ _ _ i Ha) as (b & -> & ->); [lia|done].
    - intros [h3 i] s' ?. cbn in *. destruct (i <? n); [|done].
      destruct (get_at data i); [|done]. destruct (u8 b =? 0); [done|]. intros [= <-]. cbn. lia. }
  rewrite H1, H2. cbn. split; [done|]. by eexists _, _.
Qed.
Lemma hash_folders_agree data data' nf h idx n :
  agree data data' n → 52 <= idx →
  hash_folders nf h data' idx n = hash_folders nf h data idx n ∧
  ∀ h' idx' r, hash_folders nf h data idx n = Ok (h', idx', r) → idx <= idx'.
Proof.
  intros Ha. revert h idx. induction nf as [|nf IH]; intros h idx Hi; cbn [hash_folders].
  - split; [done|]. intros ??? [= <- <- <-]. lia.
  - destruct (idx <? n); [|split; [done|intros ??? [= <- <- <-]; lia]].
    unfold checked_add64. destruct (idx + 8 <? U64); [|done]. cbn [ok_or mbind outcome_bind].
    destruct (n <? idx + 8) eqn:E; [done|]. zbool. cbn [bail_if mbind outcome_bind].
    rewrite (feed_agree data data' n) by (done || lia).
    destruct (feed h data idx (idx + 8)) as [h1|e|]; [|done..]. cbn [mbind outcome_bind].
    destruct (IH h1 (idx + 8)) as [-> IH']; [lia|]. split; [done|].
    intros ??? H%IH'. lia.
Qed.

Lemma hash_cab_agree data data' ctx ctx' kind :
  agree data data' (sigpos ctx) → sigpos ctx' = sigpos ctx → 60 <= sigpos ctx →
  sigpos ctx <= fileend ctx → sigpos ctx <= fileend ctx' →
  hash_cab data' ctx' kind = hash_cab data ctx kind.
Proof.
  intros Ha Hsp Hs Hf Hf'. unfold hash_cab. rewrite Hsp. set (n := sigpos ctx) in *.
  pose proof Ha as (Hl & Hl' & Hsub).
  rewrite (proj2 (Z.eqb_neq n 0)) by lia. cbn [negb].
  rewrite (proj2 (Z.ltb_ge _ n)), (proj2 (Z.ltb_ge (fileend ctx) n)) by lia.
  rewrite (feed_agree data data' n) by (done || lia).
  destruct (feed _ data 0 4) as [h|e|]; [|done..]. cbn [mbind outcome_bind].
  rewrite !read_u32_in, !read_u16_in by lia. cbn [mbind outcome_bind].
  change (16 + 4) with 20. change (26 + 2) with 28. change (30 + 2) with 32.
  rewrite !Hsub by lia. set (coff := from_le _). set (nf := from_le _). set (fl := from_le _).
  clearbody coff nf fl.
  repeat match goal with
  | |- mbind _ (feed ?x data' ?a ?b) = _ =>
      rewrite (feed_agree data data' n x a b) by (done || lia);
      let y := fresh "h" in
      destruct (feed x data a b) as [y| |]; [|done..]; cbn [mbind outcome_bind]
  end.
  lazymatch goal with |- context [hash_sz_field ?h0 data' 60 n] => rename h0 into hz end.
  assert (∃ h idx, (if has_flag fl FLAG_NEXT_CABINET then
      '(h, idx) ← hash_sz_field hz data' 60 n; hash_sz_field h data' idx n else Ok (hz, 60)) = Ok (h, idx)
    ∧ (if has_flag fl FLAG_NEXT_CABINET then
      '(h, idx) ← hash_sz_field hz data 60 n; hash_sz_field h data idx n else Ok (hz, 60)) = Ok (h, idx)
    ∧ 60 <= idx) as (h8 & idx & -> & -> & Hidx).
  { destruct (has_flag fl _); [|by exists hz, 60].
    destruct (hash_sz_agree _ _ hz 60 n Ha) as (-> & h8 & i8 & -> & ?); [lia|].
    cbn [mbind outcome_bind].
    destruct (hash_sz_agree _ _ h8 i8 n Ha) as (-> & h9 & i9 & -> & ?); [lia|].
    exists h9, i9. split; [done|]. split; [done|lia]. }
  cbn [mbind outcome_bind].
  destruct (hash_folders_agree _ _ (Z.to_nat nf) h8 idx n Ha) as [-> Hge]; [lia|].
  destruct (hash_folders _ _ _ _ _) as [[[h9 i9] r9]|e|]; [|done..]. cbn [mbind outcome_bind].
  specialize (Hge _ _ _ eq_refl).
  destruct (bail_if (negb (Nat.eqb r9 0)) _); [|done..]. cbn [mbind outcome_bind].
  destruct (bail_if (negb (i9 =? coff)) _); [|done..]. cbn [bail_if mbind outcome_bind].
  apply (feed_agree data data' n); done || lia.
Qed.

(** The hasher keeps its algorithm. *)
Lemma feed_kind h data s e h' : feed h data s e = Ok h' → h_kind h' = h_kind h.
Proof. unfold feed. destruct (index_range data s e); [|done..]. by intros [= <-]. Qed.
Lemma hash_sz_kind h data idx n h' idx' :
  hash_sz_field h data idx n = Ok (h', idx') → h_kind h' = h_kind h.
Proof.
  unfold hash_sz_field. destruct (loop _ _ _) as [r|] eqn:Hr; [|done].
  cbn [unwrap mbind outcome_bind]. intros ->.
  refine (loop_inv _ (λ s, h_kind s.1 = h_kind h) (λ r, ∀ x, r = Ok x → h_kind x.1 = h_kind h)
    _ _ _ _ _ _ Hr _ eq_refl); [| |done].
  - intros [h1 i] s'. cbn. intros Hk. destruct (i <? n); [|done]. destruct (get_at data i); [|done].
    destruct (u8 b =? 0); [done|]. by intros [= <-].
  - intros [h1 i] r'. cbn. intros Hk. destruct (i <? n).
    + destruct (get_at data i); [|by intros [= <-]]. destruct (u8 b =? 0); [|done].
      by intros [= <-] x [= <-].
    + by intros [= <-] x [= <-].
Qed.
Lemma hash_folders_kind nf h data idx n h' idx' r :
  hash_folders nf h data idx n = Ok (h', idx', r) → h_kind h' = h_kind h.
Proof.
  revert h idx. induction nf as [|nf IH]; intros h idx; cbn [hash_folders]; [by intros [= -> _ _]|].
  destruct (idx <? n); [|by intros [= -> _ _]]. intros (e & _ & H)%bind_Ok.
  apply bind_Ok in H as (_ & _ & H). apply bind_Ok in H as (h1 & H1%feed_kind & H).
  rewrite <-H1. by eapply IH.
Qed.
Lemma hash_cab_kind data ctx kind h : hash_cab data ctx kind = Ok h → h_kind h = kind.
Proof.
  unfold hash_cab. intros H. apply bind_Ok in H as (h0 & H0%feed_kind & H).
  change kind with (h_kind (hasher_new kind)). rewrite <-H0.
  destruct (negb _); [|by eapply feed_kind].
  repeat lazymatch type of H with
  | mbind _ (feed _ _ _ _) = _ =>
      let y := fresh "y" in let Hy := fresh "Hy" in apply bind_Ok in H as (y & Hy%feed_kind & H)
  | mbind _ (read_u32_le _ _) = _ => apply bind_Ok in H as (? & _ & H)
  | mbind _ (read_u16_le _ _) = _ => apply bind_Ok in H as (? & _ & H)
  end.
  apply bind_Ok in H as ([h8 idx] & H8 & H).
  apply bind_Ok in H as ([[h9 i9] r9] & H9%hash_folders_kind & H).
  repeat (apply bind_Ok in H as (_ & _ & H)). apply feed_kind in H.
  destruct (has_flag _ _).
  - apply bind_Ok in H8 as ([ha ia] & Ha%hash_sz_kind & H8%hash_sz_kind). congruence.
  - injection H8 as <- _. congruence.
Qed.

(** The tables of the prepared cabinet [out]: [ft] is the folder table's offset
    in [data]. Each entry moved by 24 bytes and pointing 24 bytes further,
    everything around the table moved as it is. *)
Definition tables_moved (data out : bytes) (ft : Z) : Prop :=
  let n := from_le (sub data 26 28) in
  ft + 8 * n <= from_le (sub data 16 20) ∧
  from_le (sub out 16 20) = from_le (sub data 16 20) + 24 ∧
  sub out 26 28 = sub data 26 28 ∧
  (ft + 8 * n <= len data →
   sub out 60 (ft + 24) = sub data 36 ft ∧
   (∀ i, 0 <= i < n →
     from_le (sub out (ft + 24 + 8 * i) (ft + 24 + 8 * i + 4))
       = from_le (sub data (ft + 8 * i) (ft + 8 * i + 4)) + 24 ∧
     sub out (ft + 24 + 8 * i + 4) (ft + 24 + 8 * i + 8)
       = sub data (ft + 8 * i + 4) (ft + 8 * i + 8)) ∧
   sub out (ft + 24 + 8 * n) (len out) = sub data (ft + 8 * n) (len data)).

Lemma prepare_tables data out :
  prepare_unsigned_cab_for_authenticode_signature data 0 = Ok out →
  ∃ ft, cffolder_table_offset data (from_le (sub data 30 32)) = Ok ft ∧ tables_moved data out ft.
Proof.
  unfold prepare_unsigned_cab_for_authenticode_signature. intros H.
  apply bind_Ok in H as (ctx & Hctx & H).
  apply parse_Ok_inv in Hctx as (Hlen & Hu & _ & _ & Hfl & _ & _).
  inv_ok H. zbool. injection E1 as <-. rewrite Hfl in E8. exists r5. split; [done|].
  apply read_u32_Ok in E6 as (_ & _ & -> & Hc). apply read_u16_Ok in E7 as (_ & _ & -> & Hn).
  change (16 + 4) with 20 in *. change (26 + 2) with 28 in *.
  unfold tables_moved. cbn zeta. set (n := from_le (sub data 26 28)) in *.
  apply cffolder_range in E8; [|lia].
  unfold checked_add64 in E9, E19. destruct (r5 + _ <? U64); [|done]. injection E9 as <-.
  destruct (r5 + 24 <? U64); [|done]. injection E19 as <-. rewrite Z.min_l in E10 by lia.
  apply checked_u32_Ok in E14 as [-> ?].
  apply index_range_Ok in E11 as (_ & _ & _ & ->). apply index_range_Ok in E12 as (_ & _ & _ & ->).
  set (base := sub data 0 36 ++ reserve_block ++ sub data 36 (len data)) in *.
  assert (len base = len data + 24) as Hl.
  { unfold base. rewrite !len_app, !len_sub by lia. change (len reserve_block) with 24. lia. }
  assert (∀ s e, 36 <= s → e <= len data → sub base (s + 24) (e + 24) = sub data s e) as Hb.
  { intros s e ??. unfold base. rewrite app_assoc, sub_app_r; rewrite len_app, len_sub by lia;
      change (len reserve_block) with 24; [|lia].
    rewrite sub_sub by lia. f_equal; lia. }
  apply write_u32_Ok in E13 as (_ & _ & ->). apply write_u32_Ok in E15 as (_ & _ & ->).
  apply write_u16_Ok in E16 as (_ & _ & ->). apply write_u32_Ok in E17 as (_ & _ & ->).
  apply write_u32_Ok in E18 as (_ & _ & ->). set (pre := patch _ 48 _) in H.
  assert (∀ l o n v s e, len l = len data + 24 → 0 <= o → o + Z.of_nat n <= 60 → 0 <= s →
    e <= len data + 24 → e <= o ∨ o + Z.of_nat n <= s →
    sub (patch l o (to_le n v)) s e = sub l s e) as Hp by (intros; apply sub_patch_field; lia).
  assert (∀ l o n v, len l = len data + 24 → 0 <= o → o + Z.of_nat n <= 60 →
    len (patch l o (to_le n v)) = len data + 24) as Hpl
    by (intros l o n' v El ??; rewrite <-El; apply len_patch_field; lia).
  assert (len pre = len data + 24) as Hlp by (repeat first [exact Hl|apply Hpl]; lia).
  assert (∀ s e, 52 <= s → e <= len data + 24 → sub pre s e = sub base s e) as Hpre.
  { intros. unfold pre. by rewrite !Hp by (repeat first [exact Hl|apply Hpl]; lia). }
  pose proof (shift_folders_keep (Z.to_nat n) (r5 + 24) pre out ltac:(lia) H) as [Hlo Hk]. rewrite Hlp in Hlo, Hk.
  split; [lia|]. split.
  { rewrite Hk by lia. unfold pre. do 3 rewrite Hp by (repeat first [exact Hl|apply Hpl]; lia).
    assert (∀ l v, len l = len data + 24 → sub (patch l 16 (to_le 4 v)) 16 20 = to_le 4 v) as Hown
      by (intros; apply (sub_patch_own _ 16 4); lia).
    rewrite Hown by (repeat first [exact Hl|apply Hpl]; lia).
    by rewrite from_to_le_small by (change (Z.of_nat 4 * 8) with 32; lia). }
  split.
  { rewrite Hk by lia. unfold pre. rewrite !Hp by (repeat first [exact Hl|apply Hpl]; lia).
    unfold base. by rewrite sub_app_l, sub_sub by (rewrite ?len_sub; lia). }
  intros Hfit. split.
  { rewrite Hk, Hpre by lia. by rewrite <-(Hb 36 r5) by lia. }
  destruct (shift_folders_spec (Z.to_nat n) (r5 + 24) pre out) as [Hi Ht]; [lia|lia|done|].
  split.
  - intros i Hi'. destruct (Hi i) as [-> ->]; [lia|]. rewrite !Hpre by lia.
    split; [f_equal; f_equal|]; (etrans; [|apply Hb; lia]); f_equal; lia.
  - rewrite Hlo. rewrite Hlp in Ht. replace (Z.of_nat (Z.to_nat n)) with n in Ht by lia.
    rewrite Ht, Hpre by lia. etrans; [|apply Hb; lia]. f_equal; lia.
Qed.

Lemma append_facts data p out :
  0 < len p → len data + 24 + len p < U32 →
  cab_append_authenticode_pkcs7_signature data p = Ok out →
  ∃ prepared fl,
    prepare_unsigned_cab_for_authenticode_signature data 0 = Ok prepared ∧
    out = patch prepared 48 (to_le 4 (len p)) ++ p ∧ len prepared = len data + 24 ∧
    68 <= len prepared ∧ read_u16_le prepared 30 = Ok fl ∧
    parse_cab_context out = Ok (mk_CabCtx SIGNED_HEADER_EXTRA (len prepared) (len p) (len out) fl).
Proof.
  intros Hp Hfit. unfold cab_append_authenticode_pkcs7_signature. pose proof (len_nonneg data).
  rewrite prepare_siglen by lia. intros (o & Ho & [= <-])%bind_Ok.
  destruct (prepare_unsigned_cab_for_authenticode_signature data 0) as [prepared| |] eqn:Epr; [|done..].
  injection Ho as <-. apply prepare_facts in Epr as (Hlen & _ & Hlo & Hres).
  exists prepared, (from_le (sub prepared 30 32)). split; [done|]. split; [done|]. split; [done|].
  split; [lia|]. split; [by apply read_u16_in; lia|].
  destruct (agree_append prepared (len p) p) as (_ & Hle & Ha); [lia|].
  assert (len (patch prepared 48 (to_le 4 (len p)) ++ p) = len prepared + len p) as Hl2.
  { rewrite len_app, len_patch_field; lia. }
  rewrite <-(Ha 30 32) by lia.
  apply parse_reserved; [|lia..]. rewrite Hlo. apply reserved_append; [lia|done].
Qed.

(** A cabinet for the witnesses: one folder, a 4-byte file area. *)
Definition test_cab : bytes :=
  lit "MSCF" ++ to_le 4 0 ++ to_le 4 48 ++ to_le 4 0 ++ to_le 4 44 ++ to_le 4 0 ++ to_le 2 0x0103
  ++ to_le 2 1 ++ to_le 2 0 ++ to_le 2 0 ++ to_le 4 0 ++ to_le 4 44 ++ to_le 4 1 ++ lit "data".

(** ** Properties *)

(** C3: What the tool signs, it verifies. If a PKCS#7 [p] carries the digest
    computed for signing an unsigned cabinet, then appending it succeeds, the
    signature read back from the result is [p] itself, and the digest check of
    the signed cabinet accepts it: the digest over the prepared cabinet and
    the digest over the signed file are the same. *)
Theorem cab_sign_then_verify `{DigestOracle} embedded_digest data kind d p :
  cab_authenticode_digest_for_signing data kind = Ok d →
  embedded_digest p = Some d → 0 < len p → len data + 24 + len p < U32 →
  ∃ signed, cab_append_authenticode_pkcs7_signature data p = Ok signed ∧
    cab_signature_pkcs7_der signed = Ok p ∧
    verify_cab_digest_consistency embedded_digest signed = Ok tt.
Proof.
  intros Hd He Hp Hfit. unfold cab_authenticode_digest_for_signing in Hd.
  apply bind_Ok in Hd as (prepared & Hpr & Hd). pose proof (len_nonneg data).
  assert (∃ out, cab_append_authenticode_pkcs7_signature data p = Ok out) as [out Hout].
  { unfold cab_append_authenticode_pkcs7_signature. rewrite prepare_siglen, Hpr by lia. by eexists. }
  exists out. split; [done|].
  destruct (append_facts data p out Hp Hfit Hout) as (pr & fl & Hpr' & -> & Hlp & H68 & Hfl & Hparse).
  assert (pr = prepared) as -> by congruence.
  unfold try_u32 in Hd. rewrite (proj2 (Z.ltb_lt _ _)) in Hd by lia.
  rewrite Hfl in Hd. cbn [ok_or mbind outcome_bind] in Hd.
  assert (len (patch prepared 48 (to_le 4 (len p)) ++ p) = len prepared + len p) as Hl2.
  { rewrite len_app, len_patch_field; lia. }
  assert (cab_signature_pkcs7_der (patch prepared 48 (to_le 4 (len p)) ++ p) = Ok p) as Hder.
  { unfold cab_signature_pkcs7_der. rewrite Hparse. cbn [mbind outcome_bind].
    unfold no_signature. cbn [header_size sigpos siglen]. unfold checked_add64. run.
    rewrite Hl2 in *. rewrite get_range_in by lia. cbn. f_equal.
    rewrite sub_app_r, len_patch_field by (rewrite ?len_patch_field; lia).
    trans (sub p 0 (len p)); [f_equal; lia|apply sub_full]. }
  split; [done|]. unfold verify_cab_digest_consistency. rewrite Hparse, Hder. cbn [mbind outcome_bind].
  unfold no_signature. cbn [header_size sigpos siglen]. run. rewrite He. cbn [ok_or mbind outcome_bind].
  set (ctx := mk_CabCtx SIGNED_HEADER_EXTRA (len prepared) (len p) _ fl).
  assert (compute_cab_authenticode_digest (patch prepared 48 (to_le 4 (len p)) ++ p) ctx kind = Ok d) as Hc.
  { rewrite <-Hd. unfold compute_cab_authenticode_digest. f_equal.
    apply hash_cab_agree; cbn; try lia. apply agree_append. lia. }
  assert (len d = digest_output_len kind) as Hld.
  { unfold compute_cab_authenticode_digest in Hc. destruct (hash_cab _ _ _) as [h| |] eqn:Eh; [|done..].
    injection Hc as <-. unfold hasher_finalize. rewrite digest_len. f_equal. by eapply hash_cab_kind. }
  rewrite Hld, from_digest_byte_len_output. cbn [mbind outcome_bind]. rewrite Hc. cbn.
  by rewrite bool_decide_eq_true_2.
Qed.
Lemma cab_sign_then_verify_witness :
  let d := match @cab_authenticode_digest_for_signing ToyDigest test_cab Sha1 with Ok d => d | _ => [] end in
  ∃ signed, cab_append_authenticode_pkcs7_signature test_cab (lit "sig:" ++ d) = Ok signed ∧
    cab_signature_pkcs7_der signed = Ok (lit "sig:" ++ d) ∧
    @verify_cab_digest_consistency ToyDigest (λ p, get_range p 4 24) signed = Ok tt.
Proof.
  cbn zeta. eapply (@cab_sign_then_verify ToyDigest _ test_cab Sha1); by vm_compute.
Defined.

(** Making room for the signature is faithful to the cabinet: the prepared
    file is 24 bytes longer, its header announces the signature position and
    size, [coffFiles] and every folder's [coffCabStart] are 24 further, and
    every other byte, the cabinet strings, the folder entries' remaining
    fields, the file and data areas, is the original's. *)
Theorem cab_prepare_layout data sl out :
  0 <= sl < U32 → prepare_unsigned_cab_for_authenticode_signature data sl = Ok out →
  len out = len data + 24 ∧ reserved out (len data + 24) sl ∧
  ∃ ft, cffolder_table_offset data (from_le (sub data 30 32)) = Ok ft ∧ tables_moved data out ft.
Proof.
  intros Hsl. rewrite prepare_siglen by done.
  destruct (prepare_unsigned_cab_for_authenticode_signature data 0) as [o| |] eqn:Eo; [|done..].
  intros [= <-]. destruct (prepare_tables _ _ Eo) as (ft & Hft & Ht).
  pose proof Hft as Hr. apply prepare_facts in Eo as (Hlen & _ & Hlo & Hres).
  apply cffolder_range in Hr; [|lia]. pose proof (reserved_append o (len data + 24) sl [] Hsl Hres) as Hra.
  rewrite app_nil_r in Hra.
  assert (len (patch o 48 (to_le 4 sl)) = len data + 24) as Hlp by (rewrite len_patch_field; lia).
  split; [done|]. split; [done|]. exists ft. split; [done|].
  destruct (agree_append o sl []) as (_ & _ & Ha); [lia|]. rewrite app_nil_r in Ha.
  unfold tables_moved in *. cbn zeta in *. pose proof (from_le_range (sub data 26 28)) as [Hn _].
  set (n := from_le (sub data 26 28)) in *. destruct Ht as (? & ? & ? & Ht).
  split; [done|]. rewrite (Ha 16 20), (Ha 26 28) by lia. split; [done|]. split; [done|]. intros Hfit.
  destruct (Ht Hfit) as (? & Hi & Hrest). split; [by rewrite Ha by lia|]. split.
  - intros i Hi'. rewrite !Ha by lia. by apply Hi.
  - rewrite Hlp, <-Hrest, Hlo. apply Ha; lia.
Qed.
Lemma cab_prepare_layout_witness :
  let out := match prepare_unsigned_cab_for_authenticode_signature test_cab 9 with Ok o => o | _ => [] end in
  len out = len test_cab + 24 ∧ reserved out (len test_cab + 24) 9 ∧
  ∃ ft, cffolder_table_offset test_cab (from_le (sub test_cab 30 32)) = Ok ft ∧ tables_moved test_cab out ft.
Proof. cbn zeta. apply (cab_prepare_layout test_cab 9); [lia|by vm_compute]. Defined.

(** ** Where the digest panics *)

Lemma feed_in h data s e : 0 <= s <= e → e <= len data → feed h data s e = Ok (hasher_update h (sub data s e)).
Proof. intros. unfold feed, index_range. by rewrite get_range_in by lia. Qed.
Lemma feed_out h data s e : e < s ∨ len data < e → feed h data s e = Panic.
Proof.
  intros Ho. unfold feed, index_range, get_range, in_range.
  destruct ((0 <=? s) && (s <=? e) && (e <=? len data)) eqn:E; [|done]. zbool. lia.
Qed.
Lemma parse_sigpos data ctx : parse_cab_context data = Ok ctx → 0 <= sigpos ctx ∧ (sigpos ctx ≠ 0 → sigpos ctx < len data).
Proof.
  unfold parse_cab_context. intros H. inv_ok H; zbool. unfold try_u32 in E6. destruct (len data <? U32); [|done].
  injection E6 as <-. destruct (has_flag _ FLAG_RESERVE_PRESENT); [|simplify_eq; cbn; lia].
  inv_ok H. simplify_eq. zbool. cbn.
  repeat match goal with E : read_u32_le _ _ = Ok _ |- _ => apply read_u32_Ok in E as (_ & _ & _ & E) end. lia.
Qed.
(** Past the fixed part of the header nothing panics while the signature
    follows it. *)
Lemma hash_folders_stays nf h data idx n : 0 <= idx <= n → n <= len data → n < U32 →
  hash_folders nf h data idx n ≠ Panic ∧ ∀ h' idx' r, hash_folders nf h data idx n = Ok (h', idx', r) → 0 <= idx' <= n.
Proof.
  intros Hi Hn Hu. revert h idx Hi. induction nf as [|nf IH]; intros h idx Hi; cbn [hash_folders]; [split; [done|]; intros ??? [= <- <- <-]; lia|].
  destruct (idx <? n); [|split; [done|intros ??? [= <- <- <-]; lia]].
  unfold checked_add64. destruct (idx + 8 <? U64); [|done]. cbn [ok_or mbind outcome_bind].
  destruct (n <? idx + 8) eqn:E; [done|]. zbool. cbn [bail_if mbind outcome_bind]. rewrite feed_in by lia.
  cbn [mbind outcome_bind]. apply IH. lia.
Qed.
Lemma hash_sz_past h data idx n : n <= idx → hash_sz_field h data idx n = Ok (h, idx).
Proof. intros Hn. unfold hash_sz_field. cbn [loop hash_sz_step]. by rewrite (proj2 (Z.ltb_ge idx n)) by lia. Qed.
Lemma hash_names_stay (next : bool) h data n : 60 <= n <= len data → ∃ h' idx,
  (if next then '(h, idx) ← hash_sz_field h data 60 n; hash_sz_field h data idx n else Ok (h, 60)) = Ok (h', idx) ∧ 60 <= idx <= n.
Proof.
  intros Hn. destruct next; [|exists h, 60; split; [done|lia]].
  assert (∀ h idx, 60 <= idx <= n → ∃ h' idx', hash_sz_field h data idx n = Ok (h', idx') ∧ idx <= idx' <= n) as Hsz.
  { intros h0 idx Hi. unfold hash_sz_field. destruct (hash_sz_total data h0 idx n) as (h' & idx' & -> & ?); [lia..|]. by exists h', idx'. }
  destruct (Hsz h 60) as (h1 & i1 & -> & ?); [lia|]. cbn [mbind outcome_bind].
  destruct (Hsz h1 i1) as (h2 & i2 & -> & ?); [lia|]. exists h2, i2. split; [done|lia].
Qed.

(** C17: Exactly which cabinets that pass the layout check make the digest
    panic, whatever the hash: those with a signature position that are shorter
    than the 60 bytes of a signed header, so that [data[56..60]] is out of range,
    and those whose signature position lies inside the signed header, with no
    folders and with [coffFiles] 60, so that the last range [data[60..sigpos]]
    runs backwards.  Every other one gives a digest or an error. *)
Theorem cab_digest_panics_exactly `{DigestOracle} data ctx kind : parse_cab_context data = Ok ctx →
  compute_cab_authenticode_digest data ctx kind = Panic ↔
  sigpos ctx ≠ 0 ∧
  (len data < 60 ∨ sigpos ctx < 60 ∧ from_le (sub data 26 28) = 0 ∧ from_le (sub data 16 20) = 60).
Proof.
  intros Hp. pose proof (parse_sigpos _ _ Hp) as [Hs Hlt]. apply parse_Ok_inv in Hp as (Hlen & Hu & _ & _ & _ & _ & Hf).
  unfold compute_cab_authenticode_digest, hash_cab. rewrite Hf, (feed_in _ _ 0 4) by lia. cbn [mbind outcome_bind].
  destruct (sigpos ctx =? 0) eqn:E0; zbool; cbn [negb]; [rewrite feed_in by lia; cbn; split; [done|lia]|]. specialize (Hlt E0).
  rewrite !read_u32_in, !read_u16_in by lia. cbn [mbind outcome_bind]. change (16 + 4) with 20. change (26 + 2) with 28. change (30 + 2) with 32.
  do 7 (rewrite feed_in by lia; cbn [mbind outcome_bind]).
  destruct (Z.ltb_spec (len data) 60) as [Hshort|Hlong].
  { rewrite feed_out by lia. cbn. split; [intros _; split; [done|by left]|done]. }
  rewrite feed_in by lia. cbn [mbind outcome_bind]. set (n := sigpos ctx) in *. set (h8 := hasher_update _ (sub data 56 60)). clearbody h8.
  rewrite (proj2 (Z.ltb_ge (len data) n)) by lia. pose proof (from_le_range (sub data 26 28)) as [Hnf _]. set (nf := from_le (sub data 26 28)) in *.
  set (coff := from_le (sub data 16 20)) in *. destruct (Z.ltb_spec n 60) as [Hin|Hout].
  - assert ((if has_flag (from_le (sub data 30 32)) FLAG_NEXT_CABINET then
      '(h, idx) ← hash_sz_field h8 data 60 n; hash_sz_field h data idx n else Ok (h8, 60)) = Ok (h8, 60)) as ->.
    { destruct (has_flag _ _); [|done]. rewrite hash_sz_past by lia. cbn [mbind outcome_bind]. by rewrite hash_sz_past by lia. }
    cbn [mbind outcome_bind]. destruct (Z.to_nat nf) as [|m] eqn:Em; cbn [hash_folders].
    + cbn [mbind outcome_bind Nat.eqb negb bail_if]. destruct (Z.eqb_spec 60 coff) as [Hc|Hc]; cbn [negb bail_if mbind outcome_bind].
      * rewrite feed_out by lia. cbn. split; [intros _; split; [done|right; lia]|done].
      * cbn. split; [done|]. intros (_ & [?|(_ & _ & ?)]); [lia|congruence].
    + rewrite (proj2 (Z.ltb_ge 60 n)) by lia. cbn. split; [done|]. intros (_ & [?|(_ & Hz & _)]); [lia|]. by rewrite Hz in Em.
  - split; [|lia]. destruct (hash_names_stay (has_flag (from_le (sub data 30 32)) FLAG_NEXT_CABINET) h8 data n) as (h9 & idx & -> & ?); [lia|].
    cbn [mbind outcome_bind]. destruct (hash_folders_stays (Z.to_nat nf) h9 data idx n) as [Hnp Hle]; [lia..|].
    destruct (hash_folders _ _ _ _ _) as [[[h10 i10] r10]|e|]; [|done..]. cbn [mbind outcome_bind]. specialize (Hle _ _ _ eq_refl).
    destruct (negb (Nat.eqb r10 0)); [done|]. destruct (negb (i10 =? coff)); [done|]. cbn [bail_if mbind outcome_bind].
    by rewrite feed_in by lia.
Qed.
(** A cabinet of 100 bytes whose signature is at 52, and one that ends before
    its header does. *)
Definition backwards_cab : bytes := lit "MSCF" ++ to_le 4 0 ++ to_le 4 100 ++ to_le 4 0 ++ to_le 4 60 ++ to_le 4 0
  ++ to_le 2 0x0103 ++ to_le 2 0 ++ to_le 2 0 ++ to_le 2 4 ++ to_le 4 0 ++ to_le 4 20
  ++ to_le 4 0x00100000 ++ to_le 4 52 ++ to_le 4 48 ++ replicate 48 (byte_of 0).
Definition short_cab : bytes := take 48 backwards_cab ++ to_le 4 2 ++ replicate 2 (byte_of 0).
Lemma cab_digest_panics_exactly_witness :
  (parse_cab_context backwards_cab = Ok (mk_CabCtx 20 52 48 100 4) ∧
   @compute_cab_authenticode_digest ToyDigest backwards_cab (mk_CabCtx 20 52 48 100 4) Sha256 = Panic) ∧
  (parse_cab_context short_cab = Ok (mk_CabCtx 20 52 2 54 4) ∧
   @compute_cab_authenticode_digest ToyDigest short_cab (mk_CabCtx 20 52 2 54 4) Sha256 = Panic).
Proof.
  assert (parse_cab_context backwards_cab = Ok (mk_CabCtx 20 52 48 100 4)) as Hb by (by vm_compute).
  split; (split; [by vm_compute|]).
  - apply (@cab_digest_panics_exactly ToyDigest backwards_cab _ Sha256 Hb). split; [done|]. right. by vm_compute.
  - apply (@cab_digest_panics_exactly ToyDigest short_cab); [by vm_compute|]. split; [done|]. left. by vm_compute.
Defined.
