(* ===== verification/ZipAuth.v ===== *)
(** Signed ZIP archives: [crates/psign-sip-digest/src/zip_authenticode.rs].

    Finding the end-of-central-directory record, the digest of an archive
    without its comment, the signature line kept in the comment, and its
    exchange with a PowerShell signature script.

    Base64 (crate [base64], the standard engine) is the interface of Base64.v. *)

From S2P Require Import Prelude.
From S2P Require Import RustStr.
From S2P Require Import Base64.
From S2P Require Import PeDigest.

Definition EOCD_SIG : bytes := byte_of <$> [0x50; 0x4b; 0x05; 0x06].
Definition EOCD_LEN : Z := 22.
Definition EOCD_COMMENT_LEN_OFFSET : Z := 20.
Definition MAX_ZIP_COMMENT_LEN : Z := 65535.
Definition ZIP_AUTHENTICODE_PREFIX : str := chars "ZipAuthenticode=".
Definition SHA256_DIGEST_PREFIX : str := chars "sha256:".
Definition BEGIN_SIG_BLOCK : str := chars "# SIG # Begin signature block".
Definition END_SIG_BLOCK : str := chars "# SIG # End signature block".

Record ZipEocd := mk_ZipEocd { offset : Z; comment_offset : Z; comment_len : Z }.
Record ZipAuthenticodeSignature := mk_zas { zas_digest : str; zas_pkcs7_base64 : str }.

Definition HEX : str := chars "0123456789abcdef".
Definition hex_digit (n : Z) : char := nth (Z.to_nat n) HEX 0.
Definition hex_lower (bs : bytes) : str :=
  bs ≫= λ b, [hex_digit (Z.shiftr (u8 b) 4); hex_digit (Z.land (u8 b) 0x0f)].

Definition read_u16_le (bs : bytes) (offset : Z) : outcome Z :=
  raw ← ok_or (get_range bs offset (offset + 2)) "ZIP EOCD field out of range";
  Ok (from_le raw).

Definition no_eocd_msg : string := "could not find a valid ZIP end-of-central-directory record".

(** The loop over the candidate offsets, last one first. *)
Fixpoint scan_eocd (bs : bytes) (offsets : list Z) : outcome ZipEocd :=
  match offsets with
  | [] => Err no_eocd_msg
  | offset :: rest =>
      if negb (bool_decide (get_range bs offset (offset + 4) = Some EOCD_SIG))
      then scan_eocd bs rest
      else
        comment_len ← read_u16_le bs (offset + EOCD_COMMENT_LEN_OFFSET);
        let comment_offset := offset + EOCD_LEN in
        if comment_offset + comment_len =? len bs
        then Ok (mk_ZipEocd offset comment_offset comment_len)
        else scan_eocd bs rest
  end.
Definition find_eocd (bs : bytes) : outcome ZipEocd :=
  bail_if (len bs <? EOCD_LEN) "ZIP file is too short to contain an EOCD record";;
  let last_possible := len bs - EOCD_LEN in
  let first_possible := saturating_sub (len bs) (EOCD_LEN + MAX_ZIP_COMMENT_LEN) in
  scan_eocd bs (rev (seqZ first_possible (last_possible - first_possible + 1))).

Definition zip_comment (bs : bytes) : outcome bytes :=
  eocd ← find_eocd bs;
  index_range bs (comment_offset eocd) (comment_offset eocd + comment_len eocd).

(** The bytes hashed: everything before the comment, its length field zero. *)
Definition zip_tbs (bs : bytes) : outcome bytes :=
  eocd ← find_eocd bs;
  tbs ← index_range bs 0 (comment_offset eocd);
  tbs ← write_at tbs (offset eocd + EOCD_COMMENT_LEN_OFFSET) [byte_of 0];
  write_at tbs (offset eocd + EOCD_COMMENT_LEN_OFFSET + 1) [byte_of 0].

Section Signature.
Context `{DigestOracle} `{Base64}.

Definition compute_zip_authenticode_digest (bs : bytes) : outcome bytes :=
  tbs ← zip_tbs bs; Ok (digest Sha256 tbs).
Definition zip_authenticode_digest_string (bs : bytes) : outcome str :=
  d ← compute_zip_authenticode_digest bs; Ok (SHA256_DIGEST_PREFIX ++ hex_lower d).

Definition signature_comment_line (bs : bytes) : outcome str :=
  comment ← zip_comment bs;
  text ← ok_or (from_utf8 comment) "ZIP comment is not UTF-8";
  ok_or (List.find (λ line, starts_with line ZIP_AUTHENTICODE_PREFIX) (trim <$> lines text))
    "ZIP Authenticode signature comment not found".

Definition is_sha256_digest_string (value : str) : bool :=
  (byte_len value =? byte_len SHA256_DIGEST_PREFIX + 64) &&
  match strip_prefix SHA256_DIGEST_PREFIX value with
  | Some rest => forallb (λ b, is_ascii_hexdigit (u8 b)) (encode_utf8 rest)
  | None => false
  end.

Definition digest_format_msg : string := "ZIP signature digest must use sha256:<64 hex chars>".

Definition parse_signature_comment_line (line : str) : outcome ZipAuthenticodeSignature :=
  rest ← ok_or (strip_prefix ZIP_AUTHENTICODE_PREFIX (trim line))
    "ZIP signature comment must start with {ZIP_AUTHENTICODE_PREFIX}";
  '(digest, pkcs7_base64) ← ok_or (split_once 44 rest)
    "ZIP signature comment is missing PKCS#7 separator";
  bail_if (negb (is_sha256_digest_string digest)) digest_format_msg;;
  bail_if (bool_decide (trim pkcs7_base64 = [])) "ZIP signature PKCS#7 payload is empty";;
  _ ← ok_or (b64_decode (trim pkcs7_base64)) "ZIP signature PKCS#7 base64 decode";
  Ok (mk_zas (to_ascii_lowercase digest) (trim pkcs7_base64)).

Definition signature_pkcs7_der (sig : ZipAuthenticodeSignature) : outcome bytes :=
  ok_or (b64_decode (trim (zas_pkcs7_base64 sig))) "ZIP signature PKCS#7 base64 decode".

(** The loop over the chunks; [expect] panics on a chunk that is not UTF-8. *)
Fixpoint push_chunks (out : str) (cs : list bytes) : outcome str :=
  match cs with
  | [] => Ok out
  | chunk :: cs' =>
      s ← unwrap (from_utf8 chunk);
      push_chunks (out ++ RustStr.chars "# " ++ s ++ CRLF) cs'
  end.
Definition signature_script_from_parts (digest pkcs7_base64 : str) : outcome str :=
  let out := digest ++ CRLF ++ BEGIN_SIG_BLOCK ++ CRLF in
  let bs := encode_utf8 pkcs7_base64 in
  out ← push_chunks out (chunks (length bs) 64 bs);
  Ok (out ++ END_SIG_BLOCK ++ CRLF).

Definition comment_line (digest pkcs7_base64 : str) : str :=
  ZIP_AUTHENTICODE_PREFIX ++ to_ascii_lowercase digest ++ [44] ++ pkcs7_base64.

Definition signature_comment_line_from_pkcs7_der (digest : str) (pkcs7_der : bytes) : outcome str :=
  bail_if (negb (is_sha256_digest_string digest)) digest_format_msg;;
  let line := comment_line digest (b64_encode pkcs7_der) in
  _ ← parse_signature_comment_line line;
  Ok line.

Definition signature_script_from_comment_line (line : str) : outcome str :=
  sig ← parse_signature_comment_line line;
  signature_script_from_parts (zas_digest sig) (zas_pkcs7_base64 sig).

Definition unsigned_signature_script_bytes (digest : str) : bytes := encode_utf8 digest.

(** The loop over the script's lines: [in_block] and the base64 so far. *)
Fixpoint script_block (ls : list str) (in_block : bool) (pkcs7_base64 : str) : str :=
  match ls with
  | [] => pkcs7_base64
  | line :: ls' =>
      let trimmed := trim line in
      if bool_decide (trimmed = BEGIN_SIG_BLOCK) then script_block ls' true pkcs7_base64
      else if bool_decide (trimmed = END_SIG_BLOCK) then pkcs7_base64
      else if in_block then
        match strip_prefix (RustStr.chars "# ") trimmed with
        | Some rest => script_block ls' in_block (pkcs7_base64 ++ trim rest)
        | None => script_block ls' in_block pkcs7_base64
        end
      else script_block ls' in_block pkcs7_base64
  end.
Definition signature_comment_line_from_script (script : bytes) : outcome str :=
  text ← ok_or (from_utf8 script) "signed ZIP .sig.ps1 is not UTF-8";
  '(first, rest) ← ok_or (match lines text with [] => None | l :: ls => Some (l, ls) end)
    "signed ZIP .sig.ps1 is empty";
  let digest := trim first in
  bail_if (negb (is_sha256_digest_string digest))
    "signed ZIP .sig.ps1 first line must be sha256:<64 hex chars>";;
  let line := comment_line digest (script_block rest false []) in
  _ ← parse_signature_comment_line line;
  Ok line.

Definition set_zip_comment (bs comment : bytes) : outcome bytes :=
  bail_if (MAX_ZIP_COMMENT_LEN <? len comment)
    "ZIP comment is too large for EOCD comment field ({} > {MAX_ZIP_COMMENT_LEN})";;
  eocd ← find_eocd bs;
  out ← index_range bs 0 (comment_offset eocd);
  out ← write_at out (offset eocd + EOCD_COMMENT_LEN_OFFSET) (to_le 2 (len comment mod U16));
  Ok (out ++ comment).

Definition embed_signature_comment_line (bs : bytes) (line : str) : outcome bytes :=
  _ ← parse_signature_comment_line line;
  set_zip_comment bs (encode_utf8 line).

Definition verify_zip_digest_binding (bs : bytes) : outcome ZipAuthenticodeSignature :=
  line ← signature_comment_line bs;
  sig ← parse_signature_comment_line line;
  computed ← zip_authenticode_digest_string bs;
  bail_if (negb (bool_decide (zas_digest sig = computed)))
    "ZIP Authenticode digest mismatch: embedded {} computed {}";;
  Ok sig.
End Signature.

Lemma hex_digit_props n : 0 <= n < 16 →
  is_base64_char (hex_digit n) = true ∧
  is_ascii_hexdigit (hex_digit n) = true ∧ lower (hex_digit n) = hex_digit n.
Proof.
  intros Hn. pose proof (forall_range (λ n, bool_decide (
    is_base64_char (hex_digit n) = true ∧
    is_ascii_hexdigit (hex_digit n) = true ∧ lower (hex_digit n) = hex_digit n)) 0 16 eq_refl n Hn) as H.
  by apply bool_decide_eq_true in H.
Qed.
Lemma nibbles b : 0 <= Z.shiftr (u8 b) 4 < 16 ∧ 0 <= Z.land (u8 b) 0x0f < 16.
Proof.
  pose proof (u8_range b). change 0x0f with (Z.ones 4). rewrite Z.land_ones by lia.
  rewrite Z.shiftr_div_pow2 by lia. lia.
Qed.
Lemma hex_lower_Forall (P : char → Prop) bs :
  (∀ n, 0 <= n < 16 → P (hex_digit n)) → Forall P (hex_lower bs).
Proof.
  intros HP. induction bs as [|b bs IH]; [constructor|].
  destruct (nibbles b) as (H1 & H2).
  apply Forall_cons_2; [by apply HP|]. apply Forall_cons_2; [by apply HP|]. done.
Qed.
Lemma length_hex_lower bs : length (hex_lower bs) = (2 * length bs)%nat.
Proof.
  induction bs as [|b bs IH]; [done|].
  change (length (hex_lower (b :: bs))) with (S (S (length (hex_lower bs)))). rewrite IH. cbn. lia.
Qed.

(** ** Finding the record *)

(** A record at [o] whose comment ends the file. *)
Definition eocd_at (bs : bytes) (o : Z) : Prop :=
  0 <= o ∧ o + EOCD_LEN <= len bs ∧ sub bs o (o + 4) = EOCD_SIG ∧
  o + EOCD_LEN + from_le (sub bs (o + 20) (o + 22)) = len bs.

Lemma scan_eocd_spec bs offsets e :
  Forall (λ o, 0 <= o ∧ o + EOCD_LEN <= len bs) offsets →
  scan_eocd bs offsets = Ok e ↔
  ∃ before o after, offsets = before ++ o :: after ∧ Forall (λ o, ¬ eocd_at bs o) before ∧
    eocd_at bs o ∧ e = mk_ZipEocd o (o + EOCD_LEN) (from_le (sub bs (o + 20) (o + 22))).
Proof.
  unfold EOCD_LEN. induction 1 as [|o os [Ho Hl] _ IH]; cbn [scan_eocd].
  - split; [done|]. intros (before & o & after & Heq & _). by destruct before.
  - unfold read_u16_le, EOCD_COMMENT_LEN_OFFSET, EOCD_LEN.
    rewrite !get_range_in by lia. cbn [ok_or mbind outcome_bind].
    replace (o + 20 + 2) with (o + 22) by lia.
    assert (¬ eocd_at bs o → scan_eocd bs os = Ok e ↔
      ∃ before o' after, o :: os = before ++ o' :: after ∧ Forall (λ o, ¬ eocd_at bs o) before ∧
        eocd_at bs o' ∧ e = mk_ZipEocd o' (o' + 22) (from_le (sub bs (o' + 20) (o' + 22)))) as Hskip.
    { intros Hno. rewrite IH. split.
      - intros (before & o' & after & -> & ? & ?). exists (o :: before), o', after.
        split; [done|]. split; [by constructor|done].
      - intros (before & o' & after & Heq & Hb & Hat & ->). destruct before as [|o1 before].
        + by injection Heq as <- _.
        + injection Heq as <- ->. apply Forall_cons in Hb as [_ Hb]. by exists before, o', after. }
    destruct (negb _) eqn:Esig; [|destruct (_ =? len bs) eqn:El]; zbool.
    + apply Hskip. unfold eocd_at. intros (_ & _ & Hs & _). rewrite Hs in Esig. done.
    + injection Esig as Esig. split.
      * intros [= <-]. by exists [], o, os.
      * intros (before & o' & after & Heq & Hb & Hat & ->). destruct before as [|o1 before].
        -- by injection Heq as <- _.
        -- injection Heq as <- _. apply Forall_cons in Hb as [Hb _]. by destruct Hb.
    + apply Hskip. unfold eocd_at, EOCD_LEN. intros (_ & _ & _ & Hx). lia.
Qed.

Lemma eocd_at_range bs o : eocd_at bs o →
  saturating_sub (len bs) (EOCD_LEN + MAX_ZIP_COMMENT_LEN) <= o <= len bs - EOCD_LEN.
Proof.
  unfold eocd_at, EOCD_LEN, MAX_ZIP_COMMENT_LEN, saturating_sub. intros (? & ? & _ & Hl).
  pose proof (from_le_range (sub bs (o + 20) (o + 22))) as Hr. rewrite len_sub in Hr by lia.
  replace (8 * (o + 22 - (o + 20))) with 16 in Hr by lia. lia.
Qed.

Lemma find_eocd_spec bs e :
  find_eocd bs = Ok e ↔
  eocd_at bs (offset e) ∧ (∀ o, offset e < o → ¬ eocd_at bs o) ∧
  e = mk_ZipEocd (offset e) (offset e + EOCD_LEN)
        (from_le (sub bs (offset e + 20) (offset e + 22))).
Proof.
  unfold find_eocd. set (f := saturating_sub _ _). set (n := len bs - EOCD_LEN - f + 1).
  destruct (len bs <? EOCD_LEN) eqn:El; cbn [bail_if mbind outcome_bind]; zbool.
  { split; [done|]. intros ((? & ? & _) & _). lia. }
  rewrite scan_eocd_spec.
  2: { apply Forall_forall. intros o Ho. apply list_elem_of_In, in_rev, list_elem_of_In, elem_of_seqZ in Ho.
       unfold f, n, saturating_sub in *. lia. }
  assert (0 <= n) by (unfold n, f, saturating_sub, EOCD_LEN, MAX_ZIP_COMMENT_LEN in *; lia).
  split.
  - intros (before & o & after & Heq & Hb & Hat & ->). cbn [offset]. split; [done|]. split; [|done].
    intros o' Ho' Hat'. apply eocd_at_range in Hat' as Hr. fold f in Hr.
    apply eocd_at_range in Hat as Hr2. fold f in Hr2.
    assert (seqZ f n = rev after ++ [o] ++ rev before) as Hseq.
    { rewrite <-(rev_involutive (seqZ f n)), Heq, rev_app_distr. cbn [rev]. by rewrite <-app_assoc. }
    assert (o' ∈ seqZ f n) as Hin by (apply elem_of_seqZ; unfold n; lia).
    apply list_elem_of_lookup in Hin as [i Hi].
    assert (seqZ f n !! length (rev after) = Some o) as Hio.
    { by rewrite Hseq, lookup_app_r, Nat.sub_diag by lia. }
    apply lookup_seqZ in Hio as [-> ?]. pose proof Hi as Hi'. apply lookup_seqZ in Hi' as [-> ?].
    rewrite Hseq, lookup_app_r in Hi by lia. cbn in Hi.
    destruct (i - length (rev after))%nat as [|j] eqn:Ej; [lia|]. cbn in Hi.
    apply (list_elem_of_lookup_2 _ j) in Hi.
    apply list_elem_of_In, in_rev, list_elem_of_In in Hi.
    by eapply Forall_forall in Hb.
  - intros (Hat & Hno & ->). cbn [offset] in *. set (o := offset e) in *.
    apply eocd_at_range in Hat as Hr. fold f in Hr.
    exists (rev (seqZ (o + 1) (f + n - (o + 1)))), o, (rev (seqZ f (o - f))). split; [|split; [|done]].
    + replace n with ((o - f) + (1 + (f + n - (o + 1)))) at 1 by lia.
      rewrite !seqZ_app, !rev_app_distr by (unfold n in *; lia).
      replace (f + (o - f)) with o by lia. cbn. by rewrite <-app_assoc.
    + apply Forall_forall. intros o' Ho'.
      apply list_elem_of_In, in_rev, list_elem_of_In, elem_of_seqZ in Ho'. apply Hno. lia.
Qed.

(** ** Writing the comment *)

(** The record at [o] is the only signature from [o] on. *)
Definition unambiguous (bs : bytes) (o : Z) : Prop :=
  ∀ o', o < o' → sub bs o' (o' + 4) ≠ EOCD_SIG.

Definition with_comment (bs : bytes) (o : Z) (comment : bytes) : bytes :=
  sub bs 0 (o + 20) ++ to_le 2 (len comment) ++ comment.

Lemma patch_tail2 (bs : bytes) o x :
  0 <= o → o + 22 <= len bs → len x = 2 →
  patch (sub bs 0 (o + 22)) (o + 20) x = sub bs 0 (o + 20) ++ x.
Proof.
  intros ???. rewrite (sub_split bs 0 (o + 20) (o + 22)) by lia.
  rewrite patch_app_r by (rewrite !len_sub by lia; lia).
  f_equal. rewrite len_sub by lia. unfold patch. rewrite (sub_nil_range _ 0), sub_nil_range.
  - by rewrite app_nil_r.
  - rewrite len_sub; lia.
  - lia.
Qed.

Lemma zip_tbs_eq bs e :
  find_eocd bs = Ok e → zip_tbs bs = Ok (sub bs 0 (offset e + 20) ++ [byte_of 0; byte_of 0]).
Proof.
  intros He. unfold zip_tbs. rewrite He. cbn [mbind outcome_bind].
  apply find_eocd_spec in He as ((? & Hl & _) & _ & ->). cbn [offset comment_offset].
  unfold EOCD_LEN, EOCD_COMMENT_LEN_OFFSET in *. set (o := offset e) in *.
  rewrite index_range_in by lia. cbn [mbind outcome_bind].
  rewrite (sub_split bs 0 (o + 20) (o + 22)) by lia.
  assert (len (sub bs 0 (o + 20)) = o + 20) as Hl1 by (rewrite len_sub; lia).
  assert (len (sub bs (o + 20) (o + 22)) = 2) as Hl2 by (rewrite len_sub; lia).
  destruct (sub bs (o + 20) (o + 22)) as [|x [|y [|]]]; try (unfold len in Hl2; cbn in Hl2; lia).
  rewrite write_at_in by (rewrite ?len_app, ?Hl1; unfold len; cbn; lia). cbn [mbind outcome_bind].
  rewrite patch_app_r by (rewrite ?Hl1; unfold len; cbn; lia).
  rewrite Hl1, Z.sub_diag. change (patch [x; y] 0 [byte_of 0]) with [byte_of 0; y].
  rewrite write_at_in by (rewrite ?len_app, ?Hl1; unfold len; cbn; lia).
  rewrite patch_app_r by (rewrite ?Hl1; unfold len; cbn; lia). rewrite Hl1.
  replace (o + 20 + 1 - (o + 20)) with 1 by lia. done.
Qed.

Lemma set_zip_comment_eq bs e comment :
  find_eocd bs = Ok e → len comment <= MAX_ZIP_COMMENT_LEN →
  set_zip_comment bs comment = Ok (with_comment bs (offset e) comment).
Proof.
  intros He Hc. unfold set_zip_comment. rewrite (proj2 (Z.ltb_ge _ _)) by done.
  cbn [bail_if mbind outcome_bind]. rewrite He. cbn [mbind outcome_bind].
  apply find_eocd_spec in He as ((? & Hl & _) & _ & ->). cbn [offset comment_offset].
  unfold EOCD_LEN, EOCD_COMMENT_LEN_OFFSET, MAX_ZIP_COMMENT_LEN in *. set (o := offset e) in *.
  pose proof (len_nonneg comment).
  rewrite index_range_in by lia. cbn [mbind outcome_bind].
  rewrite write_at_in by (rewrite ?len_to_le, ?len_sub by lia; lia). cbn [mbind outcome_bind]. rewrite patch_tail2 by (rewrite ?len_to_le; lia).
  unfold with_comment. by rewrite Z.mod_small, <-app_assoc by lia.
Qed.

Lemma with_comment_facts bs e comment :
  find_eocd bs = Ok e → len comment <= MAX_ZIP_COMMENT_LEN →
  let out := with_comment bs (offset e) comment in
  unambiguous out (offset e) →
  find_eocd out = Ok (mk_ZipEocd (offset e) (offset e + 22) (len comment)) ∧
  zip_comment out = Ok comment ∧ zip_tbs out = zip_tbs bs ∧
  set_zip_comment out [] = set_zip_comment bs [].
Proof.
  cbn zeta. intros He Hc Hu. pose proof He as He0. pose proof (len_nonneg comment).
  apply find_eocd_spec in He as ((? & Hl & Hsig & _) & _ & Heq). unfold EOCD_LEN in *.
  set (o := offset e) in *. set (out := with_comment bs o comment) in *.
  assert (len (sub bs 0 (o + 20)) = o + 20) as Hl1 by (rewrite len_sub; lia).
  assert (len out = o + 22 + len comment) as Hlo.
  { unfold out, with_comment. rewrite !len_app, Hl1, len_to_le. lia. }
  assert (sub out (o + 20) (o + 22) = to_le 2 (len comment)) as Hf.
  { unfold out, with_comment. rewrite sub_app_r by lia. rewrite Hl1, sub_app_l by (rewrite ?len_to_le; lia).
    rewrite <-(sub_full (to_le 2 (len comment))) at 2. rewrite len_to_le. f_equal; lia. }
  unfold MAX_ZIP_COMMENT_LEN in *.
  assert (from_le (sub out (o + 20) (o + 22)) = len comment) as Hf'.
  { rewrite Hf. apply from_to_le_small. change (Z.of_nat 2 * 8) with 16. lia. }
  assert (sub out 0 (o + 20) = sub bs 0 (o + 20)) as Hpre.
  { unfold out, with_comment. rewrite sub_app_l by lia. rewrite <-Hl1 at 2. apply sub_full. }
  assert (find_eocd out = Ok (mk_ZipEocd o (o + 22) (len comment))) as Hfind.
  { apply find_eocd_spec. cbn [offset]. split; [|split].
    - split; [done|]. split; [unfold EOCD_LEN; lia|]. split; [|unfold EOCD_LEN; rewrite Hf'; lia].
      rewrite <-Hsig. apply (sub_prefix_eq _ _ (o + 20)); done || lia.
    - intros o' Ho' (_ & _ & Hs & _). by eapply Hu.
    - by rewrite Hf'. }
  split; [done|]. split; [|split].
  - unfold zip_comment. rewrite Hfind. cbn [mbind outcome_bind comment_offset comment_len].
    rewrite index_range_in by lia. f_equal. unfold out, with_comment. rewrite app_assoc.
    rewrite sub_app_r, len_app, Hl1, len_to_le by (rewrite len_app, Hl1, len_to_le; lia).
    trans (sub comment 0 (len comment)); [f_equal; lia|apply sub_full].
  - rewrite (zip_tbs_eq _ _ Hfind), (zip_tbs_eq _ _ He0). cbn [offset]. by rewrite Hpre.
  - rewrite !(set_zip_comment_eq _ _ [] Hfind), (set_zip_comment_eq _ _ [] He0) by done.
    cbn [offset]. unfold with_comment at 1 2. by rewrite Hpre.
Qed.

(** ** The signature line *)

Lemma hexdigit_plain c : is_ascii_hexdigit c = true →
  plain c = true ∧ is_ascii_hexdigit (lower c) = true ∧ lower (lower c) = lower c.
Proof.
  intros Hc. assert (0 <= c < 128) as Hr.
  { unfold is_ascii_hexdigit, is_ascii_digit, between in Hc.
    rewrite !orb_true_iff, !andb_true_iff, !Z.leb_le in Hc. lia. }
  pose proof (forall_range (λ c, implb (is_ascii_hexdigit c) (plain c && is_ascii_hexdigit (lower c)
    && (lower (lower c) =? lower c))) 0 128 eq_refl c Hr) as Hi.
  cbn beta in Hi. rewrite Hc in Hi. cbn [implb] in Hi. zbool. done.
Qed.
(** A digest string the parser accepts, in lower case. *)
Record digest_wf (d : str) : Prop := {
  dw_plain : plains d;
  dw_sha : is_sha256_digest_string d = true;
  dw_lower : to_ascii_lowercase d = d }.

Lemma sha256_string_wf d :
  scalars d → is_sha256_digest_string d = true → digest_wf (to_ascii_lowercase d).
Proof.
  intros Hs. unfold is_sha256_digest_string. rewrite andb_true_iff. intros [Hlen Hp]. zbool.
  destruct (strip_prefix _ d) as [r|] eqn:Er; [|done]. apply strip_prefix_Some in Er as ->.
  apply Forall_app in Hs as [_ Hs].
  assert (Forall (λ c, is_ascii_hexdigit c = true) r) as Hr.
  { rewrite forallb_forall in Hp. clear Hlen. induction Hs as [|c r Hc _ IH]; [constructor|].
    change (encode_utf8 (c :: r)) with (encode_utf8_char c ++ encode_utf8 r) in Hp.
    apply Forall_cons_2.
    - apply is_scalar_spec in Hc. destruct (Z.ltb_spec c 128) as [Hl|Hl].
      + specialize (Hp (byte_of c)). rewrite u8_of, Z.mod_small in Hp by lia. apply Hp.
        unfold encode_utf8_char. rewrite (proj2 (Z.ltb_lt c 0x80)) by lia. by left.
      + assert (∃ b rest, encode_utf8_char c = b :: rest ∧ 128 <= u8 b) as (b & rest & Heq & Hb).
        { unfold encode_utf8_char. ztests; eexists _, _; (split; [reflexivity|]); rewrite u8_of; lia. }
        specialize (Hp b). rewrite Heq in Hp. specialize (Hp (or_introl eq_refl)).
        apply hexdigit_plain in Hp as [Hp _]. apply plain_spec in Hp. lia.
    - apply IH. intros b Hb. apply Hp, in_or_app. by right. }
  assert (to_ascii_lowercase (SHA256_DIGEST_PREFIX ++ r) = SHA256_DIGEST_PREFIX ++ to_ascii_lowercase r) as ->.
  { unfold to_ascii_lowercase. by rewrite fmap_app. }
  assert (Forall (λ c, is_ascii_hexdigit c = true ∧ plain c = true ∧ lower c = c) (to_ascii_lowercase r)) as Hl.
  { unfold to_ascii_lowercase. rewrite Forall_fmap. eapply Forall_impl; [exact Hr|]. cbn.
    intros c (_ & Hc & Hll)%hexdigit_plain. split; [done|]. split; [|done].
    by apply hexdigit_plain in Hc as [? _]. }
  assert (plains (to_ascii_lowercase r)) as Hpl by (eapply Forall_impl; [exact Hl|]; by intros c (_ & ? & _)).
  assert (plains r) as Hplr by (eapply Forall_impl; [exact Hr|]; by intros c [? _]%hexdigit_plain).
  split.
  - apply Forall_app_2; [|done]. by apply forallb_Forall.
  - unfold is_sha256_digest_string. rewrite strip_prefix_app, andb_true_iff. split.
    + apply Z.eqb_eq. rewrite <-Hlen, !byte_len_app. f_equal.
      rewrite !byte_len_ascii by (by apply plains_ascii). unfold len, to_ascii_lowercase.
      by rewrite length_fmap.
    + rewrite encode_utf8_ascii by (by apply plains_ascii). apply forallb_forall.
      intros b Hb. apply list_elem_of_In, list_elem_of_fmap in Hb as (c & -> & Hc).
      eapply Forall_forall in Hl as (Hx & Hpc & _); [|done]. apply plain_spec in Hpc.
      rewrite u8_of, Z.mod_small by lia. done.
  - unfold to_ascii_lowercase. rewrite fmap_app. f_equal. rewrite <-list_fmap_compose.
    apply list_fmap_ext. intros i c Hc. cbn.
    eapply Forall_lookup_1 in Hr as (_ & _ & ?)%hexdigit_plain; done.
Qed.

Lemma prefix_plain : plains ZIP_AUTHENTICODE_PREFIX.
Proof. by apply forallb_Forall. Qed.
Lemma comment_line_visible d b :
  digest_wf d → plains b → Forall (λ c, is_whitespace c = false ∧ is_ascii c = true ∧ 33 <= c) (comment_line d b).
Proof.
  intros [Hd _ Hlow] Hb. unfold comment_line. rewrite Hlow.
  assert (∀ s, plains s → Forall (λ c, is_whitespace c = false ∧ is_ascii c = true ∧ 33 <= c) s) as Hp.
  { intros s H. eapply Forall_impl; [exact H|]. cbn. intros c Hc.
    pose proof (plain_spec c Hc). destruct (plain_props c Hc). split; [done|]. split; [done|lia]. }
  rewrite !Forall_app. split; [apply Hp, prefix_plain|]. split; [by apply Hp|].
  split; [|by apply Hp]. by apply Forall_cons_2; [|constructor].
Qed.
Lemma comment_line_trim d b : digest_wf d → plains b → trim (comment_line d b) = comment_line d b.
Proof.
  intros Hd Hb. apply trim_visible. eapply Forall_impl; [by apply comment_line_visible|].
  by intros c [? _].
Qed.

Lemma parse_comment_line `{Base64} d b bs :
  digest_wf d → plains b → b ≠ [] → b64_decode b = Some bs →
  parse_signature_comment_line (comment_line d b) = Ok (mk_zas d b).
Proof.
  intros Hdw Hb Hne Hdec. unfold parse_signature_comment_line. rewrite comment_line_trim by done.
  destruct Hdw as [Hd Hsha Hlow]. unfold comment_line. rewrite Hlow, strip_prefix_app.
  cbn [ok_or mbind outcome_bind]. change (d ++ [44] ++ b) with (d ++ 44 :: b).
  rewrite split_once_app by (by eapply plains_notin).
  cbn [ok_or mbind outcome_bind]. rewrite Hsha, plains_trim by done.
  rewrite bool_decide_eq_false_2, Hdec by done. cbn. by rewrite Hlow.
Qed.

Lemma digest_string_wf h : len h = 32 → digest_wf (SHA256_DIGEST_PREFIX ++ hex_lower h).
Proof.
  intros Hh. set (d := _ ++ _).
  assert (plains (hex_lower h)) as Hp.
  { apply hex_lower_Forall. intros n Hn. apply base64_plain. by destruct (hex_digit_props n Hn) as (? & _). }
  assert (plains d) as Hd by (apply Forall_app_2; [by apply forallb_Forall|done]).
  assert (to_ascii_lowercase d = d) as Hl.
  { unfold d, to_ascii_lowercase. rewrite fmap_app. f_equal.
    assert (Forall (λ c, lower c = c) (hex_lower h)) as H.
    { apply hex_lower_Forall. intros n Hn. by destruct (hex_digit_props n Hn) as (_ & _ & ?). }
    clear -H. revert H. generalize (hex_lower h). induction 1 as [|c s Hc _ IH]; [done|].
    cbn. rewrite Hc. by f_equal. }
  rewrite <-Hl. apply sha256_string_wf; [by apply ascii_scalars, plains_ascii|].
  unfold is_sha256_digest_string, d. rewrite strip_prefix_app, andb_true_iff. split.
  - apply Z.eqb_eq. rewrite byte_len_app, (byte_len_ascii (hex_lower h)) by (by apply plains_ascii).
    unfold len in *. rewrite length_hex_lower. lia.
  - rewrite encode_utf8_ascii by (by apply plains_ascii). apply forallb_forall.
    intros b Hb. apply list_elem_of_In, list_elem_of_fmap in Hb as (c & -> & Hc).
    assert (Forall (λ c, is_ascii_hexdigit c = true) (hex_lower h)) as H.
    { apply hex_lower_Forall. intros n Hn. by destruct (hex_digit_props n Hn) as (_ & ? & _). }
    eapply Forall_forall in H; [|done]. eapply Forall_forall in Hp; [|done]. apply plain_spec in Hp.
    by rewrite u8_of, Z.mod_small by lia.
Qed.

(** A comment of visible ASCII holds no record signature. *)
Lemma visible_unambiguous bs o line :
  0 <= o → o + 22 <= len bs →
  Forall (λ c, is_whitespace c = false ∧ is_ascii c = true ∧ 33 <= c) line →
  (∀ o', o < o' < o + 22 → sub (with_comment bs o (encode_utf8 line)) o' (o' + 4) ≠ EOCD_SIG) →
  unambiguous (with_comment bs o (encode_utf8 line)) o.
Proof.
  intros Ho Hl Hv Hrec o' Ho' Heq. destruct (decide (o' < o + 22)); [by apply (Hrec o')|].
  unfold with_comment in Heq. rewrite app_assoc in Heq.
  rewrite sub_app_r in Heq by (rewrite len_app, len_sub, len_to_le by lia; lia).
  rewrite encode_utf8_ascii in Heq by (eapply Forall_impl; [exact Hv|]; by intros ? (_ & ? & _)).
  set (s := o' - _) in Heq. set (e := _ - _) in Heq.
  assert (EOCD_SIG !! 2%nat = Some (byte_of 5)) as H5 by done. rewrite <-Heq in H5.
  unfold sub in H5. apply lookup_take_Some in H5 as [H5 _]. rewrite lookup_drop in H5.
  apply list_lookup_fmap_Some in H5 as (c & Hc & Hlk).
  eapply Forall_lookup_1 in Hv as (_ & Ha & H33); [|done]. unfold is_ascii in Ha. zbool.
  apply (f_equal u8) in Hc. rewrite !u8_of in Hc. change (5 mod 256) with 5 in Hc.
  rewrite Z.mod_small in Hc by lia. lia.
Qed.

Lemma signature_line_of_comment `{Base64} bs d b :
  digest_wf d → plains b → zip_comment bs = Ok (encode_utf8 (comment_line d b)) →
  signature_comment_line bs = Ok (comment_line d b).
Proof.
  intros Hd Hb Hc. unfold signature_comment_line. rewrite Hc. cbn [mbind outcome_bind].
  pose proof (comment_line_visible d b Hd Hb) as Hv. set (line := comment_line d b) in *.
  rewrite from_utf8_encode.
  2: { apply ascii_scalars. eapply Forall_impl; [exact Hv|]. by intros c (_ & ? & _). }
  cbn [ok_or mbind outcome_bind]. rewrite lines_single; [|done|].
  2: { intros Hin. eapply Forall_forall in Hv as (_ & _ & ?); [|done]. lia. }
  cbn [fmap list_fmap List.find]. unfold line. rewrite comment_line_trim by done.
  assert (starts_with (comment_line d b) ZIP_AUTHENTICODE_PREFIX = true) as ->; [|done].
  apply starts_with_spec. by eexists.
Qed.

(** ** The signature script *)

Definition script_line (c : str) : str := RustStr.chars "# " ++ c.
Definition script_text (d : str) (cs : list str) : str :=
  d ++ CRLF ++ BEGIN_SIG_BLOCK ++ CRLF ++ concat ((λ c, script_line c ++ CRLF) <$> cs)
  ++ END_SIG_BLOCK ++ CRLF.

Lemma push_chunks_eq out (cs : list str) :
  Forall (λ c, plains c) cs →
  push_chunks out ((λ c : str, byte_of <$> c) <$> cs)
  = Ok (out ++ concat ((λ c, script_line c ++ CRLF) <$> cs)).
Proof.
  intros H. revert out. induction H as [|c cs Hc _ IH]; intros out; cbn; [by rewrite app_nil_r|].
  rewrite from_utf8_plain by done. cbn. rewrite IH. unfold script_line. by rewrite <-!app_assoc.
Qed.
Lemma script_from_parts d b :
  plains b → signature_script_from_parts d b = Ok (script_text d (chunks (length b) 64 b)).
Proof.
  intros Hb. unfold signature_script_from_parts.
  rewrite encode_utf8_ascii, length_fmap, chunks_fmap by (by apply plains_ascii).
  rewrite push_chunks_eq.
  2: { eapply Forall_impl; [apply (chunks_Forall (λ c, plain c = true)); [lia|done]|]. by intros c [_ ?]. }
  cbn [mbind outcome_bind]. unfold script_text. by rewrite <-!app_assoc.
Qed.

Lemma script_lines d cs :
  plains d → Forall (λ c, plains c) cs →
  lines (script_text d cs) = d :: BEGIN_SIG_BLOCK :: (script_line <$> cs) ++ [END_SIG_BLOCK].
Proof.
  intros Hd Hcs. unfold script_text.
  change (d ++ CRLF ++ ?r) with (d ++ 13 :: 10 :: r).
  rewrite lines_crlf by (by apply plain_no_lf).
  change (BEGIN_SIG_BLOCK ++ CRLF ++ ?r) with (BEGIN_SIG_BLOCK ++ 13 :: 10 :: r).
  rewrite lines_crlf by (apply (bool_decide_unpack (10 ∉ BEGIN_SIG_BLOCK)); by vm_compute).
  do 2 f_equal. induction Hcs as [|c cs Hc _ IH]; [by vm_compute|].
  cbn [fmap list_fmap concat]. rewrite <-!app_assoc.
  change (script_line c ++ CRLF ++ ?r) with (script_line c ++ 13 :: 10 :: r).
  rewrite lines_crlf.
  - cbn [app]. by f_equal.
  - unfold script_line. apply not_elem_of_app. split; [|by apply plain_no_lf].
    apply (bool_decide_unpack (10 ∉ chars "# ")). by vm_compute.
Qed.

Lemma script_line_trim c : c ≠ [] → plains c → trim (script_line c) = script_line c.
Proof.
  intros Hne Hc. destruct c as [|x c _] using rev_ind; [done|].
  apply trim_id; intros y s' Heq.
  - by injection Heq as <- _.
  - unfold script_line in Heq. rewrite app_assoc in Heq. apply app_inj_tail in Heq as [_ <-].
    apply Forall_app in Hc as [_ Hc]. apply Forall_cons in Hc as [Hc _]. by apply plain_props.
Qed.
Lemma script_line_not_marker c : plains c →
  script_line c ≠ BEGIN_SIG_BLOCK ∧ script_line c ≠ END_SIG_BLOCK.
Proof.
  intros Hc. unfold script_line. split; intros Heq.
  - assert (c = chars "SIG # Begin signature block") as ->
      by (change BEGIN_SIG_BLOCK with (chars "# " ++ chars "SIG # Begin signature block") in Heq;
          by apply app_inv_head in Heq).
    eapply (Forall_lookup_1 _ _ 3%nat 32) in Hc; done.
  - assert (c = chars "SIG # End signature block") as ->
      by (change END_SIG_BLOCK with (chars "# " ++ chars "SIG # End signature block") in Heq;
          by apply app_inv_head in Heq).
    eapply (Forall_lookup_1 _ _ 3%nat 32) in Hc; done.
Qed.
Lemma script_block_chunks cs acc :
  Forall (λ c, c ≠ [] ∧ plains c) cs →
  script_block ((script_line <$> cs) ++ [END_SIG_BLOCK]) true acc = acc ++ concat cs.
Proof.
  intros H. revert acc. induction H as [|c cs [Hne Hc] _ IH]; intros acc.
  - cbn [fmap list_fmap app script_block concat].
    rewrite (trim_id END_SIG_BLOCK); [|by intros ? ? [= <- _]|].
    + rewrite bool_decide_eq_false_2, bool_decide_eq_true_2 by (done || by vm_compute).
      by rewrite app_nil_r.
    + intros x s' Heq. change END_SIG_BLOCK with (chars "# SIG # End signature bloc" ++ [107]) in Heq.
      by apply app_inj_tail in Heq as [_ <-].
  - cbn [fmap list_fmap app script_block concat]. rewrite script_line_trim by done.
    destruct (script_line_not_marker c Hc). rewrite !bool_decide_eq_false_2 by done.
    unfold script_line at 1. rewrite strip_prefix_app, plains_trim by done.
    rewrite app_assoc. apply IH.
Qed.

(** ** Properties *)

(** Setting a comment is invertible and leaves the archive's digest alone:
    when the end record stays the last one in the file, the comment read back
    is the comment written, and the digest of the archive is unchanged. *)
Theorem zip_comment_roundtrip `{DigestOracle} bs e comment out :
  find_eocd bs = Ok e → set_zip_comment bs comment = Ok out → unambiguous out (offset e) →
  zip_comment out = Ok comment ∧
  compute_zip_authenticode_digest out = compute_zip_authenticode_digest bs.
Proof.
  intros He Hset Hu. destruct (MAX_ZIP_COMMENT_LEN <? len comment) eqn:Ec.
  { unfold set_zip_comment in Hset. by rewrite Ec in Hset. }
  zbool. rewrite (set_zip_comment_eq _ _ _ He Ec) in Hset. injection Hset as <-.
  destruct (with_comment_facts _ _ _ He Ec Hu) as (_ & ? & Htbs & _). split; [done|].
  unfold compute_zip_authenticode_digest. by rewrite Htbs.
Qed.
Definition test_zip : bytes := lit "content" ++ EOCD_SIG ++ replicate 16 (byte_of 7) ++ to_le 2 3 ++ lit "old".
Lemma test_zip_eocd : find_eocd test_zip = Ok (mk_ZipEocd 7 29 3).
Proof. by vm_compute. Defined.
(** Deciding [unambiguous]: nothing past the end. *)
Lemma unambiguous_dec bs o :
  forallb (λ o', negb (bool_decide (sub bs o' (o' + 4) = EOCD_SIG))) (seqZ (o + 1) (len bs - o)) = true →
  unambiguous bs o.
Proof.
  intros H o' Ho' Heq. pose proof (f_equal len Heq) as Hlen. change (len EOCD_SIG) with 4 in Hlen.
  destruct (decide (o' < len bs)) as [Hl|Hl].
  - pose proof (forall_range _ _ _ H o' ltac:(lia)) as Hb. cbn in Hb. zbool. done.
  - unfold sub, len in *. rewrite length_take, length_drop in Hlen. lia.
Qed.
Lemma zip_comment_roundtrip_witness :
  zip_comment (with_comment test_zip 7 (lit "PK new")) = Ok (lit "PK new") ∧
  @compute_zip_authenticode_digest ToyDigest (with_comment test_zip 7 (lit "PK new"))
  = @compute_zip_authenticode_digest ToyDigest test_zip.
Proof.
  apply (@zip_comment_roundtrip ToyDigest test_zip (mk_ZipEocd 7 29 3)).
  - exact test_zip_eocd.
  - by vm_compute.
  - by apply unambiguous_dec; vm_compute.
Defined.

(** C4: What the tool signs, it verifies. A signature line built from a PKCS#7
    and the archive's own digest, embedded in the comment, makes an archive
    that passes the digest binding, with the same digest and the same PKCS#7,
    provided the end record's own bytes hold no second record signature. *)
Theorem zip_sign_then_verify `{DigestOracle} `{Base64} bs e d p :
  find_eocd bs = Ok e → zip_authenticode_digest_string bs = Ok d → p ≠ [] →
  let line := comment_line d (b64_encode p) in
  byte_len line <= MAX_ZIP_COMMENT_LEN →
  (∀ o', offset e < o' < offset e + 22 →
    sub (with_comment bs (offset e) (encode_utf8 line)) o' (o' + 4) ≠ EOCD_SIG) →
  signature_comment_line_from_pkcs7_der d p = Ok line ∧
  ∃ signed sig, embed_signature_comment_line bs line = Ok signed ∧
    verify_zip_digest_binding signed = Ok sig ∧
    zas_digest sig = d ∧ signature_pkcs7_der sig = Ok p.
Proof.
  cbn zeta. intros He Hd Hp Hlen Hrec. set (line := comment_line d (b64_encode p)) in *.
  unfold zip_authenticode_digest_string, compute_zip_authenticode_digest in Hd.
  destruct (zip_tbs bs) as [tbs| |] eqn:Etbs; [|done..]. cbn [mbind outcome_bind] in Hd. apply (inj Ok) in Hd as <-.
  set (h := digest Sha256 tbs) in *.
  assert (digest_wf (SHA256_DIGEST_PREFIX ++ hex_lower h)) as Hdw
    by (apply digest_string_wf; apply (digest_len Sha256)).
  set (d := SHA256_DIGEST_PREFIX ++ hex_lower h) in *.
  assert (plains (b64_encode p)) as Hb.
  { eapply Forall_impl; [apply b64_alphabet|]. apply base64_plain. }
  pose proof (parse_comment_line d (b64_encode p) p Hdw Hb (b64_nonempty p Hp) (b64_roundtrip p)) as Hparse.
  fold line in Hparse. pose proof He as He'.
  apply find_eocd_spec in He' as ((Ho & Hol & _) & _ & _). unfold EOCD_LEN in Hol.
  assert (unambiguous (with_comment bs (offset e) (encode_utf8 line)) (offset e)) as Hu.
  { apply visible_unambiguous; [lia|lia|by apply comment_line_visible|done]. }
  destruct (with_comment_facts bs e (encode_utf8 line) He Hlen Hu) as (Hfind & Hcom & Htbs & _).
  split.
  - unfold signature_comment_line_from_pkcs7_der. rewrite (dw_sha d Hdw).
    cbn [negb bail_if mbind outcome_bind]. fold line. by rewrite Hparse.
  - exists (with_comment bs (offset e) (encode_utf8 line)), (mk_zas d (b64_encode p)).
    unfold embed_signature_comment_line, verify_zip_digest_binding.
    rewrite Hparse, (signature_line_of_comment _ _ _ Hdw Hb Hcom).
    cbn [mbind outcome_bind]. split; [by apply set_zip_comment_eq|]. fold line. rewrite Hparse.
    unfold zip_authenticode_digest_string, compute_zip_authenticode_digest.
    rewrite Htbs, Etbs. cbn [mbind outcome_bind zas_digest]. fold h d. rewrite bool_decide_eq_true_2 by done. split; [done|].
    split; [done|]. unfold signature_pkcs7_der. cbn [zas_pkcs7_base64].
    by rewrite plains_trim, b64_roundtrip.
Qed.
Lemma zip_sign_then_verify_witness :
  let d := match @zip_authenticode_digest_string ToyDigest test_zip with Ok d => d | _ => [] end in
  let line := comment_line d (@b64_encode StdBase64 (lit "sig")) in
  @signature_comment_line_from_pkcs7_der StdBase64 d (lit "sig") = Ok line ∧
  ∃ signed sig, @embed_signature_comment_line StdBase64 test_zip line = Ok signed ∧
    @verify_zip_digest_binding ToyDigest StdBase64 signed = Ok sig ∧
    zas_digest sig = d ∧ @signature_pkcs7_der StdBase64 sig = Ok (lit "sig").
Proof.
  cbn zeta. apply (@zip_sign_then_verify ToyDigest StdBase64 test_zip (mk_ZipEocd 7 29 3)).
  - exact test_zip_eocd.
  - by vm_compute.
  - done.
  - vm_compute. discriminate.
  - assert (unambiguous (with_comment test_zip 7 (encode_utf8 (comment_line
      (match @zip_authenticode_digest_string ToyDigest test_zip with Ok d => d | _ => [] end)
      (@b64_encode StdBase64 (lit "sig"))))) 7) as Hu by (by apply unambiguous_dec; vm_compute).
    intros o' [Ho' _]. by apply Hu.
Defined.

(** The signature script carries the signature line: writing a line's
    digest and PKCS#7 as a PowerShell signature script, in 64-character rows
    between the block markers, and reading the script back gives the line. *)
Theorem zip_script_roundtrip `{Base64} d p :
  scalars d → is_sha256_digest_string d = true → p ≠ [] →
  let line := comment_line d (b64_encode p) in
  ∃ script, signature_script_from_comment_line line = Ok script ∧
    signature_comment_line_from_script (encode_utf8 script) = Ok line.
Proof.
  cbn zeta. intros Hs Hsha Hp. pose proof (sha256_string_wf d Hs Hsha) as Hdw.
  set (dl := to_ascii_lowercase d) in *.
  assert (comment_line d (b64_encode p) = comment_line dl (b64_encode p)) as ->.
  { unfold comment_line. by rewrite (dw_lower dl Hdw). }
  assert (plains (b64_encode p)) as Hb.
  { eapply Forall_impl; [apply b64_alphabet|]. apply base64_plain. }
  pose proof (parse_comment_line dl (b64_encode p) p Hdw Hb (b64_nonempty p Hp) (b64_roundtrip p)) as Hparse.
  set (b := b64_encode p) in *. set (cs := chunks (length b) 64 b).
  assert (Forall (λ c, c ≠ [] ∧ plains c) cs) as Hcs by (apply chunks_Forall; [lia|done]).
  assert (Forall (λ c, plains c) cs) as Hcs' by (eapply Forall_impl; [exact Hcs|]; by intros c [_ ?]).
  exists (script_text dl cs). unfold signature_script_from_comment_line. rewrite Hparse.
  cbn [mbind outcome_bind zas_digest zas_pkcs7_base64]. split; [by apply script_from_parts|].
  unfold signature_comment_line_from_script. pose proof (dw_plain dl Hdw) as Hpl.
  rewrite from_utf8_encode.
  2: { apply ascii_scalars. unfold script_text. rewrite !Forall_app.
       split; [by apply plains_ascii|]. do 3 (split; [by apply forallb_Forall|]).
       split; [|split; by apply forallb_Forall].
       clear -Hcs'. induction Hcs' as [|c cs Hc _ IH]; [constructor|]. cbn [fmap list_fmap concat].
       unfold script_line at 1. rewrite !Forall_app. split; [|done].
       split; [split; [by apply forallb_Forall|by apply plains_ascii]|by apply forallb_Forall]. }
  cbn [ok_or mbind outcome_bind]. rewrite script_lines by done. cbn [ok_or mbind outcome_bind].
  rewrite plains_trim, (dw_sha dl Hdw) by done. cbn [negb bail_if mbind outcome_bind].
  cbn [script_block]. rewrite (trim_id BEGIN_SIG_BLOCK); [|by intros ? ? [= <- _]|].
  2: { intros x s' Heq. change BEGIN_SIG_BLOCK with (chars "# SIG # Begin signature bloc" ++ [107]) in Heq.
       by apply app_inj_tail in Heq as [_ <-]. }
  rewrite bool_decide_eq_true_2, script_block_chunks by done.
  unfold cs. rewrite chunks_concat by lia. cbn [app]. fold b. by rewrite Hparse.
Qed.
Lemma zip_script_roundtrip_witness :
  let d := chars "sha256:0123456789abcdefABCDEF0123456789abcdef0123456789abcdef0123456789" in
  let line := comment_line d (@b64_encode StdBase64 (replicate 70 (byte_of 255))) in
  ∃ script, @signature_script_from_comment_line StdBase64 line = Ok script ∧
    @signature_comment_line_from_script StdBase64 (encode_utf8 script) = Ok line.
Proof.
  cbn zeta. apply (@zip_script_roundtrip StdBase64); [by apply forallb_Forall|by vm_compute|done].
Defined.
