(* ===== verification/EsdDigest.v ===== *)
(** WIM and ESD images: [crates/psign-sip-digest/src/esd_digest.rs].

    A signed image is hashed from its first byte to the signature offset the
    packed header announces, the length field of the signature zeroed; the
    PKCS#7 follows at that offset.  Files are a function from paths to
    contents, [None] where opening fails; a reader is the list of the bytes it
    has still to give, so that [read_exact] on too few bytes is the error. *)

From S2P Require Import Prelude.
From S2P Require Import PeDigest.
From S2P Require Import RustStr.

Definition WIM_HEADER_PACKED_SIZE : Z := 0xD0.
Definition WIM_MAGIC_QWORD_LE : Z := from_le (lit "MSWIM" ++ replicate 3 (byte_of 0)).
Definition OFF_PKCS7_CB : Z := 0xB4.
Definition OFF_HASH_END_OR_SIG_OFF : Z := 0xBC.
Definition HASH_EXTENT_REGION_BASES : list Z := [48; 72; 124].

Definition header_too_small : string := "WIM header slice too small at offset {off}".
Definition read_u64_le (slice : bytes) (off : Z) : outcome Z :=
  ok_or (from_le <$> get_range slice off (off + 8)) header_too_small.
Definition read_u32_le (slice : bytes) (off : Z) : outcome Z :=
  ok_or (from_le <$> get_range slice off (off + 4)) header_too_small.

(** The loop over the region bases, with the largest end so far. *)
Fixpoint max_region_end (header : bytes) (bases : list Z) (max_end : Z) : outcome Z :=
  match bases with
  | [] => Ok max_end
  | base :: bases' =>
      offset ← read_u64_le header base;
      let offset_masked := Z.land offset 0x00FFFFFFFFFFFFFF in
      length ← read_u64_le header (base + 8);
      end_ ← ok_or (checked_add64 offset_masked length)
               "WIM header region at 0x{base:x}: offset/length overflow";
      max_region_end header bases' (Z.max max_end end_)
  end.
Definition get_hash_data_offset (header : bytes) : outcome Z :=
  max_region_end header HASH_EXTENT_REGION_BASES 0.

Definition wim_hash_byte_count (header : bytes) : outcome Z :=
  explicit ← read_u64_le header OFF_HASH_END_OR_SIG_OFF;
  if negb (explicit =? 0) then Ok explicit else get_hash_data_offset header.

Definition validate_wim_header_prefix (header : bytes) : outcome unit :=
  magic ← read_u64_le header 0;
  bail_if (negb (magic =? WIM_MAGIC_QWORD_LE))
    "not a WIM/ESD image (missing MSWIM magic at offset 0)";;
  hdr_cb ← read_u32_le header 8;
  bail_if (negb (hdr_cb =? WIM_HEADER_PACKED_SIZE))
    "unexpected WIM packed header size {hdr_cb} (expected {})".

(** [reader.read_exact(&mut buf[..n])] *)
Definition read_exact (reader : bytes) (n : Z) : outcome (bytes * bytes) :=
  bail_if (len reader <? n) "failed to fill whole buffer";;
  Ok (sub reader 0 n, sub reader n (len reader)).

Definition CHUNK : Z := 0x10000.
Record HashState := mk_hs { hs_hasher : RunningHasher; hs_reader : bytes; hs_remaining : Z }.
(** One round of [while remaining > 0]; the four arms of the [match kind]
    differ in the hasher alone. *)
Definition hash_prefix_step (s : HashState) : HashState + outcome RunningHasher :=
  if 0 <? hs_remaining s then
    let n := Z.min (hs_remaining s) CHUNK in
    match read_exact (hs_reader s) n with
    | Ok (buf, rest) => inl (mk_hs (hasher_update (hs_hasher s) buf) rest (hs_remaining s - n))
    | Err e => inr (Err e)
    | Panic => inr Panic
    end
  else inr (Ok (hs_hasher s)).
Definition hash_prefix `{DigestOracle} (reader : bytes) (total : Z) (kind : PeAuthenticodeHashKind)
    : outcome bytes :=
  h ← default Panic (loop hash_prefix_step (length reader + 2) (mk_hs (hasher_new kind) reader total));
  Ok (hasher_finalize h).

Definition Files : Type := str → option bytes.
Definition open_file (fs : Files) (path : str) : outcome bytes := ok_or (fs path) "open".

Definition compute_wim_image_digest_from_header `{DigestOracle} (fs : Files) (path : str)
    (header : bytes) (kind : PeAuthenticodeHashKind) : outcome bytes :=
  validate_wim_header_prefix header;;
  total ← wim_hash_byte_count header;
  f ← open_file fs path;
  hash_header ← write_at header OFF_PKCS7_CB
                  (replicate (Z.to_nat (OFF_HASH_END_OR_SIG_OFF - OFF_PKCS7_CB)) (byte_of 0));
  if total <=? WIM_HEADER_PACKED_SIZE then
    prefix ← index_range hash_header 0 total;
    hash_prefix prefix total kind
  else hash_prefix (hash_header ++ sub f WIM_HEADER_PACKED_SIZE total) total kind.

Definition read_embedded_pkcs7 (fs : Files) (path : str) (header : bytes) : outcome bytes :=
  validate_wim_header_prefix header;;
  cb ← read_u32_le header OFF_PKCS7_CB;
  off ← read_u64_le header OFF_HASH_END_OR_SIG_OFF;
  bail_if ((cb =? 0) || (off =? 0))
    "WIM/ESD file has no embedded Authenticode signature (cb=0 or offset=0 in header)";;
  f ← open_file fs path;
  end_ ← ok_or (checked_add64 off cb) "signature extent overflow";
  bail_if (len f <? end_)
    "embedded PKCS#7 extent exceeds file size (offset={off}, cb={cb}, file_len={len})";;
  '(out, _) ← read_exact (sub f off (len f)) cb;
  Ok out.

(** [embedded_digest] is [AuthenticodeSignature::from_bytes(..).digest()]. *)
Definition verify_wim_esd_digest_consistency `{DigestOracle}
    (embedded_digest : bytes → option bytes) (fs : Files) (path : str) : outcome unit :=
  f ← open_file fs path;
  '(head, _) ← read_exact f WIM_HEADER_PACKED_SIZE;
  pkcs7 ← read_embedded_pkcs7 fs path head;
  embedded ← ok_or (embedded_digest pkcs7) "WIM/ESD PKCS#7 parse failed: {e}";
  kind ← from_digest_byte_len (len embedded);
  computed ← compute_wim_image_digest_from_header fs path head kind;
  bail_if (negb (bool_decide (computed = embedded)))
    "WIM/ESD Authenticode digest mismatch (Rust SIP prefix hash vs PKCS#7 indirect digest)".

(** ** Reading *)

Lemma read_exact_Ok reader n buf rest :
  read_exact reader n = Ok (buf, rest) →
  n <= len reader ∧ buf = sub reader 0 n ∧ rest = sub reader n (len reader).
Proof. intros (? & [= <- <-])%bail_bind_Ok. zbool. by repeat split. Qed.
Lemma read_exact_in reader n :
  n <= len reader → read_exact reader n = Ok (sub reader 0 n, sub reader n (len reader)).
Proof. intros. unfold read_exact. by run. Qed.

Lemma wim_u64_in slice off : 0 <= off → off + 8 <= len slice →
  read_u64_le slice off = Ok (from_le (sub slice off (off + 8))).
Proof. intros. unfold read_u64_le. by rewrite get_range_in by lia. Qed.
Lemma u64_range slice off : 0 <= off → off + 8 <= len slice →
  0 <= from_le (sub slice off (off + 8)) < U64.
Proof.
  intros. pose proof (from_le_range (sub slice off (off + 8))) as Hr.
  rewrite len_sub in Hr by lia. by replace (8 * (off + 8 - off)) with 64 in Hr by lia.
Qed.

(** ** The chunked hash is the hash of the prefix *)

Lemma hash_prefix_loop fuel h reader total :
  0 <= total → (length reader + 2 <= fuel)%nat →
  loop hash_prefix_step fuel (mk_hs h reader total) =
  Some (if len reader <? total then Err "failed to fill whole buffer"
        else Ok (hasher_update h (sub reader 0 total))).
Proof.
  revert h reader total. induction fuel as [|fuel IH]; intros h reader total Ht Hf; [lia|].
  cbn [loop]. unfold hash_prefix_step at 1. cbn [hs_remaining hs_reader hs_hasher].
  pose proof (len_nonneg reader) as Hn.
  destruct (0 <? total) eqn:E; zbool.
  - unfold CHUNK. set (n := Z.min total 65536). assert (0 < n <= total) by (subst n; lia).
    unfold read_exact. destruct (len reader <? n) eqn:Er; zbool; cbn [bail_if mbind outcome_bind].
    + by rewrite (proj2 (Z.ltb_lt _ _)) by lia.
    + assert (len (sub reader n (len reader)) = len reader - n) as Hl by (rewrite len_sub; lia).
      rewrite IH by (try lia; unfold len in *; lia). rewrite Hl.
      destruct (len reader <? total) eqn:El; zbool; [by rewrite (proj2 (Z.ltb_lt _ _)) by lia|].
      rewrite (proj2 (Z.ltb_ge _ _)) by lia. unfold hasher_update. cbn [h_kind h_fed].
      rewrite sub_sub, <-app_assoc by lia. do 4 f_equal.
      rewrite (sub_split reader 0 n total) by lia. do 2 f_equal; lia.
  - assert (total = 0) as -> by lia. rewrite (proj2 (Z.ltb_ge _ _)) by lia.
    rewrite sub_nil_range by lia. unfold hasher_update. rewrite app_nil_r. by destruct h.
Qed.
Lemma hash_prefix_eq `{DigestOracle} reader total kind :
  0 <= total →
  hash_prefix reader total kind =
  if len reader <? total then Err "failed to fill whole buffer"
  else Ok (digest kind (sub reader 0 total)).
Proof.
  intros. unfold hash_prefix. rewrite hash_prefix_loop by lia. cbn [default].
  by destruct (_ <? _).
Qed.

(** ** The bytes a verified image is hashed over *)

Definition zeroed_header (header : bytes) : bytes :=
  patch header OFF_PKCS7_CB (replicate 8 (byte_of 0)).
Definition wim_signed_bytes (f : bytes) (total : Z) : bytes :=
  sub (zeroed_header (sub f 0 WIM_HEADER_PACKED_SIZE) ++ sub f WIM_HEADER_PACKED_SIZE (len f)) 0 total.
Definition wim_sig_offset (f : bytes) : Z :=
  from_le (sub f OFF_HASH_END_OR_SIG_OFF (OFF_HASH_END_OR_SIG_OFF + 8)).

Lemma zeroed_image f :
  WIM_HEADER_PACKED_SIZE <= len f →
  zeroed_header (sub f 0 WIM_HEADER_PACKED_SIZE) ++ sub f WIM_HEADER_PACKED_SIZE (len f) =
  patch f OFF_PKCS7_CB (replicate 8 (byte_of 0)).
Proof.
  unfold WIM_HEADER_PACKED_SIZE, zeroed_header, OFF_PKCS7_CB. intros.
  rewrite (sub_head_tail f 0xD0) at 4 by lia.
  rewrite patch_app_l; [done|lia|]. rewrite len_replicate, len_sub; lia.
Qed.

Lemma compute_Ok `{DigestOracle} fs path f kind d :
  fs path = Some f → WIM_HEADER_PACKED_SIZE <= len f → wim_sig_offset f ≠ 0 →
  compute_wim_image_digest_from_header fs path (sub f 0 WIM_HEADER_PACKED_SIZE) kind = Ok d →
  wim_sig_offset f <= len f →
  d = digest kind (wim_signed_bytes f (wim_sig_offset f)).
Proof.
  intros Hf Hl Hs Hc Hle. set (head := sub f 0 WIM_HEADER_PACKED_SIZE) in *.
  assert (len head = 0xD0) as Hh by (unfold head, WIM_HEADER_PACKED_SIZE in *; rewrite len_sub; lia).
  assert (sub head OFF_HASH_END_OR_SIG_OFF (OFF_HASH_END_OR_SIG_OFF + 8)
          = sub f OFF_HASH_END_OR_SIG_OFF (OFF_HASH_END_OR_SIG_OFF + 8)) as Hsub.
  { unfold head, OFF_HASH_END_OR_SIG_OFF, WIM_HEADER_PACKED_SIZE. by rewrite sub_sub by lia. }
  pose proof (u64_range f OFF_HASH_END_OR_SIG_OFF) as Hr.
  unfold compute_wim_image_digest_from_header in Hc. apply bind_Ok in Hc as ([] & _ & Hc).
  unfold wim_hash_byte_count in Hc. unfold wim_sig_offset, WIM_HEADER_PACKED_SIZE in *.
  unfold OFF_HASH_END_OR_SIG_OFF, OFF_PKCS7_CB in *.
  rewrite wim_u64_in, Hsub in Hc by lia. cbn [mbind outcome_bind] in Hc.
  rewrite (proj2 (Z.eqb_neq _ _) Hs) in Hc. cbn [negb mbind outcome_bind] in Hc.
  unfold open_file in Hc. rewrite Hf in Hc. cbn [ok_or mbind outcome_bind] in Hc.
  change (replicate (Z.to_nat (0xBC - 0xB4)) (byte_of 0)) with (replicate 8 (byte_of 0)) in Hc.
  rewrite write_at_in in Hc by (rewrite ?len_replicate; lia). cbn [mbind outcome_bind] in Hc.
  set (total := from_le (sub f 0xBC (0xBC + 8))) in *.
  change (patch head 0xB4 (replicate 8 (byte_of 0))) with (zeroed_header head) in Hc.
  assert (len (zeroed_header head) = 0xD0) as Hz.
  { unfold zeroed_header, OFF_PKCS7_CB. rewrite len_patch; rewrite ?len_replicate; lia. }
  unfold wim_signed_bytes, WIM_HEADER_PACKED_SIZE. fold head.
  destruct (total <=? 0xD0) eqn:E; zbool.
  - rewrite index_range_in in Hc by lia. cbn [mbind outcome_bind] in Hc.
    rewrite hash_prefix_eq in Hc by lia. rewrite len_sub in Hc by lia.
    rewrite (proj2 (Z.ltb_ge _ _)) in Hc by lia. apply (inj Ok) in Hc as <-.
    rewrite sub_app_l by lia. by rewrite sub_sub by lia.
  - rewrite hash_prefix_eq in Hc by lia. rewrite len_app, len_sub in Hc by lia.
    rewrite (proj2 (Z.ltb_ge _ _)) in Hc by lia. apply (inj Ok) in Hc as <-. f_equal.
    rewrite (sub_split f 0xD0 total (len f)), app_assoc by lia.
    symmetry. apply sub_app_l; [lia|]. rewrite len_app, len_sub by lia. lia.
Qed.

(** What an accepted image is: long enough, signed at an offset inside it, its
    embedded digest the hash of its signed bytes. *)
Lemma verify_wim_Ok `{DigestOracle} emb fs path :
  verify_wim_esd_digest_consistency emb fs path = Ok tt →
  ∃ f kind p, fs path = Some f ∧ WIM_HEADER_PACKED_SIZE <= len f ∧
    0 < wim_sig_offset f <= len f ∧
    read_embedded_pkcs7 fs path (sub f 0 WIM_HEADER_PACKED_SIZE) = Ok p ∧
    emb p = Some (digest kind (wim_signed_bytes f (wim_sig_offset f))).
Proof.
  intros (f & Hf & Hv)%bind_Ok. unfold open_file in Hf. apply ok_or_Ok in Hf.
  apply bind_Ok in Hv as ([head rest] & Hh & Hv). apply read_exact_Ok in Hh as (Hl & -> & ->).
  apply bind_Ok in Hv as (p & Hp & Hv). apply bind_Ok in Hv as (e & He & Hv). apply ok_or_Ok in He.
  apply bind_Ok in Hv as (kind & _ & Hv). apply bind_Ok in Hv as (d & Hd & Hv).
  apply bail_if_Ok in Hv. zbool. subst e. exists f, kind, p. split; [done|]. split; [done|].
  assert (0 < wim_sig_offset f <= len f) as Hoff.
  { unfold read_embedded_pkcs7 in Hp. apply bind_Ok in Hp as ([] & _ & Hp).
    apply bind_Ok in Hp as (cb & Hcb & Hp). apply bind_Ok in Hp as (off & Hoff & Hp).
    apply bail_bind_Ok in Hp as [Hz Hp]. apply bind_Ok in Hp as (f' & Hf' & Hp).
    unfold open_file in Hf'. apply ok_or_Ok in Hf'. assert (f' = f) as -> by congruence.
    apply bind_Ok in Hp as (en & Hen & Hp). apply ok_or_Ok in Hen.
    apply bail_bind_Ok in Hp as [Hle _]. zbool. unfold checked_add64 in Hen.
    destruct (_ <? _) in Hen; [|done]. injection Hen as <-.
    unfold wim_sig_offset, WIM_HEADER_PACKED_SIZE, OFF_HASH_END_OR_SIG_OFF in *.
    rewrite wim_u64_in in Hoff by (rewrite ?len_sub; lia). apply (inj Ok) in Hoff.
    rewrite sub_sub in Hoff by lia. change (0 + 0xBC) with 0xBC in Hoff.
    change (0 + (0xBC + 8)) with (0xBC + 8) in Hoff. rewrite Hoff.
    pose proof (u64_range f 0xBC). rewrite Hoff in *.
    unfold read_u32_le in Hcb. apply ok_or_Ok, fmap_Some in Hcb as (x & _ & ->).
    pose proof (from_le_range x). lia. }
  split; [done|]. split; [done|]. rewrite He. f_equal. apply (compute_Ok fs path f kind d); try done; lia.
Qed.

(** Away from the length field the signed bytes are the image's. *)
Lemma signed_bytes_lookup f total i :
  WIM_HEADER_PACKED_SIZE <= len f → Z.of_nat i < total →
  (Z.of_nat i < OFF_PKCS7_CB ∨ OFF_HASH_END_OR_SIG_OFF <= Z.of_nat i) →
  wim_signed_bytes f total !! i = f !! i.
Proof.
  intros Hl Ht Hi. unfold wim_signed_bytes. rewrite zeroed_image by done.
  unfold sub at 1. rewrite lookup_take_lt by lia. rewrite lookup_drop. cbn [Z.to_nat Nat.add].
  unfold WIM_HEADER_PACKED_SIZE, OFF_PKCS7_CB, OFF_HASH_END_OR_SIG_OFF in *.
  rewrite lookup_patch by (rewrite ?len_replicate; lia). rewrite len_replicate.
  destruct (_ <=? _) eqn:E1; [|done]. destruct (_ <? _) eqn:E2; [zbool; lia|done].
Qed.
Lemma len_signed_bytes f total :
  WIM_HEADER_PACKED_SIZE <= len f → 0 <= total <= len f → len (wim_signed_bytes f total) = total.
Proof.
  unfold WIM_HEADER_PACKED_SIZE. intros. unfold wim_signed_bytes. rewrite zeroed_image by done.
  unfold OFF_PKCS7_CB. rewrite len_sub; rewrite ?len_patch; rewrite ?len_replicate; lia.
Qed.

(** ** The image header's extents *)

(** The end of the region described at [base], before the overflow test. *)
Definition region_end (header : bytes) (base : Z) : Z :=
  Z.land (from_le (sub header base (base + 8))) 0x00FFFFFFFFFFFFFF
  + from_le (sub header (base + 8) (base + 16)).

Lemma max_region_end_eq header bases m :
  len header = WIM_HEADER_PACKED_SIZE → Forall (λ b, 0 <= b ∧ b + 16 <= len header) bases →
  max_region_end header bases m =
  if forallb (λ b, region_end header b <? U64) bases
  then Ok (foldl Z.max m (region_end header <$> bases))
  else Err "WIM header region at 0x{base:x}: offset/length overflow".
Proof.
  intros Hl Hb. revert m. induction Hb as [|b bases Hb Hbs IH]; intros m; [done|].
  cbn [max_region_end forallb fmap list_fmap foldl]. rewrite !wim_u64_in by lia. cbn [mbind outcome_bind].
  unfold region_end at 1 3, checked_add64. replace (b + 8 + 8) with (b + 16) by lia.
  destruct (_ <? _); cbn [ok_or mbind outcome_bind andb]; [|done]. rewrite IH.
  by replace (b + 8 + 8) with (b + 16) by lia.
Qed.

Definition test_wim (body : bytes) : bytes :=
  let h := lit "MSWIM" ++ replicate 3 (byte_of 0) ++ to_le 4 0xD0 ++ replicate 168 (byte_of 0)
             ++ to_le 4 3 ++ replicate 4 (byte_of 0) ++ to_le 8 (0xD0 + len body)
             ++ replicate 12 (byte_of 0) in
  h ++ body ++ lit "sig".
Definition test_wim_digest : bytes :=
  @digest ToyDigest Sha256 (wim_signed_bytes (test_wim (lit "data")) 0xD4).
Definition test_wim_fs : Files := λ p, Some (test_wim (lit "data")).

(** C15: An accepted ESD signature binds the image: two files of the file system
    that are accepted with the same embedded digest have their signature at
    the same offset and agree on every byte before it, the length field of the
    signature apart, or the two byte strings they were hashed over are a
    collision of the hash function. *)
Theorem esd_signature_binds `{DigestOracle} emb fs path1 path2 f1 f2 sig1 sig2 :
  verify_wim_esd_digest_consistency emb fs path1 = Ok tt →
  verify_wim_esd_digest_consistency emb fs path2 = Ok tt →
  fs path1 = Some f1 → fs path2 = Some f2 →
  read_embedded_pkcs7 fs path1 (sub f1 0 WIM_HEADER_PACKED_SIZE) = Ok sig1 →
  read_embedded_pkcs7 fs path2 (sub f2 0 WIM_HEADER_PACKED_SIZE) = Ok sig2 →
  emb sig1 = emb sig2 →
  (wim_sig_offset f1 = wim_sig_offset f2 ∧
   ∀ i : nat, Z.of_nat i < wim_sig_offset f1 →
     Z.of_nat i < OFF_PKCS7_CB ∨ OFF_HASH_END_OR_SIG_OFF <= Z.of_nat i → f1 !! i = f2 !! i) ∨
  (∃ kind, let b1 := wim_signed_bytes f1 (wim_sig_offset f1) in
           let b2 := wim_signed_bytes f2 (wim_sig_offset f2) in
           b1 ≠ b2 ∧ digest kind b1 = digest kind b2).
Proof.
  intros (f1' & k1 & p1 & Hf1 & Hl1 & Ho1 & Hp1 & He1)%verify_wim_Ok.
  intros (f2' & k2 & p2 & Hf2 & Hl2 & Ho2 & Hp2 & He2)%verify_wim_Ok Hfs1 Hfs2 Hr1 Hr2 He.
  assert (f1' = f1) as -> by congruence. assert (f2' = f2) as -> by congruence.
  assert (p1 = sig1) as -> by congruence. assert (p2 = sig2) as -> by congruence.
  rewrite He1, He2 in He. apply (inj Some) in He. assert (k1 = k2) as <-.
  { apply (f_equal len) in He. rewrite !digest_len in He. by destruct k1, k2. }
  destruct (decide (wim_signed_bytes f1 (wim_sig_offset f1)
                    = wim_signed_bytes f2 (wim_sig_offset f2))) as [Hb|]; [left|by right; exists k1].
  assert (wim_sig_offset f1 = wim_sig_offset f2) as Ho.
  { apply (f_equal len) in Hb. by rewrite !len_signed_bytes in Hb by lia. }
  split; [done|]. intros i Hi Hout.
  by rewrite <-(signed_bytes_lookup f1 (wim_sig_offset f1)), Hb, signed_bytes_lookup by (done || lia).
Qed.
Lemma esd_signature_binds_witness :
  let f := test_wim (lit "data") in
  (wim_sig_offset f = wim_sig_offset f ∧
   ∀ i : nat, Z.of_nat i < wim_sig_offset f →
     Z.of_nat i < OFF_PKCS7_CB ∨ OFF_HASH_END_OR_SIG_OFF <= Z.of_nat i → f !! i = f !! i) ∨
  (∃ kind, let b1 := wim_signed_bytes f (wim_sig_offset f) in
           let b2 := wim_signed_bytes f (wim_sig_offset f) in
           b1 ≠ b2 ∧ @digest ToyDigest kind b1 = @digest ToyDigest kind b2).
Proof.
  cbn zeta. apply (@esd_signature_binds ToyDigest
    (λ p, if bool_decide (p = lit "sig") then Some test_wim_digest else None) test_wim_fs
    [97] [98] _ _ (lit "sig") (lit "sig")); by vm_compute.
Defined.

(** C16: The length the hash covers, at machine width: when the header names no
    signature offset it is the largest end of the three regions, exactly, and
    it fits in 64 bits; a region whose end overflows is the error, and no
    header makes the computation panic. *)
Theorem wim_extent_bounds header :
  len header = WIM_HEADER_PACKED_SIZE →
  let ends := region_end header <$> HASH_EXTENT_REGION_BASES in
  let explicit := from_le (sub header OFF_HASH_END_OR_SIG_OFF (OFF_HASH_END_OR_SIG_OFF + 8)) in
  (explicit ≠ 0 → wim_hash_byte_count header = Ok explicit) ∧
  (explicit = 0 → Forall (λ e, e < U64) ends →
     ∃ n, wim_hash_byte_count header = Ok n ∧ 0 <= n < U64 ∧ n ∈ ends ∧ Forall (λ e, e <= n) ends) ∧
  (explicit = 0 → Exists (λ e, U64 <= e) ends → ∃ e, wim_hash_byte_count header = Err e).
Proof.
  intros Hl. cbn zeta. unfold wim_hash_byte_count, get_hash_data_offset.
  unfold WIM_HEADER_PACKED_SIZE, OFF_HASH_END_OR_SIG_OFF in *.
  rewrite wim_u64_in by lia. cbn [mbind outcome_bind]. set (ex := from_le _).
  rewrite max_region_end_eq by (done || (repeat constructor; lia)).
  assert (∀ b, 0 <= region_end header b) as Hpos.
  { intros b. unfold region_end. apply Z.add_nonneg_nonneg; [|apply from_le_range].
    apply Z.land_nonneg. left. apply from_le_range. }
  pose proof (Hpos 48). pose proof (Hpos 72). pose proof (Hpos 124).
  unfold HASH_EXTENT_REGION_BASES. cbn [forallb fmap list_fmap foldl].
  split; [by intros ->%Z.eqb_neq|]. split.
  - intros -> Hall. rewrite !Forall_cons in Hall. destruct Hall as (? & ? & ? & _).
    rewrite Z.eqb_refl. run. eexists. split; [done|]. split; [lia|]. split; [|repeat constructor; lia].
    rewrite !elem_of_cons. lia.
  - intros -> Hex. rewrite Z.eqb_refl. cbn [negb]. rewrite !Exists_cons, Exists_nil in Hex.
    destruct (region_end header 48 <? U64) eqn:E1, (region_end header 72 <? U64) eqn:E2,
      (region_end header 124 <? U64) eqn:E3; cbn [andb]; zbool; try by eexists. lia.
Qed.
Lemma wim_extent_bounds_witness :
  let h := replicate 48 (byte_of 0) ++ to_le 8 0x10 ++ to_le 8 0x20 ++ replicate 144 (byte_of 0) in
  let ends := region_end h <$> HASH_EXTENT_REGION_BASES in
  ∃ n, wim_hash_byte_count h = Ok n ∧ 0 <= n < U64 ∧ n ∈ ends ∧ Forall (λ e, e <= n) ends.
Proof.
  cbn zeta. apply (wim_extent_bounds (replicate 48 (byte_of 0) ++ to_le 8 0x10 ++ to_le 8 0x20
    ++ replicate 144 (byte_of 0))); [by vm_compute..|].
  repeat constructor; by vm_compute.
Defined.
