(* ===== verification/Msi.v ===== *)
(** Windows Installer packages: the Authenticode fingerprint of
    [psign-sip-digest/src/msi_digest.rs], the staging of the metadata digest and
    the check.  Compound files are those of the [cfb] crate (the class
    [CfbCrate]); the digest of a PKCS#7 is the [authenticode] crate. *)

From stdpp Require Import sorting.
From S2P Require Import Prelude.
From S2P Require Import RustStr.
From S2P Require Import PeDigest.

(** ** Compound files *)

(** [SystemTime] by its distance from [UNIX_EPOCH]. *)
Record Duration := mk_duration { as_secs : Z; subsec_nanos : Z }.
Inductive SystemTime := AtOrAfter (d : Duration) | Before (d : Duration).
Inductive EntryKind := RootEntry | StorageEntry | StreamEntry.
(** A path from the root; [Path::new("/")] is empty. *)
Abbreviation cfb_path := (list str) (only parsing).
Record CfbEntry := mk_cfb_entry {
  en_name : str; en_path : cfb_path; en_kind : EntryKind; en_clsid : bytes; en_state_bits : Z; en_len : Z;
  en_created : SystemTime; en_modified : SystemTime }.
Definition is_root (e : CfbEntry) : bool := match en_kind e with RootEntry => true | _ => false end.
Definition is_storage (e : CfbEntry) : bool := match en_kind e with StreamEntry => false | _ => true end.
Definition is_stream (e : CfbEntry) : bool := match en_kind e with StreamEntry => true | _ => false end.

(** The calls made of the [cfb] crate.  [read_stream] opens a stream and reads
    it to its end; [write_stream] creates or replaces a stream and writes it.
    Opening a file checks that its directory is a tree: [cfb_depth] is its
    height below a storage. *)
Class CfbCrate := {
  compound : Type;
  cfb_open : bytes → outcome compound;
  into_inner : compound → bytes;
  cfb_entry : compound → cfb_path → outcome CfbEntry;
  read_storage : compound → cfb_path → outcome (list CfbEntry);
  read_stream : compound → cfb_path → outcome bytes;
  cfb_exists : compound → cfb_path → bool;
  write_stream : compound → cfb_path → bytes → outcome compound;
  cfb_depth : compound → cfb_path → nat;
  cfb_nested c p es e : read_storage c p = Ok es → e ∈ es → is_storage e = true → (cfb_depth c (en_path e) < cfb_depth c p)%nat }.

Definition DIGITAL_SIGNATURE_ENTRY : str := 5 :: chars "DigitalSignature".
Definition EXTENDED_SIGNATURE_ENTRY : str := 5 :: chars "MsiDigitalSignatureEx".
Definition FILETIME_UNIX_EPOCH : Z := 116444736000000000.
Definition root_stream (name : str) : cfb_path := [name].

(** ** Names and times *)

Definition utf16_le_bytes (name : str) : list Z := encode_utf16 name ≫= λ u, [u mod 256; u / 256 mod 256].
(** [a.cmp(b)] on slices *)
Fixpoint slice_cmp (a b : list Z) : comparison :=
  match a, b with
  | [], [] => Eq
  | [], _ :: _ => Lt
  | _ :: _, [] => Gt
  | x :: a', y :: b' => match x ?= y with Eq => slice_cmp a' b' | c => c end
  end.
Definition cmp_utf16_name (a b : str) : comparison :=
  let ae := utf16_le_bytes a in
  let be := utf16_le_bytes b in
  let common := Nat.min (length ae) (length be) in
  match slice_cmp (take common ae) (take common be) with
  | Eq => Nat.compare (length be) (length ae)
  | c => c
  end.
Definition hash_utf16_name (name : str) (hasher : RunningHasher) : RunningHasher :=
  fold_left (λ h u, hasher_update h (to_le 2 u)) (encode_utf16 name) hasher.
(** The sum is a plain addition on [u64]. *)
Definition duration_to_filetime_ticks (d : Duration) : outcome Z :=
  let ticks := Z.min (as_secs d * 10000000) (U64 - 1) + subsec_nanos d / 100 in
  if ticks <? U64 then Ok ticks else Panic.
Definition system_time_to_filetime_le (st : SystemTime) : outcome bytes :=
  ticks ← match st with
          | AtOrAfter d => t ← duration_to_filetime_ticks d; Ok (Z.min (FILETIME_UNIX_EPOCH + t) (U64 - 1))
          | Before d => t ← duration_to_filetime_ticks d; Ok (Z.max 0 (FILETIME_UNIX_EPOCH - t))
          end;
  Ok (to_le 8 ticks).

(** ** The order of siblings *)

(** [sort_by], which is stable *)
Definition name_le (a b : CfbEntry) : bool := match cmp_utf16_name (en_name a) (en_name b) with Gt => false | _ => true end.
Fixpoint insert_entry (e : CfbEntry) (es : list CfbEntry) : list CfbEntry :=
  match es with
  | [] => [e]
  | e' :: es' => if name_le e e' then e :: es else e' :: insert_entry e es'
  end.
Definition sort_entries (es : list CfbEntry) : list CfbEntry := foldr insert_entry [] es.
Definition is_signature_entry (storage_path : cfb_path) (e : CfbEntry) : bool :=
  bool_decide (storage_path = []) &&
  (bool_decide (en_name e = DIGITAL_SIGNATURE_ENTRY) || bool_decide (en_name e = EXTENDED_SIGNATURE_ENTRY)).

(** ** The two passes *)

Definition prehash_entry (e : CfbEntry) (hasher : RunningHasher) : outcome RunningHasher :=
  let hasher := if is_root e then hasher else hash_utf16_name (en_name e) hasher in
  let hasher := if is_root e || is_storage e then hasher_update hasher (en_clsid e) else hasher in
  let hasher := if is_stream e then hasher_update hasher (to_le 4 (en_len e)) else hasher in
  let hasher := hasher_update hasher (to_le 4 (en_state_bits e)) in
  if is_root e then Ok hasher else
  created ← system_time_to_filetime_le (en_created e);
  modified ← system_time_to_filetime_le (en_modified e);
  Ok (hasher_update (hasher_update hasher created) modified).
(** The loop over the sorted entries of a storage, but for the signature
    streams of the root. *)
Fixpoint visit (storage_path : cfb_path) (f : CfbEntry → RunningHasher → option (outcome RunningHasher)) (es : list CfbEntry)
    (hasher : RunningHasher) : option (outcome RunningHasher) :=
  match es with
  | [] => Some (Ok hasher)
  | e :: es' =>
      if is_signature_entry storage_path e then visit storage_path f es' hasher
      else then_ (f e hasher) (visit storage_path f es')
  end.
Section Passes.
Context `{CfbCrate}.
Fixpoint prehash_storage_recursive (fuel : nat) (c : compound) (storage_path : cfb_path) (hasher : RunningHasher) :
    option (outcome RunningHasher) :=
  match fuel with
  | O => None
  | S fuel' =>
      then_ (Some (meta ← cfb_entry c storage_path; hasher ← prehash_entry meta hasher;
                   entries ← read_storage c storage_path; Ok (hasher, entries))) (λ '(hasher, entries),
      visit storage_path (λ e hasher,
        if is_storage e then prehash_storage_recursive fuel' c (en_path e) hasher else Some (prehash_entry e hasher))
        (sort_entries entries) hasher)
  end.
Fixpoint hash_storage_content_recursive (fuel : nat) (c : compound) (storage_path : cfb_path) (hasher : RunningHasher) :
    option (outcome RunningHasher) :=
  match fuel with
  | O => None
  | S fuel' =>
      then_ (Some (read_storage c storage_path)) (λ entries,
      then_ (visit storage_path (λ e hasher,
        if is_storage e then hash_storage_content_recursive fuel' c (en_path e) hasher
        else if is_stream e then Some (buf ← read_stream c (en_path e); Ok (hasher_update hasher buf))
        else Some (Ok hasher)) (sort_entries entries) hasher) (λ hasher,
      Some (st ← cfb_entry c storage_path; Ok (hasher_update hasher (en_clsid st)))))
  end.
(** One more than the depth of the root is enough fuel. *)
Definition cfb_fuel (c : compound) : nat := S (cfb_depth c []).
Definition msi_has_extended (c : compound) : bool := cfb_exists c (root_stream EXTENDED_SIGNATURE_ENTRY).
Context `{DigestOracle}.
Definition compute_prehash (c : compound) (kind : PeAuthenticodeHashKind) : outcome bytes :=
  h ← default Panic (prehash_storage_recursive (cfb_fuel c) c [] (hasher_new kind));
  Ok (hasher_finalize h).
Definition compute_msi_fingerprint (c : compound) (kind : PeAuthenticodeHashKind) : outcome bytes :=
  h ← (if msi_has_extended c then pre ← compute_prehash c kind; Ok (hasher_update (hasher_new kind) pre) else Ok (hasher_new kind));
  h ← default Panic (hash_storage_content_recursive (cfb_fuel c) c [] h);
  Ok (hasher_finalize h).

(** ** The operations *)

Definition compute_msi_authenticode_digest (data : bytes) (kind : PeAuthenticodeHashKind) : outcome bytes :=
  c ← with_context (cfb_open data) "open as OLE compound file: {e}";
  compute_msi_fingerprint c kind.
Definition compute_prepared_msi_authenticode_digest (data : bytes) (kind : PeAuthenticodeHashKind) : outcome bytes :=
  c ← with_context (cfb_open data) "open as OLE compound file: {e}";
  let extended_path := root_stream EXTENDED_SIGNATURE_ENTRY in
  bail_if (negb (cfb_exists c extended_path))
    "MSI signing requires the root {} stream; stage the image with prepare_msi_for_authenticode_signing";;
  extended ← read_stream c extended_path;
  expected ← compute_prehash c kind;
  bail_if (negb (bool_decide (extended = expected))) "MSI {} stream does not match its metadata digest";;
  compute_msi_fingerprint c kind.
Record PreparedMsiAuthenticode := mk_prepared_msi { pm_image : bytes; pm_digest : bytes }.
Definition prepare_msi_for_authenticode_signing (data : bytes) (kind : PeAuthenticodeHashKind) : outcome PreparedMsiAuthenticode :=
  c ← with_context (cfb_open data) "open as OLE compound file: {e}";
  metadata_digest ← compute_prehash c kind;
  c ← write_stream c (root_stream EXTENDED_SIGNATURE_ENTRY) metadata_digest;
  digest ← compute_msi_fingerprint c kind;
  Ok (mk_prepared_msi (into_inner c) digest).
Definition msi_digital_signature_pkcs7_from_cfb (c : compound) : outcome bytes :=
  let sig_path := root_stream DIGITAL_SIGNATURE_ENTRY in
  bail_if (negb (cfb_exists c sig_path)) "MSI is missing {} stream";;
  read_stream c sig_path.
Definition msi_digital_signature_pkcs7_der (data : bytes) : outcome bytes :=
  c ← with_context (cfb_open data) "open as OLE compound file: {e}";
  msi_digital_signature_pkcs7_from_cfb c.
(** A file by its path, before and after. *)
Abbreviation files := (str → option bytes) (only parsing).
Definition set_file (fs : files) (path : str) (data : bytes) : files := λ p, if bool_decide (p = path) then Some data else fs p.
Definition write_msi_digital_signature_pkcs7 (fs : files) (path : str) (pkcs7 : bytes) : outcome files :=
  data ← ok_or (fs path) "open OLE compound file read/write: {e}";
  c ← with_context (cfb_open data) "open OLE compound file read/write: {e}";
  c ← write_stream c (root_stream DIGITAL_SIGNATURE_ENTRY) pkcs7;
  Ok (set_file fs path (into_inner c)).
(** [canonicalize] is the one of the file system. *)
Definition msi_embed_authenticode_pkcs7_signature (canonicalize : str → option str) (fs : files) (input output : str) (pkcs7 : bytes) :
    outcome files :=
  let same_path :=
    bool_decide (input = output) ||
    match canonicalize input, canonicalize output with Some a, Some b => bool_decide (a = b) | _, _ => false end in
  fs ← (if negb same_path then data ← ok_or (fs input) "No such file or directory"; Ok (set_file fs output data) else Ok fs);
  write_msi_digital_signature_pkcs7 fs output pkcs7.
Definition msi_embed_prepared_authenticode_pkcs7_signature (fs : files) (prepared : PreparedMsiAuthenticode) (output : str)
    (pkcs7 : bytes) : outcome files :=
  write_msi_digital_signature_pkcs7 (set_file fs output (pm_image prepared)) output pkcs7.
(** [embedded_digest] is [AuthenticodeSignature::from_bytes(..).digest()]. *)
Definition verify_msi_digest_consistency (embedded_digest : bytes → option bytes) (fs : files) (path : str) : outcome unit :=
  data ← ok_or (fs path) "No such file or directory";
  c ← cfb_open data;
  pkcs7 ← msi_digital_signature_pkcs7_from_cfb c;
  embedded ← ok_or (embedded_digest pkcs7) "MSI Authenticode PKCS#7 parse failed: {e}";
  kind ← from_digest_byte_len (len embedded);
  computed ← compute_msi_fingerprint c kind;
  bail_if (negb (bool_decide (computed = embedded)))
    "MSI Authenticode digest mismatch (Rust SIP fingerprint vs PKCS#7 indirect digest)";;
  if msi_has_extended c then
    expected ← read_stream c (root_stream EXTENDED_SIGNATURE_ENTRY);
    pre ← compute_prehash c kind;
    bail_if (negb (bool_decide (pre = expected)))
      "MSI extended metadata digest mismatch (MsiDigitalSignatureEx stream vs Rust pre-hash)"
  else Ok tt.
End Passes.

(** ** What the crate promises *)

(** Siblings have names of their own and lie below their storage; a stream is as
    long as its entry says; writing a stream of the root changes nothing else,
    and a file is opened as it was closed. *)
Definition named (name : str) (storage_path : cfb_path) (e : CfbEntry) : bool :=
  bool_decide (storage_path = []) && bool_decide (en_name e = name).
Class CfbLaws `{CfbCrate} := {
  cfb_distinct c p es : read_storage c p = Ok es → NoDup ((λ e, utf16_le_bytes (en_name e)) <$> es);
  cfb_paths c p es e : read_storage c p = Ok es → e ∈ es → en_path e = p ++ [en_name e];
  cfb_length c p es e data : read_storage c p = Ok es → e ∈ es → read_stream c (en_path e) = Ok data → len data = en_len e;
  cfb_reopen c : cfb_open (into_inner c) = Ok c;
  cfb_written c name data c' : write_stream c (root_stream name) data = Ok c' →
    cfb_exists c' (root_stream name) = true ∧ read_stream c' (root_stream name) = Ok data;
  cfb_unwritten c name data c' p : write_stream c (root_stream name) data = Ok c' → p ≠ root_stream name →
    cfb_entry c' p = cfb_entry c p ∧ read_stream c' p = read_stream c p ∧ cfb_exists c' p = cfb_exists c p;
  cfb_listing c name data c' p : write_stream c (root_stream name) data = Ok c' →
    match read_storage c p, read_storage c' p with
    | Ok es, Ok es' => List.filter (λ e, negb (named name p e)) es ≡ₚ List.filter (λ e, negb (named name p e)) es'
    | r, r' => r = r'
    end;
  cfb_same_depth c name data c' : write_stream c (root_stream name) data = Ok c' → cfb_depth c' [] = cfb_depth c [] }.

(** ** The order of names *)

Lemma slice_cmp_le a b : Forall (λ x, x < 256) a → Forall (λ x, x < 256) b →
  (match slice_cmp (take (length a `min` length b) a) (take (length a `min` length b) b) with
   | Eq => Nat.compare (length b) (length a) | c => c end ≠ Gt) ↔ str_le (a ++ [256]) (b ++ [256]) = true.
Proof.
  intros Ha. revert b. induction Ha as [|x a Hx Ha IH]; intros b Hb; destruct Hb as [|y b Hy Hb]; cbn -[Z.ltb Z.eqb].
  - done.
  - rewrite (proj2 (Z.ltb_ge 256 y)), (proj2 (Z.eqb_neq 256 y)) by lia. done.
  - rewrite (proj2 (Z.ltb_lt x 256)) by lia. done.
  - destruct (Z.compare_spec x y) as [->|Hlt|Hgt].
    + rewrite Z.ltb_irrefl, Z.eqb_refl. cbn [orb andb]. by apply IH.
    + rewrite (proj2 (Z.ltb_lt x y)) by lia. done.
    + rewrite (proj2 (Z.ltb_ge x y)), (proj2 (Z.eqb_neq x y)) by lia. done.
Qed.
Lemma utf16_le_bytes_small name : Forall (λ x, x < 256) (utf16_le_bytes name).
Proof.
  unfold utf16_le_bytes. induction (encode_utf16 name) as [|u us IH]; [done|]. cbn. repeat (constructor; [lia|]). apply IH.
Qed.
Definition name_key (e : CfbEntry) : list Z := utf16_le_bytes (en_name e) ++ [256].
Lemma name_le_key a b : name_le a b = str_le (name_key a) (name_key b).
Proof.
  apply eq_true_iff_eq. unfold name_key. rewrite <-slice_cmp_le by apply utf16_le_bytes_small. unfold name_le, cmp_utf16_name.
  by case_match.
Qed.
Lemma insert_entry_perm e es : insert_entry e es ≡ₚ e :: es.
Proof. induction es as [|x es IH]; cbn; [done|]. destruct (name_le e x); [done|]. rewrite IH. apply Permutation_swap. Qed.
Lemma sort_entries_perm es : sort_entries es ≡ₚ es.
Proof. induction es as [|e es IH]; cbn; [done|]. rewrite insert_entry_perm. by constructor. Qed.
Definition entry_le (a b : CfbEntry) : Prop := name_le a b = true.
Lemma sort_entries_sorted es : StronglySorted entry_le (sort_entries es).
Proof.
  induction es as [|e es IH]; [constructor|]. change (sort_entries (e :: es)) with (insert_entry e (sort_entries es)). revert IH. generalize (sort_entries es). clear es.
  induction 1 as [|x l Hl IH Hx]; cbn; [by repeat constructor|].
  destruct (name_le e x) eqn:E.
  - constructor; [by constructor|]. constructor; [done|]. eapply Forall_impl; [exact Hx|]. intros y Hy. unfold entry_le in *.
    rewrite name_le_key in *. eapply str_le_trans; [exact E|exact Hy].
  - constructor; [done|]. rewrite insert_entry_perm. constructor; [|done]. unfold entry_le. rewrite name_le_key in *. by apply str_le_total.
Qed.
Definition unsigned (p : cfb_path) (es : list CfbEntry) : list CfbEntry := List.filter (λ e, negb (is_signature_entry p e)) es.
Definition distinct (es : list CfbEntry) : Prop := NoDup ((λ e, utf16_le_bytes (en_name e)) <$> es).
Lemma distinct_key es e e' : distinct es → e ∈ es → e' ∈ es → name_key e = name_key e' → e = e'.
Proof.
  unfold distinct, name_key. intros Hd [i Hi]%list_elem_of_lookup [j Hj]%list_elem_of_lookup [Hk _]%app_inj_tail.
  assert (i = j) as ->; [|congruence]. eapply (NoDup_lookup _ i j _ Hd); rewrite list_lookup_fmap; [by rewrite Hi|]. rewrite Hj. cbn. by rewrite Hk.
Qed.
Lemma filter_sorted {A} (R : A → A → Prop) (f : A → bool) l : StronglySorted R l → StronglySorted R (List.filter f l).
Proof.
  induction 1 as [|x l Hl IH Hx]; cbn; [constructor|]. destruct (f x); [|done]. constructor; [done|].
  rewrite Forall_forall in *. intros y Hy. apply Hx. apply list_elem_of_In, List.filter_In in Hy as [Hy _]. by apply list_elem_of_In.
Qed.
Lemma filter_perm {A} (f : A → bool) l l' : l ≡ₚ l' → List.filter f l ≡ₚ List.filter f l'.
Proof.
  induction 1 as [|x l l' _ IH|x y l|l l' l'' _ IH1 _ IH2]; cbn; [done| | |by rewrite IH1].
  - destruct (f x); by rewrite ?IH.
  - destruct (f x), (f y); try done. apply Permutation_swap.
Qed.
Lemma elem_of_unsigned p es e : e ∈ unsigned p es ↔ e ∈ es ∧ is_signature_entry p e = false.
Proof. unfold unsigned. rewrite list_elem_of_In, List.filter_In, negb_true_iff, list_elem_of_In. done. Qed.
(** Siblings are met in the same order however they are listed. *)
Lemma sorted_unsigned p es es' : distinct es → unsigned p es ≡ₚ unsigned p es' →
  unsigned p (sort_entries es) = unsigned p (sort_entries es').
Proof.
  intros Hd Hp. assert (unsigned p (sort_entries es) ≡ₚ unsigned p es) as H1 by (apply filter_perm, sort_entries_perm).
  assert (unsigned p (sort_entries es') ≡ₚ unsigned p es') as H2 by (apply filter_perm, sort_entries_perm).
  apply (StronglySorted_unique_strong entry_le); [|apply filter_sorted, sort_entries_sorted..|by rewrite H1, H2].
  intros x y Hx Hy Hxy Hyx. rewrite H1 in Hx. rewrite H2, <-Hp in Hy. apply elem_of_unsigned in Hx as [Hx _]. apply elem_of_unsigned in Hy as [Hy _].
  unfold entry_le in *. rewrite name_le_key in *. eapply distinct_key; [done..|]. by apply str_le_antisym.
Qed.
Lemma visit_unsigned p f es h : visit p f es h = visit p f (unsigned p es) h.
Proof.
  revert h. induction es as [|e es IH]; intros h; [done|]. cbn. destruct (is_signature_entry p e) eqn:E; cbn; [apply IH|]. rewrite E.
  destruct (f e h) as [[]|]; cbn; [apply IH|done..].
Qed.
Lemma visit_ext p f g es h : (∀ e h, e ∈ es → is_signature_entry p e = false → f e h = g e h) → visit p f es h = visit p g es h.
Proof.
  revert h. induction es as [|e es IH]; intros h Hfg; [done|]. cbn. destruct (is_signature_entry p e) eqn:E.
  - apply IH. intros. apply Hfg; [by right|done].
  - rewrite Hfg by (by left || done). destruct (g e h) as [[]|]; cbn; [|done..]. apply IH. intros. apply Hfg; [by right|done].
Qed.
(** The loop over two listings of a storage. *)
Lemma visit_same p f g es es' h : distinct es → unsigned p es ≡ₚ unsigned p es' →
  (∀ e h, e ∈ es → is_signature_entry p e = false → f e h = g e h) → visit p f (sort_entries es) h = visit p g (sort_entries es') h.
Proof.
  intros Hd Hp Hfg. rewrite (visit_unsigned p f), (visit_unsigned p g), <-(sorted_unsigned p es es') by done.
  apply visit_ext. intros e h' [He Hs]%elem_of_unsigned _. apply Hfg; [by rewrite <-(sort_entries_perm es)|done].
Qed.

(** ** Compound files that differ in the signature streams of the root *)

Definition signature_paths : list cfb_path := [root_stream DIGITAL_SIGNATURE_ENTRY; root_stream EXTENDED_SIGNATURE_ENTRY].
Lemma signature_path p e : is_signature_entry p e = false → p ++ [en_name e] ∉ signature_paths.
Proof.
  unfold is_signature_entry, signature_paths, root_stream. intros Hs Hin.
  apply elem_of_cons in Hin as [Hin|[Hin|[]%not_elem_of_nil]%elem_of_cons];
    (destruct p as [|x [|y p]]; [|done..]); injection Hin as Hn; rewrite Hn in Hs; by vm_compute in Hs.
Qed.
Section Same.
Context `{CfbLaws} `{DigestOracle}.
(** The same entries, in any order; streams may differ. *)
Definition same_metadata (c c' : compound) : Prop :=
  cfb_depth c [] = cfb_depth c' [] ∧ (∀ p, p ∉ signature_paths → cfb_entry c p = cfb_entry c' p) ∧
  ∀ p, match read_storage c p, read_storage c' p with
       | Ok es, Ok es' => unsigned p es ≡ₚ unsigned p es'
       | r, r' => r = r'
       end.
Definition same_but_signature (c c' : compound) : Prop :=
  same_metadata c c' ∧ ∀ p, p ∉ signature_paths → read_stream c p = read_stream c' p.
Lemma prehash_same fuel c c' p h : same_metadata c c' → p ∉ signature_paths →
  prehash_storage_recursive fuel c p h = prehash_storage_recursive fuel c' p h.
Proof.
  intros (_ & Hread & Hlist). revert p h. induction fuel as [|fuel IH]; intros p h Hp; [done|]. cbn [prehash_storage_recursive].
  rewrite (Hread p Hp). destruct (cfb_entry c' p) as [meta| |]; cbn; [|done..].
  destruct (prehash_entry meta h) as [h1| |]; cbn; [|done..]. specialize (Hlist p). pose proof (cfb_distinct c p) as Hd.
  pose proof (cfb_paths c p) as Hpath. destruct (read_storage c p) as [es| |], (read_storage c' p) as [es'| |]; cbn; try done; try congruence.
  apply visit_same; [by apply Hd|done|]. intros e h' He Hs. rewrite (Hpath es e) by done.
  destruct (is_storage e); [|done]. apply IH. by apply signature_path.
Qed.
Lemma content_same fuel c c' p h : same_but_signature c c' → p ∉ signature_paths →
  hash_storage_content_recursive fuel c p h = hash_storage_content_recursive fuel c' p h.
Proof.
  intros [(_ & Hentry & Hlist) Hread]. revert p h. induction fuel as [|fuel IH]; intros p h Hp; [done|]. cbn [hash_storage_content_recursive].
  rewrite (Hentry p Hp). specialize (Hlist p). pose proof (cfb_distinct c p) as Hd.
  pose proof (cfb_paths c p) as Hpath. destruct (read_storage c p) as [es| |], (read_storage c' p) as [es'| |]; cbn; try done; try congruence.
  f_equal. apply visit_same; [by apply Hd|done|]. intros e h' He Hs. rewrite (Hpath es e) by done. apply signature_path in Hs.
  destruct (is_storage e); [by apply IH|]. by rewrite (Hread _ Hs).
Qed.
Lemma root_not_signature : [] ∉ signature_paths.
Proof. by apply (bool_decide_unpack _); vm_compute. Qed.
Lemma prehash_same_value c c' kind : same_metadata c c' → compute_prehash c kind = compute_prehash c' kind.
Proof.
  intros Hs. unfold compute_prehash, cfb_fuel. pose proof Hs as (-> & _). by rewrite (prehash_same _ c c') by (done || apply root_not_signature).
Qed.
Lemma fingerprint_same c c' kind : same_but_signature c c' → msi_has_extended c = msi_has_extended c' →
  compute_msi_fingerprint c kind = compute_msi_fingerprint c' kind.
Proof.
  intros Hs He. unfold compute_msi_fingerprint. rewrite He, (prehash_same_value c c') by apply Hs.
  destruct (if msi_has_extended c' then _ else _) as [h| |]; cbn [mbind outcome_bind]; [|done..]. unfold cfb_fuel. pose proof Hs as [(-> & _) _].
  by rewrite (content_same _ c c') by (done || apply root_not_signature).
Qed.
End Same.

(** ** Termination *)

Section Total.
Context `{CfbLaws} `{DigestOracle}.
Lemma visit_total p f es h : (∀ e h, e ∈ es → is_signature_entry p e = false → is_Some (f e h)) → is_Some (visit p f es h).
Proof.
  revert h. induction es as [|e es IH]; intros h Hf; [by eexists|]. cbn. destruct (is_signature_entry p e) eqn:E.
  - apply IH. intros. apply Hf; [by right|done].
  - destruct (Hf e h) as [r ->]; [by left|done|]. destruct r; cbn; [|by eexists..]. apply IH. intros. apply Hf; [by right|done].
Qed.
Lemma prehash_total fuel c p h : (cfb_depth c p < fuel)%nat → is_Some (prehash_storage_recursive fuel c p h).
Proof.
  revert p h. induction fuel as [|fuel IH]; intros p h Hd; [lia|]. cbn [prehash_storage_recursive].
  destruct (cfb_entry c p) as [meta| |]; [|by eexists..]. cbn [mbind outcome_bind]. destruct (prehash_entry meta h); [|by eexists..].
  cbn [mbind outcome_bind]. pose proof (cfb_nested c p) as Hn. destruct (read_storage c p) as [es| |]; [|by eexists..].
  cbn [mbind outcome_bind then_]. apply visit_total. intros e h' He _. destruct (is_storage e) eqn:Es; [|by eexists].
  rewrite sort_entries_perm in He. apply IH. specialize (Hn es e eq_refl He Es). lia.
Qed.
Lemma content_total fuel c p h : (cfb_depth c p < fuel)%nat → is_Some (hash_storage_content_recursive fuel c p h).
Proof.
  revert p h. induction fuel as [|fuel IH]; intros p h Hd; [lia|]. cbn [hash_storage_content_recursive].
  pose proof (cfb_nested c p) as Hn. destruct (read_storage c p) as [es| |]; [|by eexists..]. cbn [then_].
  assert (∀ f h, (∀ e h, e ∈ es → is_Some (f e h)) → is_Some (visit p f (sort_entries es) h)) as Hv.
  { intros f h' Hf. apply visit_total. intros e h1 He _. apply Hf. by rewrite sort_entries_perm in He. }
  match goal with |- is_Some (then_ (visit p ?f _ _) _) => destruct (Hv f h) as [r ->] end.
  - intros e h' He. destruct (is_storage e) eqn:Es; [|destruct (is_stream e); by eexists]. apply IH.
    specialize (Hn es e eq_refl He Es). lia.
  - destruct r; by eexists.
Qed.
End Total.

(** ** What the passes feed the hasher *)

Section Fed.
Context `{CfbCrate}.
Lemma visit_inv (P : RunningHasher → RunningHasher → Prop) p f es h h' : (∀ h, P h h) → (∀ a b c, P a b → P b c → P a c) →
  (∀ e h h', e ∈ es → f e h = Some (Ok h') → P h h') → visit p f es h = Some (Ok h') → P h h'.
Proof.
  intros Hrefl Htrans. revert h. induction es as [|e es IH]; intros h Hf Hv; [by injection Hv as <-|]. cbn in Hv.
  destruct (is_signature_entry p e); [apply IH; [|done]; intros; eapply Hf; [by right|done]|].
  apply then_Ok in Hv as (h1 & H1 & Hv). eapply Htrans; [eapply Hf; [by left|done]|]. apply IH; [|done]. intros; eapply Hf; [by right|done].
Qed.
Lemma content_kind fuel c p h h' : hash_storage_content_recursive fuel c p h = Some (Ok h') → h_kind h' = h_kind h.
Proof.
  revert p h h'. induction fuel as [|fuel IH]; intros p h h'; [done|]. cbn [hash_storage_content_recursive].
  intros (es & _ & (h1 & Hv & Hst)%then_Ok)%then_Ok. injection Hst as Hst. apply bind_Ok in Hst as (st & _ & [= <-]). cbn.
  apply (visit_inv (λ a b, h_kind b = h_kind a)) in Hv; [done|done|congruence|]. intros e h2 h3 _ Hf.
  destruct (is_storage e); [by apply IH in Hf|]. destruct (is_stream e); injection Hf as Hf; [|by subst].
  by apply bind_Ok in Hf as (buf & _ & [= <-]).
Qed.
End Fed.

(** ** Signing and verifying *)

Lemma set_file_here fs path data : set_file fs path data path = Some data.
Proof. unfold set_file. by rewrite bool_decide_eq_true_2. Qed.

Section SignVerify.
Context `{CfbLaws} `{DigestOracle}.
Lemma write_same c name data c' : name ∈ [DIGITAL_SIGNATURE_ENTRY; EXTENDED_SIGNATURE_ENTRY] →
  write_stream c (root_stream name) data = Ok c' → same_but_signature c c'.
Proof.
  intros Hin Hw. assert (∀ p, p ∉ signature_paths → cfb_entry c p = cfb_entry c' p ∧ read_stream c p = read_stream c' p) as Hu.
  { intros p Hp. destruct (cfb_unwritten c name data c' p Hw) as (-> & -> & _); [|done].
    intros ->. apply Hp. apply elem_of_cons in Hin as [-> | ->%list_elem_of_singleton]; [by left|by right; left]. }
  split; [split; [symmetry; by eapply cfb_same_depth|split; [by intros; apply Hu|]]|by intros; apply Hu].
  intros p. pose proof (cfb_listing c name data c' p Hw) as Hl. destruct (read_storage c p) as [es| |], (read_storage c' p) as [es'| |]; try done.
  assert (∀ l, unsigned p l = unsigned p (List.filter (λ e, negb (named name p e)) l)) as Hf.
  { intros l. unfold unsigned. induction l as [|e l IH]; [done|]. cbn. destruct (named name p e) eqn:En; cbn; [|by rewrite IH].
    rewrite IH. unfold named in En. apply andb_true_iff in En as [Hp En%bool_decide_eq_true].
    assert (is_signature_entry p e = true) as ->; [|done]. unfold is_signature_entry. rewrite Hp, En.
    apply elem_of_cons in Hin as [-> | ->%list_elem_of_singleton]; by vm_compute. }
  rewrite (Hf es), (Hf es'). by apply filter_perm.
Qed.
Lemma fingerprint_digest c kind d : compute_msi_fingerprint c kind = Ok d → ∃ b, d = digest kind b.
Proof.
  unfold compute_msi_fingerprint. intros (h & Hh & (h' & Hr & [= <-])%bind_Ok)%bind_Ok.
  assert (h_kind h = kind) as Hk by (by destruct (msi_has_extended c); inv_ok Hh).
  destruct (hash_storage_content_recursive _ _ _ _) as [r|] eqn:Ec; [|done]. cbn in Hr. subst r. apply content_kind in Ec.
  exists (h_fed h'). unfold hasher_finalize. congruence.
Qed.
(** C13: A package that was staged and signed is accepted: the staged image holds
    its metadata digest, the digest signed is the one the check computes once
    the signature is written, and the signature is read back. *)
Theorem msi_sign_then_verify embedded_digest fs output data kind prepared pkcs7 fs' :
  prepare_msi_for_authenticode_signing data kind = Ok prepared →
  embedded_digest pkcs7 = Some (pm_digest prepared) →
  msi_embed_prepared_authenticode_pkcs7_signature fs prepared output pkcs7 = Ok fs' →
  verify_msi_digest_consistency embedded_digest fs' output = Ok tt ∧
  ∃ signed, fs' output = Some signed ∧ msi_digital_signature_pkcs7_der signed = Ok pkcs7 ∧
    compute_prepared_msi_authenticode_digest signed kind = Ok (pm_digest prepared).
Proof.
  unfold prepare_msi_for_authenticode_signing, msi_embed_prepared_authenticode_pkcs7_signature, write_msi_digital_signature_pkcs7.
  intros Hp He Hs. apply bind_Ok in Hp as (c0 & Hc0%with_context_Ok & (pre & Hpre & (c1 & Hw1 & (d & Hd & [= <-])%bind_Ok)%bind_Ok)%bind_Ok).
  cbn [pm_digest pm_image] in *. rewrite set_file_here in Hs.
  cbn [ok_or mbind outcome_bind] in Hs. rewrite cfb_reopen in Hs. cbn [with_context mbind outcome_bind] in Hs.
  apply bind_Ok in Hs as (c2 & Hw2 & [= <-]).
  destruct (cfb_written _ _ _ _ Hw1) as [He1 Hr1]. destruct (cfb_written _ _ _ _ Hw2) as [He2 Hr2].
  destruct (cfb_unwritten _ _ _ _ (root_stream EXTENDED_SIGNATURE_ENTRY) Hw2) as (_ & Hr & Hex); [done|]. rewrite Hr1 in Hr. rewrite He1 in Hex.
  assert (same_but_signature c0 c1) as Hs1 by (eapply write_same; [|done]; by right; left).
  assert (same_but_signature c1 c2) as Hs2 by (eapply write_same; [|done]; by left).
  rewrite (fingerprint_same c1 c2) in Hd by (done || unfold msi_has_extended; congruence).
  rewrite (prehash_same_value c0 c1), (prehash_same_value c1 c2) in Hpre by (apply Hs1 || apply Hs2).
  assert (msi_digital_signature_pkcs7_from_cfb c2 = Ok pkcs7) as Hpk by (unfold msi_digital_signature_pkcs7_from_cfb; rewrite He2; done).
  split; [|exists (into_inner c2); rewrite set_file_here; split; [done|]].
  - destruct (fingerprint_digest _ _ _ Hd) as [b ->]. unfold verify_msi_digest_consistency. rewrite set_file_here.
    cbn [ok_or mbind outcome_bind]. rewrite cfb_reopen. cbn [mbind outcome_bind]. rewrite Hpk. cbn [mbind outcome_bind]. rewrite He.
    cbn [ok_or mbind outcome_bind]. rewrite digest_len, from_digest_byte_len_output. cbn [mbind outcome_bind]. rewrite Hd.
    cbn [mbind outcome_bind]. rewrite bool_decide_eq_true_2 by done. cbn [negb bail_if mbind outcome_bind].
    unfold msi_has_extended. rewrite Hex, Hr. cbn [mbind outcome_bind]. rewrite Hpre. cbn [mbind outcome_bind]. by rewrite bool_decide_eq_true_2.
  - unfold msi_digital_signature_pkcs7_der, compute_prepared_msi_authenticode_digest. rewrite cfb_reopen. cbn [with_context mbind outcome_bind].
    split; [done|]. rewrite Hex. cbn [negb bail_if mbind outcome_bind]. rewrite Hr. cbn [mbind outcome_bind]. rewrite Hpre.
    cbn [mbind outcome_bind]. by rewrite bool_decide_eq_true_2.
Qed.
End SignVerify.

(** ** What the fingerprint covers *)

Section Covered.
Context `{CfbLaws} `{DigestOracle}.
(** The streams below a storage, but for the signature streams of the root. *)
Inductive below (c : compound) : cfb_path → CfbEntry → Prop :=
  | below_here p es e : read_storage c p = Ok es → e ∈ es → is_signature_entry p e = false → is_stream e = true → below c p e
  | below_storage p es s e : read_storage c p = Ok es → s ∈ es → is_signature_entry p s = false → is_storage s = true →
      below c (en_path s) e → below c p e.
Lemma stream_not_storage e : is_stream e = negb (is_storage e).
Proof. unfold is_stream, is_storage. by destruct (en_kind e). Qed.
Lemma visit_two (P : CfbEntry → Prop) p f g es h h' r r' :
  (∀ e h h' r r', e ∈ es → is_signature_entry p e = false → f e h = Some (Ok r) → g e h' = Some (Ok r') → len (h_fed h) = len (h_fed h') →
    len (h_fed r) = len (h_fed r') ∧ (h_fed r = h_fed r' → h_fed h = h_fed h' ∧ P e)) →
  visit p f es h = Some (Ok r) → visit p g es h' = Some (Ok r') → len (h_fed h) = len (h_fed h') →
  len (h_fed r) = len (h_fed r') ∧ (h_fed r = h_fed r' → h_fed h = h_fed h' ∧ ∀ e, e ∈ es → is_signature_entry p e = false → P e).
Proof.
  revert h h'. induction es as [|e es IH]; intros h h' Hfg; cbn [visit].
  { intros [= <-] [= <-] Hl. split; [done|]. intros Heq. split; [done|]. by intros e ?%not_elem_of_nil. }
  assert (∀ h h', visit p f es h = Some (Ok r) → visit p g es h' = Some (Ok r') → len (h_fed h) = len (h_fed h') →
    len (h_fed r) = len (h_fed r') ∧ (h_fed r = h_fed r' → h_fed h = h_fed h' ∧ ∀ e, e ∈ es → is_signature_entry p e = false → P e)) as IH'
    by (intros h1 h2; apply IH; intros e1 h3 h4 r1 r2 ?; apply Hfg; by right). clear IH.
  destruct (is_signature_entry p e) eqn:E.
  - intros V1 V2 Hl. destruct (IH' h h' V1 V2 Hl) as [IHl IHr]. split; [done|]. intros Heq. destruct (IHr Heq) as [? HP]. split; [done|].
    intros e' [-> |He']%elem_of_cons ?; [congruence|by apply HP].
  - intros (h1 & F1 & V1)%then_Ok (h2 & G2 & V2)%then_Ok Hl. destruct (Hfg e h h' h1 h2) as [Hl' He]; [by left|done..|].
    destruct (IH' h1 h2 V1 V2 Hl') as [IHl IHr]. split; [done|]. intros Heq. destruct (IHr Heq) as [Heq1 HP]. destruct (He Heq1) as [? HPe].
    split; [done|]. intros e' [-> |He']%elem_of_cons ?; [done|by apply HP].
Qed.
Lemma app_same_end {A} (a b x : list A) : a ++ x = b ++ x → a = b.
Proof. apply app_inv_tail. Qed.
Lemma content_binds c c' fuel p h h' r r' : same_metadata c c' → p ∉ signature_paths →
  hash_storage_content_recursive fuel c p h = Some (Ok r) → hash_storage_content_recursive fuel c' p h' = Some (Ok r') →
  len (h_fed h) = len (h_fed h') →
  len (h_fed r) = len (h_fed r') ∧
  (h_fed r = h_fed r' → h_fed h = h_fed h' ∧ ∀ e, below c p e → read_stream c (en_path e) = read_stream c' (en_path e)).
Proof.
  intros (_ & Hentry & Hlist). revert p h h' r r'. induction fuel as [|fuel IH]; intros p h h' r r' Hp; [done|].
  cbn [hash_storage_content_recursive]. rewrite (Hentry p Hp). specialize (Hlist p).
  intros (es & Hes & (h1 & Hv & Hst)%then_Ok)%then_Ok (es' & Hes' & (h2 & Hv' & Hst')%then_Ok)%then_Ok Hl.
  injection Hst as Hst. injection Hst' as Hst'. injection Hes as Hes. injection Hes' as Hes'.
  apply bind_Ok in Hst as (st & Hst0 & [= <-]). rewrite Hst0 in Hst'. injection Hst' as <-. rewrite Hes, Hes' in Hlist.
  rewrite visit_unsigned in Hv, Hv'. rewrite <-(sorted_unsigned p es es') in Hv' by (done || by eapply cfb_distinct).
  set (P := λ e, (is_stream e = true → read_stream c (en_path e) = read_stream c' (en_path e)) ∧
                 (is_storage e = true → ∀ e', below c (en_path e) e' → read_stream c (en_path e') = read_stream c' (en_path e'))).
  assert (∀ e, e ∈ unsigned p (sort_entries es) ↔ e ∈ es ∧ is_signature_entry p e = false) as Hmem
    by (intros e; by rewrite elem_of_unsigned, sort_entries_perm).
  assert (∀ e, e ∈ unsigned p (sort_entries es) → e ∈ es') as Hmem'.
  { intros e [He Hs]%Hmem. assert (e ∈ unsigned p es) as Hu by by apply elem_of_unsigned. rewrite Hlist in Hu. by apply elem_of_unsigned in Hu as [? _]. }
  assert (len (h_fed h1) = len (h_fed h2) ∧ (h_fed h1 = h_fed h2 → h_fed h = h_fed h' ∧
    ∀ e, e ∈ unsigned p (sort_entries es) → is_signature_entry p e = false → P e)) as [Hl' Hback].
  { eapply (visit_two P p); [|exact Hv|exact Hv'|exact Hl].
    intros e h3 h4 r3 r4 Hin Hs Hf Hg Hl3. pose proof Hin as [He _]%Hmem. pose proof (cfb_paths c p es e Hes He) as Hpath.
    unfold P. cbn beta in Hf, Hg. rewrite stream_not_storage in *. destruct (is_storage e) eqn:Es; cbn [negb] in Hf, Hg |- *.
    + destruct (IH (en_path e) h3 h4 r3 r4) as [IHl IHr]; [rewrite Hpath; by apply signature_path|done|done|done|].
      split; [done|]. intros Heq. destruct (IHr Heq) as [? HB]. split; [done|]. by split.
    + injection Hf as Hf. injection Hg as Hg. apply bind_Ok in Hf as (buf & Hb & [= <-]). apply bind_Ok in Hg as (buf' & Hb' & [= <-]).
      cbn [hasher_update h_fed]. assert (len buf = len buf') as Hbl.
      { rewrite (cfb_length c p es e buf), (cfb_length c' p es' e buf') by (done || by apply Hmem'). done. }
      rewrite !len_app. split; [lia|]. intros Heq. apply app_inj_1 in Heq as [? ->]; [|unfold len in *; lia]. split; [done|]. split; [congruence|done]. }
  cbn [hasher_update h_fed]. rewrite !len_app. split; [lia|]. intros Heq%app_same_end. destruct (Hback Heq) as [? HP]. split; [done|].
  intros e He. inversion He as [p0 es0 e0 Hr0 He0 Hs0 Hk0|p0 es0 s e0 Hr0 He0 Hs0 Hk0 Hb0]; subst;
    assert (es0 = es) as -> by congruence.
  - destruct (HP e) as [HPs _]; [by apply Hmem|done|by apply HPs].
  - destruct (HP s) as [_ HPb]; [by apply Hmem|done|by apply HPb].
Qed.
(** The bytes whose hash the fingerprint is: the prehash, if the package has
    one, and then what the walk of the storages feeds the hasher. *)
Definition fingerprint_octets (c : compound) (kind : PeAuthenticodeHashKind) : outcome bytes :=
  prehash ← (if msi_has_extended c then compute_prehash c kind else Ok []);
  r ← default Panic (hash_storage_content_recursive (cfb_fuel c) c [] (mk_hasher kind prehash));
  Ok (h_fed r).
Lemma fingerprint_is_digest c kind d : compute_msi_fingerprint c kind = Ok d →
  ∃ b, fingerprint_octets c kind = Ok b ∧ d = digest kind b.
Proof.
  unfold compute_msi_fingerprint, fingerprint_octets. intros (h & Hh & (r & Hr & [= <-])%bind_Ok)%bind_Ok.
  assert (∃ prehash, (if msi_has_extended c then compute_prehash c kind else Ok []) = Ok prehash ∧ h = mk_hasher kind prehash) as (prehash & -> & ->).
  { destruct (msi_has_extended c); [|injection Hh as <-; by eexists]. apply bind_Ok in Hh as (pre & -> & [= <-]). by exists pre. }
  cbn [mbind outcome_bind]. rewrite Hr. cbn [mbind outcome_bind]. exists (h_fed r). split; [done|].
  destruct (hash_storage_content_recursive _ _ _ _) as [x|] eqn:E; [|done]. cbn in Hr. subst x.
  unfold hasher_finalize. by rewrite (content_kind _ _ _ _ _ E).
Qed.
(** C14: The fingerprint binds the contents: it is the hash of bytes that
    determine, among packages with the same metadata, every stream, the
    signature streams of the root apart.  So two such packages with the same
    fingerprint have the same streams, or the bytes hashed for the one and the
    bytes hashed for the other are two inputs on which the hash function
    collides. *)
Theorem msi_digest_binds_streams c c' kind d : same_metadata c c' → msi_has_extended c = msi_has_extended c' →
  compute_msi_fingerprint c kind = Ok d → compute_msi_fingerprint c' kind = Ok d →
  ∃ b b', fingerprint_octets c kind = Ok b ∧ fingerprint_octets c' kind = Ok b' ∧ digest kind b = d ∧ digest kind b' = d ∧
    (b = b' → ∀ e, below c [] e → read_stream c (en_path e) = read_stream c' (en_path e)).
Proof.
  intros Hm He (b & Hb & Hd)%fingerprint_is_digest (b' & Hb' & Hd')%fingerprint_is_digest. exists b, b'. split_and!; try done.
  intros <-. revert Hb Hb'. unfold fingerprint_octets. rewrite He, (prehash_same_value c c') by done. unfold cfb_fuel.
  pose proof Hm as (Hdepth & _). rewrite Hdepth. intros (pre & Hp & (r & Hr & [= Hfed])%bind_Ok)%bind_Ok (pre' & Hp' & (r' & Hr' & [= Hfed'])%bind_Ok)%bind_Ok.
  assert (pre' = pre) as -> by congruence.
  destruct (hash_storage_content_recursive _ c _ _) as [x|] eqn:E1; [|done]. cbn in Hr. subst x.
  destruct (hash_storage_content_recursive _ c' _ _) as [x|] eqn:E2; [|done]. cbn in Hr'. subst x.
  destruct (content_binds c c' _ _ _ _ _ _ Hm root_not_signature E1 E2 eq_refl) as [_ Hbind]. apply Hbind. congruence.
Qed.
End Covered.

(** ** An instance *)

(** Files with a storage that holds one stream, and the two streams that are
    written to the root. *)
Record ToyFile := mk_toy_file { t_data : bytes; t_ex : option bytes; t_sig : option bytes }.
Definition zero_time : SystemTime := Before (mk_duration 11644473600 0).
Definition toy_entry (path : cfb_path) (kind : EntryKind) (size : Z) : CfbEntry :=
  mk_cfb_entry (default [] (last path)) path kind (replicate 16 (byte_of 7)) 0 size zero_time zero_time.
Definition toy_storage : str := chars "S".
Definition toy_stream : cfb_path := [toy_storage; chars "Data"].
Definition toy_read (c : ToyFile) (p : cfb_path) : option bytes :=
  if bool_decide (p = toy_stream) then Some (t_data c)
  else if bool_decide (p = root_stream EXTENDED_SIGNATURE_ENTRY) then t_ex c
  else if bool_decide (p = root_stream DIGITAL_SIGNATURE_ENTRY) then t_sig c
  else None.
Definition toy_optional (name : str) (data : option bytes) : list CfbEntry :=
  match data with Some d => [toy_entry [name] StreamEntry (len d)] | None => [] end.
Definition toy_list (c : ToyFile) (p : cfb_path) : outcome (list CfbEntry) :=
  if bool_decide (p = []) then
    Ok (toy_entry [toy_storage] StorageEntry 0 :: toy_optional EXTENDED_SIGNATURE_ENTRY (t_ex c)
        ++ toy_optional DIGITAL_SIGNATURE_ENTRY (t_sig c))
  else if bool_decide (p = [toy_storage]) then Ok [toy_entry toy_stream StreamEntry (len (t_data c))]
  else Err "no such storage".
Definition toy_lookup (c : ToyFile) (p : cfb_path) : outcome CfbEntry :=
  if bool_decide (p = []) then Ok (toy_entry [] RootEntry 0)
  else if bool_decide (p = [toy_storage]) then Ok (toy_entry p StorageEntry 0)
  else d ← ok_or (toy_read c p) "no such entry"; Ok (toy_entry p StreamEntry (len d)).
Definition toy_write (c : ToyFile) (p : cfb_path) (data : bytes) : outcome ToyFile :=
  if bool_decide (p = root_stream EXTENDED_SIGNATURE_ENTRY) then Ok (mk_toy_file (t_data c) (Some data) (t_sig c))
  else if bool_decide (p = root_stream DIGITAL_SIGNATURE_ENTRY) then Ok (mk_toy_file (t_data c) (t_ex c) (Some data))
  else Err "not supported".
(** A file as bytes: every byte of a stream after a 1, the end as a 0. *)
Fixpoint toy_enc (d : bytes) : bytes := match d with [] => [byte_of 0] | b :: d' => byte_of 1 :: b :: toy_enc d' end.
Definition toy_enc_option (d : option bytes) : bytes := match d with None => [byte_of 2] | Some d => byte_of 3 :: toy_enc d end.
Fixpoint toy_dec (bs : bytes) : outcome (bytes * bytes) :=
  match bs with
  | b :: rest =>
      if u8 b =? 0 then Ok ([], rest) else
      match rest with
      | x :: rest => '(d, rest) ← toy_dec rest; Ok (x :: d, rest)
      | [] => Err "truncated"
      end
  | [] => Err "truncated"
  end.
Definition toy_dec_option (bs : bytes) : outcome (option bytes * bytes) :=
  match bs with
  | b :: rest => if u8 b =? 2 then Ok (None, rest) else '(d, rest) ← toy_dec rest; Ok (Some d, rest)
  | [] => Err "truncated"
  end.
Definition toy_close (c : ToyFile) : bytes := toy_enc (t_data c) ++ toy_enc_option (t_ex c) ++ toy_enc_option (t_sig c).
Definition toy_open (bs : bytes) : outcome ToyFile :=
  '(d, bs) ← toy_dec bs; '(ex, bs) ← toy_dec_option bs; '(sig, bs) ← toy_dec_option bs; Ok (mk_toy_file d ex sig).
Lemma toy_dec_enc d rest : toy_dec (toy_enc d ++ rest) = Ok (d, rest).
Proof. induction d as [|b d IH]; [done|]. cbn -[byte_of]. rewrite u8_of. cbn. by rewrite IH. Qed.
Lemma toy_dec_enc_option d rest : toy_dec_option (toy_enc_option d ++ rest) = Ok (d, rest).
Proof. destruct d as [d|]; [|done]. cbn -[byte_of]. rewrite u8_of. cbn. by rewrite toy_dec_enc. Qed.
Definition ToyCfb : CfbCrate.
Proof.
  refine {| compound := ToyFile; cfb_open := toy_open; into_inner := toy_close; cfb_entry := toy_lookup; read_storage := toy_list;
    read_stream c p := ok_or (toy_read c p) "no such stream"; cfb_exists c p := if toy_lookup c p is Ok _ then true else false;
    write_stream := toy_write; cfb_depth _ p := if bool_decide (p = []) then 1%nat else 0%nat |}.
  intros c p es e. unfold toy_list. case_bool_decide as Hp; [intros [= <-]|case_bool_decide; [intros [= <-]|done]].
  - intros He Hs. case_bool_decide; [|lia]. apply elem_of_cons in He as [-> |He]; [done|].
    by destruct (t_ex c), (t_sig c); cbn in He; repeat (apply elem_of_cons in He as [-> |He] || apply not_elem_of_nil in He).
  - by intros ->%list_elem_of_singleton.
Defined.
Lemma toy_root c p : p = [] ∨ p = [toy_storage] ∨ toy_list c p = Err "no such storage".
Proof. unfold toy_list. case_bool_decide; [by left|]. case_bool_decide; [by right; left|by right; right]. Qed.
Ltac toy_members He :=
  repeat (apply elem_of_cons in He as [-> |He]); try by apply not_elem_of_nil in He.
Lemma toy_distinct c p es : toy_list c p = Ok es → NoDup ((λ e, utf16_le_bytes (en_name e)) <$> es).
Proof.
  destruct (toy_root c p) as [-> |[-> | ->]]; [| |done]; intros [= <-]; [|by apply NoDup_singleton].
  destruct (t_ex c), (t_sig c); cbn; apply (bool_decide_unpack _); by vm_compute.
Qed.
Lemma toy_paths c p es e : toy_list c p = Ok es → e ∈ es → en_path e = p ++ [en_name e].
Proof.
  destruct (toy_root c p) as [-> |[-> | ->]]; [| |done]; intros [= <-] He; [|by apply list_elem_of_singleton in He as ->].
  destruct (t_ex c), (t_sig c); cbn in He; toy_members He; done.
Qed.
Lemma toy_length c p es e data : toy_list c p = Ok es → e ∈ es → ok_or (toy_read c (en_path e)) "no such stream" = Ok data →
  len data = en_len e.
Proof.
  destruct (toy_root c p) as [-> |[-> | ->]]; [| |done]; intros [= <-] He; [|apply list_elem_of_singleton in He as ->; by intros [= <-]].
  destruct (t_ex c) eqn:E1, (t_sig c) eqn:E2; cbn in He; toy_members He; unfold toy_read; cbn; rewrite ?E1, ?E2; (done || by intros [= <-]).
Qed.
Lemma toy_written c name data c' : toy_write c (root_stream name) data = Ok c' →
  (name = EXTENDED_SIGNATURE_ENTRY ∧ c' = mk_toy_file (t_data c) (Some data) (t_sig c)) ∨
  (name = DIGITAL_SIGNATURE_ENTRY ∧ c' = mk_toy_file (t_data c) (t_ex c) (Some data)).
Proof.
  unfold toy_write. case_bool_decide as E; [intros [= <-]; left; by injection E|].
  case_bool_decide as E2; [intros [= <-]; right; by injection E2|done].
Qed.
Lemma toy_reopen c : toy_open (toy_close c) = Ok c.
Proof.
  unfold toy_open, toy_close. rewrite toy_dec_enc. cbn [mbind outcome_bind]. rewrite toy_dec_enc_option. cbn [mbind outcome_bind].
  rewrite <-(app_nil_r (toy_enc_option (t_sig c))), toy_dec_enc_option. cbn. by destruct c.
Qed.
Lemma toy_unwritten c name data c' p : toy_write c (root_stream name) data = Ok c' → p ≠ root_stream name → toy_read c' p = toy_read c p.
Proof.
  intros [[-> ->]|[-> ->]]%toy_written Hp; unfold toy_read; cbn; [rewrite (bool_decide_eq_false_2 (p = root_stream EXTENDED_SIGNATURE_ENTRY)) by done|];
    [done|]. by rewrite (bool_decide_eq_false_2 (p = root_stream DIGITAL_SIGNATURE_ENTRY)).
Qed.
Definition ToyCfbLaws : @CfbLaws ToyCfb.
Proof.
  split; cbn.
  - apply toy_distinct.
  - apply toy_paths.
  - apply toy_length.
  - apply toy_reopen.
  - by intros c name data c' [[-> ->]|[-> ->]]%toy_written.
  - intros c name data c' p Hw Hp. unfold toy_lookup. rewrite (toy_unwritten _ _ _ _ _ Hw Hp). done.
  - intros c name data c' p Hw. destruct (toy_root c p) as [-> |[-> |Hr]].
    + destruct (toy_written _ _ _ _ Hw) as [[-> ->]|[-> ->]]; unfold toy_list; cbn; by destruct (t_ex c), (t_sig c).
    + destruct (toy_written _ _ _ _ Hw) as [[-> ->]|[-> ->]]; unfold toy_list; cbn; by rewrite !bool_decide_eq_true_2.
    + rewrite Hr. destruct (toy_written _ _ _ _ Hw) as [[-> ->]|[-> ->]]; revert Hr; unfold toy_list; by repeat case_bool_decide.
  - done.
Defined.
Definition toy_file : ToyFile := mk_toy_file (lit "payload") None None.
Definition toy_prepared : PreparedMsiAuthenticode :=
  match @prepare_msi_for_authenticode_signing ToyCfb ToyDigest (toy_close toy_file) Sha256 with Ok p => p | _ => mk_prepared_msi [] [] end.
Definition toy_files : str → option bytes := λ _, None.
Lemma msi_sign_then_verify_witness :
  match @msi_embed_prepared_authenticode_pkcs7_signature ToyCfb toy_files toy_prepared (chars "a.msi") (lit "p7") with
  | Ok fs' =>
      @verify_msi_digest_consistency ToyCfb ToyDigest (λ _, Some (pm_digest toy_prepared)) fs' (chars "a.msi") = Ok tt ∧
      ∃ signed, fs' (chars "a.msi") = Some signed ∧ @msi_digital_signature_pkcs7_der ToyCfb signed = Ok (lit "p7") ∧
        @compute_prepared_msi_authenticode_digest ToyCfb ToyDigest signed Sha256 = Ok (pm_digest toy_prepared)
  | _ => False
  end.
Proof.
  destruct (@msi_embed_prepared_authenticode_pkcs7_signature _ _ _ _ _) as [fs'| |] eqn:E; [|by vm_compute in E..].
  apply (@msi_sign_then_verify ToyCfb ToyCfbLaws ToyDigest (λ _, Some (pm_digest toy_prepared)) toy_files (chars "a.msi")
    (toy_close toy_file) Sha256 toy_prepared (lit "p7") fs'); [by vm_compute|done|exact E].
Defined.
Definition toy_fingerprint : bytes :=
  match @compute_msi_fingerprint ToyCfb ToyDigest toy_file Sha256 with Ok d => d | _ => [] end.
Lemma msi_digest_binds_streams_witness : ∃ b b',
  @fingerprint_octets ToyCfb ToyDigest toy_file Sha256 = Ok b ∧ @fingerprint_octets ToyCfb ToyDigest toy_file Sha256 = Ok b' ∧
  @digest ToyDigest Sha256 b = toy_fingerprint ∧ @digest ToyDigest Sha256 b' = toy_fingerprint ∧
  (b = b' → ∀ e, @below ToyCfb toy_file [] e → @read_stream ToyCfb toy_file (en_path e) = @read_stream ToyCfb toy_file (en_path e)).
Proof.
  apply (@msi_digest_binds_streams ToyCfb ToyCfbLaws ToyDigest toy_file toy_file Sha256 toy_fingerprint).
  - split; [done|]. split; [done|]. intros p. by destruct (read_storage _ p).
  - done.
  - by vm_compute.
  - by vm_compute.
Defined.
