(* ===== verification/PsScript.v ===== *)
(** PowerShell-class scripts: [crates/psign-sip-digest/src/ps_script.rs] (the
    digest check), the signing half in [crates/psign-portable-core/src/lib.rs]
    and [pkcs7.rs], and the removal half in [src/portable_remove.rs].

    Positions in a [str] are character indices here: every slice the code
    takes starts and ends at a match of [find], so no byte boundary matters.
    Parsing the PKCS#7 (crate [authenticode]) is the parameter
    [embedded_digest]. *)

From stdpp Require Import gmap.
From S2P Require Import Prelude.
From S2P Require Import PeDigest.
From S2P Require Import PeEmbed.
From S2P Require Import RustStr.
From S2P Require Import Base64.
From S2P Require Import Find.

Record ScriptAuthenticodeDigestReport := mk_report {
  pkcs7_der : bytes; embedded_digest : bytes; computed_digest : bytes }.

Inductive MarkerFamily := Hash | Xml | Mof.
#[export] Instance marker_family_eq_dec : EqDecision MarkerFamily.
Proof. solve_decision. Defined.

Definition one_of (ext : str) (l : list string) : bool := bool_decide (ext ∈ chars <$> l).

Definition marker_family (ext : str) : outcome MarkerFamily :=
  let e := to_ascii_lowercase ext in
  if one_of e ["ps1"; "psd1"; "psm1"] then Ok Hash
  else if one_of e ["ps1xml"; "psc1"; "cdxml"] then Ok Xml
  else if one_of e ["mof"] then Ok Mof
  else Err "extension .{ext} is not handled by pwrshsip-style markers".

Definition find_subslice (haystack needle : list Z) : option Z :=
  if bool_decide (needle = []) || (len haystack <? len needle) then None
  else find haystack needle.

(** The texts of the begin and end markers. *)
Definition begin_marker (f : MarkerFamily) : str :=
  chars match f with
        | Hash => "# SIG # Begin signature block"
        | Xml => "<!-- SIG # Begin signature block -->"
        | Mof => "/* SIG # Begin signature block */"
        end.
Definition end_marker (f : MarkerFamily) : str :=
  chars match f with
        | Hash => "# SIG # End signature block"
        | Xml => "<!-- SIG # End signature block -->"
        | Mof => "/* SIG # End signature block */"
        end.
Definition markers (f : MarkerFamily) : list Z * list Z * list Z * list Z :=
  (encode_utf16 (CRLF ++ begin_marker f ++ CRLF), encode_utf16 (begin_marker f),
   encode_utf16 (end_marker f ++ CRLF), encode_utf16 (end_marker f)).

Definition file_utf16_units (raw : bytes) : list Z :=
  if (2 <=? len raw) && bytes_start_with raw [0xFF; 0xFE] then le_u16s (drop 2 raw)
  else if (2 <=? len raw) && bytes_start_with raw [0xFE; 0xFF] then be_u16s (drop 2 raw)
  else encode_utf16 (from_utf8_lossy raw).

Definition utf16le_bytes (units : list Z) : bytes := u16_le_bytes units.

Definition strip_signature_region_utf16 (units : list Z) (family : MarkerFamily)
    : outcome (list Z) :=
  let '(begin_cr, begin, end_cr, end_) := markers family in
  start ← ok_or (match find_subslice units begin_cr with
                 | Some i => Some i
                 | None => find_subslice units begin
                 end)
    "signature begin marker not found when interpreting file as UTF-16";
  let tail := sub units start (len units) in
  '(end_rel, pat_len) ← ok_or (match find_subslice tail end_cr with
                               | Some i => Some (i, len end_cr)
                               | None =>
                                   i ← find_subslice tail end_; Some (i, len end_)
                               end)
    "signature end marker not found when interpreting file as UTF-16";
  let end_exclusive := start + end_rel + pat_len in
  Ok (sub units 0 start ++ sub units end_exclusive (len units)).

Definition hash_payload `{DigestOracle} (kind : PeAuthenticodeHashKind) (payload : bytes) : bytes :=
  hasher_finalize (hasher_update (hasher_new kind) payload).

Definition looks_like_b64_token (s : str) : bool :=
  (4 <=? byte_len s) && forallb is_base64_char s.

(** The base64 text of a line of the block, when it is one. *)
Definition line_token (family : MarkerFamily) (line : str) : option str :=
  let t := trim line in
  rest ← match family with
         | Hash => strip_prefix (chars "# ") t
         | Xml => x ← strip_prefix (chars "<!--") t; strip_suffix (chars "-->") x
         | Mof => x ← strip_prefix (chars "/*") t; strip_suffix (chars "*/") x
         end;
  let token := trim rest in
  if looks_like_b64_token token then Some token else None.

(** The text the two functions below look at: the decoded units, and for a
    UTF-16LE file the byte order mark in front ([units.insert(0, 0xfeff)]). *)
Definition subject_units (raw : bytes) : list Z :=
  let units := file_utf16_units raw in
  if bytes_start_with raw [0xFF; 0xFE] then 0xFEFF :: units else units.

Definition extract_pkcs7_der_from_script `{Base64} (raw : bytes) (family : MarkerFamily)
    : outcome bytes :=
  let text := from_utf16_lossy (subject_units raw) in
  start ← ok_or (find text (begin_marker family)) "signature begin not found (UTF-8 lossy view)";
  let tail := sub text start (len text) in
  end_rel ← ok_or (find tail (end_marker family)) "signature end not found (UTF-8 lossy view)";
  let block := sub tail 0 (end_rel + len (end_marker family)) in
  let b64 := concat (omap (line_token family) (lines block)) in
  bail_if (bool_decide (b64 = [])) "no base64 tokens parsed inside signature block";;
  ok_or (b64_decode (trim b64)) "base64 decode: {e}".

Definition extension_supported (ext : str) : bool :=
  one_of (to_ascii_lowercase ext) ["ps1"; "psd1"; "psm1"; "ps1xml"; "psc1"; "cdxml"; "mof"].

Definition is_wsh_extension (ext : str) : bool :=
  one_of (to_ascii_lowercase ext) ["js"; "jse"; "vbs"; "vbe"; "wsf"].

Section Report.
Context `{DigestOracle} `{Base64}.
(** [AuthenticodeSignature::from_bytes(der).map(|s| s.digest())] *)
Context (pkcs7_digest : bytes → option bytes).

Definition powershell_class_digest_report (raw : bytes) (ext : str)
    : outcome ScriptAuthenticodeDigestReport :=
  let ext_l := to_ascii_lowercase ext in
  bail_if (negb (extension_supported ext_l))
    "Rust SIP script digest does not support extension .{ext_l}";;
  family ← marker_family ext_l;
  pkcs7 ← extract_pkcs7_der_from_script raw family;
  embedded ← ok_or (pkcs7_digest pkcs7) "Authenticode PKCS#7 parse failed: {e}";
  kind ← from_digest_byte_len (len embedded);
  stripped ← strip_signature_region_utf16 (subject_units raw) family;
  let computed := hash_payload kind (utf16le_bytes stripped) in
  bail_if (negb (bool_decide (computed = embedded)))
    "script Authenticode digest mismatch (experimental UTF-16 strip heuristic vs PKCS#7)";;
  Ok (mk_report pkcs7 embedded computed).

Definition verify_powershell_class_digest (raw : bytes) (ext : str) : outcome unit :=
  _ ← powershell_class_digest_report raw ext; Ok tt.
End Report.

(** ** Signing: [sign_script] of [psign-portable-core] *)

(** The digest that [script_authenticode_spc_indirect_data] puts in the
    signature. *)
Definition script_signing_digest `{DigestOracle} (script : bytes) (kind : PeAuthenticodeHashKind)
    : bytes :=
  hash_payload kind (utf16le_bytes (file_utf16_units script)).

(** The begin line, the row prefix and suffix and the end line of a block. *)
Definition block_parts (ext : str) : str * str * str * str :=
  let e := to_ascii_lowercase ext in
  if one_of e ["ps1xml"; "psc1"; "cdxml"] then
    (CRLF ++ chars "<!-- SIG # Begin signature block -->" ++ CRLF, chars "<!-- ",
     chars " -->" ++ CRLF, chars "<!-- SIG # End signature block -->" ++ CRLF)
  else if one_of e ["mof"] then
    (CRLF ++ chars "/* SIG # Begin signature block */" ++ CRLF, chars "/* ",
     chars " */" ++ CRLF, chars "/* SIG # End signature block */" ++ CRLF)
  else
    (CRLF ++ chars "# SIG # Begin signature block" ++ CRLF, chars "# ",
     CRLF, chars "# SIG # End signature block" ++ CRLF).

(** The loop over the chunks; [expect] panics on a chunk that is not UTF-8. *)
Fixpoint push_rows (prefix suffix : str) (block : str) (cs : list bytes) : outcome str :=
  match cs with
  | [] => Ok block
  | chunk :: cs' =>
      s ← unwrap (from_utf8 chunk);
      push_rows prefix suffix (block ++ prefix ++ s ++ suffix) cs'
  end.
Definition format_powershell_signature_block `{Base64} (pkcs7 : bytes) (extension : str)
    : outcome str :=
  let bs := encode_utf8 (b64_encode pkcs7) in
  let '(begin, line_prefix, line_suffix, end_) := block_parts extension in
  block ← push_rows line_prefix line_suffix begin (chunks (length bs) 64 bs);
  Ok (block ++ end_).

Definition append_script_signature_block (script : bytes) (block : str) : bytes :=
  if bytes_start_with script [0xFF; 0xFE] then script ++ u16_le_bytes (encode_utf16 block)
  else if bytes_start_with script [0xFE; 0xFF] then script ++ u16_be_bytes (encode_utf16 block)
  else script ++ encode_utf8 block.

(** ** Removing: [src/portable_remove.rs] *)

Inductive ScriptEncoding := Utf8 (bom : bool) | Utf16Le | Utf16Be.
#[export] Instance script_encoding_eq_dec : EqDecision ScriptEncoding.
Proof. solve_decision. Defined.

Definition decode_utf16_script (bs : bytes) (little_endian : bool) : outcome str :=
  bail_if (negb (len bs mod 2 =? 0)) "UTF-16 script has an odd byte length";;
  ok_or (from_utf16 (if little_endian then le_u16s bs else be_u16s bs)) "invalid UTF-16 script".

Definition script_decode (bs : bytes) : outcome (str * ScriptEncoding) :=
  if bytes_start_with bs [0xEF; 0xBB; 0xBF] then
    s ← ok_or (from_utf8 (drop 3 bs)) "invalid UTF-8 with BOM"; Ok (s, Utf8 true)
  else if bytes_start_with bs [0xFF; 0xFE] then
    s ← decode_utf16_script (drop 2 bs) true; Ok (s, Utf16Le)
  else if bytes_start_with bs [0xFE; 0xFF] then
    s ← decode_utf16_script (drop 2 bs) false; Ok (s, Utf16Be)
  else
    s ← ok_or (from_utf8 bs) "invalid UTF-8 script"; Ok (s, Utf8 false).

Definition script_encode (e : ScriptEncoding) (content : str) : bytes :=
  match e with
  | Utf8 bom => (if bom then byte_of <$> [0xEF; 0xBB; 0xBF] else []) ++ encode_utf8 content
  | Utf16Le => (byte_of <$> [0xFF; 0xFE]) ++ u16_le_bytes (encode_utf16 content)
  | Utf16Be => (byte_of <$> [0xFE; 0xFF]) ++ u16_be_bytes (encode_utf16 content)
  end.

(** The family by an extension that is in lower case already. *)
Definition family_of (ext : str) : MarkerFamily :=
  if one_of ext ["ps1xml"; "psc1"; "cdxml"] then Xml
  else if one_of ext ["mof"] then Mof else Hash.

(** The base64 text of a row of a block, exactly as signing writes it. *)
Definition row_payload (family : MarkerFamily) (line : str) : option str :=
  match family with
  | Xml => x ← strip_prefix (chars "<!-- ") line; strip_suffix (chars " -->") x
  | Mof => x ← strip_prefix (chars "/* ") line; strip_suffix (chars " */") x
  | Hash => strip_prefix (chars "# ") line
  end.
Fixpoint block_payload (family : MarkerFamily) (ls : list str) (payload : str) : option str :=
  match ls with
  | [] => Some payload
  | line :: ls' =>
      encoded ← row_payload family line;
      block_payload family ls' (payload ++ encoded)
  end.
Definition is_authenticode_signature_block `{Base64} (body ext : str) : bool :=
  match block_payload (family_of ext) (filter (λ l, l ≠ []) (trim <$> lines body)) [] with
  | None => false
  | Some payload => negb (bool_decide (payload = [])) && bool_decide (is_Some (b64_decode payload))
  end.

Definition remove_script_signature_block `{Base64} (content ext : str) : option str :=
  let begin := begin_marker (family_of ext) in
  let end_ := end_marker (family_of ext) in
  begin_at ← rfind content begin;
  e ← find (sub content (begin_at + len begin) (len content)) end_;
  let end_at := e + begin_at + len begin in
  let after_end := end_at + len end_ in
  if negb (bool_decide (trim (sub content after_end (len content)) = [])) ||
     negb (is_authenticode_signature_block (sub content (begin_at + len begin) end_at) ext)
  then None
  else
    let remove_start :=
      if ends_with (sub content 0 begin_at) CRLF then begin_at - 2
      else if ends_with (sub content 0 begin_at) [10] then begin_at - 1 else begin_at in
    let remove_end :=
      if starts_with (sub content after_end (len content)) CRLF then after_end + 2
      else if starts_with (sub content after_end (len content)) [10] then after_end + 1
      else after_end in
    Some (sub content 0 remove_start ++ sub content remove_end (len content)).

(** The new contents of a script, or [None] when there is nothing to remove. *)
Definition remove_powershell_signature `{Base64} (bs : bytes) (ext : str) : outcome (option bytes) :=
  '(content, encoding) ← with_context (script_decode bs) "decode PowerShell script '{}'";
  Ok (script_encode encoding <$> remove_script_signature_block content ext).

Definition remove_pe_signature (bs : bytes) : outcome (option bytes) :=
  '(unsigned, removed_count) ← with_context (pe_remove_authenticode_certificates bs)
    "remove PE/WinMD Authenticode signature from '{}'";
  Ok (if 0 <? removed_count then Some unsigned else None).

Definition is_pe_winmd_extension (ext : str) : bool :=
  one_of ext ["exe"; "dll"; "sys"; "ocx"; "efi"; "winmd"].
Definition extension_lower (path : str) : str :=
  default [] (to_ascii_lowercase <$> path_extension path).

Record RemoveArgs := mk_RemoveArgs {
  strip_signature : bool; strip_chain_except_signer : bool;
  strip_unauthenticated_attributes : bool; files : list str }.

(** The file system: the contents of the files that can be read; a write
    replaces a file's contents. *)
Abbreviation store := (gmap str bytes).

(** One file: the store after it, and whether a signature was removed. *)
Definition remove_file `{Base64} (fs : store) (path : str) : store * outcome bool :=
  let ext := extension_lower path in
  let removal (f : bytes → outcome (option bytes)) : store * outcome bool :=
    match bs ← ok_or (fs !! path) "read '{}'"; f bs with
    | Ok (Some unsigned) => (<[path := unsigned]> fs, Ok true)
    | Ok None => (fs, Ok false)
    | Err e => (fs, Err e)
    | Panic => (fs, Panic)
    end in
  if is_pe_winmd_extension ext then removal remove_pe_signature
  else if extension_supported ext then removal (λ bs, remove_powershell_signature bs ext)
  else (fs, Err "portable remove supports PE/WinMD and PowerShell Authenticode scripts (.ps1, .psd1, .psm1, .ps1xml, .psc1, .cdxml, .mof); got {}").

Definition removed_line (removed : bool) (path : str) : str :=
  chars (if removed then "Removed embedded Authenticode data from "
         else "No embedded Authenticode data found in ") ++ path ++ [10].

Fixpoint remove_files `{Base64} (fs : store) (paths : list str) (quiet : bool) (output : str)
    : store * outcome str :=
  match paths with
  | [] => (fs, Ok output)
  | path :: paths' =>
      match remove_file fs path with
      | (fs', Ok removed) =>
          remove_files fs' paths' quiet
            (if quiet then output else output ++ removed_line removed path)
      | (fs', Err e) => (fs', Err e)
      | (fs', Panic) => (fs', Panic)
      end
  end.
Definition remove_command `{Base64} (fs : store) (args : RemoveArgs) (quiet : bool)
    : store * outcome str :=
  if negb (strip_signature args) || strip_chain_except_signer args
     || strip_unauthenticated_attributes args
  then (fs, Err "portable remove supports only --strip-signature (/s); partial embedded CMS removal (/c or /u) requires Windows mode")
  else remove_files fs (files args) quiet [].

(** ** The text of a signed script *)

Definition with_crlf (ls : list (list Z)) : list Z := concat ((λ l, l ++ CRLF) <$> ls).
(** A script [s] with a signature block whose rows are [ls]. *)
Definition signed_text (f : MarkerFamily) (s : list Z) (ls : list (list Z)) : list Z :=
  s ++ CRLF ++ begin_marker f ++ CRLF ++ with_crlf ls ++ end_marker f ++ CRLF.
Definition no_marker (f : MarkerFamily) (l : list Z) : Prop :=
  (13 ∉ l) ∧ contains l (end_marker f) = false.

Lemma marker_props f :
  (10 ∉ begin_marker f) ∧ (13 ∉ begin_marker f) ∧ (10 ∉ end_marker f) ∧ (13 ∉ end_marker f) ∧
  begin_marker f ≠ [] ∧ end_marker f ≠ [] ∧ contains (begin_marker f) (end_marker f) = false ∧
  contains (end_marker f) (begin_marker f) = false.
Proof. destruct f; by apply (bool_decide_unpack _); vm_compute. Qed.
Lemma marker_ascii f :
  Forall (λ c, is_ascii c = true) (begin_marker f) ∧ Forall (λ c, is_ascii c = true) (end_marker f).
Proof. by destruct f; split; apply forallb_Forall. Qed.

Lemma find_self n c : find (n ++ c) n = Some 0.
Proof.
  apply find_Some. split; [by exists [], c|]. intros j Hj Ho%occurs_range. lia.
Qed.
Lemma find_skip_crlf a b n : 10 ∉ n → 13 ∉ n → n ≠ [] → contains a n = false →
  find (a ++ CRLF ++ b) n = (λ k, len a + 2 + k) <$> find b n.
Proof.
  intros H10 H13 Hn Ha. change (CRLF ++ b) with (13 :: 10 :: b).
  rewrite find_skip by done. pose proof (find_skip [] 10 b n H10 Hn) as E. cbn [app] in E.
  rewrite E by (by destruct n). destruct (find b n); cbn; f_equal. rewrite len_nil. lia.
Qed.

Lemma find_end_rows f ls c :
  Forall (no_marker f) ls → find (with_crlf ls ++ end_marker f ++ c) (end_marker f) = Some (len (with_crlf ls)).
Proof.
  destruct (marker_props f) as (_ & _ & H10 & H13 & _ & Hne & _).
  induction 1 as [|l ls [Hl Hc] _ IH]; [exact (find_self (end_marker f) c)|].
  unfold with_crlf in *. cbn [fmap list_fmap concat]. rewrite <-!app_assoc, find_skip_crlf by done.
  rewrite IH. cbn. f_equal. rewrite !len_app, !len_cons. lia.
Qed.
Lemma find_end_marker f ls c :
  Forall (no_marker f) ls →
  find (begin_marker f ++ CRLF ++ with_crlf ls ++ end_marker f ++ c) (end_marker f)
  = Some (len (begin_marker f) + 2 + len (with_crlf ls)).
Proof.
  intros H. destruct (marker_props f) as (_ & _ & H10 & H13 & _ & Hne & Hb & _).
  by rewrite find_skip_crlf, find_end_rows by done.
Qed.
Lemma find_begin_marker f s r :
  contains s (begin_marker f) = false →
  find (s ++ CRLF ++ begin_marker f ++ r) (begin_marker f) = Some (len s + 2).
Proof.
  intros Hs. destruct (marker_props f) as (H10 & H13 & _ & _ & Hne & _).
  rewrite find_skip_crlf, find_self by done. cbn. f_equal. lia.
Qed.

Lemma find_subslice_Some h n k : n ≠ [] → find h n = Some k → find_subslice h n = Some k.
Proof.
  intros Hn Hf. unfold find_subslice. rewrite bool_decide_eq_false_2 by done.
  pose proof (proj1 (find_Some _ _ _) Hf) as [Ho%occurs_range _]. run. done.
Qed.
Lemma encode_utf16_app s t : encode_utf16 (s ++ t) = encode_utf16 s ++ encode_utf16 t.
Proof. apply bind_app. Qed.
Lemma encode_utf16_ascii s : Forall (λ c, is_ascii c = true) s → encode_utf16 s = s.
Proof.
  intros H. apply encode_utf16_bmp. eapply Forall_impl; [exact H|]. unfold is_ascii. intros c Hc. zbool. lia.
Qed.

(** Stripping removes the block, with the line break in front of it. *)
Lemma strip_signed_text f s ls :
  contains s (begin_marker f) = false → Forall (no_marker f) ls →
  strip_signature_region_utf16 (signed_text f s ls) f = Ok s.
Proof.
  intros Hs Hls. destruct (marker_props f) as (_ & _ & _ & _ & Hbn & Hen & _).
  destruct (marker_ascii f) as [Hba Hea].
  unfold strip_signature_region_utf16, markers.
  rewrite !encode_utf16_app, !(encode_utf16_ascii (begin_marker f)), !(encode_utf16_ascii (end_marker f)) by done.
  change (encode_utf16 CRLF) with CRLF.
  set (units := signed_text f s ls).
  assert (find_subslice units (CRLF ++ begin_marker f ++ CRLF) = Some (len s)) as ->.
  { apply find_subslice_Some; [done|]. apply (find_around _ _ CRLF CRLF).
    - change (len CRLF) with 2. by apply find_begin_marker.
    - exists s, (with_crlf ls ++ end_marker f ++ CRLF). split; [|done].
      unfold units, signed_text. by rewrite <-!app_assoc. }
  cbn [ok_or mbind outcome_bind].
  assert (sub units (len s) (len units) = CRLF ++ begin_marker f ++ CRLF ++ with_crlf ls ++ end_marker f ++ CRLF) as ->.
  { unfold units, signed_text. rewrite len_app, sub_app_r, Z.sub_diag by (pose proof (len_nonneg s); lia).
    by replace (len s + _ - len s) with (len (CRLF ++ begin_marker f ++ CRLF ++ with_crlf ls ++ end_marker f ++ CRLF)) by lia;
      rewrite sub_full. }
  set (tail := CRLF ++ _).
  assert (find tail (end_marker f) = Some (len (CRLF ++ begin_marker f ++ CRLF ++ with_crlf ls))) as Hf.
  { destruct (marker_props f) as (_ & _ & H10 & H13 & _). unfold tail.
    pose proof (find_skip_crlf [] (begin_marker f ++ CRLF ++ with_crlf ls ++ end_marker f ++ CRLF) _ H10 H13 Hen) as E.
    cbn [app] in E. rewrite E by (by destruct f). rewrite find_end_marker by done. cbn [fmap option_fmap option_map].
    f_equal. rewrite !len_app, len_nil. change (len CRLF) with 2. lia. }
  rewrite (find_subslice_Some _ _ (len (CRLF ++ begin_marker f ++ CRLF ++ with_crlf ls))).
  2: by destruct f.
  2: { apply (find_around _ _ [] CRLF); [by rewrite len_nil, Z.add_0_r|].
       exists (CRLF ++ begin_marker f ++ CRLF ++ with_crlf ls), []. split; [|done].
       unfold tail. by rewrite <-!app_assoc, app_nil_r. }
  cbn [ok_or mbind outcome_bind option_bind]. f_equal.
  unfold units, signed_text. pose proof (len_nonneg s).
  rewrite sub_app_l, sub_full by lia. rewrite sub_nil_range; [by rewrite app_nil_r|].
  rewrite !len_app. lia.
Qed.

(** The lines of the block are its marker lines and its rows. *)
Lemma lines_block f ls :
  Forall (λ l, 10 ∉ l) ls →
  lines (begin_marker f ++ CRLF ++ with_crlf ls ++ end_marker f) = begin_marker f :: ls ++ [end_marker f].
Proof.
  intros H. destruct (marker_props f) as (Hb & _ & He & _ & _ & Hne & _).
  change (begin_marker f ++ CRLF ++ ?r) with (begin_marker f ++ 13 :: 10 :: r).
  rewrite lines_crlf by done. f_equal.
  induction H as [|l ls Hl _ IH]; [by apply lines_single|].
  unfold with_crlf in *. cbn [fmap list_fmap concat]. rewrite <-!app_assoc.
  change (l ++ CRLF ++ ?r) with (l ++ 13 :: 10 :: r). rewrite lines_crlf by done.
  cbn [app]. by rewrite IH.
Qed.
Lemma marker_no_token f : line_token f (begin_marker f) = None ∧ line_token f (end_marker f) = None.
Proof. by destruct f; vm_compute. Qed.

(** What is read from the block of a signed text. *)
Definition block_base64 (f : MarkerFamily) (ls : list str) : str := concat (omap (line_token f) ls).

Lemma extract_signed_text `{Base64} raw f s ls :
  from_utf16_lossy (subject_units raw) = signed_text f s ls →
  contains s (begin_marker f) = false → Forall (no_marker f) ls → Forall (λ l, 10 ∉ l) ls →
  extract_pkcs7_der_from_script raw f =
    if bool_decide (block_base64 f ls = []) then Err "no base64 tokens parsed inside signature block"
    else ok_or (b64_decode (trim (block_base64 f ls))) "base64 decode: {e}".
Proof.
  intros Hraw Hs Hls Hlf. unfold extract_pkcs7_der_from_script. rewrite Hraw.
  assert (find (signed_text f s ls) (begin_marker f) = Some (len s + 2)) as -> by (by apply find_begin_marker).
  cbn [ok_or mbind outcome_bind].
  assert (sub (signed_text f s ls) (len s + 2) (len (signed_text f s ls))
    = begin_marker f ++ CRLF ++ with_crlf ls ++ end_marker f ++ CRLF) as ->.
  { unfold signed_text. rewrite app_assoc. assert (len (s ++ CRLF) = len s + 2) as Hl by (by rewrite len_app).
    set (r := begin_marker f ++ _). pose proof (len_nonneg s). pose proof (len_nonneg r).
    rewrite <-Hl, (len_app (s ++ CRLF) r), sub_app_r, Z.sub_diag by lia.
    replace (len (s ++ CRLF) + len r - len (s ++ CRLF)) with (len r) by lia. apply sub_full. }
  rewrite find_end_marker by done. cbn [ok_or mbind outcome_bind].
  assert (sub (begin_marker f ++ CRLF ++ with_crlf ls ++ end_marker f ++ CRLF) 0
            (len (begin_marker f) + 2 + len (with_crlf ls) + len (end_marker f))
    = begin_marker f ++ CRLF ++ with_crlf ls ++ end_marker f) as ->.
  { replace (begin_marker f ++ CRLF ++ with_crlf ls ++ end_marker f ++ CRLF)
      with ((begin_marker f ++ CRLF ++ with_crlf ls ++ end_marker f) ++ CRLF) by (by rewrite <-!app_assoc).
    set (r := begin_marker f ++ _).
    replace (_ + len (end_marker f)) with (len r).
    2: { unfold r. rewrite !len_app. change (len CRLF) with 2. lia. }
    by rewrite sub_app_l, sub_full by lia. }
  rewrite lines_block by done. destruct (marker_no_token f) as [Hb He].
  cbn [omap list_omap]. rewrite Hb, omap_app. cbn [omap list_omap]. rewrite He, app_nil_r.
  fold (block_base64 f ls). case_bool_decide; done.
Qed.

(** ** Encodings of a script *)

(** The text the digest check sees, and the one that is hashed to sign. *)
Definition subject (e : ScriptEncoding) (t : str) : str :=
  match e with Utf8 false | Utf16Be => t | _ => 0xFEFF :: t end.
Definition signing_subject (e : ScriptEncoding) (t : str) : str :=
  match e with Utf8 true => 0xFEFF :: t | _ => t end.

Lemma utf8_no_utf16_bom s :
  scalars s → bytes_start_with (encode_utf8 s) [0xFF; 0xFE] = false ∧
              bytes_start_with (encode_utf8 s) [0xFE; 0xFF] = false.
Proof.
  intros Hs. unfold bytes_start_with. change (length _) with 2%nat. split; apply bool_decide_eq_false; intros Heq.
  all: assert (∃ b r, encode_utf8 s = b :: r ∧ (b = byte_of 0xFF ∨ b = byte_of 0xFE)) as (b & r & Hb & Hbb)
         by (destruct (encode_utf8 s) as [|b r]; [done|]; exists b, r; injection Heq as -> _; by eauto).
  all: destruct Hs as [|c s Hc _]; [done|]; apply is_scalar_spec in Hc;
    change (encode_utf8 (c :: s)) with (encode_utf8_char c ++ encode_utf8 s) in Hb;
    unfold encode_utf8_char in Hb; revert Hb; ztests; intros Hb; injection Hb as Hb _;
    apply (f_equal u8) in Hb; rewrite u8_of in Hb; destruct Hbb as [-> | ->]; rewrite u8_of in Hb; lia.
Qed.
Lemma bytes_start_with_app a p b : length a = length p → bytes_start_with (a ++ b) p = bool_decide (a = byte_of <$> p).
Proof. intros Hl. unfold bytes_start_with. by rewrite <-Hl, take_app_length. Qed.
Lemma utf8_bom t : (byte_of <$> [0xEF; 0xBB; 0xBF]) ++ encode_utf8 t = encode_utf8 (0xFEFF :: t).
Proof. done. Qed.

(** The bytes of an encoded script, by their encoding. *)
Lemma script_encode_bom e t :
  scalars t →
  bytes_start_with (script_encode e t) [0xFF; 0xFE] = bool_decide (e = Utf16Le) ∧
  bytes_start_with (script_encode e t) [0xFE; 0xFF] = bool_decide (e = Utf16Be).
Proof.
  intros Ht. destruct e as [[]| |]; cbn [script_encode app].
  - apply (utf8_no_utf16_bom (0xFEFF :: t)). by apply Forall_cons_2.
  - by apply utf8_no_utf16_bom.
  - by rewrite !bytes_start_with_app.
  - by rewrite !bytes_start_with_app.
Qed.
Lemma file_units_encode e t :
  scalars t → file_utf16_units (script_encode e t) = encode_utf16 (signing_subject e t).
Proof.
  intros Ht. destruct (script_encode_bom e t Ht) as [Hle Hbe]. unfold file_utf16_units. rewrite Hle, Hbe.
  pose proof (encode_utf16_units t Ht) as Hu.
  assert (∀ (a b : byte) r, drop 2 ([a; b] ++ r) = r) as Hd by done.
  destruct e as [[]| |]; cbn [script_encode signing_subject].
  - rewrite !bool_decide_eq_false_2, !andb_false_r, utf8_bom, from_utf8_lossy_encode by done || by apply Forall_cons_2.
    done.
  - rewrite !bool_decide_eq_false_2, !andb_false_r by done. cbn [app]. by rewrite from_utf8_lossy_encode.
  - rewrite len_app, bool_decide_eq_true_2 by done. change (len (byte_of <$> [0xFF; 0xFE])) with 2.
    pose proof (len_nonneg (u16_le_bytes (encode_utf16 t))). run.
    cbn [fmap list_fmap]. rewrite Hd. by apply le_u16s_bytes.
  - rewrite len_app, bool_decide_eq_false_2, bool_decide_eq_true_2, andb_false_r by done.
    change (len (byte_of <$> [0xFE; 0xFF])) with 2.
    pose proof (len_nonneg (u16_be_bytes (encode_utf16 t))). run.
    cbn [fmap list_fmap]. rewrite Hd. by apply be_u16s_bytes.
Qed.
Lemma subject_units_encode e t :
  scalars t → subject_units (script_encode e t) = encode_utf16 (subject e t).
Proof.
  intros Ht. unfold subject_units. rewrite file_units_encode by done.
  destruct (script_encode_bom e t Ht) as [-> _]. by destruct e as [[]| |].
Qed.

(** ** ASCII patterns in UTF-16 *)

Lemma strip_prefix_utf16 n t : Forall (λ c, is_ascii c = true) n → scalars t →
  is_Some (strip_prefix n (encode_utf16 t)) → is_Some (strip_prefix n t).
Proof.
  intros Hn Ht. revert t Ht. induction Hn as [|x n Hx _ IH]; intros t Ht H; [by eexists|].
  destruct Ht as [|c t Hc Ht]; [done|]. apply is_scalar_spec in Hc. unfold is_ascii in Hx. zbool.
  change (encode_utf16 (c :: t)) with (encode_utf16_char c ++ encode_utf16 t) in H.
  unfold encode_utf16_char in H. revert H. cbn [strip_prefix].
  destruct (Z.ltb_spec c 0x10000) as [Hlt|Hlt]; cbn [app strip_prefix]; intros H.
  - destruct (Z.eqb_spec x c); [by apply IH|done].
  - destruct H as [r H]. by rewrite (proj2 (Z.eqb_neq x _)) in H by lia.
Qed.
Lemma occurs_utf16 n t k : Forall (λ c, is_ascii c = true) n → n ≠ [] → scalars t →
  occurs (encode_utf16 t) n k → ∃ j, occurs t n j.
Proof.
  intros Hn Hne Ht. revert k. induction Ht as [|c t Hc Ht IH]; intros k H.
  { apply occurs_nil in H as [-> _]. done. }
  assert ((∃ j, occurs t n j) → ∃ j, occurs (c :: t) n j) as Htl.
  { intros [j Hj]. exists (j + 1). apply occurs_cons. right. pose proof (occurs_range _ _ _ Hj).
    split; [lia|]. by replace (j + 1 - 1) with j by lia. }
  change (encode_utf16 (c :: t)) with (encode_utf16_char c ++ encode_utf16 t) in H.
  pose proof (strip_prefix_utf16 n (c :: t) Hn (Forall_cons_2 _ _ _ Hc Ht)) as Hsp.
  change (encode_utf16 (c :: t)) with (encode_utf16_char c ++ encode_utf16 t) in Hsp.
  apply is_scalar_spec in Hc. unfold encode_utf16_char in *.
  destruct (Z.ltb_spec c 0x10000) as [Hlt|Hlt]; cbn [app] in *; apply occurs_cons in H as [[_ Hp]|[_ H]].
  - exists 0. apply occurs_cons. left. by auto.
  - by apply Htl, (IH _ H).
  - exists 0. apply occurs_cons. left. by auto.
  - apply occurs_cons in H as [[_ Hp]|[_ H]]; [|by apply Htl, (IH _ H)]. exfalso.
    destruct Hn as [|x n Hx _]; [done|]. destruct Hp as [r Hp]. unfold is_ascii in Hx. zbool.
    cbn [strip_prefix] in Hp. by rewrite (proj2 (Z.eqb_neq x _)) in Hp by lia.
Qed.
Lemma contains_utf16 n t : Forall (λ c, is_ascii c = true) n → n ≠ [] → scalars t →
  contains t n = false → contains (encode_utf16 t) n = false.
Proof.
  rewrite !contains_false. intros Hn Hne Ht H k Ho. by apply occurs_utf16 in Ho as [j ?%H].
Qed.
Lemma utf16_notin t x : is_ascii x = true → scalars t → x ∉ t → x ∉ encode_utf16 t.
Proof.
  intros Hx Ht Hn (c & Hin & Hc)%list_elem_of_bind. unfold is_ascii in Hx. zbool.
  eapply Forall_forall in Ht as Hs; [|done]. apply is_scalar_spec in Hs.
  unfold encode_utf16_char in Hin. destruct (Z.ltb_spec c 0x10000) as [Hlt|Hlt].
  - apply list_elem_of_singleton in Hin as ->. done.
  - rewrite !elem_of_cons, elem_of_nil in Hin. lia.
Qed.

Lemma encode_signed_text f s ls :
  encode_utf16 (signed_text f s ls) = signed_text f (encode_utf16 s) (encode_utf16 <$> ls).
Proof.
  unfold signed_text. destruct (marker_ascii f) as [Hb He].
  rewrite !encode_utf16_app, (encode_utf16_ascii (begin_marker f)), (encode_utf16_ascii (end_marker f)) by done.
  change (encode_utf16 CRLF) with CRLF. do 4 f_equal. unfold with_crlf.
  f_equal. induction ls as [|l ls IH]; [done|]. cbn [fmap list_fmap concat].
  by rewrite !encode_utf16_app, IH.
Qed.

(** A row the signature block may hold, whatever it says. *)
Record row_ok (f : MarkerFamily) (l : str) : Prop := {
  ro_scalars : scalars l;
  ro_line : (10 ∉ l) ∧ (13 ∉ l);
  ro_end : contains l (end_marker f) = false }.

Lemma rows_no_marker f ls : Forall (row_ok f) ls →
  Forall (no_marker f) ls ∧ Forall (no_marker f) (encode_utf16 <$> ls) ∧ Forall (λ l, 10 ∉ l) ls ∧
  scalars (with_crlf ls).
Proof.
  destruct (marker_ascii f) as [_ He]. destruct (marker_props f) as (_ & _ & _ & _ & _ & Hne & _).
  induction 1 as [|l ls [Hs [H10 H13] Hc] _ (IH1 & IH2 & IH3 & IH4)]; [by repeat constructor|].
  split; [by apply Forall_cons_2|]. split; [|split].
  - apply Forall_cons_2; [|done]. split; [by apply utf16_notin|by apply contains_utf16].
  - by apply Forall_cons_2.
  - unfold with_crlf in *. cbn [fmap list_fmap concat]. apply Forall_app. split; [|done].
    apply Forall_app. split; [done|]. by apply forallb_Forall.
Qed.
Lemma signed_text_scalars f s ls : scalars s → scalars (with_crlf ls) → scalars (signed_text f s ls).
Proof.
  intros Hs Hl. destruct (marker_ascii f) as [Hb He]. unfold signed_text. rewrite !Forall_app.
  split_and!; try done; try by apply forallb_Forall. all: by apply ascii_scalars.
Qed.
Lemma subject_signed_text e f s ls : subject e (signed_text f s ls) = signed_text f (subject e s) ls.
Proof. by destruct e as [[]| |]. Qed.
Lemma subject_scalars e s : scalars s → scalars (subject e s).
Proof. intros Hs. destruct e as [[]| |]; try done; by apply Forall_cons_2. Qed.
Lemma subject_contains e f s :
  contains s (begin_marker f) = false → contains (subject e s) (begin_marker f) = false.
Proof.
  intros Hs. assert (contains (0xFEFF :: s) (begin_marker f) = false) as H.
  { apply (contains_split [] 0xFEFF); try done; try by destruct f. by destruct f; apply (bool_decide_unpack _); vm_compute. }
  by destruct e as [[]| |].
Qed.


(** ** The digest report of a signed script, whatever its rows are *)

Lemma one_of_app e l1 l2 : one_of e (l1 ++ l2) = one_of e l1 || one_of e l2.
Proof.
  unfold one_of. rewrite fmap_app, <-bool_decide_or. apply bool_decide_ext, elem_of_app.
Qed.
Lemma families ext f : marker_family ext = Ok f →
  extension_supported (to_ascii_lowercase ext) = true ∧
  marker_family (to_ascii_lowercase ext) = Ok f ∧ family_of (to_ascii_lowercase ext) = f ∧
  block_parts ext =
    (CRLF ++ begin_marker f ++ CRLF,
     match f with Hash => chars "# " | Xml => chars "<!-- " | Mof => chars "/* " end,
     match f with Hash => [] | Xml => chars " -->" | Mof => chars " */" end ++ CRLF,
     end_marker f ++ CRLF).
Proof.
  unfold marker_family, extension_supported, family_of, block_parts. rewrite !lower_idem.
  set (e := to_ascii_lowercase ext).
  change ["ps1"; "psd1"; "psm1"; "ps1xml"; "psc1"; "cdxml"; "mof"]%string
    with (app ["ps1"; "psd1"; "psm1"] (app ["ps1xml"; "psc1"; "cdxml"] ["mof"]))%string.
  rewrite !one_of_app. intros Hf. split; [|split; [done|]].
  - destruct (one_of e _); [done|]. destruct (one_of e _); [done|]. by destruct (one_of e _).
  - assert (one_of e ["ps1"; "psd1"; "psm1"] = true →
      one_of e ["ps1xml"; "psc1"; "cdxml"] = false ∧ one_of e ["mof"] = false) as Hdisj.
    { unfold one_of. rewrite bool_decide_eq_true, !bool_decide_eq_false. intros Hin.
      rewrite !fmap_cons, fmap_nil, !elem_of_cons, elem_of_nil in Hin.
      destruct Hin as [-> | [-> | [-> | []]]]; apply (bool_decide_unpack _); by vm_compute. }
    destruct (one_of e ["ps1"; "psd1"; "psm1"]).
    + destruct (Hdisj eq_refl) as [-> ->]. by injection Hf as <-.
    + clear Hdisj. destruct (one_of e _); [by injection Hf as <-|].
      destruct (one_of e _); [by injection Hf as <-|done].
Qed.

(** What the report makes of the block's text and the hashed units. *)
Definition report_of `{DigestOracle} `{Base64} (pkcs7_digest : bytes → option bytes)
    (b64 : str) (units : list Z) : outcome ScriptAuthenticodeDigestReport :=
  pkcs7 ← (if bool_decide (b64 = []) then Err "no base64 tokens parsed inside signature block"
           else ok_or (b64_decode (trim b64)) "base64 decode: {e}");
  embedded ← ok_or (pkcs7_digest pkcs7) "Authenticode PKCS#7 parse failed: {e}";
  kind ← from_digest_byte_len (len embedded);
  let computed := digest kind (u16_le_bytes units) in
  bail_if (negb (bool_decide (computed = embedded)))
    "script Authenticode digest mismatch (experimental UTF-16 strip heuristic vs PKCS#7)";;
  Ok (mk_report pkcs7 embedded computed).

Section ReportOfSigned.
Context `{DigestOracle} `{Base64} (pkcs7_digest : bytes → option bytes).

Lemma report_signed_text e f ext s ls :
  marker_family ext = Ok f → scalars s → contains s (begin_marker f) = false →
  Forall (row_ok f) ls →
  powershell_class_digest_report pkcs7_digest (script_encode e (signed_text f s ls)) ext
  = report_of pkcs7_digest (block_base64 f ls) (encode_utf16 (subject e s)).
Proof.
  intros Hf Hs Hc Hls. destruct (families ext f Hf) as (Hsup & Hfam & _ & _).
  destruct (rows_no_marker f ls Hls) as (Hn & Hnu & Hlf & Hsc).
  destruct (marker_ascii f) as [Hb _]. destruct (marker_props f) as (_ & _ & _ & _ & Hne & _).
  pose proof (signed_text_scalars f s ls Hs Hsc) as Ht.
  pose proof (subject_scalars e s Hs) as Hss. pose proof (subject_contains e f s Hc) as Hsc'.
  set (raw := script_encode e (signed_text f s ls)).
  assert (subject_units raw = encode_utf16 (signed_text f (subject e s) ls)) as Hu
    by (unfold raw; rewrite subject_units_encode, subject_signed_text; done).
  unfold powershell_class_digest_report, report_of. rewrite Hsup, Hfam. cbn [negb bail_if mbind outcome_bind].
  rewrite (extract_signed_text raw f (subject e s) ls);
    [|by rewrite Hu, from_utf16_lossy_encode by (by apply signed_text_scalars)|done..].
  destruct (if bool_decide _ then _ else _) as [pkcs7| |]; [|done..]. cbn [mbind outcome_bind].
  destruct (ok_or (pkcs7_digest pkcs7) _) as [embedded| |]; [|done..]. cbn [mbind outcome_bind].
  destruct (from_digest_byte_len _) as [kind| |]; [|done..]. cbn [mbind outcome_bind].
  rewrite Hu, encode_signed_text, strip_signed_text; [done|by apply contains_utf16|done].
Qed.
End ReportOfSigned.

(** ** The rows signing writes *)

Definition row (f : MarkerFamily) (c : str) : str :=
  match f with Hash => chars "# " | Xml => chars "<!-- " | Mof => chars "/* " end ++ c
  ++ match f with Hash => [] | Xml => chars " -->" | Mof => chars " */" end.
Abbreviation base64_text c := (Forall (λ x, is_base64_char x = true) c) (only parsing).

Lemma base64_plains c : base64_text c → plains c.
Proof. intros H. eapply Forall_impl; [exact H|]. apply base64_plain. Qed.
Lemma base64_notin c x : is_base64_char x = false → base64_text c → x ∉ c.
Proof. intros Hx Hc Hin. eapply Forall_forall in Hc; [|done]. by rewrite Hx in Hc. Qed.

Lemma elem_of_drop_in {A} (x : A) k l : x ∈ drop k l → x ∈ l.
Proof. intros H. rewrite <-(take_drop k l). apply elem_of_app. by right. Qed.
Lemma occurs_lookup h n k i x : occurs h n k → 0 <= i → n !! Z.to_nat i = Some x → h !! Z.to_nat (k + i) = Some x.
Proof.
  intros (a & c & -> & <-) Hi Hx. unfold len. rewrite lookup_app_r by lia.
  replace (Z.to_nat (Z.of_nat (length a) + i) - length a)%nat with (Z.to_nat i) by lia.
  by apply lookup_app_l_Some.
Qed.

(** A row holds neither marker: their second [#], or their only one, is past
    the row's prefix, and base64 has none. *)
Lemma row_no_hash f c n i :
  base64_text c → 2 <= i → n !! Z.to_nat i = Some 35 → contains (row f c) n = false.
Proof.
  intros Hc Hi Hlk. apply contains_false. intros k Ho. pose proof (occurs_range _ _ _ Ho) as [Hk _].
  assert (35 ∉ drop 2 (row f c)) as Hno.
  { pose proof (base64_notin c 35 eq_refl Hc). unfold row. rewrite drop_app, not_elem_of_app. split.
    - destruct f; apply (bool_decide_unpack _); by vm_compute.
    - intros Hin%elem_of_drop_in. rewrite elem_of_app in Hin. destruct Hin as [?|Hin]; [done|].
      revert Hin. destruct f; apply (bool_decide_unpack _); by vm_compute. }
  pose proof (occurs_lookup _ _ _ i 35 Ho ltac:(lia) Hlk) as Hl. apply Hno.
  apply list_elem_of_lookup. exists (Z.to_nat (k + i) - 2)%nat. rewrite lookup_drop, <-Hl. f_equal. lia.
Qed.
Lemma row_no_markers f c : base64_text c →
  contains (row f c) (begin_marker f) = false ∧ contains (row f c) (end_marker f) = false.
Proof.
  intros Hc. set (i := match f with Hash => 6 | Xml => 9 | Mof => 7 end).
  split; apply (row_no_hash _ _ _ i Hc); destruct f; by vm_compute.
Qed.
Lemma row_row_ok f c : base64_text c → row_ok f (row f c).
Proof.
  intros Hc. pose proof (base64_plains c Hc) as Hp. split; [| |by apply row_no_markers].
  - unfold row. rewrite !Forall_app. split_and!; [by destruct f; apply forallb_Forall|by apply ascii_scalars, plains_ascii|].
    by destruct f; apply forallb_Forall.
  - unfold row. rewrite !not_elem_of_app. pose proof (plains_notin c 10 Hp eq_refl). pose proof (plains_notin c 13 Hp eq_refl).
    split; (split; [|split; [done|]]); destruct f; apply (bool_decide_unpack _); by vm_compute.
Qed.

(** The encoded signature in rows of 64 characters. *)
Definition b64_rows `{Base64} (pkcs7 : bytes) : list str :=
  chunks (length (b64_encode pkcs7)) 64 (b64_encode pkcs7).

Lemma chunks_groups (n : nat) fuel (l : str) :
  Z.of_nat n mod 4 = 0 → (0 < n)%nat → len l mod 4 = 0 → Forall (λ c : str, 4 <= len c) (chunks fuel n l).
Proof.
  intros Hn4 Hn. revert l. induction fuel as [|fuel IH]; intros [|x l] Hl; cbn [chunks]; try constructor.
  - unfold len in *. rewrite length_take. cbn [length] in *. lia.
  - apply IH. unfold len in *. rewrite length_drop. lia.
Qed.
Lemma b64_rows_ok `{Base64} pkcs7 :
  Forall (λ c, base64_text c ∧ 4 <= len c) (b64_rows pkcs7) ∧ concat (b64_rows pkcs7) = b64_encode pkcs7.
Proof.
  split; [|by apply chunks_concat; lia]. apply Forall_and. split.
  - eapply Forall_impl; [apply chunks_Forall; [lia|apply b64_alphabet]|]. by intros c [_ ?].
  - apply chunks_groups; [done|lia|apply b64_groups].
Qed.

Lemma row_trim f c : base64_text c → c ≠ [] → trim (row f c) = row f c.
Proof.
  intros Hc Hl. pose proof (base64_plains c Hc) as Hp.
  apply trim_id; intros x s Hs; unfold row in Hs.
  - by destruct f; injection Hs as <- _.
  - destruct f.
    + rewrite app_nil_r in Hs. destruct c as [|y c _] using rev_ind; [done|].
      rewrite app_assoc in Hs. apply app_inj_tail in Hs as [_ <-].
      apply Forall_app in Hp as [_ Hy]. apply Forall_cons in Hy as [Hy _]. by apply plain_props.
    + rewrite app_assoc in Hs. change (chars " -->") with (chars " --" ++ [62]) in Hs.
      rewrite app_assoc in Hs. by apply app_inj_tail in Hs as [_ <-].
    + rewrite app_assoc in Hs. change (chars " */") with (chars " *" ++ [47]) in Hs.
      rewrite app_assoc in Hs. by apply app_inj_tail in Hs as [_ <-].
Qed.
Lemma row_token f c : base64_text c → 4 <= len c → line_token f (row f c) = Some c.
Proof.
  intros Hc Hl. pose proof (base64_plains c Hc) as Hp.
  assert (trim (row f c) = row f c) as Ht by (apply row_trim; [done|]; intros ->; by rewrite len_nil in Hl).
  unfold line_token. rewrite Ht.
  assert (looks_like_b64_token c = true) as Hb.
  { unfold looks_like_b64_token. rewrite byte_len_ascii by (by apply plains_ascii). run.
    by apply Forall_forallb. }
  assert (∀ s, trim (32 :: c ++ s) = trim (c ++ s)) as Hsp by done.
  assert (trim (c ++ [32]) = c) as Hend.
  { unfold trim. rewrite trim_start_head.
    - unfold trim_end_matches. rewrite rev_app_distr. cbn [rev app].
      change (trim_start_matches is_whitespace (32 :: @rev Z c)) with (trim_start_matches is_whitespace (@rev Z c)).
      rewrite <-(plains_trim c Hp) at 2. unfold trim, trim_end_matches.
      rewrite (trim_start_head is_whitespace c); [done|].
      intros y s ->. apply Forall_cons in Hp as [Hy _]. by apply plain_props.
    - intros y s Hs. destruct c as [|z c]; [by rewrite len_nil in Hl|]. injection Hs as <- _.
      apply Forall_cons in Hp as [Hy _]. by apply plain_props. }
  unfold row. destruct f.
  - rewrite app_nil_r, strip_prefix_app. cbn [mbind option_bind]. by rewrite plains_trim, Hb by done.
  - change (chars "<!-- " ++ c ++ chars " -->") with (chars "<!--" ++ 32 :: c ++ chars " -->").
    rewrite strip_prefix_app. cbn [mbind option_bind].
    rewrite (proj2 (strip_suffix_Some _ _ (32 :: c ++ [32]))) by (cbn; by rewrite <-app_assoc).
    cbn [mbind option_bind]. by rewrite Hsp, Hend, Hb.
  - change (chars "/* " ++ c ++ chars " */") with (chars "/*" ++ 32 :: c ++ chars " */").
    rewrite strip_prefix_app. cbn [mbind option_bind].
    rewrite (proj2 (strip_suffix_Some _ _ (32 :: c ++ [32]))) by (cbn; by rewrite <-app_assoc).
    cbn [mbind option_bind]. by rewrite Hsp, Hend, Hb.
Qed.

Lemma b64_rows_text `{Base64} f pkcs7 : block_base64 f (row f <$> b64_rows pkcs7) = b64_encode pkcs7.
Proof.
  destruct (b64_rows_ok pkcs7) as [Hr Hc]. rewrite <-Hc. unfold block_base64. f_equal.
  clear Hc. induction Hr as [|c cs [H1 H2] _ IH]; [done|].
  cbn [fmap list_fmap omap list_omap]. by rewrite row_token, IH by done.
Qed.

Lemma push_rows_eq p q block cs :
  Forall (λ c, plains c) cs →
  push_rows p q block ((λ c : str, byte_of <$> c) <$> cs) = Ok (block ++ concat ((λ c, p ++ c ++ q) <$> cs)).
Proof.
  intros Hcs. revert block. induction Hcs as [|c cs Hc _ IH]; intros block; [by rewrite app_nil_r|].
  cbn [fmap list_fmap push_rows]. rewrite from_utf8_plain by done. cbn [unwrap mbind outcome_bind].
  rewrite IH. cbn [concat]. by rewrite <-!app_assoc.
Qed.

(** The block that signing appends. *)
Definition block_text `{Base64} (f : MarkerFamily) (pkcs7 : bytes) : str :=
  CRLF ++ begin_marker f ++ CRLF ++ with_crlf (row f <$> b64_rows pkcs7) ++ end_marker f ++ CRLF.
Lemma format_block_eq `{Base64} ext f pkcs7 :
  marker_family ext = Ok f → format_powershell_signature_block pkcs7 ext = Ok (block_text f pkcs7).
Proof.
  intros Hf. destruct (families ext f Hf) as (_ & _ & _ & Hp).
  unfold format_powershell_signature_block. rewrite Hp.
  pose proof (base64_plains _ (b64_alphabet pkcs7)) as Hpl.
  rewrite encode_utf8_ascii, length_fmap, chunks_fmap by (by apply plains_ascii).
  fold (b64_rows pkcs7). rewrite push_rows_eq.
  2: { destruct (b64_rows_ok pkcs7) as [Hr _]. eapply Forall_impl; [exact Hr|]. intros c [? _]. by apply base64_plains. }
  cbn [mbind outcome_bind]. f_equal. unfold block_text, with_crlf. rewrite <-!app_assoc. do 4 f_equal.
  rewrite <-list_fmap_compose. f_equal. apply list_fmap_ext. intros _ c _. unfold row. cbn [compose].
  by rewrite <-!app_assoc.
Qed.
Lemma signed_text_block `{Base64} f s pkcs7 : signed_text f s (row f <$> b64_rows pkcs7) = s ++ block_text f pkcs7.
Proof. done. Qed.

Lemma append_block_encode e s block :
  scalars s → append_script_signature_block (script_encode e s) block = script_encode e (s ++ block).
Proof.
  intros Hs. unfold append_script_signature_block. destruct (script_encode_bom e s Hs) as [-> ->].
  destruct e as [[]| |]; cbn [script_encode]; [by rewrite encode_utf8_app, <-!app_assoc..| |].
  - rewrite bool_decide_eq_true_2, encode_utf16_app by done. rewrite <-app_assoc. f_equal.
    unfold u16_le_bytes. by rewrite bind_app.
  - rewrite bool_decide_eq_false_2, bool_decide_eq_true_2, encode_utf16_app by done. rewrite <-app_assoc. f_equal.
    unfold u16_be_bytes. by rewrite bind_app.
Qed.
Lemma rows_row_ok `{Base64} f pkcs7 : Forall (row_ok f) (row f <$> b64_rows pkcs7).
Proof.
  apply Forall_fmap. destruct (b64_rows_ok pkcs7) as [Hr _].
  eapply Forall_impl; [exact Hr|]. intros c [? _]. by apply row_row_ok.
Qed.

(** ** Decoding and removing *)

Lemma script_decode_encode e s :
  scalars s → (e = Utf8 false → ∀ r, s ≠ 0xFEFF :: r) → script_decode (script_encode e s) = Ok (s, e).
Proof.
  intros Hs Hb. destruct (script_encode_bom e s Hs) as [Hle Hbe]. unfold script_decode.
  rewrite Hle, Hbe. clear Hle Hbe. destruct (len_u16_bytes (encode_utf16 s)) as [Hl1 Hl2].
  pose proof (encode_utf16_units s Hs). assert (∀ (a b : byte) r, drop 2 ([a; b] ++ r) = r) as Hd by done.
  destruct e as [[]| |]; cbn [script_encode].
  - rewrite bytes_start_with_app, bool_decide_eq_true_2 by done.
    change (drop 3 ((byte_of <$> [0xEF; 0xBB; 0xBF]) ++ encode_utf8 s)) with (encode_utf8 s).
    by rewrite from_utf8_encode.
  - cbn [app]. destruct (encode_utf8_no_bom s Hs (Hb eq_refl)) as (H1 & _).
    unfold bytes_start_with at 1. rewrite bool_decide_eq_false_2.
    2: { unfold sub in H1. by rewrite drop_0 in H1. }
    rewrite !bool_decide_eq_false_2 by done. by rewrite from_utf8_encode.
  - replace (bytes_start_with _ _) with false.
    2: { unfold bytes_start_with. symmetry. apply bool_decide_eq_false. intros [=]. }
    rewrite bool_decide_eq_true_2 by done. cbn [fmap list_fmap]. rewrite Hd.
    unfold decode_utf16_script. rewrite Hl1. run. by rewrite le_u16s_bytes, from_utf16_encode.
  - replace (bytes_start_with _ _) with false.
    2: { unfold bytes_start_with. symmetry. apply bool_decide_eq_false. intros [=]. }
    rewrite bool_decide_eq_false_2, bool_decide_eq_true_2 by done. cbn [fmap list_fmap]. rewrite Hd.
    unfold decode_utf16_script. rewrite Hl2. run. by rewrite be_u16s_bytes, from_utf16_encode.
Qed.

Lemma rows_no_begin `{Base64} f pkcs7 :
  contains (with_crlf (row f <$> b64_rows pkcs7) ++ end_marker f ++ CRLF) (begin_marker f) = false.
Proof.
  destruct (b64_rows_ok pkcs7) as [Hr _]. destruct (marker_props f) as (H10 & H13 & _ & _ & Hne & _ & _ & He).
  assert (∀ a b, contains a (begin_marker f) = false → contains b (begin_marker f) = false →
    contains (a ++ CRLF ++ b) (begin_marker f) = false) as Hcr.
  { intros a b Ha Hb. change (CRLF ++ b) with (13 :: 10 :: b). apply contains_split; [done..|].
    apply (contains_split [] 10); [done..| |done]. by destruct f. }
  induction Hr as [|c cs [Hc _] _ IH].
  - apply (Hcr _ []); [done|by destruct f].
  - unfold with_crlf in *. cbn [fmap list_fmap concat]. rewrite <-!app_assoc. apply Hcr; [|done].
    by apply row_no_markers.
Qed.

Lemma payload_rows f cs acc :
  block_payload f (row f <$> cs) acc = Some (acc ++ concat cs).
Proof.
  revert acc. induction cs as [|c cs IH]; intros acc; cbn [fmap list_fmap block_payload]; [by rewrite app_nil_r|].
  assert (row_payload f (row f c) = Some c) as ->.
  { unfold row, row_payload. destruct f; rewrite ?app_nil_r, strip_prefix_app; [done|..];
      cbn [mbind option_bind]; by apply strip_suffix_Some. }
  cbn [mbind option_bind]. rewrite IH. cbn [concat]. by rewrite app_assoc.
Qed.
Lemma lines_rows ls : Forall (λ l, 10 ∉ l) ls → lines (CRLF ++ with_crlf ls) = [] :: ls.
Proof.
  intros H. change (CRLF ++ ?r) with ([] ++ 13 :: 10 :: r). rewrite lines_crlf by (by intros ?%elem_of_nil). f_equal.
  induction H as [|l ls Hl _ IH]; [done|]. unfold with_crlf in *. cbn [fmap list_fmap concat].
  rewrite <-app_assoc. change (l ++ CRLF ++ ?r) with (l ++ 13 :: 10 :: r). by rewrite lines_crlf, IH.
Qed.
Lemma block_is_signature `{Base64} ext f pkcs7 :
  family_of ext = f → pkcs7 ≠ [] →
  is_authenticode_signature_block (CRLF ++ with_crlf (row f <$> b64_rows pkcs7)) ext = true.
Proof.
  intros Hf Hp. destruct (b64_rows_ok pkcs7) as [Hr Hc]. unfold is_authenticode_signature_block. rewrite Hf.
  destruct (rows_no_marker f _ (rows_row_ok f pkcs7)) as (_ & _ & Hlf & _). rewrite lines_rows by done.
  replace (filter _ _) with (row f <$> b64_rows pkcs7).
  - rewrite payload_rows, Hc. cbn [app]. rewrite b64_roundtrip, bool_decide_eq_false_2 by (by apply b64_nonempty). done.
  - cbn [fmap list_fmap]. rewrite filter_cons_False by (by intros []). clear Hc Hlf.
    induction Hr as [|c cs [H1 H2] _ IH]; [done|]. cbn [fmap list_fmap].
    assert (c ≠ []) by (intros ->; by rewrite len_nil in H2).
    rewrite row_trim, filter_cons_True by (done || by destruct f). by rewrite <-IH.
Qed.

(** Removing the block that signing appended gives the text back. *)
Lemma remove_block_text `{Base64} ext f s pkcs7 :
  family_of ext = f → pkcs7 ≠ [] → remove_script_signature_block (s ++ block_text f pkcs7) ext = Some s.
Proof.
  intros Hf Hp. unfold remove_script_signature_block. rewrite Hf.
  destruct (marker_props f) as (H10 & H13 & He10 & He13 & Hne & Hene & _ & _).
  set (rows := with_crlf (row f <$> b64_rows pkcs7)). set (content := s ++ block_text f pkcs7).
  set (tail := CRLF ++ rows ++ end_marker f ++ CRLF).
  assert (content = (s ++ CRLF) ++ begin_marker f ++ tail) as Hct by (unfold content, block_text; by rewrite <-!app_assoc).
  pose proof (len_nonneg s). pose proof (len_nonneg rows). pose proof (len_nonneg tail).
  pose proof (len_nonneg (begin_marker f)). pose proof (len_nonneg (end_marker f)).
  assert (len (s ++ CRLF) = len s + 2) as Hls by (by rewrite len_app).
  assert (len tail = len rows + len (end_marker f) + 4) as Hlt.
  { unfold tail. rewrite !len_app. change (len CRLF) with 2. lia. }
  assert (len content = len s + 2 + len (begin_marker f) + len tail) as Hlc by (rewrite Hct, !len_app in *; lia).
  assert (rfind content (begin_marker f) = Some (len s + 2)) as ->.
  { apply rfind_Some. split; [exists (s ++ CRLF), tail; by rewrite Hct|]. intros j Hj Ho.
    rewrite Hct in Ho. rewrite app_assoc in Ho. unfold tail in Ho.
    change (CRLF ++ ?r) with (13 :: ([] : str) ++ 10 :: r) in Ho.
    apply occurs_split in Ho as [Ho%occurs_range|Ho]; [rewrite len_app, Hls in Ho; lia| |done..].
    apply occurs_split in Ho as [[? _]%occurs_nil|Ho]; [done| |done..].
    revert Ho. apply (proj1 (contains_false _ _) (rows_no_begin f pkcs7)). }
  cbn [mbind option_bind].
  assert (sub content (len s + 2 + len (begin_marker f)) (len content) = tail) as ->.
  { rewrite Hlc, Hct, app_assoc. rewrite sub_app_r by (rewrite len_app; lia). rewrite len_app, Hls.
    replace (_ - _) with 0 by lia. replace (len s + 2 + _ + _ - _) with (len tail) by lia. apply sub_full. }
  assert (find tail (end_marker f) = Some (len rows + 2)) as ->.
  { unfold tail. pose proof (find_skip_crlf [] (rows ++ end_marker f ++ CRLF) _ He10 He13 Hene) as E. cbn [app] in E.
    rewrite E by (by destruct f). 
    assert (find (rows ++ end_marker f ++ CRLF) (end_marker f) = Some (len rows)) as ->
      by (apply find_end_rows, rows_no_marker, rows_row_ok).
    cbn. f_equal. rewrite len_nil. lia. }
  cbn [mbind option_bind].
  set (after := len rows + 2 + (len s + 2) + len (begin_marker f) + len (end_marker f)).
  assert (sub content after (len content) = CRLF) as Hafter.
  { assert (content = (((s ++ CRLF) ++ begin_marker f) ++ CRLF ++ rows ++ end_marker f) ++ CRLF) as ->
      by (rewrite Hct; unfold tail; by rewrite <-!app_assoc).
    set (x := _ ++ CRLF ++ _). assert (len x = after) as <-.
    { unfold x, after. rewrite !len_app in *. change (len CRLF) with 2. lia. }
    rewrite len_app, sub_app_r by (pose proof (len_nonneg x); lia).
    rewrite Z.sub_diag. replace (len x + _ - len x) with (len CRLF) by lia. apply sub_full. }
  rewrite Hafter.
  assert (sub content (len s + 2 + len (begin_marker f)) (len rows + 2 + (len s + 2) + len (begin_marker f))
    = CRLF ++ rows) as ->.
  { rewrite Hct, app_assoc. rewrite sub_app_r by (rewrite len_app; lia). rewrite len_app, Hls.
    unfold tail. rewrite app_assoc. assert (len (CRLF ++ rows) = len rows + 2) as Hr by (rewrite len_app; change (len CRLF) with 2; lia).
    rewrite sub_app_l by lia. replace (_ - _) with 0 by lia. rewrite <-Hr. replace (_ - _) with (len (CRLF ++ rows)) by lia.
    apply sub_full. }
  unfold rows at 1. rewrite block_is_signature by done.
  change (trim CRLF) with ([] : str). rewrite bool_decide_eq_true_2 by done. cbn [negb orb].
  assert (sub content 0 (len s + 2) = s ++ CRLF) as ->.
  { by rewrite Hct, sub_app_l, <-Hls, sub_full by lia. }
  assert (ends_with (s ++ CRLF) CRLF = true) as ->.
  { apply bool_decide_eq_true. exists s. by apply strip_suffix_Some. }
  change (starts_with CRLF CRLF) with true. cbn match. f_equal.
  rewrite (sub_nil_range content (after + 2)) by (unfold after; lia).
  rewrite app_nil_r. replace (len s + 2 - 2) with (len s) by lia. unfold content.
  by rewrite sub_app_l, sub_full by lia.
Qed.

(** ** The properties of signing *)

Section Signing.
Context `{DigestOracle} `{Base64} (pkcs7_digest : bytes → option bytes).

(** The report of a file that was signed over the digest [d]. *)
Lemma report_appended e ext f s pkcs7 :
  marker_family ext = Ok f → scalars s → contains s (begin_marker f) = false → pkcs7 ≠ [] →
  powershell_class_digest_report pkcs7_digest
    (append_script_signature_block (script_encode e s) (block_text f pkcs7)) ext
  = embedded ← ok_or (pkcs7_digest pkcs7) "Authenticode PKCS#7 parse failed: {e}";
    kind ← from_digest_byte_len (len embedded);
    let computed := digest kind (u16_le_bytes (encode_utf16 (subject e s))) in
    bail_if (negb (bool_decide (computed = embedded)))
      "script Authenticode digest mismatch (experimental UTF-16 strip heuristic vs PKCS#7)";;
    Ok (mk_report pkcs7 embedded computed).
Proof.
  intros Hf Hs Hc Hp. rewrite append_block_encode, <-signed_text_block by done.
  rewrite (report_signed_text pkcs7_digest e f) by (done || by apply rows_row_ok).
  unfold report_of. rewrite b64_rows_text, bool_decide_eq_false_2 by (by apply b64_nonempty).
  by rewrite plains_trim, b64_roundtrip by (apply base64_plains, b64_alphabet).
Qed.

Lemma signing_digest_eq e s kind :
  scalars s → script_signing_digest (script_encode e s) kind
              = digest kind (u16_le_bytes (encode_utf16 (signing_subject e s))).
Proof. intros. unfold script_signing_digest. by rewrite file_units_encode. Qed.
End Signing.

(** C18: What the tool signs, it verifies: a script of any supported extension,
    in UTF-8 with or without a byte order mark or in UTF-16 big endian, that
    holds no signature marker yet, signed with a PKCS#7 over the digest
    computed for signing, gives back that PKCS#7 and passes the digest check. *)
Theorem script_sign_then_verify `{DigestOracle} `{Base64} pkcs7_digest e ext f s kind pkcs7 :
  let script := script_encode e s in
  let d := script_signing_digest script kind in
  marker_family ext = Ok f → e ≠ Utf16Le → scalars s → contains s (begin_marker f) = false →
  pkcs7 ≠ [] → pkcs7_digest pkcs7 = Some d →
  ∃ block, format_powershell_signature_block pkcs7 ext = Ok block ∧
    powershell_class_digest_report pkcs7_digest (append_script_signature_block script block) ext
    = Ok (mk_report pkcs7 d d).
Proof.
  cbn zeta. intros Hf He Hs Hc Hp Hd. exists (block_text f pkcs7). split; [by apply format_block_eq|].
  rewrite (report_appended pkcs7_digest e ext f) by done. rewrite Hd, signing_digest_eq by done.
  cbn [ok_or mbind outcome_bind]. rewrite digest_len, from_digest_byte_len_output.
  cbn [mbind outcome_bind]. assert (signing_subject e s = subject e s) as -> by (by destruct e as [[]| |]).
  by rewrite bool_decide_eq_true_2.
Qed.
Lemma script_sign_then_verify_witness :
  let script := script_encode Utf16Be (chars "Get-Item" ++ [233; 0x1F600]) in
  let d := @script_signing_digest ToyDigest script Sha256 in
  ∃ block, @format_powershell_signature_block StdBase64 (lit "signature") (chars "PS1") = Ok block ∧
    @powershell_class_digest_report ToyDigest StdBase64 (λ _, Some d)
      (append_script_signature_block script block) (chars "PS1")
    = Ok (mk_report (lit "signature") d d).
Proof.
  cbn zeta. apply (@script_sign_then_verify ToyDigest StdBase64 _ Utf16Be (chars "PS1") Hash);
    [reflexivity|discriminate|by apply forallb_Forall|reflexivity|discriminate|reflexivity].
Defined.

(** A UTF-16 little-endian script is signed over one text and checked over
    another: the check puts the byte order mark back in front of the units, the
    digest for signing leaves it out. So unless the hashes of the two texts
    collide, the check refuses what the tool has just signed. *)
Theorem utf16le_signature_refused `{DigestOracle} `{Base64} pkcs7_digest ext f s kind pkcs7 :
  let script := script_encode Utf16Le s in
  let d := script_signing_digest script kind in
  marker_family ext = Ok f → scalars s → contains s (begin_marker f) = false →
  pkcs7 ≠ [] → pkcs7_digest pkcs7 = Some d →
  digest kind (u16_le_bytes (0xFEFF :: encode_utf16 s)) ≠ digest kind (u16_le_bytes (encode_utf16 s)) →
  ∃ block, format_powershell_signature_block pkcs7 ext = Ok block ∧
    powershell_class_digest_report pkcs7_digest (append_script_signature_block script block) ext
    = Err "script Authenticode digest mismatch (experimental UTF-16 strip heuristic vs PKCS#7)".
Proof.
  cbn zeta. intros Hf Hs Hc Hp Hd Hne. exists (block_text f pkcs7). split; [by apply format_block_eq|].
  rewrite (report_appended pkcs7_digest Utf16Le ext f) by done. rewrite Hd, signing_digest_eq by done.
  cbn [ok_or mbind outcome_bind]. rewrite digest_len, from_digest_byte_len_output.
  cbn [mbind outcome_bind]. by rewrite bool_decide_eq_false_2.
Qed.
Lemma utf16le_signature_refused_witness :
  let script := script_encode Utf16Le (chars "Get-Item") in
  let d := @script_signing_digest ToyDigest script Sha256 in
  ∃ block, @format_powershell_signature_block StdBase64 (lit "signature") (chars "ps1") = Ok block ∧
    @powershell_class_digest_report ToyDigest StdBase64 (λ _, Some d)
      (append_script_signature_block script block) (chars "ps1")
    = Err "script Authenticode digest mismatch (experimental UTF-16 strip heuristic vs PKCS#7)".
Proof.
  cbn zeta. apply (@utf16le_signature_refused ToyDigest StdBase64 _ (chars "ps1") Hash _ Sha256);
    [reflexivity|by apply forallb_Forall|reflexivity|discriminate|reflexivity|].
  apply (bool_decide_unpack _). by vm_compute.
Defined.

(** The check does not cover the lines of the signature block: adding any
    lines to it that are not base64 comment rows, such as commands, and that
    hold no end marker, changes neither the PKCS#7 that is read nor the digest
    that is compared, so a verified script stays verified. *)
Theorem block_lines_not_covered `{DigestOracle} `{Base64} pkcs7_digest e ext f s ls1 extra ls2 :
  marker_family ext = Ok f → scalars s → contains s (begin_marker f) = false →
  Forall (row_ok f) (ls1 ++ ls2) →
  Forall (λ l, row_ok f l ∧ line_token f l = None) extra →
  powershell_class_digest_report pkcs7_digest (script_encode e (signed_text f s (ls1 ++ extra ++ ls2))) ext
  = powershell_class_digest_report pkcs7_digest (script_encode e (signed_text f s (ls1 ++ ls2))) ext.
Proof.
  intros Hf Hs Hc [H1 H2]%Forall_app [He1 He2]%Forall_and.
  rewrite !(report_signed_text pkcs7_digest e f) by (done || by rewrite !Forall_app).
  f_equal. unfold block_base64. rewrite !omap_app. f_equal. f_equal.
  induction He2 as [|l extra Hl _ IH]; [done|]. cbn [omap list_omap]. rewrite Hl.
  apply IH. by apply Forall_cons in He1 as [_ ?].
Qed.
Lemma block_lines_not_covered_witness :
  let d := @script_signing_digest ToyDigest (encode_utf8 (chars "Get-Item")) Sha256 in
  let rows := row Hash <$> @b64_rows StdBase64 (lit "signature") in
  @powershell_class_digest_report ToyDigest StdBase64 (λ _, Some d)
    (encode_utf8 (signed_text Hash (chars "Get-Item") ([] ++ [chars "Remove-Item data"] ++ rows))) (chars "ps1")
  = Ok (mk_report (lit "signature") d d).
Proof.
  cbn zeta. trans (@powershell_class_digest_report ToyDigest StdBase64
    (λ _, Some (@script_signing_digest ToyDigest (encode_utf8 (chars "Get-Item")) Sha256))
    (script_encode (Utf8 false) (signed_text Hash (chars "Get-Item") ([] ++ (row Hash <$> @b64_rows StdBase64 (lit "signature")))))
    (chars "ps1")); [|by vm_compute].
  apply (@block_lines_not_covered ToyDigest StdBase64 _ (Utf8 false) (chars "ps1") Hash);
    [reflexivity|by apply forallb_Forall|reflexivity|apply rows_row_ok|].
  apply Forall_cons_2; [|constructor]. split; [|by vm_compute].
  split; [by apply forallb_Forall|split; apply (bool_decide_unpack _); by vm_compute|by vm_compute].
Defined.

(** Signing and removing is the identity: removing the signature the tool
    appended to a script, in any encoding it knows, gives back the script byte
    for byte, whatever the script holds, earlier signature blocks included. *)
Theorem script_sign_then_remove `{Base64} e ext f s pkcs7 :
  marker_family ext = Ok f → scalars s → (e = Utf8 false → ∀ r, s ≠ 0xFEFF :: r) → pkcs7 ≠ [] →
  ∃ block, format_powershell_signature_block pkcs7 ext = Ok block ∧
    remove_powershell_signature (append_script_signature_block (script_encode e s) block)
      (to_ascii_lowercase ext) = Ok (Some (script_encode e s)).
Proof.
  intros Hf Hs Hb Hp. exists (block_text f pkcs7). split; [by apply format_block_eq|].
  destruct (families ext f Hf) as (_ & _ & Hfam & _). destruct (rows_no_marker f _ (rows_row_ok f pkcs7)) as (_ & _ & _ & Hr).
  unfold remove_powershell_signature. rewrite append_block_encode, script_decode_encode.
  - cbn [with_context mbind outcome_bind]. by rewrite (remove_block_text _ f).
  - apply (signed_text_scalars f s (row f <$> b64_rows pkcs7)); done.
  - intros He r Heq. destruct s as [|c s]; [done|]. injection Heq as -> _. by apply (Hb He s).
  - done.
Qed.
Lemma script_sign_then_remove_witness :
  ∃ block, @format_powershell_signature_block StdBase64 (lit "signature") (chars "MOF") = Ok block ∧
    @remove_powershell_signature StdBase64
      (append_script_signature_block (script_encode Utf16Le (chars "instance of x {}" ++ [233])) block)
      (to_ascii_lowercase (chars "MOF"))
    = Ok (Some (script_encode Utf16Le (chars "instance of x {}" ++ [233]))).
Proof.
  apply (@script_sign_then_remove StdBase64 Utf16Le (chars "MOF") Mof);
    [reflexivity|by apply forallb_Forall|discriminate|discriminate].
Defined.

Lemma trim_start_nil f s : trim_start_matches f s = [] → Forall (λ c, f c = true) s.
Proof.
  induction s as [|c s IH]; [constructor|]. cbn. destruct (f c) eqn:E; [|done].
  intros H. apply Forall_cons_2; auto.
Qed.
Lemma trim_nil s : trim s = [] → Forall (λ c, is_whitespace c = true) s.
Proof.
  unfold trim, trim_end_matches. intros H. apply (f_equal (@rev Z)) in H. rewrite rev_involutive in H.
  apply trim_start_nil in H. pose proof (trim_start_head_not is_whitespace s) as Hh.
  destruct (trim_start_matches is_whitespace s) as [|c t] eqn:E; [by apply trim_start_nil|].
  specialize (Hh c t eq_refl). rewrite Forall_forall in H. rewrite H in Hh; [done|].
  apply list_elem_of_In, in_rev. rewrite rev_involutive. by left.
Qed.
Lemma block_payload_rows f ls acc p : block_payload f ls acc = Some p → Forall (λ l, is_Some (row_payload f l)) ls.
Proof.
  revert acc. induction ls as [|l ls IH]; intros acc; [constructor|]. cbn [block_payload].
  destruct (row_payload f l) eqn:E; [|done]. intros H. apply Forall_cons_2; [by rewrite E|by eapply IH].
Qed.

(** A line break that stands before or after the block. *)
Definition line_break (nl : str) : Prop := nl = [] ∨ nl = [10] ∨ nl = CRLF.
Lemma cut_break_before a : ∃ pre nl, a = pre ++ nl ∧ line_break nl ∧
  len pre = (if ends_with a CRLF then len a - 2 else if ends_with a [10] then len a - 1 else len a).
Proof.
  unfold ends_with. case_bool_decide as H1; [|case_bool_decide as H2].
  - destruct H1 as [pre ->%strip_suffix_Some]. exists pre, CRLF. split; [done|]. split; [by right; right|].
    rewrite len_app. change (len CRLF) with 2. lia.
  - destruct H2 as [pre ->%strip_suffix_Some]. exists pre, [10]. split; [done|]. split; [by right; left|].
    rewrite len_app. change (len [10]) with 1. lia.
  - exists a, []. split; [by rewrite app_nil_r|]. split; [by left|done].
Qed.
Lemma cut_break_after r : ∃ nl post, r = nl ++ post ∧ line_break nl ∧
  len nl = (if starts_with r CRLF then 2 else if starts_with r [10] then 1 else 0).
Proof.
  unfold starts_with. case_bool_decide as H1; [|case_bool_decide as H2].
  - destruct H1 as [post ->%strip_prefix_Some]. exists CRLF, post. split; [done|]. by split; [right; right|].
  - destruct H2 as [post ->%strip_prefix_Some]. exists [10], post. split; [done|]. by split; [right; left|].
  - exists [], r. split; [done|]. by split; [left|].
Qed.
Lemma sub_last_part {A} (a b : list A) k n : k = len a → n = len (a ++ b) → sub (a ++ b) k n = b.
Proof.
  intros -> ->. rewrite len_app, <-(app_nil_r (a ++ b)), <-app_assoc. by apply sub_middle.
Qed.
Lemma sub_first_part {A} (a b : list A) k : k = len a → sub (a ++ b) 0 k = a.
Proof. intros ->. pose proof (len_nonneg a). by rewrite sub_app_l, sub_full by lia. Qed.

(** Removal takes out a signature and nothing else: what is removed is one
    block, from a begin marker to the end marker after it with at most a line
    break on either side, in which every line is blank or a comment row of the
    file's kind and whose rows are valid base64, and only white space follows
    it. *)
Theorem removed_is_signature_block `{Base64} content ext unsigned :
  remove_script_signature_block content ext = Some unsigned →
  let f := family_of ext in
  ∃ pre nl1 body nl2 post payload,
    content = pre ++ nl1 ++ begin_marker f ++ body ++ end_marker f ++ nl2 ++ post ∧
    unsigned = pre ++ post ∧ line_break nl1 ∧ line_break nl2 ∧
    Forall (λ c, is_whitespace c = true) post ∧
    Forall (λ l, trim l = [] ∨ is_Some (row_payload f (trim l))) (lines body) ∧
    block_payload f (filter (λ l, l ≠ []) (trim <$> lines body)) [] = Some payload ∧
    payload ≠ [] ∧ is_Some (b64_decode payload).
Proof.
  cbn zeta. unfold remove_script_signature_block. set (f := family_of ext).
  destruct (rfind content (begin_marker f)) as [k|] eqn:Hk; [|done]. cbn [mbind option_bind].
  apply rfind_Some in Hk as [(a & c & -> & <-) _]. rewrite !app_assoc.
  pose proof (len_nonneg a). pose proof (len_nonneg (begin_marker f)).
  rewrite (sub_last_part (a ++ begin_marker f) c (len a + len (begin_marker f)) _ ltac:(by rewrite len_app) eq_refl).
  destruct (find c (end_marker f)) as [e|] eqn:He; [|done]. cbn [mbind option_bind].
  apply find_Some in He as [(body & r & -> & <-) _].
  set (after := len body + len a + len (begin_marker f) + len (end_marker f)).
  replace ((a ++ begin_marker f) ++ body ++ end_marker f ++ r)
    with ((a ++ begin_marker f ++ body ++ end_marker f) ++ r) by (by rewrite <-!app_assoc).
  assert (len (a ++ begin_marker f ++ body ++ end_marker f) = after) as Hlen by (unfold after; rewrite !len_app; lia).
  rewrite (sub_last_part (a ++ begin_marker f ++ body ++ end_marker f) r after _ (eq_sym Hlen) eq_refl).
  assert (sub ((a ++ begin_marker f ++ body ++ end_marker f) ++ r)
    (len a + len (begin_marker f)) (len body + len a + len (begin_marker f)) = body) as ->.
  { replace ((a ++ begin_marker f ++ body ++ end_marker f) ++ r)
      with ((a ++ begin_marker f) ++ body ++ end_marker f ++ r) by (by rewrite <-!app_assoc).
    rewrite <-len_app.
    replace (len body + len a + len (begin_marker f)) with (len (a ++ begin_marker f) + len body) by (rewrite len_app; lia).
    by apply sub_middle. }
  rewrite <-app_assoc, !(sub_first_part a _ (len a) eq_refl).
  destruct (bool_decide (trim r = [])) eqn:Hr; [|done]. apply bool_decide_eq_true, trim_nil in Hr.
  destruct (is_authenticode_signature_block body ext) eqn:Hsig; [|done]. cbn [negb orb].
  destruct (cut_break_before a) as (pre & nl1 & -> & Hn1 & <-).
  destruct (cut_break_after r) as (nl2 & post & -> & Hn2 & Hl2).
  intros [= <-].
  unfold is_authenticode_signature_block in Hsig. fold f in Hsig.
  destruct (block_payload f _ []) as [payload|] eqn:Hp; [|done]. zbool.
  exists pre, nl1, body, nl2, post, payload.
  split; [by rewrite <-!app_assoc|]. split; [|split; [done|split; [done|]]].
  - f_equal; [by rewrite <-app_assoc, sub_first_part|].
    replace ((pre ++ nl1) ++ (begin_marker f ++ body ++ end_marker f) ++ nl2 ++ post)
      with (((pre ++ nl1) ++ begin_marker f ++ body ++ end_marker f ++ nl2) ++ post) by (by rewrite <-!app_assoc).
    apply sub_last_part; [|done]. rewrite !len_app in *.
    destruct (starts_with _ CRLF); [|destruct (starts_with _ [10])]; lia.
  - apply Forall_app in Hr as [_ Hpost]. split; [done|]. split; [|done].
    apply block_payload_rows in Hp. rewrite Forall_forall in Hp. apply Forall_forall. intros l Hl.
    destruct (decide (trim l = [])) as [|Hne]; [by left|right]. apply Hp, list_elem_of_filter.
    split; [done|]. by apply list_elem_of_fmap_2.
Qed.
Lemma removed_is_signature_block_witness :
  let f := family_of (chars "ps1") in
  let content := chars "Get-Item" ++ CRLF ++ begin_marker Hash ++ CRLF ++ chars "# YWJj" ++ CRLF
    ++ end_marker Hash ++ CRLF ++ [32] in
  ∃ pre nl1 body nl2 post payload,
    content = pre ++ nl1 ++ begin_marker f ++ body ++ end_marker f ++ nl2 ++ post ∧
    chars "Get-Item" ++ [32] = pre ++ post ∧ line_break nl1 ∧ line_break nl2 ∧
    Forall (λ c, is_whitespace c = true) post ∧
    Forall (λ l, trim l = [] ∨ is_Some (row_payload f (trim l))) (lines body) ∧
    block_payload f (filter (λ l, l ≠ []) (trim <$> lines body)) [] = Some payload ∧
    payload ≠ [] ∧ is_Some (@b64_decode StdBase64 payload).
Proof. cbn zeta. apply (@removed_is_signature_block StdBase64 _ (chars "ps1")). by vm_compute. Defined.

(** ** The remove command *)

Lemma ok_or_bind_not_panic {A B} (o : option A) msg (k : A → outcome B) :
  (∀ a, k a ≠ Panic) → ok_or o msg ≫= k ≠ Panic.
Proof. intros Hk. destruct o; [apply Hk|done]. Qed.
Lemma remove_powershell_not_panic `{Base64} bs ext : remove_powershell_signature bs ext ≠ Panic.
Proof.
  unfold remove_powershell_signature, script_decode, decode_utf16_script.
  nopanic; apply with_context_not_panic; repeat case_match; nopanic.
Qed.
Lemma remove_file_not_panic `{Base64} fs path : (remove_file fs path).2 ≠ Panic.
Proof.
  unfold remove_file. destruct (is_pe_winmd_extension _); [|destruct (extension_supported _); [|done]].
  - pose proof (ok_or_bind_not_panic (fs !! path) "read '{}'" remove_pe_signature) as Hnp.
    destruct (ok_or (fs !! path) _ ≫= _) as [[]| |]; [done..|]. destruct Hnp; [|done].
    intros bs. unfold remove_pe_signature. nopanic. apply with_context_not_panic, remove_not_panic.
  - pose proof (ok_or_bind_not_panic (fs !! path) "read '{}'"
      (λ bs, remove_powershell_signature bs (extension_lower path))) as Hnp.
    destruct (ok_or (fs !! path) _ ≫= _) as [[]| |]; [done..|]. destruct Hnp; [|done].
    intros bs. apply remove_powershell_not_panic.
Qed.
(** One file's removal reads and writes that file only. *)
Lemma remove_file_frame `{Base64} fs path q : q ≠ path → (remove_file fs path).1 !! q = fs !! q.
Proof.
  intros Hq. unfold remove_file. repeat case_match; try done; cbn; by rewrite lookup_insert_ne.
Qed.
Lemma remove_file_local `{Base64} fs fs' path :
  fs !! path = fs' !! path → (remove_file fs path).2 = (remove_file fs' path).2 ∧
  (remove_file fs path).1 !! path = (remove_file fs' path).1 !! path.
Proof.
  intros Hl. unfold remove_file. rewrite Hl. repeat case_match; try done; cbn; by rewrite !lookup_insert_eq.
Qed.
Lemma remove_file_Err `{Base64} fs path e : (remove_file fs path).2 = Err e → (remove_file fs path).1 = fs.
Proof. unfold remove_file. by repeat case_match. Qed.

(** The store after the files [done] have been handled. *)
Definition handled `{Base64} (fs fs' : store) (paths : list str) : Prop :=
  ∀ q, fs' !! q = if decide (q ∈ paths) then (remove_file fs q).1 !! q else fs !! q.

Lemma remove_files_spec `{Base64} fs fs' before paths quiet output :
  NoDup (before ++ paths) → handled fs fs' before →
  match remove_files fs' paths quiet output with
  | (fs2, Ok _) => handled fs fs2 (before ++ paths) ∧ Forall (λ p, is_ok (remove_file fs p).2 = true) paths
  | (fs2, Err e) => ∃ a p b, paths = a ++ p :: b ∧ (remove_file fs p).2 = Err e ∧ handled fs fs2 (before ++ a)
  | (_, Panic) => False
  end.
Proof.
  revert fs' before output. induction paths as [|p paths IH]; intros fs' before output Hnd Hh; cbn [remove_files].
  - rewrite app_nil_r. by split; [|constructor].
  - assert (p ∉ before) as Hp.
    { apply NoDup_app in Hnd as (_ & Hnd & _). intros Hin. apply (Hnd p Hin). by left. }
    assert (fs' !! p = fs !! p) as Hsame by (rewrite (Hh p); by rewrite decide_False).
    destruct (remove_file_local fs' fs p Hsame) as [H2 H1].
    pose proof (remove_file_not_panic fs' p) as Hnp. pose proof (remove_file_frame fs' p) as Hfr.
    pose proof (remove_file_Err fs' p) as Herr.
    destruct (remove_file fs' p) as [fs1 [removed|e|]]; cbn [fst snd] in *; [| |done].
    + assert (handled fs fs1 (before ++ [p])) as Hh1.
      { intros q. destruct (decide (q = p)) as [->|Hq].
        - rewrite decide_True by (apply elem_of_app; right; by left). exact H1.
        - rewrite Hfr, (Hh q) by done. destruct (decide (q ∈ before)).
          + rewrite decide_True by (apply elem_of_app; by left). done.
          + rewrite decide_False; [done|]. rewrite not_elem_of_app. split; [done|]. by rewrite list_elem_of_singleton. }
      specialize (IH fs1 (before ++ [p]) (if quiet then output else output ++ removed_line removed p)).
      rewrite <-app_assoc in IH. cbn [app] in IH. specialize (IH Hnd Hh1).
      destruct (remove_files _ _ _ _) as [fs2 [out|e|]]; [| |done].
      * destruct IH as [Hh2 Hall]. split; [done|]. apply Forall_cons_2; [by rewrite <-H2|done].
      * destruct IH as (a & p' & b & -> & He & Ha). exists (p :: a), p', b.
        split; [done|]. split; [done|]. by rewrite <-app_assoc in Ha.
    + exists [], p, paths. split; [done|]. split; [by rewrite <-H2|]. rewrite app_nil_r.
      rewrite (Herr e eq_refl). exact Hh.
Qed.

(** The remove command does its files in order and nothing else. With
    distinct files it never panics; when it succeeds every listed file holds
    what removing its own signature from its own contents gives, and every
    other file is as it was; when it fails, it fails at the first listed file
    whose removal fails, the files before it are done and everything else,
    that file included, is untouched. *)
Theorem remove_command_effect `{Base64} fs args quiet :
  NoDup (files args) →
  match remove_command fs args quiet with
  | (fs', Ok _) => handled fs fs' (files args) ∧ Forall (λ p, is_ok (remove_file fs p).2 = true) (files args)
  | (fs', Err e) =>
      fs' = fs ∨
      ∃ a p b, files args = a ++ p :: b ∧ (remove_file fs p).2 = Err e ∧ handled fs fs' a
  | (_, Panic) => False
  end.
Proof.
  intros Hnd. unfold remove_command. destruct (_ || _); [by left|].
  pose proof (remove_files_spec fs fs [] (files args) quiet [] Hnd) as H1.
  destruct (remove_files _ _ _ _) as [fs' [out|e|]].
  - by apply H1.
  - right. by apply H1.
  - by apply H1.
Qed.
Lemma remove_command_effect_witness :
  let fs : store := {[ chars "a.ps1" := encode_utf8 (signed_text Hash (chars "x") [chars "# YWJj"]);
                       chars "b.dll" := test_pe; chars "c.txt" := [] ]} in
  let args := mk_RemoveArgs true false false [chars "a.ps1"; chars "b.dll"; chars "c.txt"] in
  match @remove_command StdBase64 fs args true with
  | (fs', Ok _) => @handled StdBase64 fs fs' (files args) ∧ Forall (λ p, is_ok (@remove_file StdBase64 fs p).2 = true) (files args)
  | (fs', Err e) =>
      fs' = fs ∨
      ∃ a p b, files args = a ++ p :: b ∧ (@remove_file StdBase64 fs p).2 = Err e ∧ @handled StdBase64 fs fs' a
  | (_, Panic) => False
  end.
Proof. cbn zeta. apply (@remove_command_effect StdBase64). apply (bool_decide_unpack _). by vm_compute. Defined.
