(* ===== verification/WshScript.v ===== *)
(** Windows Script Host scripts: [crates/psign-sip-digest/src/wsh_script.rs],
    and the choice between the two script formats in
    [crates/psign-sip-digest/src/lib.rs]. *)

From S2P Require Import Prelude.
From S2P Require Import PeDigest.
From S2P Require Import RustStr.
From S2P Require Import Base64.
From S2P Require Import Find.
From S2P Require Import PsScript.

Inductive WshKind := Vbs | Js | Wsf.
#[export] Instance wsh_kind_eq_dec : EqDecision WshKind.
Proof. solve_decision. Defined.

Definition wsh_kind_from_ext (ext : str) : option WshKind :=
  let e := to_ascii_lowercase ext in
  if one_of e ["vbs"; "vbe"] then Some Vbs
  else if one_of e ["js"; "jse"] then Some Js
  else if one_of e ["wsf"] then Some Wsf else None.

Definition beg_marker (k : WshKind) : str :=
  CRLF ++ chars match k with
                | Vbs => "'' SIG '' Begin signature block"
                | Js => "// SIG // Begin signature block"
                | Wsf => "<signature>"
                end.
Definition end_marker (k : WshKind) : str :=
  CRLF ++ chars match k with
                | Vbs => "'' SIG '' End signature block"
                | Js => "// SIG // End signature block"
                | Wsf => "</signature>"
                end ++ CRLF.
Definition sig_line_prefix (k : WshKind) : str :=
  chars match k with Vbs => "'' SIG '' " | Js => "// SIG // " | Wsf => "** SIG ** " end.

#[global] Arguments beg_marker : simpl never.
#[global] Arguments end_marker : simpl never.

Definition find_last_subslice (haystack needle : list Z) : option Z :=
  if bool_decide (needle = []) || (len haystack <? len needle) then None
  else rfind haystack needle.

Definition strip_prefix_units (line prefix : list Z) : option (list Z) :=
  if (len prefix <=? len line) && bool_decide (sub line 0 (len prefix) = prefix)
  then Some (sub line (len prefix) (len line)) else None.

Definition trim_cr (line : list Z) : list Z :=
  trim_end_matches (λ c, c =? 13) (trim_start_matches (λ c, c =? 13) line).

(** The lines of the iterator: cut at each line feed, and what is left after
    the last one when it is not empty. *)
Fixpoint split_lines_from (cur rest : list Z) : list (list Z) :=
  match rest with
  | [] => if bool_decide (cur = []) then [] else [cur]
  | c :: rest' => if c =? 10 then cur :: split_lines_from [] rest' else split_lines_from (cur ++ [c]) rest'
  end.
Definition split_lines_utf16 (region : list Z) : list (list Z) := split_lines_from [] region.

(** The inner and the outer loop over the region's lines. *)
Fixpoint push_units (ascii : str) (rest : list Z) : outcome str :=
  match rest with
  | [] => Ok ascii
  | cu :: rest' =>
      if cu <? 128 then push_units (ascii ++ [cu]) rest' else Err "non-ASCII in WSH base64 payload"
  end.
Fixpoint push_lines (prefix : list Z) (ls : list (list Z)) (ascii : str) : outcome str :=
  match ls with
  | [] => Ok ascii
  | raw_line :: ls' =>
      let line := trim_cr raw_line in
      if bool_decide (line = []) then push_lines prefix ls' ascii
      else
        rest ← ok_or (strip_prefix_units line prefix) "WSH signature region line missing {:?} prefix";
        ascii ← push_units ascii rest;
        push_lines prefix ls' ascii
  end.
Definition extract_base64_ascii (region : list Z) (kind : WshKind) : outcome str :=
  let prefix := encode_utf16 (sig_line_prefix kind) in
  ascii ← push_lines prefix (split_lines_utf16 region) [];
  let trimmed := List.filter (λ c, negb (is_whitespace c)) ascii in
  bail_if (bool_decide (trimmed = [])) "empty WSH base64 payload";;
  Ok trimmed.

Definition strip_wsh_signature_units (units : list Z) (kind : WshKind) : outcome (list Z * Z) :=
  let beg := encode_utf16 (beg_marker kind) in
  last ← ok_or (find_last_subslice units beg) "WSH begin signature marker not found ({:?})";
  let tail := sub units last (len units) in
  let end_ := encode_utf16 (end_marker kind) in
  er ← ok_or (find_subslice tail end_) "WSH end signature marker not found";
  let after := last + er + len end_ in
  Ok (sub units 0 last ++ sub units after (len units), last mod U32).

Definition extract_pkcs7_der `{Base64} (units : list Z) (kind : WshKind) : outcome bytes :=
  let beg := encode_utf16 (beg_marker kind) in
  last ← ok_or (find_last_subslice units beg) "WSH begin marker not found";
  let content_start := last + len beg in
  let tail := sub units content_start (len units) in
  let end_ := encode_utf16 (end_marker kind) in
  er ← ok_or (find_subslice tail end_) "WSH end marker not found";
  let region := sub tail 0 er in
  ascii ← extract_base64_ascii region kind;
  ok_or (b64_decode ascii) "WSH base64 decode: {e}".

(** The units of a file, without the mark of a UTF-8 file. *)
Definition wsh_units (raw : bytes) : list Z :=
  let units := file_utf16_units raw in
  if bytes_start_with raw [0xEF; 0xBB; 0xBF] && bool_decide (head units = Some 0xFEFF)
  then tail units else units.

(** The bytes that are hashed: the stripped text and the block's position. *)
Definition wsh_payload (stripped : list Z) (begin_off : Z) : bytes :=
  utf16le_bytes stripped ++ to_le 4 begin_off.

Section Report.
Context `{DigestOracle} `{Base64} (pkcs7_digest : bytes → option bytes).

Definition wsh_digest_report (raw : bytes) (ext : str) : outcome ScriptAuthenticodeDigestReport :=
  kind ← ok_or (wsh_kind_from_ext ext) "not a WSH script extension .{ext}";
  let units := wsh_units raw in
  pkcs7 ← extract_pkcs7_der units kind;
  embedded ← ok_or (pkcs7_digest pkcs7) "Authenticode PKCS#7 parse failed: {e}";
  hkind ← from_digest_byte_len (len embedded);
  '(stripped, begin_off) ← strip_wsh_signature_units units kind;
  let computed := hash_payload hkind (wsh_payload stripped begin_off) in
  bail_if (negb (bool_decide (computed = embedded)))
    "WSH Authenticode digest mismatch (wshext strip + offset dword vs PKCS#7)";;
  Ok (mk_report pkcs7 embedded computed).

Definition verify_wsh_digest_consistency (raw : bytes) (ext : str) : outcome unit :=
  _ ← wsh_digest_report raw ext; Ok tt.

(** ** Both formats, by extension: [lib.rs] *)
Definition script_digest_report (raw : bytes) (ext : str) : outcome ScriptAuthenticodeDigestReport :=
  let ext_l := to_ascii_lowercase ext in
  if is_wsh_extension ext_l then wsh_digest_report raw ext_l
  else powershell_class_digest_report pkcs7_digest raw ext_l.
Definition verify_script_digest_consistency (raw : bytes) (ext : str) : outcome unit :=
  let ext_l := to_ascii_lowercase ext in
  if is_wsh_extension ext_l then verify_wsh_digest_consistency raw ext_l
  else verify_powershell_class_digest pkcs7_digest raw ext_l.
End Report.

(** ** The region between the markers *)

(** No occurrence of [n] starts inside [b] and runs out of it. *)
Definition no_overlap (b n : list Z) : bool :=
  forallb (λ j, let r := drop j b in
    negb (bool_decide (is_Some (strip_prefix r n))) && negb (bool_decide (is_Some (strip_prefix n r))))
    (seq 0 (length b)).

Lemma prefix_of_app n r t : is_Some (strip_prefix n (r ++ t)) →
  is_Some (strip_prefix r n) ∨ is_Some (strip_prefix n r).
Proof.
  revert r. induction n as [|x n IH]; intros r H; [right; by eexists|].
  destruct r as [|y r]; [left; by eexists|]. cbn in *. destruct (Z.eqb_spec x y) as [->|]; [|by destruct H].
  rewrite Z.eqb_refl. by apply IH.
Qed.
Lemma find_after b n t : no_overlap b n = true → find (b ++ t) n = (λ k, len b + k) <$> find t n.
Proof.
  intros Hno. induction b as [|x b IH].
  - cbn [app]. rewrite len_nil. by destruct (find t n).
  - unfold no_overlap in Hno. cbn [length seq forallb drop] in Hno. apply andb_true_iff in Hno as [H0 Hr].
    cbn [app]. rewrite find_cons, bool_decide_eq_false_2.
    + rewrite IH, len_cons.
      * destruct (find t n); cbn; f_equal; lia.
      * unfold no_overlap. apply Forall_forallb. apply forallb_Forall in Hr.
        rewrite <-seq_shift in Hr. apply Forall_fmap in Hr. exact Hr.
    + intros Hp. apply andb_true_iff in H0 as [H1 H2]. rewrite !negb_true_iff, !bool_decide_eq_false in *.
      by destruct (prefix_of_app n (x :: b) t Hp).
Qed.

Lemma wsh_markers k :
  encode_utf16 (beg_marker k) = beg_marker k ∧ encode_utf16 (end_marker k) = end_marker k ∧
  encode_utf16 (sig_line_prefix k) = sig_line_prefix k ∧
  beg_marker k ≠ [] ∧ end_marker k ≠ [] ∧ no_overlap (beg_marker k) (end_marker k) = true.
Proof. by destruct k; apply (bool_decide_unpack _); vm_compute. Qed.
Lemma find_subslice_inv h n k : find_subslice h n = Some k → find h n = Some k.
Proof. unfold find_subslice. by destruct (_ || _). Qed.

(** Both readers of a file find the same block. *)
Lemma strip_wsh_Ok units k out off :
  strip_wsh_signature_units units k = Ok (out, off) →
  ∃ pre region post, units = pre ++ beg_marker k ++ region ++ end_marker k ++ post ∧
    out = pre ++ post ∧ off = len pre mod U32 ∧
    (∀ j, len pre < j → ¬ occurs units (beg_marker k) j) ∧
    (∀ j, ¬ occurs region (end_marker k) j) ∧
    find (region ++ end_marker k ++ post) (end_marker k) = Some (len region).
Proof.
  unfold strip_wsh_signature_units. destruct (wsh_markers k) as (-> & -> & _ & Hb & He & Hno).
  unfold find_last_subslice. destruct (_ || _); [done|].
  destruct (rfind units (beg_marker k)) as [last|] eqn:Hl; [|done]. cbn [ok_or mbind outcome_bind].
  apply rfind_Some in Hl as [(pre & t & -> & <-) Hlast].
  rewrite (sub_last_part pre _ (len pre) _ eq_refl eq_refl).
  destruct (find_subslice _ _) as [er|] eqn:Hf; [|done]. cbn [ok_or mbind outcome_bind].
  apply find_subslice_inv in Hf. rewrite find_after in Hf by done.
  destruct (find t (end_marker k)) as [e|] eqn:Ht; [|done]. injection Hf as <-.
  pose proof (proj1 (find_Some _ _ _) Ht) as [(region & post & -> & <-) Hfirst].
  intros Hok. apply (inj Ok), (inj2 pair) in Hok as [<- <-]. exists pre, region, post. split; [done|]. split; [|split; [done|split; [done|split; [|done]]]].
  - rewrite (sub_first_part pre _ (len pre) eq_refl). f_equal.
    set (x := pre ++ beg_marker k ++ region ++ end_marker k).
    assert (pre ++ beg_marker k ++ region ++ end_marker k ++ post = x ++ post) as ->
      by (unfold x; by rewrite <-!app_assoc).
    apply (sub_last_part x post); [unfold x; rewrite !len_app; lia|done].
  - intros j Ho. pose proof (occurs_range _ _ _ Ho). destruct Ho as (a & c & -> & <-).
    assert (0 < len (end_marker k)) by (destruct (end_marker k); [done|rewrite len_cons; pose proof (len_nonneg l); lia]).
    apply (Hfirst (len a)); [lia|]. exists a, (c ++ end_marker k ++ post). by rewrite <-!app_assoc.
Qed.

(** ** What an accepted block is *)

Lemma extract_wsh_Ok `{Base64} units k p pre region post :
  units = pre ++ beg_marker k ++ region ++ end_marker k ++ post →
  (∀ j, len pre < j → ¬ occurs units (beg_marker k) j) →
  find (region ++ end_marker k ++ post) (end_marker k) = Some (len region) →
  extract_pkcs7_der units k = Ok p →
  ∃ ascii, extract_base64_ascii region k = Ok ascii ∧ b64_decode ascii = Some p.
Proof.
  intros Hu Hlast Hfirst. unfold extract_pkcs7_der. destruct (wsh_markers k) as (-> & -> & _ & Hb & He & _).
  assert (find_last_subslice units (beg_marker k) = Some (len pre)) as ->.
  { unfold find_last_subslice. rewrite bool_decide_eq_false_2 by done.
    assert (occurs units (beg_marker k) (len pre)) as Ho by (rewrite Hu; by eexists pre, _).
    pose proof (occurs_range _ _ _ Ho). rewrite (proj2 (Z.ltb_ge _ _)) by lia. cbn [orb].
    by apply rfind_Some. }
  cbn [ok_or mbind outcome_bind].
  assert (sub units (len pre + len (beg_marker k)) (len units) = region ++ end_marker k ++ post) as ->.
  { rewrite Hu, app_assoc. apply sub_last_part; [by rewrite len_app|done]. }
  destruct (find_subslice _ _) as [er|] eqn:Hf; [|done]. apply find_subslice_inv in Hf.
  rewrite Hfirst in Hf. injection Hf as <-. cbn [ok_or mbind outcome_bind].
  rewrite (sub_first_part region _ (len region) eq_refl).
  destruct (extract_base64_ascii region k) as [ascii| |]; [|done..]. cbn [mbind outcome_bind].
  intros Hd%ok_or_Ok. by exists ascii.
Qed.

(** A line of the block: blank, or the comment prefix and ASCII. *)
Definition wsh_line_ok (k : WshKind) (line : list Z) : Prop :=
  trim_cr line = [] ∨
  ∃ r, trim_cr line = sig_line_prefix k ++ r ∧ Forall (λ c, c < 128) r.

Lemma push_units_Ok ascii rest a : push_units ascii rest = Ok a → Forall (λ c, c < 128) rest ∧ a = ascii ++ rest.
Proof.
  revert ascii. induction rest as [|c rest IH]; intros ascii; cbn [push_units].
  - intros [= <-]. by rewrite app_nil_r.
  - destruct (Z.ltb_spec c 128); [|done]. intros [Hr ->]%IH. split; [by apply Forall_cons_2|].
    by rewrite <-app_assoc.
Qed.
Lemma strip_prefix_units_Some line p r : strip_prefix_units line p = Some r → line = p ++ r.
Proof.
  unfold strip_prefix_units. destruct (Z.leb_spec (len p) (len line)); [|done]. cbn [andb].
  case_bool_decide as Hp; [|done]. intros [= <-]. rewrite <-Hp at 1.
  pose proof (len_nonneg p). rewrite <-(sub_full line) at 1.
  by rewrite (sub_split line 0 (len p) (len line)) by lia.
Qed.
Lemma push_lines_ok k ls ascii a :
  push_lines (sig_line_prefix k) ls ascii = Ok a → Forall (wsh_line_ok k) ls.
Proof.
  revert ascii. induction ls as [|l ls IH]; intros ascii; cbn [push_lines]; [constructor|].
  case_bool_decide as Hl; [intros H; apply Forall_cons_2; [by left|by eapply IH]|].
  destruct (strip_prefix_units _ _) as [r|] eqn:Hr; [|done]. cbn [ok_or mbind outcome_bind].
  destruct (push_units ascii r) as [a'| |] eqn:Hp; [|done..]. cbn [mbind outcome_bind]. intros H.
  apply Forall_cons_2; [|by eapply IH]. right. exists r.
  split; [by apply strip_prefix_units_Some|by eapply push_units_Ok].
Qed.

Lemma file_units_range raw : Forall (λ u, 0 <= u < 65536) (file_utf16_units raw).
Proof.
  unfold file_utf16_units. destruct (_ && _); [apply le_u16s_range|]. destruct (_ && _); [apply be_u16s_range|].
  apply encode_utf16_units, from_utf8_lossy_scalars.
Qed.
Lemma wsh_units_range raw : Forall (λ u, 0 <= u < 65536) (wsh_units raw).
Proof.
  unfold wsh_units. pose proof (file_units_range raw) as H. destruct (_ && _); [|done].
  destruct H as [|u us _ H]; [constructor|done].
Qed.

(** The bytes a signature covers. *)
Definition wsh_signed_bytes (raw : bytes) (k : WshKind) : outcome bytes :=
  '(stripped, off) ← strip_wsh_signature_units (wsh_units raw) k; Ok (wsh_payload stripped off).

Lemma report_wsh_Ok `{DigestOracle} `{Base64} pkcs7_digest raw ext r :
  wsh_digest_report pkcs7_digest raw ext = Ok r →
  ∃ k pre region post hk, wsh_kind_from_ext ext = Some k ∧
    wsh_units raw = pre ++ beg_marker k ++ region ++ end_marker k ++ post ∧
    Forall (wsh_line_ok k) (split_lines_utf16 region) ∧
    pkcs7_digest (pkcs7_der r) = Some (embedded_digest r) ∧
    wsh_signed_bytes raw k = Ok (wsh_payload (pre ++ post) (len pre mod U32)) ∧
    embedded_digest r = computed_digest r ∧
    computed_digest r = digest hk (wsh_payload (pre ++ post) (len pre mod U32)).
Proof.
  unfold wsh_digest_report. destruct (wsh_kind_from_ext ext) as [k|]; [|done]. cbn [ok_or mbind outcome_bind].
  destruct (extract_pkcs7_der _ k) as [p| |] eqn:Hx; [|done..]. cbn [mbind outcome_bind].
  destruct (pkcs7_digest p) as [embedded|] eqn:Hd; [|done]. cbn [ok_or mbind outcome_bind].
  destruct (from_digest_byte_len _) as [hk| |]; [|done..]. cbn [mbind outcome_bind].
  destruct (strip_wsh_signature_units _ k) as [[out off]| |] eqn:Hs; [|done..]. cbn [mbind outcome_bind].
  pose proof (strip_wsh_Ok _ _ _ _ Hs) as (pre & region & post & Hu & -> & -> & Hlast & _ & Hfirst).
  destruct (extract_wsh_Ok _ k p pre region post Hu Hlast Hfirst Hx) as (ascii & Ha & _).
  case_bool_decide as Hc; [|done]. intros Hr. apply (inj Ok) in Hr as <-.
  exists k, pre, region, post, hk. cbn [pkcs7_der embedded_digest computed_digest].
  split; [done|]. split; [done|]. split.
  { unfold extract_base64_ascii in Ha. destruct (wsh_markers k) as (_ & _ & Hp & _). rewrite Hp in Ha.
    destruct (push_lines _ _ _) as [a| |] eqn:Hl; [|done..]. by eapply push_lines_ok. }
  split; [done|]. split; [unfold wsh_signed_bytes; by rewrite Hs|]. split; [done|].
  done.
Qed.

(** In an accepted script host file everything outside the digest is a
    comment: the file is a text, one signature block and a text, the digest in
    the PKCS#7 is the hash of the two texts and the block's position, and every
    line of the block is blank or starts with the comment prefix and is ASCII. *)
Theorem wsh_uncovered_text_is_comments `{DigestOracle} `{Base64} pkcs7_digest raw ext r :
  wsh_digest_report pkcs7_digest raw ext = Ok r →
  ∃ k pre region post hk, wsh_kind_from_ext ext = Some k ∧
    wsh_units raw = pre ++ beg_marker k ++ region ++ end_marker k ++ post ∧
    Forall (wsh_line_ok k) (split_lines_utf16 region) ∧
    pkcs7_digest (pkcs7_der r) = Some (digest hk (wsh_payload (pre ++ post) (len pre mod U32))).
Proof.
  intros (k & pre & region & post & hk & H1 & H2 & H3 & H4 & _ & H6 & H7)%report_wsh_Ok.
  exists k, pre, region, post, hk. rewrite <-H7, <-H6. done.
Qed.

Definition test_js (b64 : string) : bytes :=
  encode_utf8 (chars "a();" ++ beg_marker Js ++ CRLF ++ chars "// SIG // " ++ chars b64 ++ end_marker Js).
Definition test_js_digest : bytes := toy_digest Sha256 (wsh_payload (chars "a();") 4).

Lemma wsh_uncovered_text_is_comments_witness :
  ∃ k pre region post hk, wsh_kind_from_ext (chars "JS") = Some k ∧
    wsh_units (test_js "YWJj") = pre ++ beg_marker k ++ region ++ end_marker k ++ post ∧
    Forall (wsh_line_ok k) (split_lines_utf16 region) ∧
    Some test_js_digest = Some (@digest ToyDigest hk (wsh_payload (pre ++ post) (len pre mod U32))).
Proof.
  apply (@wsh_uncovered_text_is_comments ToyDigest StdBase64 (λ _, Some test_js_digest)
    (test_js "YWJj") (chars "JS") (mk_report (lit "abc") test_js_digest test_js_digest)).
  by vm_compute.
Defined.

(** C19: A script host signature binds the text and its own place in it: two
    files of the same extension, shorter than 2^32 code units, accepted with
    the same embedded digest, have the same text before and after the block,
    or their signed bytes are a collision of the hash function. *)
Theorem wsh_signature_binds `{DigestOracle} `{Base64} pkcs7_digest raw1 raw2 ext r1 r2 :
  wsh_digest_report pkcs7_digest raw1 ext = Ok r1 →
  wsh_digest_report pkcs7_digest raw2 ext = Ok r2 →
  embedded_digest r1 = embedded_digest r2 →
  len (wsh_units raw1) < U32 → len (wsh_units raw2) < U32 →
  ∃ k, wsh_kind_from_ext ext = Some k ∧
  ((∃ pre post region1 region2,
      wsh_units raw1 = pre ++ beg_marker k ++ region1 ++ end_marker k ++ post ∧
      wsh_units raw2 = pre ++ beg_marker k ++ region2 ++ end_marker k ++ post) ∨
   (∃ hk b1 b2, wsh_signed_bytes raw1 k = Ok b1 ∧ wsh_signed_bytes raw2 k = Ok b2 ∧
      b1 ≠ b2 ∧ digest hk b1 = digest hk b2)).
Proof.
  intros (k & pre1 & g1 & post1 & hk1 & Hk & Hu1 & _ & _ & Hb1 & He1 & Hc1)%report_wsh_Ok.
  intros (k' & pre2 & g2 & post2 & hk2 & Hk' & Hu2 & _ & _ & Hb2 & He2 & Hc2)%report_wsh_Ok.
  rewrite Hk in Hk'. injection Hk' as <-. intros Hd Hl1 Hl2. exists k. split; [done|].
  rewrite He1, He2, Hc1, Hc2 in Hd.
  assert (hk1 = hk2) as <-.
  { apply (f_equal len) in Hd. rewrite !digest_len in Hd. by destruct hk1, hk2. }
  set (b1 := wsh_payload _ _) in *. set (b2 := wsh_payload (pre2 ++ post2) _) in *.
  destruct (decide (b1 = b2)) as [Hb|Hb]; [left|right; by exists hk1, b1, b2].
  unfold b1, b2, wsh_payload, utf16le_bytes in Hb. apply app_inj_2 in Hb as [Ht Ho]; [|by rewrite !length_to_le].
  pose proof (wsh_units_range raw1) as Hr1. pose proof (wsh_units_range raw2) as Hr2.
  rewrite Hu1, !Forall_app in Hr1. rewrite Hu2, !Forall_app in Hr2.
  destruct Hr1 as (? & _ & _ & _ & ?), Hr2 as (? & _ & _ & _ & ?).
  apply u16_le_bytes_inj in Ht; [|by apply Forall_app..].
  apply (f_equal from_le) in Ho. rewrite Hu1, !len_app in Hl1. rewrite Hu2, !len_app in Hl2. slen.
  pose proof (len_nonneg pre1). pose proof (len_nonneg pre2). pose proof (len_nonneg g1). pose proof (len_nonneg g2).
  pose proof (len_nonneg post1). pose proof (len_nonneg post2).
  pose proof (len_nonneg (beg_marker k)). pose proof (len_nonneg (end_marker k)).
  rewrite !from_to_le, !Z.mod_mod, !Z.mod_small in Ho by lia.
  apply app_inj_1 in Ht as [-> ->]; [|unfold len in Ho; lia]. by exists pre2, post2, g1, g2.
Qed.
Lemma wsh_signature_binds_witness :
  ∃ k, wsh_kind_from_ext (chars "js") = Some k ∧
  ((∃ pre post region1 region2,
      wsh_units (test_js "YWJj") = pre ++ beg_marker k ++ region1 ++ end_marker k ++ post ∧
      wsh_units (test_js "YWJk") = pre ++ beg_marker k ++ region2 ++ end_marker k ++ post) ∨
   (∃ hk b1 b2, wsh_signed_bytes (test_js "YWJj") k = Ok b1 ∧ wsh_signed_bytes (test_js "YWJk") k = Ok b2 ∧
      b1 ≠ b2 ∧ @digest ToyDigest hk b1 = @digest ToyDigest hk b2)).
Proof.
  apply (@wsh_signature_binds ToyDigest StdBase64 (λ _, Some test_js_digest) _ _ (chars "js")
    (mk_report (lit "abc") test_js_digest test_js_digest)
    (mk_report (lit "abd") test_js_digest test_js_digest)); [by vm_compute..].
Defined.
