(* ===== verification/Rdp.v ===== *)
(** Signed RDP files: [crates/psign-sip-digest/src/rdp.rs].

    The records of a Remote Desktop file, the settings a signature covers, the
    blob that is signed, and the signature record. The PKCS#7 itself is built by
    third-party crates ([cms], [rsa], [x509_cert]) and is opaque here. *)

From S2P Require Import Prelude.
From S2P Require Import RustStr.
From S2P Require Import Base64.
From S2P Require Import ZipAuth.

Definition SIGNATURE_VERSION : Z := 0x00010001.
Definition CERT_SIGNATURE_TYPE : Z := 1.

Inductive RdpValueKind := Integer | String | Binary.
#[export] Instance rdp_value_kind_eq_dec : EqDecision RdpValueKind.
Proof. solve_decision. Defined.
Definition as_char (k : RdpValueKind) : char :=
  match k with Integer => 105 | String => 115 | Binary => 98 end.

Record RdpRecord := mk_record { name : str; kind : RdpValueKind; value : str }.
#[export] Instance rdp_record_eq_dec : EqDecision RdpRecord.
Proof. solve_decision. Defined.
(** [RdpRecord::string] *)
Definition string_record (name value : str) : RdpRecord := mk_record name String value.

Record PreparedRdpSignature := mk_prepared {
  records : list RdpRecord; sign_scope : str; secure_blob : bytes }.

Definition setting (name : string) (required : bool) : str * bool := (chars name, required).
Definition SENSITIVE_SETTINGS : list (str * bool) :=
  [setting "Full Address" true;
   setting "Alternate Full Address" false;
   setting "PCB" false;
   setting "Use Redirection Server Name" false;
   setting "Server Port" false;
   setting "Negotiate Security Layer" false;
   setting "EnableCredSspSupport" false;
   setting "DisableConnectionSharing" false;
   setting "AutoReconnection Enabled" false;
   setting "GatewayHostname" false;
   setting "GatewayUsageMethod" false;
   setting "GatewayProfileUsageMethod" false;
   setting "GatewayCredentialsSource" false;
   setting "Support URL" false;
   setting "PromptCredentialOnce" false;
   setting "Require pre-authentication" false;
   setting "Pre-authentication server address" false;
   setting "Alternate Shell" false;
   setting "Shell Working Directory" false;
   setting "RemoteApplicationProgram" false;
   setting "RemoteApplicationExpandWorkingdir" false;
   setting "RemoteApplicationMode" false;
   setting "RemoteApplicationGuid" false;
   setting "RemoteApplicationName" false;
   setting "RemoteApplicationIcon" false;
   setting "RemoteApplicationFile" false;
   setting "RemoteApplicationFileExtensions" false;
   setting "RemoteApplicationCmdLine" false;
   setting "RemoteApplicationExpandCmdLine" false;
   setting "Prompt For Credentials" false;
   setting "Authentication Level" false;
   setting "AudioMode" false;
   setting "RedirectDrives" false;
   setting "RedirectPrinters" false;
   setting "RedirectCOMPorts" false;
   setting "RedirectSmartCards" false;
   setting "RedirectPOSDevices" false;
   setting "RedirectClipboard" false;
   setting "DevicesToRedirect" false;
   setting "DrivesToRedirect" false;
   setting "LoadBalanceInfo" false;
   setting "RedirectDirectX" false;
   setting "RDGIsKDCProxy" false;
   setting "KDCProxyName" false;
   setting "EnableRdsAadAuth" false;
   setting "RedirectWebAuthn" false;
   setting "RedirectTextProcessing" false;
   setting "allowed security protocols" false].
Definition SIGN_SCOPE : str := chars "SignScope".
Definition SIGNATURE : str := chars "Signature".
Definition FULL_ADDRESS : str := chars "Full Address".
Definition ALTERNATE_FULL_ADDRESS : str := chars "Alternate Full Address".
Definition BOM : char := 0xFEFF.

(** [bytes.iter().step_by(2)] *)
Fixpoint step_by_2 (bs : bytes) : bytes :=
  match bs with
  | a :: _ :: r => a :: step_by_2 r
  | _ => bs
  end.
Definition count_nuls (bs : bytes) : Z := len (filter (λ b, u8 b = 0) bs).
Definition decode_bomless_utf16 (bs : bytes) : option str :=
  if (len bs <? 4) || negb (len bs mod 2 =? 0) then None else
  let pairs := len bs / 2 in
  let even_nuls := count_nuls (step_by_2 bs) in
  let odd_nuls := count_nuls (step_by_2 (drop 1 bs)) in
  if pairs <=? odd_nuls * 2 then Some (from_utf16_lossy (le_u16s bs))
  else if pairs <=? even_nuls * 2 then Some (from_utf16_lossy (be_u16s bs))
  else None.

Definition decode_rdp_text (bs : bytes) : str :=
  if bytes_start_with bs [0xFF; 0xFE] then from_utf16_lossy (le_u16s (drop 2 bs))
  else if bytes_start_with bs [0xFE; 0xFF] then from_utf16_lossy (be_u16s (drop 2 bs))
  else
    match decode_bomless_utf16 bs with
    | Some text => text
    | None =>
        match from_utf8 bs with
        | Some s => trim_start_matches (λ c, c =? BOM) s
        | None => from_utf8_lossy bs
        end
    end.
Definition encode_native_unicode (text : str) : bytes :=
  (byte_of <$> [0xFF; 0xFE]) ++ u16_le_bytes (encode_utf16 text).

Definition blank (c : char) : bool := (c =? 32) || (c =? 9).
Definition cr_or_lf (c : char) : bool := (c =? 13) || (c =? 10).
Definition COLON : char := 58.

Definition kind_of_char (c : char) : option RdpValueKind :=
  let c := lower c in
  if c =? 105 then Some Integer else if c =? 115 then Some String
  else if c =? 98 then Some Binary else None.

Definition parse_line (line : str) : option RdpRecord :=
  let trimmed := trim_start_matches blank line in
  if bool_decide (trimmed = []) then None else
  '(name, rest) ← split_once COLON trimmed;
  let rest := trim_start_matches blank rest in
  '(c, rest) ← (match rest with [] => None | c :: r => Some (c, r) end);
  kind ← kind_of_char c;
  let rest := trim_start_matches blank rest in
  rest ← strip_prefix [COLON] rest;
  let value := trim_start_matches blank rest in
  Some (mk_record (trim_end_matches blank name) kind (trim_end_matches cr_or_lf value)).

Definition parse_records (text : str) : list RdpRecord := omap parse_line (lines text).

Definition record_to_line (r : RdpRecord) : str :=
  name r ++ [COLON; as_char (kind r); COLON] ++ value r ++ [13; 10].
Definition records_to_text (rs : list RdpRecord) : str := concat (record_to_line <$> rs).

Definition find_record (rs : list RdpRecord) (n : str) : option RdpRecord :=
  List.find (λ r, eq_ignore_ascii_case (name r) n) rs.
(** The first record of that name is replaced, or the record is added. *)
Fixpoint insert_or_replace (rs : list RdpRecord) (record : RdpRecord) : list RdpRecord :=
  match rs with
  | [] => [record]
  | r :: rs' =>
      if eq_ignore_ascii_case (name r) (name record) then record :: rs'
      else r :: insert_or_replace rs' record
  end.
Definition remove_record (rs : list RdpRecord) (n : str) : list RdpRecord :=
  List.filter (λ r, negb (eq_ignore_ascii_case (name r) n)) rs.

(** The loop over the names of the scope. *)
Fixpoint scope_text (rs : list RdpRecord) (names : list str) (text : str) : outcome str :=
  match names with
  | [] => Ok text
  | n :: names' =>
      record ← ok_or (find_record rs n) "field '{name}' in SignScope was not found in RDP file";
      scope_text rs names' (text ++ record_to_line record)
  end.
Definition secure_settings_blob (rs : list RdpRecord) (sign_scope : str) : outcome bytes :=
  text ← scope_text rs (List.filter (λ s, negb (bool_decide (s = []))) (split 44 sign_scope)) [];
  sign_scope_record ← ok_or (find_record rs SIGN_SCOPE) "SignScope field was not found in RDP file";
  let text := text ++ record_to_line sign_scope_record in
  Ok (u16_le_bytes (encode_utf16 text ++ [0])).

(** The loop over the sensitive settings: the names present, in table order. *)
Fixpoint scope_loop (rs : list RdpRecord) (settings : list (str * bool)) (scope_names : list str)
    : outcome (list str) :=
  match settings with
  | [] => Ok scope_names
  | (n, required) :: settings' =>
      match find_record rs n with
      | None =>
          if required then Err "RDP file is missing required {name} setting"
          else scope_loop rs settings' scope_names
      | Some record =>
          bail_if (required && bool_decide (value record = []))
            "RDP file has an empty required {name} setting";;
          scope_loop rs settings' (scope_names ++ [n])
      end
  end.

Definition prepare_for_signature (rs : list RdpRecord) : outcome PreparedRdpSignature :=
  let rs := remove_record rs SIGN_SCOPE in
  let rs := remove_record rs SIGNATURE in
  full_address ← ok_or
    (r ← find_record rs FULL_ADDRESS; if bool_decide (value r = []) then None else Some (value r))
    "RDP file is missing required Full Address setting";
  let rs := match find_record rs ALTERNATE_FULL_ADDRESS with
            | None => insert_or_replace rs (string_record ALTERNATE_FULL_ADDRESS full_address)
            | Some _ => rs
            end in
  scope_names ← scope_loop rs SENSITIVE_SETTINGS [];
  let sign_scope := join [44] scope_names in
  let rs := insert_or_replace rs (string_record SIGN_SCOPE sign_scope) in
  secure_blob ← secure_settings_blob rs sign_scope;
  Ok (mk_prepared rs sign_scope secure_blob).

Definition serialize_signature (pkcs7 : bytes) : bytes :=
  to_le 4 SIGNATURE_VERSION ++ to_le 4 CERT_SIGNATURE_TYPE ++ to_le 4 (len pkcs7 mod U32) ++ pkcs7.
Definition signature_pkcs7_from_serialized (serialized : bytes) : outcome bytes :=
  bail_if (len serialized <? 12) "RDP Signature payload is shorter than 12-byte header";;
  version ← index_range serialized 0 4;
  signature_type ← index_range serialized 4 8;
  n ← index_range serialized 8 12;
  bail_if (negb (from_le version =? SIGNATURE_VERSION))
    "unsupported RDP Signature version 0x{version:08x}";;
  bail_if (negb (from_le signature_type =? CERT_SIGNATURE_TYPE))
    "unsupported RDP Signature type {signature_type}";;
  bail_if (negb (len serialized - 12 =? from_le n))
    "RDP Signature length header says {len} byte(s), payload has {}";;
  index_range serialized 12 (len serialized).

Section Signature.
Context `{Base64}.

Definition apply_pkcs7_signature (rs : list RdpRecord) (pkcs7 : bytes) : list RdpRecord :=
  insert_or_replace rs (string_record SIGNATURE (b64_encode (serialize_signature pkcs7))).
Definition signature_pkcs7_from_base64 (v : str) : outcome bytes :=
  serialized ← ok_or (b64_decode (trim v)) "decode RDP Signature base64";
  signature_pkcs7_from_serialized serialized.
Definition signature_record_pkcs7 (rs : list RdpRecord) : outcome bytes :=
  record ← ok_or (find_record rs SIGNATURE) "RDP file does not contain a Signature record";
  signature_pkcs7_from_base64 (value record).
End Signature.

(** [pem_text]: the text of a PEM input, [None] for DER. *)
Definition PEM_BEGIN : str := chars "-----BEGIN ".
Definition pem_text (bs : bytes) : outcome (option str) :=
  match from_utf8 bs with
  | Some text =>
      let trimmed := trim_start_matches is_whitespace (trim_start_matches (λ c, c =? BOM) text) in
      if starts_with trimmed PEM_BEGIN then Ok (Some trimmed) else Ok None
  | None =>
      if bytes_start_with bs PEM_BEGIN || bytes_start_with bs [0xEF; 0xBB; 0xBF]
      then Err "PEM input is not valid UTF-8" else Ok None
  end.

(** ** Well-formed records, and the text of records *)

Record record_wf (r : RdpRecord) : Prop := {
  wf_name_colon : COLON ∉ name r;
  wf_name_lf : 10 ∉ name r;
  wf_name_head : head_not blank (name r);
  wf_name_last : last_not blank (name r);
  wf_name_scalars : scalars (name r);
  wf_value_lf : 10 ∉ value r;
  wf_value_head : head_not blank (value r);
  wf_value_last : last_not cr_or_lf (value r);
  wf_value_scalars : scalars (value r) }.

Definition line_of (r : RdpRecord) : str := name r ++ COLON :: as_char (kind r) :: COLON :: value r.

Lemma kind_of_as_char k : kind_of_char (as_char k) = Some k ∧ blank (as_char k) = false.
Proof. by destruct k. Qed.

Lemma parse_line_of r : record_wf r → parse_line (line_of r) = Some r.
Proof.
  intros []. unfold parse_line, line_of.
  rewrite trim_start_head_not_id by (by apply head_not_app).
  rewrite bool_decide_eq_false_2 by (by destruct (name r)).
  rewrite split_once_app by done. cbn [mbind option_bind].
  destruct (kind_of_as_char (kind r)) as [Hk Hb].
  rewrite trim_start_id by done. cbn [mbind option_bind]. rewrite Hk. cbn [mbind option_bind].
  rewrite trim_start_id by done. cbn [strip_prefix]. rewrite Z.eqb_refl. cbn [mbind option_bind].
  rewrite trim_start_head_not_id, !trim_end_last_not_id by done. by destruct r.
Qed.

Lemma parse_line_wf l r : scalars l → 10 ∉ l → parse_line l = Some r → record_wf r.
Proof.
  intros Hs Hlf. unfold parse_line. set (t := trim_start_matches blank l).
  case_bool_decide; [done|]. destruct (split_once COLON t) as [[n rest]|] eqn:Es; [|done].
  apply split_once_Some in Es as [Ht Hn]. cbn [mbind option_bind].
  assert (head_not blank t) as Hth by apply trim_start_head_not.
  assert (∀ c, c ∈ t → c ∈ l) as Htl by (intros c; apply trim_start_elem).
  destruct (trim_start_matches blank rest) as [|c r1] eqn:E1; [done|]. cbn [mbind option_bind].
  destruct (kind_of_char c) as [k|]; [|done]. cbn [mbind option_bind].
  destruct (strip_prefix [COLON] (trim_start_matches blank r1)) as [v|] eqn:E2; [|done].
  cbn [mbind option_bind]. apply strip_prefix_Some in E2. intros [= <-].
  assert (∀ x, x ∈ v → x ∈ l) as Hv.
  { intros x Hx. apply Htl. rewrite Ht, elem_of_app, elem_of_cons. right. right.
    apply (trim_start_elem blank). rewrite E1. apply elem_of_cons. right.
    apply (trim_start_elem blank). rewrite E2. apply elem_of_app. by right. }
  assert (∀ x, x ∈ n → x ∈ l) as Hnl by (intros x Hx; apply Htl; rewrite Ht, elem_of_app; by left).
  split; cbn [name value].
  - intros Hin%trim_end_elem. done.
  - intros Hin%trim_end_elem%Hnl. done.
  - destruct (trim_end_prefix blank n) as [p Hp]. apply (head_not_prefix _ _ (p ++ COLON :: rest)).
    rewrite app_assoc, <-Hp, <-Ht. done.
  - apply trim_end_last_not.
  - apply Forall_forall. intros x Hx%trim_end_elem%Hnl. by eapply Forall_forall in Hs.
  - intros Hin%trim_end_elem%trim_start_elem%Hv. done.
  - set (w := trim_start_matches blank v). destruct (trim_end_prefix cr_or_lf w) as [p Hp].
    apply (head_not_prefix _ _ p). rewrite <-Hp. apply trim_start_head_not.
  - apply trim_end_last_not.
  - apply Forall_forall. intros x Hx%trim_end_elem%trim_start_elem%Hv. by eapply Forall_forall in Hs.
Qed.
Lemma parse_records_wf text : scalars text → Forall record_wf (parse_records text).
Proof.
  intros Hs. unfold parse_records. pose proof (lines_no_lf text) as Hlf.
  apply lines_scalars in Hs. induction Hs as [|l ls Hl Hls IH]; [constructor|].
  apply Forall_cons in Hlf as [Hl10 Hlf]. cbn. destruct (parse_line l) as [r|] eqn:E; [|by apply IH].
  apply Forall_cons_2; [by eapply parse_line_wf|by apply IH].
Qed.

Lemma line_of_no_lf r : record_wf r → 10 ∉ line_of r.
Proof.
  intros [] Hin. unfold line_of in Hin. rewrite elem_of_app, !elem_of_cons in Hin.
  destruct Hin as [?|[?|[Hk|[?|?]]]]; try done. by destruct (kind r).
Qed.
Lemma records_text_cons r rs :
  records_to_text (r :: rs) = line_of r ++ 13 :: 10 :: records_to_text rs.
Proof.
  unfold records_to_text, line_of. cbn [fmap list_fmap concat]. unfold record_to_line at 1.
  by rewrite <-!app_assoc.
Qed.
Lemma parse_records_text rs : Forall record_wf rs → parse_records (records_to_text rs) = rs.
Proof.
  induction 1 as [|r rs Hr _ IH]; [done|]. rewrite records_text_cons. unfold parse_records.
  rewrite lines_crlf by (by apply line_of_no_lf). cbn [omap list_omap].
  rewrite parse_line_of by done. f_equal. apply IH.
Qed.
Lemma records_text_scalars rs : Forall record_wf rs → scalars (records_to_text rs).
Proof.
  induction 1 as [|r rs [] _ IH]; [constructor|]. rewrite records_text_cons. unfold line_of.
  rewrite !Forall_app, !Forall_cons. split_and!; try done. by destruct (kind r).
Qed.

Lemma decode_encode_native text : scalars text → decode_rdp_text (encode_native_unicode text) = text.
Proof.
  intros Hs. unfold decode_rdp_text, encode_native_unicode, bytes_start_with.
  change (take (length [0xFF; 0xFE]) ((byte_of <$> [0xFF; 0xFE]) ++ ?r)) with (byte_of <$> [0xFF; 0xFE]).
  rewrite bool_decide_eq_true_2 by done.
  change (drop 2 ((byte_of <$> [0xFF; 0xFE]) ++ ?r)) with r.
  rewrite le_u16s_bytes by (by apply encode_utf16_units). by apply from_utf16_lossy_encode.
Qed.

(** ** Records as a map from names without case *)

Definition same_name (a b : str) : Prop := to_ascii_lowercase a = to_ascii_lowercase b.
Lemma eq_ignore_spec a b : eq_ignore_ascii_case a b = true ↔ same_name a b.
Proof. apply bool_decide_eq_true. Qed.
Lemma find_record_cons r rs n :
  find_record (r :: rs) n = if eq_ignore_ascii_case (name r) n then Some r else find_record rs n.
Proof. done. Qed.

Lemma find_insert rs r n :
  find_record (insert_or_replace rs r) n =
  if eq_ignore_ascii_case (name r) n then Some r else find_record rs n.
Proof.
  induction rs as [|r0 rs IH]; [done|]. cbn [insert_or_replace].
  destruct (eq_ignore_ascii_case (name r0) (name r)) eqn:E.
  - rewrite !find_record_cons. destruct (eq_ignore_ascii_case (name r) n) eqn:E1; [done|].
    destruct (eq_ignore_ascii_case (name r0) n) eqn:E2; [|done].
    apply eq_ignore_spec in E, E2. unfold same_name in *.
    assert (eq_ignore_ascii_case (name r) n = true) by (apply eq_ignore_spec; unfold same_name; congruence).
    congruence.
  - rewrite !find_record_cons, IH. destruct (eq_ignore_ascii_case (name r0) n) eqn:E2; [|done].
    destruct (eq_ignore_ascii_case (name r) n) eqn:E1; [|done].
    apply eq_ignore_spec in E1, E2. unfold same_name in *.
    assert (eq_ignore_ascii_case (name r0) (name r) = true)
      by (apply eq_ignore_spec; unfold same_name; congruence). congruence.
Qed.
Lemma find_record_Some rs n r : find_record rs n = Some r → r ∈ rs ∧ same_name (name r) n.
Proof.
  induction rs as [|r0 rs IH]; [done|]. rewrite find_record_cons.
  destruct (eq_ignore_ascii_case (name r0) n) eqn:E.
  - intros [= ->]. split; [by left|by apply eq_ignore_spec].
  - intros [? ?]%IH. split; [by right|done].
Qed.
Lemma insert_wf rs r : Forall record_wf rs → record_wf r → Forall record_wf (insert_or_replace rs r).
Proof.
  intros H Hr. induction H as [|r0 rs Hr0 H IH]; cbn; [by apply Forall_cons_2; [|constructor]|].
  destruct (eq_ignore_ascii_case _ _); by apply Forall_cons_2.
Qed.
Lemma remove_wf rs n : Forall record_wf rs → Forall record_wf (remove_record rs n).
Proof.
  unfold remove_record. induction 1 as [|r0 rs Hr0 H IH]; cbn; [constructor|].
  destruct (negb _); [by apply Forall_cons_2|done].
Qed.

(** ** The signed scope *)

(** Text a record made by the tool may hold: printable ASCII, no blank first. *)
Definition printable (c : char) : bool := (32 <=? c) && (c <? 127).
Definition good_name (n : str) : Prop :=
  Forall (λ c, printable c = true ∧ c ≠ 44 ∧ c ≠ COLON) n ∧ n ≠ [] ∧ head_not blank n ∧ last_not blank n.
Lemma printable_props s : Forall (λ c, printable c = true) s →
  scalars s ∧ (10 ∉ s) ∧ last_not cr_or_lf s.
Proof.
  intros Hs. split_and!.
  - eapply Forall_impl; [exact Hs|]. cbn. unfold printable. intros c Hc. zbool. apply is_scalar_spec. lia.
  - intros Hin. eapply Forall_forall in Hs; [|done]. unfold printable in Hs. zbool. lia.
  - intros c s' ->. apply Forall_app in Hs as [_ Hs]. apply Forall_cons in Hs as [Hc _].
    unfold printable, cr_or_lf in *. zbool. by run.
Qed.
Lemma good_name_check n :
  forallb (λ c, printable c && negb (c =? 44) && negb (c =? COLON)) n && negb (bool_decide (n = []))
  && negb (blank (nth 0 n 0)) && negb (blank (List.last n 0)) = true → good_name n.
Proof.
  intros H. zbool. split; [|split; [done|split]].
  - rewrite forallb_forall in H. apply Forall_forall. intros c Hc. apply list_elem_of_In, H in Hc.
    zbool. done.
  - by intros c s' ->.
  - intros c s' ->. match goal with H : blank (List.last _ _) = false |- _ => by rewrite List.last_last in H end.
Qed.
Lemma sensitive_good : Forall (λ s : str * bool, good_name s.1) SENSITIVE_SETTINGS.
Proof.
  unfold SENSITIVE_SETTINGS.
  repeat (apply Forall_cons_2; [apply good_name_check; by vm_compute|]). apply Forall_nil_2.
Qed.

Lemma scope_loop_names rs settings acc names :
  Forall (λ s : str * bool, good_name s.1) settings → Forall good_name acc →
  scope_loop rs settings acc = Ok names → Forall good_name names.
Proof.
  intros Hs. revert acc. induction Hs as [|[n req] settings Hn _ IH]; intros acc Ha; cbn [scope_loop];
    [by intros [= ->]|].
  destruct (find_record rs n); [|destruct req; [done|by apply IH]].
  intros (_ & _ & H)%bind_Ok. eapply IH; [|done]. apply Forall_app_2; [done|].
  by apply Forall_cons_2; [|constructor].
Qed.
(** The loop keeps the names that are there, in order. *)
Lemma scope_loop_filter rs settings acc names :
  scope_loop rs settings acc = Ok names →
  names = acc ++ (filter (λ n, is_Some (find_record rs n)) (fst <$> settings)) ∧
  ∀ n, (n, true) ∈ settings → ∃ r, find_record rs n = Some r ∧ value r ≠ [].
Proof.
  revert acc. induction settings as [|[n req] settings IH]; intros acc; cbn [scope_loop].
  - intros [= <-]. split; [by rewrite app_nil_r|]. by intros n Hn%not_elem_of_nil.
  - cbn [fmap list_fmap fst]. destruct (find_record rs n) as [r|] eqn:E.
    + rewrite bail_bind_Ok. intros [Hv H]. apply IH in H as [-> Hreq].
      rewrite filter_cons_True by by eexists. split; [by rewrite <-app_assoc|].
      intros n' [Heq|Hin]%elem_of_cons; [|by apply Hreq].
      injection Heq as -> <-. exists r. split; [done|]. cbn in Hv. by zbool.
    + destruct req; [done|]. intros H%IH. destruct H as [-> Hreq].
      rewrite filter_cons_False by (rewrite E; by apply is_Some_None || intros [? ?]). split; [done|].
      intros n' [Heq|Hin]%elem_of_cons; [done|by apply Hreq].
Qed.

Lemma join_printable names :
  Forall good_name names → Forall (λ c, printable c = true) (join [44] names).
Proof.
  induction 1 as [|n names [Hn _] Hns IH]; [constructor|].
  assert (Forall (λ c, printable c = true) n) as Hp
    by (eapply Forall_impl; [exact Hn|]; by intros c (? & _)).
  destruct names as [|m names]; [done|].
  change (join [44] (n :: m :: names)) with (n ++ 44 :: join [44] (m :: names)).
  apply Forall_app_2; [done|]. by apply Forall_cons_2.
Qed.
Lemma join_head names : Forall good_name names → head_not blank (join [44] names).
Proof.
  intros [|n names' (_ & Hne & Hh & _) _]; [by intros c s'|].
  destruct names' as [|m names']; [done|].
  change (join [44] (n :: m :: names')) with (n ++ 44 :: join [44] (m :: names')). by apply head_not_app.
Qed.
Lemma scope_names_split names :
  Forall good_name names →
  List.filter (λ s, negb (bool_decide (s = []))) (split 44 (join [44] names)) = names.
Proof.
  intros H. destruct names as [|n names]; [done|].
  rewrite split_join; [|done|].
  - induction H as [|m ms (_ & Hne & _) _ IH]; [done|]. cbn.
    rewrite bool_decide_eq_false_2 by done. cbn. by f_equal.
  - eapply Forall_impl; [exact H|]. intros m (Hm & _) Hin. eapply Forall_forall in Hm as (_ & ? & _); done.
Qed.

Lemma scope_text_Ok rs names acc text :
  scope_text rs names acc = Ok text ↔
  ∃ found, mapM (find_record rs) names = Some found ∧ text = acc ++ records_to_text found.
Proof.
  revert acc. induction names as [|n names IH]; intros acc; cbn [scope_text mapM].
  - split; [intros [= <-]; exists []; split; [done|by rewrite app_nil_r]|].
    intros (found & [= <-] & ->). by rewrite app_nil_r.
  - destruct (find_record rs n) as [r|]; cbn [ok_or mbind outcome_bind option_bind].
    + rewrite IH. split.
      * intros (found & Hf & ->). exists (r :: found). rewrite Hf. split; [done|].
        by rewrite <-app_assoc.
      * intros (found' & Hf & ->). destruct (mapM _ names) as [found|]; [|done]. injection Hf as <-.
        exists found. split; [done|]. by rewrite <-app_assoc.
    + split; [done|by intros (? & ? & _)].
Qed.
Lemma mapM_find_wf rs names found :
  Forall record_wf rs → mapM (find_record rs) names = Some found → Forall record_wf found.
Proof.
  intros Hw. revert found. induction names as [|n names IH]; intros found; cbn; [by intros [= <-]; constructor|].
  destruct (find_record rs n) as [r|] eqn:E; [|done]. cbn.
  destruct (mapM _ names) as [f|]; [|done]. cbn. intros [= <-].
  apply Forall_cons_2; [|by apply IH]. apply find_record_Some in E as [Hin _]. by eapply Forall_forall in Hw.
Qed.
(** The blob is the text of the scope's records and of the scope itself. *)
Lemma blob_Ok rs names blob :
  Forall good_name names →
  secure_settings_blob rs (join [44] names) = Ok blob ↔
  ∃ found sc, mapM (find_record rs) names = Some found ∧ find_record rs SIGN_SCOPE = Some sc ∧
    blob = u16_le_bytes (encode_utf16 (records_to_text (found ++ [sc])) ++ [0]).
Proof.
  intros Hn. unfold secure_settings_blob. rewrite scope_names_split by done. rewrite bind_Ok. split.
  - intros (text & (found & Hf & ->)%scope_text_Ok & H). inv_ok H. subst.
    exists found, r. split; [done|]. split; [done|]. do 3 f_equal.
    unfold records_to_text. rewrite fmap_app, concat_app. cbn. by rewrite app_nil_r.
  - intros (found & sc & Hf & Hsc & ->). eexists. split; [apply scope_text_Ok; by exists found|].
    rewrite Hsc. cbn [ok_or mbind outcome_bind]. do 4 f_equal.
    unfold records_to_text. rewrite fmap_app, concat_app. cbn. by rewrite app_nil_r.
Qed.

Lemma string_record_wf n v :
  good_name n → Forall (λ c, printable c = true) v → head_not blank v → record_wf (string_record n v).
Proof.
  intros (Hn & Hne & Hh & Hl) Hv Hvh.
  assert (Forall (λ c, printable c = true) n) as Hp by (eapply Forall_impl; [exact Hn|]; by intros c (? & _)).
  destruct (printable_props n Hp) as (? & ? & _), (printable_props v Hv) as (? & ? & ?).
  split; cbn; try done. intros Hin. eapply Forall_forall in Hn as (_ & _ & ?); done.
Qed.
Lemma tool_names_good : good_name SIGN_SCOPE ∧ good_name SIGNATURE ∧ good_name ALTERNATE_FULL_ADDRESS.
Proof. split_and!; apply good_name_check; by vm_compute. Qed.
Lemma alternate_wf v : 
  head_not blank v → last_not cr_or_lf v → scalars v → 10 ∉ v →
  record_wf (string_record ALTERNATE_FULL_ADDRESS v).
Proof.
  intros ????. destruct tool_names_good as (_ & _ & (Hn & Hne & Hh & Hl)).
  assert (Forall (λ c, printable c = true) ALTERNATE_FULL_ADDRESS) as Hp
    by (eapply Forall_impl; [exact Hn|]; by intros c (? & _)).
  destruct (printable_props _ Hp) as (? & ? & _).
  split; cbn; try done. intros Hin. eapply Forall_forall in Hn as (_ & _ & ?); done.
Qed.

Lemma prepare_inv rs p :
  Forall record_wf rs → prepare_for_signature rs = Ok p →
  ∃ rs1 names, Forall record_wf rs1 ∧ scope_loop rs1 SENSITIVE_SETTINGS [] = Ok names ∧
    is_Some (find_record rs1 ALTERNATE_FULL_ADDRESS) ∧
    sign_scope p = join [44] names ∧ Forall good_name names ∧
    records p = insert_or_replace rs1 (string_record SIGN_SCOPE (join [44] names)) ∧
    Forall record_wf (records p) ∧
    secure_settings_blob (records p) (join [44] names) = Ok (secure_blob p).
Proof.
  intros Hw H. unfold prepare_for_signature in H.
  set (rs0 := remove_record (remove_record rs SIGN_SCOPE) SIGNATURE) in *.
  assert (Forall record_wf rs0) as Hw0 by (by apply remove_wf, remove_wf).
  apply bind_Ok in H as (addr & Haddr%ok_or_Ok & H).
  apply bind_Some in Haddr as (fr & Hfr & Hv). case_bool_decide; [done|]. injection Hv as <-.
  apply find_record_Some in Hfr as [Hin _]. eapply Forall_forall in Hin; [|exact Hw0].
  destruct Hin as [_ _ _ _ _ ????]. destruct tool_names_good as (Hgs & _ & _).
  set (rs1 := match find_record rs0 ALTERNATE_FULL_ADDRESS with None => _ | Some _ => _ end) in *.
  assert (Forall record_wf rs1 ∧ is_Some (find_record rs1 ALTERNATE_FULL_ADDRESS)) as [Hw1 Halt].
  { unfold rs1. destruct (find_record rs0 ALTERNATE_FULL_ADDRESS) eqn:E; [by rewrite E|].
    split; [apply insert_wf; [done|by apply alternate_wf]|]. rewrite find_insert.
    by eexists. }
  apply bind_Ok in H as (names & Hnames & H). apply bind_Ok in H as (blob & Hblob & H).
  apply (inj Ok) in H as <-. cbn [records sign_scope secure_blob].
  assert (Forall good_name names) as Hg by (by eapply scope_loop_names; [apply sensitive_good|constructor|]).
  exists rs1, names. do 6 (split; [done|]). split; [|done].
  apply insert_wf; [done|]. apply string_record_wf; [done|by apply join_printable|by apply join_head].
Qed.

(** Names of the signed scope are not the tool's own records. *)
Lemma sensitive_not_tool n : n ∈ (fst <$> SENSITIVE_SETTINGS) →
  eq_ignore_ascii_case SIGNATURE n = false ∧ eq_ignore_ascii_case SIGN_SCOPE n = false.
Proof.
  intros Hn.
  assert (Forall (λ n, negb (eq_ignore_ascii_case SIGNATURE n) && negb (eq_ignore_ascii_case SIGN_SCOPE n) = true)
    (fst <$> SENSITIVE_SETTINGS)) as H by (by apply forallb_Forall).
  eapply Forall_forall in H; [|exact Hn]. zbool. done.
Qed.
Lemma names_sensitive rs names :
  scope_loop rs SENSITIVE_SETTINGS [] = Ok names → Forall (λ n, n ∈ (fst <$> SENSITIVE_SETTINGS)) names.
Proof.
  intros [-> _]%scope_loop_filter. apply Forall_forall. intros n Hn.
  by apply list_elem_of_filter in Hn as [_ ?].
Qed.
Lemma mapM_find_insert rs r names :
  Forall (λ n, eq_ignore_ascii_case (name r) n = false) names →
  mapM (find_record (insert_or_replace rs r)) names = mapM (find_record rs) names.
Proof.
  induction 1 as [|n names Hn _ IH]; [done|]. cbn. by rewrite find_insert, Hn, IH.
Qed.

Lemma serialize_roundtrip pkcs7 :
  len pkcs7 < U32 → signature_pkcs7_from_serialized (serialize_signature pkcs7) = Ok pkcs7.
Proof.
  intros Hl. pose proof (len_nonneg pkcs7). unfold serialize_signature.
  rewrite Z.mod_small by lia. set (s := _ ++ _).
  assert (len s = 12 + len pkcs7) as Hs by (unfold s; rewrite !len_app, !len_to_le; lia).
  assert (sub s 0 4 = to_le 4 SIGNATURE_VERSION) as H1.
  { unfold s. rewrite sub_app_l, sub_full_ge by (rewrite ?len_to_le; lia). done. }
  assert (sub s 4 8 = to_le 4 CERT_SIGNATURE_TYPE) as H2.
  { unfold s. rewrite sub_app_r, sub_app_l, len_to_le by (rewrite ?len_to_le; lia).
    apply sub_full_ge. rewrite len_to_le. lia. }
  assert (sub s 8 12 = to_le 4 (len pkcs7)) as H3.
  { unfold s. rewrite !sub_app_r, sub_app_l, !len_to_le by (rewrite ?len_to_le; lia).
    apply sub_full_ge. rewrite len_to_le. lia. }
  assert (sub s 12 (len s) = pkcs7) as H4.
  { rewrite Hs. unfold s. rewrite !sub_app_r, !len_to_le by (rewrite ?len_to_le; lia).
    trans (sub pkcs7 0 (len pkcs7)); [f_equal; lia|apply sub_full]. }
  unfold signature_pkcs7_from_serialized. run.
  rewrite !index_range_in by lia. run. rewrite H1, H2, H3, H4.
  rewrite !from_to_le_small by (unfold SIGNATURE_VERSION, CERT_SIGNATURE_TYPE; change (Z.of_nat 4 * 8) with 32; lia).
  rewrite !Z.eqb_refl. by run.
Qed.

(** ** Properties *)

(** Reading a file back gives the records written: for well-formed records
    the Unicode file the tool writes decodes and parses to the same records,
    and whatever text was parsed, writing its records and parsing again
    changes nothing. *)
Theorem rdp_file_roundtrip rs text :
  (Forall record_wf rs →
   parse_records (decode_rdp_text (encode_native_unicode (records_to_text rs))) = rs) ∧
  (scalars text → parse_records (records_to_text (parse_records text)) = parse_records text).
Proof.
  split.
  - intros Hw. rewrite decode_encode_native by (by apply records_text_scalars). by apply parse_records_text.
  - intros Hs. by apply parse_records_text, parse_records_wf.
Qed.

(** C5: What the tool signs, it can verify. After preparing a file, putting the
    signature in and writing the file, a reader finds the same records, the
    PKCS#7 that was put in, the scope that was signed, and computes from them
    exactly the blob that was signed. *)
Theorem rdp_sign_then_verify `{Base64} rs p pkcs7 :
  Forall record_wf rs → prepare_for_signature rs = Ok p → len pkcs7 < U32 →
  let file := encode_native_unicode (records_to_text (apply_pkcs7_signature (records p) pkcs7)) in
  let rs' := parse_records (decode_rdp_text file) in
  rs' = apply_pkcs7_signature (records p) pkcs7 ∧
  signature_record_pkcs7 rs' = Ok pkcs7 ∧
  (∃ sc, find_record rs' SIGN_SCOPE = Some sc ∧ value sc = sign_scope p) ∧
  secure_settings_blob rs' (sign_scope p) = Ok (secure_blob p).
Proof.
  cbn zeta. intros Hw Hp Hl.
  destruct (prepare_inv rs p Hw Hp) as (rs1 & names & Hw1 & Hloop & _ & Hscope & Hg & Hrec & Hwp & Hblob).
  set (b := b64_encode (serialize_signature pkcs7)).
  assert (Forall (λ c, plain c = true) b) as Hb by (eapply Forall_impl; [apply b64_alphabet|]; apply base64_plain).
  assert (Forall record_wf (apply_pkcs7_signature (records p) pkcs7)) as Hws.
  { destruct tool_names_good as (_ & Hgs & _). apply insert_wf; [done|].
    apply string_record_wf; [done| |].
    - eapply Forall_impl; [exact Hb|]. intros c Hc%plain_spec. unfold printable. by run.
    - fold b. intros c s' Heq. rewrite Heq in Hb. apply Forall_cons in Hb as [Hc%plain_spec _].
      unfold blank. by run. }
  rewrite decode_encode_native, parse_records_text by (done || by apply records_text_scalars).
  assert (find_record (apply_pkcs7_signature (records p) pkcs7) SIGN_SCOPE
          = Some (string_record SIGN_SCOPE (join [44] names))) as Hsc.
  { unfold apply_pkcs7_signature. rewrite find_insert, Hrec, find_insert. done. }
  split; [done|]. split; [|split].
  - unfold signature_record_pkcs7, apply_pkcs7_signature. rewrite find_insert.
    fold b. change (eq_ignore_ascii_case (name (string_record SIGNATURE b)) SIGNATURE) with true.
    cbn [ok_or mbind outcome_bind string_record value]. unfold signature_pkcs7_from_base64.
    rewrite plains_trim by done. unfold b. rewrite b64_roundtrip. cbn [ok_or mbind outcome_bind].
    by apply serialize_roundtrip.
  - eexists. split; [exact Hsc|]. by rewrite Hscope.
  - rewrite Hscope. apply blob_Ok in Hblob as (found & sc & Hf & Hs & ->); [|done].
    apply blob_Ok; [done|]. exists found, sc. split; [|split; [|done]].
    + unfold apply_pkcs7_signature. rewrite mapM_find_insert; [done|].
      eapply Forall_impl; [by eapply names_sensitive|]. intros n Hn. by apply sensitive_not_tool.
    + rewrite Hsc. rewrite Hrec, find_insert in Hs. by injection Hs as <-.
Qed.
Definition test_records : list RdpRecord :=
  [string_record (chars "full address") (chars "host:3389"); mk_record (chars "audiomode") Integer (chars "0");
   string_record (chars "username") (chars "me")].
Lemma test_records_wf : Forall record_wf test_records.
Proof.
  replace test_records with (parse_records (records_to_text test_records)) by (by vm_compute).
  apply parse_records_wf. apply forallb_Forall. by vm_compute.
Defined.
Definition test_prepared : PreparedRdpSignature :=
  match prepare_for_signature test_records with Ok p => p | _ => mk_prepared [] [] [] end.
Lemma rdp_sign_then_verify_witness :
  let file := encode_native_unicode (records_to_text
    (@apply_pkcs7_signature StdBase64 (records test_prepared) (lit "sig"))) in
  let rs' := parse_records (decode_rdp_text file) in
  rs' = @apply_pkcs7_signature StdBase64 (records test_prepared) (lit "sig") ∧
  @signature_record_pkcs7 StdBase64 rs' = Ok (lit "sig") ∧
  (∃ sc, find_record rs' SIGN_SCOPE = Some sc ∧ value sc = sign_scope test_prepared) ∧
  secure_settings_blob rs' (sign_scope test_prepared) = Ok (secure_blob test_prepared).
Proof.
  cbn zeta. apply (@rdp_sign_then_verify StdBase64 test_records).
  - exact test_records_wf.
  - by vm_compute.
  - by vm_compute.
Defined.

(** The signed blob binds the settings: two files with well-formed records
    whose blobs over the same scope agree have the same record, name spelling,
    kind and value, for every setting of the scope and for the scope itself. *)
Theorem rdp_blob_binds rs1 rs2 names blob :
  Forall record_wf rs1 → Forall record_wf rs2 → Forall good_name names →
  secure_settings_blob rs1 (join [44] names) = Ok blob →
  secure_settings_blob rs2 (join [44] names) = Ok blob →
  find_record rs1 SIGN_SCOPE = find_record rs2 SIGN_SCOPE ∧
  Forall (λ n, is_Some (find_record rs1 n) ∧ find_record rs1 n = find_record rs2 n) names.
Proof.
  intros Hw1 Hw2 Hg (f1 & s1 & Hf1 & Hs1 & ->)%blob_Ok (f2 & s2 & Hf2 & Hs2 & Heq)%blob_Ok; [|done..].
  assert (∀ rs f s, Forall record_wf rs → mapM (find_record rs) names = Some f →
    find_record rs SIGN_SCOPE = Some s → Forall record_wf (f ++ [s])) as Hw.
  { intros rs f s Hw Hf Hs. apply Forall_app_2; [by eapply mapM_find_wf|].
    apply find_record_Some in Hs as [Hin _]. eapply Forall_forall in Hin; [|exact Hw].
    by apply Forall_cons_2; [|constructor]. }
  pose proof (Hw _ _ _ Hw1 Hf1 Hs1) as Hwf1. pose proof (Hw _ _ _ Hw2 Hf2 Hs2) as Hwf2.
  apply (f_equal le_u16s) in Heq. rewrite !le_u16s_bytes in Heq.
  2, 3: (apply Forall_app_2; [by apply encode_utf16_units, records_text_scalars|];
    by apply Forall_cons_2; [|constructor]).
  apply app_inj_tail in Heq as [Heq _].
  apply encode_utf16_inj in Heq; [|by apply records_text_scalars..].
  apply (f_equal parse_records) in Heq. rewrite !parse_records_text in Heq by done.
  apply app_inj_tail in Heq as [-> ->]. split; [congruence|].
  clear -Hf1 Hf2. revert f2 Hf1 Hf2. induction names as [|n names IH]; intros f Hf1 Hf2; [constructor|].
  cbn in Hf1, Hf2. destruct (find_record rs1 n) as [r1|] eqn:E1; [|done].
  destruct (find_record rs2 n) as [r2|] eqn:E2; [|done]. cbn in Hf1, Hf2.
  destruct (mapM (find_record rs1) names) as [g1|]; [|done].
  destruct (mapM (find_record rs2) names) as [g2|] eqn:E; [|done]. cbn in Hf1, Hf2.
  injection Hf1 as <-. injection Hf2 as -> ->. apply Forall_cons_2; [|by apply (IH g1)].
  rewrite E1, E2. by split; [eexists|].
Qed.
Lemma rdp_blob_binds_witness :
  find_record (records test_prepared) SIGN_SCOPE
    = find_record (@apply_pkcs7_signature StdBase64 (records test_prepared) (lit "sig")) SIGN_SCOPE ∧
  Forall (λ n, is_Some (find_record (records test_prepared) n) ∧
    find_record (records test_prepared) n
    = find_record (@apply_pkcs7_signature StdBase64 (records test_prepared) (lit "sig")) n)
    [chars "Full Address"; chars "Alternate Full Address"; chars "AudioMode"].
Proof.
  apply (rdp_blob_binds _ _ _ (secure_blob test_prepared)).
  - replace (records test_prepared) with (parse_records (records_to_text (records test_prepared)))
      by (by vm_compute). apply parse_records_wf, forallb_Forall. by vm_compute.
  - replace (@apply_pkcs7_signature StdBase64 (records test_prepared) (lit "sig")) with
      (parse_records (records_to_text (@apply_pkcs7_signature StdBase64 (records test_prepared) (lit "sig"))))
      by (by vm_compute). apply parse_records_wf, forallb_Forall. by vm_compute.
  - repeat (apply Forall_cons_2; [apply good_name_check; by vm_compute|]). apply Forall_nil_2.
  - by vm_compute.
  - by vm_compute.
Defined.

(** The signed scope is complete: it lists, in the table's order, exactly
    the sensitive settings present in the prepared file, among them the full
    address, which is not empty, and the alternate full address. *)
Theorem rdp_scope_complete rs p :
  Forall record_wf rs → prepare_for_signature rs = Ok p →
  sign_scope p = join [44]
    (filter (λ n, is_Some (find_record (records p) n)) (fst <$> SENSITIVE_SETTINGS)) ∧
  is_Some (find_record (records p) ALTERNATE_FULL_ADDRESS) ∧
  ∃ r, find_record (records p) FULL_ADDRESS = Some r ∧ value r ≠ [].
Proof.
  intros Hw Hp.
  destruct (prepare_inv rs p Hw Hp) as (rs1 & names & Hw1 & Hloop & Halt & Hscope & _ & Hrec & _).
  assert (∀ n, n ∈ (fst <$> SENSITIVE_SETTINGS) → find_record (records p) n = find_record rs1 n) as Hfind.
  { intros n Hn. rewrite Hrec, find_insert. change (name (string_record SIGN_SCOPE _)) with SIGN_SCOPE.
    by rewrite (proj2 (sensitive_not_tool n Hn)). }
  apply scope_loop_filter in Hloop as [-> Hreq]. split; [|split].
  - rewrite Hscope. f_equal. cbn [app].
    assert (Forall (λ n, find_record (records p) n = find_record rs1 n) (fst <$> SENSITIVE_SETTINGS)) as HF
      by (apply Forall_forall; exact Hfind).
    clear -HF. induction HF as [|n names Hn _ IH]; [done|].
    destruct (find_record rs1 n) eqn:E.
    + rewrite !filter_cons_True by (rewrite ?Hn, ?E; by eexists). by rewrite IH.
    + rewrite !filter_cons_False by (rewrite ?Hn, ?E; by intros [? ?]). done.
  - rewrite Hrec, find_insert.
    by change (eq_ignore_ascii_case (name (string_record SIGN_SCOPE _)) ALTERNATE_FULL_ADDRESS) with false.
  - rewrite Hfind; [apply Hreq; by left|]. by left.
Qed.
Lemma rdp_scope_complete_witness :
  sign_scope test_prepared = join [44]
    (filter (λ n, is_Some (find_record (records test_prepared) n)) (fst <$> SENSITIVE_SETTINGS)) ∧
  is_Some (find_record (records test_prepared) ALTERNATE_FULL_ADDRESS) ∧
  ∃ r, find_record (records test_prepared) FULL_ADDRESS = Some r ∧ value r ≠ [].
Proof. apply (rdp_scope_complete test_records); [exact test_records_wf|by vm_compute]. Defined.
