(* ===== verification/Tlv.v ===== *)
(** The DER reader and writer of the online trust checks:
    [read_len], [read_tlv], [expect_tlv] and [push_der_*] of
    [crates/psign-authenticode-trust/src/online.rs]. *)

From S2P Require Import Prelude.

(** [bs.first().copied() == Some(tag)] and [bs.get(pos).copied() == Some(tag)] *)
Definition first_is (bs : bytes) (tag : Z) : bool := bool_decide (u8 <$> head bs = Some tag).
Definition at_is (bs : bytes) (pos tag : Z) : bool := bool_decide (u8 <$> get_at bs pos = Some tag).

(** The loop over the octets of a long length, with [len] and [pos]. *)
Fixpoint read_len_octets (input : bytes) (n : nat) (pos acc : Z) : outcome (Z * Z) :=
  match n with
  | O => Ok (pos, acc)
  | S n' =>
      b ← ok_or (get_at input pos) "truncated length";
      read_len_octets input n' (pos + 1) (Z.lor (Z.shiftl acc 8) (u8 b))
  end.
(** The octets after the length, and the length. *)
Definition read_len (input : bytes) (pos : Z) : outcome (Z * Z) :=
  first ← ok_or (get_at input pos) "missing length";
  let pos := pos + 1 in
  if u8 first <? 0x80 then Ok (pos, u8 first) else
  let n := Z.land (u8 first) 0x7f in
  bail_if ((n =? 0) || (3 <? n)) "unsupported DER length form";;
  read_len_octets input (Z.to_nat n) pos 0.

Definition expect_tlv (input : bytes) (tag : Z) : outcome bytes :=
  bail_if (negb (first_is input tag)) "unexpected tag";;
  '(body_start, n) ← read_len input 1;
  end_ ← ok_or (checked_add64 body_start n) "TLV length overflow";
  bail_if (negb (end_ =? len input)) "TLV trailing bytes";;
  index_range input body_start end_.

(** The TLV at [pos], and the position after it. *)
Definition read_tlv (input : bytes) (pos : Z) : outcome (bytes * Z) :=
  bail_if (len input <=? pos) "missing TLV tag";;
  '(body_start, n) ← read_len input (pos + 1);
  end_ ← ok_or (checked_add64 body_start n) "TLV length overflow";
  bail_if (len input <? end_) "TLV length exceeds input";;
  tlv ← index_range input pos end_;
  Ok (tlv, end_).

Definition push_der_len (out : bytes) (n : Z) : bytes :=
  if n <? 0x80 then out ++ [byte_of n]
  else if n <=? 0xff then out ++ [byte_of 0x81; byte_of n]
  else out ++ [byte_of 0x82; byte_of (Z.shiftr n 8); byte_of n].
Definition push_der_tlv (out : bytes) (tag : Z) (body : bytes) : bytes :=
  push_der_len (out ++ [byte_of tag]) (len body) ++ body.
Definition push_der_sequence (out body : bytes) : bytes := push_der_tlv out 0x30 body.

(** ** What a successful read says *)

Lemma read_len_octets_bounds input n pos acc p v :
  0 <= pos → read_len_octets input n pos acc = Ok (p, v) →
  p = pos + Z.of_nat n ∧ (0 <= acc → 0 <= v) ∧ (0 < Z.of_nat n → p <= len input).
Proof.
  revert pos acc. induction n as [|n IH]; intros pos acc Hp; cbn [read_len_octets].
  - intros [= <- <-]. lia.
  - intros (b & Hb & Hr)%bind_Ok. apply ok_or_Ok in Hb. unfold get_at in Hb.
    destruct (_ && _) eqn:E in Hb; [|done]. zbool.
    destruct (IH (pos + 1) _ ltac:(lia) Hr) as (-> & Hv & Hl). split; [lia|]. split; [|lia].
    intros Ha. apply Hv. rewrite lor_shiftl_8 by apply u8_range. pose proof (u8_range b). lia.
Qed.
Lemma read_len_bounds input pos p v :
  0 <= pos → read_len input pos = Ok (p, v) → pos < p ∧ p <= len input ∧ 0 <= v.
Proof.
  intros Hp. unfold read_len. intros (b & Hb & Hr)%bind_Ok. apply ok_or_Ok in Hb.
  unfold get_at in Hb. destruct (_ && _) eqn:E in Hb; [|done]. zbool. pose proof (u8_range b).
  destruct (u8 b <? 0x80) eqn:E1; [injection Hr as <- <-; lia|].
  apply bail_bind_Ok in Hr as [E2 Hr]. zbool.
  pose proof (Z.land_nonneg (u8 b) 0x7f) as Hn.
  apply read_len_octets_bounds in Hr as (-> & Hv & Hl); [|lia]. lia.
Qed.
Lemma read_tlv_Ok input pos tlv pos' :
  0 <= pos → read_tlv input pos = Ok (tlv, pos') →
  pos < pos' ∧ pos' <= len input ∧ tlv = sub input pos pos'.
Proof.
  intros Hp. unfold read_tlv. intros (_ & Hr)%bail_bind_Ok.
  apply bind_Ok in Hr as ([bst n] & Hl & Hr). apply bind_Ok in Hr as (e & He & Hr).
  apply ok_or_Ok in He. apply bail_bind_Ok in Hr as [E Hr]. apply bind_Ok in Hr as (t & Ht & [= <- <-]).
  apply read_len_bounds in Hl as (? & ? & ?); [|lia]. unfold checked_add64 in He.
  destruct (_ <? _) in He; [|done]. injection He as <-. apply index_range_Ok in Ht as (_ & _ & _ & ->).
  zbool. split; [lia|]. split; [lia|done].
Qed.
Lemma expect_tlv_shorter input tag body : expect_tlv input tag = Ok body → len body < len input.
Proof.
  unfold expect_tlv. intros (_ & Hr)%bail_bind_Ok. apply bind_Ok in Hr as ([bst n] & Hl & Hr).
  apply bind_Ok in Hr as (e & He & Hr). apply bail_bind_Ok in Hr as [E Hr]. zbool. subst e.
  apply read_len_bounds in Hl as (? & ? & ?); [|lia]. apply index_range_Ok in Hr as (? & ? & ? & ->).
  rewrite len_sub; lia.
Qed.

(** ** Nothing panics *)
Lemma read_len_octets_not_panic input n pos acc : read_len_octets input n pos acc ≠ Panic.
Proof. revert pos acc. induction n as [|n IH]; intros; cbn; nopanic. Qed.
#[export] Hint Resolve read_len_octets_not_panic : psign.
Lemma read_len_not_panic input pos : read_len input pos ≠ Panic.
Proof. unfold read_len. nopanic. Qed.
#[export] Hint Resolve read_len_not_panic : psign.
Lemma expect_tlv_not_panic input tag : expect_tlv input tag ≠ Panic.
Proof.
  unfold expect_tlv. nopanic. zbool. apply read_len_bounds in E0 as (? & ? & ?); [|lia].
  unfold checked_add64 in E1. destruct (_ <? _) in E1; [|done]. injection E1 as E1.
  apply index_range_not_panic; lia.
Qed.
Lemma read_tlv_not_panic input pos : 0 <= pos → read_tlv input pos ≠ Panic.
Proof.
  intros Hp. unfold read_tlv. nopanic. zbool. apply read_len_bounds in E0 as (? & ? & ?); [|lia].
  unfold checked_add64 in E1. destruct (_ <? _) in E1; [|done]. injection E1 as E1.
  apply index_range_not_panic; lia.
Qed.
#[export] Hint Resolve expect_tlv_not_panic : psign.

(** ** Reading back what was written *)

Definition der_tlv (tag : Z) (body : bytes) : bytes := push_der_tlv [] tag body.
Definition der_header (tag n : Z) : bytes := push_der_len [byte_of tag] n.

Lemma push_der_len_app out n : push_der_len out n = out ++ push_der_len [] n.
Proof. unfold push_der_len. by destruct (_ <? _); [|destruct (_ <=? _)]. Qed.
Lemma push_der_tlv_app out tag body : push_der_tlv out tag body = out ++ der_tlv tag body.
Proof.
  unfold der_tlv, push_der_tlv. rewrite push_der_len_app, (push_der_len_app ([] ++ _)).
  by rewrite <-!app_assoc.
Qed.
Lemma der_tlv_eq tag body : der_tlv tag body = der_header tag (len body) ++ body.
Proof. done. Qed.
Lemma len_der_header tag n :
  len (der_header tag n) = if n <? 0x80 then 2 else if n <=? 0xff then 3 else 4.
Proof. unfold der_header, push_der_len. by destruct (_ <? _); [|destruct (_ <=? _)]. Qed.

Lemma get_at_shift (a b : bytes) i : 0 <= i → get_at (a ++ b) (len a + i) = get_at b i.
Proof.
  intros. unfold get_at. pose proof (len_nonneg a). rewrite len_app.
  replace ((0 <=? len a + i) && (len a + i <? len a + len b)) with ((0 <=? i) && (i <? len b))
    by (destruct (i <? len b) eqn:?; zbool; run; done).
  destruct (_ && _); [|done]. rewrite lookup_app_r by (unfold len; lia). f_equal. unfold len. lia.
Qed.
Lemma read_len_header pre tag n rest :
  0 <= n < 0x10000 →
  read_len (pre ++ der_header tag n ++ rest) (len pre + 1) = Ok (len pre + len (der_header tag n), n).
Proof.
  intros Hn. pose proof (len_nonneg pre). rewrite len_der_header.
  assert (∀ l (i : nat) j, j = len pre + Z.of_nat i → get_at (pre ++ l) j = l !! i) as Hg.
  { intros l i j ->. rewrite get_at_shift, get_at_lookup by lia. by rewrite Nat2Z.id. }
  unfold read_len. rewrite (Hg _ 1%nat) by lia.
  unfold der_header, push_der_len. destruct (n <? 0x80) eqn:E1; [|destruct (n <=? 0xff) eqn:E2]; zbool;
    cbn [app lookup list_lookup Z.to_nat Pos.to_nat Pos.iter_op Nat.add ok_or mbind outcome_bind].
  - rewrite u8_of, Z.mod_small, (proj2 (Z.ltb_lt n 0x80)) by lia. do 2 f_equal. lia.
  - change (u8 (byte_of 0x81)) with 0x81. change (Z.land 0x81 0x7f) with 1. change (Z.to_nat 1) with 1%nat.
    cbn -[get_at Z.lor Z.shiftl].
    rewrite (Hg _ 2%nat (len pre + 1 + 1)) by lia. cbn -[get_at Z.lor Z.shiftl].
    rewrite lor_shiftl_8, u8_of by apply u8_range. do 2 f_equal; lia.
  - change (u8 (byte_of 0x82)) with 0x82. change (Z.land 0x82 0x7f) with 2. change (Z.to_nat 2) with 2%nat.
    cbn -[get_at Z.lor Z.shiftl].
    rewrite (Hg _ 2%nat (len pre + 1 + 1)) by lia. cbn -[get_at Z.lor Z.shiftl].
    rewrite (Hg _ 3%nat (len pre + 1 + 1 + 1)) by lia. cbn -[get_at Z.lor Z.shiftl].
    rewrite !lor_shiftl_8, !u8_of, shiftr_8 by apply u8_range. do 2 f_equal; lia.
Qed.

Lemma read_der_tlv pre tag body rest :
  len body < 0x10000 → len pre + len (der_tlv tag body) < U64 →
  read_tlv (pre ++ der_tlv tag body ++ rest) (len pre) =
  Ok (der_tlv tag body, len pre + len (der_tlv tag body)).
Proof.
  intros Hb Hl. pose proof (len_nonneg body). pose proof (len_nonneg pre). pose proof (len_nonneg rest).
  assert (2 <= len (der_header tag (len body))) as Hh
    by (rewrite len_der_header; destruct (_ <? _); [lia|destruct (_ <=? _); lia]).
  rewrite der_tlv_eq in *. rewrite len_app in *. unfold read_tlv.
  rewrite !len_app, (proj2 (Z.leb_gt _ _)) by lia. cbn [bail_if mbind outcome_bind].
  rewrite <-app_assoc, read_len_header by lia. cbn [mbind outcome_bind]. unfold checked_add64. run.
  rewrite index_range_in by (rewrite ?len_app; lia). cbn. do 2 f_equal; [|lia].
  rewrite sub_app_r, app_assoc, sub_app_l by (rewrite ?len_app; lia).
  replace (len pre - len pre) with 0 by lia. apply sub_full_ge. rewrite len_app. lia.
Qed.
Lemma expect_der_tlv tag body :
  0 <= tag < 256 → len body < 0x10000 → expect_tlv (der_tlv tag body) tag = Ok body.
Proof.
  intros Ht Hb. pose proof (len_nonneg body).
  assert (2 <= len (der_header tag (len body)) <= 4) as Hh
    by (rewrite len_der_header; destruct (_ <? _); [lia|destruct (_ <=? _); lia]).
  rewrite der_tlv_eq. unfold expect_tlv.
  assert (first_is (der_header tag (len body) ++ body) tag = true) as ->.
  { unfold first_is, der_header, push_der_len. apply bool_decide_eq_true_2.
    destruct (_ <? _); [|destruct (_ <=? _)]; cbn; by rewrite u8_of, Z.mod_small by lia. }
  cbn [negb bail_if mbind outcome_bind].
  pose proof (read_len_header [] tag (len body) body ltac:(lia)) as Hr. cbn [app] in Hr.
  rewrite len_nil in Hr. change (0 + 1) with 1 in Hr. rewrite Hr. cbn [mbind outcome_bind].
  unfold checked_add64. rewrite len_app. run. rewrite index_range_in by (rewrite ?len_app; lia).
  f_equal. rewrite sub_app_r by lia.
  trans (sub body 0 (len body)); [f_equal; lia|apply sub_full].
Qed.
