(* ===== verification/Online.v ===== *)
(** Revocation and issuer retrieval:
    [crates/psign-authenticode-trust/src/online.rs], with the options of
    [policy.rs].

    Certificates are views of the crates' values: [Cert] of [picky] with the
    two names and its encoding, [Certificate] of [x509-cert] with the fields
    the code reads; [X509Crates] decodes them, and the RSA and time crates are
    its other fields.  The network is a function from host, port and request
    to the reads the socket then gives, the clock a date. *)

From S2P Require Import Prelude.
From S2P Require Import PeDigest.
From S2P Require Import RustStr.
From S2P Require Import Find.
From S2P Require Import Tlv.

(** ** Policy *)

Record AuthenticodeTrustPolicy := mk_policy {
  strict_code_signing_eku : bool;
  prefer_timestamp_signing_time : bool;
  require_valid_timestamp : bool }.
Definition default_policy : AuthenticodeTrustPolicy := mk_policy true false false.

Inductive RevocationMode := Off | BestEffort | Required.
#[export] Instance revocation_mode_eq_dec : EqDecision RevocationMode.
Proof. solve_decision. Defined.
(** [timeout] in seconds *)
Record OnlineTrustOptions := mk_options {
  enable_aia : bool; aia_url_override : option str;
  enable_ocsp : bool; ocsp_url_override : option str;
  revocation_mode : RevocationMode; crl_url_override : option str;
  timeout : Z; max_download_bytes : Z }.
Definition default_options : OnlineTrustOptions :=
  mk_options false None false None Off None 5 (1024 * 1024).

(** ** The crates *)

Record Cert := mk_cert { subject_name : str; issuer_name : str; cert_der : option bytes }.
#[export] Instance cert_eq_dec : EqDecision Cert.
Proof. solve_decision. Defined.
Record Extension := mk_extension { extn_id : string; extn_value : bytes }.
Record Certificate := mk_certificate {
  extensions : option (list Extension);
  serial_number_der : option bytes;
  subject_der : option bytes;
  spki_der : option bytes;
  subject_public_key_bits : bytes }.
(** [picky]'s date, at the granularity [utc_date_key] reads *)
Record UtcDate := mk_date { year : Z; month : Z; day : Z }.

Inductive RsaPkcs1v15Hash := RsaSha256 | RsaSha384 | RsaSha512.

Class X509Crates := {
  certificate_from_der : bytes → option Certificate;
  cert_from_der : bytes → option Cert;
  cert_from_pem_str : str → option Cert;
  RsaPublicKey : Type;
  RsaSignature : Type;
  rsa_public_key : bytes → option RsaPublicKey;
  rsa_signature : bytes → option RsaSignature;
  rsa_verify : RsaPkcs1v15Hash → RsaPublicKey → bytes → RsaSignature → bool;
  time_decode : bytes → option Z;
  from_unix_timestamp : Z → option UtcDate }.

(** What the code asks of the outside: the date, and what a server sends back
    for a request, [None] when connecting or writing fails; a read is [None]
    when it fails and the list ends with the connection. *)
Record World := mk_world {
  now : UtcDate;
  tcp : str → Z → bytes → option (list (option bytes)) }.

Definition der_failed : string := "certificate DER encode failed: {e}".
Definition parse_failed : string := "certificate DER parse failed: {e}".
Definition to_der (c : Cert) (msg : string) : outcome bytes := ok_or (cert_der c) msg.

Definition text_of (s : str) : string := String.string_of_list_byte (encode_utf8 s).

(** ** Constants *)

Definition AIA_OID : string := "1.3.6.1.5.5.7.1.1".
Definition CRL_DISTRIBUTION_POINTS_OID : string := "2.5.29.31".
Definition PKIX_AD : list Z := [6; 8; 43; 6; 1; 5; 5; 7; 48].
Definition CA_ISSUERS_OID_DER : bytes := byte_of <$> (PKIX_AD ++ [2]).
Definition OCSP_OID_DER : bytes := byte_of <$> (PKIX_AD ++ [1]).
Definition OCSP_BASIC_OID_DER : bytes := byte_of <$> ([6; 9; 43; 6; 1; 5; 5; 7; 48] ++ [1; 1]).
Definition SHA1_ALGORITHM_IDENTIFIER_DER : bytes :=
  byte_of <$> [48; 9; 6; 5; 43; 14; 3; 2; 26; 5; 0].
Definition PKCS1_OID_PREFIX : bytes := byte_of <$> [42; 134; 72; 134; 247; 13; 1; 1].

(** ** Signature algorithms *)

Definition from_algorithm_identifier_tlv (tlv : bytes) : option RsaPkcs1v15Hash :=
  body ← ok_opt (expect_tlv tlv 0x30);
  '(oid_tlv, pos) ← ok_opt (read_tlv body 0);
  oid ← ok_opt (expect_tlv oid_tlv 0x06);
  if negb (pos =? len body) && negb (bool_decide (sub body pos (len body) = byte_of <$> [5; 0]))
  then None else
  arc ← strip_prefix (u8 <$> PKCS1_OID_PREFIX) (u8 <$> oid);
  match arc with
  | [0x0b] => Some RsaSha256
  | [0x0c] => Some RsaSha384
  | [0x0d] => Some RsaSha512
  | _ => None
  end.

(** ** HTTP *)

(** [s.parse::<u16>()] *)
Definition parse_u16 : str → option Z := parse_uint U16.
(** [line.split_whitespace()] *)
Fixpoint split_whitespace (cur s : str) : list str :=
  let flush := if bool_decide (cur = []) then [] else [cur] in
  match s with
  | [] => flush
  | c :: s' =>
      if is_whitespace c then app flush (split_whitespace [] s') else split_whitespace (app cur [c]) s'
  end.

Definition find_header_end (buf : bytes) : option Z := find (u8 <$> buf) (CRLF ++ CRLF).

(** [stream.read] into 8 KiB until the end, with [response] *)
Fixpoint read_response (limit : Z) (reads : list (option bytes)) (response : bytes) : outcome bytes :=
  match reads with
  | [] => Ok response
  | None :: _ => Err "read {context} HTTP response"
  | Some tmp :: reads' =>
      if len tmp =? 0 then Ok response else
      let response := response ++ tmp in
      bail_if (limit <? len response) "{context} HTTP response exceeds configured size limit";;
      read_response limit reads' response
  end.

(** [body] is the content type, the accepted type and the bytes to send. *)
Definition request_headers (method authority path : str) (body : option (str * str * bytes)) : str :=
  method ++ chars " " ++ path ++ chars " HTTP/1.1" ++ CRLF ++ chars "Host: " ++ authority ++ CRLF
  ++ chars "Connection: close" ++ CRLF ++
  match body with
  | Some (content_type, accept, b) =>
      chars "Content-Type: " ++ content_type ++ CRLF ++ chars "Accept: " ++ accept ++ CRLF
      ++ chars "Content-Length: " ++ decimal 20 (len b) ++ CRLF ++ CRLF
  | None => chars "Accept: application/pkix-cert, application/octet-stream, */*" ++ CRLF ++ CRLF
  end.

(** The host and port of an authority. *)
Definition host_port (authority : str) : str * Z :=
  default (authority, 80)
    ('(h, p) ← rsplit_once 58 authority; port ← parse_u16 p; Some (h, port)).

Definition http_request_limited (w : World) (url method : str) (body : option (str * str * bytes))
    (options : OnlineTrustOptions) : outcome bytes :=
  without_scheme ← ok_or (strip_prefix (chars "http://") url)
    "only http:// URLs are supported by {context}";
  let '(authority, path) :=
    match split_once 47 without_scheme with
    | Some (a, p) => (a, 47 :: p)
    | None => (without_scheme, [47])
    end in
  let '(host, port) := host_port authority in
  bail_if (bool_decide (host = [])) "{context} URL host is empty";;
  let request := encode_utf8 (request_headers method authority path body)
                 ++ match body with Some (_, _, b) => b | None => [] end in
  reads ← ok_or (tcp w host port request) "connect {host}:{port}";
  response ← read_response (max_download_bytes options + 64 * 1024) reads [];
  header_end ← ok_or (find_header_end response) "{context} HTTP response has no header terminator";
  head ← index_range response 0 header_end;
  headers ← ok_or (from_utf8 head) "{context} HTTP headers are not UTF-8";
  status ← ok_or
    (line ← lines headers !! 0%nat; word ← split_whitespace [] line !! 1%nat; parse_u16 word)
    "{context} HTTP response has no status code";
  bail_if (negb (status =? 200)) "{context} HTTP GET returned status {status}";;
  body ← index_range response (header_end + 4) (len response);
  bail_if (max_download_bytes options <? len body) "{context} download exceeds configured size limit";;
  Ok body.
Definition http_get_limited (w : World) (url : str) (options : OnlineTrustOptions) : outcome bytes :=
  http_request_limited w url (chars "GET") None options.
Definition http_post_limited (w : World) (url content_type accept : str) (body : bytes)
    (options : OnlineTrustOptions) : outcome bytes :=
  http_request_limited w url (chars "POST") (Some (content_type, accept, body)) options.

(** ** URLs in extensions *)

Section Online.
Context `{X509Crates} `{DigestOracle}.

(** Run a loop over [pos] and an accumulator to the end of [input]. *)
Definition each_tlv {A} (input : bytes) (body : Z * A → outcome (Z * A)) (start : A) : outcome A :=
  default Panic (loop (λ s : Z * A,
    if fst s <? len input then
      match body s with Ok s' => inl s' | Err e => inr (Err e) | Panic => inr Panic end
    else inr (Ok (snd s))) (S (length input)) (0, start)).

Definition aia_entry (outer : bytes) (s : Z * list str) : outcome (Z * list str) :=
  let '(pos, urls) := s in
  '(tlv, pos) ← read_tlv outer pos;
  ad ← with_context (expect_tlv tlv 0x30) "AccessDescription";
  '(method, ad_pos) ← with_context (read_tlv ad 0) "AccessDescription.accessMethod";
  '(location, ad_pos) ← with_context (read_tlv ad ad_pos) "AccessDescription.accessLocation";
  bail_if (negb (ad_pos =? len ad)) "AccessDescription has trailing fields";;
  if bool_decide (method = CA_ISSUERS_OID_DER) && first_is location 0x86 then
    body ← with_context (expect_tlv location 0x86) "uniformResourceIdentifier";
    url ← ok_or (from_utf8 body) "AIA URL is not UTF-8: {e}";
    Ok (pos, urls ++ [url])
  else Ok (pos, urls).
Definition parse_aia_ca_issuers (input : bytes) : outcome (list str) :=
  outer ← with_context (expect_tlv input 0x30) "AuthorityInfoAccessSyntax";
  each_tlv outer (aia_entry outer) [].

Definition ocsp_entry (outer : bytes) (s : Z * list str) : outcome (Z * list str) :=
  let '(pos, urls) := s in
  '(tlv, pos) ← read_tlv outer pos;
  ad ← with_context (expect_tlv tlv 0x30) "AccessDescription";
  '(method, ad_pos) ← with_context (read_tlv ad 0) "AccessDescription.accessMethod";
  '(location, _) ← with_context (read_tlv ad ad_pos) "AccessDescription.accessLocation";
  if bool_decide (method = OCSP_OID_DER) && first_is location 0x86 then
    body ← with_context (expect_tlv location 0x86) "uniformResourceIdentifier";
    uri ← ok_or (from_utf8 body) "AIA OCSP URL is not UTF-8: {e}";
    Ok (pos, if starts_with uri (chars "http://") then urls ++ [uri] else urls)
  else Ok (pos, urls).
Definition parse_aia_ocsp (input : bytes) : outcome (list str) :=
  outer ← with_context (expect_tlv input 0x30) "AuthorityInfoAccessSyntax";
  each_tlv outer (ocsp_entry outer) [].

(** The scan for tag 0x86; a URI that runs past the end is stepped over. *)
Definition uri_entry (input : bytes) (s : Z * list str) : outcome (Z * list str) :=
  let '(pos, urls) := s in
  b ← index_at input pos;
  if u8 b =? 0x86 then
    '(body_start, n) ← read_len input (pos + 1);
    end_ ← ok_or (checked_add64 body_start n) "URI length overflow";
    if end_ <=? len input then
      body ← index_range input body_start end_;
      uri ← ok_or (from_utf8 body) "URI is not UTF-8: {e}";
      Ok (end_, if starts_with uri (chars "http://") then urls ++ [uri] else urls)
    else Ok (pos + 1, urls)
  else Ok (pos + 1, urls).
Definition parse_http_uri_general_names (input : bytes) : outcome (list str) :=
  each_tlv input (uri_entry input) [].

(** The extensions with an identifier, each parsed, the URLs in order. *)
Fixpoint extend_urls (parse : bytes → outcome (list str)) (id : string) (exts : list Extension)
    (urls : list str) : outcome (list str) :=
  match exts with
  | [] => Ok urls
  | ext :: exts' =>
      if bool_decide (extn_id ext = id) then
        us ← parse (extn_value ext); extend_urls parse id exts' (urls ++ us)
      else extend_urls parse id exts' urls
  end.
Definition extension_urls (parse : bytes → outcome (list str)) (id : string) (c : Cert)
    : outcome (list str) :=
  der ← to_der c der_failed;
  cert ← ok_or (certificate_from_der der) parse_failed;
  match extensions cert with
  | None => Ok []
  | Some exts => extend_urls parse id exts []
  end.
Definition aia_ca_issuers_urls (c : Cert) : outcome (list str) :=
  extension_urls parse_aia_ca_issuers AIA_OID c.
Definition crl_distribution_point_urls (c : Cert) : outcome (list str) :=
  extension_urls parse_http_uri_general_names CRL_DISTRIBUTION_POINTS_OID c.
Definition ocsp_urls (c : Cert) : outcome (list str) := extension_urls parse_aia_ocsp AIA_OID c.

(** ** Certificates *)

Definition is_ascii_whitespace (b : byte) : bool :=
  existsb (Z.eqb (u8 b)) [9; 10; 12; 13; 32].
Fixpoint trim_ascii_start (raw : bytes) : bytes :=
  match raw with
  | b :: raw' => if is_ascii_whitespace b then trim_ascii_start raw' else raw
  | [] => []
  end.
Definition parse_cert_bytes (raw : bytes) : outcome Cert :=
  let trimmed := trim_ascii_start raw in
  if bytes_start_with trimmed (chars "-----BEGIN ") then
    s ← ok_or (from_utf8 trimmed) "PEM is not UTF-8: {e}";
    ok_or (cert_from_pem_str s) "PEM parse failed: {e}"
  else ok_or (cert_from_der trimmed) "DER parse failed: {e}".

Fixpoint fetch_certs (w : World) (options : OnlineTrustOptions) (urls : list str) (out : list Cert)
    : outcome (list Cert) :=
  match urls with
  | [] => Ok out
  | url :: urls' =>
      bs ← with_context (http_get_limited w url options) "fetch AIA issuer certificate from {url}";
      c ← with_context (parse_cert_bytes bs) "parse AIA issuer {url}";
      fetch_certs w options urls' (out ++ [c])
  end.
Definition issuer_candidates_from_aia (w : World) (c : Cert) (options : OnlineTrustOptions)
    : outcome (list Cert) :=
  if negb (enable_aia options) && bool_decide (aia_url_override options = None) then Ok [] else
  let urls := match aia_url_override options with Some url => [url] | None => [] end in
  urls ← (if enable_aia options then us ← aia_ca_issuers_urls c; Ok (urls ++ us) else Ok urls);
  fetch_certs w options urls [].

Definition cert_serial_tlv (c : Cert) : outcome bytes :=
  der ← to_der c der_failed;
  cert ← ok_or (certificate_from_der der) parse_failed;
  ok_or (serial_number_der cert) "certificate serial DER encode failed: {e}".

Definition verify_rsa_pkcs1v15_signature (hash : RsaPkcs1v15Hash) (signed_tlv signature : bytes)
    (issuer : Cert) : outcome unit :=
  issuer_der ← to_der issuer "{label} issuer certificate DER encode failed: {e}";
  issuer ← ok_or (certificate_from_der issuer_der) "{label} issuer certificate DER parse failed: {e}";
  spki ← ok_or (spki_der issuer) "{label} issuer SPKI DER encode failed: {e}";
  public_key ← ok_or (rsa_public_key spki) "{label} issuer RSA public key parse failed: {e}";
  signature ← ok_or (rsa_signature signature) "{label} RSA signature parse failed: {e}";
  bail_if (negb (rsa_verify hash public_key signed_tlv signature))
    "{label} signature verification failed: {e}".

(** ** Time *)

Definition parse_der_time_tlv (tlv : bytes) : outcome UtcDate :=
  secs ← ok_or (time_decode tlv) "DER time decode failed: {e}";
  bail_if (2 ^ 63 <=? secs) "DER time conversion failed: {e}";;
  ok_or (from_unix_timestamp secs) "DER time unix timestamp failed: {e}".

Definition utc_date_key (d : UtcDate) : Z * Z * Z := (year d, month d, day d).
(** The order of tuples. *)
Definition key_lt (a b : Z * Z * Z) : bool :=
  let '(y, m, d) := a in let '(y', m', d') := b in
  (y <? y') || ((y =? y') && ((m <? m') || ((m =? m') && (d <? d')))).
Definition ensure_time_window_fresh (w : World) (this_update : UtcDate) (next_update : option UtcDate)
    : outcome unit :=
  bail_if (key_lt (utc_date_key (now w)) (utc_date_key this_update)) "{label} thisUpdate is in the future";;
  next_update ← ok_or next_update "{label} nextUpdate is required for revocation freshness";
  bail_if (key_lt (utc_date_key next_update) (utc_date_key (now w))) "{label} nextUpdate is stale".

(** ** OCSP responses *)

Inductive OcspCheckOutcome := NotConfigured | Good | Revoked | Unknown.
Record ParsedOcspSingleResponse := mk_single {
  cert_id_tlv : bytes; status : OcspCheckOutcome;
  single_this_update : UtcDate; single_next_update : UtcDate }.
Record ParsedOcspResponse := mk_ocsp {
  tbs_response_data_tlv : bytes; ocsp_signature_hash : RsaPkcs1v15Hash;
  ocsp_signature : bytes; responses : list ParsedOcspSingleResponse }.

Definition cert_status_of (cert_status : bytes) : outcome OcspCheckOutcome :=
  match u8 <$> head cert_status with
  | Some 0x80 => Ok Good
  | Some 0xa1 => Ok Revoked
  | Some 0x82 => Ok Unknown
  | Some _ => Err "unsupported OCSP CertStatus tag 0x{tag:02x}"
  | None => Err "missing OCSP CertStatus"
  end.
Definition single_response (rs : bytes) (s : Z * list ParsedOcspSingleResponse)
    : outcome (Z * list ParsedOcspSingleResponse) :=
  let '(pos, parsed) := s in
  '(tlv, pos) ← read_tlv rs pos;
  single ← with_context (expect_tlv tlv 0x30) "SingleResponse";
  '(cert_id, spos) ← with_context (read_tlv single 0) "SingleResponse.certID";
  _ ← with_context (expect_tlv cert_id 0x30) "CertID";
  '(cert_status, spos) ← with_context (read_tlv single spos) "SingleResponse.certStatus";
  status ← cert_status_of cert_status;
  '(this_tlv, spos) ← with_context (read_tlv single spos) "SingleResponse.thisUpdate";
  this_update ← with_context (parse_der_time_tlv this_tlv) "SingleResponse.thisUpdate";
  '(next_tlv, _) ← with_context (read_tlv single spos)
    "SingleResponse.nextUpdate is required for revocation freshness";
  bail_if (negb (first_is next_tlv 0xa0)) "SingleResponse.nextUpdate is required";;
  next_inner ← with_context (expect_tlv next_tlv 0xa0) "SingleResponse.nextUpdate";
  '(time_tlv, next_pos) ← with_context (read_tlv next_inner 0) "nextUpdate time";
  next_update ← with_context (parse_der_time_tlv time_tlv) "SingleResponse.nextUpdate";
  bail_if (negb (next_pos =? len next_inner)) "SingleResponse.nextUpdate has trailing fields";;
  Ok (pos, parsed ++ [mk_single cert_id status this_update next_update]).

Definition parse_basic_ocsp_response_der (input : bytes) : outcome ParsedOcspResponse :=
  outer ← with_context (expect_tlv input 0x30) "BasicOCSPResponse";
  '(tbs_tlv, pos) ← with_context (read_tlv outer 0) "BasicOCSPResponse.tbsResponseData";
  '(sig_alg, pos) ← with_context (read_tlv outer pos) "BasicOCSPResponse.signatureAlgorithm";
  hash ← ok_or (from_algorithm_identifier_tlv sig_alg) "unsupported OCSP signature algorithm";
  '(sig_tlv, _) ← with_context (read_tlv outer pos) "BasicOCSPResponse.signature";
  signature_body ← with_context (expect_tlv sig_tlv 0x03) "OCSP signature BIT STRING";
  bail_if (negb (first_is signature_body 0)) "OCSP signature BIT STRING has unused bits";;
  tbs ← with_context (expect_tlv tbs_tlv 0x30) "ResponseData";
  tbs_pos ← (if at_is tbs 0 0xa0 then
               '(_, p) ← with_context (read_tlv tbs 0) "ResponseData.version"; Ok p
             else Ok 0);
  '(_, tbs_pos) ← with_context (read_tlv tbs tbs_pos) "ResponseData.responderID";
  '(_, tbs_pos) ← with_context (read_tlv tbs tbs_pos) "ResponseData.producedAt";
  '(rs_tlv, _) ← read_tlv tbs tbs_pos;
  rs ← with_context (expect_tlv rs_tlv 0x30) "ResponseData.responses";
  parsed ← each_tlv rs (single_response rs) [];
  signature ← index_range signature_body 1 (len signature_body);
  Ok (mk_ocsp tbs_tlv hash signature parsed).

Definition parse_ocsp_response_der (input : bytes) : outcome ParsedOcspResponse :=
  outer ← with_context (expect_tlv input 0x30) "OCSPResponse";
  '(status_tlv, pos) ← read_tlv outer 0;
  status ← with_context (expect_tlv status_tlv 0x0a) "OCSPResponseStatus";
  bail_if (negb (bool_decide (status = [byte_of 0]))) "OCSP responder returned non-success status";;
  '(bytes_tlv, _) ← read_tlv outer pos;
  response_bytes ← with_context (expect_tlv bytes_tlv 0xa0) "responseBytes";
  rb ← with_context (expect_tlv response_bytes 0x30) "ResponseBytes";
  '(response_type, rb_pos) ← with_context (read_tlv rb 0) "ResponseBytes.responseType";
  bail_if (negb (bool_decide (response_type = OCSP_BASIC_OID_DER))) "unsupported OCSP response type";;
  '(response, _) ← with_context (read_tlv rb rb_pos) "ResponseBytes.response";
  basic_octets ← with_context (expect_tlv response 0x04) "ResponseBytes.response OCTET STRING";
  parse_basic_ocsp_response_der basic_octets.

(** ** OCSP requests *)

Definition build_ocsp_cert_id_der (c issuer : Cert) : outcome bytes :=
  der ← to_der c der_failed;
  cert ← ok_or (certificate_from_der der) parse_failed;
  issuer_der ← to_der issuer "issuer certificate DER encode failed: {e}";
  issuer ← ok_or (certificate_from_der issuer_der) "issuer certificate DER parse failed: {e}";
  issuer_name ← ok_or (subject_der issuer) "issuer Name DER encode failed: {e}";
  let body := SHA1_ALGORITHM_IDENTIFIER_DER in
  let body := push_der_tlv body 0x04 (digest Sha1 issuer_name) in
  let body := push_der_tlv body 0x04 (digest Sha1 (subject_public_key_bits issuer)) in
  serial ← ok_or (serial_number_der cert) "certificate serial DER encode failed: {e}";
  Ok (push_der_sequence [] (body ++ serial)).
Definition build_ocsp_request_der (c issuer : Cert) : outcome bytes :=
  cert_id ← build_ocsp_cert_id_der c issuer;
  let request := push_der_sequence [] cert_id in
  let request_list := push_der_sequence [] request in
  let tbs_request := push_der_sequence [] request_list in
  Ok (push_der_sequence [] tbs_request).

(** ** CRLs *)

Record ParsedCrl := mk_crl {
  crl_tbs_tlv : bytes; crl_signature_hash : RsaPkcs1v15Hash; crl_signature : bytes;
  crl_this_update : UtcDate; crl_next_update : UtcDate; revoked_serial_tlvs : list bytes }.

Definition revoked_entry (revoked : bytes) (s : Z * list bytes) : outcome (Z * list bytes) :=
  let '(rpos, serials) := s in
  '(tlv, rpos) ← read_tlv revoked rpos;
  entry ← with_context (expect_tlv tlv 0x30) "RevokedCertificate";
  '(serial, _) ← with_context (read_tlv entry 0) "RevokedCertificate.userCertificate";
  Ok (rpos, serials ++ [serial]).

Definition parse_certificate_list_der (input : bytes) : outcome ParsedCrl :=
  outer ← with_context (expect_tlv input 0x30) "CertificateList";
  '(tbs_tlv, pos) ← with_context (read_tlv outer 0) "CertificateList.tbsCertList";
  '(alg_tlv, pos) ← with_context (read_tlv outer pos) "CertificateList.signatureAlgorithm";
  '(sig_tlv, pos) ← with_context (read_tlv outer pos) "CertificateList.signatureValue";
  bail_if (negb (pos =? len outer)) "CertificateList has trailing fields";;
  hash ← ok_or (from_algorithm_identifier_tlv alg_tlv) "unsupported CRL signature algorithm";
  signature_body ← with_context (expect_tlv sig_tlv 0x03) "CRL signature BIT STRING";
  bail_if (negb (first_is signature_body 0)) "CRL signature BIT STRING has unused bits";;
  tbs ← with_context (expect_tlv tbs_tlv 0x30) "TBSCertList";
  tbs_pos ← (if at_is tbs 0 0x02 then
               '(_, p) ← with_context (read_tlv tbs 0) "TBSCertList.version"; Ok p
             else Ok 0);
  '(tbs_alg, tbs_pos) ← with_context (read_tlv tbs tbs_pos) "TBSCertList.signature";
  bail_if (negb (bool_decide (tbs_alg = alg_tlv)))
    "CRL signatureAlgorithm does not match TBSCertList.signature";;
  '(_, tbs_pos) ← with_context (read_tlv tbs tbs_pos) "TBSCertList.issuer";
  '(this_tlv, tbs_pos) ← with_context (read_tlv tbs tbs_pos) "TBSCertList.thisUpdate";
  this_update ← with_context (parse_der_time_tlv this_tlv) "TBSCertList.thisUpdate";
  '(next_update, tbs_pos) ← (if at_is tbs tbs_pos 0x17 || at_is tbs tbs_pos 0x18 then
      '(next_tlv, p) ← with_context (read_tlv tbs tbs_pos) "TBSCertList.nextUpdate";
      d ← with_context (parse_der_time_tlv next_tlv) "TBSCertList.nextUpdate";
      Ok (d, p)
    else Err "TBSCertList.nextUpdate is required for revocation freshness");
  serials ← (if at_is tbs tbs_pos 0x30 then
      '(revoked_tlv, _) ← read_tlv tbs tbs_pos;
      revoked ← with_context (expect_tlv revoked_tlv 0x30) "TBSCertList.revokedCertificates";
      each_tlv revoked (revoked_entry revoked) []
    else Ok []);
  signature ← index_range signature_body 1 (len signature_body);
  Ok (mk_crl tbs_tlv hash signature this_update next_update serials).

Definition verify_crl_signature (crl : ParsedCrl) (issuer : Cert) : outcome unit :=
  verify_rsa_pkcs1v15_signature (crl_signature_hash crl) (crl_tbs_tlv crl) (crl_signature crl) issuer.

(** ** The revocation checks *)

Definition ocsp_response_for_cert_id (parsed : ParsedOcspResponse) (cert_id : bytes)
    : outcome ParsedOcspSingleResponse :=
  ok_or (List.find (λ entry, bool_decide (cert_id_tlv entry = cert_id)) (responses parsed))
    "OCSP response does not contain the requested certificate ID".

(** [override.clone().or_else(|| urls(cert).ok()?.into_iter().next())] *)
Definition first_url (override : option str) (urls : outcome (list str)) : option str :=
  match override with Some url => Some url | None => us ← ok_opt urls; head us end.

Definition check_one_cert_ocsp (w : World) (c issuer : Cert) (options : OnlineTrustOptions)
    : outcome OcspCheckOutcome :=
  if negb (enable_ocsp options) && bool_decide (ocsp_url_override options = None)
  then Ok NotConfigured else
  url ← ok_or (first_url (ocsp_url_override options) (ocsp_urls c))
    "OCSP checking requires --ocsp-url-override or a certificate AIA OCSP HTTP URL";
  request ← build_ocsp_request_der c issuer;
  response ← with_context
    (http_post_limited w url (chars "application/ocsp-request") (chars "application/ocsp-response")
       request options)
    "POST OCSP request to {url}";
  parsed ← with_context (parse_ocsp_response_der response) "parse OCSP response from {url}";
  verify_rsa_pkcs1v15_signature (ocsp_signature_hash parsed) (tbs_response_data_tlv parsed)
    (ocsp_signature parsed) issuer;;
  cert_id ← build_ocsp_cert_id_der c issuer;
  entry ← ocsp_response_for_cert_id parsed cert_id;
  ensure_time_window_fresh w (single_this_update entry) (Some (single_next_update entry));;
  Ok (status entry).

(** The messages that quote the URL keep it, since the caller searches them. *)
Definition check_one_cert_crl (w : World) (c issuer : Cert) (options : OnlineTrustOptions)
    : outcome unit :=
  url ← ok_or (first_url (crl_url_override options) (crl_distribution_point_urls c))
    "revocation checking requires --crl-url-override or a certificate CRL distribution point HTTP URL";
  crl_bytes ← with_context (http_get_limited w url options)
    (String.append "fetch CRL from " (text_of url));
  crl ← with_context (parse_certificate_list_der crl_bytes)
    (String.append "parse CRL from " (text_of url));
  verify_crl_signature crl issuer;;
  ensure_time_window_fresh w (crl_this_update crl) (Some (crl_next_update crl));;
  cert_serial ← cert_serial_tlv c;
  bail_if (existsb (λ s, bool_decide (s = cert_serial)) (revoked_serial_tlvs crl))
    (String.append "certificate is revoked by CRL " (text_of url)).

(** [e.to_string().contains("revoked")] *)
Definition mentions_revoked (e : string) : bool := contains (chars e) (chars "revoked").

(** What the OCSP answer means for the round: [inl] goes on to the CRL. *)
Definition after_ocsp (mode : RevocationMode) (r : outcome OcspCheckOutcome)
    : unit + outcome unit :=
  match r with
  | Ok Good => inr (Ok tt)
  | Ok NotConfigured => inl tt
  | Ok Unknown => if bool_decide (mode = BestEffort) then inl tt else inr (Err "OCSP status is unknown")
  | Ok Revoked => inr (Err "OCSP status is revoked")
  | Err e => if bool_decide (mode = BestEffort) then inl tt else inr (Err e)
  | Panic => inr Panic
  end.
Definition after_crl (mode : RevocationMode) (r : outcome unit) : outcome unit :=
  match r with
  | Ok _ => Ok tt
  | Err e => if bool_decide (mode = BestEffort) && negb (mentions_revoked e) then Ok tt else Err e
  | Panic => Panic
  end.
Definition check_pair (w : World) (c issuer : Cert) (options : OnlineTrustOptions) : outcome unit :=
  match after_ocsp (revocation_mode options) (check_one_cert_ocsp w c issuer options) with
  | inr r => r
  | inl _ => after_crl (revocation_mode options) (check_one_cert_crl w c issuer options)
  end.
(** The loop over [subjects], each with the next as its issuer. *)
Fixpoint check_pairs (w : World) (subjects : list Cert) (options : OnlineTrustOptions)
    : outcome unit :=
  match subjects with
  | c :: ((issuer :: _) as subjects') =>
      check_pair w c issuer options;; check_pairs w subjects' options
  | _ => Ok tt
  end.
Definition check_revocation_chain (w : World) (leaf : Cert) (chain : list Cert)
    (options : OnlineTrustOptions) : outcome unit :=
  if bool_decide (revocation_mode options = Off) then Ok tt
  else check_pairs w (leaf :: chain) options.

(** ** Loops end, and nothing panics *)

Lemma first_is_len bs tag : first_is bs tag = true → 1 <= len bs.
Proof.
  unfold first_is. destruct bs as [|b bs]; [by rewrite bool_decide_eq_false_2|].
  rewrite len_cons. pose proof (len_nonneg bs). lia.
Qed.
Lemma each_tlv_total {A} (input : bytes) (body : Z * A → outcome (Z * A)) start :
  (∀ pos acc pos' acc', 0 <= pos < len input → body (pos, acc) = Ok (pos', acc') →
     pos < pos' ∧ pos' <= len input) →
  (∀ pos acc, 0 <= pos < len input → body (pos, acc) ≠ Panic) →
  each_tlv input body start ≠ Panic.
Proof.
  intros Hstep Hnp. unfold each_tlv. set (step := λ s : Z * A, _).
  assert (∀ s s', 0 <= s.1 <= len input → step s = inl s' → s.1 < s'.1 <= len input) as Hs.
  { intros [p a] [p' a'] Hp. unfold step. cbn [fst snd] in *. destruct (p <? len input) eqn:E; [|done]. zbool.
    destruct (body (p, a)) as [[q b]| |] eqn:Eb; [|done..]. intros [= <- <-]. eapply Hstep; [|done]. lia. }
  pose proof (len_nonneg input).
  assert (is_Some (loop step (S (length input)) (0, start))) as [r Hr].
  { apply (loop_total step (λ s, 0 <= s.1 <= len input) (λ s, len input - s.1)).
    - intros s s' Hp He. pose proof (Hs s s' Hp He). lia.
    - cbn. lia.
    - cbn. unfold len. lia.
    - cbn. lia. }
  rewrite Hr. cbn [default from_option id].
  refine (loop_inv step (λ s, 0 <= s.1 <= len input) (λ r, r ≠ Panic) _ _ _ _ _ _ Hr); [| |cbn; lia].
  - intros s s' Hp He. pose proof (Hs s s' Hp He). lia.
  - intros [p a] r' Hp. unfold step. cbn [fst snd] in *. destruct (p <? len input) eqn:E; zbool.
    + specialize (Hnp p a ltac:(lia)). destruct (body (p, a)); [done|by intros [= <-]|done].
    + by intros [= <-].
Qed.

End Online.

(** Step over the successful binds of [H], up to a [each_tlv] loop. *)
Ltac skip_binds H :=
  lazymatch type of H with
  | mbind _ (each_tlv _ _ _) = _ => idtac
  | mbind _ (bail_if _ _) = _ => apply bail_bind_Ok in H as [_ H]; skip_binds H
  | mbind _ _ = _ =>
      let x := fresh "x" in apply bind_Ok in H as (x & _ & H);
      try (destruct x as [? ?]; cbn beta iota in H); skip_binds H
  | _ => idtac
  end.

(** Panic freedom of the readers: positions only come from successful reads. *)
Ltac tlv_panic :=
  repeat first
    [ progress cbn [fst snd]
    | match goal with |- mbind _ _ ≠ Panic => apply bind_not_panic end;
        [| let a := fresh "a" in let E := fresh "E" in intros a E;
           try apply (proj1 (with_context_Ok _ _ _)) in E;
           lazymatch type of E with
           | read_tlv _ _ = Ok _ => destruct a; apply read_tlv_Ok in E as (? & ? & _); [|lia]
           | bail_if (negb (first_is _ _)) _ = _ =>
               apply bail_if_Ok, negb_false_iff, first_is_len in E
           | _ => idtac
           end]
    | match goal with |- (if ?c then _ else _) ≠ Panic => destruct c eqn:? end
    | match goal with |- (match ?p with (_, _) => _ end) ≠ Panic => destruct p end
    | discriminate
    | apply with_context_not_panic
    | apply read_tlv_not_panic; lia
    | apply index_range_not_panic; lia
    | solve [auto with psign] ].

Section Panics.
Context `{X509Crates}.

(** A round moves on by the TLV it starts with. *)
Lemma read_then {A} input pos (f : bytes * Z → outcome (Z * A)) pos' acc' :
  0 <= pos → (∀ tlv p r, f (tlv, p) = Ok r → fst r = p) →
  (read_tlv input pos ≫= f) = Ok (pos', acc') → pos < pos' ∧ pos' <= len input.
Proof.
  intros Hp Hf ([tlv p] & Hr & He)%bind_Ok. apply read_tlv_Ok in Hr as (? & ? & _); [|done].
  apply Hf in He. cbn in He. lia.
Qed.
Ltac keeps_pos :=
  let H := fresh "H" in intros ? ? ? H; skip_binds H;
  repeat match type of H with (if ?c then _ else _) = _ => destruct c; skip_binds H end;
  by apply (inj Ok) in H as <-.
Ltac entry_moves := let H := fresh "H" in
  intros pos acc pos' acc' ? H; apply read_then in H; [done|lia|keeps_pos].

Lemma aia_not_panic input : parse_aia_ca_issuers input ≠ Panic.
Proof.
  unfold parse_aia_ca_issuers. tlv_panic. apply each_tlv_total; [entry_moves|].
  intros pos acc ?. unfold aia_entry. tlv_panic.
Qed.
Lemma ocsp_entries_not_panic input : parse_aia_ocsp input ≠ Panic.
Proof.
  unfold parse_aia_ocsp. tlv_panic. apply each_tlv_total; [entry_moves|].
  intros pos acc ?. unfold ocsp_entry. tlv_panic.
Qed.
Lemma general_names_not_panic input : parse_http_uri_general_names input ≠ Panic.
Proof.
  apply each_tlv_total.
  - intros pos acc pos' acc' Hp. unfold uri_entry. intros (b & _ & Hr)%bind_Ok.
    destruct (u8 b =? 0x86); [|injection Hr as <- _; lia].
    apply bind_Ok in Hr as ([st n] & Hl & Hr). apply read_len_bounds in Hl as (? & ? & ?); [|lia].
    apply bind_Ok in Hr as (e & He%ok_or_Ok & Hr). unfold checked_add64 in He.
    destruct (_ <? _) in He; [|done]. injection He as <-.
    destruct (_ <=? _) eqn:E; [|injection Hr as <- _; lia]. zbool. skip_binds Hr. injection Hr as <- _. lia.
  - intros pos acc Hp. unfold uri_entry. apply bind_not_panic.
    { unfold index_at. rewrite get_at_lookup by lia.
      destruct (lookup_lt_is_Some_2 input (Z.to_nat pos)) as [b Hb]; [unfold len in Hp; lia|by rewrite Hb]. }
    intros b _. destruct (u8 b =? 0x86); [|done]. tlv_panic. apply ok_or_Ok in E0.
    apply read_len_bounds in E as (? & ? & ?); [|lia]. unfold checked_add64 in E0.
    destruct (_ <? _) in E0; [|done]. injection E0 as <-. zbool. apply index_range_not_panic; lia.
Qed.
Lemma algorithm_not_panic tlv msg : ok_or (from_algorithm_identifier_tlv tlv) msg ≠ Panic.
Proof. by destruct (from_algorithm_identifier_tlv tlv). Qed.
Lemma time_not_panic tlv : parse_der_time_tlv tlv ≠ Panic.
Proof. unfold parse_der_time_tlv. tlv_panic. Qed.
Lemma cert_status_not_panic bs : cert_status_of bs ≠ Panic.
Proof.
  unfold cert_status_of.
  repeat match goal with |- context [match ?x with _ => _ end] => destruct x; try done end.
Qed.
#[local] Hint Resolve algorithm_not_panic time_not_panic cert_status_not_panic : psign.
(** An optional TLV at the front of a body leaves a position. *)
Lemma optional_tlv (b : bool) input msg :
  (if b then '(_, p) ← with_context (read_tlv input 0) msg; Ok p else Ok 0) ≠ Panic ∧
  ∀ p, (if b then '(_, p) ← with_context (read_tlv input 0) msg; Ok p else Ok 0) = Ok p → 0 <= p.
Proof.
  destruct b; [|split; [done|intros p [= <-]; lia]]. split; [tlv_panic|].
  intros p ([t q] & Hr%with_context_Ok & He)%bind_Ok. apply read_tlv_Ok in Hr; [|lia].
  injection He as <-. lia.
Qed.
Lemma single_responses_not_panic rs : each_tlv rs (single_response rs) [] ≠ Panic.
Proof.
  apply each_tlv_total; [entry_moves|]. intros pos acc ?. unfold single_response. tlv_panic.
Qed.
Lemma revoked_entries_not_panic rs : each_tlv rs (revoked_entry rs) [] ≠ Panic.
Proof.
  apply each_tlv_total; [entry_moves|]. intros pos acc ?. unfold revoked_entry. tlv_panic.
Qed.
#[local] Hint Resolve single_responses_not_panic revoked_entries_not_panic : psign.
Lemma basic_response_not_panic input : parse_basic_ocsp_response_der input ≠ Panic.
Proof.
  unfold parse_basic_ocsp_response_der. tlv_panic. apply optional_tlv in E4. tlv_panic.
Qed.
Lemma ocsp_response_not_panic input : parse_ocsp_response_der input ≠ Panic.
Proof. pose proof basic_response_not_panic. unfold parse_ocsp_response_der. tlv_panic. Qed.
Lemma crl_not_panic input : parse_certificate_list_der input ≠ Panic.
Proof.
  unfold parse_certificate_list_der. tlv_panic. apply optional_tlv in E5. tlv_panic.
  destruct (_ || _) in E8; [|done]. apply bind_Ok in E8 as ([t p] & Ht%with_context_Ok & He).
  apply read_tlv_Ok in Ht as (? & ? & _); [|lia]. apply bind_Ok in He as (d & _ & He). injection He as <- <-.
  tlv_panic.
Qed.
End Panics.

(** ** What an accepted certificate was checked against *)

Section Revocation.
Context `{X509Crates} `{DigestOracle} (w : World) (options : OnlineTrustOptions).

Definition fresh (this_update next_update : UtcDate) : Prop :=
  key_lt (utc_date_key (now w)) (utc_date_key this_update) = false ∧
  key_lt (utc_date_key next_update) (utc_date_key (now w)) = false.
(** The responder answered the request for this certificate with a response
    signed by the issuer whose entry for it is good and fresh. *)
Definition ocsp_good (c issuer : Cert) : Prop :=
  ∃ url request response parsed cert_id entry,
    first_url (ocsp_url_override options) (ocsp_urls c) = Some url ∧
    build_ocsp_request_der c issuer = Ok request ∧
    http_post_limited w url (chars "application/ocsp-request")
      (chars "application/ocsp-response") request options = Ok response ∧
    parse_ocsp_response_der response = Ok parsed ∧
    verify_rsa_pkcs1v15_signature (ocsp_signature_hash parsed) (tbs_response_data_tlv parsed)
      (ocsp_signature parsed) issuer = Ok tt ∧
    build_ocsp_cert_id_der c issuer = Ok cert_id ∧
    entry ∈ responses parsed ∧ cert_id_tlv entry = cert_id ∧ status entry = Good ∧
    fresh (single_this_update entry) (single_next_update entry).
(** The list fetched for this certificate is signed by the issuer, fresh, and
    does not name its serial number. *)
Definition crl_clear (c issuer : Cert) : Prop :=
  ∃ url raw crl serial,
    first_url (crl_url_override options) (crl_distribution_point_urls c) = Some url ∧
    http_get_limited w url options = Ok raw ∧
    parse_certificate_list_der raw = Ok crl ∧
    verify_crl_signature crl issuer = Ok tt ∧
    fresh (crl_this_update crl) (crl_next_update crl) ∧
    cert_serial_tlv c = Ok serial ∧ serial ∉ revoked_serial_tlvs crl.

Lemma fresh_Ok this next :
  ensure_time_window_fresh w this (Some next) = Ok tt ↔ fresh this next.
Proof.
  unfold ensure_time_window_fresh, fresh. cbn [ok_or]. rewrite bail_bind_Ok. cbn [mbind outcome_bind].
  by rewrite bail_if_Ok.
Qed.
Lemma ocsp_Ok_good c issuer : check_one_cert_ocsp w c issuer options = Ok Good → ocsp_good c issuer.
Proof.
  unfold check_one_cert_ocsp. destruct (_ && _); [done|].
  intros (url & Hu%ok_or_Ok & Hr)%bind_Ok. apply bind_Ok in Hr as (req & Hq & Hr).
  apply bind_Ok in Hr as (resp & Hp%with_context_Ok & Hr).
  apply bind_Ok in Hr as (parsed & Ha%with_context_Ok & Hr). apply bind_Ok in Hr as ([] & Hv & Hr).
  apply bind_Ok in Hr as (cid & Hc & Hr). apply bind_Ok in Hr as (entry & He%ok_or_Ok & Hr).
  apply bind_Ok in Hr as ([] & Hf%fresh_Ok & Hs). apply (inj Ok) in Hs.
  apply List.find_some in He as [Hin Hb]. apply bool_decide_eq_true in Hb.
  exists url, req, resp, parsed, cid, entry. split_and!; try done. 1: by apply list_elem_of_In.
  all: by apply Hf.
Qed.
Lemma ocsp_Ok_off c issuer :
  check_one_cert_ocsp w c issuer options = Ok NotConfigured →
  (enable_ocsp options = false ∧ ocsp_url_override options = None) ∨
  ∃ entry, status entry = NotConfigured ∧ ∃ resp parsed, parse_ocsp_response_der resp = Ok parsed ∧
    entry ∈ responses parsed.
Proof.
  unfold check_one_cert_ocsp. destruct (_ && _) eqn:E.
  - intros _. left. apply andb_true_iff in E as [E1 E2]. apply negb_true_iff in E1.
    by apply bool_decide_eq_true in E2.
  - intros (url & _ & Hr)%bind_Ok. apply bind_Ok in Hr as (req & _ & Hr).
    apply bind_Ok in Hr as (resp & _ & Hr). apply bind_Ok in Hr as (parsed & Ha%with_context_Ok & Hr).
    apply bind_Ok in Hr as ([] & _ & Hr). apply bind_Ok in Hr as (cid & _ & Hr).
    apply bind_Ok in Hr as (entry & He%ok_or_Ok & Hr). apply bind_Ok in Hr as ([] & _ & Hs).
    apply (inj Ok) in Hs. apply List.find_some in He as [Hin _]. right. exists entry. split; [done|].
    exists resp, parsed. split; [done|]. by apply list_elem_of_In.
Qed.
Lemma crl_Ok_clear c issuer : check_one_cert_crl w c issuer options = Ok tt → crl_clear c issuer.
Proof.
  unfold check_one_cert_crl. intros (url & Hu%ok_or_Ok & Hr)%bind_Ok.
  apply bind_Ok in Hr as (raw & Hg%with_context_Ok & Hr).
  apply bind_Ok in Hr as (crl & Hp%with_context_Ok & Hr). apply bind_Ok in Hr as ([] & Hv & Hr).
  apply bind_Ok in Hr as ([] & Hf%fresh_Ok & Hr). apply bind_Ok in Hr as (serial & Hs & Hr).
  apply bail_if_Ok in Hr. exists url, raw, crl, serial. do 6 (split; [done|]).
  intros Hin. apply Bool.not_true_iff_false in Hr. apply Hr, existsb_exists.
  exists serial. split; [by apply list_elem_of_In|by apply bool_decide_eq_true].
Qed.

(** A parsed response only has the three statuses of the standard. *)
Lemma each_tlv_inv {A} (P : A → Prop) input (body : Z * A → outcome (Z * A)) start r :
  (∀ s s', P s.2 → body s = Ok s' → P s'.2) → P start → each_tlv input body start = Ok r → P r.
Proof.
  intros Hs Hst. unfold each_tlv. set (step := λ s : Z * A, _).
  destruct (loop step _ _) as [o|] eqn:El; [|done]. cbn [default from_option id]. intros ->.
  pose (Q := λ o : outcome A, ∀ r, o = Ok r → P r). enough (Q (Ok r)) as HQ by by apply HQ.
  refine (loop_inv step (λ s, P s.2) Q _ _ _ _ _ _ El); [| |done].
  - intros s s' Hp. unfold step. destruct (_ <? _); [|done].
    destruct (body s) eqn:Eb; [|done..]. intros [= <-]. by eapply Hs.
  - intros s o Hp. unfold step. destruct (_ <? _); [|by intros [= <-] r' [= <-]].
    destruct (body s); [done|by intros [= <-]..].
Qed.
Lemma ocsp_statuses resp parsed entry :
  parse_ocsp_response_der resp = Ok parsed → entry ∈ responses parsed → status entry ≠ NotConfigured.
Proof.
  intros Hp. enough (Forall (λ e, status e ≠ NotConfigured) (responses parsed)) as Hall.
  { intros Hin. exact (proj1 (Forall_forall _ _) Hall entry Hin). }
  unfold parse_ocsp_response_der in Hp. skip_binds Hp.
  unfold parse_basic_ocsp_response_der in Hp. skip_binds Hp.
  apply bind_Ok in Hp as (rs & Hrs & Hp). skip_binds Hp. apply (inj Ok) in Hp as <-. cbn [responses].
  revert Hrs. apply (each_tlv_inv (Forall (λ e, status e ≠ NotConfigured))); [|constructor].
  intros [pos acc] s' Hacc Hs. unfold single_response in Hs.
  apply bind_Ok in Hs as ([tlv p1] & _ & Hs). apply bind_Ok in Hs as (single & _ & Hs).
  apply bind_Ok in Hs as ([cid p2] & _ & Hs). apply bind_Ok in Hs as (cert_id_body & _ & Hs).
  apply bind_Ok in Hs as ([cs p3] & _ & Hs). apply bind_Ok in Hs as (st & Hst & Hs). skip_binds Hs.
  apply (inj Ok) in Hs as <-. cbn [snd]. apply Forall_app_2; [done|]. constructor; [|done].
  cbn [status]. unfold cert_status_of in Hst. intros ->.
  repeat match type of Hst with context [match ?x with _ => _ end] => destruct x; try done end.
Qed.
End Revocation.

(** ** The request for a certificate *)

Definition cert_id_body `{DigestOracle} (name key serial : bytes) : bytes :=
  SHA1_ALGORITHM_IDENTIFIER_DER ++ der_tlv 0x04 (digest Sha1 name)
  ++ der_tlv 0x04 (digest Sha1 key) ++ serial.
Lemma build_request_eq `{X509Crates} `{DigestOracle} c issuer req :
  build_ocsp_request_der c issuer = Ok req →
  ∃ der cert issuer_der_ issuer_cert name serial,
    cert_der c = Some der ∧ certificate_from_der der = Some cert ∧
    cert_der issuer = Some issuer_der_ ∧ certificate_from_der issuer_der_ = Some issuer_cert ∧
    subject_der issuer_cert = Some name ∧ serial_number_der cert = Some serial ∧
    req = der_tlv 0x30 (der_tlv 0x30 (der_tlv 0x30 (der_tlv 0x30 (der_tlv 0x30
            (cert_id_body name (subject_public_key_bits issuer_cert) serial))))).
Proof.
  unfold build_ocsp_request_der, build_ocsp_cert_id_der, to_der.
  intros (cid & Hc & Hr)%bind_Ok. apply (inj Ok) in Hr as <-.
  apply bind_Ok in Hc as (der & Hd%ok_or_Ok & Hc). apply bind_Ok in Hc as (cert & Hce%ok_or_Ok & Hc).
  apply bind_Ok in Hc as (ider & Hi%ok_or_Ok & Hc). apply bind_Ok in Hc as (icert & Hic%ok_or_Ok & Hc).
  apply bind_Ok in Hc as (name & Hn%ok_or_Ok & Hc). cbv zeta in Hc.
  apply bind_Ok in Hc as (serial & Hs%ok_or_Ok & Hc). apply (inj Ok) in Hc as <-.
  exists der, cert, ider, icert, name, serial. do 6 (split; [done|]).
  unfold push_der_sequence, cert_id_body.
  rewrite (push_der_tlv_app SHA1_ALGORITHM_IDENTIFIER_DER 4).
  rewrite (push_der_tlv_app (SHA1_ALGORITHM_IDENTIFIER_DER ++ _) 4), <-!app_assoc. done.
Qed.
Lemma len_der_tlv tag body : len body + 2 <= len (der_tlv tag body) <= len body + 4.
Proof.
  rewrite der_tlv_eq, len_app, len_der_header. destruct (_ <? _); [lia|destruct (_ <=? _); lia].
Qed.
Lemma len_hash_tlv `{DigestOracle} k bs : digest_output_len k < 128 →
  len (der_tlv 0x04 (digest k bs)) = 2 + digest_output_len k.
Proof.
  intros. rewrite der_tlv_eq, len_app, len_der_header, digest_len.
  rewrite (proj2 (Z.ltb_lt _ _)) by lia. done.
Qed.

(** ** A world to run the theorems in *)

(** Certificates are the text "subject,issuer"; a signature is a hash of the
    key and the message; a time is its four content octets, in days. *)
Definition toy_cert (bs : bytes) : option Cert :=
  '(s, i) ← split_once 44 (u8 <$> bs); Some (mk_cert s i (Some bs)).
Definition toy_sign (key msg : bytes) : bytes := toy_digest Sha1 (key ++ msg).
Definition ToyX509 : X509Crates := {|
  certificate_from_der bs := Some (mk_certificate None (Some (der_tlv 0x02 bs)) (Some bs) (Some bs) bs);
  cert_from_der := toy_cert;
  cert_from_pem_str _ := None;
  RsaPublicKey := bytes; RsaSignature := bytes;
  rsa_public_key := Some; rsa_signature := Some;
  rsa_verify _ key msg sig := bool_decide (sig = toy_sign key msg);
  time_decode tlv := Some (from_le (sub tlv 2 6));
  from_unix_timestamp d := Some (mk_date 2026 (d / 31) (d mod 31)) |}.
Definition toy_pair (s : string) : Cert := default (mk_cert [] [] None) (toy_cert (lit s)).

Definition toy_algorithm : bytes :=
  der_tlv 0x30 (der_tlv 0x06 (PKCS1_OID_PREFIX ++ [byte_of 0x0b]) ++ [byte_of 5; byte_of 0]).
Definition toy_crl (issuer : bytes) (this next : Z) (revoked : list bytes) : bytes :=
  let entries := revoked ≫= λ s, der_tlv 0x30 s in
  let tbs := der_tlv 0x30 (toy_algorithm ++ der_tlv 0x30 issuer ++ der_tlv 0x17 (to_le 4 this)
               ++ der_tlv 0x17 (to_le 4 next) ++ der_tlv 0x30 entries) in
  der_tlv 0x30 (tbs ++ toy_algorithm ++ der_tlv 0x03 (byte_of 0 :: toy_sign issuer tbs)).
Definition ok_reply (body : bytes) : list (option bytes) :=
  [Some (encode_utf8 (chars "HTTP/1.1 200 OK" ++ CRLF ++ CRLF)); Some body].
Definition toy_world (body : bytes) : World := mk_world (mk_date 2026 3 5) (λ _ _ _, Some (ok_reply body)).
Definition crl_options (mode : RevocationMode) (url : string) : OnlineTrustOptions :=
  mk_options false None false None mode (Some (chars url)) 5 65536.


(** What a server or a certificate holds never makes a reader panic: the
    URL lists of the extensions, OCSP responses and revocation lists end in a
    result or an error on every input, and every loop over them ends. *)
Theorem trust_parsers_never_panic `{X509Crates} input :
  parse_aia_ca_issuers input ≠ Panic ∧ parse_aia_ocsp input ≠ Panic ∧
  parse_http_uri_general_names input ≠ Panic ∧ parse_ocsp_response_der input ≠ Panic ∧
  parse_certificate_list_der input ≠ Panic.
Proof.
  split; [apply aia_not_panic|]. split; [apply ocsp_entries_not_panic|].
  split; [apply general_names_not_panic|]. split; [apply ocsp_response_not_panic|].
  apply crl_not_panic.
Qed.

(** The OCSP request asks for the right certificate: a reader of the
    request finds, five sequences deep, the SHA-1 algorithm, the hashes of the
    issuer's name and key, and the serial number of the certificate. *)
Theorem ocsp_request_roundtrip `{X509Crates} `{DigestOracle} c issuer req :
  build_ocsp_request_der c issuer = Ok req → len req < 0x8000 →
  ∃ der cert ider issuer_cert name serial body,
    cert_der c = Some der ∧ certificate_from_der der = Some cert ∧
    cert_der issuer = Some ider ∧ certificate_from_der ider = Some issuer_cert ∧
    subject_der issuer_cert = Some name ∧ serial_number_der cert = Some serial ∧
    (ocsp_request ← expect_tlv req 0x30; tbs_request ← expect_tlv ocsp_request 0x30;
     request_list ← expect_tlv tbs_request 0x30; request ← expect_tlv request_list 0x30;
     expect_tlv request 0x30) = Ok body ∧
    read_tlv body 0 = Ok (SHA1_ALGORITHM_IDENTIFIER_DER, 11) ∧
    read_tlv body 11 = Ok (der_tlv 0x04 (digest Sha1 name), 33) ∧
    read_tlv body 33 = Ok (der_tlv 0x04 (digest Sha1 (subject_public_key_bits issuer_cert)), 55) ∧
    sub body 55 (len body) = serial.
Proof.
  intros (der & cert & ider & icert & name & serial & ? & ? & ? & ? & ? & ? & ->)%build_request_eq Hl.
  set (key := subject_public_key_bits icert) in *. set (body := cert_id_body name key serial) in *.
  pose proof (len_der_tlv 0x30 body). pose proof (len_der_tlv 0x30 (der_tlv 0x30 body)).
  pose proof (len_der_tlv 0x30 (der_tlv 0x30 (der_tlv 0x30 body))).
  pose proof (len_der_tlv 0x30 (der_tlv 0x30 (der_tlv 0x30 (der_tlv 0x30 body)))).
  pose proof (len_der_tlv 0x30 (der_tlv 0x30 (der_tlv 0x30 (der_tlv 0x30 (der_tlv 0x30 body))))).
  exists der, cert, ider, icert, name, serial, body. do 6 (split; [done|]).
  split; [do 5 (rewrite expect_der_tlv by lia; cbn [mbind outcome_bind]); done|].
  assert (∀ bs, len (der_tlv 0x04 (digest Sha1 bs)) = 22) as Hh by (intros; by rewrite len_hash_tlv).
  assert (len serial < 0x8000) as Hs.
  { subst body. unfold cert_id_body in *. rewrite !len_app in *. rewrite !Hh in *.
    change (len SHA1_ALGORITHM_IDENTIFIER_DER) with 11 in *. lia. }
  assert (∀ pre k rest, len pre < 100 → read_tlv (pre ++ der_tlv 0x04 (digest Sha1 k) ++ rest) (len pre)
    = Ok (der_tlv 0x04 (digest Sha1 k), len pre + 22)) as Hread.
  { intros pre k rest Hp. rewrite read_der_tlv; rewrite ?digest_len, ?Hh; cbn; [done|lia|lia]. }
  subst body. unfold cert_id_body. split; [|split; [|split]].
  - exact (read_der_tlv [] 0x30 (byte_of <$> [6; 5; 43; 14; 3; 2; 26; 5; 0]) _ eq_refl eq_refl).
  - apply (Hread SHA1_ALGORITHM_IDENTIFIER_DER). done.
  - pose proof (Hread (SHA1_ALGORITHM_IDENTIFIER_DER ++ der_tlv 0x04 (digest Sha1 name)) key serial) as Hr.
    rewrite len_app, Hh, <-app_assoc in Hr. apply Hr. done.
  - rewrite !app_assoc, <-(app_assoc SHA1_ALGORITHM_IDENTIFIER_DER).
    rewrite sub_app_r; rewrite !len_app, !Hh; change (len SHA1_ALGORITHM_IDENTIFIER_DER) with 11; [|lia].
    trans (sub serial 0 (len serial)); [f_equal; lia|apply sub_full].
Qed.
Lemma ocsp_request_roundtrip_witness :
  let req := match @build_ocsp_request_der ToyX509 ToyDigest (toy_pair "leaf,CA") (toy_pair "CA,CA")
             with Ok r => r | _ => [] end in
  ∃ der cert ider issuer_cert name serial body,
    cert_der (toy_pair "leaf,CA") = Some der ∧ @certificate_from_der ToyX509 der = Some cert ∧
    cert_der (toy_pair "CA,CA") = Some ider ∧ @certificate_from_der ToyX509 ider = Some issuer_cert ∧
    subject_der issuer_cert = Some name ∧ serial_number_der cert = Some serial ∧
    (ocsp_request ← expect_tlv req 0x30; tbs_request ← expect_tlv ocsp_request 0x30;
     request_list ← expect_tlv tbs_request 0x30; request ← expect_tlv request_list 0x30;
     expect_tlv request 0x30) = Ok body ∧
    read_tlv body 0 = Ok (SHA1_ALGORITHM_IDENTIFIER_DER, 11) ∧
    read_tlv body 11 = Ok (der_tlv 0x04 (@digest ToyDigest Sha1 name), 33) ∧
    read_tlv body 33 = Ok (der_tlv 0x04 (@digest ToyDigest Sha1 (subject_public_key_bits issuer_cert)), 55) ∧
    sub body 55 (len body) = serial.
Proof.
  cbn zeta. apply (@ocsp_request_roundtrip ToyX509 ToyDigest (toy_pair "leaf,CA") (toy_pair "CA,CA"));
    by vm_compute.
Defined.

(** Best-effort checking looks for "revoked" in the message of a failed CRL
    check, which quotes the URL: an unreachable list is passed over, unless its
    address holds the word. *)
Theorem best_effort_reads_the_url :
  let down := mk_world (mk_date 2026 3 5) (λ _ _ _, None) in
  let check url := @check_revocation_chain ToyX509 ToyDigest down (toy_pair "leaf,CA") [toy_pair "CA,CA"]
                     (crl_options BestEffort url) in
  check "http://ca/list.crl" = Ok tt ∧
  check "http://ca/revoked.crl" = Err "fetch CRL from http://ca/revoked.crl".
Proof. by vm_compute. Qed.
