(* ===== verification/CertChain.v ===== *)
(** Trust anchors and certificate chains:
    [crates/psign-authenticode-trust/src/anchor.rs] and [chain.rs], over the
    certificates, retrieval and revocation checks of [Online].

    The walk from a leaf to a root is a loop over explicit state; with online
    retrieval it need not end, and its definitions take the number of rounds
    as fuel, [None] standing for a walk still under way. *)

From stdpp Require Import gmap sorting.
From S2P Require Import Prelude.
From S2P Require Import PeDigest.
From S2P Require Import RustStr.
From S2P Require Import Tlv.
From S2P Require Import Online.

#[export] Instance byte_countable : Countable byte.
Proof. exact (inj_countable' u8 byte_of byte_of_u8). Defined.

(** ** Anchors *)

Definition AnchorStore : Type := gset bytes.

Section CertChain.
Context `{X509Crates} `{DigestOracle}.

Definition cert_sha1_thumbprint (c : Cert) : outcome bytes :=
  der ← to_der c der_failed; Ok (digest Sha1 der).

Definition empty_store : AnchorStore := ∅.
Fixpoint merge_cert_thumbprints (store : AnchorStore) (certs : list Cert) : outcome AnchorStore :=
  match certs with
  | [] => Ok store
  | c :: certs' => t ← cert_sha1_thumbprint c; merge_cert_thumbprints ({[t]} ∪ store) certs'
  end.
Definition merge_thumbprints_only (store : AnchorStore) (thumbs : list bytes) : AnchorStore :=
  foldl (λ s t, {[t]} ∪ s) store thumbs.
Definition contains_thumbprint (store : AnchorStore) (thumb : bytes) : bool :=
  bool_decide (thumb ∈ store).
Definition thumbprint_count (store : AnchorStore) : Z := Z.of_nat (size store).

(** [parse_cert_bytes] of [anchor.rs] differs from that of [online.rs] in a
    message. *)
Definition parse_anchor_bytes (raw : bytes) : outcome Cert :=
  let trimmed := trim_ascii_start raw in
  if bytes_start_with trimmed (chars "-----BEGIN ") then
    s ← ok_or (from_utf8 trimmed) "anchor PEM is not UTF-8: {e}";
    ok_or (cert_from_pem_str s) "PEM parse failed: {e}"
  else ok_or (cert_from_der trimmed) "DER parse failed: {e}".

(** A directory: the paths of its entries and whether each is a file. *)
Record Disk := mk_disk {
  read_dir : str → option (list (str * bool));
  read_file : str → option bytes }.

Fixpoint load_paths (disk : Disk) (paths : list str) (certs : list Cert) : outcome (list Cert) :=
  match paths with
  | [] => Ok certs
  | path :: paths' =>
      raw ← ok_or (read_file disk path) "read anchor {}";
      parsed ← with_context (parse_anchor_bytes raw) "parse anchor certificate {}";
      load_paths disk paths' (certs ++ [parsed])
  end.
Definition anchor_extension (path : str) : bool :=
  let ext := default [] (to_ascii_lowercase <$> path_extension path) in
  bool_decide (ext = chars "crt") || bool_decide (ext = chars "cer") || bool_decide (ext = chars "pem").
(** [paths.sort()]: the entries of one directory differ in their last
    component, which compares by its code points. *)
Fixpoint insert_path (p : str) (ps : list str) : list str :=
  match ps with
  | [] => [p]
  | q :: ps' => if str_le p q then p :: ps else q :: insert_path p ps'
  end.
Definition sort_paths (ps : list str) : list str := foldr insert_path [] ps.

Definition load_dir (disk : Disk) (dir : str) : outcome (AnchorStore * list Cert) :=
  rd ← ok_or (read_dir disk dir) "read anchor dir {}";
  let paths := sort_paths (fst <$> List.filter snd rd) in
  certs ← load_paths disk (List.filter anchor_extension paths) [];
  bail_if (bool_decide (certs = []))
    "no certificates loaded from anchor dir {} (expected .crt/.cer/.pem)";;
  store ← merge_cert_thumbprints empty_store certs;
  Ok (store, certs).
Definition load_files (disk : Disk) (paths : list str) : outcome (AnchorStore * list Cert) :=
  certs ← load_paths disk paths [];
  bail_if (bool_decide (certs = [])) "no trusted CA files were supplied";;
  store ← merge_cert_thumbprints empty_store certs;
  Ok (store, certs).

(** ** The walk in a fixed pool *)

Definition self_issued (c : Cert) : bool := bool_decide (subject_name c = issuer_name c).
(** [if let Some(store) = anchors && let Ok(thumb) = .. && store.contains_thumbprint(&thumb)] *)
Definition at_anchor (anchors : option AnchorStore) (c : Cert) : bool :=
  match anchors with
  | Some store =>
      match cert_sha1_thumbprint c with Ok thumb => contains_thumbprint store thumb | _ => false end
  | None => false
  end.
Definition last_at_anchor (anchors : option AnchorStore) (out : list Cert) : bool :=
  match last out with Some c => at_anchor anchors c | None => false end.
Definition find_subject (pool : list Cert) (dn : str) : option Cert :=
  List.find (λ c, bool_decide (subject_name c = dn)) pool.

Definition unresolved : string := "could not resolve issuer certificate for subject {:?}".
Definition too_long : string := "certificate chain too long (possible loop)".

Record Walk := mk_walk { w_out : list Cert; w_issuer_dn : str; w_steps : Z }.
Definition walk_step (pool : list Cert) (anchors : option AnchorStore) (s : Walk)
    : Walk + outcome (list Cert) :=
  match find_subject pool (w_issuer_dn s) with
  | None => inr (if last_at_anchor anchors (w_out s) then Ok (w_out s) else Err unresolved)
  | Some parent =>
      let out := w_out s ++ [parent] in
      let steps := w_steps s + 1 in
      if 32 <? steps then inr (Err too_long)
      else if self_issued parent then inr (Ok out)
      else if at_anchor anchors parent then inr (Ok out)
      else inl (mk_walk out (issuer_name parent) steps)
  end.
(** The step limit makes 33 rounds enough. *)
Definition issuer_chain_excluding_leaf (leaf : Cert) (pool : list Cert)
    (anchors : option AnchorStore) : outcome (list Cert) :=
  if self_issued leaf then Ok [] else
  default Panic (loop (walk_step pool anchors) 34 (mk_walk [] (issuer_name leaf) 0)).

(** ** The walk with retrieval *)

Record OnlineWalk := mk_online {
  o_pool : list Cert; o_out : list Cert; o_current : Cert; o_steps : Z }.
Definition online_step (w : World) (online : OnlineTrustOptions) (anchors : option AnchorStore)
    (s : OnlineWalk) : OnlineWalk + outcome (list Cert) :=
  match find_subject (o_pool s) (issuer_name (o_current s)) with
  | Some parent =>
      let steps := o_steps s + 1 in
      if 32 <? steps then inr (Err too_long) else
      let out := o_out s ++ [parent] in
      if at_anchor anchors parent then inr (Ok out)
      else if self_issued parent then inr (Ok out)
      else inl (mk_online (o_pool s) out parent steps)
  | None =>
      match issuer_candidates_from_aia w (o_current s) online with
      | Ok [] => inr (if last_at_anchor anchors (o_out s) then Ok (o_out s) else Err unresolved)
      | Ok fetched => inl (mk_online (o_pool s ++ fetched) (o_out s) (o_current s) (o_steps s))
      | Err e => inr (Err e)
      | Panic => inr Panic
      end
  end.
Definition issuer_chain_excluding_leaf_online (fuel : nat) (w : World) (leaf : Cert)
    (pool : list Cert) (online : OnlineTrustOptions) (anchors : option AnchorStore)
    : option (outcome (list Cert)) :=
  if self_issued leaf then Some (Ok []) else
  loop (online_step w online anchors) fuel (mk_online pool [] leaf 0).

(** ** Verification against the anchors *)

Definition terminal_root_cert (leaf : Cert) (chain : list Cert) : outcome Cert :=
  if self_issued leaf then Ok leaf else unwrap (last chain).

(** [merge_unique_certs], with [seen] and [out] *)
Fixpoint merge_unique_from (certs : list Cert) (seen : gset bytes) (out : list Cert)
    : outcome (list Cert) :=
  match certs with
  | [] => Ok out
  | c :: certs' =>
      thumb ← cert_sha1_thumbprint c;
      if bool_decide (thumb ∈ seen) then merge_unique_from certs' seen out
      else merge_unique_from certs' ({[thumb]} ∪ seen) (out ++ [c])
  end.
Definition merge_unique_certs (primary extra : list Cert) : outcome (list Cert) :=
  merge_unique_from (primary ++ extra) ∅ [].

(** [chain_verifies] is [picky]'s chain verifier: signatures and validity at a
    date. *)
Definition verify_certificate_chain_to_anchors
    (chain_verifies : Cert → list Cert → UtcDate → bool) (fuel : nat) (w : World) (leaf : Cert)
    (pool : list Cert) (anchors : AnchorStore) (anchor_certs : list Cert)
    (online : OnlineTrustOptions) (instant : UtcDate) : option (outcome Cert) :=
  match merge_unique_certs anchor_certs pool with
  | Err e => Some (Err e)
  | Panic => Some Panic
  | Ok merged =>
      r ← issuer_chain_excluding_leaf_online fuel w leaf merged online (Some anchors);
      Some (
        chain ← r;
        root ← terminal_root_cert leaf chain;
        root_thumb ← cert_sha1_thumbprint root;
        bail_if (negb (contains_thumbprint anchors root_thumb))
          "terminal root certificate is not in the anchor store (SHA-1 thumbprint {:02x}{:02x}…)";;
        check_revocation_chain w leaf chain online;;
        if self_issued leaf && bool_decide (chain = []) then Ok root else
        bail_if (negb (chain_verifies leaf chain instant)) "certificate chain verification: {e}";;
        Ok root)
  end.

(** ** Chains *)

(** Each certificate was issued in the name of the next. *)
Fixpoint linked (c : Cert) (chain : list Cert) : Prop :=
  match chain with
  | [] => True
  | p :: chain' => subject_name p = issuer_name c ∧ linked p chain'
  end.
Lemma linked_app c chain p :
  linked c (chain ++ [p]) ↔ linked c chain ∧ subject_name p = issuer_name (default c (last chain)).
Proof.
  revert c. induction chain as [|q chain IH]; intros c; cbn [app linked]; [cbn; tauto|].
  rewrite IH, last_cons. destruct (last chain); cbn; tauto.
Qed.
Lemma find_subject_Some pool dn c : find_subject pool dn = Some c → c ∈ pool ∧ subject_name c = dn.
Proof.
  intros [Hin Hb]%List.find_some. apply bool_decide_eq_true in Hb. split; [by apply list_elem_of_In|done].
Qed.
Lemma find_subject_None pool dn : find_subject pool dn = None ↔ Forall (λ c, subject_name c ≠ dn) pool.
Proof.
  unfold find_subject. induction pool as [|c pool IH]; cbn; [split; [by constructor|done]|].
  rewrite Forall_cons. case_bool_decide; [split; [done|tauto]|]. rewrite IH. tauto.
Qed.

(** The state the online walk keeps: a linked chain of at most 32, not yet at
    an anchor or a root. *)
Definition walking (leaf : Cert) (s : OnlineWalk) : Prop :=
  linked leaf (o_out s) ∧ o_current s = default leaf (last (o_out s)) ∧
  o_steps s = len (o_out s) ∧ 0 <= o_steps s <= 32.
Lemma online_step_walking w online anchors leaf s s' :
  walking leaf s → online_step w online anchors s = inl s' → walking leaf s'.
Proof.
  intros (Hl & Hc & Hs & Hb). unfold online_step. destruct (find_subject _ _) as [p|] eqn:Ef.
  - apply find_subject_Some in Ef as [_ Hp]. destruct (32 <? _) eqn:E; [done|]. zbool.
    destruct (at_anchor _ _); [done|]. destruct (self_issued p); [done|]. intros [= <-].
    unfold walking. cbn. rewrite linked_app, last_snoc, len_app, Hp, Hc. change (len [p]) with 1.
    split_and!; [done|done|done|lia|lia|lia].
  - destruct (issuer_candidates_from_aia _ _ _) as [[|c l]|e|]; [done| |done|done]. by intros [= <-].
Qed.
Lemma online_step_done w online anchors leaf s out :
  walking leaf s → online_step w online anchors s = inr (Ok out) →
  linked leaf out ∧ len out <= 32 ∧ out ≠ [].
Proof.
  intros (Hl & Hc & Hs & Hb). unfold online_step. destruct (find_subject _ _) as [p|] eqn:Ef.
  - apply find_subject_Some in Ef as [_ Hp]. destruct (32 <? _) eqn:E; [done|]. zbool.
    assert (linked leaf (o_out s ++ [p]) ∧ len (o_out s ++ [p]) <= 32 ∧ o_out s ++ [p] ≠ []).
    { rewrite linked_app, Hp, Hc, len_app. change (len [p]) with 1. split; [done|]. split; [lia|].
      by destruct (o_out s). }
    by destruct (at_anchor _ _); [intros [= <-]|destruct (self_issued p); [intros [= <-]|]].
  - destruct (issuer_candidates_from_aia _ _ _) as [[|c l]|e|]; [|done..].
    unfold last_at_anchor. destruct (last (o_out s)) as [x|] eqn:El; [|done].
    destruct (at_anchor anchors x); [|done]. intros [= <-]. split; [done|]. split; [lia|].
    intros E. by rewrite E in El.
Qed.
Lemma online_chain_Ok fuel w leaf pool online anchors chain :
  issuer_chain_excluding_leaf_online fuel w leaf pool online anchors = Some (Ok chain) →
  linked leaf chain ∧ len chain <= 32 ∧ (chain = [] ↔ self_issued leaf = true).
Proof.
  unfold issuer_chain_excluding_leaf_online. destruct (self_issued leaf) eqn:E.
  - intros [= <-]. split; [done|]. split; [|done]. rewrite len_nil. lia.
  - intros Hl. enough (linked leaf chain ∧ len chain <= 32 ∧ chain ≠ []) as (? & ? & ?)
      by (split; [done|]; split; [done|]; by split).
    revert Hl. pose (Q := λ r, ∀ out, r = Ok out → linked leaf out ∧ len out <= 32 ∧ out ≠ []).
    intros Hl. enough (Q (Ok chain)) as HQ by by apply HQ.
    refine (loop_inv (online_step w online anchors) (walking leaf) Q _ _ _ _ _ _ Hl).
    + intros s s' Hw He. by eapply online_step_walking.
    + intros s r Hw He out ->. by eapply online_step_done.
    + split; [done|]. split; [done|]. cbn. change (len (@nil Cert)) with 0. lia.
Qed.

(** *** Termination *)

Section Servers.
Context (w : World) (online : OnlineTrustOptions) (known : list Cert).

(** [known] holds every certificate a walk from it can meet, and an issuer
    the servers offer is one the walk can use. *)
Definition helpful : Prop :=
  ∀ c fetched, c ∈ known → issuer_candidates_from_aia w c online = Ok fetched →
    Forall (.∈ known) fetched ∧
    (fetched ≠ [] → Exists (λ p, subject_name p = issuer_name c) fetched).
Definition rounds_left (s : OnlineWalk) : Z :=
  2 * (32 - o_steps s) +
  match find_subject (o_pool s) (issuer_name (o_current s)) with Some _ => 0 | None => 1 end.
Definition in_known (s : OnlineWalk) : Prop :=
  o_current s ∈ known ∧ Forall (.∈ known) (o_pool s) ∧ 0 <= o_steps s <= 32.

Lemma online_step_rounds anchors s s' :
  helpful → in_known s → online_step w online anchors s = inl s' →
  in_known s' ∧ 0 <= rounds_left s' < rounds_left s.
Proof.
  intros Hh (Hc & Hp & Hb). unfold rounds_left at 1 2 3, online_step, in_known.
  destruct (find_subject (o_pool s) _) as [p|] eqn:Ef.
  - apply find_subject_Some in Ef as [Hin _]. destruct (32 <? _) eqn:E; [done|]. zbool.
    destruct (at_anchor _ _); [done|]. destruct (self_issued p); [done|].
    intros [= <-]. cbn [o_pool o_current o_steps].
    split; [|by destruct (find_subject (o_pool s) (issuer_name p)); lia].
    split; [exact (proj1 (Forall_forall _ _) Hp p Hin)|]. split; [done|lia].
  - destruct (issuer_candidates_from_aia _ _ _) as [[|c l]|e|] eqn:Ea; [done| |done|done].
    intros [= <-]. cbn [o_pool o_current o_steps]. destruct (Hh _ _ Hc Ea) as [Hk Hex].
    split; [split; [done|split; [by apply Forall_app|done]]|].
    destruct (find_subject (o_pool s ++ c :: l) _) eqn:Ef'; [lia|].
    exfalso. apply find_subject_None, Forall_app in Ef' as [_ Hall].
    apply Exists_exists in Hex as (x & Hx & Hx'); [|done].
    exact (proj1 (Forall_forall _ _) Hall x Hx Hx').
Qed.
End Servers.

(** *** The two walks *)

Lemma walk_step_steps pool anchors s s' :
  0 <= w_steps s <= 32 → walk_step pool anchors s = inl s' →
  0 <= w_steps s' <= 32 ∧ 0 <= 32 - w_steps s' < 32 - w_steps s.
Proof.
  intros Hb. unfold walk_step. destruct (find_subject _ _) as [p|]; [|done].
  destruct (32 <? _) eqn:E; [done|]. zbool. destruct (self_issued p); [done|].
  destruct (at_anchor _ _); [done|]. intros [= <-]. cbn. lia.
Qed.
Lemma walk_total pool anchors dn : is_Some (loop (walk_step pool anchors) 34 (mk_walk [] dn 0)).
Proof.
  apply (loop_total (walk_step pool anchors) (λ s, 0 <= w_steps s <= 32) (λ s, 32 - w_steps s)).
  - intros s s'. apply walk_step_steps.
  - cbn. lia.
  - cbn. lia.
  - cbn. lia.
Qed.
Lemma aia_off w online c :
  enable_aia online = false → aia_url_override online = None →
  issuer_candidates_from_aia w c online = Ok [].
Proof. intros E1 E2. unfold issuer_candidates_from_aia. by rewrite E1, E2. Qed.
Lemma walks_agree w online anchors pool fuel out cur steps :
  enable_aia online = false → aia_url_override online = None →
  loop (online_step w online anchors) fuel (mk_online pool out cur steps) =
  loop (walk_step pool anchors) fuel (mk_walk out (issuer_name cur) steps).
Proof.
  intros E1 E2. revert out cur steps. induction fuel as [|fuel IH]; intros; [done|].
  cbn [loop]. unfold online_step, walk_step. cbn [o_pool o_out o_current o_steps w_out w_issuer_dn w_steps].
  destruct (find_subject pool _) as [p|]; [|by rewrite aia_off].
  destruct (32 <? _); [done|]. destruct (at_anchor _ _); [by destruct (self_issued p)|].
  destruct (self_issued p); [done|]. apply IH.
Qed.

(** *** Unique certificates *)

Definition thumbprints (certs : list Cert) (thumbs : list bytes) : Prop :=
  Forall2 (λ c t, cert_sha1_thumbprint c = Ok t) certs thumbs.
Lemma merge_unique_from_Ok certs seen out ts merged :
  thumbprints out ts → NoDup ts → list_to_set ts = seen →
  merge_unique_from certs seen out = Ok merged →
  ∃ ts', thumbprints merged ts' ∧ NoDup ts' ∧
    (∀ c, c ∈ merged → c ∈ out ∨ c ∈ certs) ∧
    (∀ c t, c ∈ certs → cert_sha1_thumbprint c = Ok t → t ∈ ts') ∧ ts ⊆ ts'.
Proof.
  revert seen out ts. induction certs as [|c certs IH]; intros seen out ts Ht Hn Hs; cbn.
  { intros [= ->]. exists ts. split_and!; try done; [by left|]. intros c t Hin. by apply elem_of_nil in Hin. }
  intros (t & Hc & Hr)%bind_Ok. case_bool_decide as Hin.
  - destruct (IH _ _ _ Ht Hn Hs Hr) as (ts' & ? & ? & Hm & Hc' & Hsub). exists ts'. split_and!; try done.
    + intros x [?|?]%Hm; [by left|right; by right].
    + intros x u [->|?]%elem_of_cons Hu; [|by eapply Hc']. assert (u = t) as -> by congruence.
      apply Hsub. rewrite <-Hs in Hin. by apply elem_of_list_to_set in Hin.
  - destruct (IH ({[t]} ∪ seen) (out ++ [c]) (ts ++ [t])) as (ts' & ? & ? & Hm & Hc' & Hsub); [..|done|].
    + apply Forall2_app; [done|]. by constructor.
    + apply NoDup_app. split; [done|]. split; [|apply NoDup_singleton].
      intros x Hx ->%list_elem_of_singleton. apply Hin. rewrite <-Hs. by apply elem_of_list_to_set.
    + rewrite list_to_set_app_L, Hs. cbn. by rewrite (right_id_L ∅ _), union_comm_L.
    + assert (t ∈ ts') as Hin' by (by apply Hsub, elem_of_app; right; left).
      exists ts'. split_and!; try done; [| |by intros x ?; apply Hsub, elem_of_app; left].
      * intros x [[?| ->%list_elem_of_singleton]%elem_of_app|?]%Hm; [by left|right; by left|right; by right].
      * intros x u [->|?]%elem_of_cons Hu; [|by eapply Hc'].
        by assert (u = t) as -> by congruence.
Qed.
End CertChain.

(** ** What the walks promise *)

(** Neither the signature nor the validity of a self-issued leaf is looked at:
    the verdict is the same whatever [picky] would say of it, at any instant. *)
Lemma self_issued_leaf_unverified `{X509Crates} `{DigestOracle} verifies verifies' fuel w leaf pool anchors
    anchor_certs online instant instant' : self_issued leaf = true →
  verify_certificate_chain_to_anchors verifies fuel w leaf pool anchors anchor_certs online instant =
  verify_certificate_chain_to_anchors verifies' fuel w leaf pool anchors anchor_certs online instant'.
Proof.
  intros Hs. unfold verify_certificate_chain_to_anchors, issuer_chain_excluding_leaf_online. rewrite Hs.
  by destruct (merge_unique_certs anchor_certs pool).
Qed.
(** C9: A certificate accepted against the anchors was reached: a chain of at
    most 32 certificates, each issued in the name of the next, leads from the
    leaf to a root whose thumbprint is an anchor's, and the revocation policy
    accepted the chain.  When the leaf is not self-issued the chain is not empty
    and its signatures and validity were verified at the instant.  When it is,
    the leaf is the root itself, its own thumbprint is an anchor's, and that is
    all: it is accepted whatever verification would say, at every instant. *)
Theorem chain_to_anchor_sound `{X509Crates} `{DigestOracle} verifies fuel w leaf pool anchors
    anchor_certs online instant root :
  verify_certificate_chain_to_anchors verifies fuel w leaf pool anchors anchor_certs online instant
    = Some (Ok root) →
  ∃ chain thumb,
    linked leaf chain ∧ len chain <= 32 ∧ root = default leaf (last chain) ∧
    cert_sha1_thumbprint root = Ok thumb ∧ thumb ∈ anchors ∧
    check_revocation_chain w leaf chain online = Ok tt ∧
    (self_issued leaf = false → chain ≠ [] ∧ verifies leaf chain instant = true) ∧
    (self_issued leaf = true → chain = [] ∧ root = leaf ∧ ∀ verifies' instant',
       verify_certificate_chain_to_anchors verifies' fuel w leaf pool anchors anchor_certs online instant' = Some (Ok root)).
Proof.
  intros Hacc. pose proof (λ v' i', self_issued_leaf_unverified v' verifies fuel w leaf pool anchors anchor_certs online i' instant) as Hun.
  rewrite Hacc in Hun. revert Hacc. unfold verify_certificate_chain_to_anchors at 1.
  destruct (merge_unique_certs anchor_certs pool) as [merged| |]; [|done..].
  destruct (issuer_chain_excluding_leaf_online _ _ _ _ _ _) as [r|] eqn:Ew; [|done].
  cbn [mbind option_bind]. intros [= Hr].
  apply bind_Ok in Hr as (chain & -> & Hr). apply online_chain_Ok in Ew as (Hl & Hb & Hself).
  apply bind_Ok in Hr as (t & Ht & Hr). apply bind_Ok in Hr as (thumb & Hth & Hr).
  apply bail_bind_Ok in Hr as [Hin Hr]. apply negb_false_iff, bool_decide_eq_true in Hin.
  apply bind_Ok in Hr as ([] & Hrev & Hr). exists chain, thumb.
  assert (t = default leaf (last chain)) as Hroot.
  { revert Ht. unfold terminal_root_cert. destruct (self_issued leaf) eqn:Es.
    - rewrite (proj2 Hself eq_refl). by intros [= <-].
    - destruct (last chain); [by intros [= <-]|done]. }
  destruct (self_issued leaf) eqn:Es.
  - rewrite (proj2 Hself eq_refl) in *. cbn in Hr. injection Hr as <-. split_and!; try done. intros _. split_and!; [done..|].
    intros v' i'. by apply Hun.
  - cbn [andb] in Hr. apply bail_bind_Ok in Hr as [Hv Hr]. apply negb_false_iff in Hv.
    injection Hr as <-. split_and!; try done. intros _. split; [|done]. intros Hnil. by apply Hself in Hnil.
Qed.

Definition toy_verifies (leaf : Cert) (chain : list Cert) (instant : UtcDate) : bool :=
  bool_decide (head (subject_name <$> chain) = Some (issuer_name leaf)).
Definition toy_anchors : AnchorStore := {[toy_digest Sha1 (lit "CA,CA")]}.
Lemma chain_to_anchor_sound_witness :
  let w := toy_world (toy_crl (lit "CA,CA") 90 100 [der_tlv 0x02 (lit "other,CA")]) in
  let o := crl_options Required "http://ca/ca.crl" in
  ∃ chain thumb,
    linked (toy_pair "leaf,CA") chain ∧ len chain <= 32 ∧
    toy_pair "CA,CA" = default (toy_pair "leaf,CA") (last chain) ∧
    @cert_sha1_thumbprint ToyDigest (toy_pair "CA,CA") = Ok thumb ∧ thumb ∈ toy_anchors ∧
    @check_revocation_chain ToyX509 ToyDigest w (toy_pair "leaf,CA") chain o = Ok tt ∧
    chain ≠ [] ∧ toy_verifies (toy_pair "leaf,CA") chain (mk_date 2026 3 5) = true.
Proof.
  cbn zeta. edestruct (@chain_to_anchor_sound ToyX509 ToyDigest toy_verifies 10
    (toy_world (toy_crl (lit "CA,CA") 90 100 [der_tlv 0x02 (lit "other,CA")])) (toy_pair "leaf,CA") [toy_pair "leaf,CA"]
    toy_anchors [toy_pair "CA,CA"] (crl_options Required "http://ca/ca.crl") (mk_date 2026 3 5) (toy_pair "CA,CA"))
    as (chain & thumb & Hl & Hb & Hr & Ht & Hin & Hrev & Hv & _); [by vm_compute|]. exists chain, thumb.
  destruct Hv; [done|]. by split_and!.
Defined.

(** With retrieval off, the online walk gives the chain of the walk in a
    fixed pool, or its error, and 34 rounds are enough for both. *)
Theorem online_offline_agree `{X509Crates} `{DigestOracle} fuel w leaf pool online anchors :
  enable_aia online = false → aia_url_override online = None → (34 <= fuel)%nat →
  issuer_chain_excluding_leaf_online fuel w leaf pool online anchors =
  Some (issuer_chain_excluding_leaf leaf pool anchors).
Proof.
  intros E1 E2 Hf. unfold issuer_chain_excluding_leaf_online, issuer_chain_excluding_leaf.
  destruct (self_issued leaf); [done|]. rewrite walks_agree by done.
  destruct (walk_total pool anchors (issuer_name leaf)) as [r Hr].
  by rewrite (loop_more _ _ _ _ _ Hr Hf), Hr.
Qed.
Lemma online_offline_agree_witness :
  @issuer_chain_excluding_leaf_online ToyX509 ToyDigest 34 (toy_world []) (toy_pair "leaf,CA")
    [toy_pair "CA,CA"] default_options None =
  Some (@issuer_chain_excluding_leaf ToyDigest (toy_pair "leaf,CA") [toy_pair "CA,CA"] None).
Proof. apply (@online_offline_agree ToyX509 ToyDigest); [done..|lia]. Defined.

(** When every issuer the servers offer bears the name asked for, the
    online walk ends within 66 rounds: each certificate of the chain costs at
    most one retrieval and one step, and the chain has at most 32. *)
Theorem online_walk_terminates `{X509Crates} `{DigestOracle} w leaf pool online anchors known :
  helpful w online known → leaf ∈ known → Forall (.∈ known) pool →
  is_Some (issuer_chain_excluding_leaf_online 66 w leaf pool online anchors).
Proof.
  intros Hh Hl Hp. unfold issuer_chain_excluding_leaf_online. destruct (self_issued leaf); [done|].
  assert (rounds_left (mk_online pool [] leaf 0) <= 65 ∧ 0 <= rounds_left (mk_online pool [] leaf 0)) as Hm
    by (unfold rounds_left; cbn [o_steps]; destruct (find_subject _ _); lia).
  apply (loop_total _ (in_known known) rounds_left); [|split; [done|]; split; [done|]; cbn; lia|lia|lia].
  intros s s'. by apply online_step_rounds.
Qed.
Definition aia_options (url : string) : OnlineTrustOptions :=
  mk_options false (Some (chars url)) false None Off None 5 65536.
Lemma online_walk_terminates_witness :
  is_Some (@issuer_chain_excluding_leaf_online ToyX509 ToyDigest 66 (toy_world (lit "CA,CA"))
    (toy_pair "leaf,CA") [toy_pair "leaf,CA"] (aia_options "http://ca/ca.cer") None).
Proof.
  apply (@online_walk_terminates ToyX509 ToyDigest _ _ _ _ _ [toy_pair "leaf,CA"; toy_pair "CA,CA"]);
    [|left|by repeat constructor].
  intros c fetched [->|[->|[]%elem_of_nil]%elem_of_cons]%elem_of_cons;
    vm_compute; intros [= <-]; (split; [repeat constructor|intros _; by constructor]).
Defined.

(** A server that answers with a certificate of another name keeps the online
    walk going for ever: a round that retrieves does not count, and what it
    adds to the pool is not compared with the name looked for. *)
Theorem unhelpful_server_never_ends `{X509Crates} `{DigestOracle} w leaf pool online anchors fetched :
  self_issued leaf = false →
  issuer_candidates_from_aia w leaf online = Ok fetched → fetched ≠ [] →
  Forall (λ c, subject_name c ≠ issuer_name leaf) (pool ++ fetched) →
  ∀ fuel, issuer_chain_excluding_leaf_online fuel w leaf pool online anchors = None.
Proof.
  intros Hs Hf Hne [Hp Hfe]%Forall_app fuel. unfold issuer_chain_excluding_leaf_online. rewrite Hs.
  revert pool Hp. induction fuel as [|fuel IH]; intros pool Hp; [done|]. cbn [loop].
  unfold online_step at 1. cbn [o_pool o_out o_current o_steps].
  rewrite (proj2 (find_subject_None _ _)), Hf by done. destruct fetched as [|c l]; [done|].
  apply IH. by apply Forall_app.
Qed.
Lemma unhelpful_server_never_ends_witness :
  @issuer_chain_excluding_leaf_online ToyX509 ToyDigest 1000 (toy_world (lit "x,y"))
    (toy_pair "leaf,CA") [toy_pair "leaf,CA"] (aia_options "http://ca/ca.cer") None = None.
Proof.
  eapply (@unhelpful_server_never_ends ToyX509 ToyDigest);
    [done|by vm_compute|done|by repeat constructor].
Defined.

(** Merging the bags keeps one certificate for each thumbprint, only
    certificates of the two, and loses no thumbprint. *)
Theorem merge_unique_spec `{DigestOracle} primary extra merged :
  merge_unique_certs primary extra = Ok merged →
  ∃ thumbs, thumbprints merged thumbs ∧ NoDup thumbs ∧
    (∀ c, c ∈ merged → c ∈ primary ++ extra) ∧
    (∀ c t, c ∈ primary ++ extra → cert_sha1_thumbprint c = Ok t → t ∈ thumbs).
Proof.
  intros (ts & ? & ? & Hm & ? & _)%(merge_unique_from_Ok _ _ _ []);
    [|constructor|constructor|done].
  exists ts. split_and!; [done|done| |done]. intros c [Hc|?]%Hm; [by apply elem_of_nil in Hc|done].
Qed.
