(* ===== verification/NativeArgv.v ===== *)
(** The native command line: [src/native_argv.rs].

    Windows [signtool] switches ([/pa], [/f file], ...) become GNU-style tokens.
    An [OsString] is its bytes (the Unix representation), read lossily as UTF-8
    where the code says [to_string_lossy]. *)

From S2P Require Import Prelude.
From S2P Require Import RustStr.

Inductive Verb := CertStore | Verify | Sign | Timestamp | Catdb | Remove | Rdp | Unknown.
#[export] Instance verb_eq_dec : EqDecision Verb.
Proof. solve_decision. Defined.

Abbreviation OsString := bytes (only parsing).
Definition lossy (arg : OsString) : str := from_utf8_lossy arg.
(** [OsString::from(s)] *)
Definition os (s : str) : OsString := encode_utf8 s.

(** A [match] on string literals. *)
Fixpoint assoc {A} (key : str) (arms : list (str * A)) : option A :=
  match arms with
  | [] => None
  | (k, v) :: arms' => if bool_decide (key = k) then Some v else assoc key arms'
  end.

Definition verb_names : list (str * Verb) :=
  let sw (k : string) (v : Verb) := (chars k, v) in
  [sw "verify" Verify; sw "cert-store" CertStore; sw "certstore" CertStore; sw "sign" Sign;
   sw "timestamp" Timestamp; sw "catdb" Catdb; sw "remove" Remove; sw "rdp" Rdp].
Definition is_verb (s : str) : option Verb := assoc (to_ascii_lowercase s) verb_names.

Definition SLASH : char := 47.
Definition is_windows_slash_switch (arg : OsString) : bool :=
  let s := lossy arg in
  (2 <=? byte_len s) && starts_with s [SLASH] && negb (starts_with s [SLASH; SLASH]).
Definition strip_leading_slash (arg : OsString) : str :=
  to_ascii_lowercase (trim_start_matches (λ c, c =? SLASH) (lossy arg)).

(** The replacement tokens of a switch, and how many following tokens it eats. *)
Abbreviation switch := (list str * Z)%type (only parsing).
Abbreviation table := (list (str * (list str * Z))) (only parsing).
Definition sw (key : string) (a : switch) : str * switch := (chars key, a).
Definition strs (l : list string) : list str := chars <$> l.
Definition flag (pieces : list string) : switch := (strs pieces, 0).
(** [let v = n.unwrap_or(dflt); (vec![.., v.to_string()], 1)] *)
Definition arg (pieces : list string) (n : option str) (dflt : string) : switch :=
  (strs pieces ++ [default (chars dflt) n], 1).
Definition arg_lower (pieces : list string) (n : option str) (dflt : string) : switch :=
  (strs pieces ++ [to_ascii_lowercase (default (chars dflt) n)], 1).
(** [/sa oid value] *)
Definition sign_auth (n n2 : option str) : switch :=
  let oid := default [] n in
  let val := default [] n2 in
  if bool_decide (oid = []) || bool_decide (val = []) then ([], 0)
  else ([chars "--sign-auth"; oid; val], 2).

Definition verify_switches (n : option str) : table :=
  [sw "pa" (flag ["--policy"; "pa"]);
   sw "kp" (flag ["--kp"]);
   sw "all" (flag ["--all"]);
   sw "tw" (flag ["--tw"]);
   sw "ms" (flag ["--ms"]);
   sw "p7" (flag ["--p7"]);
   sw "d" (flag ["--d"]);
   sw "ph" (flag ["--ph"]);
   sw "vr" (flag ["--vr"]);
   sw "testroot" (flag ["--testroot"]);
   sw "w2010pca" (flag ["--w2010pca"]);
   sw "now2010pca" (flag ["--now2010pca"]);
   sw "sl" (flag ["--sl"]);
   sw "bp" (flag ["--bp"]);
   sw "enclave" (flag ["--enclave"]);
   sw "a" (flag ["--catalog-search"; "all"]);
   sw "ad" (flag ["--catalog-search"; "default-db"]);
   sw "as" (flag ["--catalog-search"; "system"]);
   sw "pg" (arg ["--policy"; "pg"; "--policy-guid"] n EmptyString);
   sw "ag" (arg ["--ag"] n EmptyString);
   sw "c" (arg ["--c"] n EmptyString);
   sw "hash" (arg_lower ["--hash"] n "sha256");
   sw "o" (arg ["--os-version-check"] n EmptyString);
   sw "r" (arg ["--r"] n EmptyString);
   sw "sha1" (arg ["--sha1"] n EmptyString);
   sw "ca" (arg ["--ca"] n EmptyString);
   sw "u" (arg ["--u"] n EmptyString);
   sw "ds" (arg ["--ds"] n "0");
   sw "p7content" (arg ["--p7content"] n EmptyString);
   sw "p7s" (arg ["--p7s"] n EmptyString);
   sw "rust-sip-pe-digest-check" (flag ["--rust-sip-pe-digest-check"]);
   sw "rust-sip-script-digest-check" (flag ["--rust-sip-script-digest-check"]);
   sw "rust-sip-msi-digest-check" (flag ["--rust-sip-msi-digest-check"]);
   sw "rust-sip-esd-digest-check" (flag ["--rust-sip-esd-digest-check"]);
   sw "rust-sip-msix-digest-check" (flag ["--rust-sip-msix-digest-check"]);
   sw "rust-sip-cab-digest-check" (flag ["--rust-sip-cab-digest-check"]);
   sw "rust-sip-catalog-digest-check" (flag ["--rust-sip-catalog-digest-check"]);
   sw "rust-sip-all-digest-checks" (flag ["--rust-sip-all-digest-checks"])].
Definition certstore_switches (n : option str) : table :=
  [sw "sm" (flag ["--sm"]);
   sw "p" (arg ["--p"] n EmptyString);
   sw "s" (arg ["--s"] n "MY");
   sw "sha1" (arg ["--sha1"] n EmptyString)].
Definition sign_switches (n n2 : option str) : table :=
  [sw "a" (flag ["--a"]);
   sw "sm" (flag ["--sm"]);
   sw "as" (flag ["--as"]);
   sw "ph" (flag ["--ph"]);
   sw "nph" (flag ["--nph"]);
   sw "uw" (flag ["--uw"]);
   sw "dxml" (flag ["--dxml"]);
   sw "ds" (flag ["--ds"]);
   sw "f" (arg ["--f"] n EmptyString);
   sw "p" (arg ["--p"] n EmptyString);
   sw "n" (arg ["--n"] n EmptyString);
   sw "i" (arg ["--i"] n EmptyString);
   sw "sha1" (arg ["--sha1"] n EmptyString);
   sw "csp" (arg ["--csp"] n EmptyString);
   sw "kc" (arg ["--kc"] n EmptyString);
   sw "s" (arg ["--s"] n "MY");
   sw "fd" (arg_lower ["--fd"] n "sha256");
   sw "tr" (arg ["--tr"] n EmptyString);
   sw "tseal" (arg ["--tseal"] n EmptyString);
   sw "t" (arg ["--t"] n EmptyString);
   sw "td" (arg_lower ["--td"] n "sha256");
   sw "d" (arg ["--d"] n EmptyString);
   sw "du" (arg ["--du"] n EmptyString);
   sw "ac" (arg ["--ac"] n EmptyString);
   sw "r" (arg ["--r"] n EmptyString);
   sw "u" (arg ["--u"] n EmptyString);
   sw "dlib" (arg ["--dlib"] n EmptyString);
   sw "dmdf" (arg ["--dmdf"] n EmptyString);
   sw "dg" (arg ["--dg"] n EmptyString);
   sw "di" (arg ["--di"] n EmptyString);
   sw "p7" (arg ["--p7"] n EmptyString);
   sw "p7co" (arg ["--p7co"] n EmptyString);
   sw "p7ce" (arg ["--p7ce"] n EmptyString);
   sw "c" (arg ["--certificate-template"] n EmptyString);
   sw "sa" (sign_auth n n2);
   sw "fdchw" (flag ["--fdchw"]);
   sw "tdchw" (flag ["--tdchw"]);
   sw "rmc" (flag ["--rmc"]);
   sw "seal" (flag ["--seal"]);
   sw "itos" (flag ["--itos"]);
   sw "force" (flag ["--force"]);
   sw "nosealwarn" (flag ["--nosealwarn"]);
   sw "noenclavewarn" (flag ["--noenclavewarn"]);
   sw "rust-sip" (arg_lower ["--rust-sip"] n "pe")].
Definition timestamp_switches (n : option str) : table :=
  [sw "tr" (arg ["--tr"] n EmptyString);
   sw "tseal" (arg ["--tseal"] n EmptyString);
   sw "t" (arg ["--t"] n EmptyString);
   sw "td" (arg_lower ["--td"] n "sha256");
   sw "tp" (arg ["--tp"] n "0");
   sw "p7" (flag ["--p7"]);
   sw "force" (flag ["--force"]);
   sw "nosealwarn" (flag ["--nosealwarn"])].
Definition catdb_switches (n : option str) : table :=
  [sw "d" (flag ["--d"]);
   sw "g" (arg ["--g"] n EmptyString);
   sw "r" (flag ["--r"]);
   sw "u" (flag ["--u"])].
Definition remove_switches : table :=
  [sw "s" (flag ["--s"]);
   sw "c" (flag ["--c"]);
   sw "u" (flag ["--u"])].
Definition rdp_switches (n : option str) : table :=
  [sw "sha1" (arg ["--sha1"] n EmptyString);
   sw "sha256" (arg ["--sha256"] n EmptyString);
   sw "l" (flag ["--dry-run"])].

Definition switches (verb : Verb) (n n2 : option str) : table :=
  match verb with
  | Verify => verify_switches n
  | CertStore => certstore_switches n
  | Sign => sign_switches n n2
  | Timestamp => timestamp_switches n
  | Catdb => catdb_switches n
  | Remove => remove_switches
  | Rdp => rdp_switches n
  | Unknown => []
  end.
Definition translate_slash_switch (verb : Verb) (key : str) (next next2 : option str) : switch :=
  let n := trim <$> next in
  let n2 := trim <$> next2 in
  default ([], 0) (assoc key (switches verb n n2)).

Definition global_switches : list (str * list OsString) :=
  let sw (k v : string) := (chars k, [lit v]) in
  [sw "q" "-q"; sw "v" "-v"; sw "debug" "--debug"].
Definition try_global_slash (arg : OsString) : option (list OsString) :=
  if negb (is_windows_slash_switch arg) then None
  else assoc (strip_leading_slash arg) global_switches.

(** The search for the verb: [args.iter().enumerate().skip(1)]. *)
Fixpoint find_verb (i : Z) (args : list OsString) : option (Z * Verb) :=
  match args with
  | [] => None
  | arg :: args' =>
      match is_verb (trim (lossy arg)) with
      | Some v => Some (i, v)
      | None => find_verb (i + 1) args'
      end
  end.

(** One round of [while i < args.len()]; the variables are [i] and [out]. *)
Definition switch_step (args : list OsString) (verb : Verb) (s : Z * list OsString)
    : (Z * list OsString) + list OsString :=
  let '(i, out) := s in
  if i <? len args then
    match args !! Z.to_nat i with
    | None => inr out
    | Some arg =>
        match try_global_slash arg with
        | Some g => inl (i + 1, out ++ g)
        | None =>
            if negb (is_windows_slash_switch arg) then inl (i + 1, out ++ [arg])
            else
              let key := strip_leading_slash arg in
              let next := lossy <$> args !! Z.to_nat (i + 1) in
              let next2 := lossy <$> args !! Z.to_nat (i + 2) in
              let '(pieces, eat) := translate_slash_switch verb key next next2 in
              if bool_decide (pieces = []) then inl (i + 1, out ++ [arg])
              else inl (i + 1 + eat, out ++ (os <$> pieces))
        end
    end
  else inr out.

(** [i] grows every round: the number of arguments is enough fuel. *)
Definition normalize_native_signtool_argv (args : list OsString) : list OsString :=
  if len args <? 2 then args else
  match find_verb 1 (drop 1 args) with
  | None => args
  | Some (vi, verb_kind) =>
      let globals :=
        take (Z.to_nat (vi - 1)) (drop 1 args) ≫= λ arg, default [arg] (try_global_slash arg) in
      let out := take 1 args ++ globals
        ++ [os (to_ascii_lowercase (lossy (nth (Z.to_nat vi) args [])))] in
      default [] (loop (switch_step args verb_kind) (S (length args)) (vi + 1, out))
  end.

(** ** The translation, token by token

    [translate verb args] reads the tokens after the verb from the left. *)
Fixpoint translate_fuel (fuel : nat) (verb : Verb) (args : list OsString) : list OsString :=
  match fuel, args with
  | S fuel', arg :: rest =>
      match try_global_slash arg with
      | Some g => g ++ translate_fuel fuel' verb rest
      | None =>
          if negb (is_windows_slash_switch arg) then arg :: translate_fuel fuel' verb rest
          else
            let '(pieces, eat) := translate_slash_switch verb (strip_leading_slash arg)
              (lossy <$> rest !! 0%nat) (lossy <$> rest !! 1%nat) in
            if bool_decide (pieces = []) then arg :: translate_fuel fuel' verb rest
            else (os <$> pieces) ++ translate_fuel fuel' verb (drop (Z.to_nat eat) rest)
      end
  | _, _ => []
  end.
Definition translate (verb : Verb) (args : list OsString) : list OsString :=
  translate_fuel (length args) verb args.

(** ** The switch tables *)

Lemma assoc_Forall {A} (P : str * A → Prop) key arms v :
  Forall P arms → assoc key arms = Some v → P (key, v).
Proof.
  induction 1 as [|[k w] arms Hk _ IH]; cbn; [done|].
  case_bool_decide; [|done]. intros [= <-]. by subst.
Qed.

Definition DASH : char := 45.
(** A row of a table: its key names no path, it eats at most two tokens, and
    its first token is an option. *)
Definition row_ok (row : str * switch) : Prop :=
  let '(key, (pieces, eat)) := row in
  ((SLASH ∉ key) ∧ 0 <= eat <= 2 ∧ ((pieces = [] ∧ eat = 0) ∨ (∃ rest ps, pieces = (DASH :: DASH :: rest) :: ps))).

Lemma key_no_slash (k : string) : forallb (λ c, negb (c =? SLASH)) (chars k) = true → SLASH ∉ chars k.
Proof.
  intros H Hin. rewrite forallb_forall in H.
  specialize (H SLASH). rewrite <-list_elem_of_In in H. by specialize (H Hin).
Qed.
Lemma sw_ok (k s : string) ps eat :
  forallb (λ c, negb (c =? SLASH)) (chars k) = true → 0 <= eat <= 2 →
  starts_with (chars s) [DASH; DASH] = true → row_ok (chars k, (chars s :: ps, eat)).
Proof.
  intros Hk He Hs. split; [by apply key_no_slash|]. split; [done|]. right.
  apply starts_with_spec in Hs as [r ->]. by eexists _, _.
Qed.
Lemma switches_ok verb n n2 : Forall row_ok (switches verb n n2).
Proof.
  destruct verb; cbn [switches]; repeat first
    [ apply Forall_nil_2
    | apply Forall_cons_2; [unfold sw, flag, arg, arg_lower, strs; cbn [fmap list_fmap app];
        try (apply sw_ok; [by vm_compute|lia|by vm_compute])|] ].
  unfold sign_auth. destruct (_ || _).
  - split; [by apply key_no_slash|]. split; [lia|by left].
  - apply sw_ok; [by vm_compute|lia|by vm_compute].
Qed.

Lemma translate_switch_ok verb key next next2 pieces eat :
  translate_slash_switch verb key next next2 = (pieces, eat) →
  0 <= eat <= 2 ∧ (pieces = [] ∧ eat = 0 ∨ (SLASH ∉ key) ∧ ∃ rest ps, pieces = (DASH :: DASH :: rest) :: ps).
Proof.
  unfold translate_slash_switch.
  destruct (assoc key (switches verb (trim <$> next) (trim <$> next2))) as [[ps e]|] eqn:E; cbn.
  - intros [= -> ->]. apply (assoc_Forall row_ok) in E as (? & ? & Hp); [|apply switches_ok].
    split; [done|]. destruct Hp; [by left|by right].
  - intros [= <- <-]. split; [lia|by left].
Qed.

(** ** The loop and the translation *)

Lemma translate_fuel_more fuel fuel' verb args :
  (length args <= fuel)%nat → (length args <= fuel')%nat →
  translate_fuel fuel verb args = translate_fuel fuel' verb args.
Proof.
  revert fuel' args. induction fuel as [|fuel IH]; intros [|fuel'] [|arg rest] H1 H2;
    cbn [length] in *; try done; try lia. cbn [translate_fuel].
  destruct (try_global_slash arg); [by rewrite (IH fuel') by lia|].
  destruct (negb _); [by rewrite (IH fuel') by lia|].
  destruct (translate_slash_switch _ _ _ _) as [pieces eat].
  case_bool_decide; [by rewrite (IH fuel') by lia|].
  f_equal. apply IH; rewrite length_drop; lia.
Qed.
Lemma translate_cons verb arg rest :
  translate verb (arg :: rest) =
  match try_global_slash arg with
  | Some g => g ++ translate verb rest
  | None =>
      if negb (is_windows_slash_switch arg) then arg :: translate verb rest
      else
        let '(pieces, eat) := translate_slash_switch verb (strip_leading_slash arg)
          (lossy <$> rest !! 0%nat) (lossy <$> rest !! 1%nat) in
        if bool_decide (pieces = []) then arg :: translate verb rest
        else (os <$> pieces) ++ translate verb (drop (Z.to_nat eat) rest)
  end.
Proof.
  unfold translate. cbn [length translate_fuel].
  destruct (try_global_slash arg); [done|]. destruct (negb _); [done|].
  destruct (translate_slash_switch _ _ _ _) as [pieces eat].
  case_bool_decide; [done|]. f_equal. apply translate_fuel_more; rewrite length_drop; lia.
Qed.

Lemma switch_loop args verb fuel i out :
  0 <= i → Z.max 0 (len args - i) < Z.of_nat fuel →
  loop (switch_step args verb) fuel (i, out) = Some (out ++ translate verb (drop (Z.to_nat i) args)).
Proof.
  revert i out. induction fuel as [|fuel IH]; intros i out Hi Hf; cbn [loop]; [lia|].
  unfold switch_step. destruct (i <? len args) eqn:El; zbool.
  2: { rewrite drop_ge by (unfold len in *; lia). by rewrite app_nil_r. }
  destruct (lookup_lt_is_Some_2 args (Z.to_nat i)) as [arg Harg]; [unfold len in *; lia|].
  rewrite Harg, (drop_S _ _ _ Harg), translate_cons.
  assert (∀ k, 0 <= k → drop (Z.to_nat (i + 1 + k)) args = drop (Z.to_nat k) (drop (S (Z.to_nat i)) args)) as Hd.
  { intros k Hk. rewrite drop_drop. f_equal. lia. }
  assert (∀ k, drop (S (Z.to_nat i)) args !! k = args !! Z.to_nat (i + 1 + Z.of_nat k)) as Hl.
  { intros k. rewrite lookup_drop. f_equal. lia. }
  pose proof (Hd 0 ltac:(lia)) as Hd0. rewrite Z.add_0_r in Hd0. change (drop (Z.to_nat 0) ?l) with l in Hd0.
  destruct (try_global_slash arg) as [g|].
  { rewrite IH, Hd0 by lia. by rewrite <-app_assoc. }
  destruct (negb (is_windows_slash_switch arg)).
  { rewrite IH, Hd0 by lia. by rewrite <-app_assoc. }
  rewrite !Hl. change (Z.of_nat 0) with 0. change (Z.of_nat 1) with 1.
  rewrite Z.add_0_r. replace (i + 1 + 1) with (i + 2) by lia.
  destruct (translate_slash_switch _ _ _ _) as [pieces eat] eqn:Et.
  apply translate_switch_ok in Et as [He _].
  case_bool_decide.
  - rewrite IH, Hd0 by lia. by rewrite <-app_assoc.
  - rewrite IH, Hd by lia. by rewrite <-app_assoc.
Qed.

Lemma find_verb_range i args vi v : find_verb i args = Some (vi, v) → i <= vi < i + len args.
Proof.
  revert i. induction args as [|a args IH]; intros i; cbn [find_verb]; [done|]. rewrite len_cons.
  pose proof (len_nonneg args). destruct (is_verb (trim (lossy a))).
  - intros Hv. injection Hv as <- _. lia.
  - intros Hv%IH. lia.
Qed.

(** A plain token: one the normalisation never replaces. *)
Definition is_path (arg : OsString) : bool :=
  negb (is_windows_slash_switch arg) || bool_decide (SLASH ∈ strip_leading_slash arg).

Lemma assoc_global_no_slash key g : assoc key global_switches = Some g → SLASH ∉ key.
Proof.
  intros H. apply (assoc_Forall (λ row : str * list OsString, SLASH ∉ row.1)) in H; [done|].
  unfold global_switches. repeat (apply Forall_cons_2; [by apply key_no_slash|]). apply Forall_nil_2.
Qed.
Lemma path_not_global arg : is_path arg = true → try_global_slash arg = None.
Proof.
  unfold is_path, try_global_slash. destruct (negb _); [done|]. cbn. intros Hs. zbool.
  destruct (assoc (strip_leading_slash arg) global_switches) as [g|] eqn:E; [|done]. by apply assoc_global_no_slash in E.
Qed.
Lemma translate_path verb arg rest : is_path arg = true →
  translate verb (arg :: rest) = arg :: translate verb rest.
Proof.
  intros Hp. rewrite translate_cons, path_not_global by done. unfold is_path in Hp.
  destruct (negb _); [done|]. cbn in Hp. zbool.
  destruct (translate_slash_switch _ _ _ _) as [pieces eat] eqn:Et.
  apply translate_switch_ok in Et as [_ [[-> _] | [Hn _]]]; [|done]. done.
Qed.

(** ** Properties *)

(** C7: The index loop over the arguments is the left-to-right translation:
    the program name stays, the tokens before the verb keep their order with
    [/q], [/v] and [/debug] replaced, the verb is put in lower case, and the
    tokens after it are translated one by one, each switch taking its own
    operands. Without a verb the arguments are returned unchanged. *)
Theorem normalize_is_translation prog args :
  normalize_native_signtool_argv (prog :: args) =
  match find_verb 1 args with
  | None => prog :: args
  | Some (vi, verb) =>
      let before := take (Z.to_nat (vi - 1)) args in
      let verb_token := nth (Z.to_nat (vi - 1)) args [] in
      let after := drop (Z.to_nat vi) args in
      prog :: (before ≫= λ arg, default [arg] (try_global_slash arg))
        ++ os (to_ascii_lowercase (lossy verb_token)) :: translate verb after
  end.
Proof.
  unfold normalize_native_signtool_argv. destruct args as [|a args']; [done|].
  set (args := a :: args'). rewrite (proj2 (Z.ltb_ge _ 2)).
  2: { unfold args. rewrite !len_cons. pose proof (len_nonneg args'). lia. }
  cbn [drop]. change (drop 0 args) with args. destruct (find_verb 1 args) as [[vi verb]|] eqn:E; [|done].
  apply find_verb_range in E. cbn zeta.
  rewrite switch_loop; [|lia|rewrite len_cons; unfold len in *; cbn [length]; lia].
  cbn [default]. replace (Z.to_nat (vi + 1)) with (S (Z.to_nat vi)) by lia. cbn [drop].
  assert (nth (Z.to_nat vi) (prog :: args) [] = nth (Z.to_nat (vi - 1)) args []) as ->.
  { replace (Z.to_nat vi) with (S (Z.to_nat (vi - 1))) by lia. done. }
  change (take 1 (prog :: args)) with [prog]. cbn [app]. by rewrite <-app_assoc.
Qed.

(** File paths pass through. After the verb, a token that is not a switch,
    or whose text after the leading slashes still holds a slash, as an absolute
    path with a directory does, is kept as it is, whatever follows it; and a
    command line of such tokens only changes in the verb's case. *)
Theorem paths_pass_through prog verb_token verb args :
  is_verb (trim (lossy verb_token)) = Some verb → Forall (λ a, is_path a = true) args →
  normalize_native_signtool_argv (prog :: verb_token :: args) =
  prog :: os (to_ascii_lowercase (lossy verb_token)) :: args.
Proof.
  intros Hv Hp. unfold normalize_native_signtool_argv.
  rewrite (proj2 (Z.ltb_ge _ 2)) by (rewrite !len_cons; pose proof (len_nonneg args); lia).
  cbn [drop find_verb]. rewrite Hv. cbn zeta.
  rewrite switch_loop; [|lia|unfold len; cbn [length]; lia].
  change (drop (Z.to_nat (1 + 1)) (prog :: verb_token :: args)) with args.
  assert (translate verb args = args) as ->; [|done].
  induction Hp as [|a args Ha _ IH]; [done|]. rewrite translate_path by done. by rewrite IH.
Qed.
Lemma paths_pass_through_witness :
  normalize_native_signtool_argv [lit "psign"; lit "VERIFY"; lit "/usr/lib/a.dll"; lit "b.exe"; lit "//srv/c"]
  = lit "psign" :: os (to_ascii_lowercase (lossy (lit "VERIFY"))) ::
    [lit "/usr/lib/a.dll"; lit "b.exe"; lit "//srv/c"].
Proof.
  apply (paths_pass_through _ _ Verify); [by vm_compute|].
  repeat (apply Forall_cons_2; [by vm_compute|]). apply Forall_nil_2.
Defined.

(** Every switch the tables know becomes a GNU option: the translation
    either leaves the switch alone or puts a token starting with two dashes in
    its place and takes at most two operands, whatever the operands are. *)
Theorem translated_switch_is_option verb key next next2 pieces eat :
  translate_slash_switch verb key next next2 = (pieces, eat) →
  (pieces = [] ∧ eat = 0) ∨
  (0 <= eat <= 2 ∧ (SLASH ∉ key) ∧ ∃ opt operands,
     pieces = opt :: operands ∧ starts_with opt [DASH; DASH] = true).
Proof.
  intros [He [? | [Hk (rest & ps & ->)]]]%translate_switch_ok; [by left|].
  right. split; [done|]. split; [done|]. eexists _, _. split; [done|].
  apply starts_with_spec. by exists rest.
Qed.
Lemma translated_switch_is_option_witness :
  (chars "--f" :: [chars "cert.pfx"] = [] ∧ 1 = 0) ∨
  (0 <= 1 <= 2 ∧ (SLASH ∉ chars "f") ∧ ∃ opt operands,
     chars "--f" :: [chars "cert.pfx"] = opt :: operands ∧ starts_with opt [DASH; DASH] = true).
Proof.
  apply (translated_switch_is_option Sign (chars "f") (Some (chars " cert.pfx")) None). by vm_compute.
Defined.
