(* ===== verification/ResponseArgv.v ===== *)
(** Response files: [src/response_argv.rs].

    Reading [@file] arguments: the text encodings, quoting, nested includes,
    command blocks, and the exit code of a batch. The file system is the
    parameter [read_file] ([std::fs::read]). *)

From S2P Require Import Prelude.
From S2P Require Import RustStr.
From S2P Require Import NativeArgv.

Definition MAX_RESPONSE_DEPTH : Z := 8.
Definition MAX_RESPONSE_LINES : Z := 4096.
Definition AT : char := 64.
Definition QUOTE : char := 34.

(** [is_response_path_arg]: the path after a single [@]. *)
Definition is_response_path_arg (arg : OsString) : option str :=
  let s := lossy arg in
  rest ← strip_prefix [AT] s;
  if bool_decide (rest = []) || starts_with s [AT; AT] then None else Some rest.

Definition utf16_bytes_to_string (bs : bytes) (big_endian : bool) : outcome str :=
  bail_if (negb (len bs mod 2 =? 0))
    "response file UTF-16 payload has odd length ({} bytes)";;
  let units := if big_endian then be_u16s bs else le_u16s bs in
  ok_or (from_utf16 units) "response file UTF-16 decode failed: {}".

(** The decoding of a response file's bytes. *)
Definition decode_response_text (bs : bytes) : outcome str :=
  if (3 <=? len bs) && bool_decide (sub bs 0 3 = byte_of <$> [0xEF; 0xBB; 0xBF]) then
    ok_or (from_utf8 (drop 3 bs)) "response file {} is not valid UTF-8 after BOM strip: {}"
  else if (2 <=? len bs) && bool_decide (sub bs 0 2 = byte_of <$> [0xFF; 0xFE]) then
    utf16_bytes_to_string (drop 2 bs) false
  else if (2 <=? len bs) && bool_decide (sub bs 0 2 = byte_of <$> [0xFE; 0xFF]) then
    utf16_bytes_to_string (drop 2 bs) true
  else
    match from_utf8 bs with
    | Some s => Ok s
    | None =>
        match utf16_bytes_to_string bs false with
        | Err _ => Err "response file {}: invalid UTF-8 ({}); UTF-16-LE fallback failed: {}"
        | r => r
        end
    end.

Definition normalized_line (line : str) : str := trim (trim_end_matches (λ c, c =? 13) line).

(** [s.replace([QUOTE; QUOTE], [QUOTE])]: matches do not overlap. *)
Fixpoint undouble_quotes (s : str) : str :=
  match s with
  | a :: ((b :: r) as s') =>
      if (a =? QUOTE) && (b =? QUOTE) then QUOTE :: undouble_quotes r else a :: undouble_quotes s'
  | _ => s
  end.

(** [&t[1..t.len() - 1]]: the quotes are ASCII, the slice is on characters. *)
Definition decode_response_arg_token (line : str) : str :=
  let t := trim line in
  if (2 <=? byte_len t) && starts_with t [QUOTE] && ends_with t [QUOTE]
  then undouble_quotes (take (length t - 2) (drop 1 t))
  else t.

Definition nesting_msg : string :=
  "response file nesting exceeds {MAX_RESPONSE_DEPTH} (@-includes are too deep)".

Section Files.
Context (read_file : str → option bytes).

Definition read_response_text (path : str) : outcome str :=
  bs ← ok_or (read_file path) "reading response file {}";
  decode_response_text bs.

(** [append_response_line], with [include] for [read_flat_args_from_file(.., depth + 1)]. *)
Definition append_response_line (include : str → outcome (list str)) (out : list str) (raw_line : str)
    : outcome (list str) :=
  let t := normalized_line raw_line in
  if bool_decide (t = []) then Ok out
  else
    let decoded := decode_response_arg_token t in
    match strip_prefix [AT] decoded with
    | Some (c :: inner) => flat ← include (c :: inner); Ok (out ++ flat)
    | _ => Ok (out ++ [decoded])
    end.

(** [for line in text.lines()]; the variables are [lines_seen] and [out]. *)
Fixpoint read_lines (include : str → outcome (list str)) (ls : list str) (lines_seen : Z)
    (out : list str) : outcome (list str) :=
  match ls with
  | [] => Ok out
  | line :: ls' =>
      let lines_seen := lines_seen + 1 in
      bail_if (MAX_RESPONSE_LINES <? lines_seen)
        "response file {} exceeds {MAX_RESPONSE_LINES} lines";;
      out ← append_response_line include out line;
      read_lines include ls' lines_seen out
  end.

(** The recursion deepens [depth] at each include and stops past the limit:
    fuel [MAX_RESPONSE_DEPTH + 2 - depth] is enough ([read_flat_total]). *)
Fixpoint read_flat_fuel (fuel : nat) (path : str) (depth : Z) : outcome (list str) :=
  match fuel with
  | O => Panic
  | S fuel' =>
      bail_if (MAX_RESPONSE_DEPTH <? depth) nesting_msg;;
      text ← read_response_text path;
      read_lines (λ inner, read_flat_fuel fuel' inner (depth + 1)) (lines text) 0 []
  end.
Definition read_flat_args_from_file (path : str) (depth : Z) : outcome (list str) :=
  read_flat_fuel (Z.to_nat (MAX_RESPONSE_DEPTH + 2 - depth)) path depth.

(** [parse_multi_command_blocks]: the variables are [blocks], [current] and
    [lines_seen]. *)
Fixpoint block_lines (ls : list str) (lines_seen : Z) (blocks : list (list str)) (current : list str)
    : outcome (list (list str) * list str) :=
  match ls with
  | [] => Ok (blocks, current)
  | line :: ls' =>
      let lines_seen := lines_seen + 1 in
      bail_if (MAX_RESPONSE_LINES <? lines_seen)
        "response file exceeds {MAX_RESPONSE_LINES} lines";;
      if bool_decide (normalized_line line = []) then
        if bool_decide (current = []) then block_lines ls' lines_seen blocks current
        else block_lines ls' lines_seen (blocks ++ [current]) []
      else
        current ← append_response_line (λ inner, read_flat_args_from_file inner 1) current line;
        block_lines ls' lines_seen blocks current
  end.
Definition parse_multi_command_blocks (text : str) : outcome (list (list str)) :=
  '(blocks, current) ← block_lines (lines text) 0 [] [];
  let blocks := if bool_decide (current = []) then blocks else blocks ++ [current] in
  bail_if (bool_decide (blocks = [])) "response file is empty (no arguments)";;
  Ok blocks.

Definition prepend_executable (executable : OsString) (tail : list str) : list OsString :=
  executable :: (os <$> tail).

(** The splicing loop over the tail. *)
Fixpoint splice (tail : list OsString) (out : list OsString) : outcome (list OsString) :=
  match tail with
  | [] => Ok out
  | arg :: tail' =>
      let s := lossy arg in
      if starts_with s [AT; AT] then
        if byte_len s =? 2 then splice tail' (out ++ [lit "@"])
        else splice tail' (out ++ [os (drop 1 s)])
      else
        match is_response_path_arg arg with
        | Some path =>
            flat ← read_flat_args_from_file path 0;
            splice tail' (out ++ (os <$> flat))
        | None => splice tail' (out ++ [arg])
        end
  end.

Definition expand_invocations (executable : OsString) (tail : list OsString)
    : outcome (list (list OsString)) :=
  let classic := match tail with [arg] => is_response_path_arg arg | _ => None end in
  match classic with
  | Some path =>
      text ← read_response_text path;
      blocks ← parse_multi_command_blocks text;
      Ok (map (prepend_executable executable) blocks)
  | None => out ← splice tail [executable]; Ok [out]
  end.
End Files.

(** [0x2000_0001_u32 as i32] and [0xA000_0002_u32 as i32], of [src/lib.rs]. *)
Definition AZURE_SIGN_EXIT_PARTIAL_SUCCESS : Z := 0x20000001.
Definition AZURE_SIGN_EXIT_ALL_FAILED : Z := 0xA0000002 - 2 ^ 32.

Definition combine_batch_exit_codes (acc next : Z) : Z :=
  if (acc =? 1) || (next =? 1) then 1
  else if (acc =? AZURE_SIGN_EXIT_ALL_FAILED) || (next =? AZURE_SIGN_EXIT_ALL_FAILED)
  then AZURE_SIGN_EXIT_ALL_FAILED
  else if (acc =? AZURE_SIGN_EXIT_PARTIAL_SUCCESS) || (next =? AZURE_SIGN_EXIT_PARTIAL_SUCCESS)
  then AZURE_SIGN_EXIT_PARTIAL_SUCCESS
  else if (acc =? 2) || (next =? 2) then 2 else 0.

(** ** Text encodings *)

Lemma utf16_string s :
  scalars s →
  utf16_bytes_to_string (u16_le_bytes (encode_utf16 s)) false = Ok s ∧
  utf16_bytes_to_string (u16_be_bytes (encode_utf16 s)) true = Ok s.
Proof.
  intros Hs. unfold utf16_bytes_to_string. destruct (len_u16_bytes (encode_utf16 s)) as [-> ->].
  replace (2 * len (encode_utf16 s) mod 2) with 0 by lia. cbn [negb Z.eqb bail_if mbind outcome_bind].
  rewrite le_u16s_bytes, be_u16s_bytes, from_utf16_encode by (done || by apply encode_utf16_units). done.
Qed.
Lemma decode_with_bom (bom bs : bytes) :
  bom ∈ [byte_of <$> [0xFF; 0xFE]; byte_of <$> [0xFE; 0xFF]] →
  decode_response_text (bom ++ bs) =
  utf16_bytes_to_string bs (bool_decide (bom = byte_of <$> [0xFE; 0xFF])).
Proof.
  intros Hbom. pose proof (len_nonneg bs). unfold decode_response_text.
  assert (len bom = 2) as Hl.
  { rewrite !elem_of_cons, elem_of_nil in Hbom. destruct Hbom as [-> | [-> | []]]; done. }
  assert (bool_decide (sub (bom ++ bs) 0 3 = byte_of <$> [0xEF; 0xBB; 0xBF]) = false) as ->.
  { apply bool_decide_eq_false. intros Heq. rewrite !elem_of_cons, elem_of_nil in Hbom.
    destruct Hbom as [-> | [-> | []]]; unfold sub in Heq; cbn in Heq; by injection Heq. }
  rewrite sub_app_l, (sub_full_ge bom), len_app, andb_false_r by lia.
  rewrite (proj2 (Z.leb_le 2 _)) by lia. cbn [andb].
  replace (drop 2 (bom ++ bs)) with bs.
  2: { symmetry. rewrite drop_app_ge by (unfold len in Hl; lia).
       replace (2 - length bom)%nat with 0%nat by (unfold len in Hl; lia). done. }
  rewrite !elem_of_cons, elem_of_nil in Hbom. by destruct Hbom as [-> | [-> | []]].
Qed.

(** ** Quoting *)

Definition double_quotes (s : str) : str := s ≫= λ c, if c =? QUOTE then [QUOTE; QUOTE] else [c].
Definition quote (s : str) : str := QUOTE :: double_quotes s ++ [QUOTE].
Lemma undouble_double s : undouble_quotes (double_quotes s) = s.
Proof.
  induction s as [|c s IH]; [done|].
  change (double_quotes (c :: s)) with
    ((if c =? QUOTE then [QUOTE; QUOTE] else [c]) ++ double_quotes s).
  destruct (Z.eqb_spec c QUOTE) as [->|Hc].
  - cbn [app undouble_quotes]. rewrite Z.eqb_refl. cbn [andb]. by rewrite IH.
  - cbn [app]. destruct (double_quotes s) as [|d r] eqn:Ed.
    + cbn. by rewrite <-IH.
    + cbn [undouble_quotes]. rewrite (proj2 (Z.eqb_neq c QUOTE)) by done. cbn [andb].
      f_equal. apply IH.
Qed.

Lemma quote_trim s : trim (quote s) = quote s.
Proof.
  apply trim_id; unfold quote; intros c s' Heq.
  - by injection Heq as <- _.
  - change (QUOTE :: double_quotes s ++ [QUOTE]) with ((QUOTE :: double_quotes s) ++ [QUOTE]) in Heq.
    by apply app_inj_tail in Heq as [_ <-].
Qed.
Lemma normalized_quote s : normalized_line (quote s) = quote s.
Proof.
  unfold normalized_line. change (quote s) with ((QUOTE :: double_quotes s) ++ [QUOTE]).
  rewrite trim_end_id by done. apply quote_trim.
Qed.
Lemma byte_len_cons c s : byte_len (c :: s) = len (encode_utf8_char c) + byte_len s.
Proof. unfold byte_len. by rewrite <-len_app. Qed.
Lemma decode_quote s : decode_response_arg_token (quote s) = s.
Proof.
  unfold decode_response_arg_token. rewrite quote_trim.
  assert (2 <= byte_len (quote s)) as Hl.
  { unfold quote. rewrite byte_len_cons, byte_len_app. change (len (encode_utf8_char QUOTE)) with 1.
    change (byte_len [QUOTE]) with 1. unfold byte_len. pose proof (len_nonneg (encode_utf8 (double_quotes s))).
    lia. }
  rewrite (proj2 (Z.leb_le _ _)) by done.
  assert (starts_with (quote s) [QUOTE] = true) as -> by (apply starts_with_spec; by eexists).
  assert (ends_with (quote s) [QUOTE] = true) as ->.
  { unfold ends_with. rewrite (proj2 (strip_suffix_Some [QUOTE] (quote s) (QUOTE :: double_quotes s))) by done.
    done. }
  cbn [andb]. unfold quote. cbn [drop length]. rewrite length_app. cbn [length].
  replace (S (length (double_quotes s) + 1) - 2)%nat with (length (double_quotes s)) by lia.
  change (drop 0 ?l) with l. rewrite take_app_length. apply undouble_double.
Qed.

(** A response file with one quoted argument per line. *)
Definition response_text (args : list str) : str := concat ((λ a, quote a ++ [13; 10]) <$> args).

Lemma quote_no_lf s : 10 ∉ s → 10 ∉ quote s.
Proof.
  intros Hs Hin. unfold quote in Hin. rewrite elem_of_cons, elem_of_app, list_elem_of_singleton in Hin.
  destruct Hin as [?|[Hin|?]]; [done| |done].
  unfold double_quotes in Hin. apply list_elem_of_bind in Hin as (c & Hin & Hc).
  destruct (Z.eqb_spec c QUOTE).
  - rewrite !elem_of_cons, elem_of_nil in Hin. by destruct Hin as [?|[?|[]]].
  - by apply list_elem_of_singleton in Hin as <-.
Qed.
Lemma lines_response_text args :
  Forall (λ a, 10 ∉ a) args → lines (response_text args) = quote <$> args.
Proof.
  induction 1 as [|a args Ha _ IH]; [done|].
  change (response_text (a :: args)) with ((quote a ++ [13; 10]) ++ response_text args).
  rewrite <-app_assoc. change ([13; 10] ++ ?r) with (13 :: 10 :: r).
  rewrite lines_crlf by (by apply quote_no_lf). by rewrite IH.
Qed.

(** An argument that is not an include when read from a response file. *)
Definition literal (a : str) : Prop := ∀ c r, a ≠ AT :: c :: r.

Lemma append_quoted include out a :
  literal a → append_response_line include out (quote a) = Ok (out ++ [a]).
Proof.
  intros Ha. unfold append_response_line. rewrite normalized_quote, bool_decide_eq_false_2 by done.
  rewrite decode_quote. destruct (strip_prefix [AT] a) as [[|c r]|] eqn:E; try done.
  apply strip_prefix_Some in E as ->. by destruct (Ha c r).
Qed.
Lemma read_quoted_lines include args seen out :
  Forall literal args → seen + len args <= MAX_RESPONSE_LINES →
  read_lines include (quote <$> args) seen out = Ok (out ++ args).
Proof.
  intros H. revert seen out. induction H as [|a args Ha _ IH]; intros seen out Hl.
  - cbn. by rewrite app_nil_r.
  - rewrite len_cons in Hl. pose proof (len_nonneg args). cbn [fmap list_fmap read_lines].
    rewrite (proj2 (Z.ltb_ge _ _)) by lia. cbn [bail_if mbind outcome_bind].
    rewrite append_quoted by done. cbn [mbind outcome_bind].
    etrans; [apply IH; lia|]. by rewrite <-app_assoc.
Qed.

(** ** Termination *)

Lemma utf16_not_panic bs be : utf16_bytes_to_string bs be ≠ Panic.
Proof. unfold utf16_bytes_to_string. nopanic. Qed.
Lemma decode_text_not_panic bs : decode_response_text bs ≠ Panic.
Proof.
  unfold decode_response_text. pose proof (utf16_not_panic bs false).
  repeat case_match; try done; try apply utf16_not_panic; apply ok_or_not_panic.
Qed.
Section Termination.
Context (read_file : str → option bytes).

Lemma read_text_not_panic path : read_response_text read_file path ≠ Panic.
Proof. unfold read_response_text. nopanic. apply decode_text_not_panic. Qed.
Lemma append_line_not_panic include out line :
  (∀ p, include p ≠ Panic) → append_response_line include out line ≠ Panic.
Proof.
  intros Hi. unfold append_response_line. case_bool_decide; [done|].
  destruct (strip_prefix _ _) as [[|c r]|]; try done. apply bind_not_panic; [apply Hi|done].
Qed.
Lemma read_lines_not_panic include ls seen out :
  (∀ p, include p ≠ Panic) → read_lines include ls seen out ≠ Panic.
Proof.
  intros Hi. revert seen out. induction ls as [|l ls IH]; intros seen out; cbn [read_lines]; [done|].
  nopanic; try by apply append_line_not_panic.
Qed.
Lemma read_flat_total fuel path depth :
  MAX_RESPONSE_DEPTH + 2 - depth <= Z.of_nat fuel → (1 <= fuel)%nat →
  read_flat_fuel read_file fuel path depth ≠ Panic.
Proof.
  revert path depth. induction fuel as [|fuel IH]; intros path depth Hf H1; cbn [read_flat_fuel]; [lia|].
  nopanic; try apply read_text_not_panic. zbool. unfold MAX_RESPONSE_DEPTH in *.
  apply read_lines_not_panic. intros p. apply IH; lia.
Qed.
Lemma read_flat_not_panic path depth :
  depth <= MAX_RESPONSE_DEPTH + 1 → read_flat_args_from_file read_file path depth ≠ Panic.
Proof. intros. apply read_flat_total; lia. Qed.
Lemma block_lines_not_panic ls seen blocks current :
  block_lines read_file ls seen blocks current ≠ Panic.
Proof.
  revert seen blocks current. induction ls as [|l ls IH]; intros seen blocks current; cbn [block_lines]; [done|].
  nopanic; try apply IH. apply append_line_not_panic. intros p. by apply read_flat_not_panic.
Qed.
Lemma splice_not_panic tail out : splice read_file tail out ≠ Panic.
Proof.
  revert out. induction tail as [|arg tail IH]; intros out; cbn [splice]; [done|].
  destruct (starts_with _ _); [destruct (_ =? _); apply IH|].
  destruct (is_response_path_arg arg); [|apply IH].
  nopanic; try by apply read_flat_not_panic.
Qed.
End Termination.

(** ** Properties *)

(** A response file means the same text in each encoding the tool reads:
    UTF-8 with or without a byte order mark, and UTF-16 in either byte order
    with its mark, decode to the text that was written. *)
Theorem response_text_encodings s :
  scalars s → (∀ r, s ≠ 0xFEFF :: r) →
  decode_response_text (encode_utf8 s) = Ok s ∧
  decode_response_text ((byte_of <$> [0xEF; 0xBB; 0xBF]) ++ encode_utf8 s) = Ok s ∧
  decode_response_text ((byte_of <$> [0xFF; 0xFE]) ++ u16_le_bytes (encode_utf16 s)) = Ok s ∧
  decode_response_text ((byte_of <$> [0xFE; 0xFF]) ++ u16_be_bytes (encode_utf16 s)) = Ok s.
Proof.
  intros Hs Hf. destruct (utf16_string s Hs) as [Hle Hbe]. split_and!.
  - destruct (encode_utf8_no_bom s Hs Hf) as (H1 & H2 & H3). unfold decode_response_text.
    rewrite !bool_decide_eq_false_2, !andb_false_r by done. by rewrite from_utf8_encode.
  - pose proof (len_nonneg (encode_utf8 s)). unfold decode_response_text.
    rewrite sub_app_l, len_app by done. change (len (byte_of <$> [0xEF; 0xBB; 0xBF])) with 3.
    rewrite (proj2 (Z.leb_le 3 _)) by lia. rewrite bool_decide_eq_true_2 by done. cbn [andb].
    change (drop 3 ((byte_of <$> [0xEF; 0xBB; 0xBF]) ++ encode_utf8 s)) with (encode_utf8 s).
    by rewrite from_utf8_encode.
  - rewrite decode_with_bom by (by left). done.
  - rewrite decode_with_bom by (by right; left). done.
Qed.
Lemma response_text_encodings_witness :
  let s := [112; 233; 0x20AC; 0x1F600; 10] in
  decode_response_text (encode_utf8 s) = Ok s ∧
  decode_response_text ((byte_of <$> [0xEF; 0xBB; 0xBF]) ++ encode_utf8 s) = Ok s ∧
  decode_response_text ((byte_of <$> [0xFF; 0xFE]) ++ u16_le_bytes (encode_utf16 s)) = Ok s ∧
  decode_response_text ((byte_of <$> [0xFE; 0xFF]) ++ u16_be_bytes (encode_utf16 s)) = Ok s.
Proof. cbn zeta. apply response_text_encodings; [by apply forallb_Forall|by intros r [=]]. Defined.

(** C8: Any list of arguments can be passed in a response file: written one
    per line in double quotes, with inner quotes doubled, they are read back
    exactly, blanks and quotes included, as long as none holds a line feed, none
    is itself an include, and the line limit is kept. *)
Theorem response_file_roundtrip read_file path args :
  Forall (λ a, scalars a ∧ (10 ∉ a) ∧ literal a) args → len args <= MAX_RESPONSE_LINES →
  read_file path = Some (encode_utf8 (response_text args)) →
  read_flat_args_from_file read_file path 0 = Ok args.
Proof.
  intros H Hl Hf. unfold read_flat_args_from_file.
  change (Z.to_nat (MAX_RESPONSE_DEPTH + 2 - 0)) with 10%nat. cbn [read_flat_fuel].
  change (MAX_RESPONSE_DEPTH <? 0) with false. cbn [bail_if mbind outcome_bind].
  assert (scalars (response_text args)) as Hsc.
  { clear -H. unfold response_text. induction H as [|a args (Ha & _) _ IH]; [constructor|].
    cbn [fmap list_fmap concat]. rewrite !Forall_app. split; [|done].
    split; [|by apply forallb_Forall]. unfold quote, double_quotes.
    apply Forall_cons_2; [done|]. rewrite Forall_app. split; [|by apply forallb_Forall].
    rewrite Forall_bind. eapply Forall_impl; [exact Ha|]. intros c Hc.
    cbn. destruct (c =? QUOTE); [by apply forallb_Forall|]. by apply Forall_cons_2; [|constructor]. }
  assert (∀ r, response_text args ≠ 0xFEFF :: r) as Hbom by (by intros r; destruct args).
  assert (decode_response_text (encode_utf8 (response_text args)) = Ok (response_text args)) as Hdec.
  { destruct (encode_utf8_no_bom _ Hsc Hbom) as (H1 & H2 & H3). unfold decode_response_text.
    rewrite !bool_decide_eq_false_2, !andb_false_r by done. by rewrite from_utf8_encode. }
  unfold read_response_text. rewrite Hf. cbn [ok_or mbind outcome_bind]. rewrite Hdec.
  cbn [mbind outcome_bind]. rewrite lines_response_text.
  2: { eapply Forall_impl; [exact H|]. by intros a (_ & ? & _). }
  rewrite read_quoted_lines; [done| |done]. eapply Forall_impl; [exact H|]. by intros a (_ & _ & ?).
Qed.
Lemma response_file_roundtrip_witness :
  read_flat_args_from_file
    (λ _, Some (encode_utf8 (response_text [chars "verify"; [32; 34; 233; 34; 34]; []; chars "@"]))) [] 0
  = Ok [chars "verify"; [32; 34; 233; 34; 34]; []; chars "@"].
Proof.
  apply response_file_roundtrip; [|by vm_compute|done].
  repeat (apply Forall_cons_2; [split_and!;
    [by apply forallb_Forall|by apply (bool_decide_unpack (_ ∉ _)); vm_compute|by intros ? ? [=]]|]).
  apply Forall_nil_2.
Defined.

(** A file whose text is an include of itself. *)
Lemma self_include read_file path fuel depth :
  read_file path = Some (encode_utf8 (AT :: path)) → scalars path →
  Forall (λ c, is_whitespace c = false) path → path ≠ [] →
  0 <= depth → MAX_RESPONSE_DEPTH + 2 - depth <= Z.of_nat fuel → (1 <= fuel)%nat →
  read_flat_fuel read_file fuel path depth = Err nesting_msg.
Proof.
  intros Hf Hs Hv Hne. revert depth. induction fuel as [|fuel IH]; intros depth Hd Hfu H1; [lia|].
  cbn [read_flat_fuel]. destruct (MAX_RESPONSE_DEPTH <? depth) eqn:E; [done|]. zbool.
  unfold MAX_RESPONSE_DEPTH in *. cbn [bail_if mbind outcome_bind].
  assert (scalars (AT :: path)) as Hs' by by apply Forall_cons_2.
  assert (Forall (λ c, is_whitespace c = false) (AT :: path)) as Hv' by by apply Forall_cons_2.
  unfold read_response_text. rewrite Hf. cbn [ok_or mbind outcome_bind].
  assert (decode_response_text (encode_utf8 (AT :: path)) = Ok (AT :: path)) as ->.
  { destruct (encode_utf8_no_bom _ Hs' ltac:(by intros r [=])) as (Ha & Hb & Hc).
    unfold decode_response_text.
    rewrite !bool_decide_eq_false_2, !andb_false_r by done. by rewrite from_utf8_encode. }
  cbn [mbind outcome_bind].
  assert (∀ c, is_whitespace c = true → c ∉ AT :: path) as Hnw.
  { intros c Hc Hin. eapply Forall_forall in Hv'; [|done]. by rewrite Hc in Hv'. }
  rewrite lines_single by (done || by apply Hnw). cbn [read_lines].
  change (MAX_RESPONSE_LINES <? 0 + 1) with false. cbn [bail_if mbind outcome_bind].
  unfold append_response_line, normalized_line.
  assert (trim_end_matches (λ c, c =? 13) (AT :: path) = AT :: path) as ->.
  { apply trim_end_last. intros c s' Heq. apply Z.eqb_neq. intros ->. apply (Hnw 13); [done|].
    rewrite Heq. apply elem_of_app. right. by apply list_elem_of_singleton. }
  rewrite trim_visible by done.
  rewrite bool_decide_eq_false_2 by done. unfold decode_response_arg_token.
  rewrite trim_visible by done.
  change (starts_with (AT :: path) [QUOTE]) with false. rewrite andb_false_r. cbn [andb].
  cbn [strip_prefix]. rewrite Z.eqb_refl. destruct path as [|c path]; [done|].
  rewrite IH by lia. done.
Qed.

(** Expanding a command line always ends: whatever the files hold,
    includes of themselves or of each other included, the result is a list of
    invocations or an error; a file that includes itself is the nesting error. *)
Theorem response_expansion_terminates read_file executable tail :
  expand_invocations read_file executable tail ≠ Panic ∧
  ∀ path, read_file path = Some (encode_utf8 (AT :: path)) → scalars path →
    Forall (λ c, is_whitespace c = false) path → path ≠ [] →
    read_flat_args_from_file read_file path 0 = Err nesting_msg.
Proof.
  split.
  - unfold expand_invocations. cbn zeta.
    destruct (match tail with [arg] => is_response_path_arg arg | _ => None end).
    + nopanic; try apply read_text_not_panic. unfold parse_multi_command_blocks.
      nopanic. apply block_lines_not_panic.
    + nopanic. apply splice_not_panic.
  - intros path ????. apply self_include; unfold MAX_RESPONSE_DEPTH; done || lia.
Qed.

(** Writing an argument on the command line so that it is not spliced. *)
Definition escape_at (a : str) : str :=
  match a with c :: _ => if c =? AT then AT :: a else a | [] => [] end.

(** Escaping works for every argument: with one [@] put in front of each
    argument that starts with [@], the expansion gives back exactly the
    arguments, as a single invocation, and reads no file. *)
Theorem escaped_arguments_kept read_file executable args :
  Forall (λ a, scalars a) args →
  expand_invocations read_file executable ((λ a, os (escape_at a)) <$> args)
  = Ok [executable :: (os <$> args)].
Proof.
  intros Hs.
  assert (∀ a, scalars a → lossy (os (escape_at a)) = escape_at a) as Hlos.
  { intros a Ha. apply from_utf8_lossy_encode. destruct a as [|c a]; [done|]. cbn.
    destruct (c =? AT); [by apply Forall_cons_2|done]. }
  assert (∀ a, scalars a → is_response_path_arg (os (escape_at a)) = None) as Hpath.
  { intros a Ha. unfold is_response_path_arg. rewrite Hlos by done.
    destruct a as [|c a]; [done|]. cbn [escape_at]. destruct (Z.eqb_spec c AT) as [->|Hc].
    - cbn [strip_prefix]. rewrite Z.eqb_refl. cbn [mbind option_bind].
      assert (starts_with (AT :: AT :: a) [AT; AT] = true) as -> by (apply starts_with_spec; by exists a).
      by rewrite orb_true_r.
    - cbn [strip_prefix]. by rewrite (proj2 (Z.eqb_neq AT c)) by done. }
  assert (∀ out, splice read_file ((λ a, os (escape_at a)) <$> args) out = Ok (out ++ (os <$> args))) as Hsp.
  { induction Hs as [|a args Ha _ IH]; intros out; [by rewrite app_nil_r|].
    cbn [fmap list_fmap splice]. rewrite Hpath, Hlos by done.
    change (list_fmap _ _ (λ a, os (escape_at a)) args) with ((λ a, os (escape_at a)) <$> args).
    destruct a as [|c a].
    - cbn [escape_at]. change (starts_with [] [AT; AT]) with false. cbn iota.
      rewrite IH. by rewrite <-app_assoc.
    - cbn [escape_at]. destruct (Z.eqb_spec c AT) as [->|Hc].
      + assert (starts_with (AT :: AT :: a) [AT; AT] = true) as -> by (apply starts_with_spec; by exists a).
        destruct (byte_len (AT :: AT :: a) =? 2) eqn:E; rewrite IH, <-app_assoc; [|done].
        zbool. rewrite !byte_len_cons in E. change (len (encode_utf8_char AT)) with 1 in E.
        destruct a as [|d a]; [done|]. rewrite byte_len_cons in E.
        pose proof (encode_utf8_nil d). pose proof (len_nonneg (encode_utf8 a)) as Hn. unfold byte_len in E.
        destruct (encode_utf8_char d); [done|]. rewrite len_cons in E. pose proof (len_nonneg l). lia.
      + assert (starts_with (c :: a) [AT; AT] = false) as ->.
        { unfold starts_with. cbn [strip_prefix]. by rewrite (proj2 (Z.eqb_neq AT c)) by done. }
        rewrite IH. by rewrite <-app_assoc. }
  unfold expand_invocations. cbn zeta.
  assert ((match (λ a, os (escape_at a)) <$> args with [arg] => is_response_path_arg arg | _ => None end)
          = None) as ->.
  { destruct Hs as [|a args Ha [|]]; [done| |done]. by apply Hpath. }
  by rewrite Hsp.
Qed.
Lemma escaped_arguments_kept_witness :
  expand_invocations (λ _, None) (lit "psign")
    ((λ a, os (escape_at a)) <$> [chars "@file"; chars "@"; chars "@@x"; chars "sign"])
  = Ok [lit "psign" :: (os <$> [chars "@file"; chars "@"; chars "@@x"; chars "sign"])].
Proof.
  apply escaped_arguments_kept. repeat (apply Forall_cons_2; [by apply forallb_Forall|]). apply Forall_nil_2.
Defined.

(** How bad an exit code is; codes the batch does not know count as success. *)
Definition severity (code : Z) : Z :=
  if code =? 1 then 4 else if code =? AZURE_SIGN_EXIT_ALL_FAILED then 3
  else if code =? AZURE_SIGN_EXIT_PARTIAL_SUCCESS then 2 else if code =? 2 then 1 else 0.

(** The exit code of a batch is its worst outcome, whatever the order of
    the commands: combining is commutative and associative, success is neutral
    for the codes the tool uses, and the result is never milder than any of
    them: a hard failure wins over the Azure outcomes, these over a warning. *)
Theorem batch_exit_code_is_worst a b c :
  severity (combine_batch_exit_codes a b) = Z.max (severity a) (severity b) ∧
  combine_batch_exit_codes a b = combine_batch_exit_codes b a ∧
  combine_batch_exit_codes (combine_batch_exit_codes a b) c
    = combine_batch_exit_codes a (combine_batch_exit_codes b c) ∧
  (severity a ≠ 0 → combine_batch_exit_codes 0 a = a).
Proof.
  unfold severity, combine_batch_exit_codes, AZURE_SIGN_EXIT_ALL_FAILED, AZURE_SIGN_EXIT_PARTIAL_SUCCESS.
  change (0xA0000002 - 2 ^ 32) with (-1610612734). change 0x20000001 with 536870913.
  destruct (Z.eqb_spec a 1), (Z.eqb_spec b 1), (Z.eqb_spec a (-1610612734)), (Z.eqb_spec b (-1610612734)),
    (Z.eqb_spec a 536870913), (Z.eqb_spec b 536870913), (Z.eqb_spec a 2), (Z.eqb_spec b 2); try lia;
    subst; cbn; (split; [done|]; split; [done|]; split; [|intros Hn; first [done|by destruct Hn]]);
    destruct (Z.eqb_spec c 1), (Z.eqb_spec c (-1610612734)), (Z.eqb_spec c 536870913), (Z.eqb_spec c 2);
    try lia; done.
Qed.
