(* ===== verification/ZipWrite.v ===== *)
(** Writing a ZIP file: the interface of the [zip] crate's [ZipWriter], and
    what an archive written by it looks like.  The packages of the code command,
    NuGet and VSIX are written through it. *)

From S2P Require Import Prelude.
From S2P Require Import RustStr.
From S2P Require Import Find.
From S2P Require Import AppxTail.
From S2P Require Import AppxParts.
From S2P Require Import AppxDigest.

(** [zip::DateTime] and [zip::write::FileOptions] *)
Record DateTime := mk_datetime { year : Z; month : Z; day : Z; hour : Z; minute : Z; second : Z }.
Record FileOptions := mk_options { o_method : CompressionMethod; o_modified : DateTime }.
(** The calls the sources make of the writer.  [last_modified] is the method of
    an entry that is read; [default_modified] is what [FileOptions::default()]
    holds. *)
Class ZipWriterCrate := {
  zip_writer : Type;
  zip_writer_new : zip_writer;
  start_file : zip_writer → str → FileOptions → outcome zip_writer;
  add_directory : zip_writer → str → FileOptions → outcome zip_writer;
  write_all : zip_writer → bytes → outcome zip_writer;
  finish : zip_writer → outcome bytes;
  last_modified : ZipFile → DateTime;
  default_modified : DateTime }.

Section Copy.
Context `{ZipWriterCrate}.
Definition write_file (w : zip_writer) (name : str) (options : FileOptions) (data : bytes) : outcome zip_writer :=
  w ← start_file w name options; write_all w data.
(** One entry copied under a name. *)
Definition copy_entry (w : zip_writer) (file : ZipFile) (name : str) (options : FileOptions) : outcome zip_writer :=
  if is_directory_name (zf_name file) then add_directory w name options
  else w ← start_file w name options; data ← read_to_end file; write_all w data.

(** ** Entries written one after the other *)

Record WrittenEntry := mk_written { w_name : str; w_dir : bool; w_options : FileOptions; w_data : bytes }.
Definition put (w : zip_writer) (e : WrittenEntry) : outcome zip_writer :=
  if w_dir e then add_directory w (w_name e) (w_options e) else write_file w (w_name e) (w_options e) (w_data e).
Fixpoint put_all (w : zip_writer) (es : list WrittenEntry) : outcome zip_writer :=
  match es with
  | [] => Ok w
  | e :: es' => w ← put w e; put_all w es'
  end.
Definition write_zip (es : list WrittenEntry) : outcome bytes := w ← put_all zip_writer_new es; finish w.

(** The entry that copying a file writes. *)
Definition copied (file : ZipFile) (options : FileOptions) (e : WrittenEntry) : Prop :=
  w_name e = zf_name file ∧ w_dir e = is_directory_name (zf_name file) ∧ w_options e = options ∧
  if w_dir e then w_data e = [] else read_to_end file = Ok (w_data e).
Lemma put_all_app w es es' : put_all w (es ++ es') = (w ← put_all w es; put_all w es').
Proof. revert w. induction es as [|e es IH]; intros w; cbn; [done|]. destruct (put w e); cbn; [apply IH|done..]. Qed.
Lemma copy_entry_put w file options w' : copy_entry w file (zf_name file) options = Ok w' →
  ∃ e, copied file options e ∧ put w e = Ok w'.
Proof.
  unfold copy_entry, copied, put, write_file. destruct (is_directory_name _) eqn:E.
  - intros Hw. exists (mk_written (zf_name file) true options []). by cbn.
  - intros (w1 & H1 & (data & Hd & Hw)%bind_Ok)%bind_Ok.
    exists (mk_written (zf_name file) false options data). cbn. rewrite H1. by cbn.
Qed.
Lemma copied_det file options e e' : copied file options e → copied file options e' → e = e'.
Proof.
  intros (Hn & Hd & Ho & Hr) (Hn' & Hd' & Ho' & Hr'). destruct e, e'; cbn in *. subst.
  destruct (is_directory_name _); congruence.
Qed.
End Copy.

(** ** Occurrences at the end *)

Lemma len_fmap {A B} (f : A → B) l : len (f <$> l) = len l.
Proof. unfold len. by rewrite length_fmap. Qed.
Lemma occurs_after a b n k : len a <= k → occurs (a ++ b) n k ↔ occurs b n (k - len a).
Proof.
  intros Hk. split.
  - intros (p & q & Heq & Hp). exists (drop (length a) p), q. pose proof (f_equal (drop (length a)) Heq) as Hd.
    assert (length a <= length p)%nat by (unfold len in *; lia).
    rewrite drop_app_length, drop_app_le in Hd by lia. split; [done|]. unfold len in *. rewrite length_drop. lia.
  - intros (p & q & -> & Hp). exists (a ++ p), q. rewrite <-app_assoc. split; [done|]. rewrite len_app. lia.
Qed.

(** ** The archive written *)

Definition EOCD_BYTES : bytes := to_le 4 EOCD_SIG.
(** [bytes.windows(4).rposition(|w| w == sig)] *)
Definition rposition (bs sig : bytes) : option Z := rfind (u8 <$> bs) (u8 <$> sig).
(** The end record of an archive without ZIP64 fields. *)
Definition end_record (entries cd_size cd_offset : Z) (comment : bytes) : bytes :=
  to_le 4 EOCD_SIG ++ to_le 2 0 ++ to_le 2 0 ++ to_le 2 entries ++ to_le 2 entries ++ to_le 4 cd_size ++ to_le 4 cd_offset
  ++ to_le 2 (len comment) ++ comment.
Definition archive (body : bytes) (recs : list bytes) (comment : bytes) : bytes :=
  body ++ concat recs ++ end_record (len recs) (len (concat recs)) (len body) comment.
Definition record_name (r : bytes) : bytes := sub r 46 (46 + fld 2 r 28).
(** An archive without ZIP64 fields, whose end record is the last one. *)
Definition plain_archive (body : bytes) (recs : list bytes) (comment : bytes) : Prop :=
  len recs < 65535 ∧ len (concat recs) < U32 ∧ len body < U32 - 1 ∧ len comment < U16 ∧ Forall cd_record recs ∧
  rposition (archive body recs comment) EOCD_BYTES = Some (len body + len (concat recs)).
(** So few entries and bytes that no second end signature lies in the end
    record. *)
Definition small_zip (entries size : Z) : Prop := entries < 0x4b50 ∧ size < 0x05000000.
Lemma end_record_bytes n s o : 0 <= n < 0x4b50 → 0 <= s < 0x05000000 → 0 <= o < 0x05000000 →
  rposition (end_record n s o []) EOCD_BYTES = Some 0.
Proof.
  intros. apply rfind_Some. split.
  { exists [], (u8 <$> drop 4 (end_record n s o [])). by rewrite <-fmap_app. }
  change (u8 <$> EOCD_BYTES) with [80; 75; 5; 6]. intros j Hj (a & c & Heq & Ha). unfold end_record in Heq. rewrite !fmap_app, !u8_to_le in Heq. cbn -[Z.modulo Z.div] in Heq.
  assert (length a + length c = 18)%nat as Hl by (apply (f_equal length) in Heq; rewrite !length_app in Heq; cbn in Heq; lia).
  unfold len in Ha.
  do 19 (destruct a as [|? a]; [cbn in *; try lia; injection Heq as ?; subst; Z.to_euclidean_division_equations; lia|]). cbn in Hl. lia.
Qed.
Definition end_record_fields (entries cd_size cd_offset comment_len : Z) : list (nat * Z) :=
  [(4%nat, EOCD_SIG); (2%nat, 0); (2%nat, 0); (2%nat, entries); (2%nat, entries); (4%nat, cd_size); (4%nat, cd_offset);
   (2%nat, comment_len)].
Lemma end_record_is n cds cdo comment :
  end_record n cds cdo comment = encode_fields (end_record_fields n cds cdo (len comment)) ++ comment.
Proof. unfold end_record, encode_fields, end_record_fields. cbn. by rewrite <-!app_assoc. Qed.
Lemma len_end_record n cds cdo comment : len (end_record n cds cdo comment) = 22 + len comment.
Proof. by rewrite end_record_is, len_app, len_encode_fields. Qed.
Lemma end_record_fld n cds cdo comment (i m : nat) w v off :
  end_record_fields n cds cdo (len comment) !! i = Some (m, v) → off = fields_size (take i (end_record_fields n cds cdo (len comment))) →
  w = Z.of_nat m → 0 <= v < 2 ^ (8 * w) → fld w (end_record n cds cdo comment) off = v.
Proof.
  intros Hi Hoff -> Hv. rewrite end_record_is, (fld_encoded _ i m v) by done. rewrite Z.mul_comm in Hv. by apply Z.mod_small.
Qed.
Lemma len_archive body recs comment : len (archive body recs comment) = len body + len (concat recs) + 22 + len comment.
Proof. unfold archive. rewrite !len_app, len_end_record. lia. Qed.
Lemma archive_end body recs comment : ∃ front, archive body recs comment = front ++ end_record (len recs) (len (concat recs)) (len body) comment
  ∧ front = body ++ concat recs ∧ len front = len body + len (concat recs).
Proof. exists (body ++ concat recs). unfold archive. by rewrite <-app_assoc, len_app. Qed.
Lemma small_plain body recs : Forall cd_record recs → small_zip (len recs) (len (archive body recs [])) → plain_archive body recs [].
Proof.
  intros Hwf [Hn Hs]. rewrite len_archive, len_nil in Hs. pose proof (len_nonneg body). pose proof (len_nonneg (concat recs)).
  pose proof (len_nonneg recs). unfold plain_archive. rewrite len_nil. split_and!; [lia..|done|].
  destruct (archive_end body recs []) as (front & -> & _ & Hf). rewrite <-Hf.
  pose proof (end_record_bytes (len recs) (len (concat recs)) (len body) ltac:(lia) ltac:(lia) ltac:(lia)) as [Ho Hno]%rfind_Some.
  apply rfind_Some. rewrite fmap_app. split.
  - apply occurs_after; [by rewrite len_fmap|]. by rewrite len_fmap, Z.sub_diag.
  - intros j Hj Hoj. apply occurs_after in Hoj; [|rewrite len_fmap; lia]. rewrite len_fmap in Hoj. apply (Hno (j - len front)); [lia|done].
Qed.
Section Layout.
(** What is written for an entry at an offset: the local header with the data,
    and the record of the directory. *)
Context (local : WrittenEntry → Z → bytes).
Fixpoint locals (offset : Z) (es : list WrittenEntry) : bytes :=
  match es with
  | [] => []
  | e :: es' => local e offset ++ locals (offset + len (local e offset)) es'
  end.
Lemma written_locals_app o es es' : locals o (es ++ es') = locals o es ++ locals (o + len (locals o es)) es'.
Proof.
  revert o. induction es as [|e es IH]; intros o; cbn; [f_equal; rewrite len_nil; lia|].
  rewrite IH, <-app_assoc, len_app. do 3 f_equal. lia.
Qed.
Context (central : WrittenEntry → Z → bytes).
Fixpoint centrals (offset : Z) (es : list WrittenEntry) : list bytes :=
  match es with
  | [] => []
  | e :: es' => central e offset :: centrals (offset + len (local e offset)) es'
  end.
Lemma written_centrals_app o es es' : centrals o (es ++ es') = centrals o es ++ centrals (o + len (locals o es)) es'.
Proof.
  revert o. induction es as [|e es IH]; intros o; cbn; [f_equal; rewrite len_nil; lia|].
  rewrite IH, len_app. do 3 f_equal. lia.
Qed.
Lemma length_written_centrals o es : length (centrals o es) = length es.
Proof. revert o. induction es as [|e es IH]; intros o; cbn; [done|]. by rewrite IH. Qed.
End Layout.

(** ** What the crate promises *)

(** The same record but for who made it and the external attributes. *)
Definition same_record (r r' : bytes) : Prop :=
  len r' = len r ∧ ∀ o n, 0 <= o → 0 <= n → o + n <= len r → o + n <= 4 ∨ 6 <= o ∧ o + n <= 38 ∨ 42 <= o →
    sub r' o (o + n) = sub r o (o + n).
(** The records of a directory name the entries and where they are. *)
Fixpoint directory_of (local : WrittenEntry → Z → bytes) (offset : Z) (es : list WrittenEntry) (recs : list bytes) : Prop :=
  match es, recs with
  | [], [] => True
  | e :: es', r :: recs' =>
      record_name r = encode_utf8 (w_name e) ∧ fld 4 r 42 = offset ∧ directory_of local (offset + len (local e offset)) es' recs'
  | _, _ => False
  end.
Section Reread.
Context `{ZipWriterCrate} (local central : WrittenEntry → Z → bytes).
(** A file is the entry written, and copying it writes the entry again. *)
Definition rereads (file : ZipFile) (e : WrittenEntry) : Prop :=
  zf_name file = w_name e ∧ (w_dir e = false → read_to_end file = Ok (w_data e)) ∧
  ∀ offset, let e' := mk_written (w_name e) (w_dir e) (mk_options (zf_compression file) (last_modified file)) (w_data e) in
    local e' offset = local e offset ∧ central e' offset = central e offset.
Definition reads_back (a : ZipArchive) (es : list WrittenEntry) : Prop :=
  Forall2 (λ r e, ∃ file, r = Ok file ∧ rereads file e) (by_index a) es ∧
  ∀ e, e ∈ es → (∀ e', e' ∈ es → w_name e' = w_name e → e' = e) → ∃ file, by_name a (w_name e) = Ok file ∧ rereads file e.
End Reread.
(** Directories have names of directories and hold nothing. *)
Definition writable (e : WrittenEntry) : Prop := w_dir e = true → is_directory_name (w_name e) = true ∧ w_data e = [].
(** Entries that could be written lie one after the other, the directory after
    them; reading the archive gives them back, whatever became of the parts of
    the records that are not read. *)
Class ZipLaws `{ZipCrate} `{ZipWriterCrate} := {
  local : WrittenEntry → Z → bytes;
  central : WrittenEntry → Z → bytes;
  zip_names bs a file : zip_archive_new bs = Ok a → Ok file ∈ by_index a → scalars (zf_name file);
  local_length e offset : 0 < len (local e offset);
  write_lays_out es bs : write_zip es = Ok bs → Forall writable es → small_zip (len es) (len bs) →
    bs = archive (locals local 0 es) (centrals local central 0 es) [] ∧
    Forall cd_record (centrals local central 0 es) ∧ directory_of local 0 es (centrals local central 0 es);
  write_reads_back es bs recs : write_zip es = Ok bs → Forall writable es → small_zip (len es) (len bs) →
    Forall2 same_record (centrals local central 0 es) recs →
    ∃ a, zip_archive_new (archive (locals local 0 es) recs []) = Ok a ∧ reads_back local central a es }.
