(* ===== verification/ZipStored.v ===== *)
(** A ZIP library of stored entries: an implementation of the interface of
    [ZipWrite] for which its laws are proved.  The records are those that
    [AppxZip] writes. *)

From S2P Require Import Prelude.
From S2P Require Import RustStr.
From S2P Require Import Find.
From S2P Require Import AppxTail.
From S2P Require Import AppxZip.
From S2P Require Import AppxParts.
From S2P Require Import AppxDigest.
From S2P Require Import ZipWrite.

(** ** Writing *)

Definition stored_entry (e : WrittenEntry) : AppxZipEntry := mk_entry (w_name e) METHOD_STORED 0 (len (w_data e)) (w_data e) None.
Definition stored_local (e : WrittenEntry) (offset : Z) : bytes := local_record (stored_entry e).
Definition stored_central (e : WrittenEntry) (offset : Z) : bytes := central_record (stored_entry e) offset.
(** Entries that can be stored: a name of scalar values that fits, no method. *)
Definition storable (e : WrittenEntry) : bool :=
  bool_decide (scalars (w_name e)) && (byte_len (w_name e) <? U16) && match o_method (w_options e) with Stored => true | _ => false end.
Fixpoint append_last (es : list WrittenEntry) (data : bytes) : outcome (list WrittenEntry) :=
  match es with
  | [] => Err "no entry"
  | [e] => Ok [mk_written (w_name e) (w_dir e) (w_options e) (w_data e ++ data)]
  | e :: es' => es ← append_last es' data; Ok (e :: es)
  end.
#[export] Instance StoredWriter : ZipWriterCrate := {|
  zip_writer := list WrittenEntry;
  zip_writer_new := [];
  start_file w name options := Ok (w ++ [mk_written name false options []]);
  add_directory w name options := Ok (w ++ [mk_written name true options []]);
  write_all := append_last;
  finish w :=
    if forallb storable w then Ok (archive (locals stored_local 0 w) (centrals stored_local stored_central 0 w) [])
    else Err "entry not supported";
  last_modified _ := mk_datetime 1980 1 1 0 0 0;
  default_modified := mk_datetime 1980 1 1 0 0 0 |}.

(** ** Reading *)

Definition stored_file (bs : bytes) (pos : Z) : ZipFile :=
  let raw := sub bs (pos + 46) (pos + 46 + fld 2 bs (pos + 28)) in
  let size := fld 4 bs (pos + 20) in
  let offset := fld 4 bs (pos + 42) in
  let start := offset + (30 + fld 2 bs (offset + 26)) in
  mk_zf (from_utf8_lossy raw) raw Stored 0 size size offset start pos []
    (ok_or (get_range bs start (start + size)) "the entry extends past the end of the file").
Fixpoint stored_files (bs : bytes) (n : nat) (pos : Z) : list ZipFile :=
  match n with
  | O => []
  | S n' =>
      stored_file bs pos :: stored_files bs n' (pos + (46 + fld 2 bs (pos + 28) + fld 2 bs (pos + 30) + fld 2 bs (pos + 32)))
  end.
Definition stored_by_name (files : list ZipFile) (name : str) : outcome ZipFile :=
  ok_or (List.find (λ f, bool_decide (zf_name f = name)) files) "no such entry".
Definition stored_archive (files : list ZipFile) : ZipArchive :=
  mk_archive (Ok <$> files) (zf_name <$> files) (stored_by_name files) (Ok <$> files).
#[export] Instance StoredZip : ZipCrate := {|
  zip_archive_new bs :=
    if len bs <? 22 then Err "no end record" else
    Ok (stored_archive (stored_files bs (Z.to_nat (fld 2 bs (len bs - 22 + 10))) (fld 4 bs (len bs - 22 + 16)))) |}.

(** ** The laws *)

Lemma append_last_app w e data : append_last (w ++ [e]) data = Ok (w ++ [mk_written (w_name e) (w_dir e) (w_options e) (w_data e ++ data)]).
Proof. induction w as [|x w IH]; [done|]. cbn [app append_last]. rewrite IH. by destruct w. Qed.
Lemma put_stored w e : writable e → put w e = Ok (w ++ [e]).
Proof.
  unfold writable, put, write_file. intros Hw. destruct e as [name [] options data]; cbn in *.
  - by destruct Hw as [_ ->].
  - by rewrite append_last_app.
Qed.
Lemma put_all_stored w es : Forall writable es → put_all w es = Ok (w ++ es).
Proof.
  intros Hes. revert w. induction Hes as [|e es He _ IH]; intros w; [by rewrite app_nil_r|].
  cbn [put_all]. rewrite put_stored by done. cbn [mbind outcome_bind]. by rewrite IH, <-app_assoc.
Qed.
Lemma write_zip_stored es bs : write_zip es = Ok bs → Forall writable es →
  forallb storable es = true ∧ bs = archive (locals stored_local 0 es) (centrals stored_local stored_central 0 es) [].
Proof.
  unfold write_zip. intros Hz Hes. rewrite put_all_stored in Hz by done. cbn in Hz. destruct (forallb storable es); [|done].
  split; [done|]. by apply Ok_inj in Hz.
Qed.
Lemma stored_local_length e offset : 0 < len (stored_local e offset).
Proof. unfold stored_local. rewrite len_local. unfold local_header_size. pose proof (len_nonneg (e_data (stored_entry e))). pose proof (byte_len_nonneg (e_name (stored_entry e))). lia. Qed.
Lemma storable_fits e : storable e = true → len (w_data e) < U32_MAX → entry_fits (stored_entry e) ∧ scalars (w_name e).
Proof.
  unfold storable. rewrite !andb_true_iff, bool_decide_eq_true, Z.ltb_lt. intros [[Hs Hn] _] Hd. split; [|done].
  unfold entry_fits. cbn. split; [by left|]. split; [done|]. split; [done|]. pose proof (len_nonneg (w_data e)). by split.
Qed.

(** Fields of a part of a file *)
Lemma sub_part {A} (pre r post : list A) o e : 0 <= o → e <= len r → sub (pre ++ r ++ post) (len pre + o) (len pre + e) = sub r o e.
Proof. intros. rewrite sub_app_r, sub_app_l by lia. f_equal; lia. Qed.
Lemma fld_part n pre r post o : 0 <= o → o + n <= len r → fld n (pre ++ r ++ post) (len pre + o) = fld n r o.
Proof. intros. unfold fld. by rewrite <-Z.add_assoc, sub_part by lia. Qed.
Lemma same_fld r r' o n : same_record r r' → 0 <= o → 0 <= n → o + n <= len r → o + n <= 4 ∨ 6 <= o ∧ o + n <= 38 ∨ 42 <= o →
  fld n r' o = fld n r o.
Proof. intros [_ Hr] ????. unfold fld. by rewrite Hr. Qed.
Section File.
Context (e : WrittenEntry) (l1 l2 d1 d2 r bs : bytes).
Context (He : storable e = true) (Hl : len l1 < U32_MAX) (Hd : len (w_data e) < U32_MAX).
Context (Hr : same_record (stored_central e (len l1)) r) (Hbs : bs = l1 ++ stored_local e (len l1) ++ l2).
Context (Hbs' : bs = d1 ++ r ++ d2).
Lemma record_fld (i m : nat) w v o :
  central_fields (stored_entry e) (len l1) !! i = Some (m, v) → o = fields_size (take i (central_fields (stored_entry e) (len l1))) →
  w = Z.of_nat m → 0 <= v < 2 ^ (8 * w) → o + w <= 46 → o + w <= 4 ∨ 6 <= o ∧ o + w <= 38 ∨ 42 <= o → fld w bs (len d1 + o) = v.
Proof.
  intros Hi Ho Hw Hv Hb Hor. pose proof (fields_size_nonneg (take i (central_fields (stored_entry e) (len l1)))).
  pose proof (byte_len_nonneg (w_name e)). pose proof (len_central (stored_entry e) (len l1)) as Hc. cbn [e_name stored_entry] in Hc.
  pose proof Hr as [Hrl _]. unfold stored_central in Hrl.
  rewrite Hbs', fld_part by lia. rewrite (same_fld _ _ _ _ Hr) by (unfold stored_central; lia || done).
  by apply (central_fld _ _ i m).
Qed.
Lemma stored_file_reads : rereads stored_local stored_central (stored_file bs (len d1)) e ∧
  len d1 + (46 + fld 2 bs (len d1 + 28) + fld 2 bs (len d1 + 30) + fld 2 bs (len d1 + 32)) = len (d1 ++ r).
Proof.
  pose proof (storable_fits e He Hd) as [(_ & _ & Hn & _) Hs]. cbn [e_name stored_entry] in Hn. pose proof (byte_len_nonneg (w_name e)).
  pose proof (len_nonneg (w_data e)). pose proof (len_nonneg l1). unfold U32_MAX in *.
  assert (len r = 46 + byte_len (w_name e)) as Hrl by (destruct Hr as [-> _]; apply len_central).
  pose proof (record_fld 10 2 2 (byte_len (w_name e)) 28 eq_refl eq_refl eq_refl ltac:(lia) ltac:(lia) ltac:(lia)) as H28.
  pose proof (record_fld 11 2 2 0 30 eq_refl eq_refl eq_refl ltac:(lia) ltac:(lia) ltac:(lia)) as H30.
  pose proof (record_fld 12 2 2 0 32 eq_refl eq_refl eq_refl ltac:(lia) ltac:(lia) ltac:(lia)) as H32.
  split; [|rewrite H28, H30, H32, len_app; lia].
  pose proof (record_fld 8 4 4 (len (w_data e)) 20 eq_refl eq_refl eq_refl ltac:(lia) ltac:(lia) ltac:(lia)) as H20.
  pose proof (record_fld 16 4 4 (len l1) 42 eq_refl eq_refl eq_refl ltac:(lia) ltac:(lia) ltac:(lia)) as H42.
  assert (sub bs (len d1 + 46) (len d1 + 46 + byte_len (w_name e)) = encode_utf8 (w_name e)) as Hname.
  { rewrite Hbs'. replace (len d1 + 46 + byte_len (w_name e)) with (len d1 + (46 + byte_len (w_name e))) by lia. rewrite sub_part by lia.
    destruct Hr as [_ Hsub]. unfold stored_central in Hsub. rewrite len_central in Hsub. rewrite Hsub by (cbn; lia).
    rewrite central_record_fields, <-(app_nil_r (encode_utf8 _)). apply sub_middle; rewrite len_encode_fields; done. }
  split; [cbn; by rewrite H28, Hname, from_utf8_lossy_encode|]. split.
  2:{ intros off. unfold stored_local, stored_central, stored_entry. by cbn. }
  intros _. cbn. rewrite H20, H42. assert (fld 2 bs (len l1 + 26) = byte_len (w_name e)) as ->.
  { unfold stored_local in Hbs. rewrite Hbs, fld_part; [by apply (local_fld _ 9 2)|done|].
    rewrite len_local. unfold local_header_size. cbn. lia. }
  unfold stored_local in Hbs. rewrite local_record_fields in Hbs. cbn [e_name e_data stored_entry] in Hbs.
  assert (bs = (l1 ++ encode_fields (local_fields (stored_entry e)) ++ encode_utf8 (w_name e)) ++ w_data e ++ l2) as Hbs2
    by (rewrite Hbs, <-!app_assoc; done).
  assert (len (l1 ++ encode_fields (local_fields (stored_entry e)) ++ encode_utf8 (w_name e)) = len l1 + (30 + byte_len (w_name e))) as Hpre
    by (rewrite !len_app, len_encode_fields; done).
  pose proof (len_nonneg l2). rewrite get_range_in.
  - cbn. f_equal. rewrite Hbs2. by apply sub_middle; rewrite Hpre.
  - lia.
  - lia.
  - rewrite Hbs2, len_app, Hpre, len_app. lia.
Qed.
End File.
Lemma stored_files_read es l1 l2 d1 d2 recs bs : Forall (λ e, storable e = true) es → len bs < U32_MAX →
  bs = l1 ++ locals stored_local (len l1) es ++ l2 → bs = d1 ++ concat recs ++ d2 →
  Forall2 same_record (centrals stored_local stored_central (len l1) es) recs →
  Forall2 (rereads stored_local stored_central) (stored_files bs (length es) (len d1)) es.
Proof.
  intros Hes Hb. revert l1 d1 recs. induction Hes as [|e es He Hes IH]; intros l1 d1 recs Hl Hd Hrecs; [constructor|].
  cbn [centrals locals] in *. apply Forall2_cons_inv_l in Hrecs as (r & recs' & Hr & Hrecs & ->).
  rewrite <-app_assoc in Hl. change (concat (r :: recs')) with (r ++ concat recs') in Hd. rewrite <-app_assoc in Hd.
  pose proof (f_equal len Hl) as Hll. rewrite !len_app in Hll. pose proof (len_local (stored_entry e)) as Hle.
  pose proof (len_nonneg l1). pose proof (len_nonneg l2). pose proof (byte_len_nonneg (w_name e)). pose proof (len_nonneg (w_data e)).
  pose proof (len_nonneg (locals stored_local (len l1 + len (stored_local e (len l1))) es)).
  unfold local_header_size in Hle. cbn [e_name e_data stored_entry] in Hle. unfold stored_local at 1 in Hll.
  destruct (stored_file_reads e l1 _ d1 _ r bs He ltac:(lia) ltac:(lia) Hr Hl Hd) as [Hread Hnext].
  cbn [length stored_files]. constructor; [done|]. rewrite Hnext. apply (IH (l1 ++ stored_local e (len l1)) _ recs').
  - by rewrite len_app, <-app_assoc.
  - by rewrite <-app_assoc.
  - by rewrite len_app.
Qed.
Lemma stored_directory es offset : Forall (λ e, storable e = true) es → 0 <= offset →
  offset + len (locals stored_local offset es) < U32_MAX →
  Forall cd_record (centrals stored_local stored_central offset es) ∧
  directory_of stored_local offset es (centrals stored_local stored_central offset es).
Proof.
  intros Hes. revert offset. induction Hes as [|e es He Hes IH]; intros offset Ho Hb; [by split|]. cbn [centrals locals directory_of] in *.
  rewrite len_app in Hb. pose proof (len_local (stored_entry e)) as Hle. pose proof (byte_len_nonneg (w_name e)).
  pose proof (len_nonneg (w_data e)). pose proof (stored_local_length e offset).
  pose proof (len_nonneg (locals stored_local (offset + len (stored_local e offset)) es)).
  unfold local_header_size in Hle. cbn [e_name e_data stored_entry] in Hle. unfold stored_local at 1 in Hb.
  destruct (storable_fits e He ltac:(lia)) as [Hf Hs]. destruct (IH (offset + len (stored_local e offset))) as [IH1 IH2]; [lia|unfold stored_local at 1; lia|].
  pose proof Hf as (_ & _ & Hn & _). cbn [e_name stored_entry] in Hn. unfold U32_MAX in *.
  split; [constructor; [apply central_cd_record; [done|unfold U32_MAX; lia]|done]|]. split; [|split; [|done]].
  - unfold record_name, stored_central. rewrite (central_fld _ _ 10 2 2 (byte_len (w_name e)) 28) by (done || lia).
    rewrite central_record_fields, <-(app_nil_r (encode_utf8 _)). by apply sub_middle; rewrite len_encode_fields.
  - unfold stored_central. by rewrite (central_fld _ _ 16 4 4 offset 42) by (done || lia).
Qed.
Lemma stored_by_name_unique files es e : Forall2 (rereads stored_local stored_central) files es → e ∈ es →
  (∀ e', e' ∈ es → w_name e' = w_name e → e' = e) →
  ∃ file, stored_by_name files (w_name e) = Ok file ∧ rereads stored_local stored_central file e.
Proof.
  unfold stored_by_name. intros Hf Hin Hu. destruct (List.find _ files) as [file|] eqn:Ef.
  - exists file. split; [done|]. apply List.find_some in Ef as [Hfile%list_elem_of_In Hname%bool_decide_eq_true].
    apply list_elem_of_lookup in Hfile as [i Hi]. destruct (Forall2_lookup_l _ _ _ _ _ Hf Hi) as (e' & He' & Hr).
    pose proof Hr as [Hn _]. rewrite <-(Hu e'); [done|by apply list_elem_of_lookup_2 in He'|congruence].
  - exfalso. apply list_elem_of_lookup in Hin as [i Hi]. destruct (Forall2_lookup_r _ _ _ _ _ Hf Hi) as (file & Hfile & Hn & _).
    apply list_elem_of_lookup_2, list_elem_of_In in Hfile. pose proof (List.find_none _ _ Ef _ Hfile) as Hd. cbn in Hd.
    by rewrite bool_decide_eq_true_2 in Hd.
Qed.
Lemma stored_files_names bs n pos : Forall (λ f, scalars (zf_name f)) (stored_files bs n pos).
Proof. revert pos. induction n as [|n IH]; intros pos; constructor; [apply from_utf8_lossy_scalars|apply IH]. Qed.
Lemma storable_all es : forallb storable es = true → Forall (λ e, storable e = true) es.
Proof. intros Hes. apply Forall_forall. intros e He. rewrite forallb_forall in Hes. by apply Hes, list_elem_of_In. Qed.
Lemma stored_zip_names bs a file : zip_archive_new bs = Ok a → Ok file ∈ by_index a → scalars (zf_name file).
Proof.
  cbn. destruct (_ <? _); [done|]. intros [= <-]. cbn. intros (f & [= ->] & Hf)%list_elem_of_fmap.
  by apply (proj1 (Forall_forall _ _) (stored_files_names _ _ _)) in Hf.
Qed.
Lemma stored_lays_out es bs : write_zip es = Ok bs → Forall writable es → small_zip (len es) (len bs) →
  bs = archive (locals stored_local 0 es) (centrals stored_local stored_central 0 es) [] ∧
  Forall cd_record (centrals stored_local stored_central 0 es) ∧ directory_of stored_local 0 es (centrals stored_local stored_central 0 es).
Proof.
  intros Hz Hw [Hn Hs]. apply write_zip_stored in Hz as [Hst ->]; [|done]. split; [done|]. rewrite len_archive in Hs. change (len []) with 0 in Hs.
  pose proof (len_nonneg (concat (centrals stored_local stored_central 0 es))).
  apply stored_directory; [by apply storable_all|lia|unfold U32_MAX; lia].
Qed.
(** Opening an archive reads its records. *)
Lemma stored_open body recs : len recs < U16 → len body < U32 →
  zip_archive_new (archive body recs []) = Ok (stored_archive (stored_files (archive body recs []) (length recs) (len body))).
Proof.
  intros Hn Hb. pose proof (len_nonneg body). pose proof (len_nonneg (concat recs)). pose proof (len_nonneg recs).
  pose proof (len_archive body recs []) as Hl. change (len []) with 0 in Hl. destruct (archive_end body recs []) as (front & Hf & _ & Hfl).
  set (fields := end_record_fields (len recs) (len (concat recs)) (len body) 0).
  assert (∀ (i m : nat) w v o, fields !! i = Some (m, v) → o = fields_size (take i fields) → w = Z.of_nat m → 0 <= v < 2 ^ (8 * w) →
    fld w (archive body recs []) (len (archive body recs []) - 22 + o) = v) as He.
  { intros i m w v o Hi Ho Hww Hv. pose proof (fields_size_nonneg (take i fields)).
    replace (len (archive body recs []) - 22 + o) with (len front + o) by lia. rewrite Hf, fld_app_r by lia.
    replace (len front + o - len front) with o by lia. by apply (end_record_fld _ _ _ [] i m). }
  cbn. rewrite (proj2 (Z.ltb_ge _ _)) by lia.
  rewrite (He 4%nat 2%nat 2 (len recs) 10), (He 6%nat 4%nat 4 (len body) 16) by (done || lia). by rewrite (Nat2Z.id (length recs) : Z.to_nat (len recs) = _).
Qed.
Lemma stored_reads_back es bs recs : write_zip es = Ok bs → Forall writable es → small_zip (len es) (len bs) →
  Forall2 same_record (centrals stored_local stored_central 0 es) recs →
  ∃ a, zip_archive_new (archive (locals stored_local 0 es) recs []) = Ok a ∧ reads_back stored_local stored_central a es.
Proof.
  intros Hz Hw [Hn Hs] Hrecs. apply write_zip_stored in Hz as [Hst ->]; [|done]. set (L := locals stored_local 0 es) in *.
  pose proof (Forall2_length _ _ _ Hrecs) as Hlen. rewrite length_written_centrals in Hlen. pose proof (len_nonneg L).
  assert (len (concat recs) = len (concat (centrals stored_local stored_central 0 es))) as Hc.
  { clear -Hrecs. induction Hrecs as [|r r' rs rs' [Hr _] _ IH]; [done|]. cbn. by rewrite !len_app, IH, Hr. }
  rewrite len_archive in Hs. change (len []) with 0 in Hs. pose proof (len_nonneg (concat recs)).
  assert (len (archive L recs []) < U32_MAX) as Hl by (rewrite len_archive; change (len []) with 0; unfold U32_MAX; lia).
  eexists. split; [apply stored_open; unfold len in *; lia|]. rewrite <-Hlen.
  assert (Forall2 (rereads stored_local stored_central) (stored_files (archive L recs []) (length es) (len L)) es) as Hr.
  { eapply (stored_files_read es [] (concat recs ++ _) L _ recs); [by apply storable_all|done|done|done|done]. }
  split; cbn.
  - apply Forall2_fmap_l. eapply Forall2_impl; [exact Hr|]. intros f e Hfe. by exists f.
  - intros e Hin Hu. by apply (stored_by_name_unique _ es).
Qed.
#[export] Instance StoredLaws : ZipLaws := {|
  local := stored_local; central := stored_central; zip_names := stored_zip_names; local_length := stored_local_length;
  write_lays_out := stored_lays_out; write_reads_back := stored_reads_back |}.
