(* ===== verification/NuGet.v ===== *)
(** NuGet packages: the signature content, the exact bytes an author signature
    covers and the rewriting of packages, of [psign-opc-sign/src/nuget.rs] and
    [opc.rs].  Reading and writing ZIP files are the [ZipCrate] and
    [ZipWriterCrate] classes. *)

From S2P Require Import Prelude.
From S2P Require Import RustStr.
From S2P Require Import Find.
From S2P Require Import Base64.
From S2P Require Import PeDigest.
From S2P Require Import AppxTail.
From S2P Require Import AppxParts.
From S2P Require Import AppxDigest.
From S2P Require Import ZipWrite.

(** ** Part names *)

Definition normalize_zip_part_name (name : str) : outcome str :=
  bail_if (bool_decide (name = [])) "ZIP entry name is empty";;
  bail_if (starts_with name [47]) "ZIP entry name must be relative: {name}";;
  bail_if (bool_decide (92 ∈ name)) "ZIP entry name must use '/' separators: {name}";;
  bail_if (existsb (λ segment, bool_decide (segment = [46]) || bool_decide (segment = [46; 46])) (split 47 name))
    "ZIP entry name contains dot segment: {name}";;
  Ok name.

(** ** The central directory *)

Definition CDFH_BYTES : bytes := to_le 4 CD_SIG.

(** One round of [normalize_nuget_zip_metadata]: the high byte of the version
    and the external attributes of the record at [pos] are cleared. *)
Definition metadata_step (central_dir_end : Z) (s : bytes * Z) : bytes * Z + outcome (bytes * Z) :=
  let '(bs, pos) := s in
  if pos <? central_dir_end then
    let r :=
      bail_if (len bs <? pos + 46) "invalid ZIP central directory entry";;
      sig ← index_range bs pos (pos + 4);
      bail_if (negb (bool_decide (sig = CDFH_BYTES))) "invalid ZIP central directory entry";;
      bs ← write_at bs (pos + 5) [byte_of 0];
      bs ← write_at bs (pos + 38) (to_le 4 0);
      name_len ← index_range bs (pos + 28) (pos + 30);
      extra_len ← index_range bs (pos + 30) (pos + 32);
      comment_len ← index_range bs (pos + 32) (pos + 34);
      pos ← ok_or (checked_add64 pos (46 + from_le name_len + from_le extra_len + from_le comment_len))
        "ZIP central directory entry size overflow";
      Ok (bs, pos) in
    match r with Ok s' => inl s' | Err e => inr (Err e) | Panic => inr Panic end
  else inr (Ok s).
Definition normalize_nuget_zip_metadata (bs : bytes) : outcome bytes :=
  eocd ← ok_or (rposition bs EOCD_BYTES) "ZIP central directory end not found";
  bail_if (len bs <? eocd + 22) "truncated ZIP central directory end";;
  size ← index_range bs (eocd + 12) (eocd + 16);
  offset ← index_range bs (eocd + 16) (eocd + 20);
  central_dir_end ← ok_or (checked_add64 (from_le offset) (from_le size)) "ZIP central directory size overflow";
  bail_if (len bs <? central_dir_end) "ZIP central directory extends past end of file";;
  '(bs, pos) ← default Panic (loop (metadata_step central_dir_end) (S (length bs)) (bs, from_le offset));
  bail_if (negb (pos =? central_dir_end)) "ZIP central directory entry length mismatch";;
  Ok bs.

(** ** The bytes a signature covers *)

Definition PACKAGE_SIGNATURE_FILE_NAME : str := chars ".signature.p7s".
Definition le16 (bs : bytes) (at_ : Z) : outcome Z := ok_or (from_le <$> get_range bs at_ (at_ + 2)) "truncated ZIP structure".
Definition le32 (bs : bytes) (at_ : Z) : outcome Z := ok_or (from_le <$> get_range bs at_ (at_ + 4)) "truncated ZIP structure".
(** A record of the directory: where it is, whether it is the signature's and
    the offset of its local header. *)
Record DirRecord := mk_dir_record { r_pos : Z; r_len : Z; r_is_signature : bool; r_local : Z }.
Fixpoint read_records (bs : bytes) (n : nat) (pos : Z) : outcome (list DirRecord * Z) :=
  match n with
  | O => Ok ([], pos)
  | S n' =>
      bail_if (negb (bool_decide (get_range bs pos (pos + 4) = Some CDFH_BYTES))) "invalid ZIP central directory record";;
      name_len ← le16 bs (pos + 28);
      extra_len ← le16 bs (pos + 30);
      comment_len ← le16 bs (pos + 32);
      let size := 46 + name_len + extra_len + comment_len in
      name ← ok_or (get_range bs (pos + 46) (pos + 46 + name_len)) "truncated ZIP central directory record";
      local ← le32 bs (pos + 42);
      '(rest, end_) ← read_records bs n' (pos + size);
      Ok (mk_dir_record pos size (bool_decide (name = encode_utf8 PACKAGE_SIGNATURE_FILE_NAME)) local :: rest, end_)
  end.
(** [records.iter().position(|r| r.2)] *)
Fixpoint signature_index (records : list DirRecord) : option nat :=
  match records with
  | [] => None
  | r :: records' => if r_is_signature r then Some O else S <$> signature_index records'
  end.
Definition find_eocd (bs : bytes) : outcome Z :=
  let search_from := saturating_sub (len bs) (22 + 65535) in
  tail ← index_range bs search_from (len bs);
  ok_or (Z.add search_from <$> rposition tail EOCD_BYTES) "ZIP end of central directory not found".
Definition signed_package_unsigned_bytes (bs : bytes) : outcome bytes :=
  eocd ← find_eocd bs;
  comment_len ← le16 bs (eocd + 20);
  bail_if (negb (eocd + 22 + comment_len =? len bs)) "ZIP end of central directory has trailing data";;
  disk_entries ← le16 bs (eocd + 8);
  total_entries ← le16 bs (eocd + 10);
  cd_size ← le32 bs (eocd + 12);
  cd_offset ← le32 bs (eocd + 16);
  bail_if (negb (disk_entries =? total_entries) || (total_entries =? 0xffff) || (cd_offset =? 0xffffffff))
    "multi-disk or ZIP64 NuGet packages are not supported for signature verification";;
  bail_if (negb (bool_decide (checked_add64 cd_offset cd_size = Some eocd)))
    "ZIP central directory does not end at the EOCD record";;
  '(records, pos) ← read_records bs (Z.to_nat total_entries) cd_offset;
  bail_if (negb (pos =? eocd)) "ZIP central directory size mismatch";;
  index ← ok_or (signature_index records) "package does not contain {PACKAGE_SIGNATURE_FILE_NAME}";
  bail_if (negb (bool_decide (length (List.filter r_is_signature records) = 1)%nat) || negb (bool_decide (S index = length records)))
    "{PACKAGE_SIGNATURE_FILE_NAME} must be the single, last central directory record";;
  signature ← unwrap (records !! index);
  let signature_local_offset := r_local signature in
  bail_if (existsb (λ r, signature_local_offset <=? r_local r) (take index records))
    "{PACKAGE_SIGNATURE_FILE_NAME} must be the last local file entry";;
  let kept_cd_size := r_pos signature - cd_offset in
  body ← index_range bs 0 signature_local_offset;
  kept ← index_range bs cd_offset (cd_offset + kept_cd_size);
  end_ ← index_range bs eocd (len bs);
  end_ ← write_at end_ 8 (to_le 2 (total_entries - 1));
  end_ ← write_at end_ 10 (to_le 2 (total_entries - 1));
  end_ ← write_at end_ 12 (to_le 4 kept_cd_size);
  end_ ← write_at end_ 16 (to_le 4 signature_local_offset);
  Ok (body ++ kept ++ end_).

(** ** The signature content *)

Inductive NuGetHashAlgorithm := NuGetSha256 | NuGetSha384 | NuGetSha512.
#[export] Instance nuget_hash_eq_dec : EqDecision NuGetHashAlgorithm.
Proof. solve_decision. Defined.
Definition oid (alg : NuGetHashAlgorithm) : str :=
  match alg with
  | NuGetSha256 => chars "2.16.840.1.101.3.4.2.1"
  | NuGetSha384 => chars "2.16.840.1.101.3.4.2.2"
  | NuGetSha512 => chars "2.16.840.1.101.3.4.2.3"
  end.
Definition from_oid (s : str) : option NuGetHashAlgorithm :=
  List.find (λ alg, bool_decide (s = oid alg)) [NuGetSha256; NuGetSha384; NuGetSha512].
Record NuGetSignatureContent := mk_content { hash_algorithm : NuGetHashAlgorithm; package_hash : bytes }.
Definition package_hash_property_name (alg : NuGetHashAlgorithm) : str := oid alg ++ chars "-Hash".
(** [split(pat)], one section and what follows the pattern *)
Definition split_next (text pat : str) : str * option str :=
  match find text pat with
  | Some k => (sub text 0 k, Some (sub text (k + len pat) (len text)))
  | None => (text, None)
  end.
Definition split_signature_content_pair (line : str) : outcome (str * str) :=
  '(key, value) ← ok_or (split_once 58 line) "invalid NuGet signature content line {line:?}";
  bail_if (bool_decide (key = []) || bool_decide (value = [])) "invalid NuGet signature content line {line:?}";;
  Ok (key, value).
Definition content_lines (section : str) : list str := List.filter (λ l, negb (bool_decide (l = []))) (lines section).
Fixpoint content_version (ls : list str) (version : option str) : outcome (option str) :=
  match ls with
  | [] => Ok version
  | l :: ls' =>
      '(key, value) ← split_signature_content_pair l;
      content_version ls' (if bool_decide (key = chars "Version") then Some value else version)
  end.
Section Content.
Context `{Base64} `{DigestOracle}.
Definition nuget_hash (alg : NuGetHashAlgorithm) (bs : bytes) : bytes :=
  digest (match alg with NuGetSha256 => Sha256 | NuGetSha384 => Sha384 | NuGetSha512 => Sha512 end) bs.
Definition signature_content_bytes (alg : NuGetHashAlgorithm) (package_hash : bytes) : bytes :=
  encode_utf8 (chars "Version:" ++ chars "1" ++ [10; 10] ++ package_hash_property_name alg ++ chars ":" ++ b64_encode package_hash
               ++ [10; 10]).
Fixpoint content_hash (ls : list str) : outcome NuGetSignatureContent :=
  match ls with
  | [] => Err "NuGet signature content does not contain a supported package hash property"
  | l :: ls' =>
      '(key, value) ← split_signature_content_pair l;
      match strip_suffix (chars "-Hash") key ≫= from_oid with
      | Some alg =>
          package_hash ← ok_or (b64_decode value) "NuGet signature content package hash is not valid base64";
          bail_if (bool_decide (package_hash = [])) "NuGet signature content package hash is empty";;
          Ok (mk_content alg package_hash)
      | None => content_hash ls'
      end
  end.
Definition parse_signature_content (bs : bytes) : outcome NuGetSignatureContent :=
  text ← ok_or (from_utf8 bs) "NuGet signature content is not UTF-8";
  let '(header, rest) := split_next text [10; 10] in
  rest ← ok_or rest "NuGet signature content is missing package hash section";
  let '(hash_section, _) := split_next rest [10; 10] in
  version ← content_version (content_lines header) None;
  match version with
  | Some v => bail_if (negb (bool_decide (v = chars "1"))) "unsupported NuGet signature content version {value}; expected {SIGNATURE_CONTENT_VERSION}"
  | None => Err "NuGet signature content is missing Version"
  end;;
  content_hash (content_lines hash_section).
End Content.

(** ** Packages rewritten *)

Section Packages.
Context `{ZipCrate} `{ZipWriterCrate}.
(** The entries written again without the signature: every entry with its
    method and its time, and whether a signature was there. *)
Fixpoint copy_without_signature (overwrite : bool) (files : list (outcome ZipFile)) (w : zip_writer) (had_signature : bool) :
  outcome (zip_writer * bool) :=
  match files with
  | [] => Ok (w, had_signature)
  | r :: files' =>
      file ← with_context r "read NuGet ZIP entry";
      name ← normalize_zip_part_name (zf_name file);
      if bool_decide (name = PACKAGE_SIGNATURE_FILE_NAME) then
        if overwrite then copy_without_signature overwrite files' w true
        else Err "package already contains {}; pass overwrite to replace it"
      else
        w ← copy_entry w file name (mk_options (zf_compression file) (last_modified file));
        copy_without_signature overwrite files' w had_signature
  end.
Definition write_package_without_signature (package : bytes) (require_signature : bool) : outcome bytes :=
  input ← with_context (zip_archive_new package) "open NuGet ZIP";
  '(w, had_signature) ← copy_without_signature true (by_index input) zip_writer_new false;
  bail_if (require_signature && negb had_signature) "package does not contain {PACKAGE_SIGNATURE_FILE_NAME}";;
  bs ← finish w;
  normalize_nuget_zip_metadata bs.
Definition canonical_unsigned_package_bytes (package : bytes) : outcome bytes := write_package_without_signature package false.
Definition embed_signature (current_zip_datetime : outcome DateTime) (package signature_der : bytes) (overwrite : bool) : outcome bytes :=
  bail_if (bool_decide (signature_der = [])) "NuGet package signature payload is empty";;
  input ← with_context (zip_archive_new package) "open NuGet ZIP";
  signature_timestamp ← with_context current_zip_datetime "determine local ZIP timestamp for NuGet signature";
  '(w, had_signature) ← copy_without_signature overwrite (by_index input) zip_writer_new false;
  w ← (if negb had_signature || overwrite
       then write_file w PACKAGE_SIGNATURE_FILE_NAME (mk_options Stored signature_timestamp) signature_der
       else Ok w);
  bs ← finish w;
  normalize_nuget_zip_metadata bs.
Definition extract_signature (package : bytes) : outcome bytes :=
  input ← with_context (zip_archive_new package) "open NuGet ZIP";
  file ← with_context (by_name input PACKAGE_SIGNATURE_FILE_NAME) "package does not contain {PACKAGE_SIGNATURE_FILE_NAME}";
  signature ← with_context (read_to_end file) "read NuGet package signature";
  bail_if (bool_decide (signature = [])) "NuGet package signature payload is empty";;
  Ok signature.
End Packages.

(** ** Signing and verifying a package *)

(** What is read of a CMS: the message digest of each signer, and the content
    when it is there. *)
Record NuGetCms := mk_cms { message_digests : list (outcome bytes); econtent : option (outcome bytes) }.
Section Signing.
Context `{Base64} `{DigestOracle} `{ZipCrate} `{ZipWriterCrate}.
(** [sign_nuget] of the portable core; the key, the CMS and the time stamp are
    arguments. *)
Definition sign_nuget {Provider} (current_zip_datetime : outcome DateTime) (load_signing_provider : outcome Provider)
    (create_nuget_author_signature : Provider → bytes → NuGetHashAlgorithm → outcome bytes)
    (maybe_timestamp_pkcs7 : bytes → outcome bytes) (read : outcome bytes) (nuget_alg : NuGetHashAlgorithm) : outcome bytes :=
  data ← with_context read "read {}";
  provider ← load_signing_provider;
  unsigned ← with_context (canonical_unsigned_package_bytes data) "canonicalize NuGet package for signing {}";
  let content := signature_content_bytes nuget_alg (nuget_hash nuget_alg unsigned) in
  pkcs7 ← with_context (create_nuget_author_signature provider content nuget_alg) "create NuGet CMS signature for {}";
  pkcs7_final ← with_context (maybe_timestamp_pkcs7 pkcs7) "timestamp {}";
  with_context (embed_signature current_zip_datetime unsigned pkcs7_final false) "embed NuGet signature into {}".
Definition digest_for_length (n : Z) (data : bytes) : outcome bytes :=
  if n =? 32 then Ok (digest Sha256 data) else if n =? 48 then Ok (digest Sha384 data)
  else if n =? 64 then Ok (digest Sha512 data) else Err "unsupported NuGet signature digest length {n}".
Definition rebuilt_content (unsigned message_digest : bytes) : option bytes :=
  List.find (λ content, bool_decide (ok_opt (digest_for_length (len message_digest) content) = Some message_digest))
    ((λ alg, signature_content_bytes alg (nuget_hash alg unsigned)) <$> [NuGetSha256; NuGetSha384; NuGetSha512]).
Definition nuget_verified_signature_content (parse_pkcs7_signed_data_der : bytes → outcome NuGetCms) (package signature : bytes) :
  outcome (bytes * bytes) :=
  sd ← with_context (parse_pkcs7_signed_data_der signature) "NuGet .signature.p7s CMS";
  signer ← ok_or (head (message_digests sd)) "NuGet signature has no SignerInfo";
  message_digest ← with_context signer "NuGet signature messageDigest: {e}";
  unsigned ← signed_package_unsigned_bytes package;
  content ← match econtent sd with
            | Some econtent =>
                content ← with_context econtent "NuGet signature content is not an OCTET STRING: {e}";
                parsed ← parse_signature_content content;
                bail_if (negb (bool_decide (nuget_hash (hash_algorithm parsed) unsigned = package_hash parsed)))
                  "NuGet package hash mismatch: the package content changed after signing";;
                Ok content
            | None =>
                ok_or (rebuilt_content unsigned message_digest)
                  "NuGet package hash mismatch: the package content changed after signing"
            end;
  actual ← digest_for_length (len message_digest) content;
  bail_if (negb (bool_decide (actual = message_digest)))
    "NuGet signature messageDigest mismatch: the signed content differs from the embedded content";;
  Ok (content, message_digest).
End Signing.
