(* ===== verification/NuGetSign.v ===== *)
(** NuGet signatures: what the reader of a signature content finds in a written
    one, the cut of a signed package, and signing a package and verifying it.
    The definitions are in [NuGet]. *)

From S2P Require Import Prelude.
From S2P Require Import RustStr.
From S2P Require Import Find.
From S2P Require Import Base64.
From S2P Require Import PeDigest.
From S2P Require Import AppxTail.
From S2P Require Import AppxParts.
From S2P Require Import AppxDigest.
From S2P Require Import ZipWrite.
From S2P Require Import NuGet.

(** ** The signature content *)

Section Content.
Context `{Base64} `{DigestOracle}.
Lemma base64_not_newline bs c : is_base64_char c = false → c ∉ b64_encode bs.
Proof. intros Hc Hin. pose proof (b64_alphabet bs) as Hb. apply (proj1 (Forall_forall _ _) Hb) in Hin. congruence. Qed.
Definition hash_line (alg : NuGetHashAlgorithm) (h : bytes) : str := package_hash_property_name alg ++ 58 :: b64_encode h.
Lemma hash_line_plain alg h : Forall (λ c, plain c = true) (hash_line alg h).
Proof.
  unfold hash_line, package_hash_property_name. apply Forall_app_2; [apply (bool_decide_unpack _); destruct alg; by vm_compute|].
  constructor; [by vm_compute|]. eapply Forall_impl; [apply b64_alphabet|apply base64_plain].
Qed.
Lemma content_is alg h : signature_content_bytes alg h = encode_utf8 (chars "Version:1" ++ [10; 10] ++ hash_line alg h ++ [10; 10]).
Proof. unfold signature_content_bytes, hash_line. f_equal. rewrite <-!app_assoc. done. Qed.
Lemma split_next_clear a b pat : clear pat a = true → pat ≠ [] → split_next (a ++ pat ++ b) pat = (a, Some b).
Proof.
  intros Ha Hp. unfold split_next. rewrite find_clear by done. pose proof (len_nonneg a). pose proof (len_nonneg pat).
  pose proof (len_nonneg b). f_equal.
  - rewrite sub_app_l by lia. apply sub_full.
  - f_equal. rewrite app_assoc, sub_app_r by (rewrite len_app; lia).
    trans (sub b 0 (len b)); [|apply sub_full]. rewrite !len_app. f_equal; lia.
Qed.
(** A signature content written for a package hash is read back. *)
Lemma parse_written alg h : h ≠ [] → parse_signature_content (signature_content_bytes alg h) = Ok (mk_content alg h).
Proof.
  intros Hh. pose proof (hash_line_plain alg h) as Hp. rewrite content_is. unfold parse_signature_content.
  rewrite from_utf8_encode.
  2:{ apply ascii_scalars. apply Forall_app_2; [by apply (bool_decide_unpack _); vm_compute|].
      apply Forall_app_2; [by apply (bool_decide_unpack _); vm_compute|]. apply Forall_app_2; [|by apply (bool_decide_unpack _); vm_compute].
      eapply Forall_impl; [exact Hp|]. by intros c [? _]%plain_props. }
  cbn [ok_or mbind outcome_bind]. rewrite split_next_clear by by vm_compute. cbn [ok_or mbind outcome_bind].
  assert (10 ∉ hash_line alg h) as Hlf by (by apply plains_notin).
  rewrite <-(app_nil_r [10; 10]) at 1. rewrite (split_next_clear (hash_line alg h)) by (done || by apply clear_without).
  replace (content_lines (chars "Version:1")) with [chars "Version:1"] by by vm_compute.
  cbn [content_version]. replace (split_signature_content_pair (chars "Version:1")) with (Ok (chars "Version", chars "1")) by by vm_compute.
  cbn [mbind outcome_bind]. rewrite !bool_decide_eq_true_2 by done. cbn [negb bail_if mbind outcome_bind].
  assert (hash_line alg h ≠ []) as Hne by (unfold hash_line; by destruct (package_hash_property_name alg)).
  unfold content_lines. rewrite lines_single by done. cbn [List.filter]. rewrite bool_decide_eq_false_2 by done. cbn [negb content_hash].
  unfold split_signature_content_pair, hash_line. rewrite split_once_app by (apply (bool_decide_unpack _); destruct alg; by vm_compute).
  cbn [ok_or mbind outcome_bind]. rewrite !bool_decide_eq_false_2 by (by apply b64_nonempty || by destruct alg). cbn [orb bail_if mbind outcome_bind].
  unfold package_hash_property_name. rewrite (proj2 (strip_suffix_Some _ _ (oid alg))) by done. cbn [mbind option_bind].
  replace (from_oid (oid alg)) with (Some alg) by (destruct alg; by vm_compute).
  rewrite b64_roundtrip. cbn [ok_or mbind outcome_bind]. by rewrite bool_decide_eq_false_2.
Qed.
End Content.

(** ** The directory of an archive *)

Fixpoint dir_records (pos : Z) (recs : list bytes) : list DirRecord :=
  match recs with
  | [] => []
  | r :: recs' =>
      mk_dir_record pos (len r) (bool_decide (record_name r = encode_utf8 PACKAGE_SIGNATURE_FILE_NAME)) (fld 4 r 42)
      :: dir_records (pos + len r) recs'
  end.
Lemma get_range_at {A} (pre r post : list A) o n : 0 <= o → 0 <= n → o + n <= len r →
  get_range (pre ++ r ++ post) (len pre + o) (len pre + o + n) = Some (sub r o (o + n)).
Proof.
  intros. pose proof (len_nonneg pre). pose proof (len_nonneg post). rewrite get_range_in by (rewrite ?len_app; lia).
  f_equal. rewrite sub_app_r, sub_app_l by lia. f_equal; lia.
Qed.
Lemma le16_at pre r post o : 0 <= o → o + 2 <= len r → le16 (pre ++ r ++ post) (len pre + o) = Ok (fld 2 r o).
Proof. intros. unfold le16. by rewrite get_range_at by lia. Qed.
Lemma le32_at pre r post o : 0 <= o → o + 4 <= len r → le32 (pre ++ r ++ post) (len pre + o) = Ok (fld 4 r o).
Proof. intros. unfold le32. by rewrite get_range_at by lia. Qed.
Lemma record_signature r : cd_record r → sub r 0 4 = CDFH_BYTES.
Proof.
  intros (Hl & Hsig & _). unfold CDFH_BYTES. rewrite <-Hsig. unfold fld. symmetry. apply to_from_le.
  pose proof (len_sub r 0 4 ltac:(lia) ltac:(lia) ltac:(lia)) as Hs. unfold len in Hs. change (0 + 4) with 4. lia.
Qed.
Lemma read_records_concat pre recs post : Forall cd_record recs →
  read_records (pre ++ concat recs ++ post) (length recs) (len pre) = Ok (dir_records (len pre) recs, len pre + len (concat recs)).
Proof.
  intros Hrecs. revert pre. induction Hrecs as [|r recs Hr Hrecs IH]; intros pre; cbn [read_records dir_records length].
  { change (concat []) with (@nil byte). rewrite len_nil. do 2 f_equal. lia. }
  change (concat (r :: recs)) with (r ++ concat recs). rewrite <-app_assoc. pose proof Hr as (Hl & Hsig & Hlen).
  assert (∀ o, 0 <= o → o + 2 <= len r → 0 <= fld 2 r o) as Hf by (intros; apply fld_range; lia).
  pose proof (Hf 28). pose proof (Hf 30). pose proof (Hf 32).
  pose proof (get_range_at pre r (concat recs ++ post) 0 4) as Hg. rewrite Z.add_0_r in Hg. rewrite Hg by lia.
  rewrite bool_decide_eq_true_2 by (f_equal; by apply record_signature). cbn [negb bail_if mbind outcome_bind].
  rewrite !le16_at, le32_at by lia. cbn [mbind outcome_bind].
  rewrite (get_range_at pre r) by lia. cbn [ok_or mbind outcome_bind].
  replace (len pre + (46 + fld 2 r 28 + fld 2 r 30 + fld 2 r 32)) with (len (pre ++ r)) by (rewrite len_app; lia).
  rewrite app_assoc, IH. cbn [mbind outcome_bind]. rewrite !len_app. unfold record_name. rewrite <-Hlen. do 2 f_equal. lia.
Qed.

(** ** Cutting the signature out *)

Definition records_ok (limit : Z) (recs : list bytes) : Prop :=
  Forall (λ r, cd_record r ∧ record_name r ≠ encode_utf8 PACKAGE_SIGNATURE_FILE_NAME ∧ fld 4 r 42 < limit) recs.
Definition signature_record (r : bytes) (offset : Z) : Prop :=
  cd_record r ∧ record_name r = encode_utf8 PACKAGE_SIGNATURE_FILE_NAME ∧ fld 4 r 42 = offset.
Lemma dir_records_app pos recs recs' : dir_records pos (recs ++ recs') = dir_records pos recs ++ dir_records (pos + len (concat recs)) recs'.
Proof.
  revert pos. induction recs as [|r recs IH]; intros pos.
  - change (concat []) with (@nil byte). cbn. by rewrite len_nil, Z.add_0_r.
  - change (concat (r :: recs)) with (r ++ concat recs). cbn [app dir_records]. rewrite IH, len_app. do 3 f_equal. lia.
Qed.
Lemma length_dir_records pos recs : length (dir_records pos recs) = length recs.
Proof. revert pos. induction recs as [|r recs IH]; intros pos; cbn; [done|]. by rewrite IH. Qed.
Lemma dir_records_unsigned limit pos recs : records_ok limit recs →
  signature_index (dir_records pos recs) = None ∧ List.filter r_is_signature (dir_records pos recs) = [] ∧
  existsb (λ r, limit <=? r_local r) (dir_records pos recs) = false.
Proof.
  intros Hrecs. revert pos. induction Hrecs as [|r recs (_ & Hn & Ho) Hrecs IH]; intros pos; [done|].
  destruct (IH (pos + len r)) as (H1 & H2 & H3). cbn [dir_records signature_index List.filter r_is_signature existsb r_local].
  rewrite bool_decide_eq_false_2 by done. rewrite H1, H2, H3. rewrite (proj2 (Z.leb_gt _ _)) by lia. done.
Qed.
Lemma signature_index_app l l' : signature_index l = None → signature_index (l ++ l') = Nat.add (length l) <$> signature_index l'.
Proof.
  induction l as [|r l IH]; cbn; [by destruct (signature_index l')|]. destruct (r_is_signature r); [done|].
  intros Hl%fmap_None. rewrite IH by done. by destruct (signature_index l').
Qed.
Lemma find_eocd_last bs k : rposition bs EOCD_BYTES = Some k → len bs - 65557 <= k → find_eocd bs = Ok k.
Proof.
  unfold rposition, find_eocd. intros Hk Hs. pose proof Hk as [Ho Hno]%rfind_Some. pose proof (occurs_range _ _ _ Ho) as Hr.
  rewrite !len_fmap in Hr. set (from := saturating_sub _ _). assert (0 <= from ∧ from <= k ∧ from <= len bs) as (? & ? & ?)
    by (unfold from, saturating_sub; pose proof (len_nonneg bs); split_and!; lia).
  rewrite index_range_in by lia. cbn [mbind outcome_bind]. unfold rposition.
  replace (rfind (u8 <$> sub bs from (len bs)) (u8 <$> EOCD_BYTES)) with (Some (k - from)).
  { cbn. f_equal. lia. }
  symmetry. assert (len (u8 <$> sub bs 0 from) = from) as Hl by (rewrite len_fmap, len_sub; lia).
  rewrite (sub_head_tail bs from), fmap_app in Ho, Hno by lia. apply rfind_Some. split.
  - replace (k - from) with (k - len (u8 <$> sub bs 0 from)) by lia. by apply occurs_after; [lia|].
  - intros j Hj Hoj. apply (Hno (j + from)); [lia|]. apply occurs_after; [lia|]. rewrite Hl. by replace (j + from - from) with j by lia.
Qed.

(** The fields written over are those of the end record of the cut archive. *)
Lemma end_record_rewritten n cds cdo comment n' cds' cdo' :
  patch (patch (patch (patch (end_record n cds cdo comment) 8 (to_le 2 n')) 10 (to_le 2 n')) 12 (to_le 4 cds')) 16 (to_le 4 cdo') =
  end_record n' cds' cdo' comment.
Proof.
  unfold end_record. set (h := to_le 4 EOCD_SIG ++ to_le 2 0 ++ to_le 2 0).
  assert (∀ x, to_le 4 EOCD_SIG ++ to_le 2 0 ++ to_le 2 0 ++ x = h ++ x) as Hh by (intros; unfold h; by rewrite <-!app_assoc).
  rewrite !Hh. assert (len h = 8) as Hl by done.
  assert (∀ (a b c x : bytes) o, o = len a → len x = len b → patch (a ++ b ++ c) o x = a ++ x ++ c) as Hp.
  { intros a b c x o -> Hx. pose proof (len_nonneg c). pose proof (len_nonneg b). unfold patch.
    rewrite !sub_app_l, sub_full by (pose proof (len_nonneg a); lia). do 2 f_equal. rewrite app_assoc, sub_app_r by (rewrite len_app; lia).
    trans (sub c 0 (len c)); [|apply sub_full]. rewrite !len_app. f_equal; lia. }
  rewrite (Hp h) by done.
  rewrite (app_assoc h (to_le 2 n')), (Hp (h ++ to_le 2 n')) by (rewrite ?len_app, ?len_to_le, ?Hl; done).
  rewrite (app_assoc _ (to_le 2 n') (_ ++ _)), (Hp ((h ++ to_le 2 n') ++ to_le 2 n')) by (rewrite ?len_app, ?len_to_le, ?Hl; done).
  rewrite (app_assoc _ (to_le 4 cds') (_ ++ _)), (Hp (((h ++ to_le 2 n') ++ to_le 2 n') ++ to_le 4 cds')) by (rewrite ?len_app, ?len_to_le, ?Hl; done).
  by rewrite <-!app_assoc.
Qed.

Section Cut.
Context (body : bytes) (recs : list bytes) (sr comment : bytes) (off : Z).
Context (Hp : plain_archive body (recs ++ [sr]) comment) (Hrecs : records_ok off recs) (Hsr : signature_record sr off).
Let bs := archive body (recs ++ [sr]) comment.
Let eocd := len body + len (concat (recs ++ [sr])).
Let e := end_record (len (recs ++ [sr])) (len (concat (recs ++ [sr]))) (len body) comment.
Lemma cut_end_fld (i m : nat) w v o :
  end_record_fields (len (recs ++ [sr])) (len (concat (recs ++ [sr]))) (len body) (len comment) !! i = Some (m, v) →
  o = fields_size (take i (end_record_fields (len (recs ++ [sr])) (len (concat (recs ++ [sr]))) (len body) (len comment))) →
  w = Z.of_nat m → 0 <= v < 2 ^ (8 * w) → o + w <= 22 → get_range bs (eocd + o) (eocd + o + w) = Some (sub e o (o + w)) ∧ fld w e o = v.
Proof.
  intros Hi Ho Hw Hv Hb. pose proof (fields_size_nonneg (take i (end_record_fields (len (recs ++ [sr])) (len (concat (recs ++ [sr]))) (len body) (len comment)))).
  split; [|by apply (end_record_fld _ _ _ _ i m)]. unfold bs. destruct (archive_end body (recs ++ [sr]) comment) as (front & -> & _ & Hl).
  fold e. unfold eocd. rewrite <-Hl. rewrite <-(app_nil_r e) at 1. apply get_range_at; [lia..|].
  unfold e. rewrite len_end_record. pose proof (len_nonneg comment). lia.
Qed.
Ltac end_field i m w v o :=
  let H1 := fresh "H" in let H2 := fresh "H" in
  destruct (cut_end_fld i m w v o) as [H1 H2]; [done|done|done|lia|lia|];
  change (fld w e o) with (from_le (sub e o (o + w))) in H2; unfold le16, le32; rewrite H1; clear H1;
  cbn [fmap option_fmap option_map ok_or mbind outcome_bind]; rewrite H2; clear H2.
Lemma signed_package_cut : signed_package_unsigned_bytes bs =
  (b ← index_range bs 0 off; Ok (b ++ concat recs ++ end_record (len recs) (len (concat recs)) off comment)).
Proof.
  destruct Hp as (Hn & Hcd & Hb & Hc & Hwf & Hfound). pose proof (len_nonneg body). pose proof (len_nonneg comment).
  pose proof (len_nonneg (concat (recs ++ [sr]))). pose proof (len_nonneg (recs ++ [sr])). pose proof (len_archive body (recs ++ [sr]) comment) as Hlen.
  fold bs eocd in Hfound, Hlen. pose proof Hsr as (Hsw & Hsn & Hso).
  unfold signed_package_unsigned_bytes. rewrite (find_eocd_last bs eocd) by (done || lia). cbn [mbind outcome_bind].
  end_field 7%nat 2%nat 2 (len comment) 20. rewrite (proj2 (Z.eqb_eq _ _)) by lia. cbn [negb bail_if mbind outcome_bind].
  end_field 3%nat 2%nat 2 (len (recs ++ [sr])) 8. end_field 4%nat 2%nat 2 (len (recs ++ [sr])) 10.
  end_field 5%nat 4%nat 4 (len (concat (recs ++ [sr]))) 12. end_field 6%nat 4%nat 4 (len body) 16.
  rewrite Z.eqb_refl, !(proj2 (Z.eqb_neq _ _)) by lia. cbn [negb orb bail_if mbind outcome_bind].
  unfold checked_add64. rewrite (proj2 (Z.ltb_lt _ _)) by lia. rewrite bool_decide_eq_true_2 by done. cbn [negb bail_if mbind outcome_bind].
  rewrite (Nat2Z.id (length (recs ++ [sr])) : Z.to_nat (len (recs ++ [sr])) = _). assert (read_records bs (length (recs ++ [sr])) (len body) = Ok (dir_records (len body) (recs ++ [sr]), eocd)) as ->
    by by apply read_records_concat.
  cbn [mbind outcome_bind].
  rewrite Z.eqb_refl. cbn [negb bail_if mbind outcome_bind]. rewrite dir_records_app.
  destruct (dir_records_unsigned off (len body) recs Hrecs) as (Hd1 & Hd2 & Hd3).
  cbn [dir_records]. rewrite Hsn, Hso, bool_decide_eq_true_2 by done. rewrite signature_index_app by done.
  cbn [signature_index r_is_signature fmap option_fmap option_map ok_or mbind outcome_bind]. rewrite Nat.add_0_r, List.filter_app, Hd2.
  cbn [List.filter r_is_signature app length]. rewrite bool_decide_eq_true_2 by done. rewrite length_app, bool_decide_eq_true_2 by (cbn; lia).
  cbn [negb orb bail_if mbind outcome_bind]. rewrite lookup_app_r, Nat.sub_diag by done. cbn [lookup list_lookup unwrap mbind outcome_bind].
  cbn [r_local r_pos]. rewrite take_app_length, Hd3. cbn [bail_if mbind outcome_bind].
  assert (concat (recs ++ [sr]) = concat recs ++ sr) as Hcc by (rewrite concat_app; cbn; by rewrite app_nil_r).
  pose proof (len_nonneg (concat recs)). pose proof (len_nonneg sr). assert (len (concat (recs ++ [sr])) = len (concat recs) + len sr) as Hlc
    by (by rewrite Hcc, len_app).
  destruct (index_range bs 0 off) as [b| |]; [|done..]. cbn [mbind outcome_bind].
  assert (index_range bs (len body) (len body + (len body + len (concat recs) - len body)) = Ok (concat recs)) as ->.
  { rewrite index_range_in by (unfold eocd in Hlen; lia). f_equal. unfold bs, archive. rewrite Hcc, <-app_assoc. apply sub_middle; lia. }
  assert (index_range bs eocd (len bs) = Ok e) as ->.
  { unfold eocd in *. rewrite index_range_in by lia. f_equal. rewrite Hlen. unfold bs. destruct (archive_end body (recs ++ [sr]) comment) as (front & -> & _ & Hl).
    fold e. rewrite sub_app_r by lia. rewrite <-(sub_full e) at 2. unfold e. rewrite len_end_record. f_equal; lia. }
  cbn [mbind outcome_bind]. assert (len e = 22 + len comment) as He by apply len_end_record.
  do 4 (rewrite write_at_in by (len_side || (rewrite ?len_to_le; len_side)); cbn [mbind outcome_bind]).
  replace (len body + len (concat recs) - len body) with (len (concat recs)) by lia.
  replace (len (recs ++ [sr]) - 1) with (len recs) by (rewrite len_app, len_cons, len_nil; lia). unfold e. by rewrite end_record_rewritten.
Qed.
End Cut.

(** Cutting the signature out of a package to which its entry was appended
    gives back, byte for byte, the archive before: the local area, the
    directory and an end record with the old number of entries, size and
    offset. *)
Lemma cut_restores body local recs sr comment :
  plain_archive (body ++ local) (recs ++ [sr]) comment → records_ok (len body) recs → signature_record sr (len body) →
  signed_package_unsigned_bytes (archive (body ++ local) (recs ++ [sr]) comment) = Ok (archive body recs comment).
Proof.
  intros Hp Hrecs Hsr. rewrite (signed_package_cut _ _ _ _ (len body)) by done. pose proof (len_nonneg body). pose proof (len_nonneg local).
  pose proof (len_nonneg (concat (recs ++ [sr]))). pose proof (len_nonneg comment).
  rewrite index_range_in by (rewrite ?len_archive, ?len_app; lia). cbn [mbind outcome_bind]. do 2 f_equal.
  unfold archive. rewrite <-app_assoc, sub_app_l by lia. by rewrite sub_full.
Qed.
(** C28: What cutting the signature out of a package gives, for every package
    whose last record is the signature's and whose other records lie before it:
    the bytes before the signature's local header, the other records, and an end
    record with their number and size and that offset.  The offset is not
    compared with the length of the file: one beyond it, and no other, makes the
    function panic. *)
Theorem signature_cut_out body recs sr comment off :
  plain_archive body (recs ++ [sr]) comment → records_ok off recs → signature_record sr off →
  let signed := archive body (recs ++ [sr]) comment in
  signed_package_unsigned_bytes signed =
  if off <=? len signed then Ok (sub signed 0 off ++ concat recs ++ end_record (len recs) (len (concat recs)) off comment) else Panic.
Proof.
  intros Hp Hrecs Hsr. cbv zeta. rewrite (signed_package_cut _ _ _ _ off) by done. pose proof Hsr as ((Hl & _ & _) & _ & Hoff).
  pose proof (fld_range 4 sr 42) as Hr. rewrite Hoff in Hr.
  destruct (Z.leb_spec off (len (archive body (recs ++ [sr]) comment))); [|unfold index_range, get_range; by rewrite (proj2 (in_range_false _ _ _)) by lia].
  by rewrite index_range_in by lia.
Qed.

(** ** Normalising the directory *)

Definition nuget_record (r : bytes) : bytes := patch (patch r 5 [byte_of 0]) 38 (to_le 4 0).
Lemma len_nuget_record r : cd_record r → len (nuget_record r) = len r.
Proof. intros (? & _). unfold nuget_record. rewrite !len_patch; rewrite ?len_patch, ?len_to_le, ?len_cons, ?len_nil; rewrite ?len_cons, ?len_nil; lia. Qed.
Lemma sub_nuget_record r o n : cd_record r → 0 <= o → 0 <= n → o + n <= len r → o + n <= 5 ∨ 6 <= o ∧ o + n <= 38 ∨ 42 <= o →
  sub (nuget_record r) o (o + n) = sub r o (o + n).
Proof.
  intros (? & _) ??? Ho. unfold nuget_record.
  assert (len (patch r 5 [byte_of 0]) = len r) as Hl by (rewrite len_patch; rewrite ?len_cons, ?len_nil; lia).
  destruct Ho as [?|[[? ?]|?]].
  - rewrite !sub_patch_before; rewrite ?Hl, ?len_to_le, ?len_cons, ?len_nil; [done|lia..].
  - rewrite sub_patch_before, sub_patch_after; rewrite ?Hl, ?len_to_le, ?len_cons, ?len_nil; [done|lia..].
  - rewrite !sub_patch_after; rewrite ?Hl, ?len_to_le, ?len_cons, ?len_nil; [done|lia..].
Qed.
Lemma fld_nuget_record n r o : cd_record r → 0 <= o → 0 <= n → o + n <= len r → o + n <= 5 ∨ 6 <= o ∧ o + n <= 38 ∨ 42 <= o →
  fld n (nuget_record r) o = fld n r o.
Proof. intros. unfold fld. by rewrite sub_nuget_record. Qed.
Lemma nuget_record_wf r : cd_record r → cd_record (nuget_record r).
Proof.
  intros Hr. pose proof Hr as (? & ? & ?). unfold cd_record. rewrite len_nuget_record, !fld_nuget_record by (done || lia). done.
Qed.
Lemma nuget_record_name r : cd_record r → record_name (nuget_record r) = record_name r.
Proof.
  intros Hr. pose proof Hr as (? & _ & Hl). unfold record_name. rewrite fld_nuget_record by (done || lia).
  assert (∀ o, 0 <= o → o + 2 <= len r → 0 <= fld 2 r o) as Hf by (intros; apply fld_range; lia).
  pose proof (Hf 28). pose proof (Hf 30). pose proof (Hf 32). apply sub_nuget_record; lia || done.
Qed.
Lemma len_concat_nuget recs : Forall cd_record recs → len (concat (nuget_record <$> recs)) = len (concat recs).
Proof. induction 1 as [|r recs Hr _ IH]; [done|]. cbn. by rewrite !len_app, IH, len_nuget_record. Qed.
Lemma metadata_one pre r post cd_end : cd_record r → len pre < cd_end → len pre + len r < U64 →
  metadata_step cd_end (pre ++ r ++ post, len pre) = inl ((pre ++ nuget_record r) ++ post, len (pre ++ nuget_record r)).
Proof.
  intros Hr Hlt Hb. pose proof Hr as (Hl & Hsig & Hlen). pose proof (len_nonneg pre). pose proof (len_nonneg post).
  assert (∀ x o src, len x = len r → 0 <= o → o + len src <= len r →
    write_at (pre ++ x ++ post) (len pre + o) src = Ok (pre ++ patch x o src ++ post)) as Hw.
  { intros x o src Hx ??. pose proof (len_nonneg src). rewrite write_at_in by (rewrite ?len_app; lia). f_equal.
    rewrite patch_app_r by (rewrite ?len_app; lia). rewrite patch_app_l by lia. do 2 f_equal. f_equal. lia. }
  assert (∀ x o e, len x = len r → 0 <= o → o <= e → e <= len r →
    index_range (pre ++ x ++ post) (len pre + o) (len pre + e) = Ok (sub x o e)) as Hi.
  { intros x o e Hx ???. unfold index_range. replace (len pre + e) with (len pre + o + (e - o)) by lia. rewrite get_range_at by lia.
    cbn. do 2 f_equal. lia. }
  unfold metadata_step. rewrite (proj2 (Z.ltb_lt _ _)) by done. rewrite (proj2 (Z.ltb_ge _ _)) by (rewrite !len_app; lia).
  cbn [bail_if mbind outcome_bind]. pose proof (Hi r 0 4) as Hi0. rewrite Z.add_0_r in Hi0. rewrite Hi0 by lia. clear Hi0.
  cbn [mbind outcome_bind]. rewrite bool_decide_eq_true_2 by (by apply record_signature). cbn [negb bail_if mbind outcome_bind].
  rewrite Hw by (rewrite ?len_cons, ?len_nil; lia). cbn [mbind outcome_bind].
  rewrite Hw by (rewrite ?len_to_le, ?len_patch; rewrite ?len_cons, ?len_nil; lia). cbn [mbind outcome_bind].
  change (patch (patch r 5 [byte_of 0]) 38 (to_le 4 0)) with (nuget_record r).
  rewrite (Hi _ 28), (Hi _ 30), (Hi _ 32) by (by apply len_nuget_record || lia). cbn [mbind outcome_bind].
  change (from_le (sub (nuget_record r) 28 30)) with (fld 2 (nuget_record r) 28).
  change (from_le (sub (nuget_record r) 30 32)) with (fld 2 (nuget_record r) 30).
  change (from_le (sub (nuget_record r) 32 34)) with (fld 2 (nuget_record r) 32).
  rewrite !fld_nuget_record by (done || lia). unfold checked_add64.
  replace (len pre + (46 + fld 2 r 28 + fld 2 r 30 + fld 2 r 32)) with (len pre + len r) by lia.
  rewrite (proj2 (Z.ltb_lt _ _)) by lia. cbn [ok_or mbind outcome_bind]. rewrite <-app_assoc, len_app, len_nuget_record by done. done.
Qed.
Lemma metadata_records pre recs post fuel : Forall cd_record recs → len pre + len (concat recs) < U64 → (length recs < fuel)%nat →
  loop (metadata_step (len pre + len (concat recs))) fuel (pre ++ concat recs ++ post, len pre) =
  Some (Ok (pre ++ concat (nuget_record <$> recs) ++ post, len pre + len (concat recs))).
Proof.
  intros Hrecs. revert pre fuel. induction Hrecs as [|r recs Hr Hrecs IH]; intros pre fuel Hb Hf.
  - destruct fuel as [|fuel]; [cbn in Hf; lia|]. cbn [loop]. unfold metadata_step.
    change (concat []) with (@nil byte). rewrite len_nil, Z.add_0_r, Z.ltb_irrefl. done.
  - destruct fuel as [|fuel]; [cbn in Hf; lia|]. cbn [loop]. change (concat (r :: recs)) with (r ++ concat recs) in *.
    rewrite len_app in *. pose proof (len_nonneg (concat recs)). pose proof Hr as (? & _).
    rewrite <-app_assoc, metadata_one by (done || lia).
    specialize (IH (pre ++ nuget_record r) fuel). rewrite len_app, len_nuget_record in IH by done.
    replace (len pre + (len r + len (concat recs))) with (len pre + len r + len (concat recs)) by lia.
    rewrite len_app, len_nuget_record by done. rewrite IH by (cbn in Hf; lia). cbn. by rewrite <-!app_assoc.
Qed.

Lemma len_records_le recs : Forall cd_record recs → len recs <= len (concat recs).
Proof.
  induction 1 as [|r recs (Hr & _) _ IH]; [done|]. change (concat (r :: recs)) with (r ++ concat recs). rewrite len_app, len_cons. lia.
Qed.
Lemma normalize_plain_archive body recs : plain_archive body recs [] →
  normalize_nuget_zip_metadata (archive body recs []) = Ok (archive body (nuget_record <$> recs) []).
Proof.
  intros (Hn & Hcd & Hb & _ & Hwf & Hfound). pose proof (len_nonneg body). pose proof (len_nonneg (concat recs)). pose proof (len_nonneg recs).
  pose proof (len_archive body recs []) as Hl. rewrite len_nil in Hl. unfold normalize_nuget_zip_metadata. rewrite Hfound.
  cbn [ok_or mbind outcome_bind]. rewrite (proj2 (Z.ltb_ge _ _)) by lia. cbn [bail_if mbind outcome_bind].
  set (e := end_record (len recs) (len (concat recs)) (len body) []). assert (len e = 22) as He by by apply len_end_record.
  assert (∀ a b, 0 <= a → a <= b → b <= 22 →
    index_range (archive body recs []) (len body + len (concat recs) + a) (len body + len (concat recs) + b) = Ok (sub e a b)) as Hi.
  { intros a b ???. destruct (archive_end body recs []) as (front & -> & _ & Hf). fold e. rewrite <-Hf. rewrite <-(app_nil_r e) at 1.
    unfold index_range. replace (len front + b) with (len front + a + (b - a)) by lia. rewrite get_range_at by lia. cbn. do 2 f_equal. lia. }
  rewrite !Hi by lia. cbn [mbind outcome_bind].
  change (from_le (sub e 12 16)) with (fld 4 e 12). change (from_le (sub e 16 20)) with (fld 4 e 16).
  unfold e. rewrite (end_record_fld _ _ _ _ 5 4 4 (len (concat recs)) 12), (end_record_fld _ _ _ _ 6 4 4 (len body) 16) by (done || lia).
  unfold checked_add64. rewrite (proj2 (Z.ltb_lt _ _)) by lia. cbn [ok_or mbind outcome_bind]. rewrite (proj2 (Z.ltb_ge _ _)) by lia.
  cbn [bail_if mbind outcome_bind]. unfold archive at 2. rewrite metadata_records; [|done|lia|].
  - cbn [default from_option mbind outcome_bind id]. rewrite Z.eqb_refl. cbn [negb bail_if mbind outcome_bind]. unfold archive.
    rewrite len_concat_nuget by done. f_equal. do 2 f_equal. unfold len. by rewrite length_fmap.
  - pose proof (len_records_le recs Hwf). unfold len in *. lia.
Qed.

Lemma metadata_step_len cd_end bs pos s : metadata_step cd_end (bs, pos) = inl s → len (fst s) = len bs.
Proof.
  unfold metadata_step. destruct (_ <? _); [|done]. case_match eqn:Er; [|done..]. intros [= <-]. revert Er. clear. intros Hr.
  apply bail_bind_Ok in Hr as [_ Hr]. apply bind_Ok in Hr as (sig & _ & Hr). apply bail_bind_Ok in Hr as [_ Hr].
  apply bind_Ok in Hr as (b1 & (? & ? & ->)%write_at_Ok & Hr). apply bind_Ok in Hr as (b2 & (? & ? & ->)%write_at_Ok & Hr).
  do 4 (apply bind_Ok in Hr as (? & _ & Hr)). injection Hr as <-. cbn [fst]. by rewrite !len_patch.
Qed.
Lemma normalize_len bs bs' : normalize_nuget_zip_metadata bs = Ok bs' → len bs' = len bs.
Proof.
  unfold normalize_nuget_zip_metadata. intros (eocd & _ & Hr)%bind_Ok. apply bail_bind_Ok in Hr as [_ Hr].
  apply bind_Ok in Hr as (size & _ & Hr). apply bind_Ok in Hr as (offset & _ & Hr). apply bind_Ok in Hr as (cd_end & _ & Hr).
  apply bail_bind_Ok in Hr as [_ Hr]. apply bind_Ok in Hr as ([bs1 pos] & Hl & Hr). apply bail_bind_Ok in Hr as [_ [= <-]].
  destruct (loop _ _ _) as [r|] eqn:El; [|done]. cbn in Hl. subst r. cbn [fst].
  refine (loop_inv _ (λ s, len (fst s) = len bs) (λ r, ∀ s, r = Ok s → len (fst s) = len bs) _ _ _ _ _ _ El _ eq_refl); [| |done].
  - intros [b p] s' Hb Hs. apply metadata_step_len in Hs. by rewrite Hs.
  - intros [b p] r Hb. unfold metadata_step. destruct (_ <? _); [|by intros [= <-] s [= <-]]. case_match; [done|by intros [= <-]..].
Qed.

(** ** Copying a package *)

Section Copying.
Context `{ZipLaws}.
(** What every entry of a copied package is. *)
Definition unsigned_entry (e : WrittenEntry) : Prop :=
  (w_name e ≠ PACKAGE_SIGNATURE_FILE_NAME ∧ scalars (w_name e)) ∧ normalize_zip_part_name (w_name e) = Ok (w_name e) ∧
  w_dir e = is_directory_name (w_name e) ∧ (w_dir e = true → w_data e = []).
(** Entries that are written alike. *)
Definition alike (e e' : WrittenEntry) : Prop :=
  w_name e' = w_name e ∧ w_dir e' = w_dir e ∧ w_data e' = w_data e ∧
  ∀ offset, local e' offset = local e offset ∧ central e' offset = central e offset.
Lemma normalize_zip_part_name_Ok name name' : normalize_zip_part_name name = Ok name' → name' = name.
Proof. unfold normalize_zip_part_name. intros Hn. by inv_ok Hn. Qed.
Lemma copy_forward overwrite files w had w' had' : (∀ file, Ok file ∈ files → scalars (zf_name file)) → copy_without_signature overwrite files w had = Ok (w', had') →
  ∃ es, put_all w es = Ok w' ∧ Forall unsigned_entry es ∧ len es <= len files.
Proof.
  intros Hsc. revert w had. induction files as [|r files IH]; intros w had; cbn [copy_without_signature].
  { intros [= <- <-]. by exists []. }
  intros (file & Hr%with_context_Ok & (name & Hn & Hr')%bind_Ok)%bind_Ok. subst r. rename Hr' into Hr.
  pose proof (normalize_zip_part_name_Ok _ _ Hn) as ->. specialize (IH (λ f Hf, Hsc f (list_elem_of_further _ _ _ Hf))).
  destruct (bool_decide _) eqn:Es.
  { destruct overwrite; [|done]. apply IH in Hr as (es & ? & ? & ?). exists es. rewrite len_cons. split_and!; [done..|lia]. }
  apply bool_decide_eq_false in Es. apply bind_Ok in Hr as (w1 & Hw & Hr).
  apply copy_entry_put in Hw as (e & (He1 & He2 & _ & He4) & Hput). apply IH in Hr as (es & Hes & Hall & Hlen).
  exists (e :: es). cbn [put_all]. rewrite Hput, !len_cons. split_and!; [done| |lia]. constructor; [|done].
  unfold unsigned_entry. rewrite He1. split_and!; [done|apply Hsc; by left|done|done|]. intros Hd. by rewrite Hd in He4.
Qed.
Lemma copy_back overwrite files es : Forall unsigned_entry es →
  Forall2 (λ r e, ∃ file, r = Ok file ∧ rereads local central file e) files es →
  ∃ es', Forall2 alike es es' ∧ ∀ w had, copy_without_signature overwrite files w had = (w' ← put_all w es'; Ok (w', had)).
Proof.
  intros Hes Hf. revert Hes. induction Hf as [|r e files es (file & -> & Hn & Hd & Hl) Hf IH]; intros Hes.
  { exists []. by split. }
  apply Forall_cons in Hes as [([Hu1 _] & Hu2 & Hu3 & _) Hes]. destruct (IH Hes) as (es' & Ha & Hc).
  set (e' := mk_written (w_name e) (w_dir e) (mk_options (zf_compression file) (last_modified file)) (w_data e)).
  exists (e' :: es'). split; [constructor; [by split_and!|done]|]. intros w had.
  cbn [copy_without_signature with_context mbind outcome_bind put_all]. rewrite Hn, Hu2. cbn [mbind outcome_bind].
  rewrite bool_decide_eq_false_2 by done. replace (copy_entry _ _ _ _) with (put w e').
  - destruct (put w e') as [w1| |]; [|done..]. cbn [mbind outcome_bind]. apply Hc.
  - unfold copy_entry, put, write_file, e'. cbn [w_dir w_name w_options w_data]. rewrite Hn, <-Hu3.
    destruct (w_dir e); [done|]. rewrite Hd by done. by destruct (start_file _ _ _).
Qed.
Lemma alike_layout es es' offset : Forall2 alike es es' →
  locals local offset es' = locals local offset es ∧ centrals local central offset es' = centrals local central offset es.
Proof.
  intros Ha. revert offset. induction Ha as [|e e' es es' (_ & _ & _ & He) Ha IH]; intros offset; [done|].
  cbn [locals centrals]. destruct (He offset) as [-> ->]. by destruct (IH (offset + len (local e offset))) as [-> ->].
Qed.
Lemma same_nuget_records recs : Forall cd_record recs → Forall2 same_record recs (nuget_record <$> recs).
Proof.
  induction 1 as [|r recs Hr _ IH]; constructor; [|done]. split; [by apply len_nuget_record|].
  intros o n ??? Hor. apply sub_nuget_record; [done..|]. lia.
Qed.
Lemma unsigned_writable es : Forall unsigned_entry es → Forall writable es.
Proof.
  intros Hes. eapply Forall_impl; [exact Hes|]. intros e (_ & _ & Hd & Hdata) Hdir. split; [by rewrite <-Hd|by apply Hdata].
Qed.
(** What the package is after the copy. *)
Lemma canonical_package package input unsigned : canonical_unsigned_package_bytes package = Ok unsigned →
  zip_archive_new package = Ok input → small_zip (len (by_index input)) (len unsigned) →
  ∃ es, Forall unsigned_entry es ∧ len es <= len (by_index input) ∧
    unsigned = archive (locals local 0 es) (nuget_record <$> centrals local central 0 es) [] ∧
    ∃ a, zip_archive_new unsigned = Ok a ∧ reads_back local central a es.
Proof.
  unfold canonical_unsigned_package_bytes, write_package_without_signature. intros Hc Hi [Hn Hs]. rewrite Hi in Hc.
  cbn [with_context mbind outcome_bind] in Hc. apply bind_Ok in Hc as ([w had] & Hw & Hr). cbn [andb bail_if mbind outcome_bind] in Hr.
  apply bind_Ok in Hr as (bs & Hbs & Hnorm). apply copy_forward in Hw as (es & Hes & Hall & Hle); [|by intros file; apply (zip_names package)].
  exists es. assert (write_zip es = Ok bs) as Hz by (unfold write_zip; rewrite Hes; done).
  assert (small_zip (len es) (len bs)) as Hsm by (split; [lia|by rewrite <-(normalize_len _ _ Hnorm)]).
  pose proof (unsigned_writable es Hall) as Hwr. destruct (write_lays_out es bs Hz Hwr Hsm) as (-> & Hwf & Hdir).
  rewrite normalize_plain_archive in Hnorm; [|apply small_plain; [done|]].
  2:{ replace (len (centrals local central 0 es)) with (len es); [done|]. unfold len. by rewrite length_written_centrals. }
  apply Ok_inj in Hnorm as <-. split_and!; [done..|].
  by apply (write_reads_back es _ _ Hz Hwr Hsm), same_nuget_records.
Qed.
End Copying.

(** ** The signed package *)

Lemma rposition_end front front' e k : len front' = len front → len front <= k →
  rposition (front ++ e) EOCD_BYTES = Some k → rposition (front' ++ e) EOCD_BYTES = Some k.
Proof.
  unfold rposition. intros Hl Hk [Ho Hno]%rfind_Some. apply rfind_Some. rewrite fmap_app in *.
  assert (∀ j, k <= j → occurs ((u8 <$> front') ++ (u8 <$> e)) (u8 <$> EOCD_BYTES) j ↔
    occurs ((u8 <$> front) ++ (u8 <$> e)) (u8 <$> EOCD_BYTES) j) as Hj.
  { intros j ?. rewrite !occurs_after by (rewrite ?len_fmap; lia). by rewrite !len_fmap, Hl. }
  split; [by apply Hj; [lia|]|]. intros j ? Hoj. apply (Hno j); [done|]. apply Hj; [lia|done].
Qed.
Lemma nuget_plain body recs comment : plain_archive body recs comment → plain_archive body (nuget_record <$> recs) comment.
Proof.
  intros (Hn & Hcd & Hb & Hc & Hwf & Hfound). unfold plain_archive. rewrite len_fmap, len_concat_nuget by done. split_and!; [done..| |].
  - apply Forall_fmap. eapply Forall_impl; [exact Hwf|]. intros r Hr. by apply nuget_record_wf.
  - unfold archive in *. rewrite app_assoc in *. rewrite len_fmap, len_concat_nuget by done.
    apply (rposition_end (body ++ concat recs)); [..|done].
    + by rewrite !len_app, len_concat_nuget.
    + rewrite len_app. lia.
Qed.
Section Signed.
Context `{ZipLaws}.
Lemma directory_of_app o es es' recs recs' : length es = length recs →
  directory_of local o (es ++ es') (recs ++ recs') ↔
  directory_of local o es recs ∧ directory_of local (o + len (locals local o es)) es' recs'.
Proof.
  revert o recs. induction es as [|e es IH]; intros o [|r recs] Hl; cbn in Hl; [|done..|].
  - cbn [app directory_of locals]. rewrite len_nil, Z.add_0_r. tauto.
  - cbn [app directory_of locals]. rewrite IH by lia. rewrite len_app, Z.add_assoc. tauto.
Qed.
Lemma record_named r name : cd_record r → record_name r = encode_utf8 name → scalars name → name ≠ PACKAGE_SIGNATURE_FILE_NAME →
  record_name (nuget_record r) ≠ encode_utf8 PACKAGE_SIGNATURE_FILE_NAME.
Proof.
  intros Hr Hn Hs Hne Heq. apply Hne. rewrite nuget_record_name, Hn in Heq by done. apply (f_equal from_utf8) in Heq.
  rewrite !from_utf8_encode in Heq; [congruence| |done]. by apply (bool_decide_unpack _); vm_compute.
Qed.
Lemma fld_offset r : cd_record r → fld 4 (nuget_record r) 42 = fld 4 r 42.
Proof. intros Hr. pose proof Hr as (? & _). apply fld_nuget_record; done || lia. Qed.
Lemma directory_ok o es recs : directory_of local o es recs → Forall cd_record recs → Forall unsigned_entry es →
  records_ok (o + len (locals local o es)) (nuget_record <$> recs).
Proof.
  intros Hd Hwf Hes. revert o es Hd Hes. induction Hwf as [|r recs Hr Hwf IH]; intros o [|e es] Hd Hes; cbn in Hd; [by constructor|done..|].
  destruct Hd as (Hn & Ho & Hd). apply Forall_cons in Hes as [([Hu1 Hu2] & _) Hes]. cbn [locals]. rewrite len_app, Z.add_assoc.
  pose proof (local_length e o). pose proof (len_nonneg (locals local (o + len (local e o)) es)).
  constructor; [|by apply IH]. split_and!; [by apply nuget_record_wf|by eapply record_named|]. rewrite fld_offset by done. lia.
Qed.
Lemma alike_unsigned es es' : Forall2 alike es es' → Forall unsigned_entry es → Forall unsigned_entry es'.
Proof.
  induction 1 as [|e e' es es' (Hn & Hd & Hda & _) _ IH]; [done|]. intros [He Hes]%Forall_cons. constructor; [|by apply IH].
  unfold unsigned_entry in *. by rewrite Hn, Hd, Hda.
Qed.
(** Embedding a signature in a canonical package appends its entry. *)
Lemma embedded es dt p7 out unsigned : Forall unsigned_entry es →
  (∃ a, zip_archive_new unsigned = Ok a ∧ reads_back local central a es) →
  embed_signature dt unsigned p7 false = Ok out → small_zip (len es + 1) (len out) →
  ∃ es' s, let L := locals local 0 es' in let C := centrals local central 0 es' in
    Forall unsigned_entry es' ∧ L = locals local 0 es ∧ C = centrals local central 0 es ∧
    w_name s = PACKAGE_SIGNATURE_FILE_NAME ∧ w_dir s = false ∧ w_data s = p7 ∧
    out = archive (L ++ local s (len L)) (nuget_record <$> C ++ [central s (len L)]) [] ∧
    Forall cd_record (C ++ [central s (len L)]) ∧ directory_of local 0 (es' ++ [s]) (C ++ [central s (len L)]) ∧
    small_zip (len (C ++ [central s (len L)])) (len out) ∧ ∃ a, zip_archive_new out = Ok a ∧ reads_back local central a (es' ++ [s]).
Proof.
  intros Hes (a & Ha & Hback & Hby) He Hsm. unfold embed_signature in He. apply bail_bind_Ok in He as [Hp7 He].
  rewrite Ha in He. cbn [with_context mbind outcome_bind] in He. apply bind_Ok in He as (time & _ & He).
  destruct (copy_back false _ _ Hes Hback) as (es' & Halike & Hcopy). rewrite Hcopy in He. set (s := mk_written PACKAGE_SIGNATURE_FILE_NAME false (mk_options Stored time) p7).
  pose proof (alike_unsigned _ _ Halike Hes) as Hes'. pose proof (Forall2_length _ _ _ Halike) as Hlen.
  apply bind_Ok in He as ([w had] & Hw & He). apply bind_Ok in Hw as (w0 & Hw0 & [= <- <-]). cbn [negb orb] in He.
  apply bind_Ok in He as (w1 & Hw1 & He). apply bind_Ok in He as (bs & Hbs & Hnorm).
  assert (write_zip (es' ++ [s]) = Ok bs) as Hz.
  { unfold write_zip. rewrite put_all_app, Hw0. cbn [mbind outcome_bind put_all]. unfold put at 1. cbn [w_dir w_name w_options w_data s].
    rewrite Hw1. done. }
  assert (Forall writable (es' ++ [s])) as Hwr by (apply Forall_app_2; [by apply unsigned_writable|by repeat constructor]).
  assert (len (es' ++ [s]) = len es + 1) as Hlen' by (rewrite len_app, len_cons, len_nil; unfold len; lia).
  assert (small_zip (len (es' ++ [s])) (len bs)) as Hsm' by (by rewrite Hlen', <-(normalize_len _ _ Hnorm)).
  destruct (write_lays_out _ bs Hz Hwr Hsm') as (Hout & Hwf & Hdir).
  pose proof (write_reads_back _ bs _ Hz Hwr Hsm' (same_nuget_records _ Hwf)) as Hre.
  rewrite written_locals_app in Hout, Hre. rewrite written_centrals_app in Hout, Hwf, Hdir, Hre. destruct (alike_layout _ _ 0 Halike) as [HL HC].
  cbn [locals centrals] in Hout, Hwf, Hdir, Hre. rewrite app_nil_r in Hout, Hre. rewrite Z.add_0_l in Hout, Hwf, Hdir, Hre.
  set (L := locals local 0 es') in *. set (C := centrals local central 0 es') in *.
  assert (len (C ++ [central s (len L)]) = len (es' ++ [s])) as HCl.
  { unfold C, len. by rewrite !length_app, length_written_centrals. }
  assert (plain_archive (L ++ local s (len L)) (C ++ [central s (len L)]) []) as Hpl
    by (apply small_plain; [done|]; by rewrite <-Hout, HCl).
  rewrite Hout, normalize_plain_archive in Hnorm by done.
  apply Ok_inj in Hnorm as <-. exists es', s. split_and!; try done. fold L C. by rewrite HCl, Hlen'.
Qed.
Lemma embedded_nonempty dt unsigned p7 out : embed_signature dt unsigned p7 false = Ok out → p7 ≠ [].
Proof. unfold embed_signature. by intros [Hp%bool_decide_eq_false _]%bail_bind_Ok. Qed.
(** The cut of what was embedded gives the package before. *)
Lemma cut_embedded es s out : let L := locals local 0 es in let C := centrals local central 0 es in
  Forall unsigned_entry es → w_name s = PACKAGE_SIGNATURE_FILE_NAME →
  out = archive (L ++ local s (len L)) (nuget_record <$> C ++ [central s (len L)]) [] →
  Forall cd_record (C ++ [central s (len L)]) → directory_of local 0 (es ++ [s]) (C ++ [central s (len L)]) →
  small_zip (len (C ++ [central s (len L)])) (len out) →
  signed_package_unsigned_bytes out = Ok (archive L (nuget_record <$> C) []).
Proof.
  intros L C Hes Hname -> Hwf Hd Hsz. apply directory_of_app in Hd as [Hd1 (Hn & Ho & _)]; [|by unfold C; rewrite length_written_centrals].
  pose proof Hwf as [Hwf1 Hwf2]%Forall_app. apply Forall_inv in Hwf2. rewrite fmap_app. apply cut_restores.
  - replace ((nuget_record <$> C) ++ [nuget_record (central s (len L))]) with (nuget_record <$> C ++ [central s (len L)]) by by rewrite fmap_app.
    apply small_plain; [|by rewrite len_fmap]. apply Forall_fmap. eapply Forall_impl; [exact Hwf|]. intros r Hr. by apply nuget_record_wf.
  - by apply (directory_ok 0 es).
  - split; [by apply nuget_record_wf|]. split; [by rewrite nuget_record_name, Hn, Hname|]. by rewrite fld_offset, Ho.
Qed.
Lemma extract_embedded es s out p7 : Forall unsigned_entry es → w_name s = PACKAGE_SIGNATURE_FILE_NAME → w_dir s = false →
  w_data s = p7 → p7 ≠ [] → (∃ a, zip_archive_new out = Ok a ∧ reads_back local central a (es ++ [s])) → extract_signature out = Ok p7.
Proof.
  intros Hes Hname Hdir <- Hne (a & Ha & _ & Hby). unfold extract_signature. rewrite Ha. cbn [with_context mbind outcome_bind].
  destruct (Hby s) as (file & Hf & _ & Hr & _); [apply elem_of_app; right; by left| |].
  - intros e [He|He%list_elem_of_singleton]%elem_of_app Hn; [|done]. apply (proj1 (Forall_forall _ _) Hes) in He as ([Hu _] & _).
    by rewrite Hname in Hn.
  - rewrite Hname in Hf. rewrite Hf. cbn [with_context mbind outcome_bind]. rewrite Hr by done. cbn [with_context mbind outcome_bind].
    by rewrite bool_decide_eq_false_2.
Qed.
End Signed.

Section SignVerify.
Context `{Base64} `{DigestOracle} `{ZipLaws}.
Lemma nuget_hash_length alg bs : digest_for_length (len (nuget_hash alg bs)) bs = Ok (nuget_hash alg bs) ∧ nuget_hash alg bs ≠ [].
Proof.
  unfold nuget_hash, digest_for_length. assert (∀ kind, digest kind bs = [] → len (digest kind bs) = 0) as Hn by (by intros ? ->).
  split; [by destruct alg; rewrite digest_len|]. intros Hd. apply Hn in Hd. by destruct alg; rewrite digest_len in Hd.
Qed.
(** C27: A package that was signed is verified: its signature is read back, the
    bytes it covers are those of the package that was signed, and the content
    and the message digest of the signature agree with them.  Packages have less
    than 80 MiB and 19279 entries; the CMS made, time stamped or not, holds the
    content and its digest. *)
Theorem nuget_sign_then_verify {Provider} dt (load : outcome Provider) create timestamp parse data alg input unsigned out :
  zip_archive_new data = Ok input → canonical_unsigned_package_bytes data = Ok unsigned →
  sign_nuget dt load create timestamp (Ok data) alg = Ok out →
  small_zip (len (by_index input) + 1) (len out) → len unsigned <= len out →
  (∀ provider content p7 p7', create provider content alg = Ok p7 → timestamp p7 = Ok p7' →
    ∃ digests, parse p7' = Ok (mk_cms (Ok (nuget_hash alg content) :: digests) (Some (Ok content)))) →
  ∃ p7, extract_signature out = Ok p7 ∧ signed_package_unsigned_bytes out = Ok unsigned ∧
    let content := signature_content_bytes alg (nuget_hash alg unsigned) in
    nuget_verified_signature_content parse out p7 = Ok (content, nuget_hash alg content).
Proof.
  intros Hi Hu Hs Hsm Hle Hcms. unfold sign_nuget in Hs. cbn [with_context mbind outcome_bind] in Hs.
  apply bind_Ok in Hs as (provider & _ & Hs). rewrite Hu in Hs. cbn [with_context mbind outcome_bind] in Hs.
  apply bind_Ok in Hs as (p7 & Hp7%with_context_Ok & Hs). apply bind_Ok in Hs as (p7' & Hp7'%with_context_Ok & He%with_context_Ok).
  destruct (Hcms _ _ _ _ Hp7 Hp7') as (digests & Hparse). exists p7'. pose proof Hsm as [Hn Hb].
  destruct (canonical_package _ _ _ Hu Hi) as (es & Hes & Hel & Hunsigned & Hback); [split; lia|].
  pose proof (embedded_nonempty _ _ _ _ He) as Hne.
  assert (signed_package_unsigned_bytes out = Ok unsigned ∧ extract_signature out = Ok p7') as [Hcut Hex].
  { destruct (embedded es _ _ _ _ Hes Hback He) as (es' & s & Hes' & HL & HC & Hname & Hdir & Hdata & Hout & Hwf & Hd & Hsz & Hre); [split; lia|].
    split; [rewrite Hunsigned, <-HL, <-HC; by eapply cut_embedded|by eapply extract_embedded]. }
  split; [done|]. split; [done|]. cbn zeta. unfold nuget_verified_signature_content. rewrite Hparse.
  cbn [with_context mbind outcome_bind message_digests econtent head ok_or]. rewrite Hcut. cbn [mbind outcome_bind].
  pose proof (nuget_hash_length alg unsigned) as [_ Hh]. rewrite parse_written by done. cbn [mbind outcome_bind hash_algorithm package_hash].
  rewrite bool_decide_eq_true_2 by done. cbn [negb bail_if mbind outcome_bind].
  destruct (nuget_hash_length alg (signature_content_bytes alg (nuget_hash alg unsigned))) as [-> _]. cbn [mbind outcome_bind].
  by rewrite bool_decide_eq_true_2.
Qed.
End SignVerify.

(** ** Instances *)

From S2P Require Import AppxZip.
From S2P Require Import ZipStored.

#[local] Existing Instance StdBase64.
#[local] Existing Instance ToyDigest.
Definition toy_options : FileOptions := mk_options Stored (mk_datetime 1980 1 1 0 0 0).
Definition toy_entries : list WrittenEntry :=
  [mk_written (chars "a/") true toy_options []; mk_written (chars "a/b") false toy_options (lit "data")].
Definition toy_signature : WrittenEntry := mk_written PACKAGE_SIGNATURE_FILE_NAME false toy_options (lit "p7s").
Definition toy_body : bytes := locals stored_local 0 toy_entries.
Definition toy_records : list bytes := ZipWrite.centrals stored_local stored_central 0 toy_entries.
Definition toy_record (offset : Z) : bytes := stored_central toy_signature offset.
Lemma toy_records_ok offset : len toy_body <= offset → records_ok offset toy_records.
Proof.
  intros Ho. unfold records_ok. eapply Forall_impl.
  - assert (Forall (λ r, (46 <= len r ∧ fld 4 r 0 = CD_SIG ∧ len r = 46 + fld 2 r 28 + fld 2 r 30 + fld 2 r 32) ∧
      record_name r ≠ encode_utf8 PACKAGE_SIGNATURE_FILE_NAME ∧ fld 4 r 42 < len toy_body) toy_records) as Hr
      by (apply (bool_decide_unpack _); by vm_compute). exact Hr.
  - intros r (? & ? & ?). by split_and!; [..|lia].
Qed.
Lemma toy_record_ok offset : 0 <= offset < U32_MAX → signature_record (toy_record offset) offset.
Proof.
  intros Ho. split; [by apply central_cd_record; [split_and!; [by left|..]|]|]. split; [by vm_compute|].
  apply (central_fld _ _ 16 4 4 offset 42); unfold U32_MAX in *; done || lia.
Qed.
Lemma toy_plain body offset : 0 <= offset < U32_MAX → len body < 1000 → plain_archive body (toy_records ++ [toy_record offset]) [].
Proof.
  intros Ho Hb. apply small_plain.
  - apply Forall_app_2; [|constructor; [apply (toy_record_ok offset Ho)|done]].
    eapply Forall_impl; [by apply (toy_records_ok (len toy_body))|]. by intros r [? _].
  - split; [done|]. rewrite len_archive, concat_app, len_app. change (len (concat toy_records)) with 97. change (len []) with 0.
    change (len (concat [toy_record offset])) with 60. lia.
Qed.
Lemma signature_cut_out_witness :
  signed_package_unsigned_bytes (archive toy_body (toy_records ++ [toy_record (len toy_body)]) []) = Ok (archive toy_body toy_records []) ∧
  signed_package_unsigned_bytes (archive toy_body (toy_records ++ [toy_record 70000]) []) = Panic.
Proof.
  split.
  - etransitivity; [apply (signature_cut_out toy_body toy_records (toy_record (len toy_body)) [] (len toy_body))|by vm_compute].
    + by apply toy_plain.
    + by apply toy_records_ok.
    + by apply toy_record_ok.
  - etransitivity; [apply (signature_cut_out toy_body toy_records (toy_record 70000) [] 70000)|by vm_compute].
    + by apply toy_plain.
    + by apply toy_records_ok.
    + by apply toy_record_ok.
Defined.
(** A signer whose CMS is the content itself. *)
Definition toy_package : bytes := archive toy_body toy_records [].
Definition toy_create (_ : unit) (content : bytes) (_ : NuGetHashAlgorithm) : outcome bytes := Ok content.
Definition toy_parse (p7 : bytes) : outcome NuGetCms := Ok (mk_cms [Ok (nuget_hash NuGetSha256 p7)] (Some (Ok p7))).
Definition toy_sign : outcome bytes :=
  sign_nuget (Ok (mk_datetime 2024 1 1 0 0 0)) (Ok tt) toy_create Ok (Ok toy_package) NuGetSha256.
Definition toy_out : bytes := default [] (ok_opt toy_sign).
Definition toy_canonical : bytes := default [] (ok_opt (canonical_unsigned_package_bytes toy_package)).
Definition toy_input : ZipArchive := stored_archive (stored_files toy_package 2 (len toy_body)).
Lemma nuget_sign_then_verify_witness :
  toy_sign = Ok toy_out ∧ ∃ p7, extract_signature toy_out = Ok p7 ∧ signed_package_unsigned_bytes toy_out = Ok toy_canonical ∧
    let content := signature_content_bytes NuGetSha256 (nuget_hash NuGetSha256 toy_canonical) in
    nuget_verified_signature_content toy_parse toy_out p7 = Ok (content, nuget_hash NuGetSha256 content).
Proof.
  split; [by vm_compute|].
  apply (nuget_sign_then_verify (Ok (mk_datetime 2024 1 1 0 0 0)) (Ok tt) toy_create Ok toy_parse toy_package NuGetSha256 toy_input).
  - by vm_compute.
  - by vm_compute.
  - by vm_compute.
  - split; by vm_compute.
  - by vm_compute.
  - intros provider content p7 p7' [= <-] [= <-]. by exists [].
Defined.
