(* ===== verification/CodePattern.v ===== *)
(** Patterns of the code command: braces, escapes and globs of
    [src/code.rs].

    Positions in a pattern are character indices here: every slice the code
    takes starts and ends at a brace.  Globs compare UTF-8 bytes, as the code
    does. *)

From stdpp Require Import gmap.
From S2P Require Import Prelude.
From S2P Require Import RustStr.

(** ** Escapes *)

Fixpoint unescape_pattern (input : str) : outcome str :=
  match input with
  | [] => Ok []
  | ch :: rest =>
      if ch =? 92 then
        match rest with
        | [] => Err "trailing escape"
        | next :: rest' =>
            out ← unescape_pattern rest';
            if bool_decide (next ∈ chars "!{}\") then Ok (next :: out) else Ok (92 :: next :: out)
        end
      else out ← unescape_pattern rest; Ok (ch :: out)
  end.

(** ** Braces *)

(** The first pair of braces at depth zero: where it opens and closes. *)
Fixpoint first_brace_from (s : str) (idx : Z) (start : option Z) (depth : Z) (escaped : bool) : outcome (option (Z * Z)) :=
  match s with
  | [] => if depth =? 0 then Ok None else Err "unmatched opening brace in pattern: {pattern}"
  | ch :: s' =>
      if escaped then first_brace_from s' (idx + 1) start depth false
      else if ch =? 92 then first_brace_from s' (idx + 1) start depth true
      else if ch =? 123 then
        first_brace_from s' (idx + 1) (if depth =? 0 then Some idx else start) (depth + 1) false
      else if ch =? 125 then
        bail_if (depth =? 0) "unmatched closing brace in pattern: {pattern}";;
        if depth - 1 =? 0 then st ← unwrap start; Ok (Some (st, idx))
        else first_brace_from s' (idx + 1) start (depth - 1) false
      else first_brace_from s' (idx + 1) start depth false
  end.
Definition first_brace (pattern : str) : outcome (option (Z * Z)) := first_brace_from pattern 0 None 0 false.

(** [s.split_once("..")] *)
Fixpoint split_dots (s : str) : option (str * str) :=
  match s with
  | [] => None
  | c :: s' =>
      match strip_prefix (chars "..") s with
      | Some rest => Some ([], rest)
      | None => '(a, b) ← split_dots s'; Some (c :: a, b)
      end
  end.
(** [s.parse::<i64>()] *)
Definition parse_i64 (s : str) : option Z :=
  match strip_prefix [45] s with
  | Some [] => None
  | Some digits => Z.opp <$> parse_digits (2 ^ 63 + 1) 0 digits
  | None => parse_uint (2 ^ 63) s
  end.
(** [format!("{n:0width$}")] *)
Definition padded (width : nat) (n : Z) : str :=
  let digits := decimal 20 (Z.abs n) in
  let sign := if n <? 0 then [45] else [] in
  sign ++ replicate (width - length sign - length digits) 48 ++ digits.
(** The numbers from [first] to [last], up or down. *)
Definition int_range (first last : Z) : list Z :=
  if first <=? last then seqZ first (last - first + 1) else rev (seqZ last (first - last + 1)).
Definition range_choices (body : str) : option (list str) :=
  '(start, end_) ← split_dots body;
  first ← parse_i64 start;
  last ← parse_i64 end_;
  let width := Nat.max (length start) (length end_) in
  Some ((λ n, if (1 <? width)%nat then padded width n else padded 0 n) <$> int_range first last).
(** The alternatives of a list: split at the commas outside inner braces. *)
Fixpoint list_choices (s : str) (choices : list str) (current : str) (depth : Z) : outcome (list str) :=
  match s with
  | [] => Ok (choices ++ [current])
  | ch :: s' =>
      if ch =? 123 then list_choices s' choices (current ++ [ch]) (depth + 1)
      else if ch =? 125 then
        bail_if (depth =? 0) "unmatched closing brace in {body}";;
        list_choices s' choices (current ++ [ch]) (depth - 1)
      else if (ch =? 44) && (depth =? 0) then list_choices s' (choices ++ [current]) [] depth
      else list_choices s' choices (current ++ [ch]) depth
  end.
Definition brace_choices (body : str) : outcome (list str) :=
  match range_choices body with
  | Some choices => Ok choices
  | None => list_choices body [] [] 0
  end.

(** The expansions of a list of patterns, in order. *)
Fixpoint collect_all {A B} (f : A → option (outcome (list B))) (xs : list A) : option (outcome (list B)) :=
  match xs with
  | [] => Some (Ok [])
  | x :: xs' => then_ (f x) (λ out, then_ (collect_all f xs') (λ out', Some (Ok (out ++ out'))))
  end.
Fixpoint expand_braces_fuel (fuel : nat) (pattern : str) : option (outcome (list str)) :=
  match fuel with
  | O => None
  | S fuel' =>
      then_ (Some (first_brace pattern)) (λ r,
      match r with
      | None => Some (Ok [pattern])
      | Some (start, end_) =>
          then_ (Some (before ← index_range pattern 0 start;
                       body ← index_range pattern (start + 1) end_;
                       after ← index_range pattern (end_ + 1) (len pattern);
                       choices ← brace_choices body;
                       Ok (before, after, choices))) (λ '(before, after, choices),
          collect_all (λ choice, expand_braces_fuel fuel' (before ++ choice ++ after)) choices)
      end)
  end.
(** Every round removes a pair of braces. *)
Definition opening (s : str) : nat := length (List.filter (λ c, c =? 123) s).
Definition expand_braces (pattern : str) : option (outcome (list str)) :=
  expand_braces_fuel (S (opening pattern)) pattern.

(** ** Globs *)

Definition STAR : byte := byte_of 42.
Definition QUESTION : byte := byte_of 63.
Definition SLASH : byte := byte_of 47.
Definition same_ignoring_case (a b : byte) : bool := lower (u8 a) =? lower (u8 b).

Abbreviation Memo := (gmap (nat * nat) bool).
Section Glob.
Context (pattern text : bytes).
(** [a || b] and a guard with [&&], with the table threaded through. *)
Definition or_else (r : option (outcome (bool * Memo))) (k : Memo → option (outcome (bool * Memo))) :
  option (outcome (bool * Memo)) := then_ r (λ '(b, memo), if b : bool then Some (Ok (true, memo)) else k memo).
Definition guarded (c : bool) (k : Memo → option (outcome (bool * Memo))) (memo : Memo) : option (outcome (bool * Memo)) :=
  if c then k memo else Some (Ok (false, memo)).
(** [i < l.len() && l[i] == c] *)
Definition byte_is (l : bytes) (i : nat) (c : byte) : bool := bool_decide (l !! i = Some c).
(** [i < l.len() && l[i] != c] *)
Definition byte_is_not (l : bytes) (i : nat) (c : byte) : bool :=
  match l !! i with Some b => negb (bool_decide (b = c)) | None => false end.

Fixpoint glob_match_inner (fuel : nat) (pi ti : nat) (memo : Memo) : option (outcome (bool * Memo)) :=
  match fuel with
  | O => None
  | S fuel' =>
      let inner := glob_match_inner fuel' in
      match memo !! (pi, ti) with
      | Some value => Some (Ok (value, memo))
      | None =>
          then_ (if bool_decide (pi = length pattern) then Some (Ok (bool_decide (ti = length text), memo))
                 else match pattern !! pi with
                 | None => Some Panic
                 | Some c =>
                     if bool_decide (c = STAR) then
                       if byte_is pattern (pi + 1) STAR then
                         or_else (or_else (guarded (byte_is pattern (pi + 2) SLASH) (inner (pi + 3)%nat ti) memo)
                                    (inner (pi + 2)%nat ti))
                           (guarded (bool_decide (ti < length text)%nat) (inner pi (ti + 1)%nat))
                       else
                         or_else (inner (pi + 1)%nat ti memo)
                           (guarded (byte_is_not text ti SLASH) (inner pi (ti + 1)%nat))
                     else if bool_decide (c = QUESTION) then
                       guarded (byte_is_not text ti SLASH) (inner (pi + 1)%nat (ti + 1)%nat) memo
                     else
                       guarded (match text !! ti with Some d => same_ignoring_case c d | None => false end)
                         (inner (pi + 1)%nat (ti + 1)%nat) memo
                 end) (λ '(result, memo), Some (Ok (result, <[(pi, ti) := result]> memo)))
      end
  end.
End Glob.
Definition glob_match (pattern text : str) : option (outcome bool) :=
  let p := encode_utf8 pattern in
  let t := encode_utf8 text in
  then_ (glob_match_inner p t (S (length p + length t)) 0 0 ∅) (λ '(b, _), Some (Ok b)).

(** ** The language of a glob *)

(** [*] and [?] stay within a name, [**] crosses directories; [**/] may also
    match nothing, and what follows it starts anywhere. *)
Inductive globs : bytes → bytes → Prop :=
  | globs_end : globs [] []
  | globs_byte c p d t : c ≠ STAR → c ≠ QUESTION → same_ignoring_case c d = true → globs p t → globs (c :: p) (d :: t)
  | globs_question p d t : d ≠ SLASH → globs p t → globs (QUESTION :: p) (d :: t)
  | globs_star p s t : head p ≠ Some STAR → SLASH ∉ s → globs p t → globs (STAR :: p) (s ++ t)
  | globs_globstar p s t : globs p t → globs (STAR :: STAR :: p) (s ++ t)
  | globs_directories p s t : globs p t → globs (STAR :: STAR :: SLASH :: p) (s ++ t).
#[export] Hint Constructors globs : psign.

Lemma globs_nil t : globs [] t ↔ t = [].
Proof. split; [by inversion 1|intros ->; constructor]. Qed.
Lemma globs_byte_inv c p t : c ≠ STAR → c ≠ QUESTION →
  globs (c :: p) t ↔ ∃ d t', t = d :: t' ∧ same_ignoring_case c d = true ∧ globs p t'.
Proof. intros H1 H2. split; [inversion 1; subst; naive_solver|intros (d & t' & -> & ? & ?); by constructor]. Qed.
Lemma globs_question_inv p t : globs (QUESTION :: p) t ↔ ∃ d t', t = d :: t' ∧ d ≠ SLASH ∧ globs p t'.
Proof. split; [inversion 1; subst; naive_solver|intros (d & t' & -> & ? & ?); by constructor]. Qed.
Lemma star_question : STAR ≠ QUESTION.
Proof. done. Qed.
Lemma globs_star_inv p t : head p ≠ Some STAR →
  globs (STAR :: p) t ↔ globs p t ∨ ∃ d t', t = d :: t' ∧ d ≠ SLASH ∧ globs (STAR :: p) t'.
Proof.
  intros Hp. split.
  - intros Hg. remember (STAR :: p) as q eqn:Hq. destruct Hg as [|c q d t Hc| |q [|d s] t _ Hs Hg| |];
      simplify_eq; try done; [by left|].
    right. exists d, (s ++ t). apply not_elem_of_cons in Hs as [Hd Hs]. split_and!; [done|congruence|by constructor].
  - intros [Hg|(d & t' & -> & Hd & Hg)]; [by apply (globs_star p [] t); [|apply not_elem_of_nil|]|].
    remember (STAR :: p) as q eqn:Hq. destruct Hg as [|c q d' t Hc| |q s t _ Hs Hg| |]; simplify_eq; try done.
    apply (globs_star p (d :: s)); [done| |done]. apply not_elem_of_cons. split; congruence.
Qed.
Lemma globs_globstar_inv p t :
  globs (STAR :: STAR :: p) t ↔
  ((∃ p', p = SLASH :: p' ∧ globs p' t) ∨ globs p t) ∨ ∃ d t', t = d :: t' ∧ globs (STAR :: STAR :: p) t'.
Proof.
  split.
  - intros Hg. remember (STAR :: STAR :: p) as q eqn:Hq. destruct Hg as [|c q d t Hc| |q s t Hh|q [|d s] t Hg|q [|d s] t Hg];
      simplify_eq; try done.
    + by left; right.
    + right. exists d, (s ++ t). split; [done|by constructor].
    + left; left. by exists q.
    + right. exists d, (s ++ t). split; [done|by apply globs_directories].
  - intros [[(p' & -> & Hg)|Hg]|(d & t' & -> & Hg)]; [by apply (globs_directories p' [])|by apply (globs_globstar p [])|].
    remember (STAR :: STAR :: p) as q eqn:Hq. destruct Hg as [|c q d' t Hc| |q s t Hh|q s t Hg|q s t Hg]; simplify_eq; try done;
      [apply (globs_globstar p (d :: s))|apply (globs_directories _ (d :: s))]; done.
Qed.

(** ** The matcher decides the language *)

Section Decides.
Context (pattern text : bytes).
Definition matches (pi ti : nat) : Prop := globs (drop pi pattern) (drop ti text).
(** Every answer in the table is right. *)
Definition memo_ok (memo : Memo) : Prop := ∀ pi ti b, memo !! (pi, ti) = Some b → b = true ↔ matches pi ti.
(** The answer of a call is right and so is the table after it. *)
Definition answers (P : Prop) (r : option (outcome (bool * Memo))) : Prop :=
  ∃ b memo, r = Some (Ok (b, memo)) ∧ memo_ok memo ∧ (b = true ↔ P).

Lemma or_else_answers P Q r k : answers P r → (∀ memo, memo_ok memo → answers Q (k memo)) → answers (P ∨ Q) (or_else r k).
Proof.
  intros (b & memo & -> & Hm & Hb) Hk. unfold or_else. cbn. destruct b.
  - exists true, memo. split_and!; [done..|]. tauto.
  - destruct (Hk memo Hm) as (b' & memo' & -> & Hm' & Hb'). exists b', memo'. split_and!; [done..|].
    rewrite Hb'. split; [tauto|]. intros [HP|?]; [|done]. by apply Hb in HP.
Qed.
Lemma guarded_answers (c : bool) (G P : Prop) k memo : (c = true ↔ G) → memo_ok memo → (G → ∀ memo, memo_ok memo → answers P (k memo)) →
  answers (G ∧ P) (guarded c k memo).
Proof.
  intros Hc Hm Hk. unfold guarded. destruct c.
  - destruct (Hk (proj1 Hc eq_refl) memo Hm) as (b & memo' & -> & Hm' & Hb). exists b, memo'. split_and!; [done..|]. tauto.
  - exists false, memo. split_and!; [done..|]. split; [done|]. intros [HG _]. by apply Hc in HG.
Qed.
Lemma answers_iff P Q r : (P ↔ Q) → answers P r → answers Q r.
Proof. intros HPQ (b & memo & ? & ? & ?). exists b, memo. split_and!; [done..|]. tauto. Qed.
Lemma drop_lookup_cons {A} (l : list A) i x : l !! i = Some x → drop i l = x :: drop (i + 1) l.
Proof. intros Hx. replace (i + 1)%nat with (S i) by lia. by apply drop_S. Qed.
Lemma matches_byte pi ti c : pattern !! pi = Some c → c ≠ STAR → c ≠ QUESTION →
  matches pi ti ↔ match text !! ti with Some d => same_ignoring_case c d | None => false end = true ∧ matches (pi + 1) (ti + 1).
Proof.
  intros Hc H1 H2. unfold matches. rewrite (drop_lookup_cons _ _ _ Hc), globs_byte_inv by done.
  destruct (text !! ti) as [d|] eqn:Ht.
  - rewrite (drop_lookup_cons _ _ _ Ht). naive_solver.
  - rewrite drop_ge by (by apply lookup_ge_None). naive_solver.
Qed.
Lemma byte_is_not_spec ti : byte_is_not text ti SLASH = true ↔ ∃ d, text !! ti = Some d ∧ d ≠ SLASH.
Proof. unfold byte_is_not. destruct (text !! ti) as [d|]; [|naive_solver]. rewrite negb_true_iff, bool_decide_eq_false. naive_solver. Qed.
Lemma matches_question pi ti : pattern !! pi = Some QUESTION →
  matches pi ti ↔ (∃ d, text !! ti = Some d ∧ d ≠ SLASH) ∧ matches (pi + 1) (ti + 1).
Proof.
  intros Hc. unfold matches. rewrite (drop_lookup_cons _ _ _ Hc), globs_question_inv.
  destruct (text !! ti) as [d|] eqn:Ht.
  - rewrite (drop_lookup_cons _ _ _ Ht). naive_solver.
  - rewrite drop_ge by (by apply lookup_ge_None). naive_solver.
Qed.
Lemma matches_star pi ti : pattern !! pi = Some STAR → pattern !! (pi + 1)%nat ≠ Some STAR →
  matches pi ti ↔ matches (pi + 1) ti ∨ (∃ d, text !! ti = Some d ∧ d ≠ SLASH) ∧ matches pi (ti + 1).
Proof.
  intros Hc Hn. unfold matches. rewrite (drop_lookup_cons _ _ _ Hc), globs_star_inv by (by rewrite head_lookup, lookup_drop, Nat.add_0_r).
  rewrite <- (drop_lookup_cons _ _ _ Hc). destruct (text !! ti) as [d|] eqn:Ht.
  - rewrite (drop_lookup_cons _ _ _ Ht). naive_solver.
  - rewrite (drop_ge text ti) by (by apply lookup_ge_None). naive_solver.
Qed.
Lemma matches_globstar pi ti : pattern !! pi = Some STAR → pattern !! (pi + 1)%nat = Some STAR →
  matches pi ti ↔ ((pattern !! (pi + 2)%nat = Some SLASH ∧ matches (pi + 3) ti) ∨ matches (pi + 2) ti) ∨
                  (ti < length text)%nat ∧ matches pi (ti + 1).
Proof.
  intros H1 H2. unfold matches. assert (drop pi pattern = STAR :: STAR :: drop (pi + 2) pattern) as Hp.
  { rewrite (drop_lookup_cons _ _ _ H1), (drop_lookup_cons _ _ _ H2). do 2 f_equal. f_equal. lia. }
  rewrite Hp, globs_globstar_inv, <- Hp. f_equiv; [f_equiv|].
  - replace (pi + 3)%nat with (pi + 2 + 1)%nat by lia. split.
    + intros (p' & Hd & Hg). assert (pattern !! (pi + 2)%nat = Some SLASH) as Hs
        by (by rewrite <- (Nat.add_0_r (pi + 2)), <- lookup_drop, Hd).
      split; [done|]. rewrite (drop_lookup_cons _ _ _ Hs) in Hd. by injection Hd as ->.
    + intros [Hs Hg]. exists (drop (pi + 2 + 1) pattern). split; [by apply drop_lookup_cons|done].
  - destruct (text !! ti) as [d|] eqn:Ht.
    + rewrite (drop_lookup_cons _ _ _ Ht). apply lookup_lt_Some in Ht. naive_solver.
    + apply lookup_ge_None in Ht. rewrite (drop_ge text ti) by lia. split; [naive_solver|lia].
Qed.
Lemma memo_insert memo pi ti b : memo_ok memo → (b = true ↔ matches pi ti) → memo_ok (<[(pi, ti) := b]> memo).
Proof.
  intros Hm Hb pi' ti' b'. rewrite fin_maps.lookup_insert_Some. intros [[[= <- <-] <-]|[_ Hl]]; [done|by apply Hm].
Qed.
Lemma inner_answers fuel pi ti memo : memo_ok memo → (pi <= length pattern)%nat → (ti <= length text)%nat →
  (length pattern - pi + (length text - ti) < fuel)%nat →
  answers (matches pi ti) (glob_match_inner pattern text fuel pi ti memo).
Proof.
  revert pi ti memo. induction fuel as [|fuel IH]; intros pi ti memo Hm Hp Ht Hf; [lia|]. cbn [glob_match_inner].
  destruct (memo !! (pi, ti)) as [v|] eqn:Hv; [exists v, memo; split_and!; [done..|]; by apply Hm|].
  match goal with |- answers _ (then_ ?r _) => assert (answers (matches pi ti) r) as (b & memo' & -> & Hm' & Hb) end;
    [|exists b, (<[(pi, ti):=b]> memo'); split_and!; [done|by apply memo_insert|done]].
  destruct (decide (pi = length pattern)) as [->|Hne].
  { rewrite bool_decide_eq_true_2 by done. exists (bool_decide (ti = length text)), memo. split_and!; [done..|].
    unfold matches. rewrite drop_all, globs_nil, bool_decide_eq_true. split; [intros ->; by rewrite drop_all|].
    intros Hd%(f_equal length). rewrite length_drop in Hd. cbn in Hd. lia. }
  rewrite bool_decide_eq_false_2 by done.
  destruct (lookup_lt_is_Some_2 pattern pi) as [c Hc]; [lia|]. rewrite Hc.
  assert (∀ d, text !! ti = Some d → (ti < length text)%nat) as Hlt by (intros d; by apply lookup_lt_Some).
  case_bool_decide as Hstar; [subst c; unfold byte_is at 1; case_bool_decide as Hstar2|case_bool_decide as Hq; [subst c|]].
  - eapply answers_iff; [symmetry; by apply matches_globstar|]. apply or_else_answers; [apply or_else_answers|].
    + apply guarded_answers; [apply bool_decide_eq_true|done|]. intros Hs memo1 Hm1. apply lookup_lt_Some in Hs. apply IH; lia || done.
    + intros memo1 Hm1. apply lookup_lt_Some in Hstar2. apply IH; lia || done.
    + intros memo1 Hm1. apply guarded_answers; [apply bool_decide_eq_true|done|]. intros Hl memo2 Hm2. apply IH; lia || done.
  - eapply answers_iff; [symmetry; by apply matches_star|]. apply or_else_answers; [apply IH; lia || done|].
    intros memo1 Hm1. apply guarded_answers; [apply byte_is_not_spec|done|]. intros (d & Hd%Hlt & _) memo2 Hm2. apply IH; lia || done.
  - eapply answers_iff; [symmetry; by apply matches_question|]. apply guarded_answers; [apply byte_is_not_spec|done|].
    intros (d & Hd%Hlt & _) memo2 Hm2. apply IH; lia || done.
  - eapply answers_iff; [symmetry; by apply (matches_byte pi ti c)|]. apply guarded_answers; [done|done|].
    intros Hd memo2 Hm2. apply IH; try done; [lia| |]; destruct (text !! ti) eqn:Hx; try done;
      pose proof (Hlt _ eq_refl); lia.
Qed.
End Decides.

Lemma glob_match_total pattern text : ∃ b, glob_match pattern text = Some (Ok b).
Proof.
  unfold glob_match. cbv zeta. set (p := encode_utf8 pattern). set (t := encode_utf8 text).
  destruct (inner_answers p t (S (length p + length t)) 0 0 ∅) as (b & memo & -> & _ & Hb); [|lia..|by exists b].
  intros pi ti b. by rewrite lookup_empty.
Qed.
Lemma glob_match_true pattern text :
  glob_match pattern text = Some (Ok true) ↔ globs (encode_utf8 pattern) (encode_utf8 text).
Proof.
  unfold glob_match. cbv zeta. set (p := encode_utf8 pattern). set (t := encode_utf8 text).
  destruct (inner_answers p t (S (length p + length t)) 0 0 ∅) as (b & memo & -> & _ & Hb); [|lia..|].
  - intros pi ti b. by rewrite lookup_empty.
  - cbn. unfold matches in Hb. rewrite !drop_0 in Hb. rewrite <- Hb. by destruct b.
Qed.
(** C36: The matcher with its table of earlier answers ends within the sum of
    the two lengths, never indexes out of range, and accepts exactly the texts
    in the language of the pattern. *)
Theorem glob_match_decides pattern text :
  ∃ b, glob_match pattern text = Some (Ok b) ∧ (b = true ↔ globs (encode_utf8 pattern) (encode_utf8 text)).
Proof.
  destruct (glob_match_total pattern text) as [b Hb]. exists b. split; [done|]. rewrite <- glob_match_true, Hb.
  split; [by intros ->|by intros [= ->]].
Qed.

(** What follows [**/] may start anywhere, not only after a slash: a pattern
    that matches a text still matches, with [**/] in front, every longer text
    that ends in it. *)
Theorem globstar_is_not_anchored pattern prefix text :
  glob_match pattern text = Some (Ok true) → glob_match (chars "**/" ++ pattern) (prefix ++ text) = Some (Ok true).
Proof. rewrite !glob_match_true, !encode_utf8_app. apply globs_directories. Qed.
Lemma globstar_is_not_anchored_witness :
  glob_match (chars "app.dll") (chars "app.dll") = Some (Ok true) ∧
  glob_match (chars "**/app.dll") (chars "bin/myapp.dll") = Some (Ok true).
Proof.
  split; [by vm_compute|]. apply (globstar_is_not_anchored (chars "app.dll") (chars "bin/my") (chars "app.dll")). by vm_compute.
Defined.

(** ** Expansion ends *)

Lemma opening_app s t : opening (s ++ t) = (opening s + opening t)%nat.
Proof. unfold opening. by rewrite List.filter_app, length_app. Qed.
Lemma opening_cons (c : char) s : opening (c :: s) = ((if Z.eqb c 123 then 1 else 0) + opening s)%nat.
Proof. unfold opening. cbn. by destruct (Z.eqb c 123). Qed.
Lemma opening_none s : 123 ∉ s → opening s = 0%nat.
Proof.
  induction s as [|c s IH]; [done|]. intros [Hc Hs]%not_elem_of_cons. rewrite opening_cons, IH by done.
  by rewrite (proj2 (Z.eqb_neq c 123)) by congruence.
Qed.
(** Where the braces are that [first_brace] reports. *)
Definition brace_at (s : str) (i : Z) : Prop := 0 <= i < len s ∧ get_at s i = Some 123.
Lemma first_brace_pos pre s start depth escaped a b :
  (0 < depth → ∃ st, start = Some st ∧ brace_at (pre ++ s) st ∧ st < len pre) → 0 <= depth →
  first_brace_from s (len pre) start depth escaped = Ok (Some (a, b)) →
  brace_at (pre ++ s) a ∧ a < b < len (pre ++ s).
Proof.
  revert pre start depth escaped. induction s as [|ch s IH]; intros pre start depth escaped Hst Hd; cbn.
  { by destruct (depth =? 0). }
  assert (pre ++ ch :: s = (pre ++ [ch]) ++ s) as Happ by (by rewrite <- app_assoc).
  assert (∀ start' depth' e', (0 < depth' → ∃ st, start' = Some st ∧ brace_at (pre ++ ch :: s) st ∧ st < len pre + 1) → 0 <= depth' →
    first_brace_from s (len pre + 1) start' depth' e' = Ok (Some (a, b)) →
    brace_at (pre ++ ch :: s) a ∧ a < b < len (pre ++ ch :: s)) as Hgo.
  { intros start' depth' e' Hs' Hd' He. assert (len pre + 1 = len (pre ++ [ch])) as Hl by (by rewrite len_app, len_cons, len_nil).
    rewrite Hl, Happ in Hs'. rewrite Hl in He. rewrite Happ. by apply (IH (pre ++ [ch]) start' depth' e'). }
  assert (0 < depth → ∃ st, start = Some st ∧ brace_at (pre ++ ch :: s) st ∧ st < len pre + 1) as Hst'.
  { intros Hp. destruct (Hst Hp) as (st & ? & ? & ?). exists st. split_and!; [done..|lia]. }
  destruct escaped; [by apply Hgo|]. destruct (ch =? 92); [by apply Hgo|].
  destruct (Z.eqb_spec ch 123) as [->|]; [|destruct (ch =? 125)].
  - apply Hgo; [|lia]. intros _. destruct (Z.eqb_spec depth 0).
    + exists (len pre). split; [done|]. split; [|lia]. split; [rewrite len_app, len_cons; pose proof (len_nonneg pre); pose proof (len_nonneg s); lia|].
      rewrite get_at_lookup by apply len_nonneg. unfold len. rewrite Nat2Z.id. by rewrite list_lookup_middle.
    + apply Hst'. lia.
  - intros [Hz Hx]%bail_bind_Ok. zbool. destruct (Z.eqb_spec (depth - 1) 0); [|apply (Hgo start (depth - 1) false) in Hx; [done|intros; apply Hst'; lia|lia]].
    apply bind_Ok in Hx as (st & Hx%unwrap_Ok & [= <- <-]). destruct (Hst ltac:(lia)) as (st' & -> & Hb & Hl). injection Hx as ->.
    split; [done|]. rewrite len_app, len_cons. pose proof (len_nonneg s). lia.
  - by apply Hgo.
Qed.
Lemma first_brace_not_panic s idx start depth escaped : (0 < depth → is_Some start) → 0 <= depth →
  first_brace_from s idx start depth escaped ≠ Panic.
Proof.
  revert idx start depth escaped. induction s as [|ch s IH]; intros idx start depth escaped Hst Hd; cbn; [by destruct (depth =? 0)|].
  destruct escaped; [by apply IH|]. destruct (ch =? 92); [by apply IH|]. destruct (ch =? 123); [|destruct (ch =? 125); [|by apply IH]].
  - apply IH; [|lia]. intros _. destruct (Z.eqb_spec depth 0); [by eexists|apply Hst; lia].
  - destruct (Z.eqb_spec depth 0); [done|]. cbn. destruct (Z.eqb_spec (depth - 1) 0); [|apply IH; [intros; apply Hst|]; lia].
    destruct Hst as [st ->]; [lia|done].
Qed.
Lemma list_choices_opening s choices current depth cs c :
  list_choices s choices current depth = Ok cs → c ∈ cs → c ∈ choices ∨ (opening c <= opening current + opening s)%nat.
Proof.
  revert choices current depth. induction s as [|ch s IH]; intros choices current depth; cbn [list_choices].
  { intros [= <-] [Hc| ->%list_elem_of_singleton]%elem_of_app; [by left|right; lia]. }
  assert (opening (ch :: s) = opening [ch] + opening s)%nat as Ho by exact (opening_app [ch] s).
  destruct (ch =? 123); [|destruct (ch =? 125); [|destruct (_ && _)]].
  - intros Hs Hc. destruct (IH _ _ _ Hs Hc) as [?|Hl]; [by left|right]. rewrite opening_app in Hl. lia.
  - intros [_ Hs]%bail_bind_Ok Hc. destruct (IH _ _ _ Hs Hc) as [?|Hl]; [by left|right]. rewrite opening_app in Hl. lia.
  - intros Hs Hc. destruct (IH _ _ _ Hs Hc) as [[?| ->%list_elem_of_singleton]%elem_of_app|Hl]; [by left|right; lia|right; cbn in Hl; lia].
  - intros Hs Hc. destruct (IH _ _ _ Hs Hc) as [?|Hl]; [by left|right]. rewrite opening_app in Hl. lia.
Qed.
Lemma list_choices_not_panic s choices current depth : list_choices s choices current depth ≠ Panic.
Proof.
  revert choices current depth. induction s as [|ch s IH]; intros; cbn; [done|].
  destruct (ch =? 123); [apply IH|]. destruct (ch =? 125); [destruct (depth =? 0); [done|apply IH]|]. destruct (_ && _); apply IH.
Qed.
Lemma decimal_digits fuel n : 0 <= n → Forall (λ c, 48 <= c < 58) (decimal fuel n).
Proof.
  revert n. induction fuel as [|fuel IH]; intros n Hn; cbn; [done|]. destruct (Z.ltb_spec n 10).
  - repeat constructor; lia.
  - apply Forall_app. split; [apply IH; lia|repeat constructor; lia].
Qed.
Lemma padded_chars width n c : c ∈ padded width n → 45 <= c < 58.
Proof.
  unfold padded. intros [Hc|[Hc|Hc]%elem_of_app]%elem_of_app.
  - destruct (n <? 0); [apply list_elem_of_singleton in Hc; lia|by apply elem_of_nil in Hc].
  - apply elem_of_replicate in Hc as [-> _]. lia.
  - pose proof (decimal_digits 20 (Z.abs n) ltac:(lia)) as Hd. eapply Forall_forall in Hd; [|exact Hc]. lia.
Qed.
Lemma range_choices_opening body cs c : range_choices body = Some cs → c ∈ cs → opening c = 0%nat.
Proof.
  unfold range_choices. destruct (split_dots body) as [[start end_]|]; [|done]. cbn.
  destruct (parse_i64 start) as [a|]; [|done]. cbn. destruct (parse_i64 end_) as [b|]; [|done]. cbn.
  intros [= <-] (n & -> & _)%list_elem_of_fmap. apply opening_none. intros Hin.
  repeat case_match; apply padded_chars in Hin; lia.
Qed.
Lemma brace_choices_opening body cs c : brace_choices body = Ok cs → c ∈ cs → (opening c <= opening body)%nat.
Proof.
  unfold brace_choices. destruct (range_choices body) as [cs'|] eqn:Hr.
  - intros [= <-] Hc. rewrite (range_choices_opening _ _ _ Hr Hc). lia.
  - intros Hl Hc. by destruct (list_choices_opening _ _ _ _ _ _ Hl Hc) as [?%elem_of_nil|?].
Qed.
Lemma brace_choices_not_panic body : brace_choices body ≠ Panic.
Proof. unfold brace_choices. destruct (range_choices body); [done|apply list_choices_not_panic]. Qed.

(** The answer [Ok out] or [Err] of a function that neither runs out of fuel nor panics. *)
Definition answered {A} (P : A → Prop) (r : option (outcome A)) : Prop :=
  match r with Some (Ok a) => P a | Some (Err _) => True | _ => False end.
Lemma collect_all_answered {A B} (P : B → Prop) (f : A → option (outcome (list B))) xs :
  (∀ x, x ∈ xs → answered (Forall P) (f x)) → answered (Forall P) (collect_all f xs).
Proof.
  induction xs as [|x xs IH]; intros Hf; cbn; [done|]. pose proof (Hf x ltac:(by left)) as Hx.
  destruct (f x) as [[out| |]|]; cbn in *; try done. assert (answered (Forall P) (collect_all f xs)) as Hxs
    by (apply IH; intros y Hy; apply Hf; by right).
  destruct (collect_all f xs) as [[out'| |]|]; cbn in *; try done. by apply Forall_app.
Qed.
Lemma expand_braces_answered fuel pattern : (opening pattern < fuel)%nat →
  answered (Forall (λ p, first_brace p = Ok None)) (expand_braces_fuel fuel pattern).
Proof.
  revert pattern. induction fuel as [|fuel IH]; intros pattern Hf; [lia|]. cbn [expand_braces_fuel].
  pose proof (first_brace_not_panic pattern 0 None 0 false ltac:(lia) ltac:(lia)) as Hnp.
  change (first_brace_from pattern 0 None 0 false) with (first_brace pattern) in Hnp.
  destruct (first_brace pattern) as [[[a b]|]| |] eqn:Hb; try done; [|by cbn; constructor].
  destruct (first_brace_pos [] pattern None 0 false a b) as [[Ha Hopen] Hab]; [lia|lia|exact Hb|]. cbn [app] in *.
  cbn [then_]. rewrite !index_range_in by lia. cbn [mbind outcome_bind].
  pose proof (brace_choices_not_panic (sub pattern (a + 1) b)) as Hcp.
  destruct (brace_choices (sub pattern (a + 1) b)) as [choices| |] eqn:Hc; try done. cbn [then_ mbind outcome_bind].
  apply collect_all_answered. intros choice Hin. apply IH.
  pose proof (brace_choices_opening _ _ _ Hc Hin) as Hle.
  assert (pattern = sub pattern 0 a ++ 123 :: sub pattern (a + 1) b ++ sub pattern b (len pattern)) as Hp.
  { rewrite <- (sub_split pattern (a + 1) b (len pattern)) by lia. rewrite (sub_head_tail pattern a) at 1 by lia. f_equal.
    rewrite (sub_split pattern a (a + 1) (len pattern)) by lia. f_equal.
    rewrite get_at_lookup in Hopen by lia. unfold sub. replace (Z.to_nat (a + 1 - a)) with 1%nat by lia.
    by rewrite (drop_S _ _ _ Hopen). }
  rewrite Hp in Hf. rewrite !opening_app, opening_cons, opening_app in Hf. rewrite !opening_app.
  assert (opening (sub pattern (b + 1) (len pattern)) <= opening (sub pattern b (len pattern)))%nat; [|cbn in Hf; lia].
  rewrite (sub_split pattern b (b + 1) (len pattern)), opening_app by lia. lia.
Qed.
(** Every pattern expands, without running out of rounds and without a slice
    out of range, to patterns with no braces left, or is refused. *)
Theorem expand_braces_total pattern :
  answered (Forall (λ p, first_brace p = Ok None)) (expand_braces pattern).
Proof. apply expand_braces_answered. lia. Qed.
