(* ===== verification/CodeBraces.v ===== *)
(** What the braces of a pattern stand for: a grammar of patterns, the texts a
    pattern denotes, and that [expand_braces] computes them in order.  The
    definitions of the code are in [CodePattern]. *)

From stdpp Require Import gmap.
From S2P Require Import Prelude.
From S2P Require Import RustStr.
From S2P Require Import CodePattern.

(** ** Patterns and their texts *)

(** A character, a list of alternatives or a span of numbers, then the rest. *)
Inductive pat :=
  | PEnd
  | PChar (c : char) (p : pat)
  | PGroup (g : alts) (p : pat)
  | PSpan (start end_ : str) (p : pat)
with alts :=
  | One (p : pat)
  | More (p : pat) (g : alts).
Scheme pat_mut := Induction for pat Sort Prop
  with alts_mut := Induction for alts Sort Prop.
Combined Scheme pat_alts_ind from pat_mut, alts_mut.

Fixpoint print (p : pat) : str :=
  match p with
  | PEnd => []
  | PChar c p => c :: print p
  | PGroup g p => 123 :: print_alts g ++ 125 :: print p
  | PSpan start end_ p => 123 :: (start ++ chars ".." ++ end_) ++ 125 :: print p
  end
with print_alts (g : alts) : str :=
  match g with
  | One p => print p
  | More p g => print p ++ 44 :: print_alts g
  end.
(** Every text of the first followed by every text of the second. *)
Definition cross (xs ys : list str) : list str := xs ≫= λ x, app x <$> ys.
(** The numbers of a span, with as many digits as its longer end has characters. *)
Definition span (start end_ : str) : list str :=
  match parse_i64 start, parse_i64 end_ with
  | Some first, Some last =>
      let width := Nat.max (length start) (length end_) in
      padded (if (1 <? width)%nat then width else 0) <$> int_range first last
  | _, _ => []
  end.
Fixpoint denote (p : pat) : list str :=
  match p with
  | PEnd => [[]]
  | PChar c p => cons c <$> denote p
  | PGroup g p => cross (denote_alts g) (denote p)
  | PSpan start end_ p => cross (span start end_) (denote p)
  end
with denote_alts (g : alts) : list str :=
  match g with
  | One p => denote p
  | More p g => denote p ++ denote_alts g
  end.

(** Characters are not braces or escapes, nor commas inside a list; a list of
    one alternative does not read as a span; the ends of a span are numbers. *)
Fixpoint pat_ok (nested : bool) (p : pat) : Prop :=
  match p with
  | PEnd => True
  | PChar c p => c ∉ chars "{}\" ∧ (nested = true → c ≠ 44) ∧ pat_ok nested p
  | PGroup g p => alts_ok g ∧ match g with One q => range_choices (print q) = None | _ => True end ∧ pat_ok nested p
  | PSpan start end_ p => is_Some (parse_i64 start) ∧ is_Some (parse_i64 end_) ∧ pat_ok nested p
  end
with alts_ok (g : alts) : Prop :=
  match g with
  | One p => pat_ok true p
  | More p g => pat_ok true p ∧ alts_ok g
  end.

(** ** Numbers *)

Definition number_char (c : char) : Prop := c = 43 ∨ c = 45 ∨ 48 <= c < 58.
Lemma parse_digits_chars bound acc s n : parse_digits bound acc s = Some n → Forall number_char s.
Proof.
  revert acc. induction s as [|c s IH]; intros acc; cbn; [constructor|].
  destruct (is_ascii_digit c) eqn:Hc; [|done]. destruct (_ <? _); [|done]. intros Hs. constructor; [|by eapply IH].
  unfold is_ascii_digit, between in Hc. apply andb_true_iff in Hc as [??]. right; right. zbool. lia.
Qed.
Lemma parse_i64_chars s n : parse_i64 s = Some n → Forall number_char s.
Proof.
  unfold parse_i64. destruct (strip_prefix [45] s) as [r|] eqn:Hs.
  - apply strip_prefix_Some in Hs as ->. destruct r as [|c r]; [done|]. intros (m & Hm & _)%fmap_Some.
    constructor; [by right; left|by eapply parse_digits_chars].
  - unfold parse_uint. destruct (strip_prefix [43] s) as [r|] eqn:Hr; cbn.
    + apply strip_prefix_Some in Hr as ->. case_bool_decide; [done|]. intros Hp.
      constructor; [by left|by eapply parse_digits_chars].
    + case_bool_decide; [done|]. intros Hp. by eapply parse_digits_chars.
Qed.
Lemma number_no_dot s : Forall number_char s → 46 ∉ s.
Proof. intros Hs Hin. eapply Forall_forall in Hs; [|exact Hin]. unfold number_char in Hs. lia. Qed.
Lemma split_dots_Some s a b : split_dots s = Some (a, b) → s = a ++ chars ".." ++ b.
Proof.
  revert a. induction s as [|c s IH]; intros a; [done|]. cbn -[strip_prefix].
  destruct (strip_prefix (chars "..") (c :: s)) as [rest|] eqn:Hp.
  - intros [= <- <-]. by apply strip_prefix_Some in Hp.
  - destruct (split_dots s) as [[a' b']|]; [|done]. cbn. intros [= <- <-]. by rewrite (IH a').
Qed.
Lemma split_dots_app a b : 46 ∉ a → split_dots (a ++ chars ".." ++ b) = Some (a, b).
Proof.
  induction a as [|c a IH]; [done|]. intros [Hc Ha]%not_elem_of_cons. cbn -[strip_prefix chars app].
  change ((c :: a) ++ chars ".." ++ b) with (c :: (a ++ chars ".." ++ b)).
  cbn [split_dots]. replace (strip_prefix (chars "..") (c :: a ++ chars ".." ++ b)) with (@None str).
  - rewrite IH by done. done.
  - change (chars "..") with [46; 46]. cbn [strip_prefix app]. by rewrite (proj2 (Z.eqb_neq 46 c)) by congruence.
Qed.
Lemma range_choices_span start end_ : is_Some (parse_i64 start) → is_Some (parse_i64 end_) →
  range_choices (start ++ chars ".." ++ end_) = Some (span start end_).
Proof.
  intros [a Ha] [b Hb]. unfold range_choices, span. rewrite split_dots_app by (eapply number_no_dot, parse_i64_chars, Ha).
  cbn [mbind option_bind]. rewrite Ha, Hb. cbn [mbind option_bind]. by destruct (1 <? _)%nat.
Qed.
Lemma range_choices_no_comma body : 44 ∈ body → range_choices body = None.
Proof.
  intros Hin. destruct (range_choices body) as [cs|] eqn:Hr; [|done]. exfalso. unfold range_choices in Hr.
  destruct (split_dots body) as [[a b]|] eqn:Hs; [|done]. cbn in Hr. apply split_dots_Some in Hs as ->.
  destruct (parse_i64 a) eqn:Ha; [|done]. cbn in Hr. destruct (parse_i64 b) eqn:Hb; [|done].
  apply parse_i64_chars in Ha, Hb. rewrite Forall_forall in Ha, Hb. apply elem_of_app in Hin as [Hin|[Hin|Hin]%elem_of_app].
  - apply Ha in Hin. unfold number_char in Hin. lia.
  - apply (bool_decide_eq_true_2 _) in Hin. by vm_compute in Hin.
  - apply Hb in Hin. unfold number_char in Hin. lia.
Qed.

(** ** The scanners pass over what is printed *)

Definition literal (s : str) : Prop := Forall (λ c, c ∉ chars "{}\") s.
Lemma not_special c : c ∉ chars "{}\" → (c =? 92) = false ∧ (c =? 123) = false ∧ (c =? 125) = false.
Proof.
  intros Hc. split_and!; apply Z.eqb_neq; intros ->; apply Hc; apply (bool_decide_unpack _); by vm_compute.
Qed.
Lemma number_literal s : Forall number_char s → literal s.
Proof.
  intros Hs. eapply Forall_impl; [exact Hs|]. cbn. intros c Hc Hin. apply list_elem_of_In in Hin. unfold number_char in Hc.
  change (chars "{}\") with [123; 125; 92] in Hin. cbn in Hin. lia.
Qed.
Lemma span_body_chars start end_ : is_Some (parse_i64 start) → is_Some (parse_i64 end_) →
  Forall (λ c, number_char c ∨ c = 46) (start ++ chars ".." ++ end_).
Proof.
  intros [a Ha%parse_i64_chars] [b Hb%parse_i64_chars]. rewrite !Forall_app. split_and!.
  - eapply Forall_impl; [exact Ha|by left].
  - change (chars "..") with [46; 46]. repeat constructor; by right.
  - eapply Forall_impl; [exact Hb|by left].
Qed.
Lemma first_brace_literal l s idx start depth : literal l →
  first_brace_from (l ++ s) idx start depth false = first_brace_from s (idx + len l) start depth false.
Proof.
  intros Hl. revert idx. induction Hl as [|c l Hc Hl IH]; intros idx; [by rewrite len_nil, Z.add_0_r|].
  destruct (not_special c Hc) as (E1 & E2 & E3). cbn [app first_brace_from]. rewrite E1, E2, E3, IH, len_cons. f_equal. lia.
Qed.
Lemma span_body_literal start end_ : is_Some (parse_i64 start) → is_Some (parse_i64 end_) → literal (start ++ chars ".." ++ end_).
Proof.
  intros Ha Hb. eapply Forall_impl; [by apply span_body_chars|]. cbn. intros c Hc Hin. apply list_elem_of_In in Hin.
  change (chars "{}\") with [123; 125; 92] in Hin. unfold number_char in Hc. cbn in Hin. lia.
Qed.
Lemma first_brace_group body s idx start depth : 0 < depth →
  (∀ s' idx' depth', 0 < depth' →
     first_brace_from (body ++ s') idx' start depth' false = first_brace_from s' (idx' + len body) start depth' false) →
  first_brace_from (123 :: body ++ 125 :: s) idx start depth false = first_brace_from s (idx + (len body + 2)) start depth false.
Proof.
  intros Hd Hbody. cbn [first_brace_from]. rewrite (proj2 (Z.eqb_neq depth 0)) by lia.
  change (123 =? 92) with false. change (123 =? 123) with true. cbn iota. rewrite Hbody by lia. cbn [first_brace_from].
  change (125 =? 92) with false. change (125 =? 123) with false. change (125 =? 125) with true. cbn iota.
  rewrite (proj2 (Z.eqb_neq (depth + 1) 0)) by lia. cbn [bail_if mbind outcome_bind].
  replace (depth + 1 - 1) with depth by lia. rewrite (proj2 (Z.eqb_neq depth 0)) by lia. f_equal. lia.
Qed.
Lemma first_brace_pass :
  (∀ p n, pat_ok n p → ∀ s idx start depth, 0 < depth →
     first_brace_from (print p ++ s) idx start depth false = first_brace_from s (idx + len (print p)) start depth false) ∧
  (∀ g, alts_ok g → ∀ s idx start depth, 0 < depth →
     first_brace_from (print_alts g ++ s) idx start depth false = first_brace_from s (idx + len (print_alts g)) start depth false).
Proof.
  apply pat_alts_ind.
  - intros n _ s idx start depth _. cbn. by rewrite len_nil, Z.add_0_r.
  - intros c p IH n (Hc & _ & Hp) s idx start depth Hd. cbn [print app].
    rewrite (first_brace_literal [c] (print p ++ s)) by (by constructor). erewrite IH by done. rewrite len_cons, len_cons, len_nil. f_equal. lia.
  - intros g IHg p IHp n (Hg & _ & Hp) s idx start depth Hd. cbn [print app]. rewrite <- app_assoc. cbn [app].
    rewrite first_brace_group by (try done; intros; by apply IHg). erewrite IHp by done. rewrite len_cons, len_app, len_cons. f_equal. lia.
  - intros a b p IHp n (Ha & Hb & Hp) s idx start depth Hd. cbn [print app]. rewrite <- app_assoc. cbn [app].
    rewrite first_brace_group by (try done; intros; apply first_brace_literal; by apply span_body_literal). erewrite IHp by done.
    generalize (a ++ chars ".." ++ b). intros body. rewrite len_cons, len_app, len_cons. f_equal. lia.
  - intros p IH Hp. by apply (IH true).
  - intros p IHp g IHg [Hp Hg] s idx start depth Hd. cbn [print_alts]. rewrite <- app_assoc. cbn [app].
    erewrite IHp by done. rewrite (first_brace_literal [44] (print_alts g ++ s)).
    + rewrite IHg by done. rewrite len_app, len_cons, len_cons, len_nil. f_equal. lia.
    + constructor; [|constructor]. apply (bool_decide_unpack _). by vm_compute.
Qed.

Lemma list_choices_literal l s choices current depth : literal l → (44 ∉ l ∨ 0 < depth) → 0 <= depth →
  list_choices (l ++ s) choices current depth = list_choices s choices (current ++ l) depth.
Proof.
  intros Hl. revert current. induction Hl as [|c l Hc Hl IH]; intros current Hcomma Hd; [by rewrite app_nil_r|].
  destruct (not_special c Hc) as (_ & E2 & E3). cbn [app list_choices]. rewrite E2, E3.
  replace ((c =? 44) && (depth =? 0)) with false.
  - rewrite IH; [by rewrite <- app_assoc| |done]. destruct Hcomma as [[_ ?]%not_elem_of_cons|]; [by left|by right].
  - symmetry. apply andb_false_iff. destruct Hcomma as [[Hn _]%not_elem_of_cons|];
      [left; apply Z.eqb_neq; congruence|right; apply Z.eqb_neq; lia].
Qed.
Lemma list_choices_group body s choices current depth : 0 <= depth →
  (∀ s' current', list_choices (body ++ s') choices current' (depth + 1) = list_choices s' choices (current' ++ body) (depth + 1)) →
  list_choices (123 :: body ++ 125 :: s) choices current depth =
  list_choices s choices (current ++ 123 :: body ++ [125]) depth.
Proof.
  intros Hd Hbody. cbn [list_choices]. change (123 =? 123) with true. cbn iota. rewrite Hbody. cbn [list_choices].
  change (125 =? 123) with false. change (125 =? 125) with true. cbn iota. rewrite (proj2 (Z.eqb_neq (depth + 1) 0)) by lia.
  cbn [bail_if mbind outcome_bind]. replace (depth + 1 - 1) with depth by lia. f_equal.
  by rewrite <- !app_assoc.
Qed.
Lemma span_no_comma start end_ : is_Some (parse_i64 start) → is_Some (parse_i64 end_) → 44 ∉ start ++ chars ".." ++ end_.
Proof.
  intros Ha Hb Hin. pose proof (span_body_chars start end_ Ha Hb) as Hc. eapply Forall_forall in Hc; [|exact Hin].
  unfold number_char in Hc. lia.
Qed.
Lemma list_choices_pass :
  (∀ p n, pat_ok n p → ∀ s choices current depth, 0 <= depth → (n = true ∨ 0 < depth) →
     list_choices (print p ++ s) choices current depth = list_choices s choices (current ++ print p) depth) ∧
  (∀ g, alts_ok g → ∀ s choices current depth, 0 < depth →
     list_choices (print_alts g ++ s) choices current depth = list_choices s choices (current ++ print_alts g) depth).
Proof.
  apply pat_alts_ind.
  - intros n _ s choices current depth _ _. cbn. by rewrite app_nil_r.
  - intros c p IH n (Hc & Hcomma & Hp) s choices current depth Hd Hn. cbn [print app].
    rewrite (list_choices_literal [c] (print p ++ s)); [|by constructor| |done].
    + erewrite IH by done. by rewrite <- app_assoc.
    + destruct Hn as [Hn|]; [left|by right]. intros Heq%list_elem_of_singleton. by apply (Hcomma Hn).
  - intros g IHg p IHp n (Hg & _ & Hp) s choices current depth Hd Hn. cbn [print app]. rewrite <- app_assoc. cbn [app].
    rewrite list_choices_group; [|done|intros; apply IHg; [done|lia]]. erewrite IHp by done.
    f_equal. rewrite <- app_assoc. f_equal. cbn. by rewrite <- !app_assoc.
  - intros a b p IHp n (Ha & Hb & Hp) s choices current depth Hd Hn. cbn [print app]. rewrite <- app_assoc. cbn [app].
    rewrite list_choices_group; [|done|].
    + erewrite IHp by done. generalize (a ++ chars ".." ++ b). intros body. f_equal. rewrite <- app_assoc. f_equal. cbn. by rewrite <- !app_assoc.
    + intros. apply list_choices_literal; [by apply span_body_literal|left; by apply span_no_comma|lia].
  - intros p IH Hp s choices current depth Hd. apply (IH true); [done|lia|by left].
  - intros p IHp g IHg [Hp Hg] s choices current depth Hd. cbn [print_alts]. rewrite <- app_assoc. cbn [app].
    erewrite (IHp true) by (done || lia || by left). rewrite (list_choices_literal [44] (print_alts g ++ s)); [|constructor; [apply (bool_decide_unpack _); by vm_compute|constructor]|by right|lia].
    rewrite IHg by done. by rewrite <- !app_assoc.
Qed.
(** The alternatives of a list. *)
Fixpoint members (g : alts) : list pat := match g with One p => [p] | More p g => p :: members g end.
Lemma list_choices_members g choices : alts_ok g → list_choices (print_alts g) choices [] 0 = Ok (choices ++ (print <$> members g)).
Proof.
  revert choices. induction g as [p|p g IH]; intros choices; cbn [print_alts members alts_ok].
  - intros Hp. rewrite <- (app_nil_r (print p)). rewrite (proj1 list_choices_pass p true) by (done || lia || by left).
    done.
  - intros [Hp Hg]. rewrite (proj1 list_choices_pass p true) by (done || lia || by left). cbn [list_choices].
    change (44 =? 123) with false. change (44 =? 125) with false. change ((44 =? 44) && (0 =? 0)) with true. cbn iota.
    rewrite IH by done. by rewrite <- app_assoc.
Qed.
Lemma brace_choices_members g : alts_ok g → match g with One q => range_choices (print q) = None | _ => True end →
  brace_choices (print_alts g) = Ok (print <$> members g).
Proof.
  intros Hg Hr. unfold brace_choices. replace (range_choices (print_alts g)) with (@None (list str)).
  - apply (list_choices_members g []). done.
  - destruct g as [p|p g]; [done|]. symmetry. apply range_choices_no_comma. cbn. apply elem_of_app. right. by left.
Qed.

(** ** Expansion computes the texts *)

(** The pattern [p] with [q] after it. *)
Fixpoint app_pat (p q : pat) : pat :=
  match p with
  | PEnd => q
  | PChar c p => PChar c (app_pat p q)
  | PGroup g p => PGroup g (app_pat p q)
  | PSpan a b p => PSpan a b (app_pat p q)
  end.
Lemma print_app p q : print (app_pat p q) = print p ++ print q.
Proof. induction p as [|c p IH|g p IH|a b p IH]; cbn; rewrite ?IH, <- ?app_assoc; try done; by rewrite <- ?app_assoc. Qed.
Lemma app_pat_ok p q : pat_ok true p → pat_ok false q → pat_ok false (app_pat p q).
Proof. intros Hp Hq. induction p as [|c p IH|g p IH|a b p IH]; cbn in *; naive_solver. Qed.
Lemma cross_app xs ys zs : cross (xs ++ ys) zs = cross xs zs ++ cross ys zs.
Proof. unfold cross. by rewrite bind_app. Qed.
Lemma cross_unit ys : cross [[]] ys = ys.
Proof. unfold cross. cbn. rewrite app_nil_r. by rewrite (list_fmap_ext _ id), list_fmap_id. Qed.
Lemma cross_prefix x xs ys : cross (app x <$> xs) ys = app x <$> cross xs ys.
Proof.
  unfold cross. induction xs as [|y xs IH]; [done|]. rewrite fmap_cons, !bind_cons, fmap_app, IH. f_equal.
  rewrite <- list_fmap_compose. apply list_fmap_ext. intros i z _. cbn. by rewrite <- app_assoc.
Qed.
Lemma cross_assoc xs ys zs : cross (cross xs ys) zs = cross xs (cross ys zs).
Proof.
  induction xs as [|x xs IH]; [done|]. change (cross (x :: xs) ys) with ((app x <$> ys) ++ cross xs ys).
  change (cross (x :: xs) (cross ys zs)) with ((app x <$> cross ys zs) ++ cross xs (cross ys zs)).
  by rewrite cross_app, IH, cross_prefix.
Qed.
Lemma denote_app p q : denote (app_pat p q) = cross (denote p) (denote q).
Proof.
  induction p as [|c p IH|g p IH|a b p IH]; cbn [app_pat denote]; [by rewrite cross_unit| |by rewrite IH, cross_assoc..].
  rewrite IH. symmetry. apply (cross_prefix [c]).
Qed.
Lemma denote_members g : denote_alts g = members g ≫= denote.
Proof. induction g as [p|p g IH]; cbn; [by rewrite app_nil_r|by rewrite IH]. Qed.
Lemma collect_all_Ok {A B C} (f : A → option (outcome (list B))) (t : C → A) (h : C → list B) xs :
  (∀ x, x ∈ xs → f (t x) = Some (Ok (h x))) → collect_all f (t <$> xs) = Some (Ok (xs ≫= h)).
Proof.
  induction xs as [|x xs IH]; intros Hf; [done|]. rewrite fmap_cons. cbn [collect_all]. rewrite Hf by (by left). cbn [then_].
  rewrite IH by (intros y Hy; apply Hf; by right). done.
Qed.
Lemma members_ok g p : alts_ok g → p ∈ members g → pat_ok true p ∧ (opening (print p) <= opening (print_alts g))%nat.
Proof.
  induction g as [q|q g IH]; cbn [alts_ok print_alts members].
  - by intros ? ->%list_elem_of_singleton.
  - intros [Hq Hg]. rewrite opening_app, opening_cons. change (44 =? 123) with false.
    intros [->|Hin]%elem_of_cons; [split; [done|lia]|]. destruct (IH Hg Hin). split; [done|lia].
Qed.
Lemma literal_opening l : literal l → opening l = 0%nat.
Proof.
  intros Hl. apply opening_none. intros Hin. eapply Forall_forall in Hl; [|exact Hin]. apply Hl.
  apply (bool_decide_unpack _). by vm_compute.
Qed.
Lemma first_brace_split l body rest : literal l →
  (∀ s' idx' start' depth', 0 < depth' →
     first_brace_from (body ++ s') idx' start' depth' false = first_brace_from s' (idx' + len body) start' depth' false) →
  first_brace (l ++ 123 :: body ++ 125 :: rest) = Ok (Some (len l, len l + 1 + len body)).
Proof.
  intros Hl Hbody. unfold first_brace. rewrite first_brace_literal by done. cbn [first_brace_from].
  change (123 =? 92) with false. change (123 =? 123) with true. change (0 =? 0) with true. cbn iota. rewrite Hbody by lia.
  cbn [first_brace_from]. change (125 =? 92) with false. change (125 =? 123) with false. change (125 =? 125) with true. cbn iota.
  done.
Qed.
Lemma expand_round fuel l body rest choices : literal l →
  (∀ s' idx' start' depth', 0 < depth' →
     first_brace_from (body ++ s') idx' start' depth' false = first_brace_from s' (idx' + len body) start' depth' false) →
  brace_choices body = Ok choices →
  expand_braces_fuel (S fuel) (l ++ 123 :: body ++ 125 :: rest) =
  collect_all (λ choice, expand_braces_fuel fuel (l ++ choice ++ rest)) choices.
Proof.
  intros Hl Hbody Hc. cbn [expand_braces_fuel]. rewrite first_brace_split by done. cbn [then_].
  pose proof (len_nonneg l). pose proof (len_nonneg body). pose proof (len_nonneg rest).
  assert (len (l ++ 123 :: body ++ 125 :: rest) = len l + 1 + len body + 1 + len rest) as Hlen
    by (rewrite len_app, len_cons, len_app, len_cons; lia).
  rewrite !index_range_in by lia. cbn [mbind outcome_bind].
  replace (sub (l ++ 123 :: body ++ 125 :: rest) 0 (len l)) with l by (by rewrite sub_app_l, sub_full by lia).
  replace (sub (l ++ 123 :: body ++ 125 :: rest) (len l + 1) (len l + 1 + len body)) with body.
  - rewrite Hc. cbn [mbind outcome_bind then_].
    replace (sub (l ++ 123 :: body ++ 125 :: rest) (len l + 1 + len body + 1) (len (l ++ 123 :: body ++ 125 :: rest))) with rest; [done|].
    replace (l ++ 123 :: body ++ 125 :: rest) with ((l ++ 123 :: body ++ [125]) ++ rest)
      by (rewrite <- app_assoc; cbn; by rewrite <- app_assoc).
    rewrite sub_app_r by (rewrite len_app, len_cons, len_app, len_cons, len_nil; lia).
    symmetry. transitivity (sub rest 0 (len rest)); [|apply sub_full].
    f_equal; slen; lia.
  - symmetry. replace (l ++ 123 :: body ++ 125 :: rest) with ((l ++ [123]) ++ body ++ 125 :: rest) by (by rewrite <- app_assoc).
    rewrite sub_app_r by (rewrite len_app, len_cons, len_nil; lia). rewrite sub_app_l by (slen; lia).
    transitivity (sub body 0 (len body)); [|apply sub_full].
    f_equal; slen; lia.
Qed.
Lemma span_texts_literal start end_ t : t ∈ span start end_ → literal t.
Proof.
  unfold span. destruct (parse_i64 start); [|by intros ?%elem_of_nil]. destruct (parse_i64 end_); [|by intros ?%elem_of_nil].
  intros (n & -> & _)%list_elem_of_fmap. apply Forall_forall. intros c Hc%padded_chars Hin.
  apply list_elem_of_In in Hin. change (chars "{}\") with [123; 125; 92] in Hin. cbn in Hin. lia.
Qed.
Lemma expand_prints fuel : ∀ p l, literal l → pat_ok false p → (opening (print p) < fuel)%nat →
  expand_braces_fuel fuel (l ++ print p) = Some (Ok (app l <$> denote p)).
Proof.
  induction fuel as [|fuel IH]; [lia|]. induction p as [|c p IHp|g p _|a b p _]; intros l Hl Hp Hf.
  - cbn [expand_braces_fuel]. unfold first_brace. rewrite first_brace_literal by done. cbn. by rewrite app_nil_r.
  - destruct Hp as (Hc & _ & Hp). replace (l ++ print (PChar c p)) with ((l ++ [c]) ++ print p) by (by rewrite <- app_assoc).
    rewrite IHp; [|apply Forall_app; split; [done|by constructor]|done|].
    + cbn [denote]. rewrite <- list_fmap_compose. do 2 f_equal. apply list_fmap_ext. intros i z _. cbn. by rewrite <- app_assoc.
    + cbn [print] in Hf. rewrite opening_cons in Hf. lia.
  - destruct Hp as (Hg & Hr & Hp). cbn [print] in *. rewrite opening_cons, opening_app, opening_cons in Hf. cbn in Hf.
    rewrite (expand_round _ _ _ _ (print <$> members g)); [|done|intros; by apply (proj2 first_brace_pass)|by apply brace_choices_members].
    rewrite (collect_all_Ok _ print (λ q, app l <$> denote (app_pat q p))).
    + cbn [denote]. do 2 f_equal. rewrite denote_members. induction (members g) as [|q qs IHq]; [done|].
      rewrite !bind_cons, IHq, cross_app, fmap_app, denote_app. done.
    + intros q Hq. destruct (members_ok g q Hg Hq) as [Hqok Hqle]. rewrite <- print_app.
      apply IH; [done|by apply app_pat_ok|]. rewrite print_app, opening_app. lia.
  - destruct Hp as (Ha & Hb & Hp). cbn [print] in *. rewrite opening_cons, opening_app, opening_cons in Hf. cbn [Z.eqb] in Hf.
    rewrite (expand_round _ _ _ _ (id <$> span a b)); [|done|intros; apply first_brace_literal; by apply span_body_literal|].
    + rewrite (collect_all_Ok _ id (λ t, app l <$> (app t <$> denote p))).
      * cbn [denote]. do 2 f_equal. unfold cross. induction (span a b) as [|t ts IHt]; [done|]. by rewrite !bind_cons, IHt, fmap_app.
      * intros t Ht. cbn [id]. rewrite app_assoc. rewrite IH; [| |done|cbn in Hf; lia].
        -- rewrite <- list_fmap_compose. do 2 f_equal. apply list_fmap_ext. intros i z _. cbn. by rewrite <- app_assoc.
        -- apply Forall_app. split; [done|by eapply span_texts_literal].
    + unfold brace_choices. rewrite range_choices_span by done. by rewrite list_fmap_id.
Qed.
(** C37: A pattern written in the grammar expands to the texts it denotes, in
    order: every alternative of a list and every number of a span, followed by
    every text of the rest. *)
Theorem expand_braces_denotes p : pat_ok false p → expand_braces (print p) = Some (Ok (denote p)).
Proof.
  intros Hp. unfold expand_braces. rewrite (expand_prints _ p []); [|constructor|done|lia].
  do 2 f_equal. by rewrite (list_fmap_ext _ id), list_fmap_id.
Qed.
(** lib/{net{6,8}.0,tools}/file{08..10}.dll *)
Definition toy_chars (s : string) (p : pat) : pat := foldr PChar p (chars s).
Definition toy_pattern : pat :=
  toy_chars "lib/" (PGroup (More (toy_chars "net" (PGroup (More (toy_chars "6" PEnd) (One (toy_chars "8" PEnd))) (toy_chars ".0" PEnd)))
    (One (toy_chars "tools" PEnd))) (toy_chars "/file" (PSpan (chars "08") (chars "10") (toy_chars ".dll" PEnd)))).
Lemma expand_braces_denotes_witness :
  expand_braces (chars "lib/{net{6,8}.0,tools}/file{08..10}.dll") =
  Some (Ok (chars <$> ["lib/net6.0/file08.dll"; "lib/net6.0/file09.dll"; "lib/net6.0/file10.dll"; "lib/net8.0/file08.dll";
    "lib/net8.0/file09.dll"; "lib/net8.0/file10.dll"; "lib/tools/file08.dll"; "lib/tools/file09.dll"; "lib/tools/file10.dll"]%string)).
Proof.
  change (chars "lib/{net{6,8}.0,tools}/file{08..10}.dll") with (print toy_pattern).
  rewrite (expand_braces_denotes toy_pattern); [by vm_compute|].
  repeat split; try (by eexists); try (by apply (bool_decide_unpack _); vm_compute).
Defined.
