(* ===== verification/CodeSelect.v ===== *)
(** Which files the code command takes: patterns, file lists and the walk of
    the base directory, of [src/code.rs].

    The file system is a tree of directories, files and links.  A path joined
    to the base directory is the list of its components after the base, which
    is what comparing, sorting and displaying a path look at; names are Unix
    names in UTF-8.  Reading a directory does not fail, and gives its entries
    in any order. *)

From stdpp Require Import gmap sorting.
From S2P Require Import Prelude.
From S2P Require Import RustStr.
From S2P Require Import CodePattern.

(** ** Paths *)

(** [PathBuf::push] *)
Definition push_path (buf p : str) : str :=
  if starts_with p [47] then p
  else match last buf with
       | Some c => if c =? 47 then buf ++ p else buf ++ 47 :: p
       | None => p
       end.
(** [Path::components] *)
Inductive Component := RootDir | CurDir | ParentDir | Normal (name : str).
Definition component_of (first : bool) (part : str) : list Component :=
  if bool_decide (part = []) then []
  else if bool_decide (part = [46]) then (if first then [CurDir] else [])
  else if bool_decide (part = [46; 46]) then [ParentDir]
  else [Normal part].
Definition components (path : str) : list Component :=
  if starts_with path [47] then RootDir :: (split 47 path ≫= component_of false)
  else match split 47 path with
       | [] => []
       | part :: parts => component_of true part ++ (parts ≫= component_of false)
       end.
Definition is_absolute (path : str) : bool := starts_with path [47].
Definition pattern_to_native_path (pattern : str) : str := fold_left push_path (split 47 pattern) [].
Definition validate_relative_pattern (pattern : str) : outcome unit :=
  let path := pattern_to_native_path pattern in
  bail_if (is_absolute path) "absolute patterns are not supported: {pattern}";;
  bail_if (existsb (λ c, match c with ParentDir | RootDir => true | _ => false end) (components path))
    "pattern may not traverse outside the base directory: {pattern}".
Definition has_glob_meta (pattern : str) : bool := bool_decide (42 ∈ pattern) || bool_decide (63 ∈ pattern).

(** ** Rules *)

Record PatternRule := mk_rule { include : bool; pattern : str }.
Definition pattern_rules (input : str) : option (outcome (list PatternRule)) :=
  then_ (Some ('(inc, pat) ← match strip_prefix (chars "\!") input with
                             | Some rest => p ← unescape_pattern rest; Ok (true, 33 :: p)
                             | None =>
                                 match strip_prefix [33] input with
                                 | Some rest => p ← unescape_pattern rest; Ok (false, p)
                                 | None => p ← unescape_pattern input; Ok (true, p)
                                 end
                             end;
               bail_if (bool_decide (pat = [])) "empty pattern";;
               validate_relative_pattern pat;;
               Ok (inc, pat))) (λ '(inc, pat),
  then_ (expand_braces pat) (λ patterns, Some (Ok (mk_rule inc <$> patterns)))).

(** The rules of the arguments, then of the lines of the file list. *)
Definition file_list_rules (text : str) : option (outcome (list PatternRule)) :=
  collect_all (λ raw,
    let trimmed := trim raw in
    if bool_decide (trimmed = []) || starts_with trimmed [35] then Some (Ok [])
    else (λ r, with_context r "parse {} line {}") <$> pattern_rules trimmed) (lines text).
Definition selection_rules (inputs : list str) (file_list : option (outcome str)) : option (outcome (list PatternRule)) :=
  then_ (collect_all pattern_rules inputs) (λ rules,
  then_ match file_list with
        | Some text => then_ (Some (with_context text "read file list {}")) file_list_rules
        | None => Some (Ok [])
        end (λ more,
  Some (bail_if (bool_decide (rules ++ more = [])) "code dry-run requires at least one input or --file-list entry";;
        Ok (rules ++ more)))).
Definition nested_exclude_patterns (inputs : list str) (file_list : option (outcome str)) : option (outcome (list str)) :=
  then_ (selection_rules inputs file_list) (λ rules, Some (Ok (pattern <$> List.filter (λ r, negb (include r)) rules))).

(** ** The file system *)

(** A link holds the absolute path of its target; [Special] is a device. *)
Inductive node :=
  | File (content : bytes)
  | Dir (entries : list (str * node))
  | Link (target : list str)
  | Special.
Fixpoint assoc (name : str) (entries : list (str * node)) : option node :=
  match entries with
  | [] => None
  | (n, x) :: entries' => if bool_decide (n = name) then Some x else assoc name entries'
  end.
(** Path resolution, with the directories above the current node: empty and
    dot parts stay, two dots go up, a link starts again at the root. *)
Fixpoint resolve (links : nat) (root : node) : list node → list str → option node :=
  fix go (stack : list node) (parts : list str) : option node :=
    match parts, stack with
    | [], cur :: _ => Some cur
    | part :: parts', Dir entries :: above =>
        if bool_decide (part = []) || bool_decide (part = [46]) then go stack parts'
        else if bool_decide (part = [46; 46]) then go (match above with [] => stack | _ => above end) parts'
        else match assoc part entries with
             | Some (Link t) => match links with O => None | S links' => resolve links' root [root] (t ++ parts') end
             | Some n => go (n :: stack) parts'
             | None => None
             end
    | _, _ => None
    end.
(** The links a system follows before it gives up. *)
Definition MAXSYMLINKS : nat := 40.
Record FileSystem := mk_fs { fs_root : node; fs_base : list str }.
Definition stat (fs : FileSystem) (rel : str) : option node :=
  resolve MAXSYMLINKS (fs_root fs) [fs_root fs] (fs_base fs ++ split 47 rel).
Definition is_file (fs : FileSystem) (rel : str) : bool := match stat fs rel with Some (File _) => true | _ => false end.
(** The base directory, whose path is canonical. *)
Definition base_node (fs : FileSystem) : option node := resolve 0 (fs_root fs) [fs_root fs] (fs_base fs).

(** ** Paths after the base, in order *)

Abbreviation path := (list Component).
#[export] Instance component_eq_dec : EqDecision Component.
Proof. solve_decision. Defined.
(** [base.join(rel)] after the base: a leading dot is then in the middle. *)
Definition joined (rel : str) : path := List.filter (λ c, negb (bool_decide (c = CurDir))) (components rel).
Definition component_le (a b : Component) : bool :=
  match a, b with
  | Normal x, Normal y => str_le x y
  | RootDir, _ => true
  | CurDir, RootDir => false
  | CurDir, _ => true
  | ParentDir, (ParentDir | Normal _) => true
  | _, _ => false
  end.
Fixpoint path_le (a b : path) : bool :=
  match a, b with
  | [], _ => true
  | _ :: _, [] => false
  | x :: a', y :: b' => if bool_decide (x = y) then path_le a' b' else component_le x y
  end.
Definition path_before (a b : path) : Prop := path_le a b = true.
#[export] Instance path_before_dec : RelDecision path_before.
Proof. intros a b. unfold path_before. apply _. Defined.

(** ** Walking the base directory *)

Abbreviation pending := (list (path * list (str * node))).
(** One entry of the directory being read. *)
Definition walk_entry (dir : path) (s : pending * list path) (e : str * node) : pending * list path :=
  match snd e with
  | Dir entries => ((dir ++ [Normal (fst e)], entries) :: fst s, snd s)
  | File _ => (fst s, snd s ++ [dir ++ [Normal (fst e)]])
  | _ => s
  end.
Fixpoint walk_loop (fuel : nat) (stack : pending) (out : list path) : option (list path) :=
  match fuel with
  | O => None
  | S fuel' =>
      match stack with
      | [] => Some out
      | (dir, entries) :: stack' =>
          let s := fold_left (walk_entry dir) entries (stack', out) in
          walk_loop fuel' (fst s) (snd s)
      end
  end.
(** The number of directories of a tree. *)
Fixpoint directories (n : node) : nat :=
  match n with Dir entries => S (sum_list_with (λ e, directories (snd e)) entries) | _ => 0 end.
Definition walk_files (fs : FileSystem) : option (outcome (list path)) :=
  match base_node fs with
  | Some (Dir entries) =>
      then_ (Ok <$> walk_loop (S (directories (Dir entries))) [([], entries)] []) (λ out, Some (Ok (merge_sort path_before out)))
  | _ => Some (Err "read {}")
  end.

(** ** Selection *)

(** [normalize_match_path] *)
Definition normalize_match_path (p : path) : str :=
  join [47] (p ≫= λ c, match c with Normal name => [replace_char 92 [47] name] | _ => [] end).
Fixpoint keep_matching (pattern : str) (candidates : list path) : option (outcome (list path)) :=
  match candidates with
  | [] => Some (Ok [])
  | candidate :: rest =>
      then_ (glob_match pattern (normalize_match_path candidate)) (λ b,
      then_ (keep_matching pattern rest) (λ out, Some (Ok (if b : bool then candidate :: out else out))))
  end.
Definition resolve_rule (fs : FileSystem) (rule : PatternRule) : option (outcome (list path)) :=
  if has_glob_meta (pattern rule) then
    then_ (walk_files fs) (keep_matching (pattern rule))
  else
    let path := pattern_to_native_path (pattern rule) in
    Some (Ok (if is_file fs path then [joined path] else [])).
(** A [BTreeSet] of paths is their sorted list. *)
Fixpoint set_insert (p : path) (l : list path) : list path :=
  match l with
  | [] => [p]
  | q :: l' => if bool_decide (p = q) then l else if path_le p q then p :: l else q :: set_insert p l'
  end.
Definition set_extend (l ps : list path) : list path := fold_left (λ l p, set_insert p l) ps l.
Definition set_remove (l ps : list path) : list path :=
  fold_left (λ l p, List.filter (λ q, negb (bool_decide (q = p))) l) ps l.
Fixpoint select_from (fs : FileSystem) (rules : list PatternRule) (selected : list path) : option (outcome (list path)) :=
  match rules with
  | [] => Some (Ok selected)
  | rule :: rules' =>
      then_ (resolve_rule fs rule) (λ found,
      select_from fs rules' (if include rule then set_extend selected found else set_remove selected found))
  end.
Definition select_inputs (fs : FileSystem) (rules : list PatternRule) : option (outcome (list path)) :=
  select_from fs rules [].

(** ** What the walk finds *)

(** The files of a tree that no link leads to. *)
Fixpoint tree_file (n : node) (p : path) : Prop :=
  match p, n with
  | [], File _ => True
  | Normal x :: p', Dir entries => ∃ y, (x, y) ∈ entries ∧ tree_file y p'
  | _, _ => False
  end.
(** Found already, or below a directory still to be read. *)
Definition found (s : pending * list path) (p : path) : Prop :=
  p ∈ snd s ∨ ∃ d entries q, (d, entries) ∈ fst s ∧ p = d ++ q ∧ tree_file (Dir entries) q.
Definition below (dir : path) (e : str * node) (p : path) : Prop := ∃ q, p = dir ++ Normal (fst e) :: q ∧ tree_file (snd e) q.

Lemma walk_entry_found dir s e p : found (walk_entry dir s e) p ↔ found s p ∨ below dir e p.
Proof.
  unfold found, below, walk_entry. destruct e as [x [c|es|t|]]; cbn [fst snd].
  - rewrite elem_of_app, list_elem_of_singleton. split.
    + intros [[?| ->]|?]; [by left; left|right; exists []; done|by left; right].
    + intros [[?|?]|([|y q] & -> & Hq)]; [by left; left|by right|by left; right|by destruct y].
  - setoid_rewrite elem_of_cons. split.
    + intros [?|(d & es' & q & [[= -> ->]|Hd] & -> & Hq)]; [by left; left| |left; right; by exists d, es', q].
      right. exists q. by rewrite <- app_assoc.
    + intros [[?|(d & es' & q & Hd & -> & Hq)]|(q & -> & Hq)]; [by left|right; exists d, es', q; by split_and!; [right| |]|].
      right. exists (dir ++ [Normal x]), es, q. split_and!; [by left|by rewrite <- app_assoc|done].
  - split; [by left|]. intros [?|([|[]] & _ & [])]; done.
  - split; [by left|]. intros [?|([|[]] & _ & [])]; done.
Qed.
Lemma walk_entries_found dir entries s p :
  found (fold_left (walk_entry dir) entries s) p ↔ found s p ∨ ∃ e, e ∈ entries ∧ below dir e p.
Proof.
  revert s. induction entries as [|e entries IH]; intros s; cbn [fold_left].
  - split; [by left|]. intros [?|(e & ?%elem_of_nil & _)]; done.
  - rewrite IH, walk_entry_found. setoid_rewrite elem_of_cons. split.
    + intros [[?|?]|(e' & ? & ?)]; [by left|right; exists e; by split; [left|]|right; exists e'; by split; [right|]].
    + intros [?|(e' & [->|?] & ?)]; [by left; left|by left; right|right; by exists e'].
Qed.
Lemma directory_below dir entries p :
  (∃ q, p = dir ++ q ∧ tree_file (Dir entries) q) ↔ ∃ e, e ∈ entries ∧ below dir e p.
Proof.
  unfold below. split.
  - intros ([|[| | |x] q] & -> & Hq); try done. destruct Hq as (y & Hy & Hq). exists (x, y). split; [done|]. by exists q.
  - intros ([x y] & Hy & q & -> & Hq). exists (Normal x :: q). split; [done|]. by exists y.
Qed.
Definition pending_size (s : pending) : nat := sum_list_with (λ d, directories (Dir (snd d))) s.
Lemma walk_entries_size dir entries s :
  pending_size (fst (fold_left (walk_entry dir) entries s)) = (pending_size (fst s) + sum_list_with (λ e, directories (snd e)) entries)%nat.
Proof.
  revert s. induction entries as [|[x n] entries IH]; intros s; cbn [fold_left]; [cbn; lia|]. rewrite IH.
  unfold walk_entry. destruct n; cbn [fst snd sum_list_with]; [cbn; lia| |cbn; lia..].
  change (pending_size ((dir ++ [Normal x], entries0) :: fst s)) with (directories (Dir entries0) + pending_size (fst s))%nat. lia.
Qed.
Lemma walk_loop_finds fuel stack out : (pending_size stack < fuel)%nat →
  ∃ r, walk_loop fuel stack out = Some r ∧ ∀ p, p ∈ r ↔ found (stack, out) p.
Proof.
  revert stack out. induction fuel as [|fuel IH]; intros stack out Hf; [lia|]. cbn [walk_loop].
  destruct stack as [|[dir entries] stack].
  { exists out. split; [done|]. intros p. unfold found. cbn. split; [by left|]. intros [?|(d & es & q & ?%elem_of_nil & _)]; done. }
  cbv zeta. destruct (IH (fst (fold_left (walk_entry dir) entries (stack, out))) (snd (fold_left (walk_entry dir) entries (stack, out))))
    as (r & Hr & Hp).
  - rewrite walk_entries_size. cbn [fst].
    assert (pending_size ((dir, entries) :: stack) = S (sum_list_with (λ e, directories (snd e)) entries) + pending_size stack)%nat
      as Hs by done. lia.
  - exists r. split; [done|]. intros p. rewrite Hp, <- surjective_pairing, walk_entries_found, <- directory_below.
    unfold found. cbn [fst snd]. setoid_rewrite elem_of_cons. split.
    + intros [[?|(d & es & q & ? & ? & ?)]|(q & ? & ?)]; [by left|right; exists d, es, q; by split_and!; [right| |]|].
      right. exists dir, entries, q. by split_and!; [left| |].
    + intros [?|(d & es & q & [[= -> ->]|?] & ? & ?)]; [by left; left|right; by exists q|left; right; by exists d, es, q].
Qed.

(** ** The order of paths *)


(** ** The order of paths *)

Lemma component_le_total a b : component_le a b = true ∨ component_le b a = true.
Proof.
  destruct a as [| | |x], b as [| | |y]; cbn; try by (by left) || (by right).
  destruct (str_le x y) eqn:Hxy; [by left|right]. by apply str_le_total.
Qed.
Lemma component_le_antisym a b : component_le a b = true → component_le b a = true → a = b.
Proof. destruct a, b; cbn; try done. intros. f_equal. by apply str_le_antisym. Qed.
Lemma component_le_trans a b c : component_le a b = true → component_le b c = true → component_le a c = true.
Proof. destruct a, b, c; cbn; try done. by apply str_le_trans. Qed.
#[export] Instance path_before_total : Total path_before.
Proof.
  intros a. unfold path_before. induction a as [|x a IH]; intros [|y b]; cbn; [by left..|by right|].
  destruct (decide (x = y)) as [->|Hne]; [rewrite !bool_decide_eq_true_2 by done; apply IH|].
  rewrite !bool_decide_eq_false_2 by congruence. apply component_le_total.
Qed.
#[export] Instance path_before_trans : Transitive path_before.
Proof.
  intros a. unfold path_before. induction a as [|x a IH]; intros [|y b] [|z c]; cbn; try done.
  destruct (decide (x = y)) as [<-|Hxy].
  - rewrite (bool_decide_eq_true_2 (x = x)) by done. case_bool_decide; [by apply IH|done].
  - rewrite (bool_decide_eq_false_2 (x = y)) by done. destruct (decide (y = z)) as [<-|Hyz].
    + by rewrite (bool_decide_eq_true_2 (y = y)), (bool_decide_eq_false_2 (x = y)) by done.
    + rewrite (bool_decide_eq_false_2 (y = z)) by done. intros L1 L2. case_bool_decide as Hxz; [|by eapply component_le_trans].
      subst z. by destruct Hxy; apply component_le_antisym.
Qed.
#[export] Instance path_before_antisym : AntiSymm (=) path_before.
Proof.
  intros a. unfold path_before. induction a as [|x a IH]; intros [|y b]; cbn; try done.
  repeat case_bool_decide; subst; try done; [intros; f_equal; by apply IH|]. intros H1 H2.
  by destruct (component_le_antisym x y H1 H2).
Qed.
Definition path_lt (a b : path) : Prop := path_before a b ∧ a ≠ b.
Definition path_set (l : list path) : Prop := StronglySorted path_lt l.
Lemma path_lt_trans a b c : path_lt a b → path_lt b c → path_lt a c.
Proof.
  intros [H1 N1] [H2 N2]. split; [by etrans|]. intros ->. apply N1. by apply (anti_symm path_before).
Qed.

(** ** Sets of paths *)

Lemma set_insert_elem p l q : q ∈ set_insert p l ↔ q = p ∨ q ∈ l.
Proof.
  induction l as [|x l IH]; cbn; [by rewrite list_elem_of_singleton, elem_of_nil; tauto|].
  case_bool_decide as Hpx; [subst; rewrite elem_of_cons; tauto|].
  destruct (path_le p x); rewrite !elem_of_cons, ?IH; tauto.
Qed.
Lemma set_insert_sorted p l : path_set l → path_set (set_insert p l).
Proof.
  unfold path_set. induction l as [|x l IH]; cbn; intros Hs; [repeat constructor|].
  apply StronglySorted_cons in Hs as [Hx Hs]. case_bool_decide as Hpx; [by apply StronglySorted_cons|].
  destruct (path_le p x) eqn:Hle.
  - apply StronglySorted_cons. split; [|by apply StronglySorted_cons]. constructor; [done|].
    eapply Forall_impl; [exact Hx|]. intros y Hy. by apply (path_lt_trans _ x).
  - apply StronglySorted_cons. split; [|by apply IH]. apply Forall_forall. intros y [->|Hy]%set_insert_elem.
    + destruct (total path_before p x) as [Hp|]; [unfold path_before in Hp; congruence|by split].
    + by eapply Forall_forall in Hx.
Qed.
Lemma set_extend_spec ps l : path_set l → path_set (set_extend l ps) ∧ ∀ q, q ∈ set_extend l ps ↔ q ∈ l ∨ q ∈ ps.
Proof.
  unfold set_extend. revert l. induction ps as [|p ps IH]; intros l Hl; cbn [fold_left].
  { split; [done|]. intros q. rewrite elem_of_nil. tauto. }
  destruct (IH (set_insert p l)) as [Hs Hq]; [by apply set_insert_sorted|]. split; [done|]. intros q.
  rewrite Hq, set_insert_elem, elem_of_cons. tauto.
Qed.
Lemma set_remove_spec ps l : path_set l → path_set (set_remove l ps) ∧ ∀ q, q ∈ set_remove l ps ↔ q ∈ l ∧ q ∉ ps.
Proof.
  unfold set_remove. revert l. induction ps as [|p ps IH]; intros l Hl; cbn [fold_left].
  { split; [done|]. intros q. split; [|tauto]. intros Hq. split; [done|apply not_elem_of_nil]. }
  assert (∀ q, q ∈ List.filter (λ q, negb (bool_decide (q = p))) l ↔ q ∈ l ∧ q ≠ p) as Hf.
  { intros q. rewrite !list_elem_of_In, filter_In, negb_true_iff, bool_decide_eq_false. done. }
  destruct (IH (List.filter (λ q, negb (bool_decide (q = p))) l)) as [Hs Hq].
  - clear IH Hf. unfold path_set in *. induction Hl as [|x l Hl IHl Hx]; cbn; [constructor|].
    case_bool_decide; cbn; [done|]. constructor; [done|]. apply Forall_forall. intros y Hy.
    eapply Forall_forall in Hx; [exact Hx|]. rewrite list_elem_of_In in *. by apply filter_In in Hy as [? _].
  - split; [done|]. intros q. rewrite Hq, Hf, not_elem_of_cons. tauto.
Qed.

(** ** What is selected *)

(** The paths that one rule stands for. *)
Definition rule_selects (fs : FileSystem) (rule : PatternRule) (p : path) : Prop :=
  if has_glob_meta (pattern rule) then
    (∃ entries, base_node fs = Some (Dir entries) ∧ tree_file (Dir entries) p) ∧
    globs (encode_utf8 (pattern rule)) (encode_utf8 (normalize_match_path p))
  else
    is_file fs (pattern_to_native_path (pattern rule)) = true ∧ p = joined (pattern_to_native_path (pattern rule)).
Lemma keep_matching_spec pattern candidates : ∃ out, keep_matching pattern candidates = Some (Ok out) ∧
  ∀ p, p ∈ out ↔ p ∈ candidates ∧ globs (encode_utf8 pattern) (encode_utf8 (normalize_match_path p)).
Proof.
  induction candidates as [|c cs (out & Hout & Hp)]; cbn [keep_matching].
  { exists []. split; [done|]. intros p. rewrite elem_of_nil. tauto. }
  destruct (glob_match_total pattern (normalize_match_path c)) as [b Hb]. rewrite Hb, Hout. cbn [then_]. eexists. split; [done|].
  pose proof (glob_match_true pattern (normalize_match_path c)) as Hm. rewrite Hb in Hm. intros p. destruct b.
  - rewrite !elem_of_cons, Hp. split; [intros [->|[??]]; [by split; [left|apply Hm]|by split; [right|]]|intros [[->|?] ?]; [by left|by right]].
  - rewrite elem_of_cons, Hp. split; [intros [??]; by split; [right|]|]. intros [[->|?] Hg]; [|done]. by apply Hm in Hg.
Qed.
Lemma walk_files_spec fs entries : base_node fs = Some (Dir entries) →
  ∃ out, walk_files fs = Some (Ok out) ∧ ∀ p, p ∈ out ↔ tree_file (Dir entries) p.
Proof.
  intros Hb. unfold walk_files. rewrite Hb.
  destruct (walk_loop_finds (S (directories (Dir entries))) [([], entries)] []) as (r & -> & Hr).
  { change (pending_size [([], entries)]) with (directories (Dir entries) + 0)%nat. lia. }
  cbn [fmap option_fmap option_map then_]. eexists. split; [done|]. intros p. rewrite merge_sort_Permutation, Hr. unfold found. cbn [fst snd].
  rewrite elem_of_nil. setoid_rewrite list_elem_of_singleton. split.
  - intros [[]|(d & es & q & [= -> ->] & -> & Hq)]. done.
  - intros Hp. right. by exists [], entries, p.
Qed.
Lemma resolve_rule_spec fs entries rule : base_node fs = Some (Dir entries) →
  ∃ out, resolve_rule fs rule = Some (Ok out) ∧ ∀ p, p ∈ out ↔ rule_selects fs rule p.
Proof.
  intros Hb. unfold resolve_rule, rule_selects. destruct (has_glob_meta _).
  - destruct (walk_files_spec fs entries Hb) as (w & -> & Hw). cbn [then_].
    destruct (keep_matching_spec (pattern rule) w) as (out & -> & Hp). exists out. split; [done|]. intros p. rewrite Hp, Hw.
    split; [intros [??]; by split; [exists entries|]|]. intros [(es & Hes & ?) ?]. rewrite Hb in Hes. by injection Hes as ->.
  - eexists. split; [done|]. intros p. destruct (is_file fs _).
    + rewrite list_elem_of_singleton. naive_solver.
    + rewrite elem_of_nil. naive_solver.
Qed.
(** An including rule takes the path and no later rule takes it away. *)
Definition chosen (fs : FileSystem) (rules : list PatternRule) (p : path) : Prop :=
  ∃ before rule later, rules = before ++ rule :: later ∧ include rule = true ∧ rule_selects fs rule p ∧
    ∀ r, r ∈ later → include r = false → ¬ rule_selects fs r p.
Lemma select_from_spec fs entries rules selected : base_node fs = Some (Dir entries) → path_set selected →
  ∃ l, select_from fs rules selected = Some (Ok l) ∧ path_set l ∧
    ∀ p, p ∈ l ↔ (p ∈ selected ∧ ∀ r, r ∈ rules → include r = false → ¬ rule_selects fs r p) ∨ chosen fs rules p.
Proof.
  intros Hb. revert selected. induction rules as [|rule rules IH]; intros selected Hs; cbn [select_from].
  { exists selected. split_and!; [done..|]. intros p. split; [intros Hp; left; split; [done|]; by intros r ?%elem_of_nil|].
    intros [[? _]|([|] & ? & ? & ? & _)]; done. }
  destruct (resolve_rule_spec fs entries rule Hb) as (out & -> & Hout). cbn [then_].
  set (next := if include rule then set_extend selected out else set_remove selected out).
  assert (path_set next ∧ ∀ p, p ∈ next ↔ if include rule then p ∈ selected ∨ rule_selects fs rule p
                                        else p ∈ selected ∧ ¬ rule_selects fs rule p) as [Hn Hnp].
  { unfold next. destruct (include rule).
    - destruct (set_extend_spec out selected Hs) as [? He]. split; [done|]. intros p. by rewrite He, Hout.
    - destruct (set_remove_spec out selected Hs) as [? He]. split; [done|]. intros p. by rewrite He, Hout. }
  destruct (IH next Hn) as (l & Hl & Hls & Hp). exists l. split_and!; [done..|]. intros p. rewrite Hp, Hnp.
  assert (chosen fs (rule :: rules) p ↔ (include rule = true ∧ rule_selects fs rule p ∧
    ∀ r, r ∈ rules → include r = false → ¬ rule_selects fs r p) ∨ chosen fs rules p) as ->.
  { split.
    - intros ([|r0 before] & r & later & Heq & Hi & Hr & Hla); injection Heq as -> ->; [by left|right]. by exists before, r, later.
    - intros [(Hi & Hr & Hla)|(before & r & later & -> & ?)]; [by exists [], rule, rules|by exists (rule :: before), r, later]. }
  assert ((∀ r, r ∈ rule :: rules → include r = false → ¬ rule_selects fs r p) ↔
    (include rule = false → ¬ rule_selects fs rule p) ∧ ∀ r, r ∈ rules → include r = false → ¬ rule_selects fs r p) as ->.
  { setoid_rewrite elem_of_cons. split; [intros Hr; split; [apply Hr; by left|intros r ?; apply Hr; by right]|].
    intros [Hr Hrs] r [->|?]; [done|by apply Hrs]. }
  destruct (include rule); intuition congruence.
Qed.
(** C35: The files selected are sorted without duplicates, and are those that an
    including rule takes and no later excluding rule takes away; a rule with
    wildcards takes the files of the tree whose display is in its language,
    any other rule the file it names. *)
Theorem select_inputs_spec fs entries rules : base_node fs = Some (Dir entries) →
  ∃ l, select_inputs fs rules = Some (Ok l) ∧ path_set l ∧ ∀ p, p ∈ l ↔ chosen fs rules p.
Proof.
  intros Hb. destruct (select_from_spec fs entries rules [] Hb) as (l & Hl & Hs & Hp); [constructor|].
  exists l. split_and!; [done..|]. intros p. rewrite Hp, elem_of_nil. tauto.
Qed.
Definition toy_fs : FileSystem := mk_fs (Dir [(chars "work", Dir [
    (chars "lib", Dir [(chars "a.dll", File []); (chars "b.dll", File []); (chars "readme.txt", File [])]);
    (chars "tool.exe", File []); (chars "latest", Link [chars "work"; chars "lib"])]);
  (chars "secret.dll", File (lit "key"))]) [chars "work"].
Definition toy_rules : list PatternRule :=
  [mk_rule true (chars "**/*.dll"); mk_rule false (chars "lib/b.dll"); mk_rule true (chars "latest/a.dll")].
Lemma select_inputs_spec_witness : ∃ l, select_inputs toy_fs toy_rules = Some (Ok l) ∧
  (∀ p, p ∈ l ↔ chosen toy_fs toy_rules p) ∧
  l = [[Normal (chars "latest"); Normal (chars "a.dll")]; [Normal (chars "lib"); Normal (chars "a.dll")]].
Proof.
  destruct (select_inputs_spec toy_fs _ toy_rules eq_refl) as (l & Hl & _ & Hp). exists l. split_and!; [exact Hl|exact Hp|].
  vm_compute in Hl. by injection Hl as <-.
Defined.

