(* ===== verification/CodeRules.v ===== *)
(** Which patterns the code command accepts, and where they may lead: patterns
    without braces stay below the base directory, braces can leave it; escapes
    of braces and leading slashes are without effect.  The definitions are in
    [CodePattern] and [CodeSelect]. *)

From stdpp Require Import gmap.
From S2P Require Import Prelude.
From S2P Require Import RustStr.
From S2P Require Import CodePattern.
From S2P Require Import CodeBraces.
From S2P Require Import CodeSelect.

(** ** Escapes *)

Lemma unescape_app s t : 92 ∉ s → unescape_pattern (s ++ t) = app s <$> unescape_pattern t.
Proof.
  induction s as [|c s IH]; intros Hs; cbn [app unescape_pattern]; [by destruct (unescape_pattern t)|].
  apply not_elem_of_cons in Hs as [Hc Hs]. rewrite (proj2 (Z.eqb_neq c 92)) by congruence. rewrite IH by done.
  by destruct (unescape_pattern t).
Qed.
Lemma unescape_none s : 92 ∉ s → unescape_pattern s = Ok s.
Proof. intros Hs. rewrite <- (app_nil_r s) at 1. rewrite unescape_app by done. cbn. by rewrite app_nil_r. Qed.
Lemma unescape_brace b t : b ∈ chars "{}" → unescape_pattern (92 :: b :: t) = unescape_pattern (b :: t).
Proof.
  intros Hb. apply list_elem_of_In in Hb. by destruct Hb as [<-|[<-|[]]].
Qed.
Lemma unescape_elem s out c : unescape_pattern s = Ok out → c ∈ out → c ∈ s.
Proof.
  remember (length s) as n eqn:Hn. assert (length s <= n)%nat as Hle by lia. clear Hn. revert s out Hle.
  induction n as [|n IH]; intros [|ch s] out Hle; cbn; try (by intros [= <-]) || (cbn in Hle; lia). cbn in Hle.
  destruct (Z.eqb_spec ch 92) as [->|].
  - destruct s as [|next s]; [done|]. intros (o & Ho & Hx)%bind_Ok. assert (c ∈ o → c ∈ s) as Hin by (apply IH; [cbn in Hle; lia|done]).
    case_bool_decide; apply Ok_inj in Hx as <-; rewrite !elem_of_cons; naive_solver.
  - intros (o & Ho & [= <-])%bind_Ok. rewrite !elem_of_cons. intros [->|Hc]; [by left|right]. eapply IH; [|done..]. lia.
Qed.
(** The rules of a pattern, after the escapes are taken out. *)
Lemma pattern_rules_unescape s t t' : 92 ∉ s → s ≠ [] → unescape_pattern t = unescape_pattern t' →
  pattern_rules (s ++ t) = pattern_rules (s ++ t').
Proof.
  intros Hs Hne Ht. destruct s as [|c s]; [done|]. unfold pattern_rules.
  assert (∀ r, strip_prefix (chars "\!") ((c :: s) ++ r) = None) as Hesc.
  { intros r. destruct (strip_prefix _ _) as [x|] eqn:Hx; [|done]. apply strip_prefix_Some in Hx. injection Hx as -> _.
    by apply not_elem_of_cons in Hs as [[] _]. }
  rewrite !Hesc. destruct (decide (c = 33)) as [->|Hc].
  - cbn [app strip_prefix]. rewrite Z.eqb_refl. apply not_elem_of_cons in Hs as [_ Hs].
    change (match s ++ t with [] => Some (s ++ t) | _ => Some (s ++ t) end) with (Some (s ++ t)).
    by rewrite !unescape_app, Ht.
  - assert (∀ r, strip_prefix [33] ((c :: s) ++ r) = None) as ->.
    { intros r. destruct (strip_prefix _ _) as [x|] eqn:Hx; [|done]. apply strip_prefix_Some in Hx. by injection Hx as ->. }
    assert (strip_prefix [33] ((c :: s) ++ t') = None) as ->.
    { destruct (strip_prefix _ _) as [x|] eqn:Hx; [|done]. apply strip_prefix_Some in Hx. by injection Hx as ->. }
    by rewrite !(unescape_app (c :: s)), Ht.
Qed.
(** A backslash in front of a brace has no effect: the escapes are taken out
    before the braces are expanded, so a pattern cannot name a brace. *)
Theorem escaped_braces_expand s t u : s ≠ [] → 92 ∉ s → 92 ∉ t →
  pattern_rules (s ++ chars "\{" ++ t ++ chars "\}" ++ u) = pattern_rules (s ++ chars "{" ++ t ++ chars "}" ++ u).
Proof.
  intros Hne Hs Ht. apply pattern_rules_unescape; [done..|].
  change (chars "\{" ++ t ++ chars "\}" ++ u) with (92 :: 123 :: t ++ 92 :: 125 :: u).
  change (chars "{" ++ t ++ chars "}" ++ u) with ([123] ++ t ++ 125 :: u).
  rewrite unescape_brace by (by left). change (123 :: t ++ 92 :: 125 :: u) with ([123] ++ t ++ 92 :: 125 :: u).
  assert (92 ∉ [123]) as H123 by (by intros ?%list_elem_of_singleton).
  rewrite !(unescape_app [123]), !unescape_app by done. by rewrite unescape_brace by (by right; left).
Qed.
Lemma escaped_braces_expand_witness :
  pattern_rules (chars "a\{b,c\}") = Some (Ok [mk_rule true (chars "ab"); mk_rule true (chars "ac")]) ∧
  pattern_rules (chars "a\{b,c\}") = pattern_rules (chars "a{b,c}").
Proof.
  split; [by vm_compute|]. apply (escaped_braces_expand (chars "a") (chars "b,c") []); [done|by apply (bool_decide_unpack _); vm_compute..].
Defined.

(** ** Absolute patterns *)

Lemma push_not_absolute buf p : 47 ∉ p → is_absolute buf = false → is_absolute (push_path buf p) = false.
Proof.
  intros Hp Hb. unfold push_path, is_absolute in *. assert (starts_with p [47] = false) as Hs.
  { apply not_true_iff_false. intros [r ->]%starts_with_spec. apply Hp. by left. }
  rewrite Hs. destruct buf as [|c buf]; [done|]. destruct (last (c :: buf)) as [d|]; [|done].
  apply not_true_iff_false in Hb. apply not_true_iff_false. rewrite starts_with_spec in *.
  destruct (d =? 47); intros [r Hr]; apply Hb; injection Hr as -> _; by eexists.
Qed.
Lemma native_not_absolute p : is_absolute (pattern_to_native_path p) = false.
Proof.
  unfold pattern_to_native_path. assert (∀ part, part ∈ split 47 p → 47 ∉ part) as Hp by apply split_no_sep.
  revert Hp. assert (is_absolute [] = false) as Hb by done. revert Hb. generalize (@nil Z). generalize (split 47 p).
  intros parts. induction parts as [|part parts IH]; intros buf Hb Hp; cbn [fold_left]; [done|].
  apply IH; [|intros q Hq; apply Hp; by right]. apply push_not_absolute; [apply Hp; by left|done].
Qed.
Lemma native_slash p : pattern_to_native_path (47 :: p) = pattern_to_native_path p.
Proof. unfold pattern_to_native_path. cbn [split]. by rewrite Z.eqb_refl. Qed.
(** A pattern with a leading slash is not refused as absolute: it is checked,
    and without wildcards it selects, as the pattern without the slash. *)
Theorem absolute_pattern_is_relative fs inc p q :
  validate_relative_pattern (47 :: p) = validate_relative_pattern p ∧
  (has_glob_meta p = false → rule_selects fs (mk_rule inc (47 :: p)) q ↔ rule_selects fs (mk_rule inc p) q).
Proof.
  unfold validate_relative_pattern, rule_selects. cbn [pattern]. rewrite native_slash. split; [done|]. intros Hg.
  assert (has_glob_meta (47 :: p) = false) as Hg'.
  { unfold has_glob_meta in *. apply orb_false_iff in Hg as [?%bool_decide_eq_false ?%bool_decide_eq_false].
    apply orb_false_iff. split; apply bool_decide_eq_false; by intros [?|?]%elem_of_cons. }
  by rewrite Hg, Hg'.
Qed.

(** ** Leaving the base directory *)

(** A path whose components are names does not leave the directory it starts in. *)
Definition stays_below (p : path) : Prop := Forall (λ c, ∃ name, c = Normal name) p.
Lemma tree_file_below n p : tree_file n p → stays_below p.
Proof.
  revert n. induction p as [|[| | |x] p IH]; intros n; [constructor|by destruct n..|].
  destruct n; cbn; try done. intros (y & _ & Hy). constructor; [by eexists|by eapply IH].
Qed.
Lemma valid_joined p : validate_relative_pattern p = Ok tt → stays_below (joined (pattern_to_native_path p)).
Proof.
  unfold validate_relative_pattern. intros [_ Hv]%bail_bind_Ok. apply bail_if_Ok in Hv. apply Forall_forall.
  intros c Hc. unfold joined in Hc. rewrite list_elem_of_In in Hc. apply filter_In in Hc as [Hc Hcur].
  apply negb_true_iff, bool_decide_eq_false in Hcur.
  assert (match c with ParentDir | RootDir => true | _ => false end = false) as Hcv.
  { apply not_true_iff_false. intros Ht. apply not_true_iff_false in Hv. apply Hv. apply existsb_exists. by exists c. }
  destruct c; try done. by eexists.
Qed.
Lemma valid_selects fs inc p q : validate_relative_pattern p = Ok tt → rule_selects fs (mk_rule inc p) q → stays_below q.
Proof.
  intros Hv. unfold rule_selects. cbn [pattern]. destruct (has_glob_meta p).
  - intros [(es & _ & Hq) _]. by eapply tree_file_below.
  - intros [_ ->]. by apply valid_joined.
Qed.
Lemma no_brace_first s idx start escaped r : 123 ∉ s → first_brace_from s idx start 0 escaped = Ok r → r = None.
Proof.
  revert idx start escaped. induction s as [|c s IH]; intros idx start escaped; cbn; [by intros _ [= <-]|].
  intros [Hc Hs]%not_elem_of_cons. destruct escaped; [by apply IH|]. destruct (c =? 92); [by apply IH|].
  rewrite (proj2 (Z.eqb_neq c 123)) by congruence. destruct (c =? 125); [done|by apply IH].
Qed.
Lemma no_brace_expand s out : 123 ∉ s → expand_braces s = Some (Ok out) → out = [s].
Proof.
  intros Hs. unfold expand_braces. cbn [expand_braces_fuel]. intros (r & Hr & Hx)%then_Ok. injection Hr as Hr.
  rewrite (no_brace_first _ _ _ _ _ Hs Hr) in Hx. by injection Hx as <-.
Qed.
(** What was unescaped and checked, and the rules it expands to. *)
Lemma pattern_rules_Ok input rules : pattern_rules input = Some (Ok rules) →
  ∃ inc pat out, validate_relative_pattern pat = Ok tt ∧ expand_braces pat = Some (Ok out) ∧ rules = mk_rule inc <$> out ∧
    (123 ∉ input → 123 ∉ pat).
Proof.
  unfold pattern_rules. intros ([inc pat] & Hp & Hx)%then_Ok. apply (inj Some) in Hp. apply then_Ok in Hx as (out & Hout & [= <-]).
  apply bind_Ok in Hp as ([inc' pat'] & Hu & Hp). apply bail_bind_Ok in Hp as [_ Hp].
  apply bind_Ok in Hp as ([] & Hv & [= -> ->]). exists inc, pat, out. split_and!; [done..|]. intros Hin Hpat. apply Hin.
  destruct (strip_prefix (chars "\!") input) as [rest|] eqn:H1'.
  - apply strip_prefix_Some in H1' as ->. apply bind_Ok in Hu as (o & Ho & [= _ <-]).
    apply elem_of_cons in Hpat as [?|Hpat]; [done|]. apply elem_of_app. right. by eapply unescape_elem.
  - destruct (strip_prefix [33] input) as [rest|] eqn:H2'.
    + apply strip_prefix_Some in H2' as ->. apply bind_Ok in Hu as (o & Ho & [= _ <-]).
      apply elem_of_app. right. by eapply unescape_elem.
    + apply bind_Ok in Hu as (o & Ho & [= _ <-]). by eapply unescape_elem.
Qed.
(** A pattern with no brace selects only paths below the base directory. *)
Theorem patterns_without_braces_stay_below input rules fs rule q : 123 ∉ input →
  pattern_rules input = Some (Ok rules) → rule ∈ rules → rule_selects fs rule q → stays_below q.
Proof.
  intros Hin (inc & pat & out & Hv & Hx & -> & Hpat)%pattern_rules_Ok Hr Hq.
  apply no_brace_expand in Hx as ->; [|by apply Hpat]. apply list_elem_of_singleton in Hr as ->. by eapply valid_selects.
Qed.
Lemma patterns_without_braces_stay_below_witness :
  rule_selects toy_fs (mk_rule true (chars "**/*.dll")) [Normal (chars "lib"); Normal (chars "a.dll")] ∧
  stays_below [Normal (chars "lib"); Normal (chars "a.dll")].
Proof.
  assert (rule_selects toy_fs (mk_rule true (chars "**/*.dll")) [Normal (chars "lib"); Normal (chars "a.dll")]) as Hr.
  { split; [|by apply glob_match_true; vm_compute]. eexists. split; [reflexivity|].
    eexists. split; [by left|]. eexists. split; [by left|exact I]. }
  split; [exact Hr|]. apply (patterns_without_braces_stay_below (chars "**/*.dll") [mk_rule true (chars "**/*.dll")] toy_fs
    (mk_rule true (chars "**/*.dll"))); [by apply (bool_decide_unpack _); vm_compute|by vm_compute|by left|exact Hr].
Defined.

(** A file name of plain characters. *)
Definition plain_name (name : str) : Prop :=
  literal name ∧ 47 ∉ name ∧ has_glob_meta name = false ∧ name ∉ [[]; [46]; [46; 46]].
Lemma split_two a b : 47 ∉ a → 47 ∉ b → split 47 (a ++ 47 :: b) = [a; b].
Proof. intros Ha Hb. by rewrite split_app, split_none. Qed.
Lemma native_two a b : 47 ∉ a → 47 ∉ b → a ≠ [] → pattern_to_native_path (a ++ 47 :: b) = a ++ 47 :: b.
Proof.
  intros Ha Hb Hne. unfold pattern_to_native_path. rewrite split_two by done. cbn [fold_left].
  assert (∀ x, 47 ∉ x → starts_with x [47] = false) as Hs.
  { intros x Hx. apply not_true_iff_false. intros [r ->]%starts_with_spec. apply Hx. by left. }
  unfold push_path at 2. rewrite Hs by done. cbn [last]. unfold push_path. rewrite Hs by done.
  destruct (last a) as [c|] eqn:Hl; [|by apply last_None in Hl].
  assert (c ≠ 47) as Hc by (intros ->; apply Ha; by apply last_Some_elem_of in Hl).
  by rewrite (proj2 (Z.eqb_neq c 47)).
Qed.
Lemma components_two a b : 47 ∉ a → 47 ∉ b → a ≠ [] → components (a ++ 47 :: b) = component_of true a ++ component_of false b.
Proof.
  intros Ha Hb Hne. unfold components.
  assert (starts_with (a ++ 47 :: b) [47] = false) as ->.
  { apply not_true_iff_false. intros [r Hr]%starts_with_spec. destruct a as [|c a]; [done|].
    injection Hr as -> _. apply Ha. by left. }
  rewrite split_two by done. cbn. by rewrite app_nil_r.
Qed.
Lemma plain_component name first : plain_name name → component_of first name = [Normal name].
Proof.
  intros (_ & _ & _ & Hn). rewrite !not_elem_of_cons in Hn. destruct Hn as (H1 & H2 & H3 & _). unfold component_of.
  by rewrite !bool_decide_eq_false_2.
Qed.
Lemma no_glob_app s t : has_glob_meta s = false → has_glob_meta t = false → has_glob_meta (s ++ t) = false.
Proof.
  unfold has_glob_meta. rewrite !orb_false_iff, !bool_decide_eq_false, !not_elem_of_app. tauto.
Qed.
(** The text of a name, as a pattern. *)
Definition name_pat (name : str) : pat := foldr PChar PEnd name.
Lemma name_pat_print name : print (name_pat name) = name ∧ denote (name_pat name) = [name] ∧ (literal name → pat_ok false (name_pat name)).
Proof.
  induction name as [|c name (Hp & Hd & Ho)]; [done|].
  change (name_pat (c :: name)) with (PChar c (name_pat name)). cbn [print denote pat_ok]. split_and!; [by rewrite Hp|by rewrite Hd|].
  intros Hl. apply Forall_cons in Hl as [Hc Hl]. split_and!; [done..|by apply Ho].
Qed.
Definition leaving_pat (name : str) : pat :=
  PGroup (More (name_pat (chars "..")) (One (name_pat (chars ".")))) (PChar 47 (name_pat name)).
Lemma leaving_rules name : plain_name name →
  pattern_rules (chars "{..,.}/" ++ name) = Some (Ok [mk_rule true (chars "../" ++ name); mk_rule true (chars "./" ++ name)]).
Proof.
  intros Hn. pose proof Hn as (Hl & Hs & _ & _). destruct (name_pat_print name) as (Hp & Hd & Ho).
  assert (92 ∉ chars "{..,.}/" ++ name) as Hesc.
  { rewrite not_elem_of_app. split; [by apply (bool_decide_unpack _); vm_compute|]. intros Hin.
    eapply Forall_forall in Hl; [|exact Hin]. apply Hl. apply (bool_decide_unpack _). by vm_compute. }
  pose proof (unescape_none _ Hesc) as Hu.
  assert (validate_relative_pattern (chars "{..,.}/" ++ name) = Ok tt) as Hv.
  { change (chars "{..,.}/" ++ name) with (chars "{..,.}" ++ 47 :: name). unfold validate_relative_pattern.
    rewrite native_not_absolute. cbn [bail_if mbind outcome_bind].
    assert (47 ∉ chars "{..,.}") as Hb by (apply (bool_decide_unpack _); by vm_compute).
    rewrite native_two, components_two by done. rewrite (plain_component name) by done. by vm_compute. }
  unfold pattern_rules. change (strip_prefix (chars "\!") (chars "{..,.}/" ++ name)) with (@None str).
  change (strip_prefix [33] (chars "{..,.}/" ++ name)) with (@None str). rewrite Hu. cbn [mbind outcome_bind].
  rewrite bool_decide_eq_false_2 by done. cbn [bail_if mbind outcome_bind]. rewrite Hv. cbn [mbind outcome_bind then_].
  assert (chars "{..,.}/" ++ name = print (leaving_pat name)) as ->
    by (unfold leaving_pat; cbn [print print_alts]; by rewrite Hp).
  unfold expand_braces. rewrite (expand_prints _ (leaving_pat name) []); [|constructor| |lia].
  - cbn [then_]. do 2 f_equal. unfold leaving_pat. cbn [denote denote_alts]. by rewrite Hd.
  - repeat split; try (by apply (bool_decide_unpack _); vm_compute); try done. by apply Ho.
Qed.
(** The check that a pattern stays below the base directory is made before
    the braces are expanded: [../name] is refused, while [{..,.}/name] gives a
    rule that selects the file of that name above the base directory. *)
Theorem braces_leave_the_base fs name : plain_name name → is_file fs (chars "../" ++ name) = true →
  pattern_rules (chars "../" ++ name) = Some (Err "pattern may not traverse outside the base directory: {pattern}") ∧
  ∃ rules rule, pattern_rules (chars "{..,.}/" ++ name) = Some (Ok rules) ∧ rule ∈ rules ∧ include rule = true ∧
    rule_selects fs rule [ParentDir; Normal name].
Proof.
  intros Hn Hf. pose proof Hn as (Hl & Hs & Hg & _).
  change (chars "../" ++ name) with ([46; 46] ++ 47 :: name) in *.
  assert (47 ∉ [46; 46]) as H46 by (by apply (bool_decide_unpack _); vm_compute). split.
  - unfold pattern_rules. change (strip_prefix (chars "\!") ([46; 46] ++ 47 :: name)) with (@None str).
    change (strip_prefix [33] ([46; 46] ++ 47 :: name)) with (@None str).
    assert (92 ∉ [46; 46] ++ 47 :: name) as Hesc.
    { apply not_elem_of_app. split; [by apply (bool_decide_unpack _); vm_compute|]. apply not_elem_of_cons. split; [done|].
      intros Hin. eapply Forall_forall in Hl; [|exact Hin]. apply Hl. apply (bool_decide_unpack _). by vm_compute. }
    rewrite (unescape_none _ Hesc). cbn [mbind outcome_bind]. rewrite bool_decide_eq_false_2 by done. cbn [bail_if mbind outcome_bind]. unfold validate_relative_pattern.
    rewrite native_not_absolute. cbn [bail_if mbind outcome_bind]. rewrite native_two, components_two by done. rewrite (plain_component name) by done. by vm_compute.
  - eexists _, (mk_rule true ([46; 46] ++ 47 :: name)). split; [by apply leaving_rules|]. split; [by left|]. split; [done|].
    unfold rule_selects. cbn [pattern]. rewrite (no_glob_app [46; 46] (47 :: name)) by (done || by apply (no_glob_app [47] name)).
    rewrite native_two by done. split; [done|]. unfold joined. rewrite components_two by done. rewrite (plain_component name) by done. done.
Qed.
Lemma braces_leave_the_base_witness :
  is_file toy_fs (chars "../secret.dll") = true ∧
  ∃ rules rule, pattern_rules (chars "{..,.}/secret.dll") = Some (Ok rules) ∧ rule ∈ rules ∧ include rule = true ∧
    rule_selects toy_fs rule [ParentDir; Normal (chars "secret.dll")].
Proof.
  split; [by vm_compute|]. apply (braces_leave_the_base toy_fs (chars "secret.dll")); [|by vm_compute].
  repeat split; try (by vm_compute); [|by apply (bool_decide_unpack _); vm_compute..].
  apply (bool_decide_unpack _). by vm_compute.
Defined.
