(* ===== verification/CodePlan.v ===== *)
(** The plan of the code command: formats, the nodes of the files selected and
    of the packages inside them, and the run of a plan, of [src/code.rs].

    Opening a ZIP file is the [ZipCrate] class.  What one node's execution does
    is an argument: the formats' signing code is in the other files. *)

From stdpp Require Import gmap.
From S2P Require Import Prelude.
From S2P Require Import RustStr.
From S2P Require Import AppxParts.
From S2P Require Import AppxDigest.
From S2P Require Import CodePattern.
From S2P Require Import CodeSelect.

(** ** Formats *)

Inductive CodeFormat :=
  | Pe | Winmd | Cab | Msi | Msp | Mst | Catalog | Script | Msix | Appx | MsixBundle | AppxBundle | AppxUpload
  | MsixUpload | EncryptedMsix | Nuget | Snupkg | Vsix | ClickOnceApplication | Vsto | Manifest | Deploy
  | AppInstaller | BusinessCentralApp | Zip | Unknown.
#[export] Instance code_format_eq_dec : EqDecision CodeFormat.
Proof. solve_decision. Defined.
Definition is_container (f : CodeFormat) : bool :=
  match f with
  | Nuget | Snupkg | Vsix | Msix | Appx | MsixBundle | AppxBundle | AppxUpload | MsixUpload | Zip => true
  | _ => false
  end.
Definition FORMAT_EXTENSIONS : list (list string * CodeFormat) :=
  [(["exe"; "dll"; "sys"; "ocx"; "efi"; "scr"; "cpl"; "mui"], Pe); (["winmd"], Winmd); (["cab"], Cab); (["msi"], Msi);
   (["msp"], Msp); (["mst"], Mst); (["cat"], Catalog);
   (["ps1"; "psd1"; "psm1"; "ps1xml"; "psc1"; "cdxml"; "mof"; "js"; "vbs"; "wsf"; "jse"; "vbe"; "wsc"], Script);
   (["msix"], Msix); (["appx"], Appx); (["msixbundle"], MsixBundle); (["appxbundle"], AppxBundle);
   (["appxupload"], AppxUpload); (["msixupload"], MsixUpload);
   (["eappx"; "emsix"; "eappxbundle"; "emsixbundle"], EncryptedMsix); (["nupkg"], Nuget); (["snupkg"], Snupkg);
   (["vsix"], Vsix); (["application"], ClickOnceApplication); (["vsto"], Vsto); (["manifest"], Manifest);
   (["deploy"], Deploy); (["appinstaller"], AppInstaller); (["zip"], Zip)]%string.
Definition is_extension (path : str) (expected : str) : bool :=
  match path_extension path with Some ext => eq_ignore_ascii_case ext expected | None => false end.
Definition format_of_extension (ext : str) : CodeFormat :=
  match List.find (λ row, existsb (λ e, bool_decide (ext = chars e)) (fst row)) FORMAT_EXTENSIONS with
  | Some (_, f) => f
  | None => Unknown
  end.
Definition detect_format (path : str) (bytes : option bytes) : CodeFormat :=
  if is_extension path (chars "app") then
    match bytes with
    | Some b => if bool_decide (take 4 b = lit "NAVX") then BusinessCentralApp else Unknown
    | None => Unknown
    end
  else match path_extension path with
       | Some ext => format_of_extension (to_ascii_lowercase ext)
       | None => Unknown
       end.
Definition signer_for_format (f : CodeFormat) : string :=
  match f with
  | Nuget | Snupkg => "nuget-package-native"
  | Vsix => "vsix-opc-xmldsig"
  | ClickOnceApplication | Vsto | Manifest | Deploy => "clickonce-manifest"
  | EncryptedMsix => "msix-encrypted-os-only"
  | AppInstaller => "appinstaller-detached-pkcs7"
  | BusinessCentralApp => "business-central-app"
  | Zip => "container-only"
  | Unknown => "unsupported"
  | _ => "authenticode"
  end.

(** ** The plan under construction *)

Record CodePlanNode := mk_node {
  n_id : nat; n_path : str; n_output_path : str; n_format : CodeFormat; n_depth : nat; n_container : bool; n_signer : string }.
Record PlanBuilder := mk_builder { nodes : list CodePlanNode; edges : list (nat * nat); node_ids : gmap str nat }.
(** What a builder is made with; an output path comes with whether it is an
    existing directory. *)
Record PlanConfig := mk_config {
  nested_excludes : list str; output : option (str * bool); top_level_count : nat; recurse_containers : bool }.
Record NestedEntry := mk_entry { e_display : str; e_output_display : str; e_bytes : bytes }.

Definition normalize_zip_name (name : str) : outcome str :=
  bail_if (bool_decide (name = []) || starts_with name [47] || bool_decide (92 ∈ name)) "unsafe ZIP entry path: {name}";;
  bail_if (existsb (λ part, bool_decide (part = [46]) || bool_decide (part = [46; 46])) (split 47 name))
    "unsafe ZIP entry path: {name}";;
  Ok name.
Definition join_display_path (base rel : str) : str :=
  if bool_decide (base = []) then rel else if ends_with base [47] then base ++ rel else base ++ 47 :: rel.
Definition top_level_output_path (c : PlanConfig) (display : str) : str :=
  match output c with
  | None => display
  | Some (out, is_dir) =>
      let output_display := replace_char 92 [47] out in
      if (bool_decide (top_level_count c = 1)%nat) && negb (is_dir || ends_with out [47] || ends_with out [92])
      then output_display else join_display_path output_display display
  end.
(** Does one of the patterns match one of the texts? *)
Fixpoint any_match (patterns : list str) (texts : list str) : option (outcome bool) :=
  match patterns with
  | [] => Some (Ok false)
  | p :: patterns' =>
      then_ ((fix go texts := match texts with
                              | [] => Some (Ok false)
                              | t :: texts' => then_ (glob_match p t) (λ b, if b : bool then Some (Ok true) else go texts')
                              end) texts) (λ b, if b : bool then Some (Ok true) else any_match patterns' texts)
  end.
(** [sort_by] on the display, which keeps the order of equal ones. *)
Fixpoint insert_nested (e : NestedEntry) (l : list NestedEntry) : list NestedEntry :=
  match l with
  | [] => [e]
  | x :: l' => if str_le (e_display e) (e_display x) then e :: l else x :: insert_nested e l'
  end.
Definition sort_nested (l : list NestedEntry) : list NestedEntry := foldr insert_nested [] l.

Section Planner.
Context `{ZipCrate} (c : PlanConfig).
Fixpoint nested_entries (files : list (outcome ZipFile)) (container container_output : str) :
  option (outcome (list NestedEntry)) :=
  match files with
  | [] => Some (Ok [])
  | r :: files' =>
      then_ (Some r) (λ file,
      if is_directory_name (zf_name file) then nested_entries files' container container_output else
      then_ (Some (normalize_zip_name (zf_name file))) (λ name,
      let display := container ++ 33 :: name in
      let output_display := container_output ++ 33 :: name in
      then_ (any_match (nested_excludes c) [name; replace_char 33 [47] display]) (λ excluded,
      if (excluded : bool) || bool_decide (detect_format name None = Unknown)
      then nested_entries files' container container_output else
      then_ (Some (read_to_end file)) (λ data,
      then_ (nested_entries files' container container_output) (λ rest,
      Some (Ok (mk_entry display output_display data :: rest)))))))
  end.
Definition inspect_zip_entries (reader : bytes) (container container_output : str) : option (outcome (list NestedEntry)) :=
  then_ (Some (with_context (zip_archive_new reader) "open ZIP container {container}")) (λ archive,
  then_ (nested_entries (by_index archive) container container_output) (λ entries, Some (Ok (sort_nested entries)))).

Definition push_node (s : PlanBuilder) (display output_display : str) (format : CodeFormat) (depth : nat) : PlanBuilder :=
  let id := length (nodes s) in
  mk_builder (nodes s ++ [mk_node id display output_display format depth (is_container format) (signer_for_format format)])
    (edges s) (<[display := id]> (node_ids s)).
Definition push_edge (s : PlanBuilder) (before after : nat) : PlanBuilder :=
  mk_builder (nodes s) (edges s ++ [(before, after)]) (node_ids s).
(** [add_node_from_reader]: [prefix] and [content] are what the reader gives,
    [name] the path whose extension counts.  The fuel bounds the nesting. *)
Fixpoint add_node (fuel : nat) (s : PlanBuilder) (name display output_display : str) (depth : nat)
    (prefix : outcome (option bytes)) (content : outcome bytes) : option (outcome (PlanBuilder * nat)) :=
  match fuel with
  | O => None
  | S fuel' =>
      match node_ids s !! display with
      | Some id => Some (Ok (s, id))
      | None =>
          then_ (Some prefix) (λ prefix,
          let format := detect_format name prefix in
          let id := length (nodes s) in
          let s := push_node s display output_display format depth in
          if recurse_containers c && is_container format then
            then_ (Some content) (λ content,
            then_ (inspect_zip_entries content display output_display) (λ nested,
            then_ ((fix go (s : PlanBuilder) (nested : list NestedEntry) : option (outcome PlanBuilder) :=
                      match nested with
                      | [] => Some (Ok s)
                      | e :: nested' =>
                          then_ (add_node fuel' s (e_display e) (e_display e) (e_output_display e) (S depth)
                                   (Ok (Some (e_bytes e))) (Ok (e_bytes e))) (λ '(s, child),
                          go (push_edge s child id) nested')
                      end) s nested) (λ s, Some (Ok (s, id)))))
          else Some (Ok (s, id)))
      end
  end.
Definition add_nested_zip_entry (fuel : nat) (s : PlanBuilder) (e : NestedEntry) (depth : nat) : option (outcome (PlanBuilder * nat)) :=
  add_node fuel s (e_display e) (e_display e) (e_output_display e) depth (Ok (Some (e_bytes e))) (Ok (e_bytes e)).
End Planner.

(** ** Building the plan *)

Definition component_text (c : Component) : list str :=
  match c with RootDir => [] | CurDir => [[46]] | ParentDir => [[46; 46]] | Normal name => [name] end.
(** The file at a path after the base, and the name whose extension counts. *)
Definition open_file (fs : FileSystem) (p : path) : outcome bytes :=
  match stat fs (join [47] (p ≫= component_text)) with Some (File content) => Ok content | _ => Err "open {}" end.
Definition file_text (p : path) : str := match last p with Some (Normal name) => name | _ => [] end.
(** The first four bytes, read for [.app] files only. *)
Definition app_prefix (fs : FileSystem) (p : path) : outcome (option bytes) :=
  if is_extension (file_text p) (chars "app") && is_ok (open_file fs p)
  then content ← open_file fs p; Ok (Some (take 4 content)) else Ok None.
Definition add_path `{ZipCrate} (cfg : PlanConfig) (fuel : nat) (fs : FileSystem) (s : PlanBuilder) (p : path) :
  option (outcome (PlanBuilder * nat)) :=
  let display := normalize_match_path p in
  add_node cfg fuel s (file_text p) display (top_level_output_path cfg display) 0 (app_prefix fs p) (open_file fs p).
Fixpoint add_paths `{ZipCrate} (cfg : PlanConfig) (fuel : nat) (fs : FileSystem) (s : PlanBuilder) (ps : list path) :
  option (outcome PlanBuilder) :=
  match ps with
  | [] => Some (Ok s)
  | p :: ps' => then_ (add_path cfg fuel fs s p) (λ '(s, _), add_paths cfg fuel fs s ps')
  end.
Record CodeArgs := mk_args {
  inputs : list str; file_list : option (outcome str); args_output : option (str * bool); args_recurse : bool;
  max_concurrency : option nat; timestamp_url : option str; timestamp_digest : option str; continue_on_error : bool }.
Definition build_code_plan `{ZipCrate} (fuel : nat) (fs : FileSystem) (args : CodeArgs) : option (outcome PlanBuilder) :=
  then_ (Some (bail_if (bool_decide (max_concurrency args = Some 0%nat)) "--max-concurrency must be greater than zero";;
               match timestamp_url args, timestamp_digest args with
               | Some _, None => Err "`psign-tool code` requires --timestamp-digest with --timestamp-url"
               | None, Some _ => Err "`psign-tool code` requires --timestamp-url with --timestamp-digest"
               | _, _ => Ok tt
               end;;
               match base_node fs with
               | Some (Dir _) => Ok tt
               | Some _ => Err "base directory is not a directory: {}"
               | None => Err "resolve base directory {}"
               end)) (λ _,
  then_ (selection_rules (inputs args) (file_list args)) (λ rules,
  then_ (select_inputs fs rules) (λ selected,
  let cfg := mk_config (pattern <$> List.filter (λ r, negb (include r)) rules) (args_output args)
               (length selected) (args_recurse args) in
  add_paths cfg fuel fs (mk_builder [] [] ∅) selected))).

(** ** Running the plan *)

Section Execute.
(** What the execution of one node does to the files, and the line it reports. *)
Context {Store : Type} (execute_node : CodePlanNode → Store → Store * outcome str) (continue_on_error : bool).
Record Report := mk_report { exit_code : Z; lines : list str }.
(** The failure of one node: a line of its own, or the end of the run. *)
Definition report_result (path : str) (result : outcome str) (r : Report) : outcome Report :=
  match result with
  | Ok line => Ok (mk_report (exit_code r) (lines r ++ [line]))
  | Err e =>
      if continue_on_error then Ok (mk_report 1 (lines r ++ [chars "failed " ++ path ++ chars ": " ++ chars e]))
      else Err e
  | Panic => Panic
  end.
Fixpoint run_sequential (top : list CodePlanNode) (st : Store) (r : Report) : Store * outcome Report :=
  match top with
  | [] => (st, Ok r)
  | node :: top' =>
      let '(st, result) := execute_node node st in
      match report_result (n_path node) result r with
      | Ok r => run_sequential top' st r
      | Err e => (st, Err e)
      | Panic => (st, Panic)
      end
  end.
(** The workers of a batch finish in some order. *)
Fixpoint run_workers (schedule : list CodePlanNode) (st : Store) : Store * list (nat * outcome str) :=
  match schedule with
  | [] => (st, [])
  | node :: schedule' =>
      let '(st, result) := execute_node node st in
      let '(st, results) := run_workers schedule' st in
      (st, (n_id node, result) :: results)
  end.
(** What the handle of a worker gives when it is joined. *)
Definition result_of (results : list (nat * outcome str)) (id : nat) : outcome str :=
  match List.find (λ x, bool_decide (fst x = id)) results with Some (_, r) => r | None => Panic end.
(** The handles of the whole batch are joined, in its order, before any result
    is looked at: [expect] panics at the first worker that did. *)
Fixpoint join_workers (batch : list CodePlanNode) (results : list (nat * outcome str)) : outcome (list (str * outcome str)) :=
  match batch with
  | [] => Ok []
  | node :: batch' =>
      match result_of results (n_id node) with
      | Panic => Panic
      | result => joined ← join_workers batch' results; Ok ((n_path node, result) :: joined)
      end
  end.
Fixpoint report_batch (joined : list (str * outcome str)) (r : Report) : outcome Report :=
  match joined with
  | [] => Ok r
  | (path, result) :: joined' => r ← report_result path result r; report_batch joined' r
  end.
(** The batches of a run, each with the order its workers finish in. *)
Fixpoint run_batches (batches : list (list CodePlanNode * list CodePlanNode)) (st : Store) (r : Report) : Store * outcome Report :=
  match batches with
  | [] => (st, Ok r)
  | (batch, schedule) :: batches' =>
      let '(st, results) := run_workers schedule st in
      match joined ← join_workers batch results; report_batch joined r with
      | Ok r => run_batches batches' st r
      | Err e => (st, Err e)
      | Panic => (st, Panic)
      end
  end.
(** [args.max_concurrency.unwrap_or(1).max(1)] *)
Definition concurrency (args : CodeArgs) : nat := Nat.max (default 1%nat (max_concurrency args)) 1.
(** The nodes of the files selected, in batches of the concurrency. *)
Definition top_nodes (plan : PlanBuilder) : list CodePlanNode := List.filter (λ n, (n_depth n =? 0)%nat) (nodes plan).
Definition batches_of (max_concurrency : nat) (top : list CodePlanNode) : list (list CodePlanNode) :=
  chunks (length top) max_concurrency top.
(** The runs of a plan: one after the other, or in batches, each in some order. *)
Inductive executes (max_concurrency : nat) (plan : PlanBuilder) (st : Store) : Store → outcome Report → Prop :=
  | executes_sequential st' result : max_concurrency = 1%nat →
      run_sequential (top_nodes plan) st (mk_report 0 []) = (st', result) → executes max_concurrency plan st st' result
  | executes_parallel batches st' result : (1 < max_concurrency)%nat →
      fst <$> batches = batches_of max_concurrency (top_nodes plan) →
      Forall (λ b, snd b ≡ₚ fst b) batches →
      run_batches batches st (mk_report 0 []) = (st', result) → executes max_concurrency plan st st' result.
End Execute.

(** ** Running in batches is running in order *)

Section Interleaving.
Context {Store : Type} (execute_node : CodePlanNode → Store → Store * outcome str) (continue_on_error : bool).
(** Two nodes that execute in either order do the same and report the same. *)
Definition commute (a b : CodePlanNode) : Prop := ∀ st,
  let '(st1, ra) := execute_node a st in
  let '(st2, rb) := execute_node b st1 in
  let '(st1', rb') := execute_node b st in
  let '(st2', ra') := execute_node a st1' in
  st2 = st2' ∧ ra = ra' ∧ rb = rb'.
Abbreviation run_seq := (run_sequential execute_node continue_on_error).
Abbreviation workers := (run_workers execute_node).

Lemma workers_ids l st : fst <$> snd (workers l st) = n_id <$> l.
Proof.
  revert st. induction l as [|n l IH]; intros st; cbn; [done|]. destruct (execute_node n st) as [st1 r].
  specialize (IH st1). destruct (workers l st1) as [st2 rs]. cbn in *. by rewrite IH.
Qed.
Lemma workers_perm l l' st : l ≡ₚ l' → NoDup (n_id <$> l) →
  (∀ a b, a ∈ l → b ∈ l → n_id a ≠ n_id b → commute a b) →
  fst (workers l st) = fst (workers l' st) ∧ snd (workers l st) ≡ₚ snd (workers l' st).
Proof.
  intros Hp. revert st. induction Hp as [|x l l' Hp IH|x y l|l l' l'' Hp1 IH1 Hp2 IH2]; intros st Hn Hc; cbn [run_workers].
  - done.
  - destruct (execute_node x st) as [st1 r]. apply NoDup_cons in Hn as [_ Hn].
    destruct (IH st1 Hn) as [Hf Hs]; [intros a b Ha Hb; apply Hc; by right|].
    destruct (workers l st1), (workers l' st1). cbn in *. by rewrite Hf, Hs.
  - assert (commute y x) as Hxy.
    { apply Hc; [by left|by right; left|]. cbn in Hn. apply NoDup_cons in Hn as [Hn _]. apply not_elem_of_cons in Hn as [? _]. done. }
    specialize (Hxy st). destruct (execute_node y st) as [st1 ry] eqn:E1. destruct (execute_node x st1) as [st2 rx] eqn:E2.
    destruct (execute_node x st) as [st1' rx'] eqn:E3. destruct (execute_node y st1') as [st2' ry'] eqn:E4.
    destruct Hxy as (<- & <- & <-). destruct (workers l st2) as [st3 rs]. cbn. split; [done|]. by constructor.
  - destruct (IH1 st Hn Hc) as [Hf1 Hs1]. destruct (IH2 st) as [Hf2 Hs2].
    + by rewrite <- Hp1.
    + intros a b Ha Hb. apply Hc; by rewrite Hp1.
    + split; [by rewrite Hf1|by rewrite Hs1].
Qed.
Lemma result_of_spec results id r : NoDup (fst <$> results) → (id, r) ∈ results → result_of results id = r.
Proof.
  unfold result_of. induction results as [|[i x] results IH]; cbn; [by intros _ ?%elem_of_nil|].
  intros [Hi Hn]%NoDup_cons [[= <- <-]|Hin]%elem_of_cons; [by rewrite bool_decide_eq_true_2|].
  rewrite bool_decide_eq_false_2; [by apply IH|]. intros ->. apply Hi, list_elem_of_fmap. by exists (id, r).
Qed.
Lemma result_of_perm results results' id : results ≡ₚ results' → NoDup (fst <$> results) → id ∈ fst <$> results →
  result_of results id = result_of results' id.
Proof.
  intros Hp Hn ([i r] & -> & Hin)%list_elem_of_fmap. cbn [fst]. rewrite (result_of_spec results i r) by done.
  symmetry. apply result_of_spec; [by rewrite <- Hp|by rewrite <- Hp].
Qed.
Lemma join_workers_ext batch results results' : (∀ n, n ∈ batch → result_of results (n_id n) = result_of results' (n_id n)) →
  join_workers batch results = join_workers batch results'.
Proof.
  induction batch as [|n batch IH]; intros He; cbn [join_workers]; [done|]. rewrite He by (by left).
  rewrite IH; [done|]. intros m Hm. apply He. by right.
Qed.
Lemma join_workers_not_Err batch results e : join_workers batch results ≠ Err e.
Proof.
  induction batch as [|n batch IH]; cbn [join_workers]; [done|].
  destruct (result_of _ _); [|by destruct (join_workers batch results)..|done]. by destruct (join_workers batch results).
Qed.
(** What a run in batches may do: as the run in order does, or panic with a
    worker where the run in order stops at an error before it. *)
Definition as_in_order (top : list CodePlanNode) (run run_seq : Store * outcome Report) : Prop :=
  (snd run = snd run_seq ∧ ∀ r, snd run = Ok r → fst run = fst run_seq) ∨
  (snd run = Panic ∧ (∃ e, snd run_seq = Err e) ∧ ∃ n st, n ∈ top ∧ snd (execute_node n st) = Panic).
Lemma worker_result n batch st st1 res : execute_node n st = (st1, res) → n_id n ∉ n_id <$> batch →
  result_of (snd (workers (n :: batch) st)) (n_id n) = res ∧
  join_workers batch (snd (workers (n :: batch) st)) = join_workers batch (snd (workers batch st1)).
Proof.
  intros Hx Hi. cbn [run_workers]. rewrite Hx. destruct (workers batch st1) as [st2 results]. cbn [snd]. split.
  - unfold result_of. cbn. by rewrite bool_decide_eq_true_2.
  - apply join_workers_ext. intros m Hm. unfold result_of. cbn. rewrite bool_decide_eq_false_2; [done|]. intros Heq. apply Hi.
    rewrite Heq. by apply list_elem_of_fmap_2.
Qed.
Lemma worker_panics batch st : NoDup (n_id <$> batch) → join_workers batch (snd (workers batch st)) = Panic →
  ∃ n st0, n ∈ batch ∧ snd (execute_node n st0) = Panic.
Proof.
  revert st. induction batch as [|n batch IH]; intros st; [done|]. intros [Hi Hn]%NoDup_cons.
  destruct (execute_node n st) as [st1 res] eqn:Hx. destruct (worker_result n batch st st1 res Hx Hi) as [Hr Hj].
  cbn [join_workers]. rewrite Hr, Hj. intros Hp. destruct res; [| |by exists n, st; rewrite Hx; split; [left|]].
  all: destruct (join_workers batch (snd (workers batch st1))) eqn:Hb; [done|by apply join_workers_not_Err in Hb|].
  all: destruct (IH st1 Hn Hb) as (m & st0 & Hm & Hmp); exists m, st0; split; [by right|done].
Qed.
(** A batch is reported as the run in order reports its nodes. *)
Lemma batch_in_order batch st r : NoDup (n_id <$> batch) →
  as_in_order batch (let '(st', results) := workers batch st in (st', joined ← join_workers batch results; report_batch continue_on_error joined r))
    (run_seq batch st r).
Proof.
  revert st r. induction batch as [|n batch IH]; intros st r; [by left|]. intros [Hi Hn]%NoDup_cons.
  destruct (execute_node n st) as [st1 res] eqn:Hx. destruct (worker_result n batch st st1 res Hx Hi) as [Hr Hj].
  pose proof (worker_panics batch st1 Hn) as Hpan. pose proof (IH st1) as IH1.
  assert (fst (workers (n :: batch) st) = fst (workers batch st1)) as Hst by (cbn; rewrite Hx; by destruct (workers batch st1)).
  destruct (workers (n :: batch) st) as [st' results'], (workers batch st1) as [st2 results]. cbn [fst snd] in *. subst st'.
  cbn [join_workers run_sequential]. rewrite Hr, Hj, Hx. destruct res as [line|e|]; [| |by left].
  - cbn [report_result]. specialize (IH1 (mk_report (exit_code r) (lines r ++ [line])) Hn).
    destruct (join_workers batch results) as [joined|e|] eqn:Hb; cbn [mbind outcome_bind report_batch report_result] in *;
      [|by apply join_workers_not_Err in Hb|].
    all: destruct IH1 as [?|(? & ? & m & st0 & ? & ?)]; [by left|right; split_and!; [done..|]; exists m, st0; split; [by right|done]].
  - destruct (join_workers batch results) as [joined|e'|] eqn:Hb; [|by apply join_workers_not_Err in Hb|].
    + cbn [mbind outcome_bind report_batch report_result] in *. destruct continue_on_error; [|by left].
      destruct (IH1 (mk_report 1 (lines r ++ [chars "failed " ++ n_path n ++ chars ": " ++ chars e])) Hn) as [?|(? & ? & m & st0 & ? & ?)];
        [by left|right; split_and!; [done..|]; exists m, st0; split; [by right|done]].
    + cbn [mbind outcome_bind report_result] in *. destruct (Hpan eq_refl) as (m & st0 & Hm & Hmp). destruct continue_on_error.
      * destruct (IH1 (mk_report 1 (lines r ++ [chars "failed " ++ n_path n ++ chars ": " ++ chars e])) Hn) as [?|(? & ? & _)];
          [by left|right; split_and!; [done..|]; exists m, st0; split; [by right|done]].
      * right. split_and!; [done|by exists e|]. exists m, st0. split; [by right|done].
Qed.
Lemma run_sequential_app l l' st r :
  run_seq (l ++ l') st r = match run_seq l st r with (st', Ok r') => run_seq l' st' r' | other => other end.
Proof.
  revert st r. induction l as [|n l IH]; intros st r; cbn [app run_sequential]; [done|].
  destruct (execute_node n st) as [st1 res]. by destruct (report_result _ _ _ _).
Qed.
Lemma as_in_order_more top top' run seq : (∀ n, n ∈ top → n ∈ top') → as_in_order top run seq → as_in_order top' run seq.
Proof. intros Ht [?|(? & ? & n & st & ? & ?)]; [by left|right; eauto 10]. Qed.
Lemma run_batches_in_order batches st r :
  NoDup (n_id <$> concat (fst <$> batches)) → Forall (λ b, snd b ≡ₚ fst b) batches →
  (∀ a b, a ∈ concat (fst <$> batches) → b ∈ concat (fst <$> batches) → n_id a ≠ n_id b → commute a b) →
  as_in_order (concat (fst <$> batches)) (run_batches execute_node continue_on_error batches st r)
    (run_seq (concat (fst <$> batches)) st r).
Proof.
  revert st r. induction batches as [|[batch schedule] batches IH]; intros st r Hn Hp Hc; cbn [run_batches fmap list_fmap fst concat]; [by left|].
  cbn [fmap list_fmap fst concat] in Hn, Hc. rewrite fmap_app in Hn. apply NoDup_app in Hn as (Hn1 & _ & Hn2).
  apply Forall_cons in Hp as [Hsb Hp]. cbn [fst snd] in Hsb. rewrite run_sequential_app.
  destruct (workers_perm batch schedule st) as [Hf Hs]; [done..| |].
  { intros a b Ha Hb. apply Hc; apply elem_of_app; by left. }
  pose proof (batch_in_order batch st r Hn1) as Hb. pose proof (workers_ids batch st) as Hids.
  destruct (workers batch st) as [st1 results]. destruct (workers schedule st) as [st1' results'].
  cbn [fst snd] in *. subst st1'. rewrite (join_workers_ext batch results' results).
  2:{ intros n Hin. symmetry. apply result_of_perm; [done|by rewrite Hids|]. rewrite Hids. by apply list_elem_of_fmap_2. }
  eapply as_in_order_more in Hb; [|intros n Hin; apply elem_of_app; by left; exact Hin].
  destruct (joined ← join_workers batch results; report_batch continue_on_error joined r) as [r1|e|] eqn:Hrep.
  - destruct Hb as [[Hr Hst]|[? _]]; [|done]. cbn [fst snd] in *. specialize (Hst r1 eq_refl).
    destruct (run_seq batch st r) as [st2 res]. cbn [fst snd] in *. subst st2 res.
    eapply as_in_order_more; [|apply IH; [done..|intros a b Ha Hb'; apply Hc; apply elem_of_app; by right]].
    intros n Hin. apply elem_of_app. by right.
  - destruct Hb as [[Hr _]|[? _]]; [|done]. cbn [snd] in Hr. destruct (run_seq batch st r) as [st2 res]. cbn in Hr. subst res. by left.
  - destruct Hb as [[Hr _]|(? & (e & He) & Hw)]; cbn [snd] in *; destruct (run_seq batch st r) as [st2 res]; cbn in *; subst res; [by left|].
    right. split_and!; [done|by exists e|done].
Qed.
End Interleaving.

(** ** The plan is well formed *)

(** Ids are positions, [node_ids] finds them by path, and an edge leads from an
    entry to the package that holds it. *)
Record plan_ok (s : PlanBuilder) : Prop := mk_plan_ok {
  ok_ids : ∀ i n, nodes s !! i = Some n → n_id n = i;
  ok_paths : ∀ d i, node_ids s !! d = Some i ↔ ∃ n, nodes s !! i = Some n ∧ n_path n = d;
  ok_edges : ∀ b a, (b, a) ∈ edges s → ∃ nb na name,
    nodes s !! b = Some nb ∧ nodes s !! a = Some na ∧ n_container na = true ∧ n_path nb = n_path na ++ 33 :: name }.

Section WellFormed.
Context `{ZipCrate} (c : PlanConfig).
Lemma plan_ok_empty : plan_ok (mk_builder [] [] ∅).
Proof.
  split; cbn; [done| |by intros ? ? ?%elem_of_nil]. intros d i. rewrite lookup_empty. split; [done|]. by intros (? & ? & _).
Qed.
Lemma push_node_ok s display out f depth : plan_ok s → node_ids s !! display = None → plan_ok (push_node s display out f depth).
Proof.
  intros [Hi Hp He] Hd. split; cbn.
  - intros i n [?|[Hle Hl]]%lookup_app_Some; [by apply Hi|]. apply list_lookup_singleton_Some in Hl as [Hz <-]. cbn. lia.
  - intros d i. destruct (decide (d = display)) as [->|Hne].
    + rewrite lookup_insert_eq. split.
      * intros [= <-]. eexists. split; [by rewrite list_lookup_middle|done].
      * intros (n & [Hl|[Hle Hl]]%lookup_app_Some & Hn).
        -- assert (node_ids s !! display = Some i) as Hx by (apply Hp; by exists n). congruence.
        -- apply list_lookup_singleton_Some in Hl as [Hz _]. f_equal. lia.
    + rewrite lookup_insert_ne by done. rewrite Hp. split.
      * intros (n & Hl & Hn). exists n. split; [by apply lookup_app_l_Some|done].
      * intros (n & [Hl|[_ Hl]]%lookup_app_Some & Hn); [by exists n|].
        apply list_lookup_singleton_Some in Hl as [_ <-]. by cbn in Hn.
  - intros b a Hba. destruct (He b a Hba) as (nb & na & name & ? & ? & ? & ?). exists nb, na, name.
    split_and!; try done; by apply lookup_app_l_Some.
Qed.
Lemma push_edge_ok s before after nb na name : plan_ok s → nodes s !! before = Some nb → nodes s !! after = Some na →
  n_container na = true → n_path nb = n_path na ++ 33 :: name → plan_ok (push_edge s before after).
Proof.
  intros [Hi Hp He] Hb Ha Hc Hn. split; cbn; [done..|]. intros b a [?|Heq%list_elem_of_singleton]%elem_of_app; [by apply He|].
  injection Heq as -> ->. by exists nb, na, name.
Qed.
Lemma insert_nested_perm e l : insert_nested e l ≡ₚ e :: l.
Proof. induction l as [|x l IH]; cbn; [done|]. destruct (str_le _ _); [done|]. rewrite IH. apply Permutation_swap. Qed.
Lemma sort_nested_perm l : sort_nested l ≡ₚ l.
Proof. induction l as [|e l IH]; cbn; [done|]. by rewrite insert_nested_perm, IH. Qed.
Lemma nested_entries_display files container out nested : nested_entries c files container out = Some (Ok nested) →
  Forall (λ e, ∃ name, e_display e = container ++ 33 :: name) nested.
Proof.
  revert nested. induction files as [|r files IH]; intros nested; cbn [nested_entries]; [by intros [= <-]|].
  intros (file & _ & Hx)%then_Ok. destruct (is_directory_name _); [by apply IH|].
  apply then_Ok in Hx as (name & _ & Hx). apply then_Ok in Hx as (excl & _ & Hx). destruct (_ || _); [by apply IH|].
  apply then_Ok in Hx as (data & _ & Hx). apply then_Ok in Hx as (rest & Hrest & [= <-]).
  constructor; [by exists name|by apply IH].
Qed.
Lemma inspect_display reader container out nested : inspect_zip_entries c reader container out = Some (Ok nested) →
  Forall (λ e, ∃ name, e_display e = container ++ 33 :: name) nested.
Proof.
  unfold inspect_zip_entries. intros (archive & _ & Hx)%then_Ok. apply then_Ok in Hx as (es & Hes & [= <-]).
  rewrite sort_nested_perm. by eapply nested_entries_display.
Qed.
(** The plan after a step keeps the nodes it had. *)
Lemma add_node_ok fuel : ∀ s name display out depth prefix content s' id, plan_ok s →
  add_node c fuel s name display out depth prefix content = Some (Ok (s', id)) →
  plan_ok s' ∧ nodes s `prefix_of` nodes s' ∧ ∃ n, nodes s' !! id = Some n ∧ n_path n = display.
Proof.
  induction fuel as [|fuel IH]; intros s name display out depth prefix content s' id Hs; cbn [add_node]; [done|].
  destruct (node_ids s !! display) as [i|] eqn:Hd.
  { intros [= <- <-]. split_and!; [done..|]. by apply (ok_paths s Hs). }
  intros (pre & _ & Hx)%then_Ok. cbv zeta in Hx. set (f := detect_format name pre) in *.
  set (s1 := push_node s display out f depth) in *. assert (plan_ok s1) as Hs1 by (by apply push_node_ok).
  assert (nodes s `prefix_of` nodes s1) as Hpre1 by (by eexists).
  assert (∃ n, nodes s1 !! length (nodes s) = Some n ∧ n_path n = display ∧ n_container n = is_container f) as (n & Hn & Hnp & Hnc).
  { eexists. split; [cbn; by rewrite list_lookup_middle|done]. }
  destruct (recurse_containers c && is_container f) eqn:Hrec; [|injection Hx as <- <-; split_and!; [done..|by exists n]].
  apply andb_true_iff in Hrec as [_ Hcont].
  apply then_Ok in Hx as (data & _ & Hx). apply then_Ok in Hx as (nested & Hnest & Hx). apply inspect_display in Hnest.
  apply then_Ok in Hx as (s2 & Hgo & [= <- <-]). clearbody s1. revert s1 Hs1 Hpre1 Hn Hgo.
  induction Hnest as [|e nested (ename & He) _ IHn]; intros s1 Hs1 Hpre1 Hn.
  - intros [= <-]. split_and!; [done..|by exists n].
  - intros ([s3 child] & Hadd & Hgo)%then_Ok. apply IH in Hadd as (Hs3 & Hpre3 & nc & Hnc' & Hncp); [|done].
    pose proof (prefix_lookup_Some _ _ _ _ Hn Hpre3) as Hn3. eapply (IHn (push_edge s3 child (length (nodes s)))); [| | |exact Hgo].
    + eapply push_edge_ok; [done|exact Hnc'|exact Hn3|congruence|by rewrite Hncp, Hnp].
    + cbn. by etrans.
    + done.
Qed.
Lemma add_paths_ok fuel fs ps s s' : plan_ok s → add_paths c fuel fs s ps = Some (Ok s') → plan_ok s'.
Proof.
  revert s. induction ps as [|p ps IH]; intros s Hs; cbn [add_paths]; [by intros [= <-]|].
  intros ([s1 id] & Ha & Hx)%then_Ok. unfold add_path in Ha. apply add_node_ok in Ha as (Hs1 & _); [by eapply IH|done].
Qed.
End WellFormed.
Lemma build_plan_ok `{ZipCrate} fuel fs args plan : build_code_plan fuel fs args = Some (Ok plan) → plan_ok plan.
Proof.
  unfold build_code_plan. intros (u & _ & Hx)%then_Ok. apply then_Ok in Hx as (rules & _ & Hx).
  apply then_Ok in Hx as (sel & _ & Hx). cbv zeta in Hx. eapply add_paths_ok; [apply plan_ok_empty|exact Hx].
Qed.
Lemma plan_paths_distinct s : plan_ok s → NoDup (n_path <$> nodes s).
Proof.
  intros Hs. apply NoDup_alt. intros i j d Hi Hj. rewrite list_lookup_fmap in Hi, Hj.
  apply fmap_Some in Hi as (ni & Hi & Hid). apply fmap_Some in Hj as (nj & Hj & Hjd).
  assert (node_ids s !! d = Some i) as E1 by (apply (ok_paths s Hs); by exists ni).
  assert (node_ids s !! d = Some j) as E2 by (apply (ok_paths s Hs); by exists nj). congruence.
Qed.
Lemma plan_ids_distinct s : plan_ok s → NoDup (n_id <$> nodes s).
Proof.
  intros Hs. apply NoDup_alt. intros i j d Hi Hj. rewrite list_lookup_fmap in Hi, Hj.
  apply fmap_Some in Hi as (ni & Hi & ->). apply fmap_Some in Hj as (nj & Hj & Heq).
  rewrite (ok_ids s Hs i ni Hi), (ok_ids s Hs j nj Hj) in Heq. done.
Qed.
Lemma edge_longer s b a : plan_ok s → (b, a) ∈ edges s →
  ∃ nb na, nodes s !! b = Some nb ∧ nodes s !! a = Some na ∧ len (n_path na) < len (n_path nb).
Proof.
  intros Hs (nb & na & name & Hb & Ha & _ & Hn)%(ok_edges s Hs). exists nb, na. split_and!; [done..|].
  rewrite Hn, len_app, len_cons. pose proof (len_nonneg name). lia.
Qed.
Lemma edges_longer s b a : plan_ok s → tc (λ b a, (b, a) ∈ edges s) b a →
  ∃ nb na, nodes s !! b = Some nb ∧ nodes s !! a = Some na ∧ len (n_path na) < len (n_path nb).
Proof.
  intros Hs. induction 1 as [b a He|b m a He _ IH]; [by apply edge_longer|].
  destruct (edge_longer s b m Hs He) as (nb & nm & Hb & Hm & Hl). destruct IH as (nm' & na & Hm' & Ha & Hl').
  exists nb, na. split_and!; [done..|]. assert (nm = nm') as -> by congruence. lia.
Qed.
(** C34: In a plan that is built, ids are positions, no path occurs twice, an edge
    leads from an entry to the package that holds it, and no node comes before
    itself. *)
Theorem plan_is_ordered `{ZipCrate} fuel fs args plan : build_code_plan fuel fs args = Some (Ok plan) →
  (∀ i n, nodes plan !! i = Some n → n_id n = i) ∧ NoDup (n_path <$> nodes plan) ∧
  (∀ b a, (b, a) ∈ edges plan → ∃ nb na name, nodes plan !! b = Some nb ∧ nodes plan !! a = Some na ∧
     n_container na = true ∧ n_path nb = n_path na ++ 33 :: name) ∧
  ∀ i, ¬ tc (λ b a, (b, a) ∈ edges plan) i i.
Proof.
  intros Hs%build_plan_ok. split_and!; [apply Hs|by apply plan_paths_distinct|apply Hs|]. intros i Hi.
  destruct (edges_longer plan i i Hs Hi) as (nb & na & Hb & Ha & Hl). assert (nb = na) as -> by congruence. lia.
Qed.
Lemma filter_ids_distinct f l : NoDup (n_id <$> l) → NoDup (n_id <$> List.filter f l).
Proof.
  induction l as [|n l IH]; cbn; [done|]. intros [Hn Hl]%NoDup_cons. destruct (f n); [|by apply IH]. cbn.
  apply NoDup_cons. split; [|by apply IH]. intros (m & Heq & Hm)%list_elem_of_fmap. apply Hn. rewrite Heq.
  apply list_elem_of_fmap_2. rewrite list_elem_of_In in *. by apply filter_In in Hm as [? _].
Qed.
(** C33: A run in batches, whatever the order in which the workers of a batch
    finish, reports what the run of one node after the other reports, and
    leaves the files as it does unless the run stops at a failure, when the
    execution of a node does not depend on that of another.  There is one
    exception: the handles of a batch are all joined before its results are
    looked at, so where the run in order stops at an error, the run in batches
    panics if a worker of the same batch does. *)
Theorem batches_run_as_in_order `{ZipCrate} {Store} (execute_node : CodePlanNode → Store → Store * outcome str) fuel fs args plan st st' result :
  build_code_plan fuel fs args = Some (Ok plan) →
  (∀ a b, a ∈ nodes plan → b ∈ nodes plan → n_id a ≠ n_id b → commute execute_node a b) →
  executes execute_node (continue_on_error args) (concurrency args) plan st st' result →
  let '(st_seq, result_seq) := run_sequential execute_node (continue_on_error args) (top_nodes plan) st (mk_report 0 []) in
  (result = result_seq ∧ ∀ r, result = Ok r → st' = st_seq) ∨
  (result = Panic ∧ (1 < concurrency args)%nat ∧ (∃ e, result_seq = Err e) ∧
   ∃ n st0, n ∈ top_nodes plan ∧ snd (execute_node n st0) = Panic).
Proof.
  intros Hs%build_plan_ok Hc Hx. destruct Hx as [st' result _ Hrun|batches st' result Hk Hb Hp Hrun]; [by rewrite Hrun; left|].
  assert (concat (fst <$> batches) = top_nodes plan) as Ht.
  { rewrite Hb. unfold batches_of. apply chunks_concat; lia. }
  assert (∀ n, n ∈ top_nodes plan → n ∈ nodes plan) as Hin.
  { intros n. unfold top_nodes. rewrite !list_elem_of_In, filter_In. by intros [? _]. }
  pose proof (run_batches_in_order execute_node (continue_on_error args) batches st (mk_report 0 [])) as Hr.
  rewrite Hrun, Ht in Hr. assert (NoDup (n_id <$> top_nodes plan)) as Hn by (by apply filter_ids_distinct, plan_ids_distinct).
  specialize (Hr Hn Hp ltac:(intros a b Ha%Hin Hb'%Hin; by apply Hc)).
  destruct (run_sequential _ _ _ _ _) as [st_seq result_seq]. destruct Hr as [?|(? & ? & ?)]; [by left|by right].
Qed.

(** ** Planning ends when archives nest to a finite depth *)

Lemma then_ends {A B} (r : option (outcome A)) (f : A → option (outcome B)) :
  r ≠ None → (∀ x, r = Some (Ok x) → f x ≠ None) → then_ r f ≠ None.
Proof. intros Hr Hf. destruct r as [[x| |]|]; cbn; [by apply Hf|done..]. Qed.
Lemma answered_ends {A} (P : A → Prop) r : answered P r → r ≠ None.
Proof. by destruct r. Qed.
Lemma collect_all_ends {A B} (f : A → option (outcome (list B))) xs : (∀ x, x ∈ xs → f x ≠ None) → collect_all f xs ≠ None.
Proof.
  induction xs as [|x xs IH]; intros Hf; cbn; [done|]. apply then_ends; [apply Hf; by left|]. intros out _.
  apply then_ends; [apply IH; intros y Hy; apply Hf; by right|done].
Qed.
Lemma pattern_rules_ends input : pattern_rules input ≠ None.
Proof.
  unfold pattern_rules. apply then_ends; [done|]. intros [inc pat] _. apply then_ends; [|done].
  unfold expand_braces. eapply answered_ends, expand_braces_answered. lia.
Qed.
Lemma selection_rules_ends inputs file_list : selection_rules inputs file_list ≠ None.
Proof.
  unfold selection_rules. apply then_ends; [apply collect_all_ends; intros; apply pattern_rules_ends|]. intros rules _.
  apply then_ends; [|done]. destruct file_list; [|done]. apply then_ends; [done|]. intros text _.
  apply collect_all_ends. intros raw _. cbv zeta. destruct (_ || _); [done|].
  pose proof (pattern_rules_ends (trim raw)). by destruct (pattern_rules (trim raw)).
Qed.
Lemma any_match_ends patterns texts : any_match patterns texts ≠ None.
Proof.
  induction patterns as [|p patterns IH]; cbn [any_match]; [done|]. apply then_ends; [clear IH|by intros []].
  induction texts as [|t texts IHt]; [done|]. destruct (glob_match_total p t) as [b ->]. cbn [then_]. destruct b; [done|exact IHt].
Qed.
Section Ends.
Context `{ZipCrate} (c : PlanConfig).
Lemma nested_entries_ends files container out : nested_entries c files container out ≠ None.
Proof.
  induction files as [|r files IH]; cbn [nested_entries]; [done|]. apply then_ends; [done|]. intros file _.
  destruct (is_directory_name _); [done|]. apply then_ends; [done|]. intros name _. apply then_ends; [apply any_match_ends|].
  intros excl _. destruct (_ || _); [done|]. apply then_ends; [done|]. intros data _. by apply then_ends.
Qed.
Lemma nested_entries_bytes files container out nested e : nested_entries c files container out = Some (Ok nested) → e ∈ nested →
  ∃ zf, Ok zf ∈ files ∧ read_to_end zf = Ok (e_bytes e).
Proof.
  revert nested. induction files as [|r files IH]; intros nested; cbn [nested_entries]; [by intros [= <-] ?%elem_of_nil|].
  intros (zf & Hr & Hx)%then_Ok. injection Hr as ->.
  assert (∀ nested', nested_entries c files container out = Some (Ok nested') → e ∈ nested' →
    ∃ zf', Ok zf' ∈ Ok zf :: files ∧ read_to_end zf' = Ok (e_bytes e)) as Hrest.
  { intros nested' Hn He. destruct (IH nested' Hn He) as (zf' & ? & ?). exists zf'. split; [by right|done]. }
  destruct (is_directory_name _); [by apply Hrest|].
  apply then_Ok in Hx as (name & _ & Hx). apply then_Ok in Hx as (excl & _ & Hx). destruct (_ || _); [by apply Hrest|].
  apply then_Ok in Hx as (data & Hd & Hx). apply then_Ok in Hx as (rest & Hr & [= <-]).
  intros [->|He]%elem_of_cons; [|by eapply Hrest]. exists zf. split; [by left|]. by injection Hd.
Qed.
(** [data] is an entry of the archive [b]. *)
Definition held_in (data b : bytes) : Prop := ∃ archive zf,
  zip_archive_new b = Ok archive ∧ Ok zf ∈ by_index archive ∧ read_to_end zf = Ok data.
Definition ends_at (b : bytes) (bound : nat) : Prop := ∀ fuel s name display out depth prefix,
  (bound <= fuel)%nat → add_node c fuel s name display out depth prefix (Ok b) ≠ None.
Lemma bound_of_all {A} (P : A → nat → Prop) (l : list A) : (∀ x m n, P x m → (m <= n)%nat → P x n) → (∀ x, x ∈ l → ∃ n, P x n) →
  ∃ n, ∀ x, x ∈ l → P x n.
Proof.
  intros Hm. induction l as [|x l IH]; intros Hl; [exists 0%nat; by intros x ?%elem_of_nil|].
  destruct (Hl x ltac:(by left)) as [n Hn]. destruct IH as [m IH]; [intros y Hy; apply Hl; by right|].
  exists (Nat.max n m). intros y [->|Hy]%elem_of_cons; [eapply Hm; [exact Hn|lia]|eapply Hm; [by apply IH|lia]].
Qed.
Lemma ends_at_mono b m n : ends_at b m → (m <= n)%nat → ends_at b n.
Proof. intros Hb Hn fuel s name display out depth prefix Hf. apply Hb. lia. Qed.
Lemma add_node_ends b bound : (∀ data, held_in data b → ends_at data bound) → ends_at b (S bound).
Proof.
  intros Hheld [|fuel] s name display out depth prefix Hf; [lia|]. cbn [add_node].
  destruct (node_ids s !! display); [done|]. apply then_ends; [done|]. intros pre _. cbv zeta. destruct (_ && _); [|done]. cbn [then_].
  apply then_ends.
  { unfold inspect_zip_entries. apply then_ends; [done|]. intros a _. apply then_ends; [apply nested_entries_ends|done]. }
  intros nested Hnest. apply then_ends; [|done].
  assert (∀ e, e ∈ nested → held_in (e_bytes e) b) as Hin.
  { intros e He. unfold inspect_zip_entries in Hnest. apply then_Ok in Hnest as (a & Ha & Hnest). injection Ha as Ha.
    apply with_context_Ok in Ha. apply then_Ok in Hnest as (es & Hes & [= <-]). rewrite sort_nested_perm in He.
    destruct (nested_entries_bytes _ _ _ _ _ Hes He) as (zf & Hzf & Hread). by exists a, zf. }
  clear Hnest. generalize (push_node s display out (detect_format name pre) depth). induction nested as [|e nested IHn]; intros s1; [done|].
  apply then_ends; [apply (Hheld (e_bytes e)); [apply Hin; by left|lia]|].
  intros [s2 child] _. apply IHn. intros e' He'. apply Hin. by right.
Qed.
Lemma nested_ends b : Acc held_in b → ∃ bound, ends_at b bound.
Proof.
  induction 1 as [b _ IH]. destruct (zip_archive_new b) as [archive|e|] eqn:Ha.
  - destruct (bound_of_all (λ r n, ∀ zf data, r = Ok zf → read_to_end zf = Ok data → ends_at data n) (by_index archive)) as [bound Hb].
    + intros r m n Hr Hn zf data Hz Hd. by eapply ends_at_mono; [eapply Hr|].
    + intros r Hr. destruct r as [zf|e|]; [|by exists 0%nat..]. destruct (read_to_end zf) as [data|e|] eqn:Hd; cycle 1.
      1,2: exists 0%nat; intros zf' data [= <-]; by rewrite Hd.
      destruct (IH data) as [n Hn]; [by exists archive, zf|]. exists n. intros zf' data' [= <-]. rewrite Hd. by intros [= <-].
    + exists (S bound). apply add_node_ends. intros data (a & zf & Ha' & Hzf & Hd). rewrite Ha in Ha'. injection Ha' as <-. by eapply Hb.
  - exists 1%nat. apply add_node_ends. intros data (a & zf & Ha' & _). by rewrite Ha in Ha'.
  - exists 1%nat. apply add_node_ends. intros data (a & zf & Ha' & _). by rewrite Ha in Ha'.
Qed.
Lemma add_path_ends fs p : (∀ b, open_file fs p = Ok b → Acc held_in b) →
  ∃ bound, ∀ fuel s, (bound <= fuel)%nat → add_path c fuel fs s p ≠ None.
Proof.
  intros Hacc. unfold add_path. destruct (open_file fs p) as [b|e|].
  - destruct (nested_ends b) as [bound Hb]; [by apply Hacc|]. exists bound. intros fuel s Hf. by apply Hb.
  - exists 1%nat. intros [|fuel] s Hf; [lia|]. cbn [add_node]. destruct (node_ids s !! _); [done|]. apply then_ends; [done|]. intros pre _. by destruct (_ && _).
  - exists 1%nat. intros [|fuel] s Hf; [lia|]. cbn [add_node]. destruct (node_ids s !! _); [done|]. apply then_ends; [done|]. intros pre _. by destruct (_ && _).
Qed.
End Ends.
(** The archives among the files the command line selects nest to a finite
    depth: no chain of archives, each an entry of the one before, is endless. *)
Definition finitely_nested `{ZipCrate} (fs : FileSystem) (args : CodeArgs) : Prop := ∀ rules selected p b,
  selection_rules (inputs args) (file_list args) = Some (Ok rules) → select_inputs fs rules = Some (Ok selected) →
  p ∈ selected → open_file fs p = Ok b → Acc held_in b.
(** C39: When the archives among the files the command line selects nest to a
    finite depth, planning ends. *)
Theorem planning_ends `{ZipCrate} fs args : finitely_nested fs args →
  ∃ bound, ∀ fuel, (bound <= fuel)%nat → build_code_plan fuel fs args ≠ None.
Proof.
  intros Hs. unfold build_code_plan.
  match goal with |- ∃ _, ∀ _, _ → then_ (Some ?r) _ ≠ _ => destruct r as [u| |] eqn:Hpre; [|exists 0%nat; intros ? _; by cbn..] end.
  cbn [then_]. destruct (selection_rules (inputs args) (file_list args)) as [[rules| |]|] eqn:Hr;
    [|exists 0%nat; intros ? _; by cbn..|by apply selection_rules_ends in Hr]. cbn [then_].
  assert (∃ entries, base_node fs = Some (Dir entries)) as (entries & Hb).
  { apply bail_bind_Ok in Hpre as [_ Hpre]. apply bind_Ok in Hpre as (v & _ & Hpre). destruct (base_node fs) as [[]|]; try done. by eexists. }
  destruct (select_from_spec fs entries rules [] Hb) as (sel & Hsel & _); [constructor|]. unfold select_inputs. rewrite Hsel. cbn [then_].
  cbv zeta. set (cfg := mk_config _ _ _ _). clearbody cfg.
  destruct (bound_of_all (λ p n, ∀ fuel s, (n <= fuel)%nat → add_path cfg fuel fs s p ≠ None) sel) as [bound Hbound].
  - intros p m n Hp Hn fuel s Hf. apply Hp. lia.
  - intros p Hp. apply add_path_ends. intros b Ho. by eapply Hs.
  - exists bound. intros fuel Hf. clear Hsel. generalize (mk_builder [] [] ∅). induction sel as [|p sel IH]; intros s; [done|]. cbn [add_paths].
    apply then_ends; [apply Hbound; [by left|done]|]. intros [s1 id] _. apply IH. intros p' Hp'. apply Hbound. by right.
Qed.

(** ** An archive that holds itself *)

Lemma split_suffix pre t : 47 ∉ t → ∃ init leaf, split 47 (pre ++ t) = init ++ [leaf ++ t].
Proof.
  intros Ht. induction pre as [|c pre (init & leaf & IH)]; [exists [], []; by rewrite app_nil_l, split_none|].
  cbn [app split]. rewrite IH. destruct (c =? 47); [by exists ([] :: init), leaf|].
  destruct init as [|p ps]; [by exists [], (c :: leaf)|by exists ((c :: p) :: ps), leaf].
Qed.
Definition SELF_NAME : str := chars "r.zip".
Lemma self_name_format pre data : detect_format (pre ++ 33 :: SELF_NAME) data = Zip.
Proof.
  assert (path_extension (pre ++ 33 :: SELF_NAME) = Some (chars "zip")) as He.
  { destruct (split_suffix pre (33 :: SELF_NAME)) as (init & leaf & Hs); [by apply (bool_decide_unpack _); vm_compute|].
    unfold path_extension, path_file_name. rewrite Hs, List.filter_app.
    assert (Nat.le 6 (length (leaf ++ 33 :: SELF_NAME))) as Hlen
      by (rewrite length_app; change (length (33 :: SELF_NAME)) with 6%nat; apply Nat.le_add_l).
    assert (∀ x, (length x < 6)%nat → leaf ++ 33 :: SELF_NAME ≠ x) as Hne by (intros x Hx Heq; rewrite <- Heq in Hx; apply Nat.lt_nge in Hx; by apply Hx).
    cbn [List.filter]. rewrite !bool_decide_eq_false_2 by (apply Hne; cbn; lia). cbn [negb andb]. rewrite last_snoc.
    rewrite bool_decide_eq_false_2 by (apply Hne; cbn; lia). cbn [mbind option_bind].
    rewrite (rsplit_once_suffix 46 leaf (33 :: SELF_NAME) (chars "!r") (chars "zip")) by (by vm_compute). cbn [mbind option_bind].
    rewrite bool_decide_eq_false_2; [done|]. intros Hn. apply app_eq_nil in Hn as [_ Hn]. by vm_compute in Hn. }
  unfold detect_format, is_extension. rewrite He. by vm_compute.
Qed.
Section Self.
Context `{ZipCrate} (c : PlanConfig) (q : bytes) (archive : ZipArchive) (zf : ZipFile).
(** The archive [q] has one entry, [r.zip], whose contents are [q]. *)
Definition holds_itself : Prop :=
  zip_archive_new q = Ok archive ∧ by_index archive = [Ok zf] ∧ zf_name zf = SELF_NAME ∧ read_to_end zf = Ok q.
(** Such an archive is not finitely nested. *)
Lemma self_not_finitely_nested : holds_itself → ¬ Acc held_in q.
Proof.
  intros (Ha & Hi & _ & Hr) Hacc. assert (held_in q q) as Hq by (exists archive, zf; rewrite Hi; split_and!; [done|by left|done]).
  clear Ha Hi Hr. induction Hacc as [b _ IH]. by apply (IH b).
Qed.
Lemma self_nested container out : holds_itself → nested_excludes c = [] →
  inspect_zip_entries c q container out = Some (Ok [mk_entry (container ++ 33 :: SELF_NAME) (out ++ 33 :: SELF_NAME) q]).
Proof.
  intros (Ha & Hi & Hn & Hr) Hx. unfold inspect_zip_entries. rewrite Ha. cbn [with_context then_]. rewrite Hi.
  cbn [nested_entries then_]. rewrite Hn, Hx. change (is_directory_name SELF_NAME) with false. cbn iota.
  change (normalize_zip_name SELF_NAME) with (@Ok str SELF_NAME). cbn [then_ any_match].
  change (bool_decide (detect_format SELF_NAME None = Unknown)) with false. cbn [orb]. rewrite Hr. done.
Qed.
Lemma self_never_ends : holds_itself → nested_excludes c = [] → recurse_containers c = true →
  ∀ fuel s name display out depth prefix,
  (∀ d i, node_ids s !! d = Some i → (length d < length display)%nat) → is_container (detect_format name prefix) = true →
  add_node c fuel s name display out depth (Ok prefix) (Ok q) = None.
Proof.
  intros Hq Hx Hrec. induction fuel as [|fuel IH]; intros s name display out depth prefix Hs Hc; [done|]. cbn [add_node].
  destruct (node_ids s !! display) as [i|] eqn:Hd; [apply Hs in Hd; lia|]. cbn [then_]. rewrite Hrec, Hc. cbn [andb].
  rewrite (self_nested display out Hq Hx). cbn [then_]. rewrite IH; [done| |].
  - cbn [e_display push_node node_ids]. intros d i. rewrite lookup_insert_Some. rewrite length_app. cbn.
    intros [[<- _]|[_ Hd']]; [lia|apply Hs in Hd'; lia].
  - cbn [e_display]. by rewrite self_name_format.
Qed.
End Self.
Lemma container_not_app name : is_container (detect_format name None) = true → is_extension name (chars "app") = false.
Proof. unfold detect_format. by destruct (is_extension name (chars "app")). Qed.
(** C40: A ZIP whose one entry, [r.zip], holds the ZIP itself is planned without end
    when it is the file selected, containers are recursed into and nothing is
    excluded: no depth of nesting is enough. *)
Theorem self_holding_archive_never_planned `{ZipCrate} q archive zf fs args rules p fuel : holds_itself q archive zf →
  selection_rules (inputs args) (file_list args) = Some (Ok rules) → (∀ r, r ∈ rules → include r = true) →
  select_inputs fs rules = Some (Ok [p]) → open_file fs p = Ok q → is_container (detect_format (file_text p) None) = true →
  args_recurse args = true → max_concurrency args ≠ Some 0%nat → is_Some (timestamp_url args) ↔ is_Some (timestamp_digest args) →
  (∃ entries, base_node fs = Some (Dir entries)) → build_code_plan fuel fs args = None.
Proof.
  intros Hq Hr Hinc Hsel Ho Hc Hrec Hmax Hts (entries & Hb). unfold build_code_plan.
  rewrite bool_decide_eq_false_2 by done. cbn [bail_if mbind outcome_bind].
  assert (match timestamp_url args, timestamp_digest args with
          | Some _, None => Err "`psign-tool code` requires --timestamp-digest with --timestamp-url"
          | None, Some _ => Err "`psign-tool code` requires --timestamp-url with --timestamp-digest"
          | _, _ => Ok tt
          end = Ok tt) as ->.
  { destruct (timestamp_url args), (timestamp_digest args); try done; destruct Hts as [H1 H2];
      [by destruct (H1 ltac:(by eexists))|by destruct (H2 ltac:(by eexists))]. }
  cbn [mbind outcome_bind]. rewrite Hb. cbn [then_]. rewrite Hr. cbn [then_]. rewrite Hsel. cbn [then_].
  assert (List.filter (λ r, negb (include r)) rules = []) as ->.
  { clear -Hinc. induction rules as [|r rules IH]; cbn; [done|]. rewrite Hinc by (by left). cbn. apply IH. intros r' Hr'. apply Hinc. by right. }
  cbv zeta. cbn [add_paths]. unfold add_path, app_prefix. rewrite container_not_app by done. cbn [andb]. rewrite Ho.
  erewrite self_never_ends; [done|exact Hq|done|done| |done]. cbn [node_ids]. intros d i. by rewrite lookup_empty.
Qed.

(** ** Examples *)

Definition toy_file (name : string) (data : bytes) : outcome ZipFile :=
  Ok (mk_zf (chars name) (lit name) Stored 0 (len data) (len data) 0 0 0 [] (Ok data)).
Definition toy_archive (files : list (outcome ZipFile)) : ZipArchive := mk_archive files [] (λ _, Err "not found") files.
Definition ToyNest : ZipCrate := {| zip_archive_new bs :=
  if bool_decide (bs = lit "outer package") then
    Ok (toy_archive [toy_file "lib/" []; toy_file "lib/a.dll" (lit "A"); toy_file "inner.zip" (lit "inner"); toy_file "notes.txt" (lit "N")])
  else if bool_decide (bs = lit "inner") then Ok (toy_archive [toy_file "b.exe" (lit "B")])
  else Err "not a ZIP file" |}.
Definition ToySelf : ZipCrate := {| zip_archive_new bs :=
  if bool_decide (bs = lit "self") then Ok (toy_archive [toy_file "r.zip" (lit "self")]) else Err "not a ZIP file" |}.
Definition toy_tree (zip : string) : FileSystem := mk_fs (Dir [(chars "work", Dir [(chars "pkg.zip", File (lit zip));
  (chars "bin", Dir [(chars "tool.exe", File (lit "T")); (chars "x.dll", File (lit "X"))])])]) [chars "work"].
Definition toy_args (pattern : string) : CodeArgs :=
  mk_args [chars pattern] None (Some (chars "out", true)) true (Some 2%nat) None None true.
Definition plan_of (r : option (outcome PlanBuilder)) : PlanBuilder := match r with Some (Ok p) => p | _ => mk_builder [] [] ∅ end.
Definition toy_plan : PlanBuilder := plan_of (@build_code_plan ToyNest 3 (toy_tree "outer package") (toy_args "**")).
Lemma toy_plan_built : @build_code_plan ToyNest 3 (toy_tree "outer package") (toy_args "**") = Some (Ok toy_plan).
Proof. vm_compute. reflexivity. Qed.
Lemma plan_is_ordered_witness :
  n_path <$> nodes toy_plan = chars <$> ["bin/tool.exe"; "bin/x.dll"; "pkg.zip"; "pkg.zip!inner.zip"; "pkg.zip!inner.zip!b.exe";
    "pkg.zip!lib/a.dll"]%string ∧
  edges toy_plan = [(4, 3); (3, 2); (5, 2)]%nat ∧ NoDup (n_path <$> nodes toy_plan).
Proof.
  split; [by vm_compute|]. split; [by vm_compute|].
  exact (proj1 (proj2 (@plan_is_ordered ToyNest 3 (toy_tree "outer package") (toy_args "**") toy_plan toy_plan_built))).
Defined.
Definition toy_execute (n : CodePlanNode) (st : gmap nat str) : gmap nat str * outcome str := (<[n_id n := n_path n]> st, Ok (n_path n)).
Lemma toy_commute a b : n_id a ≠ n_id b → commute toy_execute a b.
Proof. intros Hne st. unfold toy_execute. split; [by apply insert_insert_ne|done]. Qed.
Definition toy_batches : list (list CodePlanNode * list CodePlanNode) := (λ b, (b, rev b)) <$> batches_of 2 (top_nodes toy_plan).
Lemma batches_run_as_in_order_witness :
  length toy_batches = 2%nat ∧
  fst (run_batches toy_execute true toy_batches ∅ (mk_report 0 [])) =
  fst (run_sequential toy_execute true (top_nodes toy_plan) ∅ (mk_report 0 [])).
Proof.
  split; [by vm_compute|]. destruct (run_batches toy_execute true toy_batches ∅ (mk_report 0 [])) as [st' result] eqn:Hrun.
  assert (executes toy_execute true 2 toy_plan ∅ st' result) as Hx.
  { apply (executes_parallel _ _ _ _ _ toy_batches); [lia| | |exact Hrun].
    - unfold toy_batches. by rewrite <- list_fmap_compose, list_fmap_id.
    - unfold toy_batches. apply Forall_fmap, Forall_true. intros b. cbn. symmetry. apply Permutation_rev. }
  pose proof (@batches_run_as_in_order ToyNest _ toy_execute 3 (toy_tree "outer package") (toy_args "**") toy_plan ∅ st' result
    toy_plan_built) as Hseq. cbn [fst].
  destruct (run_sequential toy_execute true (top_nodes toy_plan) ∅ (mk_report 0 [])) as [st_seq result_seq] eqn:Hs.
  assert (is_Some (ok_opt result)) as Hok.
  { change result with (snd (st', result)). rewrite <- Hrun. vm_compute. by eexists. }
  destruct result as [r| |]; [|by destruct Hok..]. cbn [continue_on_error toy_args] in Hseq. rewrite Hs in Hseq.
  destruct Hseq as [[_ Hst]|[? _]]; [intros; by apply toy_commute|exact Hx|exact (Hst r eq_refl)|done].
Defined.
Lemma toy_nest_finite : well_founded (@held_in ToyNest).
Proof.
  assert (∀ b, b ≠ lit "outer package" → b ≠ lit "inner" → Acc (@held_in ToyNest) b) as Hplain.
  { intros b Hb1 Hb2. constructor. intros data (archive & zf & Ha & _). cbn [ToyNest zip_archive_new] in Ha.
    by rewrite !bool_decide_eq_false_2 in Ha. }
  assert (Acc (@held_in ToyNest) (lit "inner")) as Hinner.
  { constructor. intros data (archive & zf & [= <-] & Hin & Hd). apply list_elem_of_singleton in Hin as [= ->].
    injection Hd as <-. by apply Hplain. }
  assert (Acc (@held_in ToyNest) (lit "outer package")) as Houter.
  { constructor. intros data (archive & zf & [= <-] & Hin & Hd). apply list_elem_of_In in Hin. cbn in Hin.
    destruct Hin as [[= <-]|[[= <-]|[[= <-]|[[= <-]|[]]]]]; injection Hd as <-; [by apply Hplain..|exact Hinner|by apply Hplain]. }
  intros b. destruct (decide (b = lit "outer package")) as [->|]; [done|]. destruct (decide (b = lit "inner")) as [->|]; [done|by apply Hplain].
Qed.
Lemma planning_ends_witness : ∃ bound, ∀ fuel, (bound <= fuel)%nat →
  @build_code_plan ToyNest fuel (toy_tree "outer package") (toy_args "**") ≠ None.
Proof. apply (@planning_ends ToyNest). intros rules selected p b _ _ _ _. apply toy_nest_finite. Defined.
Lemma self_holding_archive_never_planned_witness : @build_code_plan ToySelf 100 (toy_tree "self") (toy_args "*.zip") = None.
Proof.
  eapply (@self_holding_archive_never_planned ToySelf (lit "self") (toy_archive [toy_file "r.zip" (lit "self")])
    (mk_zf (chars "r.zip") (lit "r.zip") Stored 0 4 4 0 0 0 [] (Ok (lit "self")))
    (toy_tree "self") (toy_args "*.zip") [mk_rule true (chars "*.zip")] [Normal (chars "pkg.zip")] 100%nat).
  - by repeat split.
  - by vm_compute.
  - by intros r ->%list_elem_of_singleton.
  - by vm_compute.
  - by vm_compute.
  - by vm_compute.
  - done.
  - done.
  - cbn. by split; intros [].
  - eexists. by vm_compute.
Defined.
