(* ===== verification/CodeXml.v ===== *)
(** XML as text: finding tags and changing attributes, and the signatures of
    ClickOnce manifests, of [src/code.rs].

    Positions are character indices: the code only cuts at matches of ASCII
    text.  The key is an argument: what the signer makes of a signed info. *)

From S2P Require Import Prelude.
From S2P Require Import RustStr.
From S2P Require Import Find.
From S2P Require Import Base64.
From S2P Require Import PeDigest.
From S2P Require Import MsixStage.

(** ** Finding tags *)

Record XmlStartTagSpan := mk_tag { t_start : Z; t_end : Z; t_name : str }.
(** [text[from..].find(needle)], from the start of the text. *)
Definition find_from (text : str) (from : Z) (needle : str) : outcome (option Z) :=
  rest ← index_range text from (len text);
  Ok (Z.add from <$> find rest needle).
(** [s.find(|ch| f(ch))] *)
Fixpoint position (f : char → bool) (s : str) : option Z :=
  match s with
  | [] => None
  | c :: s' => if f c then Some 0 else Z.succ <$> position f s'
  end.
Definition ends_name (c : char) : bool := is_whitespace c || (c =? 62) || (c =? 47).
Definition local_part (name : str) : str := match rsplit_once 58 name with Some (_, local) => local | None => name end.
(** The tag that opens at [start] and is closed. *)
Definition tag_at (text : str) (start : Z) (unclosed : string) : outcome XmlStartTagSpan :=
  found ← find_from text start [62];
  end_ ← ok_or found unclosed;
  body ← index_range text (start + 1) (end_ + 1);
  let name_end := match position ends_name body with Some offset => start + 1 + offset | None => end_ end in
  name ← index_range text (start + 1) name_end;
  Ok (mk_tag start end_ name).

Fixpoint find_tag_fuel (fuel : nat) (text local_name : str) (cursor : Z) : option (outcome (option XmlStartTagSpan)) :=
  match fuel with
  | O => None
  | S fuel' =>
      then_ (Some (find_from text cursor [60])) (λ found,
      match found with
      | None => Some (Ok None)
      | Some start =>
          then_ (Some (index_range text (start + 1) (len text))) (λ after,
          match after with
          | [] => Some (Ok None)
          | first :: _ =>
              if bool_decide (first ∈ chars "/!?") then find_tag_fuel fuel' text local_name (start + 1)
              else then_ (Some (tag_at text start "ClickOnce XML tag is not closed")) (λ tag,
                if bool_decide (local_part (t_name tag) = local_name) then Some (Ok (Some tag))
                else find_tag_fuel fuel' text local_name (t_end tag + 1))
          end)
      end)
  end.
Definition find_xml_start_tag_by_local_name (text local_name : str) (from : Z) : option (outcome (option XmlStartTagSpan)) :=
  find_tag_fuel (S (length text)) text local_name from.
Definition closing (name : str) : str := chars "</" ++ name ++ chars ">".
Definition find_xml_element_span_by_local_name (text local_name : str) (from : Z) : option (outcome (option (Z * Z))) :=
  then_ (find_xml_start_tag_by_local_name text local_name from) (λ found,
  match found with
  | None => Some (Ok None)
  | Some tag =>
      Some (let close := closing (t_name tag) in
            at_ ← find_from text (t_end tag + 1) close;
            close_start ← ok_or at_ "ClickOnce XML </{}> tag is not closed";
            Ok (Some (t_start tag, close_start + len close)))
  end).
Fixpoint find_root_fuel (fuel : nat) (text : str) (cursor : Z) : option (outcome XmlStartTagSpan) :=
  let no_root := Err "ClickOnce manifest does not contain a root XML element" in
  match fuel with
  | O => None
  | S fuel' =>
      then_ (Some (find_from text cursor [60])) (λ found,
      match found with
      | None => Some no_root
      | Some start =>
          then_ (Some (index_range text (start + 1) (len text))) (λ after,
          match after with
          | [] => Some no_root
          | first :: _ =>
              if bool_decide (first ∈ chars "?!") then
                then_ (Some (found ← find_from text start [62];
                             ok_or found "ClickOnce XML declaration/comment is not closed")) (λ end_,
                find_root_fuel fuel' text (end_ + 1))
              else if first =? 47 then Some (Err "ClickOnce XML starts with an unexpected closing tag")
              else Some (tag_at text start "ClickOnce XML root tag is not closed")
          end)
      end)
  end.
Definition find_xml_root_start_tag (text : str) : option (outcome XmlStartTagSpan) := find_root_fuel (S (length text)) text 0.

(** ** Changing attributes *)

Definition replace_or_insert_xml_attr (tag attr escaped_value : str) : outcome str :=
  let needle := attr ++ chars "=" ++ [34] in
  match find tag needle with
  | Some idx =>
      let value_start := idx + len needle in
      found ← find_from tag value_start [34];
      value_end ← ok_or found "XML {attr} attribute is not closed";
      before ← index_range tag 0 value_start;
      after ← index_range tag value_end (len tag);
      Ok (before ++ escaped_value ++ after)
  | None =>
      insert_at ← ok_or (match rfind tag (chars "/>") with Some at_ => Some at_ | None => rfind tag [62] end)
                    "XML tag is not closed";
      before ← index_range tag 0 insert_at;
      after ← index_range tag insert_at (len tag);
      Ok (before ++ [32] ++ attr ++ chars "=" ++ [34] ++ escaped_value ++ [34] ++ after)
  end.
Fixpoint update_tags_fuel (fuel : nat) (text tag attr escaped_value out : str) (cursor : Z) : option (outcome str) :=
  match fuel with
  | O => None
  | S fuel' =>
      then_ (Some (find_from text cursor (60 :: tag))) (λ found,
      match found with
      | None => Some (rest ← index_range text cursor (len text); Ok (out ++ rest))
      | Some start =>
          then_ (Some (found ← find_from text start [62];
                       end_ ← ok_or found "XML <{tag}> tag is not closed";
                       kept ← index_range text cursor start;
                       old ← index_range text start (end_ + 1);
                       new ← replace_or_insert_xml_attr old attr escaped_value;
                       Ok (out ++ kept ++ new, end_ + 1))) (λ '(out, cursor),
          update_tags_fuel fuel' text tag attr escaped_value out cursor)
      end)
  end.
Definition update_attr_for_tags (text tag attr escaped_value : str) : option (outcome str) :=
  update_tags_fuel (S (length text)) text tag attr escaped_value [] 0.
Fixpoint update_local_fuel (fuel : nat) (text local_name attr escaped_value out : str) (cursor : Z) : option (outcome str) :=
  match fuel with
  | O => None
  | S fuel' =>
      then_ (find_xml_start_tag_by_local_name text local_name cursor) (λ found,
      match found with
      | None => Some (rest ← index_range text cursor (len text); Ok (out ++ rest))
      | Some tag =>
          then_ (Some (kept ← index_range text cursor (t_start tag);
                       old ← index_range text (t_start tag) (t_end tag + 1);
                       new ← replace_or_insert_xml_attr old attr escaped_value;
                       Ok (out ++ kept ++ new))) (λ out,
          update_local_fuel fuel' text local_name attr escaped_value out (t_end tag + 1))
      end)
  end.
Definition update_attr_for_local_tags (text local_name attr escaped_value : str) : option (outcome str) :=
  update_local_fuel (S (length text)) text local_name attr escaped_value [] 0.

(** ** App Installer descriptors *)

Definition validate_appinstaller_descriptor (bytes : bytes) : option (outcome unit) :=
  then_ (Some (ok_or (from_utf8 bytes) "App Installer descriptor is not UTF-8")) (λ text,
  then_ (Some (bail_if (negb (contains text (chars "<AppInstaller"))) "App Installer descriptor root <AppInstaller> not found")) (λ _,
  then_ (find_xml_start_tag_by_local_name text (chars "MainPackage") 0) (λ package,
  match package with
  | Some _ => Some (Ok tt)
  | None =>
      then_ (find_xml_start_tag_by_local_name text (chars "MainBundle") 0) (λ bundle,
      Some (bail_if (bool_decide (bundle = None)) "App Installer descriptor does not contain MainPackage or MainBundle"))
  end))).
Definition update_appinstaller_publisher_bytes (bytes : bytes) (publisher : str) : option (outcome Prelude.bytes) :=
  then_ (Some (bail_if (bool_decide (publisher = [])) "App Installer publisher cannot be empty";;
               ok_or (from_utf8 bytes) "App Installer descriptor is not UTF-8")) (λ text,
  then_ (validate_appinstaller_descriptor bytes) (λ _,
  let escaped := xml_escape_attr publisher in
  then_ (update_attr_for_local_tags text (chars "MainPackage") (chars "Publisher") escaped) (λ updated,
  then_ (update_attr_for_local_tags updated (chars "MainBundle") (chars "Publisher") escaped) (λ updated,
  Some (Ok (encode_utf8 updated)))))).

(** ** ClickOnce manifests *)

Inductive VsixHashAlgorithm := VsixSha256 | VsixSha384 | VsixSha512.
Definition clickonce_signature_algorithm_uri (digest : VsixHashAlgorithm) : str :=
  match digest with
  | VsixSha256 => chars "http://www.w3.org/2001/04/xmldsig-more#rsa-sha256"
  | VsixSha384 => chars "http://www.w3.org/2001/04/xmldsig-more#rsa-sha384"
  | VsixSha512 => chars "http://www.w3.org/2001/04/xmldsig-more#rsa-sha512"
  end.
Definition clickonce_signature_digest_uri (digest : VsixHashAlgorithm) : str :=
  match digest with
  | VsixSha256 => chars "http://www.w3.org/2001/04/xmlenc#sha256"
  | VsixSha384 => chars "http://www.w3.org/2001/04/xmldsig-more#sha384"
  | VsixSha512 => chars "http://www.w3.org/2001/04/xmlenc#sha512"
  end.
Definition unsigned_clickonce_manifest_text (text : str) : option (outcome str) :=
  then_ (find_xml_element_span_by_local_name text (chars "Signature") 0) (λ span,
  match span with
  | None => Some (Ok text)
  | Some (start, end_) =>
      Some (before ← index_range text 0 start; after ← index_range text end_ (len text); Ok (before ++ after))
  end).
Definition clickonce_manifest_has_signature (bytes : bytes) : bool :=
  match from_utf8 bytes with
  | Some text =>
      match find_xml_element_span_by_local_name text (chars "Signature") 0 with Some (Ok (Some _)) => true | _ => false end
  | None => false
  end.
(** [q s] is [s] in double quotes. *)
Definition q (s : str) : str := [34] ++ s ++ [34].
Section ClickOnce.
Context `{Base64} `{DigestOracle}.
Definition clickonce_signature_digest_bytes (alg : VsixHashAlgorithm) (bytes : bytes) : Prelude.bytes :=
  digest (match alg with VsixSha256 => Sha256 | VsixSha384 => Sha384 | VsixSha512 => Sha512 end) bytes.
Definition clickonce_manifest_signed_info_xml (unsigned_manifest_text : str) (alg : VsixHashAlgorithm) : str :=
  let digest_b64 := b64_encode (clickonce_signature_digest_bytes alg (encode_utf8 unsigned_manifest_text)) in
  chars "<SignedInfo><CanonicalizationMethod Algorithm=" ++ q (chars "http://www.w3.org/2001/10/xml-exc-c14n#")
  ++ chars "/><SignatureMethod Algorithm=" ++ q (clickonce_signature_algorithm_uri alg)
  ++ chars "/><Reference URI=" ++ q [] ++ chars "><Transforms><Transform Algorithm="
  ++ q (chars "http://www.w3.org/2000/09/xmldsig#enveloped-signature")
  ++ chars "/></Transforms><DigestMethod Algorithm=" ++ q (clickonce_signature_digest_uri alg)
  ++ chars "/><DigestValue>" ++ digest_b64 ++ chars "</DigestValue></Reference></SignedInfo>".
Definition clickonce_manifest_signature_xml (signed_info : str) (signature cert_der : bytes) : str :=
  chars "<Signature xmlns=" ++ q (chars "http://www.w3.org/2000/09/xmldsig#") ++ chars ">" ++ signed_info
  ++ chars "<SignatureValue>" ++ b64_encode signature ++ chars "</SignatureValue><KeyInfo><X509Data><X509Certificate>"
  ++ b64_encode cert_der ++ chars "</X509Certificate></X509Data></KeyInfo></Signature>".
Definition insert_clickonce_signature_xml (unsigned_manifest_text signature_xml : str) : option (outcome str) :=
  then_ (find_xml_root_start_tag unsigned_manifest_text) (λ root,
  Some (let close := closing (t_name root) in
        close_start ← ok_or (rfind unsigned_manifest_text close) "ClickOnce manifest root </{}> tag is not closed";
        before ← index_range unsigned_manifest_text 0 close_start;
        after ← index_range unsigned_manifest_text close_start (len unsigned_manifest_text);
        Ok (before ++ signature_xml ++ after))).
(** What the signer makes of a signed info: the signature and the certificate. *)
Context (sign_xml_signed_info : VsixHashAlgorithm → bytes → outcome (bytes * bytes)).
Definition sign_clickonce_manifest_bytes (input_bytes : bytes) (alg : VsixHashAlgorithm) (timestamp : bool) :
  option (outcome bytes) :=
  then_ (Some (bail_if timestamp "ClickOnce manifest XMLDSig timestamping is not implemented in `psign-tool code` yet";;
               ok_or (from_utf8 input_bytes) "read ClickOnce manifest {label} as UTF-8 XML")) (λ text,
  then_ (unsigned_clickonce_manifest_text text) (λ unsigned,
  let signed_info := clickonce_manifest_signed_info_xml unsigned alg in
  then_ (Some (sign_xml_signed_info alg (encode_utf8 signed_info))) (λ '(signature, cert_bytes),
  let signature_xml := clickonce_manifest_signature_xml signed_info signature cert_bytes in
  then_ (insert_clickonce_signature_xml unsigned signature_xml) (λ signed, Some (Ok (encode_utf8 signed)))))).
End ClickOnce.
