(* ===== verification/ClickOnce.v ===== *)
(** Signing a ClickOnce manifest again: the signature written is the one that
    is found and taken out, so the digest and the result are the same.  The
    definitions are in [CodeXml]. *)

From S2P Require Import Prelude.
From S2P Require Import RustStr.
From S2P Require Import Find.
From S2P Require Import Base64.
From S2P Require Import PeDigest.
From S2P Require Import CodeXml.

(** ** Searching a longer text *)

Lemma index_range_longer {A} (pre r : list A) s e x :
  index_range pre s e = Ok x → index_range (pre ++ r) s e = Ok x.
Proof.
  intros (? & ? & ? & ->)%index_range_Ok. pose proof (len_nonneg r).
  rewrite index_range_in by (rewrite ?len_app; lia). by rewrite sub_app_l by lia.
Qed.
Lemma index_range_tail {A} (pre r : list A) s x :
  index_range pre s (len pre) = Ok x → index_range (pre ++ r) s (len (pre ++ r)) = Ok (x ++ r).
Proof.
  intros (? & ? & ? & ->)%index_range_Ok. pose proof (len_nonneg r).
  rewrite index_range_in by (rewrite ?len_app; lia). f_equal. rewrite len_app, (sub_split _ s (len pre)) by (rewrite ?len_app; lia).
  rewrite sub_app_l, sub_app_r by lia. f_equal.
  rewrite Z.sub_diag. replace (len pre + len r - len pre) with (len r) by lia. apply sub_full.
Qed.
Lemma find_from_Ok text c n o :
  find_from text c n = Ok o ↔ ∃ rest, index_range text c (len text) = Ok rest ∧ o = Z.add c <$> find rest n.
Proof. unfold find_from. rewrite bind_Ok. split; intros (rest & H1 & H2); exists rest; (split; [done|]); congruence. Qed.
Lemma find_from_longer pre r c n k : find_from pre c n = Ok (Some k) → find_from (pre ++ r) c n = Ok (Some k).
Proof.
  rewrite !find_from_Ok. intros (rest & Hr & Hk). exists (rest ++ r). split; [by apply index_range_tail|].
  destruct (find rest n) as [j|] eqn:E; [|done]. by rewrite (find_longer _ _ _ _ E).
Qed.
Lemma find_past s d rest : d ∉ s → find (s ++ d :: rest) [d] = Some (len s).
Proof.
  induction s as [|c s IH]; intros Hd; cbn [app]; rewrite find_cons; cbn [strip_prefix].
  - rewrite Z.eqb_refl. by rewrite bool_decide_eq_true_2 by (by eexists).
  - apply not_elem_of_cons in Hd as [Hc Hd]. rewrite (proj2 (Z.eqb_neq _ _)) by congruence.
    rewrite bool_decide_eq_false_2 by (by intros [? ?]). rewrite IH by done. cbn. rewrite len_cons. f_equal. lia.
Qed.
Lemma find_none_notin s d : find s [d] = None → d ∉ s.
Proof. rewrite find_None. intros H Hd. apply list_elem_of_split in Hd as (a & b & ->). eapply H. by exists a, b. Qed.
Lemma find_from_end pre d rest c : find_from pre c [d] = Ok None → find_from (pre ++ d :: rest) c [d] = Ok (Some (len pre)).
Proof.
  rewrite !find_from_Ok. intros (r & Hr & Hn). exists (r ++ d :: rest). split; [by apply index_range_tail|].
  symmetry in Hn. apply fmap_None, find_none_notin in Hn. rewrite find_past by done. cbn. f_equal.
  apply index_range_Ok in Hr as (? & ? & ? & ->). rewrite len_sub by lia. lia.
Qed.
Lemma tag_at_longer pre r start msg tag : tag_at pre start msg = Ok tag → tag_at (pre ++ r) start msg = Ok tag.
Proof.
  unfold tag_at. intros ([end_|] & Hf & H)%bind_Ok; [|done]. rewrite (find_from_longer _ _ _ _ _ Hf).
  cbn [mbind outcome_bind ok_or] in H |- *.
  apply bind_Ok in H as (body & Hb & H). rewrite (index_range_longer _ _ _ _ _ Hb). cbn [mbind outcome_bind].
  apply bind_Ok in H as (name & Hn & H). by rewrite (index_range_longer _ _ _ _ _ Hn).
Qed.

(** ** A tag after text without it *)

Lemma find_tag_fuel_more f f' text name c r :
  find_tag_fuel f text name c = Some r → (f ≤ f')%nat → find_tag_fuel f' text name c = Some r.
Proof.
  revert f' c. induction f as [|f IH]; intros [|f'] c; try done; [lia|]. cbn [find_tag_fuel].
  destruct (find_from text c [60]) as [[start|]| |]; cbn [then_]; try done.
  destruct (index_range text (start + 1) (len text)) as [[|first after]| |]; cbn [then_]; try done.
  destruct (bool_decide _); [intros; apply IH; [done|lia]|].
  destruct (tag_at text start _) as [t| |]; cbn [then_]; try done.
  destruct (bool_decide _); [done|intros; apply IH; [done|lia]].
Qed.
Lemma open_at_end pre c start :
  find_from pre c [60] = Ok (Some start) → index_range pre (start + 1) (len pre) = Ok [] → last pre = Some 60.
Proof.
  rewrite find_from_Ok. intros (rest & Hr & Hk) Hi. apply index_range_Ok in Hr as (? & ? & ? & ->).
  destruct (find _ _) as [j|] eqn:E; [|done]. injection Hk as ->. apply find_Some in E as [(a & b & Hab & Ha) _].
  apply index_range_Ok in Hi as (? & ? & ? & Hi). symmetry in Hi. apply (f_equal len) in Hi. rewrite len_sub, len_nil in Hi by lia.
  pose proof (f_equal len Hab) as Hl. rewrite len_sub, !len_app, len_cons, len_nil in Hl by lia. pose proof (len_nonneg b).
  assert (b = []) as -> by (by (apply len_0_nil; lia)).
  rewrite (sub_head_tail pre c) by lia. rewrite Hab. by rewrite app_nil_r, app_assoc, last_snoc.
Qed.
(** The search of a text in which it finds nothing, and which does not end
    in an open bracket, goes on to what follows. *)
Lemma find_tag_app f pre name c x r tag :
  find_tag_fuel f pre name c = Some (Ok None) → last pre ≠ Some 60 → x ∉ chars "/!?" →
  tag_at (pre ++ 60 :: x :: r) (len pre) "ClickOnce XML tag is not closed" = Ok tag → local_part (t_name tag) = name →
  find_tag_fuel f (pre ++ 60 :: x :: r) name c = Some (Ok (Some tag)).
Proof.
  intros H Hlast Hx Htag Hname. revert c H. induction f as [|f IH]; intros c H; [done|]. cbn [find_tag_fuel] in H |- *.
  destruct (find_from pre c [60]) as [[start|]| |] eqn:Ef; cbn [then_] in H; try done.
  - rewrite (find_from_longer _ _ _ _ _ Ef). cbn [then_].
    destruct (index_range pre (start + 1) (len pre)) as [[|first after]| |] eqn:Ei; cbn [then_] in H; try done.
    { exfalso. apply Hlast. by apply (open_at_end pre c start). }
    rewrite (index_range_tail _ _ _ _ Ei). cbn [then_ app].
    destruct (bool_decide (first ∈ _)); [by apply IH|].
    destruct (tag_at pre start _) as [t| |] eqn:Et; cbn [then_] in H; try done.
    rewrite (tag_at_longer _ _ _ _ _ Et). cbn [then_]. destruct (bool_decide (local_part (t_name t) = name)); [done|by apply IH].
  - rewrite (find_from_end _ _ _ _ Ef). cbn [then_].
    rewrite index_range_in by (rewrite ?len_app, ?len_cons; pose proof (len_nonneg pre); pose proof (len_nonneg r); lia).
    cbn [then_]. replace (sub _ _ _) with (x :: r).
    2:{ replace (pre ++ 60 :: x :: r) with ((pre ++ [60]) ++ x :: r) by (by rewrite <-app_assoc).
        rewrite sub_app_r by (rewrite len_app, len_cons, len_nil; lia). rewrite !len_app, len_cons, len_nil.
        rewrite <-(sub_full (x :: r)) at 1. f_equal; lia. }
    rewrite bool_decide_eq_false_2 by done. rewrite Htag. cbn [then_]. by rewrite bool_decide_eq_true_2.
Qed.

(** ** The signature written *)

Definition SIGNATURE_CLOSE : str := closing (chars "Signature").
Definition SIGNATURE_HEAD : str := chars "<Signature xmlns=" ++ q (chars "http://www.w3.org/2000/09/xmldsig#") ++ chars ">".
Section Written.
Context `{Base64} `{DigestOracle}.
(** What stands between the opening and the closing tag. *)
Definition signature_body (signed_info : str) (signature cert : bytes) : str :=
  signed_info ++ chars "<SignatureValue>" ++ b64_encode signature ++ chars "</SignatureValue><KeyInfo><X509Data><X509Certificate>"
  ++ b64_encode cert ++ chars "</X509Certificate></X509Data></KeyInfo>".
Lemma signature_xml_parts info signature cert :
  clickonce_manifest_signature_xml info signature cert = SIGNATURE_HEAD ++ signature_body info signature cert ++ SIGNATURE_CLOSE.
Proof.
  unfold clickonce_manifest_signature_xml, signature_body, SIGNATURE_HEAD. rewrite <-!app_assoc. done.
Qed.
Lemma base64_plain_text bs : Forall (λ c, plain c = true) (b64_encode bs).
Proof. eapply Forall_impl; [apply b64_alphabet|]. apply base64_plain. Qed.
Lemma base64_clear bs : clear SIGNATURE_CLOSE (b64_encode bs) = true.
Proof.
  apply clear_without. intros Hin. pose proof (b64_alphabet bs) as Hb. by apply (proj1 (Forall_forall _ _) Hb) in Hin.
Qed.
Lemma signature_xml_scalars text alg signature cert :
  scalars (clickonce_manifest_signature_xml (clickonce_manifest_signed_info_xml text alg) signature cert).
Proof.
  apply ascii_scalars. unfold clickonce_manifest_signature_xml, clickonce_manifest_signed_info_xml, q. rewrite <-!app_assoc.
  repeat lazymatch goal with |- Forall _ (_ ++ _) => apply Forall_app_2 end.
  all: lazymatch goal with
       | |- Forall _ (b64_encode _) => eapply Forall_impl; [apply base64_plain_text|by intros ? [? _]%plain_props]
       | |- _ => apply (bool_decide_unpack _); destruct alg; by vm_compute end.
Qed.
Lemma signature_body_clear text alg signature cert :
  clear SIGNATURE_CLOSE (signature_body (clickonce_manifest_signed_info_xml text alg) signature cert) = true.
Proof.
  unfold signature_body, clickonce_manifest_signed_info_xml. rewrite <-!app_assoc.
  repeat lazymatch goal with |- clear _ (_ ++ _) = true => apply clear_app end.
  all: lazymatch goal with |- clear _ (b64_encode _) = true => apply base64_clear | |- _ => destruct alg; by vm_compute end.
Qed.
End Written.

(** ** Finding it *)

Lemma from_here pre s n : find_from (pre ++ s) (len pre) n = Ok (Z.add (len pre) <$> find s n).
Proof.
  apply find_from_Ok. exists s. split; [|done]. pose proof (len_nonneg pre). pose proof (len_nonneg s).
  rewrite index_range_in by (rewrite ?len_app; lia). f_equal. rewrite sub_app_r by lia.
  rewrite <-(sub_full s) at 3. rewrite len_app. f_equal; lia.
Qed.
Lemma slice_here {A} (pre s r : list A) i j : 0 <= i → i <= j → j <= len s →
  index_range (pre ++ s ++ r) (len pre + i) (len pre + j) = Ok (sub s i j).
Proof.
  intros. pose proof (len_nonneg pre). pose proof (len_nonneg r). rewrite index_range_in by (rewrite ?len_app; lia).
  f_equal. rewrite sub_app_r by lia. rewrite sub_app_l by lia. f_equal; lia.
Qed.
Lemma signature_tag pre r msg : tag_at (pre ++ SIGNATURE_HEAD ++ r) (len pre) msg =
  Ok (mk_tag (len pre) (len pre + (len SIGNATURE_HEAD - 1)) (chars "Signature")).
Proof.
  unfold tag_at. rewrite from_here, (find_longer SIGNATURE_HEAD r _ (len SIGNATURE_HEAD - 1)) by by vm_compute.
  cbn [fmap option_fmap option_map mbind outcome_bind ok_or].
  rewrite <-(Z.add_assoc (len pre)), slice_here by by vm_compute. cbn [mbind outcome_bind].
  replace (position _ _) with (Some 9) by by vm_compute. rewrite <-Z.add_assoc, slice_here by by vm_compute.
  cbn [mbind outcome_bind]. done.
Qed.
Lemma signature_span pre body r :
  find_xml_start_tag_by_local_name pre (chars "Signature") 0 = Some (Ok None) → last pre ≠ Some 60 →
  clear SIGNATURE_CLOSE body = true →
  find_xml_element_span_by_local_name (pre ++ (SIGNATURE_HEAD ++ body ++ SIGNATURE_CLOSE) ++ r) (chars "Signature") 0 =
    Some (Ok (Some (len pre, len pre + len (SIGNATURE_HEAD ++ body ++ SIGNATURE_CLOSE)))).
Proof.
  intros Hpre Hlast Hbody. unfold find_xml_element_span_by_local_name.
  rewrite <-!app_assoc. pose proof (signature_tag pre (body ++ SIGNATURE_CLOSE ++ r) "ClickOnce XML tag is not closed") as Htag.
  eassert (find_xml_start_tag_by_local_name _ _ _ = Some (Ok (Some _))) as ->.
  { eapply find_tag_fuel_more; [refine (find_tag_app _ pre _ 0 83 _ _ Hpre Hlast _ Htag _); [apply (bool_decide_unpack _)|]; by vm_compute|].
    rewrite length_app. lia. }
  cbn [then_ t_name t_end t_start]. replace (len pre + (len SIGNATURE_HEAD - 1) + 1) with (len (pre ++ SIGNATURE_HEAD))
    by (rewrite len_app; lia).
  change (closing (chars "Signature")) with SIGNATURE_CLOSE.
  rewrite (app_assoc pre), from_here, (find_clear SIGNATURE_CLOSE body r Hbody) by done.
  cbn [fmap option_fmap option_map mbind outcome_bind ok_or]. do 4 f_equal. rewrite !len_app. lia.
Qed.

(** ** Signing a signed manifest *)

Lemma unsigned_none text : find_xml_start_tag_by_local_name text (chars "Signature") 0 = Some (Ok None) →
  unsigned_clickonce_manifest_text text = Some (Ok text).
Proof. intros H. unfold unsigned_clickonce_manifest_text, find_xml_element_span_by_local_name. by rewrite H. Qed.
Lemma unsigned_span pre body r : let xml := SIGNATURE_HEAD ++ body ++ SIGNATURE_CLOSE in
  find_xml_element_span_by_local_name (pre ++ xml ++ r) (chars "Signature") 0 = Some (Ok (Some (len pre, len pre + len xml))) →
  unsigned_clickonce_manifest_text (pre ++ xml ++ r) = Some (Ok (pre ++ r)).
Proof.
  intros xml H. unfold unsigned_clickonce_manifest_text. rewrite H. cbn [then_].
  pose proof (len_nonneg pre). pose proof (len_nonneg xml). pose proof (len_nonneg r).
  rewrite !index_range_in by (rewrite ?len_app; lia). cbn [mbind outcome_bind]. do 2 f_equal. f_equal.
  - rewrite sub_app_l by lia. apply sub_full.
  - rewrite app_assoc, sub_app_r by (rewrite len_app; lia). trans (sub r 0 (len r)); [|apply sub_full].
    rewrite !len_app. f_equal; lia.
Qed.
Section Again.
Context `{Base64} `{DigestOracle} (sign_xml : VsixHashAlgorithm → bytes → outcome (bytes * bytes)).
Lemma insert_parts text xml signed : insert_clickonce_signature_xml text xml = Some (Ok signed) →
  ∃ root pre r, find_xml_root_start_tag text = Some (Ok root) ∧ rfind text (closing (t_name root)) = Some (len pre) ∧
    text = pre ++ r ∧ signed = pre ++ xml ++ r.
Proof.
  unfold insert_clickonce_signature_xml. intros (root & Hroot & Hin)%then_Ok. apply (inj Some) in Hin.
  apply bind_Ok in Hin as (k & Hk%ok_or_Ok & Hin). pose proof Hk as [(pre & r & Ht & <-) _]%rfind_Some.
  apply bind_Ok in Hin as (b & Hb%index_range_Ok & Hin). apply bind_Ok in Hin as (a & Ha%index_range_Ok & Hin). apply Ok_inj in Hin as <-.
  exists root, pre, (closing (t_name root) ++ r). split_and!; [done..|]. destruct Hb as (_ & ? & ? & ->), Ha as (_ & _ & _ & ->).
  pose proof (len_nonneg pre). set (tail := closing (t_name root) ++ r) in *. rewrite Ht. f_equal.
  - rewrite sub_app_l by lia. apply sub_full.
  - f_equal. rewrite sub_app_r by lia. trans (sub tail 0 (len tail)); [|apply sub_full].
    rewrite len_app. f_equal; lia.
Qed.
Lemma sign_same_unsigned t t' u alg : scalars t → scalars t' →
  unsigned_clickonce_manifest_text t = Some (Ok u) → unsigned_clickonce_manifest_text t' = Some (Ok u) →
  sign_clickonce_manifest_bytes sign_xml (encode_utf8 t') alg false = sign_clickonce_manifest_bytes sign_xml (encode_utf8 t) alg false.
Proof.
  intros Ht Ht' Hu Hu'. unfold sign_clickonce_manifest_bytes. rewrite !from_utf8_encode by done.
  cbn [bail_if mbind outcome_bind ok_or then_]. by rewrite Hu, Hu'.
Qed.
Lemma sign_parts t u alg signed : scalars t → unsigned_clickonce_manifest_text t = Some (Ok u) →
  sign_clickonce_manifest_bytes sign_xml (encode_utf8 t) alg false = Some (Ok signed) →
  ∃ sig cert st, signed = encode_utf8 st ∧
    insert_clickonce_signature_xml u (clickonce_manifest_signature_xml (clickonce_manifest_signed_info_xml u alg) sig cert) = Some (Ok st).
Proof.
  intros Ht Hu. unfold sign_clickonce_manifest_bytes. rewrite from_utf8_encode by done.
  cbn [bail_if mbind outcome_bind ok_or then_]. rewrite Hu. cbn [then_].
  destruct (sign_xml alg _) as [[sig cert]| |]; [|done..]. intros (st & Hst & Hsigned)%then_Ok. apply (inj Some), Ok_inj in Hsigned as <-. by exists sig, cert, st.
Qed.
(** C38: Signing a ClickOnce manifest that holds no [Signature] gives a
    manifest in which the signature is found; taking it out gives back the
    manifest that was signed, and signing again gives the same bytes, whatever
    the signer, provided the text before the last closing tag of the root ends
    outside a tag. *)
Theorem clickonce_resign text alg signed root k :
  scalars text → find_xml_start_tag_by_local_name text (chars "Signature") 0 = Some (Ok None) →
  find_xml_root_start_tag text = Some (Ok root) → rfind text (closing (t_name root)) = Some k →
  find_xml_start_tag_by_local_name (sub text 0 k) (chars "Signature") 0 = Some (Ok None) → last (sub text 0 k) ≠ Some 60 →
  sign_clickonce_manifest_bytes sign_xml (encode_utf8 text) alg false = Some (Ok signed) →
  clickonce_manifest_has_signature signed = true ∧
  (∃ signed_text, from_utf8 signed = Some signed_text ∧ unsigned_clickonce_manifest_text signed_text = Some (Ok text)) ∧
  sign_clickonce_manifest_bytes sign_xml signed alg false = Some (Ok signed).
Proof.
  intros Htext Hnone Hroot Hk Hpre Hlast Hsign. pose proof (unsigned_none _ Hnone) as Hu.
  destruct (sign_parts _ _ _ _ Htext Hu Hsign) as (sig & cert & st & -> & Hins).
  apply insert_parts in Hins as (root' & pre & r & Hroot' & Hk' & Hparts & ->).
  rewrite Hroot in Hroot'. injection Hroot' as <-. rewrite Hk in Hk'. injection Hk' as ->.
  rewrite Hparts, sub_app_l, sub_full in Hpre, Hlast by (try apply len_nonneg; lia).
  pose proof Htext as Hs. rewrite Hparts in Hs. apply Forall_app in Hs as [Hs1 Hs2].
  rewrite signature_xml_parts in Hsign |- *.
  pose proof (signature_span pre _ r Hpre Hlast (signature_body_clear text alg sig cert)) as Hspan.
  pose proof (unsigned_span pre _ r Hspan) as Hun. rewrite <-Hparts in Hun.
  assert (scalars (pre ++ clickonce_manifest_signature_xml (clickonce_manifest_signed_info_xml text alg) sig cert ++ r)) as Hst
    by (apply Forall_app_2; [done|apply Forall_app_2; [apply signature_xml_scalars|done]]).
  rewrite signature_xml_parts in Hst.
  split_and!.
  - unfold clickonce_manifest_has_signature. by rewrite from_utf8_encode, Hspan.
  - eexists. split; [by apply from_utf8_encode|done].
  - by rewrite (sign_same_unsigned text _ text).
Qed.
End Again.

Definition toy_manifest : str := chars "<?xml version='1.0'?><asmv1:assembly><file/></asmv1:assembly>".
Definition toy_signer (alg : VsixHashAlgorithm) (info : bytes) : outcome (bytes * bytes) := Ok (lit "sig", lit "cert").
Definition toy_signed : option (outcome bytes) :=
  @sign_clickonce_manifest_bytes StdBase64 ToyDigest toy_signer (encode_utf8 toy_manifest) VsixSha256 false.
Definition toy_signed_bytes : bytes := match toy_signed with Some (Ok b) => b | _ => [] end.
Lemma clickonce_resign_witness :
  @sign_clickonce_manifest_bytes StdBase64 ToyDigest toy_signer toy_signed_bytes VsixSha256 false = Some (Ok toy_signed_bytes).
Proof.
  destruct (find_xml_root_start_tag toy_manifest) as [[root| |]|] eqn:Er; [|by vm_compute in Er..].
  apply (@clickonce_resign StdBase64 ToyDigest toy_signer toy_manifest VsixSha256 toy_signed_bytes root 44).
  - apply (bool_decide_unpack _). by vm_compute.
  - by vm_compute.
  - done.
  - vm_compute in Er. injection Er as <-. by vm_compute.
  - by vm_compute.
  - apply (bool_decide_unpack _). by vm_compute.
  - vm_compute. reflexivity.
Defined.
