(* ===== verification/BTree.v ===== *)
(** Maps with string keys in the order of their keys: [BTreeMap<String, V>] as
    the list of its entries. *)

From S2P Require Import Prelude.
From S2P Require Import RustStr.

Abbreviation bmap V := (list (str * V)) (only parsing).
Fixpoint bmap_insert {V} (k : str) (v : V) (m : bmap V) : bmap V :=
  match m with
  | [] => [(k, v)]
  | (k', v') :: m' =>
      if bool_decide (k = k') then (k, v) :: m' else if str_le k k' then (k, v) :: m else (k', v') :: bmap_insert k v m'
  end.
Fixpoint bmap_get {V} (m : bmap V) (k : str) : option V :=
  match m with
  | [] => None
  | (k', v) :: m' => if bool_decide (k = k') then Some v else bmap_get m' k
  end.

Lemma bmap_get_insert {V} (m : bmap V) k v k' : bmap_get (bmap_insert k v m) k' = if bool_decide (k' = k) then Some v else bmap_get m k'.
Proof.
  induction m as [|[k1 v1] m IH]; cbn; [done|]. repeat case_bool_decide; subst; cbn; repeat case_bool_decide; subst; try done.
  all: destruct (str_le k k1); cbn; repeat case_bool_decide; subst; try done; rewrite IH; by repeat case_bool_decide.
Qed.
Lemma bmap_get_elem {V} (m : bmap V) k v : bmap_get m k = Some v → (k, v) ∈ m.
Proof.
  induction m as [|[k1 v1] m IH]; cbn; [done|]. case_bool_decide as E; [intros [= ->]; subst; by left|]. intros. right. by apply IH.
Qed.
Lemma bmap_get_key {V} (m : bmap V) k : k ∈ fst <$> m ↔ is_Some (bmap_get m k).
Proof.
  induction m as [|[k1 v1] m IH]; cbn.
  - split; [by intros ?%not_elem_of_nil|by intros [? ?]].
  - rewrite elem_of_cons. case_bool_decide as E; [split; [done|by left]|]. rewrite IH. intuition.
Qed.
