(* ===== verification/C14n.v ===== *)
(** XML documents and Canonical XML, of
    [psign-authenticode-trust/src/xml_c14n.rs].  The events of a document and
    the expansion of entities are those of the [quick-xml] crate (the class
    [QuickXml]). *)

From stdpp Require Import sorting.
From S2P Require Import Prelude.
From S2P Require Import RustStr.
From S2P Require Import AppxTypes.

(** ** Elements *)

Definition XML_NS : str := chars "http://www.w3.org/XML/1998/namespace".
(** Namespace prefix to URI, in the order of the prefixes. *)
Abbreviation NsScope := btree (only parsing).
Inductive Element := mk_element (qname : str) (attrs : list (str * str)) (children : list Node) (scope : NsScope)
with Node := NElement (e : Element) | NText (t : str).
Definition e_qname (e : Element) : str := let 'mk_element q _ _ _ := e in q.
Definition e_attrs (e : Element) : list (str * str) := let 'mk_element _ a _ _ := e in a.
Definition e_children (e : Element) : list Node := let 'mk_element _ _ c _ := e in c.
Definition e_scope (e : Element) : NsScope := let 'mk_element _ _ _ s := e in s.
Definition split_qname (qname : str) : str * str := default ([], qname) (split_once 58 qname).
Definition local_name (e : Element) : str := snd (split_qname (e_qname e)).
Definition namespace (e : Element) : str := default [] (btree_get (e_scope e) (fst (split_qname (e_qname e)))).
Definition is_named (e : Element) (ns local : str) : bool := bool_decide (local_name e = local) && bool_decide (namespace e = ns).
Definition attr (e : Element) (name : str) : option str := snd <$> List.find (λ a, bool_decide (fst a = name)) (e_attrs e).
Definition child_elements (e : Element) : list Element := omap (λ n, match n with NElement e => Some e | NText _ => None end) (e_children e).
Definition child (e : Element) (ns local : str) : option Element := List.find (λ c, is_named c ns local) (child_elements e).
Definition children_named (e : Element) (ns local : str) : list Element := List.filter (λ c, is_named c ns local) (child_elements e).
Definition text (e : Element) : str := concat (omap (λ n, match n with NText t => Some t | NElement _ => None end) (e_children e)).
(** The element itself first, then its descendants in the order of the document. *)
Fixpoint find_all (pred : Element → bool) (e : Element) : list Element :=
  (if pred e then [e] else []) ++
  (fix go ns := match ns with
   | [] => []
   | NElement c :: ns' => find_all pred c ++ go ns'
   | NText _ :: ns' => go ns'
   end) (e_children e).

(** ** Reading a document *)

Fixpoint normalize_newlines (s : str) : str :=
  match s with
  | 13 :: 10 :: s' => 10 :: normalize_newlines s'
  | c :: s' => (if c =? 13 then 10 else c) :: normalize_newlines s'
  | [] => []
  end.
(** An event of the reader; the content is [None] where the crate fails to
    decode it.  A reference to a character comes with what it resolves to. *)
Inductive Event :=
  | EvStart (name : bytes) (attributes : list (option (bytes * bytes))) | EvEnd | EvText (decoded : option str)
  | EvCData (decoded : option str) | EvCharRef (resolved : option (option char)) | EvEntityRef (decoded : option str)
  | EvComment | EvDecl | EvPI | EvDocType | EvEmpty.
(** The events before the end of the document; [false] when the reader fails
    after them. *)
Class QuickXml := { doc_events : str → list Event * bool; unescape : str → option str }.

Section Reading.
Context `{QuickXml}.
Fixpoint start_attrs (attributes : list (option (bytes * bytes))) (attrs : list (str * str)) (scope : NsScope) :
    outcome (list (str * str) * NsScope) :=
  match attributes with
  | [] => Ok (attrs, scope)
  | a :: attributes' =>
      '(key, value) ← ok_or a "XML attribute: {e}";
      key ← ok_or (from_utf8 key) "XML attribute name is not UTF-8";
      raw ← ok_or (from_utf8 value) "XML attribute value is not UTF-8";
      let normalized := (λ c, if (c =? 9) || (c =? 10) then 32 else c) <$> normalize_newlines raw in
      value ← ok_or (unescape normalized) "XML attribute {key} value: {e}";
      let scope :=
        if bool_decide (key = chars "xmlns") then btree_insert [] value scope
        else match strip_prefix (chars "xmlns:") key with
             | Some prefix => btree_insert prefix value scope
             | None => scope
             end in
      start_attrs attributes' (attrs ++ [(key, value)]) scope
  end.
Definition start_element (name : bytes) (attributes : list (option (bytes * bytes))) (parent_scope : NsScope) : outcome Element :=
  qname ← ok_or (from_utf8 name) "XML element name is not UTF-8";
  '(attrs, scope) ← start_attrs attributes [] parent_scope;
  Ok (mk_element qname attrs [] (btree_insert (chars "xml") XML_NS scope)).
Definition with_children (e : Element) (children : list Node) : Element := mk_element (e_qname e) (e_attrs e) children (e_scope e).
(** The stack has its top first. *)
Definition push_text (stack : list Element) (t : str) : outcome (list Element) :=
  match stack with
  | [] => if bool_decide (trim t = []) then Ok [] else Err "XML text outside the document element"
  | top :: stack' =>
      Ok (with_children top
            match last (e_children top) with
            | Some (NText l) => removelast (e_children top) ++ [NText (l ++ t)]
            | _ => e_children top ++ [NText t]
            end :: stack')
  end.
Definition entity (name : str) : outcome str :=
  if bool_decide (name = chars "amp") then Ok (chars "&") else if bool_decide (name = chars "lt") then Ok (chars "<")
  else if bool_decide (name = chars "gt") then Ok (chars ">") else if bool_decide (name = chars "quot") then Ok [34]
  else if bool_decide (name = chars "apos") then Ok (chars "'") else Err "undefined XML entity &{other};".
Definition doc_step (s : list Element * option Element) (ev : Event) : outcome (list Element * option Element) :=
  let '(stack, root) := s in
  match ev with
  | EvStart name attributes =>
      bail_if (bool_decide (is_Some root)) "XML has more than one document element";;
      e ← start_element name attributes (default [] (e_scope <$> head stack));
      Ok (e :: stack, root)
  | EvEnd =>
      match stack with
      | [] => Err "unbalanced XML end tag"
      | done :: parent :: stack' => Ok (with_children parent (e_children parent ++ [NElement done]) :: stack', root)
      | [done] => Ok ([], Some done)
      end
  | EvText t | EvCData t =>
      raw ← ok_or t "XML text: {e}";
      stack ← push_text stack (normalize_newlines raw);
      Ok (stack, root)
  | EvCharRef r =>
      r ← ok_or r "XML character reference: {e}";
      c ← ok_or r "invalid XML character reference";
      stack ← push_text stack [c];
      Ok (stack, root)
  | EvEntityRef name =>
      name ← ok_or name "XML entity: {e}";
      resolved ← entity name;
      stack ← push_text stack resolved;
      Ok (stack, root)
  | EvComment | EvDecl => Ok s
  | EvPI => match stack with [] => Ok s | _ => Err "XML processing instructions are not supported" end
  | EvDocType => Err "XML DOCTYPE is not allowed"
  | EvEmpty => Panic
  end.
Fixpoint run_doc (s : list Element * option Element) (evs : list Event) : outcome (list Element * option Element) :=
  match evs with
  | [] => Ok s
  | ev :: evs' => s ← doc_step s ev; run_doc s evs'
  end.
Definition BOM : bytes := [byte_of 0xEF; byte_of 0xBB; byte_of 0xBF].
Definition parse_document (xml : bytes) : outcome Element :=
  let xml := match xml with
             | a :: b :: c :: xml' => if bool_decide ([a; b; c] = BOM) then xml' else xml
             | _ => xml
             end in
  text ← ok_or (from_utf8 xml) "XML document is not UTF-8";
  let '(evs, ended) := doc_events text in
  '(stack, root) ← run_doc ([], None) evs;
  bail_if (negb ended) "XML parse error at {}: {e}";;
  bail_if (negb (bool_decide (stack = []))) "XML document is truncated";;
  ok_or root "XML document has no document element".
End Reading.

(** ** Canonical form *)

Inductive C14nMode := Inclusive | Exclusive.
Definition C14nMode_from_uri (uri : str) : option C14nMode :=
  if bool_decide (uri = chars "http://www.w3.org/TR/2001/REC-xml-c14n-20010315") then Some Inclusive
  else if bool_decide (uri = chars "http://www.w3.org/2001/10/xml-exc-c14n#") then Some Exclusive
  else None.
Definition escape_text_char (c : char) : str :=
  if c =? 38 then chars "&amp;" else if c =? 60 then chars "&lt;" else if c =? 62 then chars "&gt;"
  else if c =? 13 then chars "&#xD;" else [c].
Definition escape_text (s : str) : str := s ≫= escape_text_char.
Definition escape_attr_char (c : char) : str :=
  if c =? 38 then chars "&amp;" else if c =? 60 then chars "&lt;" else if c =? 34 then chars "&quot;"
  else if c =? 9 then chars "&#x9;" else if c =? 10 then chars "&#xA;" else if c =? 13 then chars "&#xD;" else [c].
Definition escape_attr (s : str) : str := s ≫= escape_attr_char.

(** [sort_by_key], which is stable *)
Section Sorting.
Context {A B : Type} (le : B → B → bool) (key : A → B).
Fixpoint insert_by (x : A) (l : list A) : list A :=
  match l with
  | [] => [x]
  | y :: l' => if le (key x) (key y) then x :: l else y :: insert_by x l'
  end.
Definition sort_by (l : list A) : list A := foldr insert_by [] l.
End Sorting.
Fixpoint dedup (l : list str) : list str :=
  match l with
  | x :: (y :: _) as l' => if bool_decide (x = y) then dedup l' else x :: dedup l'
  | _ => l
  end.
(** Pairs in lexicographic order *)
Definition pair_le (a b : str * str) : bool :=
  if bool_decide (fst a = fst b) then str_le (snd a) (snd b) else str_le (fst a) (fst b).

Definition lookup_ns (scope : NsScope) (prefix : str) : str := default [] (btree_get scope prefix).
Definition is_xmlns (name : str) : bool := bool_decide (name = chars "xmlns") || starts_with name (chars "xmlns:").
(** The prefixes whose declarations count. *)
Definition used_prefixes (qname : str) (attrs : list (str * str)) : list str :=
  dedup (sort_by str_le id
    (fst (split_qname qname) ::
     List.filter (λ p, negb (bool_decide (p = []))) ((λ a, fst (split_qname (fst a))) <$> List.filter (λ a, negb (is_xmlns (fst a))) attrs))).
Definition namespaces_to_emit (mode : C14nMode) (rendered : NsScope) (qname : str) (attrs : list (str * str)) (scope : NsScope) : NsScope :=
  let candidates :=
    match mode with
    | Inclusive => scope
    | Exclusive => (λ p, (p, lookup_ns scope p)) <$> used_prefixes qname attrs
    end in
  let emit := List.filter (λ d, negb (bool_decide (fst d = chars "xml")) && negb (bool_decide (lookup_ns rendered (fst d) = snd d))) candidates in
  let emit := List.filter (λ d, negb (bool_decide (fst d = []) && bool_decide (snd d = []) && bool_decide (lookup_ns rendered [] = []))) emit in
  sort_by str_le fst emit.
(** An attribute with the URI of its prefix and its local name *)
Definition attr_key (scope : NsScope) (a : str * str) : str * str :=
  let '(prefix, local) := split_qname (fst a) in (if bool_decide (prefix = []) then [] else lookup_ns scope prefix, local).
Definition sorted_attrs (attrs : list (str * str)) (scope : NsScope) : list (str * str) :=
  sort_by pair_le (attr_key scope) (List.filter (λ a, negb (is_xmlns (fst a))) attrs).
Definition quoted (name value : str) : str := name ++ [61; 34] ++ escape_attr value ++ [34].
Definition declaration (d : str * str) : str :=
  quoted ((if bool_decide (fst d = []) then chars " xmlns" else chars " xmlns:") ++ fst d) (snd d).
Definition open_tag (mode : C14nMode) (rendered : NsScope) (qname : str) (attrs : list (str * str)) (scope : NsScope) : str :=
  [60] ++ qname ++ (namespaces_to_emit mode rendered qname attrs scope ≫= declaration)
  ++ (sorted_attrs attrs scope ≫= λ a, quoted (32 :: fst a) (snd a)) ++ [62].
Definition child_rendered (mode : C14nMode) (rendered : NsScope) (qname : str) (attrs : list (str * str)) (scope : NsScope) : NsScope :=
  foldl (λ r d, btree_insert (fst d) (snd d) r) rendered (namespaces_to_emit mode rendered qname attrs scope).
Fixpoint write_element (mode : C14nMode) (rendered : NsScope) (e : Element) : str :=
  let 'mk_element qname attrs children scope := e in
  open_tag mode rendered qname attrs scope ++
  (fix go ns := match ns with
   | [] => []
   | NText t :: ns' => escape_text t ++ go ns'
   | NElement c :: ns' => write_element mode (child_rendered mode rendered qname attrs scope) c ++ go ns'
   end) children ++
  chars "</" ++ qname ++ [62].
Definition canonicalize (element : Element) (mode : C14nMode) : bytes := encode_utf8 (write_element mode [] element).

(** ** The canonical form does not depend on the order of attributes *)

Section ElementInd.
Context (P : Element → Prop).
Definition node_holds (n : Node) : Prop := match n with NElement e => P e | NText _ => True end.
Context (Hcase : ∀ q a c s, Forall node_holds c → P (mk_element q a c s)).
Fixpoint element_induction (e : Element) : P e :=
  match e with
  | mk_element q a c s =>
      Hcase q a c s
        ((fix go ns : Forall node_holds ns :=
            match ns with
            | [] => Forall_nil_2 node_holds
            | n :: ns' => Forall_cons_2 node_holds n ns' (match n return node_holds n with NElement e => element_induction e | NText _ => I end) (go ns')
            end) c)
  end.
End ElementInd.
Section SortLemmas.
Context {A B : Type} (le : B → B → bool) (key : A → B).
Context (le_trans : ∀ a b c, le a b = true → le b c = true → le a c = true).
Context (le_total : ∀ a b, le a b = false → le b a = true).
Context (le_antisym : ∀ a b, le a b = true → le b a = true → a = b).
Lemma insert_by_perm x l : insert_by le key x l ≡ₚ x :: l.
Proof. induction l as [|y l IH]; cbn; [done|]. destruct (le _ _); [done|]. rewrite IH. apply Permutation_swap. Qed.
Lemma sort_by_perm l : sort_by le key l ≡ₚ l.
Proof. induction l as [|x l IH]; cbn; [done|]. rewrite insert_by_perm. by constructor. Qed.
Definition ordered (a b : A) : Prop := le (key a) (key b) = true.
Lemma insert_by_sorted x l : StronglySorted ordered l → StronglySorted ordered (insert_by le key x l).
Proof.
  induction 1 as [|y l Hl IH Hy]; cbn; [by repeat constructor|]. destruct (le (key x) (key y)) eqn:E.
  - constructor; [by constructor|]. constructor; [done|]. eapply Forall_impl; [exact Hy|]. intros z Hz. unfold ordered in *. eauto.
  - constructor; [done|]. rewrite insert_by_perm. constructor; [|done]. by apply le_total.
Qed.
Lemma sort_by_sorted l : StronglySorted ordered (sort_by le key l).
Proof. induction l as [|x l IH]; cbn; [constructor|]. by apply insert_by_sorted. Qed.
Lemma sort_by_unique l l' : l ≡ₚ l' → (∀ x y, x ∈ l → y ∈ l → key x = key y → x = y) → sort_by le key l = sort_by le key l'.
Proof.
  intros Hp Hk. apply (StronglySorted_unique_strong ordered); [|apply sort_by_sorted..|by rewrite !sort_by_perm].
  intros x y Hx Hy H1 H2. rewrite sort_by_perm in Hx, Hy. rewrite <-Hp in Hy. apply Hk; [done..|]. by apply le_antisym.
Qed.
End SortLemmas.
Lemma pair_le_trans a b c : pair_le a b = true → pair_le b c = true → pair_le a c = true.
Proof.
  unfold pair_le. destruct a as [a1 a2], b as [b1 b2], c as [c1 c2]. cbn [fst snd].
  repeat case_bool_decide; subst; try done; eauto using str_le_trans.
  intros H1 H2. exfalso. eauto using str_le_antisym.
Qed.
Lemma pair_le_total a b : pair_le a b = false → pair_le b a = true.
Proof.
  unfold pair_le. destruct a as [a1 a2], b as [b1 b2]. cbn [fst snd]. repeat case_bool_decide; subst; try done; apply str_le_total.
Qed.
Lemma pair_le_antisym a b : pair_le a b = true → pair_le b a = true → a = b.
Proof.
  unfold pair_le. destruct a as [a1 a2], b as [b1 b2]. cbn [fst snd]. repeat case_bool_decide; subst; try done.
  - intros. f_equal. by apply str_le_antisym.
  - intros. exfalso. eauto using str_le_antisym.
Qed.
Lemma filter_permutation {A} (f : A → bool) l l' : l ≡ₚ l' → List.filter f l ≡ₚ List.filter f l'.
Proof.
  induction 1 as [|x l l' _ IH|x y l|l l' l'' _ IH1 _ IH2]; cbn; [done| | |by rewrite IH1].
  - destruct (f x); by rewrite ?IH.
  - destruct (f x), (f y); try done. apply Permutation_swap.
Qed.

(** Attributes whose expanded names are distinct, as in a well-formed document *)
Definition distinct_attrs (attrs : list (str * str)) (scope : NsScope) : Prop :=
  NoDup (attr_key scope <$> List.filter (λ a, negb (is_xmlns (fst a))) attrs).
Inductive same_element : Element → Element → Prop :=
  | same_intro q attrs attrs' children children' scope : attrs ≡ₚ attrs' → distinct_attrs attrs scope →
      Forall2 same_node children children' → same_element (mk_element q attrs children scope) (mk_element q attrs' children' scope)
with same_node : Node → Node → Prop :=
  | same_text t : same_node (NText t) (NText t)
  | same_child e e' : same_element e e' → same_node (NElement e) (NElement e').

Lemma sorted_attrs_order attrs attrs' scope : attrs ≡ₚ attrs' → distinct_attrs attrs scope →
  sorted_attrs attrs scope = sorted_attrs attrs' scope.
Proof.
  intros Hp Hd. apply sort_by_unique; [apply pair_le_trans|apply pair_le_total|apply pair_le_antisym|by apply filter_permutation|].
  intros x y [i Hi]%list_elem_of_lookup [j Hj]%list_elem_of_lookup Hk. assert (i = j) as ->; [|congruence].
  eapply (NoDup_lookup _ i j _ Hd); rewrite list_lookup_fmap; [by rewrite Hi|]. rewrite Hj. cbn. by rewrite Hk.
Qed.
Lemma emit_order mode rendered q attrs attrs' scope : attrs ≡ₚ attrs' →
  namespaces_to_emit mode rendered q attrs scope = namespaces_to_emit mode rendered q attrs' scope.
Proof.
  intros Hp. unfold namespaces_to_emit. destruct mode; [done|]. replace (used_prefixes q attrs') with (used_prefixes q attrs); [done|].
  unfold used_prefixes. f_equal. apply sort_by_unique; [apply str_le_trans|apply str_le_total|apply str_le_antisym| |done].
  constructor. by apply filter_permutation, fmap_Permutation, filter_permutation.
Qed.
Lemma write_order mode e : ∀ e' rendered, same_element e e' → write_element mode rendered e = write_element mode rendered e'.
Proof.
  induction e as [q attrs children scope IH] using element_induction. intros e' rendered Hs. inversion_clear Hs as [? ? attrs' ? children' ? Hp Hd Hc].
  cbn [write_element]. unfold open_tag, child_rendered. rewrite (emit_order mode rendered q attrs attrs') by done.
  rewrite (sorted_attrs_order attrs attrs') by done. f_equal. f_equal.
  induction Hc as [|n n' ns ns' Hn Hc IHc]; [done|]. apply Forall_cons in IH as [IHn IH]. rewrite IHc by done.
  destruct Hn as [t|c c' Hcc]; [done|]. cbn in IHn. by rewrite (IHn c') by done.
Qed.
(** The canonical form of a document does not depend on the order in which
    the attributes of its elements are written, in either mode. *)
Theorem canonicalize_attr_order mode e e' : same_element e e' → canonicalize e mode = canonicalize e' mode.
Proof. intros He. unfold canonicalize. by rewrite (write_order mode e e'). Qed.
Definition toy_element (attrs : list (str * str)) : Element :=
  mk_element (chars "r") [(chars "xmlns:u", chars "urn:u")]
    [NText (chars "a<b"); NElement (mk_element (chars "u:x") attrs [] [([], []); (chars "u", chars "urn:u")])] [(chars "u", chars "urn:u")].
Lemma canonicalize_attr_order_witness :
  canonicalize (toy_element [(chars "u:b", chars "1"); (chars "a", chars "2")]) Exclusive =
  canonicalize (toy_element [(chars "a", chars "2"); (chars "u:b", chars "1")]) Exclusive.
Proof.
  apply canonicalize_attr_order. unfold toy_element. apply same_intro; [done|by apply (bool_decide_unpack _); vm_compute|].
  apply Forall2_cons_2; [apply same_text|apply Forall2_cons_2; [|by apply Forall2_nil_2]]. apply same_child, same_intro.
  - apply Permutation_swap.
  - by apply (bool_decide_unpack _); vm_compute.
  - by apply Forall2_nil_2.
Defined.
