(* ===== verification/C14nRead.v ===== *)
(** Documents read back: the reader of [xml_c14n.rs] builds an element from the
    events of its text, and a document that is written out gives its element
    back.  [SimpleXml] is an instance of the reader's interface for documents
    without entities in their text, which the witnesses run on; its laws are
    proved. *)

From S2P Require Import Prelude.
From S2P Require Import RustStr.
From S2P Require Import AppxTypes.
From S2P Require Import C14n.

(** The events of an element's text *)
Definition attr_event (a : str * str) : option (bytes * bytes) := Some (encode_utf8 (fst a), encode_utf8 (escape_attr (snd a))).
Fixpoint element_events (e : Element) : list Event :=
  let 'mk_element qname attrs children scope := e in
  EvStart (encode_utf8 qname) (attr_event <$> attrs) ::
  (fix go ns := match ns with
   | [] => []
   | NElement c :: ns' => element_events c ++ go ns'
   | NText t :: ns' => EvText (Some t) :: go ns'
   end) children ++ [EvEnd].
Definition node_events (n : Node) : list Event := match n with NElement c => element_events c | NText t => [EvText (Some t)] end.
(** The scope with what an attribute declares *)
Definition declare (scope : NsScope) (a : str * str) : NsScope :=
  if bool_decide (fst a = chars "xmlns") then btree_insert [] (snd a) scope
  else match strip_prefix (chars "xmlns:") (fst a) with
       | Some prefix => btree_insert prefix (snd a) scope
       | None => scope
       end.
Definition inner_scope (scope : NsScope) (attrs : list (str * str)) : NsScope := btree_insert (chars "xml") XML_NS (foldl declare scope attrs).
(** Elements whose scopes are those their declarations give and whose text is
    alone in its element. *)
Fixpoint readable (parent : NsScope) (e : Element) : Prop :=
  let 'mk_element qname attrs children scope := e in
  scalars qname ∧ Forall (λ a, scalars (fst a) ∧ scalars (snd a)) attrs ∧ scope = inner_scope parent attrs ∧
  match children with
  | [NText t] => 13 ∉ t
  | _ =>
      (fix go ns : Prop := match ns with
       | [] => True
       | NElement c :: ns' => readable scope c ∧ go ns'
       | NText _ :: _ => False
       end) children
  end.

(** ** A document written out *)

(** An element as it is written in a document: the attributes in their order,
    an element without children closed in its own tag. *)
Definition attr_source (a : str * str) : str := quoted (32 :: fst a) (snd a).
Fixpoint element_source (e : Element) : str :=
  let 'mk_element qname attrs children scope := e in
  [60] ++ qname ++ (attrs ≫= attr_source) ++
  match children with
  | [] => chars " />"
  | _ =>
      [62] ++ (fix go ns := match ns with
               | [] => []
               | NElement c :: ns' => element_source c ++ go ns'
               | NText t :: ns' => t ++ go ns'
               end) children ++ chars "</" ++ qname ++ [62]
  end.
Definition in_quotes (s : str) : str := [34] ++ s ++ [34].
Definition XML_DECLARATION : str :=
  chars "<?xml version=" ++ in_quotes (chars "1.0") ++ chars " encoding=" ++ in_quotes (chars "utf-8") ++ chars "?>".
Definition document_text (e : Element) : str := XML_DECLARATION ++ element_source e.
(** Names of ASCII letters, digits and [-.:_], and text with nothing in it that
    is written as an entity. *)
Definition name_char (c : char) : bool :=
  between 97 c 122 || between 65 c 90 || between 48 c 57 || bool_decide (c ∈ [45; 46; 58; 95]).
Definition xml_name (s : str) : Prop := s ≠ [] ∧ Forall (λ c, name_char c = true) s.
Definition plain_text (t : str) : Prop := t ≠ [] ∧ scalars t ∧ Forall (λ c, c ∉ [38; 60; 62; 13]) t.
Definition writable_attrs (attrs : list (str * str)) : Prop :=
  Forall (λ a, xml_name (fst a) ∧ scalars (snd a)) attrs ∧ NoDup (fst <$> attrs).
(** Elements that hold either one plain text or other elements *)
Fixpoint writable_element (e : Element) : Prop :=
  let 'mk_element qname attrs children scope := e in
  xml_name qname ∧ writable_attrs attrs ∧
  match children with
  | [NText t] => plain_text t
  | _ =>
      (fix go ns : Prop := match ns with
       | [] => True
       | NElement c :: ns' => writable_element c ∧ go ns'
       | NText _ :: _ => False
       end) children
  end.
(** What is relied on of the crate: expanding the entities the canonical form
    writes in an attribute gives the value back, and the events of a document
    that is written out are those of its elements, the empty ones expanded. *)
Class QuickXmlLaws `{QuickXml} := {
  unescape_escaped v : unescape (escape_attr v) = Some v;
  doc_events_written e : writable_element e → doc_events (document_text e) = (EvDecl :: element_events e, true) }.

Definition node_source (n : Node) : str := match n with NElement c => element_source c | NText t => t end.
Lemma element_source_eq q a c s : element_source (mk_element q a c s) =
  [60] ++ q ++ (a ≫= attr_source) ++ (if c is [] then chars " />" else [62] ++ (c ≫= node_source) ++ chars "</" ++ q ++ [62]).
Proof.
  cbn [element_source]. do 3 f_equal. destruct c as [|n c]; [done|]. do 2 f_equal. revert n.
  induction c as [|n' c IH]; intros [e|t]; cbn [mbind list_bind node_source]; [done..| |]; by rewrite (IH n').
Qed.
Definition is_writable (n : Node) : Prop := match n with NElement c => writable_element c | NText _ => False end.
Lemma writable_element_eq q a c s : writable_element (mk_element q a c s) ↔
  xml_name q ∧ writable_attrs a ∧ ((∃ t, c = [NText t] ∧ plain_text t) ∨ Forall is_writable c).
Proof.
  cbn [writable_element]. do 2 f_equiv.
  assert (Hgo : (fix go ns : Prop := match ns with [] => True | NElement c :: ns' => writable_element c ∧ go ns' | NText _ :: _ => False end) c
    ↔ Forall is_writable c).
  { induction c as [|[e|t] c IH]; [by split|rewrite Forall_cons, IH; done|]. split; [done|]. by intros [? _]%Forall_cons. }
  destruct c as [|[e|t] [|n c]]; rewrite ?Hgo.
  4:{ split; [by left; eauto|]. intros [(? & [= ->] & ?)|[? _]%Forall_cons]; done. }
  all: split; [by right|]; by intros [(? & ? & ?)|?].
Qed.

Lemma element_events_eq q a c s :
  element_events (mk_element q a c s) = EvStart (encode_utf8 q) (attr_event <$> a) :: (c ≫= node_events) ++ [EvEnd].
Proof. cbn [element_events]. f_equal. f_equal. induction c as [|[e|t] c IH]; cbn; [done|by rewrite IH..]. Qed.
Definition is_element (parent : NsScope) (n : Node) : Prop := match n with NElement c => readable parent c | NText _ => False end.
Lemma readable_eq parent q a c s : readable parent (mk_element q a c s) ↔
  scalars q ∧ Forall (λ a, scalars (fst a) ∧ scalars (snd a)) a ∧ s = inner_scope parent a ∧ ((∃ t, c = [NText t] ∧ 13 ∉ t) ∨ Forall (is_element s) c).
Proof.
  cbn [readable]. do 3 f_equiv. assert (Hgo : (fix go ns : Prop := match ns with [] => True | NElement c :: ns' => readable s c ∧ go ns' | NText _ :: _ => False end) c
    ↔ Forall (is_element s) c).
  { induction c as [|[e|t] c IH]; [by split|rewrite Forall_cons, IH; done|]. split; [done|]. by intros [? _]%Forall_cons. }
  destruct c as [|[e|t] [|n c]]; rewrite ?Hgo.
  4:{ split; [by left; eauto|]. intros [(? & [= ->] & ?)|[? _]%Forall_cons]; done. }
  all: split; [by right|]; by intros [(? & ? & ?)|?].
Qed.
Lemma normalize_no_cr t : 13 ∉ t → normalize_newlines t = t.
Proof.
  induction t as [|c t IH]; [done|]. intros [Hc Ht]%not_elem_of_cons. cbn [normalize_newlines].
  destruct (decide (c = 13)) as [->|Hn]; [done|].
  assert (Hm : match c with 13 => match t with 10 :: s' => 10 :: normalize_newlines s' | _ => (if c =? 13 then 10 else c) :: normalize_newlines t end
    | _ => (if c =? 13 then 10 else c) :: normalize_newlines t end = c :: t).
  { rewrite (proj2 (Z.eqb_neq c 13)) by done. rewrite IH by done. destruct c as [|p|p]; try done. repeat (destruct p; try done). }
  exact Hm.
Qed.
Lemma escape_attr_scalars v : scalars v → scalars (escape_attr v).
Proof.
  intros Hv. apply Forall_bind. eapply Forall_impl; [exact Hv|]. intros c Hc. cbn. unfold escape_attr_char.
  repeat (destruct (c =? _); [by apply (bool_decide_unpack _); vm_compute|]). by repeat constructor.
Qed.
Definition breaks (c : char) : bool := (c =? 9) || (c =? 10) || (c =? 13).
Lemma escape_attr_unbroken v : Forall (λ c, breaks c = false) (escape_attr v).
Proof.
  apply Forall_bind. induction v as [|c v IH]; constructor; [|done]. cbn. unfold escape_attr_char.
  destruct (c =? 38); [by apply (bool_decide_unpack _); vm_compute|]. destruct (c =? 60); [by apply (bool_decide_unpack _); vm_compute|].
  destruct (c =? 34); [by apply (bool_decide_unpack _); vm_compute|]. destruct (c =? 9) eqn:E9; [by apply (bool_decide_unpack _); vm_compute|].
  destruct (c =? 10) eqn:E10; [by apply (bool_decide_unpack _); vm_compute|]. destruct (c =? 13) eqn:E13; [by apply (bool_decide_unpack _); vm_compute|].
  repeat constructor. unfold breaks. by rewrite E9, E10, E13.
Qed.
Lemma unbroken_normal v : Forall (λ c, breaks c = false) v → (λ c, if (c =? 9) || (c =? 10) then 32 else c) <$> normalize_newlines v = v.
Proof.
  intros Hv. rewrite normalize_no_cr.
  - induction Hv as [|c v Hc _ IH]; [done|]. cbn. rewrite IH. unfold breaks in Hc. apply orb_false_iff in Hc as [-> _]. done.
  - intros Hin. rewrite Forall_forall in Hv. by specialize (Hv _ Hin).
Qed.

Lemma name_char_cases c : name_char c = true → 97 <= c <= 122 ∨ 65 <= c <= 90 ∨ 48 <= c <= 58 ∨ 45 <= c <= 46 ∨ c = 95.
Proof.
  unfold name_char, between. rewrite !orb_true_iff, bool_decide_eq_true. intros [[[?|?]|?]|Hc]; zbool; [lia..|].
  repeat (apply elem_of_cons in Hc as [->|Hc]; [lia|]). by apply not_elem_of_nil in Hc.
Qed.
Lemma name_char_visible c : name_char c = true → is_whitespace c = false.
Proof.
  intros Hc%name_char_cases. apply not_true_iff_false. unfold is_whitespace, between. rewrite !orb_true_iff, !andb_true_iff. lia.
Qed.
Lemma xml_name_scalars s : xml_name s → scalars s.
Proof. intros [_ Hs]. apply ascii_scalars. eapply Forall_impl; [exact Hs|]. intros c Hc%name_char_cases. unfold is_ascii. apply andb_true_iff. lia. Qed.
Lemma attrs_text_scalars attrs : writable_attrs attrs → scalars (attrs ≫= attr_source).
Proof.
  intros [Ha _]. apply Forall_bind. eapply Forall_impl; [exact Ha|]. intros [k v] [Hk%xml_name_scalars Hv]. unfold attr_source, quoted. cbn [fst snd].
  constructor; [done|]. rewrite !Forall_app. split; [done|]. split; [by repeat constructor|]. split; [by apply escape_attr_scalars|by repeat constructor].
Qed.
Lemma element_source_scalars e : writable_element e → scalars (element_source e).
Proof.
  induction e as [q a c s IH] using element_induction. intros (Hq%xml_name_scalars & Ha & Hc)%writable_element_eq. rewrite element_source_eq.
  rewrite !Forall_app. split; [by repeat constructor|]. split; [done|]. split; [by apply attrs_text_scalars|].
  assert (Forall (λ n, scalars (node_source n)) c) as Hns.
  { destruct Hc as [(t & -> & (_ & Ht & _))|Hc]; [by repeat constructor|]. rewrite Forall_forall in IH, Hc |- *. intros [e|t] Hn; [by apply (IH (NElement e)), (Hc (NElement e))|by apply Hc in Hn]. }
  destruct c as [|n c]; [by repeat constructor|]. rewrite !Forall_app. split; [by repeat constructor|]. split; [by apply Forall_bind|].
  split; [by repeat constructor|]. split; [done|by repeat constructor].
Qed.

Section Reading.
Context `{QuickXmlLaws}.
Lemma start_attrs_read attrs acc scope : Forall (λ a, scalars (fst a) ∧ scalars (snd a)) attrs →
  start_attrs (attr_event <$> attrs) acc scope = Ok (acc ++ attrs, foldl declare scope attrs).
Proof.
  revert acc scope. induction attrs as [|[k v] attrs IH]; intros acc scope Ha; [by rewrite app_nil_r|]. apply Forall_cons in Ha as [[Hk Hv] Ha].
  cbn [fmap list_fmap start_attrs attr_event fst snd ok_or mbind outcome_bind] in *. rewrite !from_utf8_encode by (done || by apply escape_attr_scalars). cbn.
  rewrite unbroken_normal by apply escape_attr_unbroken. rewrite unescape_escaped. cbn. rewrite IH by done. by rewrite <-app_assoc.
Qed.
Definition close (st : list Element) (e : Element) : list Element * option Element :=
  match st with
  | [] => ([], Some e)
  | p :: st => (with_children p (e_children p ++ [NElement e]) :: st, None)
  end.
Lemma run_doc_app s evs evs' : run_doc s (evs ++ evs') = (s ← run_doc s evs; run_doc s evs').
Proof. revert s. induction evs as [|ev evs IH]; intros s; cbn; [done|]. destruct (doc_step s ev); cbn; [apply IH|done..]. Qed.
Lemma run_element e : ∀ st, readable (default [] (e_scope <$> head st)) e → run_doc (st, None) (element_events e) = Ok (close st e).
Proof.
  induction e as [q a c s IH] using element_induction. intros st (Hq & Ha & -> & Hc)%readable_eq. rewrite element_events_eq.
  cbn [run_doc doc_step]. rewrite bool_decide_false by (intros [? [=]]). cbn. unfold start_element. rewrite from_utf8_encode by done. cbn.
  rewrite start_attrs_read by done. cbn. fold (inner_scope (default [] (e_scope <$> head st)) a). set (scope := inner_scope _ a) in *.
  assert (Hin : run_doc (mk_element q a [] scope :: st, None) (c ≫= node_events) = Ok (mk_element q a c scope :: st, None)).
  { destruct Hc as [(t & -> & Ht)|Hc]; [cbn; by rewrite normalize_no_cr by done|]. change c with ([] ++ c) at 2. generalize (@nil Node).
    induction c as [|n c IHc]; intros pre; [by rewrite app_nil_r|]. apply Forall_cons in Hc as [Hn Hc]. apply Forall_cons in IH as [IHn IH].
    destruct n as [e|t]; [|done]. cbn [mbind list_bind node_events]. rewrite run_doc_app.
    rewrite (IHn (mk_element q a pre scope :: st)) by done. cbn [outcome_bind mbind close with_children e_qname e_attrs e_children e_scope]. etransitivity; [apply (IHc IH Hc)|]. by rewrite <-app_assoc. }
  rewrite run_doc_app, Hin. cbn. by destruct st.
Qed.
Lemma parse_read text e : scalars text → head text = Some 60 → readable [] e → doc_events text = (EvDecl :: element_events e, true) →
  parse_document (encode_utf8 text) = Ok e.
Proof.
  intros Ht Hh He Hd. unfold parse_document. destruct text as [|c text]; [done|]. injection Hh as ->.
  set (body := encode_utf8 (60 :: text)).
  assert (Hb : match body with a :: b :: c :: xml' => if bool_decide ([a; b; c] = BOM) then xml' else body | _ => body end = body).
  { subst body. change (encode_utf8 (60 :: text)) with (byte_of 60 :: encode_utf8 text). destruct (encode_utf8 text) as [|b [|c' r]]; [done..|].
    rewrite bool_decide_false; [done|]. intros Hx%(f_equal head). by vm_compute in Hx. }
  rewrite Hb. subst body. rewrite from_utf8_encode by done. cbn [ok_or mbind outcome_bind]. rewrite Hd. cbn [run_doc doc_step mbind outcome_bind].
  rewrite run_element by done. done.
Qed.
(** Reading a document that was written out gives its element back. *)
Lemma parse_document_text e : writable_element e → readable [] e → parse_document (encode_utf8 (document_text e)) = Ok e.
Proof.
  intros Hw Hr. apply parse_read; [|done|done|by apply doc_events_written].
  apply Forall_app. split; [by apply (bool_decide_unpack _); vm_compute|by apply element_source_scalars].
Qed.
End Reading.

(** ** A reader to run the theorems on *)

Definition ENTITIES : list (str * char) :=
  [(chars "&amp;", 38); (chars "&lt;", 60); (chars "&gt;", 62); (chars "&quot;", 34); (chars "&apos;", 39); (chars "&#x9;", 9);
   (chars "&#xA;", 10); (chars "&#xD;", 13)].
Fixpoint entity_at (entities : list (str * char)) (s : str) : option (char * str) :=
  match entities with
  | [] => None
  | (name, c) :: entities' => match strip_prefix name s with Some rest => Some (c, rest) | None => entity_at entities' s end
  end.
Fixpoint simple_unescape (fuel : nat) (s : str) : option str :=
  match fuel, s with
  | _, [] => Some []
  | O, _ => None
  | S fuel', c :: s' =>
      if c =? 38 then '(d, rest) ← entity_at ENTITIES s; t ← simple_unescape fuel' rest; Some (d :: t)
      else t ← simple_unescape fuel' s'; Some (c :: t)
  end.
Fixpoint simple_attrs (fuel : nat) (s : str) : list (option (bytes * bytes)) :=
  match fuel with
  | O => []
  | S fuel' =>
      match split_once 61 s with
      | Some (name, 34 :: rest) =>
          match split_once 34 rest with
          | Some (value, rest) => Some (encode_utf8 (trim name), encode_utf8 value) :: simple_attrs fuel' rest
          | None => [None]
          end
      | _ => []
      end
  end.
Definition simple_tag (tag : str) : Event :=
  let '(name, attributes) := default (tag, []) (split_once 32 tag) in EvStart (encode_utf8 name) (simple_attrs (length attributes) attributes).
(** The end of a tag, outside of quotes *)
Fixpoint tag_end (inside : bool) (s : str) : option (str * str) :=
  match s with
  | [] => None
  | c :: s' =>
      if (c =? 62) && negb inside then Some ([], s')
      else '(tag, rest) ← tag_end (xorb inside (c =? 34)) s'; Some (c :: tag, rest)
  end.
Fixpoint simple_events (fuel : nat) (s : str) : list Event * bool :=
  match fuel, s with
  | _, [] => ([], true)
  | O, _ => ([], false)
  | S fuel', c :: s' =>
      let then_events evs rest := prod_map (app evs) id (simple_events fuel' rest) in
      if c =? 60 then
        match tag_end false s' with
        | None => ([], false)
        | Some (tag, rest) =>
            if starts_with tag [63] then then_events [EvDecl] rest
            else if starts_with tag [47] then then_events [EvEnd] rest
            else match strip_suffix [47] tag with
                 | Some tag => then_events [simple_tag tag; EvEnd] rest
                 | None => then_events [simple_tag tag] rest
                 end
        end
      else
        match split_once 60 s with
        | Some (t, rest) => then_events [EvText (Some t)] (60 :: rest)
        | None => ([EvText (Some s)], true)
        end
  end.
#[export] Instance SimpleXml : QuickXml := {|
  doc_events s := simple_events (length s) s;
  unescape s := simple_unescape (length s) s |}.

Lemma unescape_entity fuel s c t v : entity_at ENTITIES (38 :: s) = Some (c, t) → simple_unescape fuel t = Some v →
  simple_unescape (S fuel) (38 :: s) = Some (c :: v).
Proof. intros He Hv. cbn [simple_unescape]. rewrite He. cbn -[simple_unescape]. by rewrite Hv. Qed.
Lemma entity_read e c fuel t v : (e, c) ∈ ENTITIES → simple_unescape fuel t = Some v → simple_unescape (S fuel) (e ++ t) = Some (c :: v).
Proof.
  intros He Hv. repeat apply elem_of_cons in He as [[= -> ->]|He]; [..|by apply not_elem_of_nil in He].
  all: by eapply unescape_entity; [|exact Hv]; vm_compute.
Qed.
Lemma simple_unescape_escaped v : ∀ fuel, (length v <= fuel)%nat → simple_unescape fuel (escape_attr v) = Some v.
Proof.
  induction v as [|c v IH]; intros [|fuel] Hf; cbn [length] in Hf; [done|done|lia|].
  change (escape_attr (c :: v)) with (escape_attr_char c ++ escape_attr v). unfold escape_attr_char.
  specialize (IH fuel ltac:(lia)). destruct (Z.eqb_spec c 38) as [->|Hc].
  { apply entity_read; [by left|done]. }
  destruct (Z.eqb_spec c 60) as [->|]; [apply entity_read; [by do 1 right; left|done]|].
  destruct (Z.eqb_spec c 34) as [->|]; [apply entity_read; [by do 3 right; left|done]|].
  destruct (Z.eqb_spec c 9) as [->|]; [apply entity_read; [by do 5 right; left|done]|].
  destruct (Z.eqb_spec c 10) as [->|]; [apply entity_read; [by do 6 right; left|done]|].
  destruct (Z.eqb_spec c 13) as [->|]; [apply entity_read; [by do 7 right; left|done]|].
  cbn. rewrite (proj2 (Z.eqb_neq c 38)) by done. by rewrite IH.
Qed.
Lemma length_escape_attr v : (length v <= length (escape_attr v))%nat.
Proof.
  induction v as [|c v IH]; [done|]. change (escape_attr (c :: v)) with (escape_attr_char c ++ escape_attr v). rewrite length_app. cbn.
  assert (1 <= length (escape_attr_char c))%nat; [|lia]. unfold escape_attr_char. repeat (destruct (c =? _); [vm_compute; lia|]). cbn; lia.
Qed.

(** Its events of a written document *)
Lemma split_once_absent c s : c ∉ s → split_once c s = None.
Proof. destruct (split_once c s) as [[a b]|] eqn:E; [|done]. apply split_once_Some in E as [-> _]. intros []. apply elem_of_app. right. by left. Qed.
Lemma tag_end_plain t s : Forall (λ c, c ≠ 34 ∧ c ≠ 62) t → tag_end false (t ++ s) = prod_map (app t) id <$> tag_end false s.
Proof.
  induction 1 as [|c t [H1 H2] _ IH]; cbn [app tag_end]; [by destruct (tag_end false s) as [[]|]|].
  rewrite (proj2 (Z.eqb_neq c 62)), (proj2 (Z.eqb_neq c 34)) by done. cbn. rewrite IH. by destruct (tag_end false s) as [[]|].
Qed.
Lemma tag_end_value v s : 34 ∉ v → tag_end true (v ++ 34 :: s) = prod_map (app (v ++ [34])) id <$> tag_end false s.
Proof.
  induction v as [|c v IH]; cbn [app tag_end].
  - intros _. cbn. by destruct (tag_end false s) as [[]|].
  - intros [Hc Hv]%not_elem_of_cons. rewrite andb_false_r, (proj2 (Z.eqb_neq c 34)) by done. cbn. rewrite IH by done. by destruct (tag_end false s) as [[]|].
Qed.
Lemma xml_name_tag k : xml_name k → Forall (λ c, c ≠ 34 ∧ c ≠ 62) k.
Proof. intros [_ Hk]. eapply Forall_impl; [exact Hk|]. intros c Hc%name_char_cases. lia. Qed.
Lemma escape_attr_without c v : c = 34 ∨ c = 60 → c ∉ escape_attr v.
Proof.
  intros Hc (d & Hin & _)%list_elem_of_bind. revert Hin. unfold escape_attr_char.
  repeat match goal with |- context [d =? ?n] => destruct (Z.eqb_spec d n); [destruct Hc as [-> | ->]; by apply (bool_decide_unpack _); vm_compute|] end.
  intros ->%list_elem_of_singleton. destruct Hc; congruence.
Qed.
Lemma attr_source_app k v s : attr_source (k, v) ++ s = (32 :: k ++ [61]) ++ 34 :: escape_attr v ++ 34 :: s.
Proof. unfold attr_source, quoted. cbn [fst snd app]. rewrite <-!app_assoc. cbn [app]. by rewrite <-!app_assoc. Qed.
Lemma tag_end_attrs attrs s : Forall (λ a, xml_name (fst a) ∧ scalars (snd a)) attrs →
  tag_end false ((attrs ≫= attr_source) ++ s) = prod_map (app (attrs ≫= attr_source)) id <$> tag_end false s.
Proof.
  induction 1 as [|[k v] attrs [Hk _] _ IH]; [cbn [mbind list_bind app]; by destruct (tag_end false s) as [[]|]|]. cbn [mbind list_bind]. cbn [fst snd] in Hk.
  rewrite <-app_assoc, attr_source_app.
  rewrite tag_end_plain by (constructor; [done|apply Forall_app; split; [by apply xml_name_tag|by repeat constructor]]).
  cbn [tag_end Z.eqb Pos.eqb andb xorb]. rewrite tag_end_value by (apply escape_attr_without; by left). rewrite IH.
  destruct (tag_end false s) as [[t r]|]; [|done]. cbn [fmap option_fmap option_map prod_map mbind option_bind fst snd id].
  rewrite <-(app_assoc (attr_source (k, v))), attr_source_app. cbn [app]. by rewrite <-!app_assoc.
Qed.
Lemma tag_end_tag q attrs tail rest : xml_name q → Forall (λ a, xml_name (fst a) ∧ scalars (snd a)) attrs →
  Forall (λ c, c ≠ 34 ∧ c ≠ 62) tail →
  tag_end false (q ++ (attrs ≫= attr_source) ++ tail ++ 62 :: rest) = Some (q ++ (attrs ≫= attr_source) ++ tail, rest).
Proof.
  intros Hq Ha Ht. rewrite tag_end_plain by by apply xml_name_tag. rewrite tag_end_attrs by done. rewrite tag_end_plain by done. cbn. by rewrite app_nil_r.
Qed.
Lemma xml_name_without k c : xml_name k → name_char c = false → c ∉ k.
Proof. intros [_ Hk] Hc Hin. rewrite Forall_forall in Hk. specialize (Hk _ Hin). cbn in Hk. congruence. Qed.
Lemma simple_attrs_read attrs tail fuel : Forall (λ a, xml_name (fst a) ∧ scalars (snd a)) attrs → 61 ∉ tail → (length attrs <= fuel)%nat →
  simple_attrs fuel ((attrs ≫= attr_source) ++ tail) = attr_event <$> attrs ∧
  ∀ a s, (attrs ≫= attr_source) ++ tail = a :: s → attrs ≠ [] → simple_attrs fuel s = attr_event <$> attrs.
Proof.
  intros Ha Ht. revert fuel. induction Ha as [|[k v] attrs [Hk _] _ IH]; intros fuel Hf.
  - split; [|done]. cbn. destruct fuel; [done|]. cbn. by rewrite split_once_absent.
  - cbn [fst] in Hk. destruct fuel as [|fuel]; [cbn in Hf; lia|]. specialize (IH fuel ltac:(cbn in Hf; lia)) as [IH _].
    assert (∀ pre, Forall (λ c, is_whitespace c = true) pre → 61 ∉ pre → simple_attrs (S fuel) (pre ++ k ++ [61; 34] ++ escape_attr v ++ 34 :: (attrs ≫= attr_source) ++ tail)
      = attr_event <$> (k, v) :: attrs) as Hone.
    { intros pre Hw Hpre. cbn [simple_attrs]. replace (pre ++ _) with ((pre ++ k) ++ 61 :: (34 :: escape_attr v ++ 34 :: (attrs ≫= attr_source) ++ tail)) by (by rewrite <-!app_assoc).
      rewrite split_once_app by (intros [?|?]%elem_of_app; [done|by apply (xml_name_without k 61 Hk eq_refl)]).
      rewrite split_once_app by (apply escape_attr_without; by left). rewrite IH. cbn [fmap list_fmap]. f_equal. unfold attr_event. cbn [fst snd]. do 3 f_equal.
      replace (trim (pre ++ k)) with (trim k); [apply trim_visible|].
      - destruct Hk as [_ Hk]. eapply Forall_impl; [exact Hk|]. intros c Hc. by apply name_char_visible.
      - unfold trim. f_equal. clear -Hw. induction Hw as [|c pre Hc _ IH]; [done|]. cbn [app trim_start_matches]. by rewrite Hc. }
    cbn [mbind list_bind]. rewrite <-app_assoc, attr_source_app. split.
    + specialize (Hone [32]). cbn [app] in Hone |- *. rewrite <-!app_assoc. cbn [app]. apply Hone; [by repeat constructor|by apply (bool_decide_unpack _); vm_compute].
    + intros a s Hs _. cbn [app] in Hs. injection Hs as _ <-. specialize (Hone []). cbn [app] in Hone |- *. rewrite <-!app_assoc. cbn [app].
      apply Hone; [done|by apply not_elem_of_nil].
Qed.
Lemma length_attr_source a s : (2 + length s <= length (attr_source a ++ s))%nat.
Proof. destruct a as [k v]. rewrite attr_source_app, length_app. cbn [length]. rewrite !length_app. cbn [length]. lia. Qed.
Lemma length_attrs attrs : (length attrs <= length (attrs ≫= attr_source))%nat.
Proof.
  induction attrs as [|a attrs IH]; [done|]. cbn [mbind list_bind length]. pose proof (length_attr_source a (attrs ≫= attr_source)). lia.
Qed.
Lemma simple_tag_read q attrs tail : xml_name q → Forall (λ a, xml_name (fst a) ∧ scalars (snd a)) attrs → tail = [] ∨ tail = [32] →
  simple_tag (q ++ (attrs ≫= attr_source) ++ tail) = EvStart (encode_utf8 q) (attr_event <$> attrs).
Proof.
  intros Hq Ha Ht. unfold simple_tag. assert (32 ∉ q) as Hsp by by apply (xml_name_without q 32 Hq eq_refl).
  destruct ((attrs ≫= attr_source) ++ tail) as [|c s] eqn:E.
  - destruct attrs as [|[k v] attrs]; [|done]. rewrite app_nil_r, split_once_absent by done. done.
  - assert (c = 32) as -> by (destruct attrs as [|[k v] attrs]; [destruct Ht as [-> | ->]; [done|by injection E]|by injection E]).
    rewrite split_once_app by done. cbn [default from_option]. f_equal. destruct attrs as [|a attrs].
    + destruct Ht as [-> | ->]; [done|]. by injection E as <-.
    + eapply simple_attrs_read; [exact Ha|..|exact E|done]; [destruct Ht as [-> | ->]; by apply (bool_decide_unpack _); vm_compute|].
      apply (f_equal length) in E. cbn [mbind list_bind length] in E |- *. rewrite <-app_assoc in E.
      pose proof (length_attr_source a ((attrs ≫= attr_source) ++ tail)) as Hl. rewrite length_app in Hl at 1. pose proof (length_attrs attrs). lia.
Qed.
(** The reader gives these events for a text, and goes on after it. *)
Definition reads (text : str) (evs : list Event) : Prop := ∀ fuel rest, (length (text ++ rest) <= fuel)%nat →
  ∃ fuel', (length rest <= fuel')%nat ∧ simple_events fuel (text ++ rest) = prod_map (app evs) id (simple_events fuel' rest).
Lemma reads_nil : reads [] [].
Proof. intros fuel rest Hf. exists fuel. split; [done|]. cbn. by destruct (simple_events fuel rest). Qed.
Lemma reads_app a b ea eb : reads a ea → reads b eb → reads (a ++ b) (ea ++ eb).
Proof.
  intros Ha Hb fuel rest Hf. rewrite <-app_assoc in Hf |- *. destruct (Ha fuel (b ++ rest) Hf) as (f1 & Hf1 & ->).
  destruct (Hb f1 rest Hf1) as (f2 & Hf2 & ->). exists f2. split; [done|]. destruct (simple_events f2 rest). cbn. by rewrite app_assoc.
Qed.
Lemma reads_concat {A} (f : A → str) (g : A → list Event) l : Forall (λ x, reads (f x) (g x)) l → reads (l ≫= f) (l ≫= g).
Proof. induction 1; [apply reads_nil|by apply reads_app]. Qed.
Lemma head_name q c : xml_name q → name_char c = false → starts_with q [c] = false ∧ ∀ s, starts_with (q ++ s) [c] = false.
Proof.
  intros [Hne Hq] Hc. destruct q as [|d q]; [done|]. apply Forall_cons in Hq as [Hd _].
  assert (∀ s, starts_with ((d :: q) ++ s) [c] = false) as Hs; [|split; [specialize (Hs []); by rewrite app_nil_r in Hs|done]].
  intros s. apply not_true_iff_false. intros [r Hr]%starts_with_spec. cbn in Hr. injection Hr as -> _. congruence.
Qed.
Lemma reads_tag tag ev :
  (∀ rest, tag_end false (tag ++ 62 :: rest) = Some (tag, rest)) → starts_with tag [63] = false → starts_with tag [47] = false →
  ev = match strip_suffix [47] tag with Some tag => [simple_tag tag; EvEnd] | None => [simple_tag tag] end →
  reads ([60] ++ tag ++ [62]) ev.
Proof.
  intros Ht H1 H2 -> [|fuel] rest Hf; [cbn in Hf; lia|]. cbn [app] in Hf |- *. rewrite <-app_assoc in Hf |- *. cbn [app] in Hf |- *.
  exists fuel. split; [cbn in Hf; rewrite length_app in Hf; cbn in Hf; lia|]. cbn [simple_events Z.eqb Pos.eqb]. rewrite Ht, H1, H2. by destruct (strip_suffix [47] tag).
Qed.
Lemma reads_close q : xml_name q → reads (chars "</" ++ q ++ [62]) [EvEnd].
Proof.
  intros Hq. change (chars "</") with [60; 47]. intros [|fuel] rest Hf; [cbn in Hf; lia|]. cbn [app] in Hf |- *. rewrite <-app_assoc in Hf |- *. cbn [app] in Hf |- *.
  exists fuel. split; [cbn in Hf; rewrite length_app in Hf; cbn in Hf; lia|]. cbn [simple_events Z.eqb Pos.eqb].
  change (47 :: q ++ 62 :: rest) with ((47 :: q) ++ 62 :: rest). rewrite tag_end_plain by (constructor; [done|by apply xml_name_tag]).
  cbn [tag_end Z.eqb Pos.eqb andb negb fmap option_fmap option_map prod_map fst snd id]. rewrite app_nil_r. done.
Qed.
Lemma last_not_slash q attrs : xml_name q → strip_suffix [47] (q ++ (attrs ≫= attr_source)) = None.
Proof.
  intros Hq. destruct (strip_suffix [47] _) as [r|] eqn:E; [|done]. exfalso. apply strip_suffix_Some in E.
  destruct attrs as [|a attrs _] using rev_ind.
  - rewrite app_nil_r in E. apply (xml_name_without q 47 Hq eq_refl). rewrite E. apply elem_of_app. right. by left.
  - rewrite bind_app in E. cbn [mbind list_bind] in E. rewrite app_nil_r in E. destruct a as [k v].
    rewrite <-(app_nil_r (attr_source (k, v))), attr_source_app in E. change (34 :: escape_attr v ++ [34]) with ((34 :: escape_attr v) ++ [34]) in E.
    rewrite !app_assoc in E. by apply app_inj_tail in E as [_ ?].
Qed.
Lemma reads_start q attrs : xml_name q → Forall (λ a, xml_name (fst a) ∧ scalars (snd a)) attrs →
  reads ([60] ++ q ++ (attrs ≫= attr_source) ++ [62]) [EvStart (encode_utf8 q) (attr_event <$> attrs)].
Proof.
  intros Hq Ha. rewrite (app_assoc q). assert (∀ rest, tag_end false ((q ++ (attrs ≫= attr_source)) ++ 62 :: rest) = Some (q ++ (attrs ≫= attr_source), rest)) as Ht.
  { intros rest. rewrite <-app_assoc. pose proof (tag_end_tag q attrs [] rest Hq Ha) as He. cbn [app] in He. rewrite app_nil_r in He. by apply He. }
  apply reads_tag; [exact Ht|by apply head_name|by apply head_name|]. rewrite last_not_slash by done.
  pose proof (simple_tag_read q attrs [] Hq Ha) as He. rewrite app_nil_r in He. rewrite He; [done|by left].
Qed.
Lemma reads_empty q attrs : xml_name q → Forall (λ a, xml_name (fst a) ∧ scalars (snd a)) attrs →
  reads ([60] ++ q ++ (attrs ≫= attr_source) ++ chars " />") [EvStart (encode_utf8 q) (attr_event <$> attrs); EvEnd].
Proof.
  intros Hq Ha. change (chars " />") with ([32; 47] ++ [62]). rewrite (app_assoc (attrs ≫= _)), (app_assoc q).
  assert (∀ rest, tag_end false ((q ++ (attrs ≫= attr_source) ++ [32; 47]) ++ 62 :: rest) = Some (q ++ (attrs ≫= attr_source) ++ [32; 47], rest)) as Ht.
  { intros rest. rewrite <-!app_assoc. apply tag_end_tag; [done..|by repeat constructor]. }
  apply reads_tag; [exact Ht|by apply head_name|by apply head_name|].
  replace (q ++ (attrs ≫= attr_source) ++ [32; 47]) with ((q ++ (attrs ≫= attr_source) ++ [32]) ++ [47]) by (by rewrite <-!app_assoc).
  rewrite (proj2 (strip_suffix_Some [47] _ _) eq_refl). rewrite simple_tag_read; [done..|by right].
Qed.
Lemma reads_text t b eb : plain_text t → reads (60 :: b) eb → reads (t ++ 60 :: b) (EvText (Some t) :: eb).
Proof.
  intros (Hne & _ & Ht) Hb [|fuel] rest Hf; [destruct t; [done|cbn in Hf; lia]|]. destruct t as [|c t]; [done|]. rewrite <-app_assoc in Hf |- *.
  assert (60 ∉ c :: t) as Hlt by (intros Hin; rewrite Forall_forall in Ht; apply (Ht _ Hin); by right; left).
  destruct (Hb fuel rest) as (f' & Hf' & He); [cbn [app length] in Hf |- *; rewrite length_app in Hf; cbn [length] in Hf; lia|]. exists f'. split; [done|].
  cbn [app simple_events]. rewrite (proj2 (Z.eqb_neq c 60)) by (intros ->; apply Hlt; by left).
  change (c :: t ++ 60 :: b ++ rest) with ((c :: t) ++ 60 :: (b ++ rest)). rewrite split_once_app by done. cbn [app] in He. rewrite He. by destruct (simple_events f' rest).
Qed.
Lemma reads_element e : writable_element e → reads (element_source e) (element_events e).
Proof.
  induction e as [q a c s IH] using element_induction. intros (Hq & [Ha _] & Hc)%writable_element_eq. rewrite element_source_eq, element_events_eq.
  destruct c as [|n c]; [by apply reads_empty|]. rewrite !app_assoc, <-(app_assoc _ _ [62]), <-!app_assoc.
  change (EvStart ?x ?y :: ?r) with ([EvStart x y] ++ r).
  replace ([60] ++ q ++ (a ≫= attr_source) ++ [62] ++ ((n :: c) ≫= node_source) ++ chars "</" ++ q ++ [62])
    with (([60] ++ q ++ (a ≫= attr_source) ++ [62]) ++ (((n :: c) ≫= node_source) ++ chars "</" ++ q ++ [62])) by (by rewrite <-!app_assoc).
  apply reads_app; [by apply reads_start|]. destruct Hc as [(t & [= -> ->] & Ht)|Hc].
  - cbn [mbind list_bind node_source node_events]. rewrite app_nil_r. apply (reads_text t); [done|by apply reads_close].
  - apply reads_app; [|by apply reads_close]. apply reads_concat. rewrite Forall_forall in IH, Hc |- *. intros [e|t] Hn; [|by apply Hc in Hn].
    by apply (IH (NElement e)), (Hc (NElement e)).
Qed.
Lemma reads_document e : writable_element e → reads (document_text e) (EvDecl :: element_events e).
Proof.
  intros He. change (EvDecl :: element_events e) with ([EvDecl] ++ element_events e). apply reads_app; [|by apply reads_element].
  intros fuel rest Hf. rewrite length_app in Hf. change (length XML_DECLARATION) with 38%nat in Hf. destruct fuel as [|fuel]; [lia|].
  exists fuel. split; [lia|done].
Qed.
#[export] Instance SimpleXmlLaws : QuickXmlLaws.
Proof.
  constructor.
  - intros v. apply simple_unescape_escaped, length_escape_attr.
  - intros e He. cbn. destruct (reads_document e He (length (document_text e)) []) as (f & _ & Hr); [by rewrite app_nil_r|].
    rewrite app_nil_r in Hr. rewrite Hr. destruct f; cbn; by rewrite app_nil_r.
Qed.
