(* ===== verification/Vsix.v ===== *)
(** OPC packages and VSIX signatures: [psign-opc-sign/src/opc.rs],
    [psign-opc-sign/src/vsix.rs], the package summaries of [nuget.rs] and
    [sign_vsix] of the portable core.  The signature is written in canonical
    form; [VsixSign] shows that it is. *)

From S2P Require Import Prelude.
From S2P Require Import RustStr.
From S2P Require Import Find.
From S2P Require Import Base64.
From S2P Require Import PeDigest.
From S2P Require Import AppxParts.
From S2P Require Import AppxTypes.
From S2P Require Import AppxDigest.
From S2P Require Import ZipWrite.
From S2P Require Import BTree.
From S2P Require Import NuGet.
From S2P Require Import CodeXml.

(** ** Summaries of packages *)

Definition CONTENT_TYPES_PART : str := chars "[Content_Types].xml".
Definition ROOT_RELATIONSHIPS_PART : str := chars "_rels/.rels".
Definition OPC_SIGNATURE_ORIGIN_PART : str := chars "package/services/digital-signature/origin.psdsor".
Definition OPC_SIGNATURES_PREFIX : str := chars "package/services/digital-signature/xml-signature/".
Record PackageEntry := mk_package_entry {
  pe_name : str; pe_compressed_size : Z; pe_uncompressed_size : Z; pe_is_dir : bool; pe_compression : CompressionMethod }.
Record PackageSummary := mk_summary {
  ps_entries : list PackageEntry; has_content_types : bool; has_root_relationships : bool; has_opc_signature_origin : bool;
  opc_signature_parts : list str }.
Definition summary_entry (s : PackageSummary) (name : str) : option PackageEntry :=
  List.find (λ e, bool_decide (pe_name e = name)) (ps_entries s).
Fixpoint insert_part (p : str) (ps : list str) : list str :=
  match ps with
  | [] => [p]
  | q :: ps' => if str_le p q then p :: ps else q :: insert_part p ps'
  end.
Definition inspect_step (s : PackageSummary) (r : outcome ZipFile) : outcome PackageSummary :=
  file ← with_context r "read ZIP central directory entry";
  name ← normalize_zip_part_name (zf_name file);
  let is_dir := is_directory_name (zf_name file) in
  Ok (mk_summary
    (ps_entries s ++ [mk_package_entry name (zf_compressed_size file) (zf_size file) is_dir (zf_compression file)])
    (has_content_types s || bool_decide (name = CONTENT_TYPES_PART))
    (has_root_relationships s || bool_decide (name = ROOT_RELATIONSHIPS_PART))
    (has_opc_signature_origin s || bool_decide (name = OPC_SIGNATURE_ORIGIN_PART))
    (if starts_with name OPC_SIGNATURES_PREFIX && negb (bool_decide (name = OPC_SIGNATURE_ORIGIN_PART)) && negb is_dir
     then opc_signature_parts s ++ [name] else opc_signature_parts s)).
Fixpoint inspect_files (s : PackageSummary) (files : list (outcome ZipFile)) : outcome PackageSummary :=
  match files with
  | [] => Ok s
  | r :: files' => s ← inspect_step s r; inspect_files s files'
  end.
Definition inspect_package_reader `{ZipCrate} (data : bytes) : outcome PackageSummary :=
  archive ← with_context (zip_archive_new data) "open ZIP archive";
  s ← inspect_files (mk_summary [] false false false []) (by_index archive);
  Ok (mk_summary (ps_entries s) (has_content_types s) (has_root_relationships s) (has_opc_signature_origin s)
    (foldr insert_part [] (opc_signature_parts s))).
(** [year] may be any; the other fields are those of a date. *)
Definition zip_datetime_from_offset_date_time (from_date_and_time : Z → Z → Z → Z → Z → Z → option DateTime) (dt : DateTime) : outcome DateTime :=
  bail_if (negb ((1980 <=? year dt) && (year dt <=? 2107))) "local time year {year} is outside the ZIP DOS timestamp range";;
  ok_or (from_date_and_time (year dt) (month dt) (day dt) (hour dt) (minute dt) (second dt))
    "local time could not be represented as a ZIP DOS timestamp".

Record NuGetPackageInfo := mk_nupkg { np_package : PackageSummary; np_signed : bool; signature_len : option Z; signature_is_stored : option bool }.
Definition inspect_nupkg `{ZipCrate} (data : bytes) : outcome NuGetPackageInfo :=
  package ← inspect_package_reader data;
  let signature := summary_entry package PACKAGE_SIGNATURE_FILE_NAME in
  let signature_len := pe_uncompressed_size <$> signature in
  let signature_is_stored := (λ e, match pe_compression e with Stored => true | _ => false end) <$> signature in
  Ok (mk_nupkg package (bool_decide (is_Some signature_len)) signature_len signature_is_stored).
Definition unsigned_package_digest `{ZipCrate} `{DigestOracle} (data : bytes) (algorithm : NuGetHashAlgorithm) : outcome bytes :=
  info ← inspect_nupkg data;
  bail_if (np_signed info) "{} already contains {}; remove or overwrite the signature before computing the unsigned package digest";;
  Ok (nuget_hash algorithm data).
Record VsixPackageInfo := mk_vsix_info { vp_package : PackageSummary; has_opc_signature : bool }.
Definition inspect_vsix `{ZipCrate} (data : bytes) : outcome VsixPackageInfo :=
  package ← inspect_package_reader data;
  Ok (mk_vsix_info package (has_opc_signature_origin package || negb (bool_decide (opc_signature_parts package = [])))).

(** ** Constants *)

Definition DEFAULT_VSIX_SIGNATURE_PART : str := chars "package/services/digital-signature/xml-signature/psign-signature.psdsxs".
Definition OPC_SIGNATURE_ORIGIN_RELS_PART : str := chars "package/services/digital-signature/_rels/origin.psdsor.rels".
Definition OPC_SIGNATURE_ORIGIN_CONTENT_TYPE : str := chars "application/vnd.openxmlformats-package.digital-signature-origin".
Definition OPC_SIGNATURE_XML_CONTENT_TYPE : str := chars "application/vnd.openxmlformats-package.digital-signature-xmlsignature+xml".
Definition OPC_SIGNATURE_ORIGIN_REL_TYPE : str :=
  chars "http://schemas.openxmlformats.org/package/2006/relationships/digital-signature/origin".
Definition OPC_SIGNATURE_REL_TYPE : str :=
  chars "http://schemas.openxmlformats.org/package/2006/relationships/digital-signature/signature".
Definition XMLDSIG_NS : str := chars "http://www.w3.org/2000/09/xmldsig#".
Definition OPC_DIGITAL_SIGNATURE_NS : str := chars "http://schemas.openxmlformats.org/package/2006/digital-signature".
Definition C14N_URI : str := chars "http://www.w3.org/TR/2001/REC-xml-c14n-20010315".
Definition XMLDSIG_OBJECT_TYPE : str := chars "http://www.w3.org/2000/09/xmldsig#Object".
Definition RELATIONSHIPS_CONTENT_TYPE : str := chars "application/vnd.openxmlformats-package.relationships+xml".
Definition VSIX_SIGNATURE_TIME_FORMAT : str := chars "YYYY-MM-DDThh:mm:ss.sTZD".
Definition digest_uri (alg : VsixHashAlgorithm) : str :=
  match alg with
  | VsixSha256 => chars "http://www.w3.org/2001/04/xmlenc#sha256"
  | VsixSha384 => chars "http://www.w3.org/2001/04/xmldsig-more#sha384"
  | VsixSha512 => chars "http://www.w3.org/2001/04/xmlenc#sha512"
  end.
Definition signature_uri (alg : VsixHashAlgorithm) : str :=
  match alg with
  | VsixSha256 => chars "http://www.w3.org/2001/04/xmldsig-more#rsa-sha256"
  | VsixSha384 => chars "http://www.w3.org/2001/04/xmldsig-more#rsa-sha384"
  | VsixSha512 => chars "http://www.w3.org/2001/04/xmldsig-more#rsa-sha512"
  end.

(** ** Text *)

Definition c14n_attr (value : str) : str :=
  value ≫= λ c,
    if c =? 38 then chars "&amp;" else if c =? 60 then chars "&lt;" else if c =? 34 then chars "&quot;"
    else if c =? 9 then chars "&#x9;" else if c =? 10 then chars "&#xA;" else if c =? 13 then chars "&#xD;" else [c].
Definition c14n_text (value : str) : str :=
  value ≫= λ c,
    if c =? 38 then chars "&amp;" else if c =? 60 then chars "&lt;" else if c =? 62 then chars "&gt;"
    else if c =? 13 then chars "&#xD;" else [c].
(** [str::replace]: every occurrence from the left, without overlap. *)
Fixpoint replace_fuel (fuel : nat) (s from by_ : str) : str :=
  match fuel, find s from with
  | S fuel', Some k => sub s 0 k ++ by_ ++ replace_fuel fuel' (sub s (k + len from) (len s)) from by_
  | _, _ => s
  end.
Definition replace (s from by_ : str) : str := replace_fuel (length s) s from by_.
Definition document_form (canonical : str) : str :=
  fold_left (λ out name, replace out (chars "></" ++ name ++ chars ">") (chars " />"))
    [chars "CanonicalizationMethod"; chars "SignatureMethod"; chars "DigestMethod"] canonical.
(** [{n:0width}] *)
Definition zero_padded (width : nat) (n : Z) : str :=
  let d := decimal 20 n in replicate (width - length d) 48 ++ d.
Definition date_text (dt : DateTime) (tenths : Z) : str :=
  zero_padded 4 (year dt) ++ chars "-" ++ zero_padded 2 (month dt) ++ chars "-" ++ zero_padded 2 (day dt) ++ chars "T"
  ++ zero_padded 2 (hour dt) ++ chars ":" ++ zero_padded 2 (minute dt) ++ chars ":" ++ zero_padded 2 (second dt) ++ chars "."
  ++ decimal 20 tenths ++ chars "+00:00".
(** The time in UTC, with its milliseconds *)
Definition signature_time_value (time : DateTime) (millisecond : Z) : str := date_text time (millisecond / 100).
(** Tuples in lexicographic order *)
Definition datetime_key (d : DateTime) : list Z := [year d; month d; day d; hour d; minute d; second d].
Definition newest_step `{ZipWriterCrate} (newest : option DateTime) (r : outcome ZipFile) : option DateTime :=
  match r with
  | Ok file =>
      let d := last_modified file in
      match newest with
      | Some n => if negb (str_le (datetime_key d) (datetime_key n)) then Some d else newest
      | None => Some d
      end
  | _ => newest
  end.
Definition package_signature_time_value `{ZipWriterCrate} (archive : ZipArchive) : str :=
  date_text (default (mk_datetime 1980 1 1 0 0 0) (fold_left newest_step (by_index_raw archive) None)) 0.

(** ** Attributes and elements found in text *)

Definition from (s : str) (k : Z) : str := sub s k (len s).
Definition element_text (text name : str) : option str :=
  let open := chars "<" ++ name ++ chars ">" in
  let close := chars "</" ++ name ++ chars ">" in
  k ← find text open;
  let rest := from text (k + len open) in
  e ← find rest close;
  Some (sub rest 0 e).
Definition xml_attr (tag name : str) : option str :=
  let quoted quote := chars " " ++ name ++ chars "=" ++ [quote] in
  let value quote k := (let rest := from tag (k + len (quoted quote)) in e ← find rest [quote]; Some (sub rest 0 e)) in
  match find tag (quoted 34) with
  | Some k => value 34 k
  | None => k ← find tag (quoted 39); value 39 k
  end.

(** ** Content types *)

Record ContentTypes := mk_content_types { ct_defaults : btree; ct_overrides : btree }.
(** The loop over the tags of one kind; the cursor is what is left of the
    text. *)
Fixpoint parse_types_fuel (fuel : nat) (tag key_attr rest : str) (map : btree) : option (outcome btree) :=
  match fuel with
  | O => None
  | S fuel' =>
      match find rest tag with
      | None => Some (Ok map)
      | Some start =>
          let rest := from rest start in
          match find rest [62] with
          | None => Some (Err "unterminated {tag} in [Content_Types].xml")
          | Some end_ =>
              let element := sub rest 0 (end_ + 1) in
              let map :=
                match xml_attr element key_attr, xml_attr element (chars "ContentType") with
                | Some key, Some ct => btree_insert (to_ascii_lowercase (trim_start_matches (λ c, c =? 47) key)) ct map
                | _, _ => map
                end in
              parse_types_fuel fuel' tag key_attr (from rest (end_ + 1)) map
          end
      end
  end.
Definition content_types_parse (xml : bytes) : outcome ContentTypes :=
  text ← ok_or (from_utf8 xml) "OPC [Content_Types].xml is not UTF-8";
  defaults ← default Panic (parse_types_fuel (S (length text)) (chars "<Default ") (chars "Extension") text []);
  overrides ← default Panic (parse_types_fuel (S (length text)) (chars "<Override ") (chars "PartName") text []);
  Ok (mk_content_types defaults overrides).
Definition for_part (types : ContentTypes) (part : str) : option str :=
  let key := to_ascii_lowercase part in
  match btree_get (ct_overrides types) key with
  | Some ct => Some ct
  | None => btree_get (ct_defaults types) (match rsplit_once 46 key with Some (_, e) => e | None => [] end)
  end.

(** ** The signature infrastructure of a package *)

Definition is_opc_signature_entry (name : str) : bool :=
  bool_decide (name = OPC_SIGNATURE_ORIGIN_PART) || bool_decide (name = OPC_SIGNATURE_ORIGIN_RELS_PART)
  || starts_with name OPC_SIGNATURES_PREFIX.
Definition expand_self_closing_xml_root (text root : str) : str :=
  match find text (chars "<" ++ root) with
  | None => text
  | Some start =>
      match find (from text start) [62] with
      | None => text
      | Some e =>
          let tag_end := start + e in
          if negb (ends_with (sub text 0 tag_end) [47]) then text else
          let end_ := tag_end - 1 in
          sub text 0 end_ ++ chars ">" ++ chars "</" ++ root ++ chars ">" ++ from text (end_ + 2)
      end
  end.
Definition insert_before (text marker addition : str) (missing : string) : outcome str :=
  insert_at ← ok_or (rfind text marker) missing;
  Ok (sub text 0 insert_at ++ addition ++ from text insert_at).
Definition default_type (extension content_type : str) : str :=
  chars "<Default Extension=" ++ q extension ++ chars " ContentType=" ++ q content_type ++ chars "/>".
Definition ensure_content_type_default (text extension content_type : str) : outcome str :=
  let text := expand_self_closing_xml_root text (chars "Types") in
  if contains text (chars "Extension=" ++ q extension) || contains text (chars "ContentType=" ++ q content_type) then Ok text
  else insert_before text (chars "</Types>") (default_type extension content_type) "OPC [Content_Types].xml is missing </Types>".
Definition EMPTY_TYPES : str :=
  chars "<?xml version=" ++ q (chars "1.0") ++ chars " encoding=" ++ q (chars "utf-8") ++ chars "?><Types xmlns="
  ++ q (chars "http://schemas.openxmlformats.org/package/2006/content-types") ++ chars "></Types>".
Definition ensure_signature_content_types (bs : bytes) : outcome bytes :=
  text ← (if bool_decide (bs = []) then Ok EMPTY_TYPES else ok_or (from_utf8 bs) "OPC [Content_Types].xml is not UTF-8");
  text ← ensure_content_type_default text (chars "psdsor") OPC_SIGNATURE_ORIGIN_CONTENT_TYPE;
  text ← ensure_content_type_default text (chars "psdsxs") OPC_SIGNATURE_XML_CONTENT_TYPE;
  text ← (if negb (contains (to_ascii_lowercase text) (chars "extension=" ++ q (chars "rels")))
          then insert_before text (chars "</Types>") (default_type (chars "rels") RELATIONSHIPS_CONTENT_TYPE)
                 "OPC [Content_Types].xml is missing </Types>"
          else Ok text);
  Ok (encode_utf8 text).
Fixpoint unique_id_from (fuel : nat) (text preferred_id : str) (i : Z) : option str :=
  match fuel with
  | O => None
  | S fuel' =>
      let candidate := preferred_id ++ decimal 20 i in
      if negb (contains text (chars "Id=" ++ q candidate)) then Some candidate else unique_id_from fuel' text preferred_id (i + 1)
  end.
Definition unique_relationship_id (text preferred_id : str) : option str :=
  if negb (contains text (chars "Id=" ++ q preferred_id)) then Some preferred_id
  else unique_id_from (S (length text)) text preferred_id 2.
Definition EMPTY_RELATIONSHIPS : str :=
  chars "<?xml version=" ++ q (chars "1.0") ++ chars " encoding=" ++ q (chars "utf-8") ++ chars "?><Relationships xmlns="
  ++ q (chars "http://schemas.openxmlformats.org/package/2006/relationships") ++ chars "></Relationships>".
Definition ensure_relationship (bs : bytes) (rel_type target preferred_id : str) : outcome bytes :=
  text ← (if bool_decide (bs = []) then Ok EMPTY_RELATIONSHIPS else ok_or (from_utf8 bs) "OPC relationships part is not UTF-8");
  let text := expand_self_closing_xml_root text (chars "Relationships") in
  if contains text (chars "Type=" ++ q rel_type) then Ok (encode_utf8 text) else
  insert_at ← ok_or (rfind text (chars "</Relationships>")) "OPC relationships part is missing </Relationships>";
  id ← unwrap (unique_relationship_id text preferred_id);
  let relationship := chars "<Relationship Id=" ++ q id ++ chars " Type=" ++ q rel_type ++ chars " Target=" ++ q target ++ chars "/>" in
  Ok (encode_utf8 (sub text 0 insert_at ++ relationship ++ from text insert_at)).
Definition ensure_root_signature_origin_relationship (bs : bytes) : outcome bytes :=
  ensure_relationship bs OPC_SIGNATURE_ORIGIN_REL_TYPE (chars "/" ++ OPC_SIGNATURE_ORIGIN_PART) (chars "PsignSignatureOrigin").
Definition signature_origin_relationships_xml : bytes :=
  encode_utf8 (chars "<?xml version=" ++ q (chars "1.0") ++ chars " encoding=" ++ q (chars "utf-8") ++ chars "?><Relationships xmlns="
    ++ q (chars "http://schemas.openxmlformats.org/package/2006/relationships") ++ chars "><Relationship Id=" ++ q (chars "PsignSignature")
    ++ chars " Type=" ++ q OPC_SIGNATURE_REL_TYPE ++ chars " Target=" ++ q (chars "xml-signature/psign-signature.psdsxs")
    ++ chars "/></Relationships>").

(** ** The package with its signature *)

Section Packages.
Context `{ZipCrate} `{ZipWriterCrate}.
Record Written := mk_written_state { ws_output : zip_writer; ws_had_signature : bool; ws_types : bool; ws_root : bool }.
Definition vsix_options (compression : CompressionMethod) : FileOptions := mk_options compression default_modified.
(** The bytes an entry is written with *)
Definition prepared_bytes (name : str) (bs : bytes) : outcome bytes :=
  if bool_decide (name = CONTENT_TYPES_PART) then ensure_signature_content_types bs
  else if bool_decide (name = ROOT_RELATIONSHIPS_PART) then ensure_root_signature_origin_relationship bs
  else Ok bs.
Fixpoint copy_entries (overwrite : bool) (files : list (outcome ZipFile)) (s : Written) : outcome Written :=
  match files with
  | [] => Ok s
  | r :: files' =>
      file ← with_context r "read VSIX ZIP entry";
      name ← normalize_zip_part_name (zf_name file);
      if is_opc_signature_entry name then
        if overwrite then copy_entries overwrite files' (mk_written_state (ws_output s) true (ws_types s) (ws_root s))
        else Err "package already contains OPC signature parts; pass overwrite to replace them"
      else
        let options := vsix_options (zf_compression file) in
        s ← (if is_directory_name (zf_name file) then
               w ← add_directory (ws_output s) name options;
               Ok (mk_written_state w (ws_had_signature s) (ws_types s) (ws_root s))
             else
               bs ← read_to_end file;
               bs ← prepared_bytes name bs;
               w ← write_file (ws_output s) name options bs;
               Ok (mk_written_state w (ws_had_signature s) (ws_types s || bool_decide (name = CONTENT_TYPES_PART))
                     (ws_root s || bool_decide (name = ROOT_RELATIONSHIPS_PART))));
        copy_entries overwrite files' s
  end.
Definition write_infrastructure (s : Written) (signature_xml : option bytes) : outcome zip_writer :=
  let stored := vsix_options Stored in
  let w := ws_output s in
  w ← (if negb (ws_types s) then
         w ← start_file w CONTENT_TYPES_PART stored; bs ← ensure_signature_content_types []; write_all w bs
       else Ok w);
  w ← (if negb (ws_root s) then
         w ← start_file w ROOT_RELATIONSHIPS_PART stored; bs ← ensure_root_signature_origin_relationship []; write_all w bs
       else Ok w);
  w ← write_file w OPC_SIGNATURE_ORIGIN_PART stored [];
  w ← write_file w OPC_SIGNATURE_ORIGIN_RELS_PART stored signature_origin_relationships_xml;
  match signature_xml with
  | Some signature_xml => write_file w DEFAULT_VSIX_SIGNATURE_PART stored signature_xml
  | None => Ok w
  end.
Definition write_signed_package (package : bytes) (signature_xml : option bytes) (overwrite : bool) : outcome bytes :=
  input ← with_context (zip_archive_new package) "open VSIX ZIP";
  s ← copy_entries overwrite (by_index input) (mk_written_state zip_writer_new false false false);
  w ← (if negb (ws_had_signature s) || overwrite then write_infrastructure s signature_xml else Ok (ws_output s));
  finish w.
Definition embed_signature_xml (package signature_xml : bytes) (overwrite : bool) : outcome bytes :=
  bail_if (bool_decide (signature_xml = [])) "VSIX signature XML payload is empty";;
  write_signed_package package (Some signature_xml) overwrite.
Fixpoint find_signature_part (files : list (outcome ZipFile)) (part : option str) : outcome (option str) :=
  match files with
  | [] => Ok part
  | r :: files' =>
      file ← with_context r "read VSIX ZIP entry";
      name ← normalize_zip_part_name (zf_name file);
      if negb (is_directory_name (zf_name file)) && starts_with name OPC_SIGNATURES_PREFIX then
        match part with
        | Some _ => Err "VSIX package contains multiple OPC signature XML parts"
        | None => find_signature_part files' (Some name)
        end
      else find_signature_part files' part
  end.
Definition extract_signature_xml (package : bytes) : outcome bytes :=
  archive ← with_context (zip_archive_new package) "open VSIX ZIP";
  part ← find_signature_part (by_index archive) None;
  part ← ok_or part "VSIX package does not contain OPC signature XML";
  file ← with_context (by_name archive part) "read VSIX signature XML part {signature_part}";
  xml ← with_context (read_to_end file) "read VSIX signature XML";
  bail_if (bool_decide (xml = [])) "VSIX signature XML payload is empty";;
  Ok xml.
End Packages.

(** ** The signature *)

Record VsixSignatureTemplate := mk_template {
  signed_info : bytes; signed_info_in_document : str; object_in_document : str; references : Z }.
Inductive VsixSigningTime := Now | FromPackage.
Section Signature.
Context `{Base64} `{DigestOracle} `{ZipCrate} `{ZipWriterCrate}.
Definition vsix_hash (alg : VsixHashAlgorithm) (bs : bytes) : bytes :=
  digest (match alg with VsixSha256 => Sha256 | VsixSha384 => Sha384 | VsixSha512 => Sha512 end) bs.
Definition signature_xml (t : VsixSignatureTemplate) (signature_value : bytes) (signer_cert_der : option bytes) : str :=
  chars "<?xml version=" ++ q (chars "1.0") ++ chars " encoding=" ++ q (chars "utf-8") ++ chars "?>"
  ++ chars "<Signature Id=" ++ q (chars "SignatureIdValue") ++ chars " xmlns=" ++ q XMLDSIG_NS ++ chars ">"
  ++ signed_info_in_document t ++ chars "<SignatureValue>" ++ b64_encode signature_value ++ chars "</SignatureValue>"
  ++ match signer_cert_der with
     | Some cert => chars "<KeyInfo><X509Data><X509Certificate>" ++ b64_encode cert ++ chars "</X509Certificate></X509Data></KeyInfo>"
     | None => []
     end
  ++ object_in_document t ++ chars "</Signature>".
Definition digest_elements (alg : VsixHashAlgorithm) (hash : bytes) : str :=
  chars "<DigestMethod Algorithm=" ++ q (digest_uri alg) ++ chars "></DigestMethod><DigestValue>" ++ b64_encode hash ++ chars "</DigestValue>".
Definition reference_text (alg : VsixHashAlgorithm) (name content_type : str) (bs : bytes) : str :=
  chars "<Reference URI=" ++ q (c14n_attr (chars "/" ++ name ++ chars "?ContentType=" ++ content_type)) ++ chars ">"
  ++ digest_elements alg (vsix_hash alg bs) ++ chars "</Reference>".
Fixpoint manifest_references (alg : VsixHashAlgorithm) (types : ContentTypes) (files : list (outcome ZipFile)) (manifest : str)
    (references : Z) : outcome (str * Z) :=
  match files with
  | [] => Ok (manifest, references)
  | r :: files' =>
      file ← with_context r "read VSIX ZIP entry";
      name ← normalize_zip_part_name (zf_name file);
      if is_directory_name (zf_name file) || bool_decide (name = CONTENT_TYPES_PART) || bool_decide (name = DEFAULT_VSIX_SIGNATURE_PART)
      then manifest_references alg types files' manifest references
      else
        content_type ← ok_or (for_part types name) "VSIX part /{name} has no content type in [Content_Types].xml";
        bs ← read_to_end file;
        manifest_references alg types files' (manifest ++ reference_text alg name content_type bs) (references + 1)
  end.
Definition object_body (manifest time_value : str) : str :=
  manifest ++ chars "<SignatureProperties><SignatureProperty Id=" ++ q (chars "idSignatureTime") ++ chars " Target="
  ++ q (chars "#SignatureIdValue") ++ chars "><SignatureTime xmlns=" ++ q OPC_DIGITAL_SIGNATURE_NS ++ chars "><Format>"
  ++ VSIX_SIGNATURE_TIME_FORMAT ++ chars "</Format><Value>" ++ c14n_text time_value ++ chars "</Value></SignatureTime>"
  ++ chars "</SignatureProperty></SignatureProperties></Object>".
Definition object_canonical (body : str) : str :=
  chars "<Object xmlns=" ++ q XMLDSIG_NS ++ chars " Id=" ++ q (chars "idPackageObject") ++ chars ">" ++ body.
Definition signed_info_body (alg : VsixHashAlgorithm) (object : str) : str :=
  chars "<CanonicalizationMethod Algorithm=" ++ q C14N_URI ++ chars "></CanonicalizationMethod><SignatureMethod Algorithm="
  ++ q (signature_uri alg) ++ chars "></SignatureMethod><Reference Type=" ++ q XMLDSIG_OBJECT_TYPE ++ chars " URI="
  ++ q (chars "#idPackageObject") ++ chars ">" ++ digest_elements alg (vsix_hash alg (encode_utf8 object)) ++ chars "</Reference></SignedInfo>".
Definition template_from_prepared (archive : ZipArchive) (alg : VsixHashAlgorithm) (time_value : str) : outcome VsixSignatureTemplate :=
  file ← with_context (by_name archive CONTENT_TYPES_PART) "prepared VSIX has no [Content_Types].xml";
  content_types_xml ← read_to_end file;
  types ← content_types_parse content_types_xml;
  '(manifest, references) ← manifest_references alg types (by_index archive) (chars "<Manifest>") 0;
  bail_if (references =? 0) "VSIX package has no parts to sign";;
  let body := object_body (manifest ++ chars "</Manifest>") time_value in
  let info := signed_info_body alg (object_canonical body) in
  Ok (mk_template (encode_utf8 (chars "<SignedInfo xmlns=" ++ q XMLDSIG_NS ++ chars ">" ++ info))
        (document_form (chars "<SignedInfo>" ++ info))
        (document_form (chars "<Object Id=" ++ q (chars "idPackageObject") ++ chars ">" ++ body)) references).
(** [now] is the current time in UTC with its milliseconds. *)
Definition signature_template (now : DateTime * Z) (package : bytes) (alg : VsixHashAlgorithm) (signing_time : VsixSigningTime) :
    outcome VsixSignatureTemplate :=
  prepared ← write_signed_package package None true;
  archive ← with_context (zip_archive_new prepared) "open prepared VSIX ZIP";
  let time_value := match signing_time with
                    | Now => signature_time_value (fst now) (snd now)
                    | FromPackage => package_signature_time_value archive
                    end in
  template_from_prepared archive alg time_value.
Definition signature_reference_xml (now : DateTime * Z) (package : bytes) (alg : VsixHashAlgorithm) : outcome bytes :=
  t ← signature_template now package alg FromPackage; Ok (encode_utf8 (signature_xml t [] None)).
Definition signed_info_xml (now : DateTime * Z) (package : bytes) (alg : VsixHashAlgorithm) : outcome bytes :=
  t ← signature_template now package alg FromPackage; Ok (signed_info t).
Definition add_signature_timestamp (signature_xml token_der : bytes) : outcome bytes :=
  text ← ok_or (from_utf8 signature_xml) "VSIX signature XML is not UTF-8";
  bail_if (contains text (chars "<EncodedTime>")) "VSIX signature XML is already timestamped";;
  end_ ← ok_or (rfind text (chars "</Signature>")) "VSIX signature XML is missing </Signature>";
  let stamp := chars "<Object><TimeStamp Id=" ++ q (chars "idSignatureTimestamp") ++ chars " xmlns=" ++ q OPC_DIGITAL_SIGNATURE_NS
               ++ chars "><Comment>Timestamp got from the time stamp server</Comment><EncodedTime>" ++ b64_encode token_der
               ++ chars "</EncodedTime></TimeStamp></Object>" in
  Ok (encode_utf8 (sub text 0 end_ ++ stamp ++ from text end_)).
Definition verify_signature_reference_xml (package signature_xml : bytes) (alg : VsixHashAlgorithm) : outcome Z :=
  text ← ok_or (from_utf8 signature_xml) "VSIX signature XML is not UTF-8";
  time_start ← ok_or (find text (chars "<SignatureTime")) "VSIX signature XML has no SignatureTime";
  time_value ← ok_or (element_text (from text time_start) (chars "Value")) "VSIX signature XML SignatureTime has no Value";
  prepared ← write_signed_package package None true;
  archive ← with_context (zip_archive_new prepared) "open prepared VSIX ZIP";
  template ← template_from_prepared archive alg time_value;
  bail_if (negb (contains text (object_in_document template)))
    "VSIX signature manifest digest mismatch: package parts differ from the signed manifest";;
  bail_if (negb (contains text (signed_info_in_document template))) "VSIX SignedInfo digest mismatch";;
  Ok (references template).
Definition signed_info_xml_from_signature_xml (signature_xml : bytes) : outcome bytes :=
  text ← ok_or (from_utf8 signature_xml) "VSIX signature XML is not UTF-8";
  start ← ok_or (find text (chars "<SignedInfo>")) "VSIX signature XML is missing SignedInfo";
  offset ← ok_or (find (from text start) (chars "</SignedInfo>")) "VSIX signature XML SignedInfo element is not closed";
  Ok (encode_utf8 (sub text start (start + offset + len (chars "</SignedInfo>")))).
Definition signature_value_from_signature_xml (signature_xml : bytes) : outcome bytes :=
  text ← ok_or (from_utf8 signature_xml) "VSIX signature XML is not UTF-8";
  value ← ok_or (element_text text (chars "SignatureValue")) "VSIX signature XML is missing SignatureValue";
  signature ← ok_or (b64_decode value) "VSIX SignatureValue is not valid base64";
  bail_if (bool_decide (signature = [])) "VSIX SignatureValue is empty";;
  Ok signature.
Definition signer_certificate_from_signature_xml (signature_xml : bytes) : outcome bytes :=
  text ← ok_or (from_utf8 signature_xml) "VSIX signature XML is not UTF-8";
  value ← ok_or (element_text text (chars "X509Certificate")) "VSIX signature XML is missing X509Certificate";
  cert ← ok_or (b64_decode value) "VSIX X509Certificate is not valid base64";
  bail_if (bool_decide (cert = [])) "VSIX X509Certificate is empty";;
  Ok cert.
(** [sign_vsix] of the portable core; the key and the time stamp server are
    arguments. *)
Definition sign_vsix {Provider} (now : DateTime * Z) (load_signing_provider : outcome Provider)
    (sign_xml_signed_info : Provider → VsixHashAlgorithm → bytes → outcome (bytes * bytes))
    (request_rfc3161_token : option (bytes → outcome bytes)) (timestamp_hash_algorithm : bool) (read : outcome bytes)
    (alg : VsixHashAlgorithm) : outcome bytes :=
  data ← with_context read "read {}";
  provider ← load_signing_provider;
  template ← with_context (signature_template now data alg Now) "create VSIX signature for {}";
  '(signature, cert_der) ← sign_xml_signed_info provider alg (signed_info template);
  let xml := encode_utf8 (signature_xml template signature (Some cert_der)) in
  xml ← match request_rfc3161_token with
        | Some request =>
            signature_value ← signature_value_from_signature_xml xml;
            token ← with_context (request signature_value) "timestamp {}";
            add_signature_timestamp xml token
        | None => bail_if timestamp_hash_algorithm "timestamp_hash_algorithm requires timestamp_server";; Ok xml
        end;
  with_context (embed_signature_xml data xml false) "embed VSIX signature XML into {}".

(** ** Signatures of earlier releases *)

Fixpoint legacy_references (alg : VsixHashAlgorithm) (files : list (outcome ZipFile)) (refs : bmap bytes) : outcome (bmap bytes) :=
  match files with
  | [] => Ok refs
  | r :: files' =>
      file ← with_context r "read VSIX ZIP entry";
      name ← normalize_zip_part_name (zf_name file);
      if is_directory_name (zf_name file) || bool_decide (name = CONTENT_TYPES_PART) || bool_decide (name = ROOT_RELATIONSHIPS_PART)
         || is_opc_signature_entry name
      then legacy_references alg files' refs
      else bs ← read_to_end file; legacy_references alg files' (bmap_insert name (vsix_hash alg bs) refs)
  end.
Definition legacy_reference_digests (package : bytes) (alg : VsixHashAlgorithm) : outcome (bmap bytes) :=
  archive ← with_context (zip_archive_new package) "open VSIX ZIP";
  legacy_references alg (by_index archive) [].
(** One reference at the start of the text, and what is left after it *)
Definition legacy_reference (alg : VsixHashAlgorithm) (rest : str) (refs : bmap bytes) : outcome (bmap bytes * str) :=
  tag_end ← ok_or (find rest [62]) "VSIX signature XML Reference tag is not closed";
  offset ← ok_or (find (from rest tag_end) (chars "</Reference>")) "VSIX signature XML Reference element is not closed";
  let close_start := tag_end + offset in
  let tag := sub rest 0 (tag_end + 1) in
  let body := sub rest (tag_end + 1) close_start in
  uri ← ok_or (xml_attr tag (chars "URI")) "VSIX signature XML Reference is missing URI";
  name ← ok_or (strip_prefix [47] uri) "VSIX signature XML Reference URI must be package-absolute";
  name ← normalize_zip_part_name name;
  bail_if (negb (contains body (chars "<DigestMethod Algorithm=" ++ q (digest_uri alg) ++ chars "/>")))
    "VSIX signature XML Reference for {name} does not use expected digest algorithm";;
  digest_value ← ok_or (element_text body (chars "DigestValue")) "VSIX signature XML Reference for {name} is missing DigestValue";
  digest ← ok_or (b64_decode digest_value) "VSIX signature XML DigestValue is not valid base64";
  bail_if (bool_decide (is_Some (bmap_get refs name))) "duplicate VSIX signature XML Reference for {name}";;
  Ok (bmap_insert name digest refs, from rest (close_start + len (chars "</Reference>"))).
Fixpoint parse_references_fuel (fuel : nat) (alg : VsixHashAlgorithm) (rest : str) (refs : bmap bytes) : option (outcome (bmap bytes)) :=
  match fuel with
  | O => None
  | S fuel' =>
      match find rest (chars "<Reference ") with
      | None => Some (Ok refs)
      | Some start => then_ (Some (legacy_reference alg (from rest start) refs)) (λ '(refs, rest), parse_references_fuel fuel' alg rest refs)
      end
  end.
Definition parse_legacy_reference_digests (signature_xml : bytes) (alg : VsixHashAlgorithm) : outcome (bmap bytes) :=
  text ← ok_or (from_utf8 signature_xml) "VSIX signature XML is not UTF-8";
  default Panic (parse_references_fuel (S (length text)) alg text []).
Fixpoint same_references (expected actual : bmap bytes) : outcome unit :=
  match expected with
  | [] => Ok tt
  | (name, digest) :: expected' =>
      match bmap_get actual name with
      | Some actual_digest => bail_if (negb (bool_decide (actual_digest = digest))) "VSIX signature reference digest mismatch for {name}"
      | None => Err "VSIX signature reference missing for {name}"
      end;;
      same_references expected' actual
  end.
Definition verify_legacy_signature_reference_xml (package signature_xml : bytes) (alg : VsixHashAlgorithm) : outcome Z :=
  expected ← legacy_reference_digests package alg;
  actual ← parse_legacy_reference_digests signature_xml alg;
  bail_if (negb (len actual =? len expected)) "VSIX signature reference count mismatch: expected {}, found {}";;
  same_references expected actual;;
  Ok (len expected).
End Signature.
