(* ===== verification/VsixTotal.v ===== *)
(** The loops of the VSIX code end: the fuel their models are given is always
    enough, and the identifier of a relationship that is added is new. *)

From S2P Require Import Prelude.
From S2P Require Import RustStr.
From S2P Require Import Find.
From S2P Require Import Base64.
From S2P Require Import PeDigest.
From S2P Require Import AppxTypes.
From S2P Require Import CodeXml.
From S2P Require Import BTree.
From S2P Require Import NuGet.
From S2P Require Import Vsix.

Lemma from_length s k : (length (from s k) <= length s)%nat.
Proof. unfold from, sub. rewrite length_take, length_drop. lia. Qed.
Lemma from_shorter s k : 0 < k <= len s → (length (from s k) < length s)%nat.
Proof. intros Hk. unfold from, sub. rewrite length_take, length_drop. unfold len in *. lia. Qed.
Lemma after_found s needle k n : find s needle = Some k → 0 < n <= len needle → (length (from s (k + n)) < length s)%nat.
Proof. intros [Ho _]%find_Some Hn. apply occurs_range in Ho. apply from_shorter. lia. Qed.
(** Reading the content types ends. *)
Lemma parse_types_ends fuel tag key_attr rest map : (length rest < fuel)%nat → is_Some (parse_types_fuel fuel tag key_attr rest map).
Proof.
  revert rest map. induction fuel as [|fuel IH]; intros rest map Hf; [lia|]. cbn [parse_types_fuel].
  destruct (find rest tag) as [start|]; [|by eexists]. destruct (find (from rest start) [62]) as [e|] eqn:He; [|by eexists].
  apply IH. pose proof (after_found (from rest start) [62] e 1 He). pose proof (from_length rest start). change (len [62]) with 1 in *. lia.
Qed.
Section Legacy.
Context `{Base64}.
(** Reading the references of an earlier release ends. *)
Lemma legacy_reference_rest alg rest refs refs' rest' : legacy_reference alg rest refs = Ok (refs', rest') → (length rest' < length rest)%nat.
Proof.
  unfold legacy_reference. intros Hr. apply bind_Ok in Hr as (tag_end & Ht%ok_or_Ok & Hr). apply bind_Ok in Hr as (offset & Ho%ok_or_Ok & Hr).
  cbn zeta in Hr. inv_ok Hr. apply find_Some in Ht as [Ht _], Ho as [Ho _]. apply occurs_range in Ht, Ho.
  change (len [62]) with 1 in Ht. change (len (chars "</Reference>")) with 12 in *. apply from_shorter.
  pose proof (from_length rest tag_end). unfold from in Ho. rewrite len_sub in Ho by lia. lia.
Qed.
Lemma parse_references_ends fuel alg rest refs : (length rest < fuel)%nat → is_Some (parse_references_fuel fuel alg rest refs).
Proof.
  revert rest refs. induction fuel as [|fuel IH]; intros rest refs Hf; [lia|]. cbn [parse_references_fuel].
  destruct (find rest (chars "<Reference ")) as [start|]; [|by eexists].
  destruct (legacy_reference alg (from rest start) refs) as [[refs' rest']| |] eqn:E; cbn; [|by eexists..].
  apply IH. apply legacy_reference_rest in E. pose proof (from_length rest start). lia.
Qed.
End Legacy.

(** ** Fresh identifiers *)

Lemma decimal_inj n m : 0 <= n < 10 ^ 20 → 0 <= m < 10 ^ 20 → decimal 20 n = decimal 20 m → n = m.
Proof.
  intros Hn Hm Hd. pose proof (parse_digits_decimal (10 ^ 20) 20 n Hn ltac:(lia)) as H1. rewrite Hd in H1.
  rewrite (parse_digits_decimal (10 ^ 20) 20 m Hm ltac:(lia)) in H1. congruence.
Qed.
Lemma decimal_ascii fuel n c : 0 <= n → c ∈ decimal fuel n → is_ascii_digit c = true.
Proof.
  revert n. induction fuel as [|fuel IH]; intros n Hn; cbn [decimal]; [by intros ?%not_elem_of_nil|].
  destruct (Z.ltb_spec n 10); [intros ->%list_elem_of_singleton; apply is_ascii_digit_of; lia|].
  intros [Hc| ->%list_elem_of_singleton]%elem_of_app; [by apply (IH (n / 10)); [lia|]|apply is_ascii_digit_of; lia].
Qed.
(** Where an identifier occurs tells which one it is. *)
Lemma id_occurs_once text pref n m k : 0 <= n < 10 ^ 20 → 0 <= m < 10 ^ 20 →
  occurs text (chars "Id=" ++ q (pref ++ decimal 20 n)) k → occurs text (chars "Id=" ++ q (pref ++ decimal 20 m)) k → n = m.
Proof.
  intros Hn Hm (a & c & -> & Ha) (a' & c' & He & Ha'). apply decimal_inj; [done..|].
  apply app_inj_1 in He as [-> He]; [|unfold len in *; lia]. unfold q in He. rewrite <-!app_assoc in He. do 3 apply app_inv_head in He.
  cbn [app] in He. 
  assert (∀ j, 0 <= j → 34 ∉ decimal 20 j) as Hq by (intros j Hj Hin%decimal_ascii; done).
  pose proof (split_once_app 34 (decimal 20 n) c ltac:(apply Hq; lia)) as H1. rewrite He in H1.
  rewrite split_once_app in H1 by (apply Hq; lia). congruence.
Qed.
Definition id_attr (pref : str) (i : Z) : str := chars "Id=" ++ q (pref ++ decimal 20 i).
Lemma unique_id_Some fuel text pref i id : unique_id_from fuel text pref i = Some id → contains text (chars "Id=" ++ q id) = false.
Proof.
  revert i. induction fuel as [|fuel IH]; intros i; cbn [unique_id_from]; [done|]. intros Hu.
  destruct (contains text (chars "Id=" ++ q (pref ++ decimal 20 i))) eqn:E; cbn [negb] in Hu; [by eapply IH|]. by injection Hu as <-.
Qed.
Lemma unique_id_None fuel text pref i : unique_id_from fuel text pref i = None →
  ∀ j, i <= j < i + Z.of_nat fuel → is_Some (find text (id_attr pref j)).
Proof.
  revert i. induction fuel as [|fuel IH]; intros i; cbn [unique_id_from]; [intros _ j ?; lia|]. destruct (contains _ _) eqn:E; cbn [negb]; [|done].
  intros Hn j Hj. destruct (decide (j = i)) as [->|]; [by apply bool_decide_eq_true in E|]. apply (IH (i + 1)); [done|lia].
Qed.
Lemma not_all_identifiers text pref i : 0 <= i → i + len text < 10 ^ 20 - 1 →
  ¬ ∀ j, i <= j < i + Z.of_nat (S (length text)) → is_Some (find text (id_attr pref j)).
Proof.
  intros Hi Hb Hall. set (js := seqZ i (Z.of_nat (S (length text)))). set (at_ := λ j, default 0 (find text (id_attr pref j))).
  assert (Hat : ∀ j, j ∈ js → occurs text (id_attr pref j) (at_ j)).
  { intros j Hj%elem_of_seqZ. destruct (Hall j Hj) as [k Hk]. unfold at_. rewrite Hk. by apply find_Some in Hk as [Hk _]. }
  assert (Hrange : ∀ j, j ∈ js → 0 <= j < 10 ^ 20). { intros j Hj%elem_of_seqZ. unfold len in Hb. lia. }
  assert (NoDup (at_ <$> js)) as Hnd.
  { apply NoDup_fmap_2_strong; [|apply NoDup_seqZ]. intros j j' Hj Hj' He. eapply (id_occurs_once text pref); [by apply Hrange..|by apply Hat|].
    rewrite He. by apply Hat. }
  assert (at_ <$> js ⊆+ seqZ 0 (len text)) as Hsub.
  { apply NoDup_submseteq; [done|]. intros k (j & -> & Hj)%list_elem_of_fmap. apply elem_of_seqZ. pose proof (occurs_range _ _ _ (Hat j Hj)) as Ho.
    assert (0 < len (id_attr pref j)); [|lia]. unfold id_attr. rewrite len_app. change (len (chars "Id=")) with 3.
    pose proof (len_nonneg (q (pref ++ decimal 20 j))). lia. }
  apply submseteq_length in Hsub. rewrite length_fmap in Hsub. unfold js in Hsub. rewrite !length_seqZ in Hsub. unfold len in Hsub. lia.
Qed.

(** The search for the identifier of a relationship that is added ends with
    one the relationships part does not use yet, for any part a file can be. *)
Theorem unique_relationship_id_fresh text preferred_id : len text < U64 →
  ∃ id, unique_relationship_id text preferred_id = Some id ∧ contains text (chars "Id=" ++ q id) = false.
Proof.
  intros Hl. unfold unique_relationship_id. destruct (contains text (chars "Id=" ++ q preferred_id)) eqn:E; cbn [negb]; [|by exists preferred_id].
  destruct (unique_id_from _ text preferred_id 2) as [id|] eqn:Hu; [exists id; split; [done|by eapply unique_id_Some]|].
  exfalso. apply (not_all_identifiers text preferred_id 2); [lia| |by apply unique_id_None]. unfold U64 in Hl. lia.
Qed.
