(* ===== verification/VsixEmbed.v ===== *)
(** A VSIX package with its signature: the part that was embedded is the one
    that is extracted, and the other parts are those of the package before. *)

From S2P Require Import Prelude.
From S2P Require Import RustStr.
From S2P Require Import Find.
From S2P Require Import Base64.
From S2P Require Import AppxParts.
From S2P Require Import AppxDigest.
From S2P Require Import AppxZip.
From S2P Require Import ZipWrite.
From S2P Require Import ZipStored.
From S2P Require Import NuGet.
From S2P Require Import CodeXml.
From S2P Require Import Vsix.

Lemma Forall2_elem_r {A B} (P : A → B → Prop) l k y : Forall2 P l k → y ∈ k → ∃ x, x ∈ l ∧ P x y.
Proof.
  induction 1 as [|x z l k Hp _ IH]; [by intros ?%not_elem_of_nil|]. intros [->|Hy]%elem_of_cons; [exists x; split; [by left|done]|].
  destruct (IH Hy) as (x' & ? & ?). exists x'. split; [by right|done].
Qed.
Section Embed.
Context `{ZipLaws}.
(** What the entry of a file that is not of the signature is written as *)
Definition kept_entry (file : ZipFile) (e : WrittenEntry) : Prop :=
  normalize_zip_part_name (zf_name file) = Ok (zf_name file) ∧ is_opc_signature_entry (zf_name file) = false ∧
  w_name e = zf_name file ∧ w_dir e = is_directory_name (zf_name file) ∧
  if w_dir e then w_data e = [] else ∃ bs, read_to_end file = Ok bs ∧ prepared_bytes (zf_name file) bs = Ok (w_data e).
Fixpoint kept (files : list (outcome ZipFile)) (es : list WrittenEntry) : Prop :=
  match files with
  | [] => es = []
  | r :: files' =>
      ∃ file, r = Ok file ∧
      if is_opc_signature_entry (zf_name file) then kept files' es
      else match es with e :: es' => kept_entry file e ∧ kept files' es' | [] => False end
  end.
Lemma normalize_same name n : normalize_zip_part_name name = Ok n → n = name.
Proof. unfold normalize_zip_part_name. intros Hn. inv_ok Hn. done. Qed.
Lemma copy_entries_kept overwrite files s s' : copy_entries overwrite files s = Ok s' →
  ∃ es, kept files es ∧ put_all (ws_output s) es = Ok (ws_output s') ∧ (len es <= len files) ∧
    (ws_had_signature s' = ws_had_signature s ∨ overwrite = true).
Proof.
  revert s. induction files as [|r files IH]; intros s; cbn [copy_entries kept].
  - intros [= <-]. exists []. split_and!; [done|done|apply Z.le_refl|by left].
  - intros (file & Hf%with_context_Ok & (name & Hn & Hc)%bind_Ok)%bind_Ok. pose proof (normalize_same _ _ Hn) as ->. subst r.
    destruct (is_opc_signature_entry (zf_name file)) eqn:Hsig.
    + destruct overwrite; [|done]. apply IH in Hc as (es & Hk & Hp & Hl & Hh). exists es. split_and!; [by exists file; rewrite Hsig|done| |by right].
      rewrite len_cons. lia.
    + apply bind_Ok in Hc as (s1 & Hs1 & Hc). apply IH in Hc as (es & Hk & Hp & Hl & Hh).
      destruct (is_directory_name (zf_name file)) eqn:Hdir.
      * apply bind_Ok in Hs1 as (w & Hw & [= <-]). exists (mk_written (zf_name file) true (vsix_options (zf_compression file)) [] :: es).
        split_and!; [|cbn; unfold put; cbn; by rewrite Hw|rewrite !len_cons; lia|done].
        exists file. rewrite Hsig. split; [done|]. split; [|done]. unfold kept_entry. cbn. by rewrite Hdir.
      * apply bind_Ok in Hs1 as (bs & Hbs & (bs' & Hbs' & (w & Hw & [= <-])%bind_Ok)%bind_Ok).
        exists (mk_written (zf_name file) false (vsix_options (zf_compression file)) bs' :: es).
        split_and!; [|cbn; unfold put; cbn; by rewrite Hw|rewrite !len_cons; lia|done].
        exists file. rewrite Hsig. split; [done|]. split; [|done]. unfold kept_entry. cbn. rewrite Hdir. split_and!; [done..|]. by exists bs.
Qed.
Lemma kept_elem files es e : kept files es → e ∈ es → ∃ file, Ok file ∈ files ∧ kept_entry file e.
Proof.
  revert es. induction files as [|r files IH]; intros es; cbn [kept]; [by intros -> ?%not_elem_of_nil|].
  intros (file & -> & Hk). destruct (is_opc_signature_entry (zf_name file)).
  - intros He. destruct (IH _ Hk He) as (f & Hf & ?). exists f. split; [by right|done].
  - destruct es as [|e' es]; [done|]. destruct Hk as [Hk Hks]. intros [->|He]%elem_of_cons; [exists file; split; [by left|done]|].
    destruct (IH _ Hks He) as (f & Hf & ?). exists f. split; [by right|done].
Qed.
Lemma kept_file files es file : kept files es → Ok file ∈ files → is_opc_signature_entry (zf_name file) = false →
  ∃ e, e ∈ es ∧ kept_entry file e.
Proof.
  revert es. induction files as [|r files IH]; intros es; cbn [kept]; [by intros _ ?%not_elem_of_nil|].
  intros (f & -> & Hk) [[= ->]|Hf]%elem_of_cons Hs.
  - rewrite Hs in Hk. destruct es as [|e es]; [done|]. exists e. split; [by left|apply Hk].
  - destruct (is_opc_signature_entry (zf_name f)); [by apply IH|]. destruct es as [|e es]; [done|]. destruct Hk as [_ Hk].
    destruct (IH _ Hk Hf Hs) as (e' & He & ?). exists e'. split; [by right|done].
Qed.
(** The entries of the infrastructure *)
Definition file_entry (name : str) (bs : bytes) : WrittenEntry := mk_written name false (vsix_options Stored) bs.
Definition infrastructure (types root : bool) (signature_xml : bytes) : list WrittenEntry :=
  (if types then [] else [file_entry CONTENT_TYPES_PART (default [] (ok_opt (ensure_signature_content_types [])))])
  ++ (if root then [] else [file_entry ROOT_RELATIONSHIPS_PART (default [] (ok_opt (ensure_root_signature_origin_relationship [])))])
  ++ [file_entry OPC_SIGNATURE_ORIGIN_PART []; file_entry OPC_SIGNATURE_ORIGIN_RELS_PART signature_origin_relationships_xml;
      file_entry DEFAULT_VSIX_SIGNATURE_PART signature_xml].
Lemma default_types : ensure_signature_content_types [] = Ok (default [] (ok_opt (ensure_signature_content_types []))).
Proof. by vm_compute. Qed.
Lemma default_relationships : ensure_root_signature_origin_relationship [] = Ok (default [] (ok_opt (ensure_root_signature_origin_relationship []))).
Proof. by vm_compute. Qed.
Lemma write_infrastructure_put s xml : write_infrastructure s (Some xml) = put_all (ws_output s) (infrastructure (ws_types s) (ws_root s) xml).
Proof.
  unfold write_infrastructure, infrastructure. rewrite default_types, default_relationships. cbn [ok_opt default].
  generalize (default [] (ok_opt (ensure_signature_content_types []))) (default [] (ok_opt (ensure_root_signature_origin_relationship []))).
  intros b1 b2. rewrite !put_all_app. cbn [id].
  assert (Hone : ∀ w name b, put_all w [file_entry name b] = (w ← start_file w name (vsix_options Stored); write_all w b)).
  { intros w name b. cbn. unfold put, write_file. cbn. by destruct (start_file w name _) as [w'| |]; cbn; [destruct (write_all w' b)|..]. }
  destruct (ws_types s); cbn [negb]; rewrite ?Hone; [cbn [put_all mbind outcome_bind]|].
  all: try (destruct (start_file _ CONTENT_TYPES_PART _) as [w1| |]; [|done..]; cbn [mbind outcome_bind];
    destruct (write_all w1 b1) as [w2| |]; [|done..]; cbn [mbind outcome_bind]).
  all: rewrite put_all_app; destruct (ws_root s); cbn [negb]; rewrite ?Hone; [cbn [put_all mbind outcome_bind]|].
  all: try (destruct (start_file _ ROOT_RELATIONSHIPS_PART _) as [w3| |]; [|done..]; cbn [mbind outcome_bind];
    destruct (write_all w3 b2) as [w4| |]; [|done..]; cbn [mbind outcome_bind]).
  all: cbn [put_all]; unfold put; cbn [w_dir w_name w_options w_data file_entry].
  all: destruct (write_file _ OPC_SIGNATURE_ORIGIN_PART _ _) as [w5| |]; [|done..]; cbn [mbind outcome_bind].
  all: destruct (write_file _ OPC_SIGNATURE_ORIGIN_RELS_PART _ _) as [w6| |]; [|done..]; cbn [mbind outcome_bind].
  all: by destruct (write_file _ DEFAULT_VSIX_SIGNATURE_PART _ _).
Qed.
(** The entries of a package with its signature embedded *)
Lemma embedded_entries package a xml overwrite out : zip_archive_new package = Ok a → embed_signature_xml package xml overwrite = Ok out →
  ∃ es types root, xml ≠ [] ∧ kept (by_index a) es ∧ write_zip (es ++ infrastructure types root xml) = Ok out ∧ (len es <= len (by_index a)).
Proof.
  intros Ha He. unfold embed_signature_xml in He. apply bail_bind_Ok in He as [Hx%bool_decide_eq_false He]. unfold write_signed_package in He.
  rewrite Ha in He. cbn [with_context mbind outcome_bind] in He. apply bind_Ok in He as (s & Hs & (w & Hw & Hf)%bind_Ok).
  apply copy_entries_kept in Hs as (es & Hk & Hp & Hl & Hh). replace (negb (ws_had_signature s) || overwrite) with true in Hw by by destruct Hh as [->| ->]; [|destruct (negb _)].
  rewrite write_infrastructure_put in Hw. exists es, (ws_types s), (ws_root s). split_and!; [done..| |done].
  unfold write_zip. rewrite put_all_app. cbn in Hp. rewrite Hp. cbn [mbind outcome_bind]. by rewrite Hw.
Qed.
Lemma kept_writable files es : kept files es → Forall writable es.
Proof.
  intros Hk. apply Forall_forall. intros e He. destruct (kept_elem _ _ _ Hk He) as (file & _ & _ & _ & Hn & Hd & Hdata). unfold writable.
  intros Hdir. rewrite Hdir in Hdata. by rewrite Hn, <-Hd.
Qed.
Lemma infrastructure_writable types root xml : Forall writable (infrastructure types root xml).
Proof. destruct types, root; repeat constructor; done. Qed.
Lemma same_records recs : Forall2 same_record recs recs.
Proof. induction recs; constructor; [by split|done]. Qed.
(** A part that is not a signature *)
Definition not_signature (e : WrittenEntry) : Prop :=
  normalize_zip_part_name (w_name e) = Ok (w_name e) ∧ starts_with (w_name e) OPC_SIGNATURES_PREFIX = false.
Lemma signature_entry_prefix name : is_opc_signature_entry name = false → starts_with name OPC_SIGNATURES_PREFIX = false.
Proof. unfold is_opc_signature_entry. by intros [_ ->]%orb_false_iff. Qed.
Lemma kept_not_signature files es : kept files es → Forall not_signature es.
Proof.
  intros Hk. apply Forall_forall. intros e He. destruct (kept_elem _ _ _ Hk He) as (file & _ & Hn & Hs & Hname & _).
  unfold not_signature. rewrite Hname. split; [done|by apply signature_entry_prefix].
Qed.
Definition before_signature (types root : bool) : list WrittenEntry :=
  (if types then [] else [file_entry CONTENT_TYPES_PART (default [] (ok_opt (ensure_signature_content_types [])))])
  ++ (if root then [] else [file_entry ROOT_RELATIONSHIPS_PART (default [] (ok_opt (ensure_root_signature_origin_relationship [])))])
  ++ [file_entry OPC_SIGNATURE_ORIGIN_PART []; file_entry OPC_SIGNATURE_ORIGIN_RELS_PART signature_origin_relationships_xml].
Lemma infrastructure_last types root xml : infrastructure types root xml = before_signature types root ++ [file_entry DEFAULT_VSIX_SIGNATURE_PART xml].
Proof. unfold infrastructure, before_signature. by rewrite <-!app_assoc. Qed.
Lemma before_not_signature types root : Forall not_signature (before_signature types root).
Proof.
  unfold before_signature. repeat apply Forall_app_2; [destruct types|destruct root|].
  all: repeat constructor; by vm_compute.
Qed.
Lemma skip_parts files es rest part : Forall2 (λ r e, ∃ file, r = Ok file ∧ rereads local central file e) files es → Forall not_signature es →
  find_signature_part (files ++ rest) part = find_signature_part rest part.
Proof.
  induction 1 as [|r e files es (file & -> & Hn & _) _ IH]; [done|]. intros [[Hz Hs] Hes]%Forall_cons. cbn [app find_signature_part with_context mbind outcome_bind].
  rewrite Hn, Hz. cbn [mbind outcome_bind]. rewrite Hs, andb_false_r. by apply IH.
Qed.

Lemma extract_last es a out xml : zip_archive_new out = Ok a → xml ≠ [] → Forall not_signature es →
  reads_back local central a (es ++ [file_entry DEFAULT_VSIX_SIGNATURE_PART xml]) → extract_signature_xml out = Ok xml.
Proof.
  intros Ha Hx Hnot [Hback Hby]. unfold extract_signature_xml. rewrite Ha. cbn [with_context mbind outcome_bind].
  apply Forall2_app_inv_r in Hback as (files & last & Hf & Hlast & ->). rewrite (skip_parts _ es) by done.
  apply list.Forall2_cons_inv_r in Hlast as (r & last' & (file & -> & Hn & _) & Hlast & ->). apply list.Forall2_nil_inv_r in Hlast as ->.
  cbn [find_signature_part with_context mbind outcome_bind]. rewrite Hn. cbn [w_name file_entry].
  change (normalize_zip_part_name DEFAULT_VSIX_SIGNATURE_PART) with (Ok DEFAULT_VSIX_SIGNATURE_PART). cbn [mbind outcome_bind].
  change (negb (is_directory_name DEFAULT_VSIX_SIGNATURE_PART) && starts_with DEFAULT_VSIX_SIGNATURE_PART OPC_SIGNATURES_PREFIX) with true.
  cbn [ok_or mbind outcome_bind].
  destruct (Hby (file_entry DEFAULT_VSIX_SIGNATURE_PART xml)) as (f & Hf' & _ & Hr & _); [apply elem_of_app; right; by left| |].
  - intros e [He|He%list_elem_of_singleton]%elem_of_app Hname; [|done]. cbn in Hname. apply (proj1 (Forall_forall _ _) Hnot) in He as [_ Hs].
    by rewrite Hname in Hs.
  - cbn [w_name file_entry] in Hf'. rewrite Hf'. cbn [with_context mbind outcome_bind]. rewrite Hr by done. cbn [with_context mbind outcome_bind w_data].
    by rewrite bool_decide_false.
Qed.

(** C32: Embedding a signature in a VSIX package and extracting it gives the
    signature back, whether or not another one was replaced, and keeps the
    other parts: every file of the package that is not of its signature is a
    file of the signed package with its bytes, those of the content types and
    the root relationships with the rows the signature needs.  The signed
    package has less than 80 MiB and 19279 entries. *)
Theorem vsix_embed_extract package a xml overwrite out : zip_archive_new package = Ok a → embed_signature_xml package xml overwrite = Ok out →
  small_zip (len (by_index a) + 5) (len out) →
  extract_signature_xml out = Ok xml ∧
  ∃ a', zip_archive_new out = Ok a' ∧
    ∀ file, Ok file ∈ by_index a → is_opc_signature_entry (zf_name file) = false → is_directory_name (zf_name file) = false →
      ∃ file' bs bs', Ok file' ∈ by_index a' ∧ zf_name file' = zf_name file ∧ read_to_end file = Ok bs ∧
        prepared_bytes (zf_name file) bs = Ok bs' ∧ read_to_end file' = Ok bs'.
Proof.
  intros Ha He Hsm. destruct (embedded_entries _ _ _ _ _ Ha He) as (es & types & root & Hx & Hk & Hz & Hl).
  assert (Hwr : Forall writable (es ++ infrastructure types root xml)) by (apply Forall_app_2; [by eapply kept_writable|apply infrastructure_writable]).
  assert (Hsm' : small_zip (len (es ++ infrastructure types root xml)) (len out)).
  { destruct Hsm as [Hn Hb]. split; [|done]. rewrite len_app. assert (len (infrastructure types root xml) <= 5); [|lia]. by destruct types, root. }
  destruct (write_lays_out _ _ Hz Hwr Hsm') as (Hout & _ & _).
  destruct (write_reads_back _ _ _ Hz Hwr Hsm' (same_records _)) as (a' & Ha' & Hback). rewrite <-Hout in Ha'. split.
  - apply (extract_last (es ++ before_signature types root) a'); [done|done| |].
    + apply Forall_app_2; [by eapply kept_not_signature|apply before_not_signature].
    + by rewrite <-app_assoc, <-infrastructure_last.
  - exists a'. split; [done|]. intros file Hin Hs Hd. destruct (kept_file _ _ _ Hk Hin Hs) as (e & Hel & _ & _ & Hn & Hdir & Hdata).
    rewrite Hd in Hdir. rewrite Hdir in Hdata. destruct Hdata as (bs & Hbs & Hp).
    destruct (Forall2_elem_r _ _ _ e (proj1 Hback)) as (r & Hr & f & -> & Hf & Hread & _); [apply elem_of_app; by left|].
    exists f, bs, (w_data e). split_and!; [done|by rewrite Hf|done..|]. by apply Hread.
Qed.
End Embed.

(** A package whose content types and relationships are completed *)
Definition toy_options : FileOptions := mk_options Stored (mk_datetime 1980 1 1 0 0 0).
Definition toy_types_xml : bytes :=
  encode_utf8 (chars "<Types xmlns=" ++ q (chars "http://schemas.openxmlformats.org/package/2006/content-types") ++ chars "><Default Extension=" ++ q (chars "txt") ++ chars " ContentType=" ++ q (chars "text/plain") ++ chars "/></Types>").
Definition toy_vsix : bytes :=
  default [] (ok_opt (write_zip [mk_written (chars "[Content_Types].xml") false toy_options toy_types_xml;
    mk_written (chars "_rels/.rels") false toy_options (lit "<Relationships/>"); mk_written (chars "doc/") true toy_options [];
    mk_written (chars "doc/a.txt") false toy_options (lit "hello")])).
Definition toy_input : ZipArchive := default (stored_archive []) (ok_opt (zip_archive_new toy_vsix)).
Definition toy_signed : bytes := default [] (ok_opt (embed_signature_xml toy_vsix (lit "<Signature/>") false)).
Lemma vsix_embed_extract_witness :
  extract_signature_xml toy_signed = Ok (lit "<Signature/>") ∧
  ∃ a', zip_archive_new toy_signed = Ok a' ∧
    ∀ file, Ok file ∈ by_index toy_input → is_opc_signature_entry (zf_name file) = false → is_directory_name (zf_name file) = false →
      ∃ file' bs bs', Ok file' ∈ by_index a' ∧ zf_name file' = zf_name file ∧ read_to_end file = Ok bs ∧
        prepared_bytes (zf_name file) bs = Ok bs' ∧ read_to_end file' = Ok bs'.
Proof.
  apply (vsix_embed_extract toy_vsix toy_input (lit "<Signature/>") false toy_signed).
  - by vm_compute.
  - by vm_compute.
  - split; by vm_compute.
Defined.
