(* ===== verification/VsixVerify.v ===== *)
(** Verification of VSIX signatures: [trust_verify_vsix.rs] of
    psign-authenticode-trust up to the decision on trust.  Keys and
    certificates are those of the class [X509Crates]. *)

From stdpp Require Import gmap.
From S2P Require Import Prelude.
From S2P Require Import RustStr.
From S2P Require Import Base64.
From S2P Require Import PeDigest.
From S2P Require Import AppxParts.
From S2P Require Import AppxTypes.
From S2P Require Import AppxDigest.
From S2P Require Import Online.
From S2P Require Import BTree.
From S2P Require Import C14n.

Definition DSIG : str := chars "http://www.w3.org/2000/09/xmldsig#".
Definition OPC_DSIG : str := chars "http://schemas.openxmlformats.org/package/2006/digital-signature".
Definition OPC_RELS : str := chars "http://schemas.openxmlformats.org/package/2006/relationships".
Definition OPC_CONTENT_TYPES : str := chars "http://schemas.openxmlformats.org/package/2006/content-types".
Definition RELATIONSHIP_TRANSFORM : str := chars "http://schemas.openxmlformats.org/package/2006/RelationshipTransform".
Definition SIGNATURE_PART_PREFIX : str := chars "package/services/digital-signature/xml-signature/".
Definition CONTENT_TYPES_PART : str := chars "[Content_Types].xml".

(** ** Algorithms *)

Inductive Hash := HashSha256 | HashSha384 | HashSha512.
Definition from_digest_uri (uri : str) : outcome Hash :=
  if bool_decide (uri = chars "http://www.w3.org/2001/04/xmlenc#sha256") then Ok HashSha256
  else if bool_decide (uri = chars "http://www.w3.org/2001/04/xmldsig-more#sha384") then Ok HashSha384
  else if bool_decide (uri = chars "http://www.w3.org/2001/04/xmlenc#sha512") then Ok HashSha512
  else Err "unsupported XMLDSig DigestMethod {other}".
Definition from_signature_uri (uri : str) : outcome Hash :=
  if bool_decide (uri = chars "http://www.w3.org/2001/04/xmldsig-more#rsa-sha256") then Ok HashSha256
  else if bool_decide (uri = chars "http://www.w3.org/2001/04/xmldsig-more#rsa-sha384") then Ok HashSha384
  else if bool_decide (uri = chars "http://www.w3.org/2001/04/xmldsig-more#rsa-sha512") then Ok HashSha512
  else Err "unsupported XMLDSig SignatureMethod {other}".
Definition hash_digest `{DigestOracle} (h : Hash) (data : bytes) : bytes :=
  digest (match h with HashSha256 => Sha256 | HashSha384 => Sha384 | HashSha512 => Sha512 end) data.
Definition rsa_hash (h : Hash) : RsaPkcs1v15Hash :=
  match h with HashSha256 => RsaSha256 | HashSha384 => RsaSha384 | HashSha512 => RsaSha512 end.
Definition verify_rsa `{X509Crates} (h : Hash) (cert : Certificate) (data signature : bytes) : outcome unit :=
  spki ← ok_or (spki_der cert) "encode SubjectPublicKeyInfo: {e}";
  key ← ok_or (rsa_public_key spki) "signer public key is not RSA: {e}";
  signature ← ok_or (rsa_signature signature) "SignatureValue octets: {e}";
  bail_if (negb (rsa_verify (rsa_hash h) key data signature)) "SignatureValue verification: {e}".
Definition decode_base64 `{Base64} (text : str) : outcome bytes :=
  ok_or (b64_decode (List.filter (λ c, negb (is_whitespace c)) text)) "{what} is not valid base64".
Definition algorithm (e : Element) (child_name : str) : outcome str :=
  ok_or (c ← child e DSIG child_name; attr c (chars "Algorithm")) "XMLDSig {} is missing {child}".

(** ** Part names *)

Definition hex_digit (c : char) : option Z :=
  if between 48 c 57 then Some (c - 48) else if between 97 c 102 then Some (c - 87) else if between 65 c 70 then Some (c - 55) else None.
(** [u8::from_str_radix(_, 16)] of two characters *)
Definition hex_pair (a b : byte) : option Z :=
  match from_utf8_lossy [a; b] with
  | [c; d] => if c =? 43 then hex_digit d else x ← hex_digit c; y ← hex_digit d; Some (16 * x + y)
  | _ => None
  end.
Fixpoint percent_decode (bs : bytes) : bytes :=
  match bs with
  | [] => []
  | b :: bs' =>
      match bs' with
      | h :: l :: rest =>
          match (if u8 b =? 37 then hex_pair h l else None) with
          | Some x => byte_of x :: percent_decode rest
          | None => b :: percent_decode bs'
          end
      | _ => b :: percent_decode bs'
      end
  end.
Definition part_key (name : str) : str :=
  to_ascii_lowercase (from_utf8_lossy (percent_decode (encode_utf8 (trim_start_matches (λ c, c =? 47) name)))).

(** ** The package *)

Record Package := mk_package { parts : bmap bytes; content_types : btree; signature_part : str }.
Section Verify.
Context `{Base64} `{DigestOracle} `{ZipCrate} `{QuickXml} `{X509Crates}.
Fixpoint read_parts (files : list (outcome ZipFile)) (parts : bmap bytes) (raw_content_types : option bytes) :
    outcome (bmap bytes * option bytes) :=
  match files with
  | [] => Ok (parts, raw_content_types)
  | r :: files' =>
      file ← with_context r "read VSIX ZIP entry";
      if is_directory_name (zf_name file) then read_parts files' parts raw_content_types else
      bs ← with_context (read_to_end file) "read VSIX part {name}";
      if bool_decide (zf_name file = CONTENT_TYPES_PART) then read_parts files' parts (Some bs) else
      bail_if (bool_decide (is_Some (bmap_get parts (part_key (zf_name file))))) "VSIX contains duplicate part name {name}";;
      read_parts files' (bmap_insert (part_key (zf_name file)) bs parts) raw_content_types
  end.
Definition content_type_row (s : btree * btree) (e : Element) : btree * btree :=
  let '(defaults, overrides) := s in
  if bool_decide (namespace e = OPC_CONTENT_TYPES) && bool_decide (local_name e = chars "Default") then
    match attr e (chars "Extension"), attr e (chars "ContentType") with
    | Some ext, Some ct => (btree_insert (to_ascii_lowercase ext) ct defaults, overrides)
    | _, _ => s
    end
  else if bool_decide (namespace e = OPC_CONTENT_TYPES) && bool_decide (local_name e = chars "Override") then
    match attr e (chars "PartName"), attr e (chars "ContentType") with
    | Some p, Some ct => (defaults, btree_insert (part_key p) ct overrides)
    | _, _ => s
    end
  else s.
Definition type_of_key (defaults overrides : btree) (k : str) : option str :=
  match btree_get overrides k with
  | Some ct => Some ct
  | None => btree_get defaults (match rsplit_once 46 k with Some (_, e) => e | None => [] end)
  end.
Definition read_package (data : bytes) : outcome Package :=
  archive ← with_context (zip_archive_new data) "open VSIX ZIP";
  '(parts, raw_content_types) ← read_parts (by_index archive) [] None;
  let signatures := List.filter (λ k, starts_with k SIGNATURE_PART_PREFIX) (fst <$> parts) in
  signature_part ← ok_or (head signatures) "VSIX package has no OPC XML signature part";
  bail_if (negb (bool_decide (tail signatures = []))) "VSIX package has more than one OPC XML signature part";;
  raw ← ok_or raw_content_types "VSIX package has no [Content_Types].xml";
  ct_doc ← with_context (parse_document raw) "[Content_Types].xml";
  let '(defaults, overrides) := fold_left content_type_row (child_elements ct_doc) ([], []) in
  Ok (mk_package parts (omap (λ k, ct ← type_of_key defaults overrides k; Some (k, ct)) (fst <$> parts)) signature_part).

(** ** References *)

Definition RELATIONSHIP_ATTRS : list str := [chars "Id"; chars "Target"; chars "TargetMode"; chars "Type"].
(** [Option<&str>], whose [None] is the least *)
Definition opt_le (a b : option str) : bool :=
  match a, b with
  | None, _ => true
  | Some _, None => false
  | Some a, Some b => str_le a b
  end.
Definition relationship_attr (r : Element) (name : str) : option (str * str) :=
  match attr r name with
  | Some v => Some (name, v)
  | None => if bool_decide (name = chars "TargetMode") then Some (name, chars "Internal") else None
  end.
Definition relationship_transform (transform : Element) (rels_xml : bytes) : outcome Element :=
  let source_ids := omap (λ e, attr e (chars "SourceId")) (children_named transform OPC_DSIG (chars "RelationshipReference")) in
  let source_types := omap (λ e, attr e (chars "SourceType")) (children_named transform OPC_DSIG (chars "RelationshipsGroupReference")) in
  rels ← with_context (parse_document rels_xml) "relationships part";
  bail_if (negb (is_named rels OPC_RELS (chars "Relationships"))) "RelationshipTransform input is not a Relationships part";;
  let selects r :=
    match attr r (chars "Id") with Some id => bool_decide (id ∈ source_ids) | None => false end
    || match attr r (chars "Type") with Some t => bool_decide (t ∈ source_types) | None => false end in
  let selected :=
    (λ r, mk_element (chars "Relationship") (omap (relationship_attr r) RELATIONSHIP_ATTRS) [] (e_scope rels))
      <$> List.filter selects (children_named rels OPC_RELS (chars "Relationship")) in
  Ok (mk_element (chars "Relationships") [(chars "xmlns", OPC_RELS)]
        (NElement <$> sort_by opt_le (λ e, attr e (chars "Id")) selected) [([], OPC_RELS)]).
Definition transform_step (s : option Element * bytes) (transform : Element) : outcome (option Element * bytes) :=
  let '(current, octets) := s in
  let uri := default [] (attr transform (chars "Algorithm")) in
  if bool_decide (uri = RELATIONSHIP_TRANSFORM) then
    e ← relationship_transform transform octets; Ok (Some e, octets)
  else
    mode ← ok_or (C14nMode_from_uri uri) "unsupported XMLDSig part transform {uri}";
    element ← (match current with Some e => Ok e | None => parse_document octets end);
    Ok (None, canonicalize element mode).
Fixpoint transform_all (s : option Element * bytes) (transforms : list Element) : outcome (option Element * bytes) :=
  match transforms with
  | [] => Ok s
  | t :: transforms' => s ← transform_step s t; transform_all s transforms'
  end.
Definition part_reference_octets (reference : Element) (part : bytes) : outcome bytes :=
  match child reference DSIG (chars "Transforms") with
  | None => Ok part
  | Some transforms =>
      '(current, octets) ← transform_all (None, part) (children_named transforms DSIG (chars "Transform"));
      Ok (match current with Some element => canonicalize element Inclusive | None => octets end)
  end.
Fixpoint object_mode (mode : C14nMode) (transforms : list Element) : outcome C14nMode :=
  match transforms with
  | [] => Ok mode
  | t :: transforms' =>
      mode ← ok_or (C14nMode_from_uri (default [] (attr t (chars "Algorithm")))) "unsupported XMLDSig object transform {uri}";
      object_mode mode transforms'
  end.
Definition object_reference_octets (reference target : Element) : outcome bytes :=
  mode ← (match child reference DSIG (chars "Transforms") with
          | Some transforms => object_mode Inclusive (children_named transforms DSIG (chars "Transform"))
          | None => Ok Inclusive
          end);
  Ok (canonicalize target mode).
Definition check_digest (reference : Element) (octets : bytes) : outcome unit :=
  uri ← algorithm reference (chars "DigestMethod");
  hash ← from_digest_uri uri;
  value ← ok_or (child reference DSIG (chars "DigestValue")) "XMLDSig reference {what} has no DigestValue";
  expected ← decode_base64 (text value);
  bail_if (negb (bool_decide (hash_digest hash octets = expected))) "VSIX signature digest mismatch for {what}".

(** ** The signature *)

Record VerifiedXmlSignature := mk_verified {
  signer : Certificate; certificates : list Cert; signature_value : bytes; timestamp_token : option bytes; reference_count : Z }.
Fixpoint decode_all (elements : list Element) : outcome (list bytes) :=
  match elements with
  | [] => Ok []
  | e :: elements' => d ← decode_base64 (text e); ds ← decode_all elements'; Ok (d :: ds)
  end.
Definition key_info_certificates (doc : Element) : list Element :=
  match child doc DSIG (chars "KeyInfo") with
  | Some key_info =>
      children_named key_info DSIG (chars "X509Data") ≫= λ data, children_named data DSIG (chars "X509Certificate")
  | None => []
  end.
Fixpoint parse_certs (ders : list bytes) : outcome (list Cert) :=
  match ders with
  | [] => Ok []
  | der :: ders' => c ← parse_cert_bytes der; cs ← parse_certs ders'; Ok (c :: cs)
  end.
Definition find_signer (x509 : list bytes) (hash : Hash) (octets signature : bytes) : option Certificate :=
  List.find (λ cert, is_ok (verify_rsa hash cert octets signature)) (omap certificate_from_der x509).
Fixpoint check_objects (doc : Element) (references : list Element) : outcome (list Element) :=
  match references with
  | [] => Ok []
  | reference :: references' =>
      id ← ok_or (strip_prefix [35] (default [] (attr reference (chars "URI")))) "unsupported SignedInfo reference URI {uri:?}";
      match find_all (λ e, bool_decide (attr e (chars "Id") = Some id)) doc with
      | [target] =>
          octets ← object_reference_octets reference target;
          check_digest reference octets;;
          covered ← check_objects doc references';
          Ok (target :: covered)
      | _ => Err "SignedInfo reference #{id} must match exactly one element"
      end
  end.
Definition reference_path (reference : Element) : str * str :=
  let uri := default [] (attr reference (chars "URI")) in default (uri, []) (split_once 63 uri).
Definition check_part (package : Package) (reference : Element) : outcome str :=
  let '(path, query) := reference_path reference in
  bail_if (negb (starts_with path [47])) "unsupported Manifest reference URI {uri:?}";;
  let key := part_key path in
  part ← ok_or (bmap_get (parts package) key) "VSIX signature references missing part {path}";
  match strip_prefix (chars "ContentType=") query with
  | Some ct =>
      bail_if (negb (bool_decide (btree_get (content_types package) key = Some ct)))
        "VSIX part {path} content type differs from the signed {ct}"
  | None => Ok tt
  end;;
  octets ← part_reference_octets reference part;
  check_digest reference octets;;
  Ok key.
(** The keys of the parts, in the order of the references *)
Fixpoint check_parts (package : Package) (references : list Element) : outcome (list str) :=
  match references with
  | [] => Ok []
  | reference :: references' => key ← check_part package reference; keys ← check_parts package references'; Ok (key :: keys)
  end.
Definition signed_manifest_references (objects : list Element) : list Element :=
  (objects ≫= find_all (λ e, is_named e DSIG (chars "Manifest"))) ≫= λ m, children_named m DSIG (chars "Reference").
Definition has_manifest (objects : list Element) : bool :=
  negb (bool_decide (objects ≫= find_all (λ e, is_named e DSIG (chars "Manifest")) = [])).
Definition verify_xml_signature (package : Package) : outcome VerifiedXmlSignature :=
  xml ← unwrap (bmap_get (parts package) (signature_part package));
  doc ← with_context (parse_document xml) "VSIX signature XML";
  bail_if (negb (is_named doc DSIG (chars "Signature"))) "VSIX signature part is not an XMLDSig Signature";;
  signed_info ← ok_or (child doc DSIG (chars "SignedInfo")) "XMLDSig Signature has no SignedInfo";
  c14n_uri ← algorithm signed_info (chars "CanonicalizationMethod");
  c14n ← ok_or (C14nMode_from_uri c14n_uri) "unsupported XMLDSig CanonicalizationMethod {c14n_uri}";
  sig_uri ← algorithm signed_info (chars "SignatureMethod");
  sig_hash ← from_signature_uri sig_uri;
  value ← ok_or (child doc DSIG (chars "SignatureValue")) "XMLDSig Signature has no SignatureValue";
  signature_value ← decode_base64 (text value);
  x509 ← decode_all (key_info_certificates doc);
  signer ← ok_or (find_signer x509 sig_hash (canonicalize signed_info c14n) signature_value)
    "VSIX SignatureValue does not verify with any KeyInfo X509Certificate";
  certificates ← parse_certs x509;
  covered_objects ← check_objects doc (children_named signed_info DSIG (chars "Reference"));
  bail_if (negb (has_manifest covered_objects)) "VSIX signature does not sign a package Manifest";;
  referenced ← check_parts package (signed_manifest_references covered_objects);
  bail_if (existsb (λ k, negb (bool_decide (k = signature_part package)) && negb (bool_decide (k ∈ referenced))) (fst <$> parts package))
    "VSIX part /{unsigned} is not covered by the signature";;
  timestamp_token ← (match find_all (λ e, is_named e OPC_DSIG (chars "EncodedTime")) doc with
                     | [] => Ok None
                     | [stamp] => token ← decode_base64 (text stamp); Ok (Some token)
                     | _ => Err "VSIX signature has more than one timestamp"
                     end);
  Ok (mk_verified signer certificates signature_value timestamp_token (Z.of_nat (size (list_to_set (C := gset str) referenced)))).
(** [verify_vsix_signature_bytes]; the encoding of the certificate is the
    [x509-cert] crate's. *)
Record VsixSignature := mk_vsix_signature { signer_certificate_der : bytes; vs_timestamp_token : option bytes; vs_reference_count : Z }.
Definition verify_vsix_signature_bytes (certificate_to_der : Certificate → option bytes) (data : bytes) : outcome VsixSignature :=
  package ← read_package data;
  sig ← verify_xml_signature package;
  der ← ok_or (certificate_to_der (signer sig)) "encode signer certificate: {e}";
  Ok (mk_vsix_signature der (timestamp_token sig) (reference_count sig)).
End Verify.
