(* ===== verification/VsixSign.v ===== *)
(** The signature of a VSIX package as a document: the template the signer
    writes is the canonical form of its elements, the signature document built
    from it is their written form, with the empty [Algorithm] elements
    shortened, and the verifier accepts it. *)

From stdpp Require Import gmap.
From S2P Require Import Prelude.
From S2P Require Import RustStr.
From S2P Require Import Find.
From S2P Require Import Base64.
From S2P Require Import PeDigest.
From S2P Require Import AppxParts.
From S2P Require Import AppxTypes.
From S2P Require Import AppxDigest.
From S2P Require Import ZipWrite.
From S2P Require Import NuGet.
From S2P Require Import CodeXml.
From S2P Require Import Tlv.
From S2P Require Import Online.
From S2P Require Import BTree.
From S2P Require Import C14n.
From S2P Require Import C14nRead.
From S2P Require Import Vsix.
From S2P Require Import VsixTotal.
From S2P Require Import VsixVerify.

(** ** The elements of the signature *)

Definition signature_scope : NsScope := [([], XMLDSIG_NS); (chars "xml", XML_NS)].
Definition time_scope : NsScope := [([], OPC_DIGITAL_SIGNATURE_NS); (chars "xml", XML_NS)].
Definition el (name : string) (attrs : list (str * str)) (children : list Node) : Element :=
  mk_element (chars name) attrs children signature_scope.
Definition time_el (name : string) (attrs : list (str * str)) (children : list Node) : Element :=
  mk_element (chars name) attrs children time_scope.
Definition with_algorithm (name : string) (uri : str) : Element := el name [(chars "Algorithm", uri)] [].
Definition plain_tag (name : string) (attrs : list (str * str)) : str := [60] ++ chars name ++ (attrs ≫= λ a, quoted (32 :: fst a) (snd a)) ++ [62].
(** Reassociate texts made of literals and parts until they agree. *)
Ltac texts := unfold q, quoted, plain_tag; repeat (progress (cbn [app fst snd mbind list_bind]; rewrite <-?app_assoc, ?app_nil_r)); reflexivity.
Section Elements.
Context `{Base64} `{DigestOracle}.
Definition digest_nodes (alg : VsixHashAlgorithm) (octets : bytes) : list Node :=
  [NElement (with_algorithm "DigestMethod" (digest_uri alg)); NElement (el "DigestValue" [] [NText (b64_encode (vsix_hash alg octets))])].
(** A part: its name, its content type and its bytes *)
Definition part_uri (name content_type : str) : str := chars "/" ++ name ++ chars "?ContentType=" ++ content_type.
Definition reference_el (alg : VsixHashAlgorithm) (row : str * str * bytes) : Element :=
  let '(name, content_type, bs) := row in el "Reference" [(chars "URI", part_uri name content_type)] (digest_nodes alg bs).
Definition manifest_el (alg : VsixHashAlgorithm) (rows : list (str * str * bytes)) : Element :=
  el "Manifest" [] ((λ row, NElement (reference_el alg row)) <$> rows).
Definition properties_el (time_value : str) : Element :=
  el "SignatureProperties" []
    [NElement (el "SignatureProperty" [(chars "Id", chars "idSignatureTime"); (chars "Target", chars "#SignatureIdValue")]
       [NElement (time_el "SignatureTime" [(chars "xmlns", OPC_DIGITAL_SIGNATURE_NS)]
          [NElement (time_el "Format" [] [NText VSIX_SIGNATURE_TIME_FORMAT]); NElement (time_el "Value" [] [NText time_value])])])].
Definition object_of (manifest : Element) (time_value : str) : Element :=
  el "Object" [(chars "Id", chars "idPackageObject")] [NElement manifest; NElement (properties_el time_value)].
Definition object_el (alg : VsixHashAlgorithm) (rows : list (str * str * bytes)) (time_value : str) : Element :=
  object_of (manifest_el alg rows) time_value.
(** The octets are those of the object's canonical form. *)
Definition object_reference_el (alg : VsixHashAlgorithm) (octets : bytes) : Element :=
  el "Reference" [(chars "Type", XMLDSIG_OBJECT_TYPE); (chars "URI", chars "#idPackageObject")] (digest_nodes alg octets).
Definition signed_info_el (alg : VsixHashAlgorithm) (octets : bytes) : Element :=
  el "SignedInfo" []
    [NElement (with_algorithm "CanonicalizationMethod" C14N_URI); NElement (with_algorithm "SignatureMethod" (signature_uri alg));
     NElement (object_reference_el alg octets)].
Definition signature_of (alg : VsixHashAlgorithm) (object : Element) (octets value cert : bytes) : Element :=
  el "Signature" [(chars "Id", chars "SignatureIdValue"); (chars "xmlns", XMLDSIG_NS)]
    [NElement (signed_info_el alg octets); NElement (el "SignatureValue" [] [NText (b64_encode value)]);
     NElement (el "KeyInfo" [] [NElement (el "X509Data" [] [NElement (el "X509Certificate" [] [NText (b64_encode cert)])])]);
     NElement object].
Definition signature_el (alg : VsixHashAlgorithm) (rows : list (str * str * bytes)) (time_value : str) (value cert : bytes) : Element :=
  let object := object_el alg rows time_value in signature_of alg object (canonicalize object Inclusive) value cert.

(** ** Their canonical form *)

Definition inside : NsScope := [([], XMLDSIG_NS)].
Definition inside_time : NsScope := [([], OPC_DIGITAL_SIGNATURE_NS)].
Definition node_text (rendered : NsScope) (n : Node) : str :=
  match n with NText t => escape_text t | NElement c => write_element Inclusive rendered c end.
Lemma write_element_eq rendered q a c s : write_element Inclusive rendered (mk_element q a c s) =
  open_tag Inclusive rendered q a s ++ (c ≫= node_text (child_rendered Inclusive rendered q a s)) ++ chars "</" ++ q ++ [62].
Proof.
  cbn [write_element]. generalize (child_rendered Inclusive rendered q a s). intros r. f_equal.
  induction c as [|[e|t] c IH]; [done|..]; cbn [mbind list_bind node_text]; rewrite <-!app_assoc; by f_equal.
Qed.
Lemma write_inside name attrs children : sorted_attrs attrs signature_scope = attrs →
  write_element Inclusive inside (el name attrs children) =
  plain_tag name attrs ++ (children ≫= node_text inside) ++ chars "</" ++ chars name ++ [62].
Proof.
  intros Ha. unfold el. rewrite write_element_eq. unfold open_tag, child_rendered.
  replace (namespaces_to_emit Inclusive inside (chars name) attrs signature_scope) with (@nil (str * str)) by done. rewrite Ha. done.
Qed.
Lemma write_root name attrs children : sorted_attrs attrs signature_scope = attrs →
  write_element Inclusive [] (el name attrs children) =
  [60] ++ chars name ++ chars " xmlns=" ++ q XMLDSIG_NS ++ (attrs ≫= λ a, quoted (32 :: fst a) (snd a)) ++ [62]
  ++ (children ≫= node_text inside) ++ chars "</" ++ chars name ++ [62].
Proof.
  intros Ha. unfold el. rewrite write_element_eq. unfold open_tag, child_rendered.
  replace (namespaces_to_emit Inclusive [] (chars name) attrs signature_scope) with inside by done. rewrite Ha.
  replace (inside ≫= declaration) with (chars " xmlns=" ++ q XMLDSIG_NS) by done.
  by rewrite <-!app_assoc.
Qed.
Lemma write_time name children : write_element Inclusive inside_time (time_el name [] children) =
  plain_tag name [] ++ (children ≫= node_text inside_time) ++ chars "</" ++ chars name ++ [62].
Proof.
  unfold time_el. rewrite write_element_eq. unfold open_tag, child_rendered.
  by replace (namespaces_to_emit Inclusive inside_time (chars name) [] time_scope) with (@nil (str * str)) by done.
Qed.
Lemma write_time_root name children : write_element Inclusive inside (time_el name [(chars "xmlns", OPC_DIGITAL_SIGNATURE_NS)] children) =
  [60] ++ chars name ++ chars " xmlns=" ++ q OPC_DIGITAL_SIGNATURE_NS ++ [62] ++ (children ≫= node_text inside_time) ++ chars "</" ++ chars name ++ [62].
Proof.
  unfold time_el. rewrite write_element_eq. unfold open_tag, child_rendered.
  replace (namespaces_to_emit Inclusive inside (chars name) _ time_scope) with inside_time by done.
  replace (inside_time ≫= declaration) with (chars " xmlns=" ++ q OPC_DIGITAL_SIGNATURE_NS) by done.
  replace (sorted_attrs _ time_scope) with (@nil (str * str)) by done. change (foldl _ inside inside_time) with inside_time. texts.
Qed.
Lemma escape_text_base64 bs : escape_text (b64_encode bs) = b64_encode bs.
Proof.
  pose proof (b64_alphabet bs) as Ha. induction Ha as [|c s Hc _ IH]; [done|]. change (escape_text (c :: s)) with (escape_text_char c ++ escape_text s).
  rewrite IH. unfold escape_text_char. repeat match goal with |- context [c =? ?n] => destruct (Z.eqb_spec c n) as [->|_]; [done|] end. done.
Qed.
Lemma algorithm_text name uri : escape_attr uri = uri →
  write_element Inclusive inside (with_algorithm name uri) =
  [60] ++ chars name ++ chars " Algorithm=" ++ q uri ++ [62] ++ chars "</" ++ chars name ++ [62].
Proof.
  intros Hu. unfold with_algorithm. rewrite write_inside by done. unfold plain_tag. unfold quoted. cbn [mbind list_bind fst snd]. rewrite Hu.
  texts.
Qed.
Lemma digest_text alg octets : (digest_nodes alg octets ≫= node_text inside) = digest_elements alg (vsix_hash alg octets).
Proof.
  unfold digest_nodes. cbn [mbind list_bind node_text]. rewrite algorithm_text by by destruct alg. rewrite write_inside by done.
  cbn [mbind list_bind node_text]. rewrite escape_text_base64. unfold digest_elements. texts.
Qed.
Lemma reference_el_text alg row : write_element Inclusive inside (reference_el alg row) =
  (let '(name, content_type, bs) := row in reference_text alg name content_type bs).
Proof.
  destruct row as [[name ct] bs]. unfold reference_el. rewrite write_inside by done. rewrite digest_text. unfold reference_text, plain_tag, quoted.
  texts.
Qed.
Definition rows_text (alg : VsixHashAlgorithm) (rows : list (str * str * bytes)) : str :=
  rows ≫= λ '(name, content_type, bs), reference_text alg name content_type bs.
Lemma manifest_text alg rows : write_element Inclusive inside (manifest_el alg rows) = chars "<Manifest>" ++ rows_text alg rows ++ chars "</Manifest>".
Proof.
  unfold manifest_el. rewrite write_inside by done. change (plain_tag "Manifest" []) with (chars "<Manifest>"). f_equal. f_equal.
  induction rows as [|row rows IH]; [done|]. cbn [fmap list_fmap mbind list_bind node_text rows_text]. rewrite reference_el_text.
  destruct row as [[name ct] bs]. f_equal. exact IH.
Qed.
Lemma properties_text time_value : write_element Inclusive inside (properties_el time_value) =
  chars "<SignatureProperties><SignatureProperty Id=" ++ q (chars "idSignatureTime") ++ chars " Target="
  ++ q (chars "#SignatureIdValue") ++ chars "><SignatureTime xmlns=" ++ q OPC_DIGITAL_SIGNATURE_NS ++ chars "><Format>"
  ++ VSIX_SIGNATURE_TIME_FORMAT ++ chars "</Format><Value>" ++ c14n_text time_value ++ chars "</Value></SignatureTime>"
  ++ chars "</SignatureProperty></SignatureProperties>".
Proof.
  unfold properties_el. rewrite write_inside by done. cbn [mbind list_bind node_text]. rewrite write_inside by done.
  cbn [mbind list_bind node_text]. rewrite write_time_root. cbn [mbind list_bind node_text]. rewrite !write_time. cbn [mbind list_bind node_text].
  change (escape_text VSIX_SIGNATURE_TIME_FORMAT) with VSIX_SIGNATURE_TIME_FORMAT. change (c14n_text time_value) with (escape_text time_value). texts.
Qed.
(** The canonical form of the package object *)
Lemma object_text alg rows time_value : canonicalize (object_el alg rows time_value) Inclusive =
  encode_utf8 (object_canonical (object_body (chars "<Manifest>" ++ rows_text alg rows ++ chars "</Manifest>") time_value)).
Proof.
  unfold canonicalize, object_el, object_of. f_equal. rewrite write_root by done. cbn [mbind list_bind node_text]. rewrite manifest_text, properties_text.
  unfold object_canonical, object_body. texts.
Qed.
Lemma signed_info_text alg o :
  canonicalize (signed_info_el alg (encode_utf8 o)) Inclusive = encode_utf8 (chars "<SignedInfo xmlns=" ++ q XMLDSIG_NS ++ chars ">" ++ signed_info_body alg o).
Proof.
  unfold canonicalize, signed_info_el, object_reference_el. f_equal. rewrite write_root by done.
  cbn [mbind list_bind node_text]. rewrite !algorithm_text by (done || by destruct alg). rewrite write_inside by done. rewrite digest_text.
  unfold signed_info_body. texts.
Qed.

(** ** The template *)

Context `{ZipCrate}.
(** The parts a template references, in the order of the archive *)
Fixpoint signed_rows (types : ContentTypes) (files : list (outcome ZipFile)) : outcome (list (str * str * bytes)) :=
  match files with
  | [] => Ok []
  | r :: files' =>
      file ← with_context r "read VSIX ZIP entry";
      name ← normalize_zip_part_name (zf_name file);
      if is_directory_name (zf_name file) || bool_decide (name = Vsix.CONTENT_TYPES_PART) || bool_decide (name = DEFAULT_VSIX_SIGNATURE_PART)
      then signed_rows types files'
      else
        content_type ← ok_or (for_part types name) "VSIX part /{name} has no content type in [Content_Types].xml";
        bs ← read_to_end file;
        rows ← signed_rows types files';
        Ok ((name, content_type, bs) :: rows)
  end.
Definition template_rows (archive : ZipArchive) : outcome (list (str * str * bytes)) :=
  file ← with_context (by_name archive Vsix.CONTENT_TYPES_PART) "prepared VSIX has no [Content_Types].xml";
  content_types_xml ← read_to_end file;
  types ← content_types_parse content_types_xml;
  signed_rows types (by_index archive).
Lemma manifest_references_rows alg types files m n m' n' : manifest_references alg types files m n = Ok (m', n') →
  ∃ rows, signed_rows types files = Ok rows ∧ m' = m ++ rows_text alg rows ∧ n' = n + len rows.
Proof.
  revert m n. induction files as [|r files IH]; intros m n; cbn [manifest_references signed_rows].
  - intros [= <- <-]. exists []. cbn. rewrite app_nil_r. repeat split. unfold len. cbn. lia.
  - destruct (with_context r _) as [file| |]; [|done..]. cbn. destruct (normalize_zip_part_name _) as [name| |]; [|done..]. cbn.
    destruct (_ || _); [apply IH|]. destruct (for_part types name) as [ct|]; [|done]. cbn. destruct (read_to_end file) as [bs| |]; [|done..]. cbn.
    intros (rows & -> & -> & ->)%IH. exists ((name, ct, bs) :: rows). cbn. rewrite <-app_assoc, len_cons. repeat split. lia.
Qed.
(** The template is the canonical form of its elements. *)
Lemma template_elements archive alg time_value t : template_from_prepared archive alg time_value = Ok t →
  ∃ rows, template_rows archive = Ok rows ∧ references t = len rows ∧ rows ≠ [] ∧
    signed_info t = canonicalize (signed_info_el alg (canonicalize (object_el alg rows time_value) Inclusive)) Inclusive ∧
    let body := object_body (chars "<Manifest>" ++ rows_text alg rows ++ chars "</Manifest>") time_value in
    signed_info_in_document t = document_form (chars "<SignedInfo>" ++ signed_info_body alg (object_canonical body)) ∧
    object_in_document t = document_form (chars "<Object Id=" ++ q (chars "idPackageObject") ++ chars ">" ++ body).
Proof.
  unfold template_from_prepared, template_rows. intros Ht. inv_ok Ht. rewrite E. cbn. rewrite E0. cbn. rewrite E1. cbn.
  destruct r2 as [m n]. inv_ok Ht. cbn [references signed_info]. apply manifest_references_rows in E2 as (rows & Hr & -> & Hn). rewrite Z.add_0_l in Hn. subst n.
  exists rows. cbn [signed_info_in_document object_in_document]. rewrite object_text, signed_info_text. split; [done|]. split; [done|]. split; [by intros ->|].
  cbv zeta. by rewrite <-!app_assoc.
Qed.
End Elements.

(** ** The document form *)

(** Replacing goes on after what holds no occurrence, and after one. *)
Section Replace.
Context (pattern new : str) (Hp : pattern ≠ []).
Lemma find_after_clear a b : clear pattern a = true → find (a ++ b) pattern = (λ k, k + len a) <$> find b pattern.
Proof.
  intros Ha. induction a as [|c a IH]; cbn [app].
  - destruct (find b pattern) as [k|]; cbn; [|done]. f_equal. unfold len. cbn. lia.
  - cbn [clear] in Ha. apply andb_true_iff in Ha as [Hd Ha]. rewrite find_cons, bool_decide_eq_false_2, IH by
      (done || (rewrite (differs_prefix pattern (c :: a ++ b)) by (by apply (differs_app pattern (c :: a) b)); by intros [? ?])).
    destruct (find b pattern) as [k|]; cbn; [|done]. f_equal. rewrite len_cons. lia.
Qed.
Lemma find_in_nil : find [] pattern = None.
Proof. apply find_None. by intros k [? _]%occurs_nil. Qed.
(** What is left after an occurrence is shorter. *)
Lemma after_shorter s k : find s pattern = Some k → 0 <= k ∧ k + len pattern <= len s ∧ (length (sub s (k + len pattern) (len s)) < length s)%nat.
Proof.
  intros [Ho%occurs_range _]%find_Some. assert (0 < len pattern) by (destruct pattern; [done|rewrite len_cons; pose proof (len_nonneg l); lia]).
  assert (len (sub s (k + len pattern) (len s)) < len s) by (rewrite len_sub by lia; lia). unfold len in *. lia.
Qed.
Lemma replace_fuel_more f g s : (length s <= f)%nat → (length s <= g)%nat → replace_fuel f s pattern new = replace_fuel g s pattern new.
Proof.
  assert (∀ f, replace_fuel f [] pattern new = []) as Hnil by (intros [|f']; cbn [replace_fuel]; by rewrite ?find_in_nil).
  revert g s. induction f as [|f IH]; intros g s Hf Hg; [destruct s; [by rewrite !Hnil|cbn in Hf; lia]|].
  destruct g as [|g]; [destruct s; [by rewrite !Hnil|cbn in Hg; lia]|]. cbn [replace_fuel].
  destruct (find s pattern) as [k|] eqn:Ek; [|done]. apply after_shorter in Ek as (_ & _ & ?). do 2 f_equal. apply IH; lia.
Qed.
Lemma replace_step s : replace s pattern new =
  match find s pattern with
  | Some k => sub s 0 k ++ new ++ replace (sub s (k + len pattern) (len s)) pattern new
  | None => s
  end.
Proof.
  unfold replace at 1. destruct (length s) as [|n] eqn:El; cbn [replace_fuel].
  - destruct s; [|done]. by rewrite find_in_nil.
  - destruct (find s pattern) as [k|] eqn:Ek; [|done]. apply after_shorter in Ek as (_ & _ & ?). do 2 f_equal. apply replace_fuel_more; [lia|done].
Qed.
Lemma replace_skip a b : clear pattern a = true → replace (a ++ b) pattern new = a ++ replace b pattern new.
Proof.
  intros Ha. rewrite !replace_step, find_after_clear by done. destruct (find b pattern) as [k|] eqn:Ek; cbn [fmap option_fmap option_map]; [|done].
  apply after_shorter in Ek as (? & ? & _). pose proof (len_nonneg pattern). pose proof (len_nonneg a).
  rewrite (sub_split (a ++ b) 0 (len a) (k + len a)) by lia. rewrite sub_app_l, sub_full by lia. rewrite <-app_assoc. f_equal.
  rewrite !sub_app_r, len_app by lia. f_equal; [f_equal; lia|]. do 2 f_equal. f_equal; lia.
Qed.
Lemma replace_at b : replace (pattern ++ b) pattern new = new ++ replace b pattern new.
Proof.
  rewrite replace_step. pose proof (find_clear pattern [] b eq_refl Hp) as He. cbn [app] in He. rewrite He.
  change (len []) with 0. rewrite sub_nil_range by lia. cbn [app]. do 2 f_equal. rewrite sub_app_r, len_app by lia.
  trans (sub b 0 (len b)); [f_equal; lia|apply sub_full].
Qed.
Lemma replace_absent s : find s pattern = None → replace s pattern new = s.
Proof. intros Hs. by rewrite replace_step, Hs. Qed.
End Replace.
Lemma clear_value n v : 60 ∉ v → clear (62 :: 60 :: n) (v ++ [34]) = true.
Proof.
  induction v as [|c v IH]; [done|]. intros [_ Hv]%not_elem_of_cons. cbn [app clear differs]. rewrite IH, andb_true_r by done. apply orb_true_iff. right.
  destruct v as [|d v]; [done|]. cbn [app]. apply not_elem_of_cons in Hv as [Hd _]. by rewrite (proj2 (Z.eqb_neq 60 d)).
Qed.
Lemma clear_text n t : t ≠ [] → 60 ∉ t → 62 ∉ t → clear (62 :: 60 :: n) (62 :: t) = true.
Proof.
  intros Ht Hl Hg. cbn [clear differs]. rewrite clear_without, andb_true_r by done. destruct t as [|d t]; [done|]. apply not_elem_of_cons in Hl as [Hd _].
  by rewrite (proj2 (Z.eqb_neq 60 d)).
Qed.
Definition end_tag (name : string) : str := chars "></" ++ chars name ++ [62].
Lemma clear_end_tag name a : (∀ n, clear (62 :: 60 :: n) a = true) → clear (end_tag name) a = true.
Proof. intros Ha. apply (Ha (47 :: chars name ++ [62])). Qed.
Definition shorten (name : string) (s : str) : str := replace s (end_tag name) (chars " />").
Lemma document_form_eq s : document_form s = shorten "DigestMethod" (shorten "SignatureMethod" (shorten "CanonicalizationMethod" s)).
Proof. done. Qed.
Lemma shorten_skip name a b : clear (end_tag name) a = true → shorten name (a ++ b) = a ++ shorten name b.
Proof. by apply replace_skip. Qed.
Lemma shorten_at name b : shorten name (end_tag name ++ b) = chars " />" ++ shorten name b.
Proof. by apply replace_at. Qed.
Lemma shorten_absent name s : find s (end_tag name) = None → shorten name s = s.
Proof. by apply replace_absent. Qed.

Ltac computed := by apply (bool_decide_unpack _); vm_compute.
Definition scalar_row (row : str * str * bytes) : Prop := let '(name, content_type, _) := row in scalars name ∧ scalars content_type.
(** The times the signer writes are plain. *)
Definition time_char (c : char) : bool := is_ascii_digit c || bool_decide (c ∈ [43; 45; 46; 58; 84]).
Lemma time_chars_plain t : t ≠ [] → Forall (λ c, time_char c = true) t → plain_text t.
Proof.
  intros Ht Hc. split; [done|]. assert (∀ c, time_char c = true → 43 <= c <= 58 ∨ c = 84) as Hr.
  { intros c. unfold time_char, is_ascii_digit, between. rewrite orb_true_iff, andb_true_iff, bool_decide_eq_true. intros [?|Hin]; [lia|].
    repeat (apply elem_of_cons in Hin as [->|Hin]; [lia|]). by apply not_elem_of_nil in Hin. }
  split; (eapply Forall_impl; [exact Hc|]); intros c Hx%Hr; [apply is_scalar_spec; lia|].
  intros Hin. repeat (apply elem_of_cons in Hin as [->|Hin]; [lia|]). by apply not_elem_of_nil in Hin.
Qed.
Lemma decimal_time fuel n : 0 <= n → Forall (λ c, time_char c = true) (decimal fuel n).
Proof. intros Hn. apply Forall_forall. intros c Hc%decimal_ascii; [|done]. unfold time_char. by rewrite Hc. Qed.
Lemma date_text_plain dt tenths : 0 <= ZipWrite.year dt → 0 <= ZipWrite.month dt → 0 <= ZipWrite.day dt → 0 <= ZipWrite.hour dt → 0 <= ZipWrite.minute dt → 0 <= ZipWrite.second dt → 0 <= tenths →
  plain_text (date_text dt tenths).
Proof.
  intros. assert (∀ w n, 0 <= n → Forall (λ c, time_char c = true) (zero_padded w n)) as Hz.
  { intros w n Hn. unfold zero_padded. apply Forall_app. split; [apply Forall_replicate; by vm_compute|by apply decimal_time]. }
  apply time_chars_plain.
  - unfold date_text. intros He. apply (f_equal length) in He. rewrite !length_app in He. change (length (chars "T")) with 1%nat in He. cbn [length] in He. lia.
  - unfold date_text. rewrite !Forall_app. split_and!; first [by apply Hz|by apply decimal_time|computed].
Qed.

Section DocumentForm.
Context `{Base64} `{DigestOracle}.
Lemma encoded_plain bs : bs ≠ [] → plain_text (b64_encode bs).
Proof.
  intros Hbs. pose proof (b64_alphabet bs) as Ha. split; [by apply b64_nonempty|]. split; (eapply Forall_impl; [exact Ha|]); intros c Hc.
  - apply is_scalar_spec. unfold is_base64_char, is_ascii_alphanumeric, is_ascii_upper, is_ascii_lower, is_ascii_digit, between in Hc.
    rewrite !orb_true_iff, !andb_true_iff in Hc. lia.
  - intros Hin. repeat (apply elem_of_cons in Hin as [-> |Hin]; [by vm_compute in Hc|]). by apply not_elem_of_nil in Hin.
Qed.
Lemma vsix_hash_nonempty alg octets : vsix_hash alg octets ≠ [].
Proof. intros He. pose proof (digest_len (match alg with VsixSha256 => Sha256 | VsixSha384 => Sha384 | VsixSha512 => Sha512 end) octets) as Hl. unfold vsix_hash in He. rewrite He in Hl. by destruct alg. Qed.
Lemma clear_plain name t : plain_text t → clear (end_tag name) (62 :: t) = true.
Proof.
  intros (Hne & _ & Ht). rewrite Forall_forall in Ht. apply clear_end_tag. intros n. apply clear_text; [done|..]; intros Hin; apply (Ht _ Hin);
    by apply (bool_decide_unpack _).
Qed.
(** [shorten] passes a part that is clear of its end tag, alone or with the
    part after it. *)
Lemma shorten_past name a x b : clear (end_tag name) (a ++ x) = true → clear (end_tag name) x = true →
  shorten name (a ++ x ++ b) = a ++ shorten name (x ++ b).
Proof. intros Ha Hx. by rewrite (shorten_skip name x b Hx), app_assoc, (shorten_skip name (a ++ x) b Ha), <-app_assoc. Qed.
Ltac pass a := rewrite (shorten_skip _ a) by first [done | by vm_compute].
Ltac pass_with a x := rewrite (shorten_past _ a x) by (by vm_compute).
Ltac ends a := rewrite (shorten_absent _ a) by (by vm_compute).
(** [SignedInfo] in parts: around the ends of the elements that are shortened,
    and around the digest. *)
Definition info_canon : str := chars "<SignedInfo><CanonicalizationMethod Algorithm=" ++ q C14N_URI.
Definition info_method (alg : VsixHashAlgorithm) : str := chars "<SignatureMethod Algorithm=" ++ q (signature_uri alg).
Definition info_digest (alg : VsixHashAlgorithm) : str :=
  chars "<Reference Type=" ++ q XMLDSIG_OBJECT_TYPE ++ chars " URI=" ++ q (chars "#idPackageObject") ++ chars "><DigestMethod Algorithm=" ++ q (digest_uri alg).
Definition info_end : str := chars "</DigestValue></Reference></SignedInfo>".
Definition info_text (alg : VsixHashAlgorithm) (value c s d : str) : str :=
  info_canon ++ c ++ info_method alg ++ s ++ info_digest alg ++ d ++ chars "<DigestValue" ++ (62 :: value) ++ info_end.
Lemma info_document alg o : document_form (chars "<SignedInfo>" ++ signed_info_body alg o) =
  info_text alg (b64_encode (vsix_hash alg (encode_utf8 o))) (chars " />") (chars " />") (chars " />").
Proof.
  pose proof (encoded_plain _ (vsix_hash_nonempty alg (encode_utf8 o))) as Hb. set (v := b64_encode (vsix_hash alg (encode_utf8 o))) in *.
  replace (chars "<SignedInfo>" ++ signed_info_body alg o)
    with (info_text alg v (end_tag "CanonicalizationMethod") (end_tag "SignatureMethod") (end_tag "DigestMethod")).
  2:{ unfold info_text, info_canon, info_method, info_digest, info_end, signed_info_body, digest_elements, end_tag. fold v. texts. }
  clearbody v. pose proof (λ n, clear_plain n v Hb) as Hcl. rewrite document_form_eq. unfold info_text.
  trans (shorten "DigestMethod" (shorten "SignatureMethod" (info_text alg v (chars " />") (end_tag "SignatureMethod") (end_tag "DigestMethod")))).
  { unfold info_text. do 2 f_equal. pass info_canon. rewrite shorten_at. destruct alg.
    all: lazymatch goal with |- context [info_method ?a] => pass (info_method a); pass_with (end_tag "SignatureMethod") (info_digest a); pass (info_digest a) end.
    all: pass_with (end_tag "DigestMethod") (chars "<DigestValue"); pass (chars "<DigestValue"); pass (62 :: v); by ends info_end. }
  trans (shorten "DigestMethod" (info_text alg v (chars " />") (chars " />") (end_tag "DigestMethod"))).
  { unfold info_text. f_equal. pass info_canon. destruct alg.
    all: lazymatch goal with |- context [info_method ?a] => pass_with (chars " />") (info_method a); pass (info_method a); rewrite shorten_at; pass (info_digest a) end.
    all: pass_with (end_tag "DigestMethod") (chars "<DigestValue"); pass (chars "<DigestValue"); pass (62 :: v); by ends info_end. }
  unfold info_text. pass info_canon. destruct alg.
  all: lazymatch goal with |- context [info_method ?a] =>
    pass_with (chars " />") (info_method a); pass (info_method a); pass_with (chars " />") (info_digest a); pass (info_digest a) end.
  all: rewrite shorten_at; pass (chars "<DigestValue"); pass (62 :: v); by ends info_end.
Qed.
(** The object in parts: the rows begin with the end of the tag before them. *)
Definition row_text (method_end : str) (alg : VsixHashAlgorithm) (row : str * str * bytes) : str :=
  let '(name, content_type, bs) := row in
  (chars "><Reference URI=" ++ [34]) ++ (escape_attr (part_uri name content_type) ++ [34]) ++ (chars "><DigestMethod Algorithm=" ++ q (digest_uri alg))
  ++ method_end ++ chars "<DigestValue" ++ (62 :: b64_encode (vsix_hash alg bs)) ++ chars "</DigestValue></Reference".
Definition object_start : str := chars "<Object Id=" ++ q (chars "idPackageObject") ++ chars "><Manifest".
Definition object_middle : str :=
  chars "></Manifest><SignatureProperties><SignatureProperty Id=" ++ q (chars "idSignatureTime") ++ chars " Target="
  ++ q (chars "#SignatureIdValue") ++ chars "><SignatureTime xmlns=" ++ q OPC_DIGITAL_SIGNATURE_NS ++ chars "><Format>"
  ++ VSIX_SIGNATURE_TIME_FORMAT ++ chars "</Format><Value".
Definition object_end : str := chars "</Value></SignatureTime></SignatureProperty></SignatureProperties></Object>".
Definition object_parts (method_end : str) (alg : VsixHashAlgorithm) (rows : list (str * str * bytes)) (time_value : str) : str :=
  object_start ++ (rows ≫= row_text method_end alg) ++ object_middle ++ (62 :: time_value) ++ object_end.
Lemma rows_text_parts alg rows : 62 :: rows_text alg rows = (rows ≫= row_text (end_tag "DigestMethod") alg) ++ [62].
Proof.
  induction rows as [|[[name ct] bs] rows IH]; [done|]. cbn [mbind list_bind]. rewrite <-app_assoc, <-IH.
  change (rows_text alg ((name, ct, bs) :: rows)) with (reference_text alg name ct bs ++ rows_text alg rows). unfold row_text, reference_text, digest_elements, part_uri, end_tag, q.
  change (c14n_attr ?u) with (escape_attr u). generalize (rows_text alg rows). intros t. texts.
Qed.
Lemma escape_text_plain t : plain_text t → c14n_text t = t.
Proof.
  intros (_ & _ & Ht). induction Ht as [|c t Hc _ IH]; [done|]. change (c14n_text (c :: t)) with (escape_text_char c ++ c14n_text t). rewrite IH. unfold escape_text_char.
  repeat match goal with |- context [c =? ?n] => destruct (Z.eqb_spec c n) as [->|_]; [exfalso; apply Hc; by apply (bool_decide_unpack _)|] end. done.
Qed.
Lemma row_clear name alg row : name ∈ ["CanonicalizationMethod"; "SignatureMethod"] → clear (end_tag name) (row_text (end_tag "DigestMethod") alg row) = true.
Proof.
  intros Hn. destruct row as [[part ct] bs]. pose proof (clear_plain name _ (encoded_plain _ (vsix_hash_nonempty alg bs))) as Hb.
  unfold row_text. apply clear_app; [by repeat (apply elem_of_cons in Hn as [-> |Hn]; [by vm_compute|]); apply not_elem_of_nil in Hn|].
  apply clear_app; [apply clear_end_tag; intros n; apply clear_value, escape_attr_without; by right|].
  rewrite (app_assoc (_ ++ q _)), (app_assoc _ (chars "<DigestValue")). apply clear_app; [|apply clear_app; [done|]].
  all: repeat (apply elem_of_cons in Hn as [-> |Hn]; [destruct alg; by vm_compute|]); by apply not_elem_of_nil in Hn.
Qed.
Lemma rows_clear name alg rows : name ∈ ["CanonicalizationMethod"; "SignatureMethod"] → clear (end_tag name) (rows ≫= row_text (end_tag "DigestMethod") alg) = true.
Proof. intros Hn. induction rows as [|row rows IH]; [done|]. apply clear_app; [by apply row_clear|done]. Qed.
Lemma row_shortened alg row b : shorten "DigestMethod" (row_text (end_tag "DigestMethod") alg row ++ b) =
  row_text (chars " />") alg row ++ shorten "DigestMethod" b.
Proof.
  destruct row as [[name ct] bs]. pose proof (clear_plain "DigestMethod" _ (encoded_plain _ (vsix_hash_nonempty alg bs))) as Hb. unfold row_text.
  rewrite <-!(app_assoc _ _ b). rewrite <-!app_assoc. rewrite (app_assoc (chars "><Reference URI=")). rewrite (app_assoc (escape_attr _)). rewrite (app_assoc (chars "><DigestMethod Algorithm=")).
  rewrite shorten_skip by (by vm_compute). rewrite shorten_skip by (apply clear_end_tag; intros n; apply clear_value, escape_attr_without; by right).
  rewrite shorten_skip by (destruct alg; by vm_compute). rewrite shorten_at. pass (chars "<DigestValue").
  rewrite shorten_skip by done. pass (chars "</DigestValue></Reference"). by rewrite <-!app_assoc.
Qed.
Lemma rows_shortened alg rows b : shorten "DigestMethod" ((rows ≫= row_text (end_tag "DigestMethod") alg) ++ b) =
  (rows ≫= row_text (chars " />") alg) ++ shorten "DigestMethod" b.
Proof. induction rows as [|row rows IH]; [done|]. cbn [mbind list_bind]. by rewrite <-!app_assoc, row_shortened, IH. Qed.
Lemma object_document alg rows time_value : plain_text time_value →
  document_form (chars "<Object Id=" ++ q (chars "idPackageObject") ++ chars ">"
    ++ object_body (chars "<Manifest>" ++ rows_text alg rows ++ chars "</Manifest>") time_value) = object_parts (chars " />") alg rows time_value.
Proof.
  intros Ht. pose proof (λ n, clear_plain n time_value Ht) as Hcl.
  trans (document_form (object_parts (end_tag "DigestMethod") alg rows time_value)).
  { f_equal. symmetry. unfold object_parts, object_start, object_middle, object_end, object_body. rewrite escape_text_plain by done.
      pose proof (rows_text_parts alg rows) as Hr. revert Hr. generalize (rows ≫= row_text (end_tag "DigestMethod") alg), (rows_text alg rows). intros r t Hr.
      change (chars "></Manifest><SignatureProperties><SignatureProperty Id=") with ([62] ++ chars "</Manifest><SignatureProperties><SignatureProperty Id=").
      rewrite <-!(app_assoc [62]), (app_assoc r), <-Hr. texts. }
  rewrite document_form_eq. unfold object_parts.
  trans (shorten "DigestMethod" (object_start ++ (rows ≫= row_text (end_tag "DigestMethod") alg) ++ object_middle ++ (62 :: time_value) ++ object_end)).
  { f_equal. trans (shorten "SignatureMethod" (object_start ++ (rows ≫= row_text (end_tag "DigestMethod") alg) ++ object_middle ++ (62 :: time_value) ++ object_end)).
    - f_equal. pass object_start. rewrite shorten_skip by (apply rows_clear; by left). pass object_middle. rewrite shorten_skip by done. by ends object_end.
    - pass object_start. rewrite shorten_skip by (apply rows_clear; by right; left). pass object_middle. rewrite shorten_skip by done. by ends object_end. }
  pass object_start. rewrite rows_shortened. pass object_middle. rewrite shorten_skip by done. by ends object_end.
Qed.

(** ** The document is that of the elements *)

Lemma source_el name attrs children : children ≠ [] → element_source (el name attrs children) =
  [60] ++ chars name ++ (attrs ≫= attr_source) ++ [62] ++ (children ≫= node_source) ++ chars "</" ++ chars name ++ [62].
Proof. intros Hc. unfold el. rewrite element_source_eq. by destruct children. Qed.
Lemma source_time_el name attrs children : children ≠ [] → element_source (time_el name attrs children) =
  [60] ++ chars name ++ (attrs ≫= attr_source) ++ [62] ++ (children ≫= node_source) ++ chars "</" ++ chars name ++ [62].
Proof. intros Hc. unfold time_el. rewrite element_source_eq. by destruct children. Qed.
Lemma source_algorithm name uri : escape_attr uri = uri →
  element_source (with_algorithm name uri) = [60] ++ chars name ++ chars " Algorithm=" ++ q uri ++ chars " />".
Proof. intros Hu. unfold with_algorithm, el. rewrite element_source_eq. cbn [mbind list_bind]. unfold attr_source, quoted. cbn [fst snd]. rewrite Hu. texts. Qed.
Lemma digest_source alg octets : (digest_nodes alg octets ≫= node_source) =
  chars "<DigestMethod Algorithm=" ++ q (digest_uri alg) ++ chars " /><DigestValue>" ++ b64_encode (vsix_hash alg octets) ++ chars "</DigestValue>".
Proof.
  unfold digest_nodes. cbn [mbind list_bind node_source]. rewrite source_algorithm by by destruct alg. rewrite source_el by done. cbn [mbind list_bind node_source]. texts.
Qed.
Lemma signed_info_source alg octets : element_source (signed_info_el alg octets) =
  info_text alg (b64_encode (vsix_hash alg octets)) (chars " />") (chars " />") (chars " />").
Proof.
  unfold signed_info_el, object_reference_el. rewrite source_el by done. cbn [mbind list_bind node_source].
  rewrite !source_algorithm by (done || by destruct alg). rewrite source_el by done. rewrite digest_source.
  unfold info_text, info_canon, info_method, info_digest, info_end. texts.
Qed.
Definition references_source (alg : VsixHashAlgorithm) (rows : list (str * str * bytes)) : str := rows ≫= λ row, element_source (reference_el alg row).
Lemma references_source_parts alg rows : 62 :: references_source alg rows = (rows ≫= row_text (chars " />") alg) ++ [62].
Proof.
  induction rows as [|row rows IH]; [done|]. change (references_source alg (row :: rows)) with (element_source (reference_el alg row) ++ references_source alg rows).
  cbn [mbind list_bind]. rewrite <-app_assoc, <-IH. generalize (references_source alg rows). intros t. destruct row as [[name ct] bs]. unfold reference_el. rewrite source_el by done.
  rewrite digest_source. unfold row_text, attr_source. texts.
Qed.
Lemma object_source alg rows time_value : rows ≠ [] → element_source (object_el alg rows time_value) = object_parts (chars " />") alg rows time_value.
Proof.
  intros Hr. unfold object_el, object_of, properties_el, manifest_el. rewrite source_el by done. cbn [mbind list_bind node_source].
  rewrite source_el by (by destruct rows). rewrite !source_el by done. cbn [mbind list_bind node_source]. rewrite source_el by done. cbn [mbind list_bind node_source].
  rewrite source_time_el by done. cbn [mbind list_bind node_source]. rewrite !source_time_el by done. cbn [mbind list_bind node_source].
  replace (((λ row, NElement (reference_el alg row)) <$> rows) ≫= node_source) with (references_source alg rows)
    by (unfold references_source; clear; induction rows as [|row rows IH]; [done|]; cbn [fmap list_fmap mbind list_bind node_source]; by rewrite IH).
  pose proof (references_source_parts alg rows) as Hp. revert Hp. unfold object_parts, object_start, object_middle, object_end.
  generalize (rows ≫= row_text (chars " />") alg), (references_source alg rows). intros r t Hp.
  change (chars "></Manifest><SignatureProperties><SignatureProperty Id=") with ([62] ++ chars "</Manifest><SignatureProperties><SignatureProperty Id=").
  rewrite <-!(app_assoc [62]), (app_assoc r), <-Hp. unfold attr_source. texts.
Qed.
(** Elements that can be written *)
Lemma writable_el name attrs children : xml_name (chars name) → writable_attrs attrs →
  (∃ t, children = [NText t] ∧ plain_text t) ∨ Forall is_writable children → writable_element (el name attrs children).
Proof. intros Hn Ha Hc. by apply writable_element_eq. Qed.
Ltac xml_name := split; [done|computed].
Ltac xml_attrs := split; [repeat (constructor; [split; [xml_name|computed]|]); constructor|computed].
Lemma no_attrs : writable_attrs [].
Proof. split; constructor. Qed.
Lemma writable_leaf name t : xml_name (chars name) → plain_text t → writable_element (el name [] [NText t]).
Proof. intros Hn Ht. apply writable_el; [done|apply no_attrs|left; by eexists]. Qed.
Lemma writable_algorithm name uri : xml_name (chars name) → scalars uri → writable_element (with_algorithm name uri).
Proof.
  intros Hn Hu. apply writable_el; [done| |by right]. split; [|by apply NoDup_singleton]. constructor; [|constructor]. split; [xml_name|done].
Qed.
Lemma writable_digest alg octets : Forall is_writable (digest_nodes alg octets).
Proof.
  constructor; [|constructor; [|constructor]].
  - apply writable_algorithm; [xml_name|destruct alg; by apply (bool_decide_unpack _); vm_compute].
  - apply writable_leaf; [xml_name|]. apply encoded_plain, vsix_hash_nonempty.
Qed.
Lemma writable_reference alg row : scalar_row row → writable_element (reference_el alg row).
Proof.
  destruct row as [[name ct] bs]. intros [Hn Hc]. apply writable_el; [xml_name| |right; apply writable_digest]. split; [|by apply NoDup_singleton].
  constructor; [|constructor]. split; [xml_name|]. cbn [snd]. unfold part_uri. rewrite !Forall_app. split; [computed|]. split; [done|]. split; [computed|done].
Qed.
Lemma writable_properties time_value : plain_text time_value → writable_element (properties_el time_value).
Proof.
  intros Ht. apply writable_el; [xml_name|apply no_attrs|right]. constructor; [|constructor].
  apply writable_el; [xml_name|xml_attrs|right]. constructor; [|constructor]. apply writable_element_eq. split; [xml_name|]. split; [xml_attrs|right].
  constructor; [|constructor; [|constructor]]; apply writable_element_eq; (split; [xml_name|]); (split; [apply no_attrs|left]); eexists; (split; [done|]).
  - split; [done|]. split; computed.
  - done.
Qed.
Lemma writable_object alg rows time_value : Forall scalar_row rows → plain_text time_value → writable_element (object_el alg rows time_value).
Proof.
  intros Hr Ht. apply writable_el; [xml_name|xml_attrs|right]. constructor; [|constructor; [|constructor]]; [|by apply writable_properties].
  apply writable_el; [xml_name|apply no_attrs|right]. apply Forall_fmap. eapply Forall_impl; [exact Hr|]. apply writable_reference.
Qed.
Lemma writable_signed_info alg octets : writable_element (signed_info_el alg octets).
Proof.
  apply writable_el; [xml_name|apply no_attrs|right]. constructor; [|constructor; [|constructor; [|constructor]]].
  - apply writable_algorithm; [xml_name|computed].
  - apply writable_algorithm; [xml_name|destruct alg; computed].
  - apply writable_el; [xml_name|xml_attrs|right; apply writable_digest].
Qed.
Lemma writable_signature alg rows time_value value cert : Forall scalar_row rows → plain_text time_value → value ≠ [] → cert ≠ [] →
  writable_element (signature_el alg rows time_value value cert).
Proof.
  intros Hr Ht Hv Hc. apply writable_el; [xml_name|xml_attrs|right].
  constructor; [apply writable_signed_info|]. constructor; [apply writable_leaf; [xml_name|by apply encoded_plain]|].
  constructor; [|constructor; [by apply writable_object|constructor]].
  do 2 (apply writable_el; [xml_name|apply no_attrs|right]; constructor; [|constructor]). apply writable_leaf; [xml_name|by apply encoded_plain].
Qed.
(** The document the signer writes for a template is that of the elements. *)
Lemma signature_document `{ZipCrate} archive alg time_value t rows value cert : template_from_prepared archive alg time_value = Ok t →
  template_rows archive = Ok rows → plain_text time_value →
  signature_xml t value (Some cert) = document_text (signature_el alg rows time_value value cert).
Proof.
  intros Ht Hrows Htime. apply template_elements in Ht as (rows' & Hr & _ & Hne & _ & Hinfo & Hobject). rewrite Hrows in Hr. injection Hr as <-.
  unfold signature_xml. rewrite Hinfo, Hobject, info_document, object_document by done. unfold document_text, signature_el, signature_of. cbv zeta.
  rewrite source_el by done. cbn [mbind list_bind node_source]. rewrite signed_info_source, object_source by done. rewrite !source_el by done.
  cbn [mbind list_bind node_source]. rewrite !source_el by done. cbn [mbind list_bind node_source]. rewrite !source_el by done. cbn [mbind list_bind node_source].
  rewrite object_text. generalize (b64_encode value), (b64_encode cert), (object_parts (chars " />") alg rows time_value).
  generalize (info_text alg (b64_encode (vsix_hash alg (encode_utf8 (object_canonical (object_body (chars "<Manifest>" ++ rows_text alg rows ++ chars "</Manifest>") time_value)))))
    (chars " />") (chars " />") (chars " />")). intros a b c d. unfold XML_DECLARATION, in_quotes, attr_source. texts.
Qed.
End DocumentForm.

(** ** What the verifier finds in the document *)

Lemma find_all_eq p q a c s : find_all p (mk_element q a c s) =
  (if p (mk_element q a c s) then [mk_element q a c s] else [])
  ++ (c ≫= λ n, match n with NElement e => find_all p e | NText _ => [] end).
Proof. cbn [find_all e_children]. f_equal. induction c as [|[e|t] c IH]; [done|..]; cbn [mbind list_bind]; [by f_equal|done]. Qed.
Section Verifier.
Context `{Base64} `{DigestOracle}.
Definition has_id (id : str) (e : Element) : bool := bool_decide (attr e (chars "Id") = Some id).
Lemma find_in_manifest p alg rows : (∀ row, find_all p (reference_el alg row) = []) → p (manifest_el alg rows) = false →
  find_all p (manifest_el alg rows) = [].
Proof.
  intros Hr Hm. unfold manifest_el, el in *. rewrite find_all_eq, Hm. clear Hm. cbn [app].
  induction rows as [|row rows IH]; [done|]. cbn [fmap list_fmap mbind list_bind]. by rewrite Hr.
Qed.
Lemma find_el p name attrs children : find_all p (el name attrs children) =
  (if p (el name attrs children) then [el name attrs children] else []) ++ (children ≫= λ n, match n with NElement e => find_all p e | NText _ => [] end).
Proof. apply find_all_eq. Qed.
Lemma find_time_el p name attrs children : find_all p (time_el name attrs children) =
  (if p (time_el name attrs children) then [time_el name attrs children] else [])
  ++ (children ≫= λ n, match n with NElement e => find_all p e | NText _ => [] end).
Proof. apply find_all_eq. Qed.
End Verifier.
(** Visit the elements one by one. *)
Ltac visit :=
  repeat (first [rewrite find_el | rewrite find_time_el]; cbn [mbind list_bind];
          match goal with |- context [if ?b then [?e] else []] => let v := eval vm_compute in b in change (if b then [e] else []) with (if v then [e] else []) end;
          cbn [app]);
  by rewrite ?app_nil_r.
Section Finding.
Context `{Base64} `{DigestOracle}.
Lemma find_signed_object alg m time_value octets value cert :
  find_all (has_id (chars "idPackageObject")) (signature_of alg (object_of m time_value) octets value cert) =
  object_of m time_value :: find_all (has_id (chars "idPackageObject")) m.
Proof. unfold signature_of, object_of, signed_info_el, object_reference_el, digest_nodes, with_algorithm, properties_el. visit. Qed.
Definition is_manifest (e : Element) : bool := is_named e DSIG (chars "Manifest").
Lemma find_manifests m time_value : find_all is_manifest (object_of m time_value) = find_all is_manifest m.
Proof. unfold object_of, properties_el. visit. Qed.
Definition is_stamp (e : Element) : bool := is_named e OPC_DSIG (chars "EncodedTime").
Lemma find_stamps alg m time_value octets value cert :
  find_all is_stamp (signature_of alg (object_of m time_value) octets value cert) = find_all is_stamp m.
Proof. unfold signature_of, object_of, signed_info_el, object_reference_el, digest_nodes, with_algorithm, properties_el. visit. Qed.
Lemma find_reference p alg row : (∀ children uri, p (el "Reference" [(chars "URI", uri)] children) = false) →
  (∀ uri, p (with_algorithm "DigestMethod" uri) = false) → (∀ children, p (el "DigestValue" [] children) = false) → find_all p (reference_el alg row) = [].
Proof.
  intros H1 H2 H3. destruct row as [[name ct] bs]. unfold reference_el, digest_nodes. rewrite find_el, H1. cbn [mbind list_bind app].
  unfold with_algorithm in *. by rewrite !find_el, H2, H3.
Qed.
Lemma find_in_rows alg rows :
  find_all (has_id (chars "idPackageObject")) (manifest_el alg rows) = [] ∧ find_all is_stamp (manifest_el alg rows) = [] ∧
  find_all is_manifest (manifest_el alg rows) = [manifest_el alg rows].
Proof.
  split; [|split]; [apply find_in_manifest; [intros row; by apply find_reference|done]..|]. unfold manifest_el. rewrite find_el.
  change (is_manifest _) with true. cbn [app]. f_equal. induction rows as [|row rows IH]; [done|]. cbn [fmap list_fmap mbind list_bind].
  rewrite find_reference by done. exact IH.
Qed.
End Finding.

Section Accepted.
Context `{Base64} `{DigestOracle} `{QuickXml} `{X509Crates}.
Lemma decode_base64_encoded bs : decode_base64 (b64_encode bs) = Ok bs.
Proof.
  unfold decode_base64. replace (List.filter _ (b64_encode bs)) with (b64_encode bs); [by rewrite b64_roundtrip|].
  pose proof (b64_alphabet bs) as Ha. induction Ha as [|c s Hc _ IH]; [done|]. cbn. rewrite <-IH.
  apply base64_plain, plain_props in Hc as [_ ->]. done.
Qed.
Definition hash_of (alg : VsixHashAlgorithm) : Hash :=
  match alg with VsixSha256 => HashSha256 | VsixSha384 => HashSha384 | VsixSha512 => HashSha512 end.
Lemma text_single name attrs t : text (el name attrs [NText t]) = t.
Proof. apply app_nil_r. Qed.
Lemma digest_nodes_signed alg attrs octets : check_digest (el "Reference" attrs (digest_nodes alg octets)) octets = Ok tt.
Proof.
  unfold check_digest. replace (algorithm _ _) with (Ok (digest_uri alg)) by done. cbn [mbind outcome_bind].
  replace (from_digest_uri (digest_uri alg)) with (Ok (hash_of alg)) by by destruct alg. cbn [mbind outcome_bind].
  replace (child _ _ _) with (Some (el "DigestValue" [] [NText (b64_encode (vsix_hash alg octets))])) by done. cbn [ok_or mbind outcome_bind].
  rewrite text_single, decode_base64_encoded. cbn. rewrite bool_decide_true; [done|by destruct alg].
Qed.
Lemma no_transforms attrs alg octets : child (el "Reference" attrs (digest_nodes alg octets)) DSIG (chars "Transforms") = None.
Proof. done. Qed.
(** The part is in the package as it was signed. *)
Definition holds_row (package : Package) (row : str * str * bytes) : Prop :=
  let '(name, content_type, bs) := row in
  (63 ∉ name) ∧ bmap_get (parts package) (part_key (chars "/" ++ name)) = Some bs ∧
  btree_get (content_types package) (part_key (chars "/" ++ name)) = Some content_type.
Definition row_key (row : str * str * bytes) : str := let '(name, _, _) := row in part_key (chars "/" ++ name).
Lemma row_checked package alg row : holds_row package row → check_part package (reference_el alg row) = Ok (row_key row).
Proof.
  destruct row as [[name ct] bs]. intros (Hn & Hp & Ht). unfold check_part, reference_el.
  replace (reference_path _) with (chars "/" ++ name, chars "ContentType=" ++ ct).
  - rewrite Hp. cbn [ok_or]. rewrite strip_prefix_app, Ht, bool_decide_true by done. unfold part_reference_octets. rewrite no_transforms. cbn [mbind outcome_bind negb bail_if].
    replace (starts_with (chars "/" ++ name) [47]) with true by (symmetry; apply starts_with_spec; by exists name). cbn [negb bail_if mbind outcome_bind].
    by rewrite digest_nodes_signed.
  - unfold reference_path. replace (default [] _) with ((chars "/" ++ name) ++ 63 :: (chars "ContentType=" ++ ct)) by done.
    rewrite split_once_app; [done|]. intros [?|?]%elem_of_app; [by apply (bool_decide_unpack (63 ∉ chars "/"))|done].
Qed.
Lemma rows_checked package alg rows : Forall (holds_row package) rows →
  check_parts package (children_named (manifest_el alg rows) DSIG (chars "Reference")) = Ok (row_key <$> rows).
Proof.
  intros Hr. replace (children_named _ _ _) with (reference_el alg <$> rows).
  - induction Hr as [|row rows Hrow _ IH]; [done|]. cbn [fmap list_fmap check_parts]. rewrite row_checked by done. cbn. by rewrite IH.
  - unfold children_named, child_elements, manifest_el. cbn [el e_children]. clear Hr. induction rows as [|row rows IH]; [done|].
    cbn [fmap list_fmap omap list_omap List.filter]. replace (is_named (reference_el alg row) DSIG (chars "Reference")) with true by by destruct row as [[??]?].
    by f_equal.
Qed.
(** Its elements are those a document can have. *)
Lemma readable_el name attrs children : scalars (chars name) → Forall (λ a, scalars (fst a) ∧ scalars (snd a)) attrs →
  inner_scope signature_scope attrs = signature_scope → (∃ t, children = [NText t] ∧ 13 ∉ t) ∨ Forall (is_element signature_scope) children →
  readable signature_scope (el name attrs children).
Proof. intros Hn Ha Hs Hc. apply readable_eq. by rewrite Hs. Qed.
Lemma readable_leaf name t : scalars (chars name) → 13 ∉ t → readable signature_scope (el name [] [NText t]).
Proof. intros Hn Ht. apply readable_el; [done|constructor|done|left; by eexists]. Qed.
Lemma readable_algorithm name uri : scalars (chars name) → scalars uri → readable signature_scope (with_algorithm name uri).
Proof.
  intros Hn Hu. apply readable_el; [done| |done|by right]. constructor; [|constructor]. split; [computed|done].
Qed.
Lemma base64_no_cr bs : 13 ∉ b64_encode bs.
Proof. intros Hin. pose proof (b64_alphabet bs) as Ha. rewrite Forall_forall in Ha. by specialize (Ha _ Hin). Qed.
Lemma readable_digest alg octets : Forall (is_element signature_scope) (digest_nodes alg octets).
Proof.
  constructor; [|constructor; [|constructor]].
  - apply readable_algorithm; [computed|destruct alg; computed].
  - apply readable_leaf; [computed|apply base64_no_cr].
Qed.
Lemma readable_reference alg row : scalar_row row → readable signature_scope (reference_el alg row).
Proof.
  destruct row as [[name ct] bs]. intros [Hn Hc]. apply readable_el; [computed| |done|right; apply readable_digest].
  constructor; [|constructor]. split; [computed|]. cbn [snd]. unfold part_uri. rewrite !Forall_app.
  split; [computed|]. split; [done|]. split; [computed|done].
Qed.
Lemma readable_properties time_value : 13 ∉ time_value → readable signature_scope (properties_el time_value).
Proof.
  intros Ht. apply readable_el; [computed|constructor|done|right].
  constructor; [|constructor]. apply readable_el; [computed|computed|done|right].
  constructor; [|constructor]. apply readable_eq. split; [computed|].
  split; [computed|]. split; [done|right].
  constructor; [|constructor; [|constructor]]; apply readable_eq; (split; [computed|]); (split; [constructor|]); (split; [done|left]).
  - eexists. split; [done|]. computed.
  - by eexists.
Qed.
Lemma readable_object alg rows time_value : Forall scalar_row rows → 13 ∉ time_value → readable signature_scope (object_el alg rows time_value).
Proof.
  intros Hr Ht. apply readable_el; [computed|computed|done|right]. constructor; [|constructor; [|constructor]]; [|by apply readable_properties].
  apply readable_el; [computed|constructor|done|right]. apply Forall_fmap. eapply Forall_impl; [exact Hr|]. apply readable_reference.
Qed.
Lemma readable_signed_info alg octets : readable signature_scope (signed_info_el alg octets).
Proof.
  apply readable_el; [computed|constructor|done|right]. constructor; [|constructor; [|constructor; [|constructor]]].
  - apply readable_algorithm; computed.
  - apply readable_algorithm; [computed|destruct alg; computed].
  - apply readable_el; [computed|computed|done|right; apply readable_digest].
Qed.
Lemma readable_signature alg rows time_value value cert : Forall scalar_row rows → 13 ∉ time_value →
  readable [] (signature_el alg rows time_value value cert).
Proof.
  intros Hr Ht. apply readable_eq. split; [computed|]. split; [computed|]. split; [done|right].
  constructor; [apply readable_signed_info|]. constructor; [apply readable_leaf; [computed|apply base64_no_cr]|].
  constructor; [|constructor; [by apply readable_object|constructor]].
  do 2 (apply readable_el; [computed|constructor|done|right]; constructor; [|constructor]). apply readable_leaf; [computed|apply base64_no_cr].
Qed.

Lemma doc_algorithms alg octets : algorithm (signed_info_el alg octets) (chars "CanonicalizationMethod") = Ok C14N_URI ∧
  C14nMode_from_uri C14N_URI = Some Inclusive ∧
  algorithm (signed_info_el alg octets) (chars "SignatureMethod") = Ok (signature_uri alg) ∧ from_signature_uri (signature_uri alg) = Ok (hash_of alg).
Proof. split; [done|]. split; [done|]. split; [done|]. by destruct alg. Qed.
Section Document.
Context (alg : VsixHashAlgorithm) (object : Element) (octets value cert_der : bytes).
Let doc : Element := signature_of alg object octets value cert_der.
Lemma doc_signature : is_named doc DSIG (chars "Signature") = true.
Proof. done. Qed.
Lemma doc_signed_info : child doc DSIG (chars "SignedInfo") = Some (signed_info_el alg octets).
Proof. done. Qed.
Lemma doc_value : child doc DSIG (chars "SignatureValue") = Some (el "SignatureValue" [] [NText (b64_encode value)]).
Proof. done. Qed.
Lemma doc_certificates : decode_all (key_info_certificates doc) = Ok [cert_der].
Proof.
  replace (key_info_certificates doc) with [el "X509Certificate" [] [NText (b64_encode cert_der)]] by done. cbn [decode_all].
  by rewrite text_single, decode_base64_encoded.
Qed.
Lemma doc_references : children_named (signed_info_el alg octets) DSIG (chars "Reference") = [object_reference_el alg octets].
Proof. done. Qed.
Lemma doc_object : octets = canonicalize object Inclusive → find_all (has_id (chars "idPackageObject")) doc = [object] →
  check_objects doc [object_reference_el alg octets] = Ok [object].
Proof.
  intros Ho Hf. cbn [check_objects]. replace (strip_prefix _ _) with (Some (chars "idPackageObject")) by done. cbn [ok_or mbind outcome_bind].
  unfold has_id in Hf. rewrite Hf. unfold object_reference_octets, object_reference_el. rewrite no_transforms. cbn [mbind outcome_bind].
  rewrite <-Ho, digest_nodes_signed. done.
Qed.
End Document.

(** C31: The verifier accepts what the signer writes.  The document made from a
    template, a signature value and a certificate is, character for character,
    the written form of the elements the verifier looks for, with a reference
    for every part of the template; so, with a reader that gives the events of
    documents written out, when the signer's key verifies the octets the
    template says to sign and the package holds the parts of the template and
    no others, the signature is accepted, with the signer's certificate and as
    many references as there are part names. *)
Theorem vsix_signature_verifies `{ZipCrate} `{!QuickXmlLaws} archive alg time_value t rows value cert_der signer_cert c package :
  template_from_prepared archive alg time_value = Ok t → template_rows archive = Ok rows →
  plain_text time_value → Forall scalar_row rows → value ≠ [] → cert_der ≠ [] →
  let xml := signature_xml t value (Some cert_der) in
  bmap_get (parts package) (signature_part package) = Some (encode_utf8 xml) →
  Forall (holds_row package) rows →
  (∀ k, k ∈ fst <$> parts package → k ≠ signature_part package → k ∈ row_key <$> rows) →
  certificate_from_der cert_der = Some signer_cert → parse_cert_bytes cert_der = Ok c →
  verify_rsa (hash_of alg) signer_cert (signed_info t) value = Ok tt →
  xml = document_text (signature_el alg rows time_value value cert_der) ∧
  verify_xml_signature package =
    Ok (mk_verified signer_cert [c] value None (Z.of_nat (size (list_to_set (C := gset str) (row_key <$> rows))))).
Proof.
  intros Ht Hrows Htime Hs Hv Hcd xml Hp Hh Hall Hcert Hc Hrsa. pose proof (signature_document _ _ _ _ _ value cert_der Ht Hrows Htime) as Hxml.
  fold xml in Hxml. split; [exact Hxml|]. rewrite Hxml in Hp. clear Hxml xml.
  apply template_elements in Ht as (rows' & Hr & _ & _ & Hi & _). rewrite Hrows in Hr. injection Hr as <-.
  assert (13 ∉ time_value) as Hcr by (destruct Htime as (_ & _ & Hx); intros Hin; rewrite Forall_forall in Hx; apply (Hx _ Hin); computed).
  rewrite Hi in Hrsa. assert (Hdoc : parse_document (encode_utf8 (document_text (signature_el alg rows time_value value cert_der)))
    = Ok (signature_el alg rows time_value value cert_der)) by (apply parse_document_text; [by apply writable_signature|by apply readable_signature]).
  set (xml := encode_utf8 (document_text (signature_el alg rows time_value value cert_der))) in *. clearbody xml.
  unfold signature_el in Hdoc. remember (canonicalize (object_el alg rows time_value) Inclusive) as octets eqn:Hoct.
  pose proof (find_signed_object alg (manifest_el alg rows) time_value octets value cert_der) as Hid.
  pose proof (find_stamps alg (manifest_el alg rows) time_value octets value cert_der) as Hst.
  pose proof (find_manifests (manifest_el alg rows) time_value) as Hm.
  destruct (find_in_rows alg rows) as (H5 & H6 & H7). rewrite H5 in Hid. rewrite H6 in Hst. rewrite H7 in Hm.
  change (object_of (manifest_el alg rows) time_value) with (object_el alg rows time_value) in *.
  remember (object_el alg rows time_value) as object eqn:Hob. unfold verify_xml_signature. rewrite Hp. cbn [unwrap mbind outcome_bind].
  rewrite Hdoc. cbn [with_context mbind outcome_bind]. rewrite doc_signature. cbn [negb bail_if mbind outcome_bind]. rewrite doc_signed_info.
  cbn [ok_or mbind outcome_bind]. destruct (doc_algorithms alg octets) as (Ha1 & Ha2 & Ha3 & Ha4). rewrite Ha1. cbn [mbind outcome_bind].
  rewrite Ha2. cbn [ok_or mbind outcome_bind]. rewrite Ha3. cbn [mbind outcome_bind]. rewrite Ha4. cbn [mbind outcome_bind].
  rewrite doc_value. cbn [ok_or mbind outcome_bind]. rewrite text_single, decode_base64_encoded. cbn [mbind outcome_bind].
  rewrite doc_certificates. cbn [mbind outcome_bind].
  replace (find_signer _ _ _ _) with (Some signer_cert).
  2:{ unfold find_signer. cbn [omap list_omap]. rewrite Hcert. cbn [List.find]. by rewrite Hrsa. }
  cbn [ok_or mbind outcome_bind parse_certs]. rewrite Hc. cbn [mbind outcome_bind]. rewrite doc_references, (doc_object alg object) by done.
  cbn [mbind outcome_bind]. unfold has_manifest, signed_manifest_references. cbn [mbind list_bind]. rewrite app_nil_r.
  unfold is_manifest in Hm. rewrite Hm. cbn [mbind list_bind]. rewrite app_nil_r. rewrite bool_decide_false by done. cbn [negb bail_if mbind outcome_bind].
  rewrite rows_checked by done. cbn [mbind outcome_bind]. replace (existsb _ _) with false.
  2:{ symmetry. apply not_true_iff_false. intros (k & Hk & [Hk1 Hk2]%andb_true_iff)%existsb_exists. apply list_elem_of_In in Hk. apply negb_true_iff, bool_decide_eq_false in Hk1, Hk2. auto. }
  cbn [bail_if mbind outcome_bind]. unfold is_stamp in Hst. rewrite Hst. done.
Qed.
End Accepted.

(** ** A package to run on *)

Definition toy_part (name : string) (data : bytes) : ZipFile :=
  mk_zf (chars name) (encode_utf8 (chars name)) Stored 0 (len data) (len data) 0 0 0 [] (Ok data).
Definition toy_types_part : bytes :=
  encode_utf8 (chars "<Types><Default Extension=" ++ q (chars "txt") ++ chars " ContentType=" ++ q (chars "text/plain")
    ++ chars "/><Default Extension=" ++ q (chars "rels") ++ chars " ContentType=" ++ q RELATIONSHIPS_CONTENT_TYPE ++ chars "/></Types>").
Definition toy_archive : ZipArchive :=
  let files := [toy_part "[Content_Types].xml" toy_types_part; toy_part "_rels/.rels" (lit "<Relationships/>"); toy_part "Doc/A&B.txt" (lit "hello")] in
  mk_archive (Ok <$> files) (zf_name <$> files)
    (λ name, ok_or (List.find (λ f, bool_decide (zf_name f = name)) files) "specified file not found in archive") (Ok <$> files).
Definition toy_time : str := date_text (mk_datetime 2026 3 5 12 30 58) 7.
Definition toy_template : VsixSignatureTemplate :=
  default (mk_template [] [] [] 0) (ok_opt (@template_from_prepared StdBase64 ToyDigest toy_archive VsixSha256 toy_time)).
Definition toy_rows : list (str * str * bytes) := default [] (ok_opt (template_rows toy_archive)).
Definition toy_signer : bytes := lit "signer,root".
Definition toy_value : bytes := toy_sign toy_signer (signed_info toy_template).
Definition toy_xml : str := @signature_xml StdBase64 toy_template toy_value (Some toy_signer).
Definition toy_package_at (part : string) : Package :=
  let rows := (λ '(name, ct, bs), (part_key (chars "/" ++ name), ct, bs)) <$> toy_rows in
  mk_package (foldr (λ '(k, _, bs), bmap_insert k bs) [(chars part, encode_utf8 toy_xml)] rows) (foldr (λ '(k, ct, _), btree_insert k ct) [] rows) (chars part).
Definition toy_signed_package : Package := toy_package_at "package/services/digital-signature/xml-signature/psign-signature.psdsxs".
Definition toy_verified : VerifiedXmlSignature :=
  mk_verified (mk_certificate None (Some (der_tlv 0x02 toy_signer)) (Some toy_signer) (Some toy_signer) toy_signer)
    [mk_cert (chars "signer") (chars "root") (Some toy_signer)] toy_value None 2.
Definition toy_cert_found : Certificate := mk_certificate None (Some (der_tlv 0x02 toy_signer)) (Some toy_signer) (Some toy_signer) toy_signer.
Lemma vsix_signature_verifies_witness :
  toy_xml = document_text (@signature_el StdBase64 ToyDigest VsixSha256 toy_rows toy_time toy_value toy_signer) ∧
  @verify_xml_signature StdBase64 ToyDigest SimpleXml ToyX509 toy_signed_package =
    Ok (mk_verified toy_cert_found [mk_cert (chars "signer") (chars "root") (Some toy_signer)] toy_value None
      (Z.of_nat (size (list_to_set (C := gset str) (row_key <$> toy_rows))))).
Proof.
  apply (@vsix_signature_verifies StdBase64 ToyDigest SimpleXml ToyX509 (Build_ZipCrate (λ _, Panic)) SimpleXmlLaws toy_archive VsixSha256 toy_time
    toy_template toy_rows toy_value toy_signer).
  - by vm_compute.
  - by vm_compute.
  - split; [done|]. split; by apply (bool_decide_unpack _); vm_compute.
  - change (Forall scalar_row toy_rows). repeat (constructor; [split; by apply (bool_decide_unpack _); vm_compute|]). constructor.
  - by vm_compute.
  - done.
  - by vm_compute.
  - repeat (constructor; [split; [by apply (bool_decide_unpack _); vm_compute|split; by vm_compute]|]). constructor.
  - assert (Hall : Forall (λ k, k = signature_part toy_signed_package ∨ k ∈ row_key <$> toy_rows) (fst <$> parts toy_signed_package)).
    { by apply (bool_decide_unpack _); vm_compute. }
    intros k Hk Hn. rewrite Forall_forall in Hall. by destruct (Hall k Hk).
  - done.
  - done.
  - by vm_compute.
Defined.
