(* ===== verification/VsixBinds.v ===== *)
(** What an accepted VSIX signature says of the package: it covers every part,
    and binds each of them to its bytes and its content type. *)

From S2P Require Import Prelude.
From S2P Require Import RustStr.
From S2P Require Import Base64.
From S2P Require Import PeDigest.
From S2P Require Import AppxTypes.
From S2P Require Import AppxDigest.
From S2P Require Import Online.
From S2P Require Import BTree.
From S2P Require Import C14n.
From S2P Require Import C14nRead.
From S2P Require Import AppxZip.
From S2P Require Import ZipWrite.
From S2P Require Import ZipStored.
From S2P Require Import NuGet.
From S2P Require Import CodeXml.
From S2P Require Import Vsix.
From S2P Require Import VsixEmbed.
From S2P Require Import VsixVerify.
From S2P Require Import VsixSign.

Section Covers.
Context `{Base64} `{DigestOracle} `{QuickXml} `{X509Crates}.
(** The digest of a reference is that of the octets. *)
Definition signs (reference : Element) (octets : bytes) : Prop :=
  ∃ uri h value, algorithm reference (chars "DigestMethod") = Ok uri ∧ from_digest_uri uri = Ok h ∧
    child reference DSIG (chars "DigestValue") = Some value ∧ decode_base64 (text value) = Ok (hash_digest h octets).
(** An object [SignedInfo] references: the only element with its identifier. *)
Definition signed_object (doc signed_info object : Element) : Prop :=
  ∃ r id octets, r ∈ children_named signed_info DSIG (chars "Reference") ∧ attr r (chars "URI") = Some (35 :: id) ∧
    find_all (λ e, bool_decide (attr e (chars "Id") = Some id)) doc = [object] ∧
    object_reference_octets r object = Ok octets ∧ signs r octets.
(** A reference of a manifest inside a signed object. *)
Definition signed_reference (doc signed_info r : Element) : Prop :=
  ∃ object manifest, signed_object doc signed_info object ∧
    manifest ∈ find_all (λ e, is_named e DSIG (chars "Manifest")) object ∧ r ∈ children_named manifest DSIG (chars "Reference").
(** The reference names the part and carries the digest of its octets. *)
Definition covers (package : Package) (r : Element) (k : str) (bs : bytes) : Prop :=
  ∃ path query octets, reference_path r = (path, query) ∧ part_key path = k ∧ part_reference_octets r bs = Ok octets ∧ signs r octets ∧
    ∀ ct, query = chars "ContentType=" ++ ct → btree_get (content_types package) k = Some ct.

Lemma check_digest_Ok r octets : check_digest r octets = Ok tt → signs r octets.
Proof.
  unfold check_digest. intros Hc. inv_ok Hc. apply negb_false_iff, bool_decide_eq_true in Hc as <-. by do 3 eexists.
Qed.
Lemma check_objects_Ok doc refs objects : check_objects doc refs = Ok objects →
  ∀ o, o ∈ objects → ∃ r id octets, r ∈ refs ∧ attr r (chars "URI") = Some (35 :: id) ∧
    find_all (λ e, bool_decide (attr e (chars "Id") = Some id)) doc = [o] ∧ object_reference_octets r o = Ok octets ∧ signs r octets.
Proof.
  revert objects. induction refs as [|r refs IH]; intros objects; cbn [check_objects]; [by intros [= <-] ? ?%not_elem_of_nil|].
  intros Hc. apply bind_Ok in Hc as (id & Hid & Hc). apply ok_or_Ok, strip_prefix_Some in Hid.
  destruct (find_all _ doc) as [|target [|]] eqn:Ht; [done| |done]. inv_ok Hc. intros o [->|Ho]%elem_of_cons.
  - exists r, id, r0. destruct (attr r (chars "URI")) as [uri|] eqn:Hu; cbn in Hid; [subst uri|done].
    destruct r1. repeat split; eauto using check_digest_Ok. by left.
  - destruct (IH _ E1 _ Ho) as (r' & id' & octets & Hr & ?). exists r', id', octets. split; [by right|done].
Qed.
Lemma check_part_Ok package r k : check_part package r = Ok k → ∃ bs, bmap_get (parts package) k = Some bs ∧ covers package r k bs.
Proof.
  unfold check_part. destruct (reference_path r) as [path query] eqn:Hp. intros Hc. inv_ok Hc.
  exists r0. split; [done|]. destruct r3. exists path, query, r2. repeat split; [done..|by apply check_digest_Ok|].
  intros ct ->. rewrite strip_prefix_app in E1. apply bail_if_Ok, negb_false_iff, bool_decide_eq_true in E1. congruence.
Qed.
Lemma check_parts_Ok package refs keys : check_parts package refs = Ok keys →
  (∀ k, k ∈ keys → ∃ r, r ∈ refs ∧ check_part package r = Ok k) ∧ (∀ r, r ∈ refs → ∃ k, check_part package r = Ok k).
Proof.
  revert keys. induction refs as [|r refs IH]; intros keys; cbn [check_parts].
  - intros [= <-]. split; by intros ? ?%not_elem_of_nil.
  - intros Hc. inv_ok Hc. destruct (IH _ E0) as [IH1 IH2]. split.
    + intros k [->|Hk]%elem_of_cons; [exists r; split; [by left|done]|]. destruct (IH1 _ Hk) as (r' & ? & ?). exists r'. split; [by right|done].
    + intros r' [->|Hr]%elem_of_cons; [by eexists|by apply IH2].
Qed.
Lemma signed_references doc signed_info objects r :
  check_objects doc (children_named signed_info DSIG (chars "Reference")) = Ok objects → r ∈ signed_manifest_references objects →
  signed_reference doc signed_info r.
Proof.
  intros Ho (m & Hr & (o & Hm & Hin)%list_elem_of_bind)%list_elem_of_bind. exists o, m. split; [|done].
  exact (check_objects_Ok _ _ _ Ho _ Hin).
Qed.
(** What an accepted signature consists of *)
Definition accepted (package : Package) (sig : VerifiedXmlSignature) (doc signed_info : Element) (objects : list Element) : Prop :=
  ∃ xml uri mode sig_uri hash, bmap_get (parts package) (signature_part package) = Some xml ∧ parse_document xml = Ok doc ∧
    child doc DSIG (chars "SignedInfo") = Some signed_info ∧
    algorithm signed_info (chars "CanonicalizationMethod") = Ok uri ∧ C14nMode_from_uri uri = Some mode ∧
    algorithm signed_info (chars "SignatureMethod") = Ok sig_uri ∧ from_signature_uri sig_uri = Ok hash ∧
    verify_rsa hash (signer sig) (canonicalize signed_info mode) (signature_value sig) = Ok tt ∧
    check_objects doc (children_named signed_info DSIG (chars "Reference")) = Ok objects ∧
    (∀ r, r ∈ signed_manifest_references objects → ∃ k, check_part package r = Ok k) ∧
    ∀ k, k ∈ fst <$> parts package → k ≠ signature_part package → ∃ r, r ∈ signed_manifest_references objects ∧ check_part package r = Ok k.
Lemma find_signer_Ok x509 h octets signature cert : find_signer x509 h octets signature = Some cert → verify_rsa h cert octets signature = Ok tt.
Proof. intros [_ Hf]%List.find_some. by destruct (verify_rsa h cert octets signature) as [[]| |]. Qed.
Lemma verify_accepted package sig : verify_xml_signature package = Ok sig → ∃ doc signed_info objects, accepted package sig doc signed_info objects.
Proof.
  unfold verify_xml_signature. intros Hv. inv_ok Hv. exists r0, r1, r11. apply with_context_Ok in E0.
  apply check_parts_Ok in E14 as [Hk Hr]. exists r, r2, r3, r4, r5. repeat (split; [by eauto using find_signer_Ok|]).
  intros k Hin Hne. apply Hk. destruct (decide (k ∈ r12)) as [|Hn]; [done|]. exfalso.
  rewrite <-not_true_iff_false, existsb_exists in E15. apply E15. exists k. rewrite <-list_elem_of_In. split; [done|].
  by rewrite !bool_decide_false.
Qed.

(** C29: An accepted signature covers the package.  The signer's key verifies
    the canonical octets of [SignedInfo], and every part other than the
    signature itself is named, with the digest of its octets, by a reference
    of a manifest inside an object whose own digest [SignedInfo] holds. *)
Theorem vsix_signature_covers_package package sig : verify_xml_signature package = Ok sig →
  ∃ xml doc signed_info uri mode sig_uri hash, bmap_get (parts package) (signature_part package) = Some xml ∧
    parse_document xml = Ok doc ∧ child doc DSIG (chars "SignedInfo") = Some signed_info ∧
    algorithm signed_info (chars "CanonicalizationMethod") = Ok uri ∧ C14nMode_from_uri uri = Some mode ∧
    algorithm signed_info (chars "SignatureMethod") = Ok sig_uri ∧ from_signature_uri sig_uri = Ok hash ∧
    verify_rsa hash (signer sig) (canonicalize signed_info mode) (signature_value sig) = Ok tt ∧
    ∀ k bs, bmap_get (parts package) k = Some bs → k ≠ signature_part package →
      ∃ r, signed_reference doc signed_info r ∧ covers package r k bs.
Proof.
  intros (doc & si & objects & xml & uri & mode & sig_uri & hash & H5 & H6 & H7 & H8 & H9 & H10 & H11 & H12 & Ho & _ & Hk)%verify_accepted.
  exists xml, doc, si, uri, mode, sig_uri, hash. repeat (split; [done|]). intros k bs Hb Hne.
  destruct (Hk k) as (r & Hr & Hc); [by apply bmap_get_key; eexists|done|]. exists r. split; [by eapply signed_references|].
  apply check_part_Ok in Hc as (bs' & Hb' & Hc). by rewrite Hb in Hb'; injection Hb' as <-.
Qed.

(** The octets of a part under a reference of two packages have the digest the
    reference names. *)
Definition same_digest (r : Element) (octets octets' : bytes) : Prop :=
  ∃ uri h, algorithm r (chars "DigestMethod") = Ok uri ∧ from_digest_uri uri = Ok h ∧ hash_digest h octets = hash_digest h octets'.
Lemma signs_both r o o' : signs r o → signs r o' → same_digest r o o'.
Proof.
  intros (uri & h & value & Hu & Hh & Hv & Hd) (uri' & h' & value' & Hu' & Hh' & Hv' & Hd'). simplify_eq.
  exists uri', h'. split_and!; [done..|congruence].
Qed.
Lemma covers_both package package' r k bs bs' : covers package r k bs → covers package' r k bs' →
  ∃ path query octets octets', reference_path r = (path, query) ∧ part_key path = k ∧
    part_reference_octets r bs = Ok octets ∧ part_reference_octets r bs' = Ok octets' ∧ same_digest r octets octets' ∧
    ∀ ct, query = chars "ContentType=" ++ ct → btree_get (content_types package) k = Some ct ∧ btree_get (content_types package') k = Some ct.
Proof.
  intros (path & query & o & Hp & Hk & Ho & Hs & Ht) (path' & query' & o' & Hp' & _ & Ho' & Hs' & Ht'). rewrite Hp in Hp'. injection Hp' as <- <-.
  exists path, query, o, o'. repeat split; eauto using signs_both.
Qed.

(** C30: The signature part binds the other parts.  Where two packages with the
    same signature part are both accepted, every part of one is a part of the
    other under a reference signed in that document, and the octets the
    reference gives for the part in the one and in the other have the same
    digest under the hash the reference names: they are the same, or they are
    two inputs on which that hash collides.  The octets are the bytes of the
    part when the reference has no transforms, and the content types are the
    same when the reference names one. *)
Theorem vsix_signature_binds_parts package package' sig sig' k bs :
  verify_xml_signature package = Ok sig → verify_xml_signature package' = Ok sig' →
  bmap_get (parts package) (signature_part package) = bmap_get (parts package') (signature_part package') →
  bmap_get (parts package) k = Some bs → k ≠ signature_part package →
  ∃ xml doc signed_info r path query bs' octets octets',
    bmap_get (parts package) (signature_part package) = Some xml ∧ parse_document xml = Ok doc ∧
    child doc DSIG (chars "SignedInfo") = Some signed_info ∧
    signed_reference doc signed_info r ∧ reference_path r = (path, query) ∧ part_key path = k ∧
    bmap_get (parts package') k = Some bs' ∧
    part_reference_octets r bs = Ok octets ∧ part_reference_octets r bs' = Ok octets' ∧ same_digest r octets octets' ∧
    (child r DSIG (chars "Transforms") = None → octets = bs ∧ octets' = bs') ∧
    ∀ ct, query = chars "ContentType=" ++ ct → btree_get (content_types package) k = Some ct ∧ btree_get (content_types package') k = Some ct.
Proof.
  intros (doc & si & objects & xml & uri & mode & sig_uri & hash & H5 & H6 & H7 & _ & _ & _ & _ & _ & Ho & _ & Hk)%verify_accepted.
  intros (doc' & si' & objects' & xml' & uri' & mode' & sig_uri' & hash' & H5' & H6' & H7' & _ & _ & _ & _ & _ & Ho' & Hr' & _)%verify_accepted.
  intros Hx Hb Hne. rewrite H5, H5' in Hx. injection Hx as <-. rewrite H6 in H6'. injection H6' as <-. rewrite H7 in H7'. injection H7' as <-.
  rewrite Ho in Ho'. injection Ho' as <-. destruct (Hk k) as (r & Hr & Hc); [by apply bmap_get_key; eexists|done|].
  apply check_part_Ok in Hc as (bs0 & Hb0 & Hc). simplify_eq. destruct (Hr' _ Hr) as (k' & (bs' & Hb' & Hc')%check_part_Ok).
  assert (k' = k) as ->. { destruct Hc as (? & ? & ? & ? & ? & _), Hc' as (? & ? & ? & ? & ? & _). congruence. }
  destruct (covers_both _ _ _ _ _ _ Hc Hc') as (path & query & o & o' & Hp & Hkey & Hoct & Hoct' & Hd & Ht).
  exists xml, doc, si, r, path, query, bs', o, o'. repeat (split; [done || by eapply signed_references|]). split; [|done].
  intros Hn. unfold part_reference_octets in Hoct, Hoct'. rewrite Hn in Hoct, Hoct'. split; congruence.
Qed.
End Covers.

Lemma vsix_signature_covers_package_witness :
  @verify_xml_signature StdBase64 ToyDigest SimpleXml ToyX509 toy_signed_package = Ok toy_verified ∧
  ∃ xml doc signed_info uri mode sig_uri hash, bmap_get (parts toy_signed_package) (signature_part toy_signed_package) = Some xml ∧
    @parse_document SimpleXml xml = Ok doc ∧ child doc DSIG (chars "SignedInfo") = Some signed_info ∧
    algorithm signed_info (chars "CanonicalizationMethod") = Ok uri ∧ C14nMode_from_uri uri = Some mode ∧
    algorithm signed_info (chars "SignatureMethod") = Ok sig_uri ∧ from_signature_uri sig_uri = Ok hash ∧
    @verify_rsa ToyX509 hash (signer toy_verified) (canonicalize signed_info mode) (signature_value toy_verified) = Ok tt ∧
    ∀ k bs, bmap_get (parts toy_signed_package) k = Some bs → k ≠ signature_part toy_signed_package →
      ∃ r, @signed_reference StdBase64 ToyDigest doc signed_info r ∧ @covers StdBase64 ToyDigest SimpleXml toy_signed_package r k bs.
Proof.
  assert (Hv : @verify_xml_signature StdBase64 ToyDigest SimpleXml ToyX509 toy_signed_package = Ok toy_verified) by by vm_compute.
  split; [done|]. exact (vsix_signature_covers_package toy_signed_package toy_verified Hv).
Defined.
(** The same signature in another part *)
Definition toy_moved_package : Package := toy_package_at "package/services/digital-signature/xml-signature/moved.psdsxs".
Lemma vsix_signature_binds_parts_witness :
  ∃ xml doc signed_info r path query bs' octets octets',
    bmap_get (parts toy_signed_package) (signature_part toy_signed_package) = Some xml ∧ @parse_document SimpleXml xml = Ok doc ∧
    child doc DSIG (chars "SignedInfo") = Some signed_info ∧
    @signed_reference StdBase64 ToyDigest doc signed_info r ∧ reference_path r = (path, query) ∧
    part_key path = chars "doc/a&b.txt" ∧ bmap_get (parts toy_moved_package) (chars "doc/a&b.txt") = Some bs' ∧
    @part_reference_octets SimpleXml r (lit "hello") = Ok octets ∧ @part_reference_octets SimpleXml r bs' = Ok octets' ∧
    @same_digest ToyDigest r octets octets' ∧
    (child r DSIG (chars "Transforms") = None → octets = lit "hello" ∧ octets' = bs') ∧
    ∀ ct, query = chars "ContentType=" ++ ct → btree_get (content_types toy_signed_package) (chars "doc/a&b.txt") = Some ct ∧
      btree_get (content_types toy_moved_package) (chars "doc/a&b.txt") = Some ct.
Proof.
  apply (@vsix_signature_binds_parts StdBase64 ToyDigest SimpleXml ToyX509 toy_signed_package toy_moved_package toy_verified toy_verified); by vm_compute.
Defined.

(** ** A package signed and verified *)

Definition toy_provider (_ : unit) (alg : VsixHashAlgorithm) (octets : bytes) : outcome (bytes * bytes) := Ok (toy_sign toy_signer octets, toy_signer).
Definition toy_signing : outcome bytes :=
  @sign_vsix StdBase64 ToyDigest StoredZip StoredWriter unit (mk_datetime 2026 3 5 12 30 58, 712) (Ok tt) toy_provider None false (Ok toy_vsix) VsixSha256.
Example signed_and_verified :
  (bs ← toy_signing; sig ← @verify_vsix_signature_bytes StdBase64 ToyDigest StoredZip SimpleXml ToyX509 (λ c, Some (subject_public_key_bits c)) bs;
   Ok (signer_certificate_der sig, vs_reference_count sig)) = Ok (toy_signer, 4).
Proof. by vm_compute. Qed.
